(* ===== verification/_CoqProject ===== *)
-Q . S2P
Prelude.v
PyStr.v
PyDict.v
PyIp.v
MpdpWire.v
DpRing.v
RingSteps.v
Checksum.v
Ipv6Translation.v
DhcpIntent.v
DhcpServer.v
DhcpFrames.v
DhcpLeases.v
DhcpFilter.v
AhoCorasick.v
RegexDfa.v
RegexCorrect.v
RegexTable.v
RegexGrammar.v
FpgaEmu.v
PyXml.v
PyIp6.v
PolicyObjects.v
Ipv6Settings.v
PolicyConfig.v
NatPolicy.v
PolicyPlan.v
SecurityNft.v
NetlinkEvents.v
SessionJournal.v
PyTime.v
CommitLock.v
CommitApply.v
SecurityTokens.v
SecurityLease.v
SecurityApply.v
CpuPlanes.v
CpuLists.v
PyJson.v
L3Offload.v
SessionFeed.v
JwtKeys.v
Accounts.v
ConsoleAccounts.v
Watchdog.v
DbCompiler.v
DbLoad.v
HexSig.v
AntiVirus.v
SigDb.v
FastPath.v
PatchPackage.v
Patch.v
Alerts.v
Sysd.v
Planed.v
AgentChannel.v
