(* ===== verification/Prelude.v ===== *)
(** * FFN-NGFW: a verification of the firewall's own logic

    FFN-NGFW is a next-generation firewall: a management plane in Python (directory [opt] of the sources) that edits
    and commits a configuration, compiles policies, drives a Linux or hardware data plane and follows its sessions.
    This library models the parts that decide something on their own and proves what they promise.  It is a shallow
    embedding: a Python function is a Rocq function, an exception a value of an error type ([result]), shared state is
    passed explicitly, and everything outside the process (kernel, files, clocks, sockets, other processes) enters as
    the inputs and outcomes of a call.  All definitions are executable.

    ** The program and the files

    - Foundations.  [Prelude] (this file): results, bytes, [struct], slices, tactics.  [PyStr]: Python strings as
      code points, UTF-8 and decimal digits.  [PyDict], [PyJson]: insertion-ordered dictionaries, JSON values, [sorted].  [PyIp], [PyIp6]: the
      [ipaddress] texts and networks.  [PyXml]: element trees and the XPath subset in use.  [PyTime]: clock readings.
    - The channel between the planes.  [MpdpWire] is [ffn_mpdp_wire.py]: the message codec, the in-memory and file
      channels.  [DpRing] is [ffn_dpring.py] against [dataplanes/ffn_dp_abi.h]: the shared-memory command rings, their
      handshake, and both ends' push and drain on one byte region; [RingSteps] the same operations access by access,
      with the two sides running at the same time.
    - Packets.  [Checksum] and [Ipv6Translation] are [ffn_ipv6_translation.py] (NAT64, NPTv6, ICMP errors);
      [Ipv6Settings] its configuration records.
    - Matching.  [AhoCorasick] is the matcher of [inline_payload_det.py]; [RegexDfa], [RegexCorrect], [RegexTable],
      [RegexGrammar] and [FpgaEmu] are [ffn_fpga_emu.py]: the regular-expression parser, the automaton, its table, the
      grammar of patterns the parser is measured against, and the facade.
    - DHCP.  [DhcpIntent], [DhcpServer], [DhcpFrames], [DhcpLeases] and [DhcpFilter] are [ffn_dhcp_server.py]: intent
      validation, codec, lease table, message handlers, frames, the trace properties and the BPF program.
    - Policy.  [PolicyObjects] is the resolver of [ffn_nat_policy.py]; [PolicyConfig] the editing contract of
      [ffn_policy_config.py]; [NatPolicy] and [PolicyPlan] the compilers of [ffn_nat_policy.py] and
      [ffn_policy_plan.py] with the first-match diagnostic; [SecurityNft] the nftables table of
      [ffn_security_nft.py].
    - Sessions and enforcement.  [NetlinkEvents] and [SessionJournal] are [ffn_session_events.py]: conntrack decoding,
      the durable journal, the collector.  [SecurityTokens], [SecurityLease] and [SecurityApply] are
      [ffn_security_runtime.py]: the tokens that tie a connection to its rule, the supervisor that keeps transit open,
      and the transaction that replaces a generation.  [L3Offload] is [ffn_l3_offload.py]: the routes, links and
      neighbours a session would use in hardware; [SessionFeed] is [ffn_session_feed.py]: the observation that joins
      the applied policy, its tokens, the conntrack events and that plan.
    - Commit.  [CommitLock] is [ffn_config_lock.py]; [CommitApply] is [ffn_commit_apply.py].
    - Administrators.  [JwtKeys] is [ffn_jwt_keys.py]; [Accounts] the account handlers of [ffn_manager.py] with
      [ffn_authorization.py] and [ffn_console_identity.py] on the users table; [ConsoleAccounts] is
      [ffn_console_accounts.py]; [Watchdog] the petting loop of [ffn_watchdogd.py].
    - Signatures.  [DbCompiler] and [DbLoad] are [db_compiler.py]: the line formats, table words and records, the
      compiled file, and the device writes of a load or an update.  [HexSig] and [AntiVirus] are [ffn_antivirus.py]: body
      signatures as expressions with their prefilter anchors, and the scanner; [SigDb] is [ffn_sigdb.py], the table the
      scanner is built from; [FastPath] is [ffn_fastpath_compile.py], the same rows as tables for the packet path.
    - Updates.  [PatchPackage] and [Patch] are [ffn_patch.py]: what a package may hold, and its installation, rollback and
      recovery on a world where every step can fail and the machine can stop.
    - Operations.  [Planed] is [ffn_planed.py]: requests to the controllers of a plane, the durable journal, relays and
      reconciliation; [AgentChannel] is [ffn_agent_protocol.py] with the agent half of [ffn_control_plane.py]: reports of the planes and
      what the control daemon makes of them; [Sysd] is [ffn_sysd.py]: the state bus; [Alerts] is [ffn_alerts.py]: when trouble
      becomes an alert.
    - CPUs.  [CpuPlanes] and [CpuLists] are [ffn_cpu_planes.py] with the grouping of [ffn_cpuisol.py].

    The parts meet in theorems, not only in imports: [SecurityNft.chain_first_match] relates the kernel chain to the
    planner's walk through the class [NftElements] (what a set element of nftables matches), [SecurityApply] uses the
    class [NftTables] (a listing loads back) and ends in a state the drift check of [SecurityLease] accepts, [SecurityTokens.
    tokens_durable] joins the compiler, the label of the chain, the event decoder and the journal, the DHCP trace
    theorems join validation, lease table and frames, [CommitApply.await_apply_sound] the request and the wait,
    [Accounts.session_survives_rotation] the key ring, the token and the request, and
    [SessionFeed.observed_plan_authorised] the compiler, the tokens, the events and the route planner,
    [SigDb.imported_hash_detected] the import, the table and the scanner, [Planed.relayed_applied_truthful] a relay, a lossy link and
    the node behind it, and [AgentChannel.agent_accepted] the agent and its supervisor.

    ** What the theorems show

    - Round trips and codecs: every wire message, conntrack message, DHCP reply, IPv6 translation, plane file and
      validated DHCP record is read back as written; truncated or foreign input is refused.
    - Equivalence and refinement: both ends of the ring agree on every byte, the rings are queues over every
      interleaving of accesses as long as a counter is read and stored in one, Aho-Corasick and
      the regex table find exactly the occurrences and longest matches of a reference definition, the BPF program
      accepts exactly its frames, the nftables chain decides exactly as the first matching rule.
    - Safety over histories: DHCP leases, the configuration lock, the journal, the collector, the transit lease and
      the checkpoint, each along every sequence of operations and environment events; a patch is all or nothing along every
      sequence of faults, machine stops and recoveries; a write to a plane is started at most once and never over an unknown
      outcome of its resource, through crashes, repeated requests and a lossy relay.
    - Reports: an alert is open exactly while its condition is confirmed, an agent is ready exactly after a fresh accepted report,
      and the state bus restarts with exactly its persisted values when no write overlaps the last one of a stop.
    - Detection: the scanner reports exactly what some well-formed signature matches, a SHA-256 line of a feed reaches every
      scanner built from a table that has it, and the tables of the packet path hold every signature.
    - Authority: requests change accounts only for administrators, an administrator remains, console UIDs are never
      reused, sessions outlive key rotations, and what the session feed offers for hardware is a granted connection of
      the applied policy over the longest-match route.
    - Types and bounds: what validation accepts (DHCP intents, NAT rules, edited rulebases) satisfies the invariants
      the consumers rely on; tokens fit their label.
    - Termination: the regex compiler, the object resolver, the decoders and the union-find end on every input.
    - Errors that the code does have are theorems too ([DhcpLeases.decline_evicts], [DpRing.c_header_refused],
      [Accounts.concurrent_demotion_leaves_none], [DbCompiler.policy_rule_widened], [DbLoad.update_clears_filter],
      [DbLoad.update_ignores_vsys], [Watchdog.strikes_are_ignored], [AntiVirus.nibble_signature_missed],
      [SigDb.accepted_row_stops_scanner], [Patch.nested_patch_stuck], [Sysd.bad_prefix_breaks_set], [Sysd.failed_snapshot_lost],
      [Sysd.late_write_reverts], [RingSteps.torn_counter], [AntiVirus.size_conflict_missed], [FastPath.zero_digest_lost],
      [Planed.unconfigured_apply_blocks], [Planed.relay_row_never_resolved], [Alerts.reboot_behind_gap_missed]).

    ** Fuel and bounds

    Recursion that is not structural takes fuel computed from its input, and a theorem shows that it is enough: the
    length of the text or datagram for parsers and decoders, the number of subsets that can occur for the regex
    table, the nesting limit the code itself has (a depth of eighteen) for the resolver, the number of
    CPUs for [owner].  Byte and address arithmetic keeps its width; Python integers are unbounded.  Times are
    rationals.

    ** Not modelled, and why

    The FastAPI manager apart from its account handlers, the browser interface (framework code), the daemons that only move bytes or run
    subprocesses, hardware detection, the machine-learning and cloud detectors (floating point, third-party code),
    image builders, and the C dataplanes.  Of modelled files: logging, file formats of reports, hashes (functions
    given as parameters where a theorem mentions them), signature checks, and the XML and JSON text parsers of the standard library
    (the model starts from the tree or value).  [prepare] of the Security runtime mostly asks the kernel and is an input
    of [apply]; [apply] itself enters a supervisor turn as an outcome.

    ** Plan

    Next come the checks of the Security [prepare], the candidate editors that share the policy
    contract (interfaces, zones, routes), and the VRRP and QoS plans on a JSON text model. *)

From stdpp Require Export base list option numbers gmap strings.
From Stdlib Require Export ZArith Lia.
From Stdlib Require Import Zdiv.

Declare Scope ffn_scope.
Delimit Scope ffn_scope with ffn.
#[global] Open Scope Z_scope.

(** ** Results: a Python call returns a value or raises an exception *)

Inductive result (E A : Type) : Type :=
| Ok (a : A)
| Err (e : E).
Arguments Ok {E A} a.
Arguments Err {E A} e.

#[global] Instance result_ret E : MRet (result E) := fun _ a => Ok a.
#[global] Instance result_bind E : MBind (result E) := fun _ _ f m =>
  match m with Ok a => f a | Err e => Err e end.
#[global] Instance result_fmap E : FMap (result E) := fun _ _ f m =>
  match m with Ok a => Ok (f a) | Err e => Err e end.

(** [raise_if b e] is the statement [if b: raise e]. *)
Definition raise_if {E} (b : bool) (e : E) : result E unit :=
  if b then Err e else Ok tt.

Definition is_ok {E A} (r : result E A) : bool :=
  match r with Ok _ => true | Err _ => false end.

Definition result_option {E A} (r : result E A) : option A :=
  match r with Ok a => Some a | Err _ => None end.

#[global] Instance result_eq_dec {E A} `{EqDecision E} `{EqDecision A} :
  EqDecision (result E A).
Proof. solve_decision. Defined.

Lemma bind_ok_inv {E A B} (m : result E A) (f : A -> result E B) b :
  (m ≫= f) = Ok b -> exists a, m = Ok a /\ f a = Ok b.
Proof. destruct m; cbn; [eauto | discriminate]. Qed.

Lemma ok_inj {E A} (a b : A) : @Ok E A a = Ok b -> a = b.
Proof. congruence. Qed.

Lemma raise_if_ok_inv {E} b (e : E) u : raise_if b e = Ok u -> b = false.
Proof. destruct b; cbn; congruence. Qed.

Lemma raise_if_false {E} (e : E) : raise_if false e = Ok tt.
Proof. reflexivity. Qed.

(** A loop that raises as soon as one iteration does:
    [[f(x) for x in l]] and [for x in l: f(x)]. *)
Fixpoint mapM_res {E A B} (f : A -> result E B) (l : list A) : result E (list B) :=
  match l with
  | [] => Ok []
  | x :: t => y ← f x; ys ← mapM_res f t; Ok (y :: ys)
  end.

Fixpoint foldM_res {E A S} (f : S -> A -> result E S) (s : S) (l : list A) : result E S :=
  match l with
  | [] => Ok s
  | x :: t => s' ← f s x; foldM_res f s' t
  end.

Lemma mapM_res_Forall2 {E A B} (f : A -> result E B) l ys :
  mapM_res f l = Ok ys <-> Forall2 (fun x y => f x = Ok y) l ys.
Proof.
  revert ys; induction l as [|x t IH]; intros ys; cbn.
  - split; [intros [= <-]; constructor | inversion 1; reflexivity].
  - split.
    + intros H. apply bind_ok_inv in H as (y & Hy & H).
      apply bind_ok_inv in H as (zs & Hzs & [= <-]).
      constructor; [exact Hy | by apply IH].
    + inversion 1 as [|? y ? zs Hy Hzs]; subst.
      apply IH in Hzs. by rewrite Hy; cbn; rewrite Hzs.
Qed.

Lemma foldM_res_app {E A S} (f : S -> A -> result E S) l1 l2 s :
  foldM_res f s (l1 ++ l2) = (s' ← foldM_res f s l1; foldM_res f s' l2).
Proof.
  revert s; induction l1 as [|x t IH]; intros s; cbn [app foldM_res]; [done|].
  destruct (f s x); cbn [mbind result_bind]; [apply IH | done].
Qed.

(** ** Tactics *)

(** [inv_res] opens every successful monadic step found in the hypotheses. *)
Ltac inv_res :=
  repeat match goal with
  | H : Ok _ = Ok _ |- _ => injection H as H; try subst
  | H : Err _ = Ok _ |- _ => discriminate H
  | H : Ok _ = Err _ |- _ => discriminate H
  | H : raise_if _ _ = Ok _ |- _ => apply raise_if_ok_inv in H
  | H : mbind _ _ = Ok _ |- _ =>
      let x := fresh "v" in let Hx := fresh "Hv" in
      apply bind_ok_inv in H as (x & Hx & H); cbn beta in H
  end.

(** [case_ifs] splits every conditional of the goal, keeping the equation. *)
Ltac case_ifs :=
  repeat match goal with
  | |- context [if ?b then _ else _] => let E := fresh "Eb" in destruct b eqn:E
  end.

(** [split_if H]: case on the condition at the head of the left side of [H]. *)
Ltac split_if H :=
  match type of H with (if ?b then _ else _) = _ => let E := fresh "E" in destruct b eqn:E end.

(** [bool_lia]: turn boolean comparisons on [Z] into propositions, then [lia]. *)
Ltac zb :=
  repeat match goal with
  | H : (_ && _)%bool = true |- _ => apply andb_true_iff in H as [? ?]
  | H : (_ || _)%bool = false |- _ => apply orb_false_iff in H as [? ?]
  | H : negb _ = true |- _ => apply negb_true_iff in H
  | H : negb _ = false |- _ => apply negb_false_iff in H
  | H : (_ =? _) = true |- _ => apply Z.eqb_eq in H
  | H : (_ =? _) = false |- _ => apply Z.eqb_neq in H
  | H : (_ <? _) = true |- _ => apply Z.ltb_lt in H
  | H : (_ <? _) = false |- _ => apply Z.ltb_ge in H
  | H : (_ <=? _) = true |- _ => apply Z.leb_le in H
  | H : (_ <=? _) = false |- _ => apply Z.leb_gt in H
  end.
Ltac bool_lia := zb; lia.

(** ** Byte strings *)

(** A byte string is a list of integers; [is_byte] is the invariant Python's
    [bytes] type keeps. *)
Definition is_byte (b : Z) : Prop := 0 <= b < 256.
#[global] Instance is_byte_dec b : Decision (is_byte b).
Proof. unfold is_byte; apply _. Defined.

Abbreviation bytes := (list Z) (only parsing).
Definition bytes_ok (l : bytes) : Prop := Forall is_byte l.
#[global] Instance bytes_ok_dec l : Decision (bytes_ok l).
Proof. unfold bytes_ok; apply _. Defined.

(** Python's [len] as an integer. *)
Definition blen {A} (l : list A) : Z := Z.of_nat (length l).

(** [l[i:j]] for non-negative [i] and [j]. *)
Definition slice {A} (i j : Z) (l : list A) : list A :=
  take (Z.to_nat (j - i)) (drop (Z.to_nat i) l).

(** [l[i]] for a non-negative [i], with a default outside the bounds. *)
Definition byte_at (l : bytes) (i : Z) : Z := nth (Z.to_nat i) l 0.

(** [bytes(n)]. *)
Definition zeros (n : nat) : bytes := replicate n 0.

(** ** [struct]: fixed-width unsigned integers *)

Fixpoint le_pack (n : nat) (v : Z) : bytes :=
  match n with
  | O => []
  | S n' => v mod 256 :: le_pack n' (v / 256)
  end.

Fixpoint le_unpack (l : bytes) : Z :=
  match l with
  | [] => 0
  | b :: t => b + 256 * le_unpack t
  end.

Definition be_pack (n : nat) (v : Z) : bytes := rev (le_pack n v).
Definition be_unpack (l : bytes) : Z := le_unpack (rev l).

Lemma pow256_S (n : nat) : 256 ^ Z.of_nat (S n) = 256 * 256 ^ Z.of_nat n.
Proof. rewrite Nat2Z.inj_succ, Z.pow_succ_r; lia. Qed.

Lemma pow256_pos (n : nat) : 0 < 256 ^ Z.of_nat n.
Proof. apply Z.pow_pos_nonneg; lia. Qed.

Lemma length_le_pack n v : length (le_pack n v) = n.
Proof. revert v; induction n as [|n IH]; intros v; cbn; [|rewrite IH]; reflexivity. Qed.

Lemma length_be_pack n v : length (be_pack n v) = n.
Proof. unfold be_pack; rewrite length_rev; apply length_le_pack. Qed.

Lemma le_pack_bytes n v : bytes_ok (le_pack n v).
Proof.
  revert v; induction n as [|n IH]; intros v; cbn; constructor; [|apply IH].
  unfold is_byte; pose proof (Z.mod_pos_bound v 256); lia.
Qed.

Lemma bytes_ok_rev l : bytes_ok (rev l) <-> bytes_ok l.
Proof. unfold bytes_ok. rewrite !List.Forall_forall. setoid_rewrite <- in_rev. reflexivity. Qed.

Lemma be_pack_bytes n v : bytes_ok (be_pack n v).
Proof. apply bytes_ok_rev, le_pack_bytes. Qed.

Lemma bytes_ok_app l1 l2 : bytes_ok (l1 ++ l2) <-> bytes_ok l1 /\ bytes_ok l2.
Proof. apply Forall_app. Qed.

Lemma le_unpack_pack n v : le_unpack (le_pack n v) = v mod 256 ^ Z.of_nat n.
Proof.
  revert v; induction n as [|n IH]; intros v; cbn [le_pack le_unpack].
  - by rewrite Z.mod_1_r.
  - rewrite IH, pow256_S, Z.rem_mul_r; [lia | lia |].
    apply Z.gt_lt_iff. apply Z.lt_gt, pow256_pos.
Qed.

Lemma le_pack_unpack l : bytes_ok l -> le_pack (length l) (le_unpack l) = l.
Proof.
  induction 1 as [|b t Hb _ IH]; cbn [length le_unpack le_pack]; [done|].
  unfold is_byte in Hb. f_equal.
  - rewrite (Z.mul_comm 256), Z.mod_add by lia. apply Z.mod_small; lia.
  - rewrite (Z.mul_comm 256), Z.div_add, Z.div_small by lia. by rewrite Z.add_0_l.
Qed.

Lemma le_unpack_bound l : bytes_ok l -> 0 <= le_unpack l < 256 ^ Z.of_nat (length l).
Proof.
  induction 1 as [|b t Hb _ IH]; cbn [length le_unpack]; [lia|].
  rewrite pow256_S; unfold is_byte in Hb; lia.
Qed.

Lemma be_unpack_pack n v : be_unpack (be_pack n v) = v mod 256 ^ Z.of_nat n.
Proof. unfold be_unpack, be_pack; rewrite rev_involutive; apply le_unpack_pack. Qed.

Lemma be_pack_unpack l : bytes_ok l -> be_pack (length l) (be_unpack l) = l.
Proof.
  intros H; unfold be_unpack, be_pack.
  rewrite <- length_rev, le_pack_unpack by (by apply bytes_ok_rev).
  apply rev_involutive.
Qed.

Lemma be_unpack_bound l : bytes_ok l -> 0 <= be_unpack l < 256 ^ Z.of_nat (length l).
Proof.
  intros H; unfold be_unpack; rewrite <- length_rev.
  by apply le_unpack_bound, bytes_ok_rev.
Qed.

Lemma be_unpack_snoc l b : be_unpack (l ++ [b]) = 256 * be_unpack l + b.
Proof. unfold be_unpack; rewrite rev_app_distr; cbn; lia. Qed.

Lemma le_unpack_app l1 l2 :
  le_unpack (l1 ++ l2) = le_unpack l1 + 256 ^ Z.of_nat (length l1) * le_unpack l2.
Proof.
  induction l1 as [|b t IH]; cbn [app le_unpack length]; [lia|].
  rewrite IH, pow256_S; lia.
Qed.

Lemma be_unpack_app l1 l2 :
  be_unpack (l1 ++ l2) = 256 ^ Z.of_nat (length l2) * be_unpack l1 + be_unpack l2.
Proof.
  unfold be_unpack; rewrite rev_app_distr, le_unpack_app, length_rev; lia.
Qed.

(** ** Lists *)

Lemma blen_nonneg {A} (l : list A) : 0 <= blen l.
Proof. unfold blen; lia. Qed.

Lemma blen_app {A} (l1 l2 : list A) : blen (l1 ++ l2) = blen l1 + blen l2.
Proof. unfold blen; rewrite length_app; lia. Qed.

Lemma blen_pack4 v : blen (le_pack 4 v) = 4.
Proof. unfold blen; by rewrite length_le_pack. Qed.

Lemma blen_cons {A} (x : A) l : blen (x :: l) = 1 + blen l.
Proof. unfold blen; cbn [length]; lia. Qed.

Lemma take_app_exact {A} (l1 l2 : list A) n : n = length l1 -> take n (l1 ++ l2) = l1.
Proof. intros ->; apply take_app_length. Qed.

Lemma drop_app_exact {A} (l1 l2 : list A) n : n = length l1 -> drop n (l1 ++ l2) = l2.
Proof. intros ->; apply drop_app_length. Qed.

Lemma length_slice {A} i j (l : list A) :
  0 <= i -> i <= j -> j <= blen l -> length (slice i j l) = Z.to_nat (j - i).
Proof.
  intros Hi Hij Hj; unfold slice, blen in *.
  rewrite length_take, length_drop; lia.
Qed.

Lemma slice_app_l {A} i j (l1 l2 : list A) :
  0 <= i -> j <= blen l1 -> slice i j (l1 ++ l2) = slice i j l1.
Proof.
  intros Hi Hj; unfold slice, blen in *.
  destruct (decide (i <= Z.of_nat (length l1))).
  - rewrite drop_app_le, take_app_le by (rewrite ?length_drop; lia). done.
  - replace (Z.to_nat (j - i)) with O by lia. done.
Qed.

Lemma slice_app_r {A} i j (l1 l2 : list A) :
  blen l1 <= i -> slice i j (l1 ++ l2) = slice (i - blen l1) (j - blen l1) l2.
Proof.
  intros Hi; unfold slice, blen in *.
  rewrite drop_app_ge by lia. f_equal; [lia | f_equal; lia].
Qed.

Lemma slice_exact {A} (pre l post : list A) i j :
  i = blen pre -> j = blen pre + blen l -> slice i j (pre ++ l ++ post) = l.
Proof.
  intros -> ->. rewrite slice_app_r, slice_app_l by lia. unfold slice. rewrite Z.sub_diag.
  cbn [Z.to_nat drop]. apply firstn_all2. unfold blen; lia.
Qed.


Lemma slice_head {A} (l post : list A) i j : i = 0 -> j = blen l -> slice i j (l ++ post) = l.
Proof. intros -> ->. exact (slice_exact [] l post 0 (blen l) eq_refl eq_refl). Qed.


Lemma bytes_ok_slice i j l : bytes_ok l -> bytes_ok (slice i j l).
Proof. intros H; unfold slice; apply Forall_take, Forall_drop, H. Qed.

Lemma bytes_ok_zeros n : bytes_ok (zeros n).
Proof. unfold zeros, bytes_ok. apply Forall_replicate. unfold is_byte; lia. Qed.

(** ** Masks *)

Lemma land_ff (x : Z) : Z.land x 255 = x mod 256.
Proof. change 255 with (Z.ones 8). by rewrite Z.land_ones. Qed.

Lemma land_ffff (x : Z) : Z.land x 65535 = x mod 65536.
Proof. change 65535 with (Z.ones 16). by rewrite Z.land_ones. Qed.

Lemma land_ffffffff (x : Z) : Z.land x 4294967295 = x mod 4294967296.
Proof. change 4294967295 with (Z.ones 32). by rewrite Z.land_ones. Qed.

Lemma land_ff64 (x : Z) : Z.land x 18446744073709551615 = x mod 18446744073709551616.
Proof. change 18446744073709551615 with (Z.ones 64). by rewrite Z.land_ones. Qed.

Create HintDb ffn.
Create Rewrite HintDb ffn_len.
#[export] Hint Resolve le_pack_bytes be_pack_bytes bytes_ok_slice bytes_ok_zeros blen_nonneg : ffn.
#[export] Hint Rewrite @length_app @length_take @length_drop @length_replicate
  length_le_pack length_be_pack : ffn_len.
