(* ===== verification/PyStr.v ===== *)
(** * Python strings and the strict UTF-8 codec

    A Python [str] is a sequence of Unicode code points.  [utf8_encode] and
    [utf8_decode] are [str.encode("utf-8")] and [bytes.decode("utf-8")] with the
    default strict error handler: surrogates cannot be encoded, and decoding
    refuses overlong forms, surrogates, stray continuation bytes and code points
    above U+10FFFF.  The wire codec and the packet codecs rest on the two round
    trips proved here. *)

From S2P Require Import Prelude.

(** A code point that can be encoded: a Unicode scalar value. *)
Definition is_scalar (c : Z) : Prop := 0 <= c < 55296 \/ 57344 <= c < 1114112.
#[global] Instance is_scalar_dec c : Decision (is_scalar c).
Proof. unfold is_scalar; apply _. Defined.

Definition pystr := list Z.
Definition str_ok (s : pystr) : Prop := Forall is_scalar s.

Definition utf8_encode1 (c : Z) : option bytes :=
  if c <? 128 then Some [c]
  else if c <? 2048 then Some [192 + c / 64; 128 + c mod 64]
  else if ((55296 <=? c) && (c <? 57344))%bool then None
  else if c <? 65536 then
    Some [224 + c / 4096; 128 + (c / 64) mod 64; 128 + c mod 64]
  else Some [240 + c / 262144; 128 + (c / 4096) mod 64; 128 + (c / 64) mod 64; 128 + c mod 64].

Fixpoint utf8_encode (s : pystr) : option bytes :=
  match s with
  | [] => Some []
  | c :: t =>
      match utf8_encode1 c, utf8_encode t with
      | Some b, Some r => Some (b ++ r)
      | _, _ => None
      end
  end.

Definition between (lo b hi : Z) : bool := ((lo <=? b) && (b <=? hi))%bool.
Definition cont (b : Z) : bool := between 128 b 191.

(** The value of one well-formed sequence and the bytes after it. *)
Definition utf8_decode1 (l : bytes) : option (Z * bytes) :=
  match l with
  | [] => None
  | b0 :: t =>
      if between 0 b0 127 then Some (b0, t)
      else if between 194 b0 223 then
        match t with
        | b1 :: t1 => if cont b1 then Some ((b0 - 192) * 64 + (b1 - 128), t1) else None
        | _ => None
        end
      else if between 224 b0 239 then
        match t with
        | b1 :: b2 :: t2 =>
            if ((if b0 =? 224 then between 160 b1 191
                 else if b0 =? 237 then between 128 b1 159 else cont b1) && cont b2)%bool
            then Some ((b0 - 224) * 4096 + (b1 - 128) * 64 + (b2 - 128), t2) else None
        | _ => None
        end
      else if between 240 b0 244 then
        match t with
        | b1 :: b2 :: b3 :: t3 =>
            if ((if b0 =? 240 then between 144 b1 191
                 else if b0 =? 244 then between 128 b1 143 else cont b1) && cont b2 && cont b3)%bool
            then Some ((b0 - 240) * 262144 + (b1 - 128) * 4096 + (b2 - 128) * 64 + (b3 - 128), t3)
            else None
        | _ => None
        end
      else None
  end.

(** Every sequence takes at least one byte, so the length of the input bounds
    the number of sequences. *)
Fixpoint utf8_decode_fuel (fuel : nat) (l : bytes) : option pystr :=
  match l with
  | [] => Some []
  | _ =>
      match fuel with
      | O => None
      | S f =>
          match utf8_decode1 l with
          | Some (c, t) => cons c <$> utf8_decode_fuel f t
          | None => None
          end
      end
  end.

Definition utf8_decode (l : bytes) : option pystr := utf8_decode_fuel (length l) l.

(** [bytes.decode('utf-8', 'replace')]: a malformed sequence becomes one U+FFFD for
    its longest prefix that could start a well-formed one. *)
Definition bad_prefix (l : bytes) : nat :=
  match l with
  | b0 :: b1 :: t =>
      if between 224 b0 239 then
        if (if b0 =? 224 then between 160 b1 191 else if b0 =? 237 then between 128 b1 159 else cont b1) then 2%nat else 1%nat
      else if between 240 b0 244 then
        if (if b0 =? 240 then between 144 b1 191 else if b0 =? 244 then between 128 b1 143 else cont b1)
        then match t with b2 :: _ => if cont b2 then 3%nat else 2%nat | [] => 2%nat end
        else 1%nat
      else 1%nat
  | _ => 1%nat
  end.
Fixpoint utf8_replace_fuel (fuel : nat) (l : bytes) : pystr :=
  match fuel, l with
  | S f, _ :: _ =>
      match utf8_decode1 l with
      | Some (c, t) => c :: utf8_replace_fuel f t
      | None => 65533 :: utf8_replace_fuel f (drop (bad_prefix l) l)
      end
  | _, _ => []
  end.
Definition utf8_decode_replace (l : bytes) : pystr := utf8_replace_fuel (length l) l.

(** ** Facts *)

Lemma utf8_encode1_length c b : utf8_encode1 c = Some b -> (1 <= length b)%nat.
Proof. unfold utf8_encode1; case_ifs; intros [= <-]; cbn; lia. Qed.

Lemma utf8_encode1_scalar c :
  is_scalar c -> exists b, utf8_encode1 c = Some b.
Proof. unfold is_scalar, utf8_encode1; intros H; case_ifs; eauto. bool_lia. Qed.

Ltac dm := Z.div_mod_to_equations.
Lemma between_true lo b hi : lo <= b <= hi -> between lo b hi = true.
Proof. unfold between; intros; apply andb_true_iff; split; apply Z.leb_le; lia. Qed.
Lemma between_false lo b hi : b < lo \/ hi < b -> between lo b hi = false.
Proof. unfold between; intros; apply andb_false_iff; rewrite !Z.leb_gt; lia. Qed.
Lemma cont_true b : 128 <= b <= 191 -> cont b = true.
Proof. apply between_true. Qed.
Lemma between_inv lo b hi : between lo b hi = true -> lo <= b <= hi.
Proof. unfold between; intros; bool_lia. Qed.

Lemma utf8_decode1_encode1 c b t :
  is_scalar c -> utf8_encode1 c = Some b -> utf8_decode1 (b ++ t) = Some (c, t).
Proof.
  intros Hc. unfold is_scalar in Hc. unfold utf8_encode1.
  destruct (c <? 128) eqn:E1; [intros [= <-]|].
  { cbn. rewrite between_true by bool_lia. done. }
  destruct (c <? 2048) eqn:E2; [intros [= <-]|].
  { zb. cbn [app utf8_decode1]. rewrite between_false, between_true by (dm; lia).
    rewrite cont_true by (dm; lia). do 2 f_equal. dm; lia. }
  destruct ((55296 <=? c) && (c <? 57344))%bool eqn:E3; [discriminate|].
  apply andb_false_iff in E3.
  destruct (c <? 65536) eqn:E4; intros [= <-]; zb.
  - cbn [app utf8_decode1].
    rewrite between_false, between_false, between_true by (dm; lia).
    rewrite (cont_true (128 + c mod 64)) by (dm; lia).
    destruct (224 + c / 4096 =? 224) eqn:E5; zb.
    + rewrite between_true by (dm; lia). cbn. do 2 f_equal. dm; lia.
    + destruct (224 + c / 4096 =? 237) eqn:E6; zb.
      * rewrite between_true by (rewrite Z.leb_gt, Z.ltb_ge in E3; dm; lia).
        cbn. do 2 f_equal. dm; lia.
      * rewrite cont_true by (dm; lia). cbn. do 2 f_equal. dm; lia.
  - cbn [app utf8_decode1].
    rewrite between_false, between_false, between_false, between_true by (dm; lia).
    rewrite (cont_true (128 + c mod 64)), (cont_true (128 + (c / 64) mod 64)) by (dm; lia).
    destruct (240 + c / 262144 =? 240) eqn:E5; zb.
    + rewrite between_true by (dm; lia). cbn. do 2 f_equal. dm; lia.
    + destruct (240 + c / 262144 =? 244) eqn:E6; zb.
      * rewrite between_true by (dm; lia). cbn. do 2 f_equal. dm; lia.
      * rewrite cont_true by (dm; lia). cbn. do 2 f_equal. dm; lia.
Qed.

Lemma utf8_decode_fuel_encode s b fuel :
  str_ok s -> utf8_encode s = Some b -> (length b <= fuel)%nat ->
  utf8_decode_fuel fuel b = Some s.
Proof.
  intros Hs; revert b fuel; induction Hs as [|c t Hc _ IH]; intros b fuel; cbn [utf8_encode].
  - intros [= <-] _; by destruct fuel.
  - destruct (utf8_encode1 c) as [b1|] eqn:E1; [|done].
    destruct (utf8_encode t) as [r|] eqn:Et; [|done].
    intros [= <-]; rewrite length_app; intros Hf.
    pose proof (utf8_encode1_length _ _ E1) as Hl.
    destruct fuel as [|f]; [lia|].
    destruct b1 as [|x b1']; [cbn in Hl; lia|].
    cbn [utf8_decode_fuel app].
    change (x :: b1' ++ r) with ((x :: b1') ++ r).
    rewrite (utf8_decode1_encode1 c) by done.
    rewrite (IH r f) by (done || lia). done.
Qed.

(** Decoding an encoded string gives the string back. *)
Lemma utf8_decode_encode s b :
  str_ok s -> utf8_encode s = Some b -> utf8_decode b = Some s.
Proof. intros Hs He; unfold utf8_decode; by eapply utf8_decode_fuel_encode. Qed.

(** Every string of scalar values can be encoded. *)
Lemma utf8_encode_total s : str_ok s -> exists b, utf8_encode s = Some b.
Proof.
  induction 1 as [|c t Hc _ [r Hr]]; cbn; [eauto|].
  destruct (utf8_encode1_scalar c Hc) as [b Hb]. rewrite Hb, Hr. eauto.
Qed.

Lemma utf8_encode1_bytes c b : is_scalar c -> utf8_encode1 c = Some b -> bytes_ok b.
Proof.
  unfold is_scalar, utf8_encode1, bytes_ok, is_byte; intros Hc.
  case_ifs; intros [= <-]; zb; repeat constructor; dm; lia.
Qed.

Lemma utf8_encode_bytes s b : str_ok s -> utf8_encode s = Some b -> bytes_ok b.
Proof.
  intros Hs; revert b; induction Hs as [|c t Hc _ IH]; cbn; intros b.
  - intros [= <-]; constructor.
  - destruct (utf8_encode1 c) eqn:E1, (utf8_encode t) eqn:E2; try done.
    intros [= <-]; apply bytes_ok_app; split; [by eapply utf8_encode1_bytes | by apply IH].
Qed.

(** The code points a Python [str] can hold; only surrogates fail to encode. *)
Definition py_str_wf (s : pystr) : Prop := Forall (fun c => 0 <= c < 1114112) s.

Lemma utf8_encode_str_ok s b : py_str_wf s -> utf8_encode s = Some b -> str_ok s.
Proof.
  intros Hs; revert b; induction Hs as [|c t Hc _ IH]; cbn; intros b; [constructor|].
  destruct (utf8_encode1 c) eqn:E1, (utf8_encode t) eqn:E2; try done. intros _.
  constructor; [|by eapply IH].
  revert E1; unfold utf8_encode1, is_scalar; case_ifs; try done; intros _; zb; try lia.
  all: match goal with H : andb _ _ = false |- _ => apply andb_false_iff in H end; bool_lia.
Qed.

(** ASCII text is encoded as itself. *)
Lemma utf8_encode_ascii s : Forall (fun c => 0 <= c < 128) s -> utf8_encode s = Some s.
Proof.
  induction 1 as [|c t Hc _ IH]; cbn; [done|].
  unfold utf8_encode1. destruct (c <? 128) eqn:E; [|bool_lia]. by rewrite IH.
Qed.

(** ** Literals *)

Definition lit (s : string) : pystr := map (fun a => Z.of_N (Ascii.N_of_ascii a)) (String.list_ascii_of_string s).

(** ** [str.strip().upper()], as far as a comparison with ASCII text can see it *)

(** [str.isspace]. *)
Definition is_space (c : Z) : bool :=
  between 9 c 13 || between 28 c 32 || (c =? 133) || (c =? 160) || (c =? 5760)
  || between 8192 c 8202 || (c =? 8232) || (c =? 8233) || (c =? 8239) || (c =? 8287) || (c =? 12288).

Fixpoint lstrip (s : pystr) : pystr :=
  match s with
  | c :: t => if is_space c then lstrip t else s
  | [] => []
  end.
Definition strip (s : pystr) : pystr := rev (lstrip (rev (lstrip s))).

(** The upper-case expansion of one code point.  The non-ASCII code points listed
    are those whose upper case is ASCII text; every other non-ASCII code point
    upper-cases to text that is not ASCII, which stands here for itself. *)
Definition upper1 (c : Z) : pystr :=
  if between 97 c 122 then [c - 32]
  else if c =? 223 then [83; 83]
  else if c =? 305 then [73]
  else if c =? 383 then [83]
  else if c =? 64256 then [70; 70]
  else if c =? 64257 then [70; 73]
  else if c =? 64258 then [70; 76]
  else if c =? 64259 then [70; 70; 73]
  else if c =? 64260 then [70; 70; 76]
  else if c =? 64261 then [83; 84]
  else if c =? 64262 then [83; 84]
  else [c].
Definition upper (s : pystr) : pystr := concat (map upper1 s).

(** ** Digits: [str.isdigit] and [int] *)

(** The first code points of the decimal digit ranges, ten digits each. *)
Definition decimal_zeros : list Z :=
  [48; 1632; 1776; 1984; 2406; 2534; 2662; 2790; 2918; 3046; 3174; 3302; 3430; 3558; 3664; 3792; 3872; 4160; 4240;
   6112; 6160; 6470; 6608; 6784; 6800; 6992; 7088; 7232; 7248; 42528; 43216; 43264; 43472; 43504; 43600; 44016; 65296;
   66720; 68912; 69734; 69872; 69942; 70096; 70384; 70736; 70864; 71248; 71360; 71472; 71904; 72016; 72784; 73040;
   73120; 92768; 92864; 93008; 120782; 120792; 120802; 120812; 120822; 123200; 123632; 125264; 130032].
(** Digits [int] does not read: superscripts, circled digits and the like. *)
Definition other_digits : list (Z * Z) :=
  [(178, 179); (185, 185); (4969, 4977); (6618, 6618); (8304, 8304); (8308, 8313); (8320, 8329); (9312, 9320);
   (9332, 9340); (9352, 9360); (9450, 9450); (9461, 9469); (9471, 9471); (10102, 10110); (10112, 10120);
   (10122, 10130); (68160, 68163); (69216, 69224); (69714, 69722); (127232, 127242)].
Definition digit_value (c : Z) : option Z :=
  (fun z => c - z) <$> List.find (fun z => between z c (z + 9)) decimal_zeros.
Definition isdigit1 (c : Z) : bool :=
  (if digit_value c then true else false) || existsb (fun r => between r.1 c r.2) other_digits.
Definition isdigit (s : pystr) : bool := match s with [] => false | _ => forallb isdigit1 s end.
(** The white space [int] ignores around a number: that of [str.isspace], the four ASCII separators excepted. *)
Definition int_space (c : Z) : bool := is_space c && negb (between 28 c 31).

(** ** Hexadecimal *)

Definition hex_digit (n : Z) : Z := if n <? 10 then 48 + n else 87 + n.
(** ['%02x' % b] and [bytes.hex()]. *)
Definition hex2 (b : Z) : pystr := [hex_digit (b / 16); hex_digit (b mod 16)].
Definition hex (b : bytes) : pystr := concat (map hex2 b).
