(* ===== verification/PyDict.v ===== *)
(** * Python dictionaries and JSON values

    A [dict] keeps insertion order, and some of the code depends on it (the first
    lease a client holds, the order replies list options in), so it is an
    association list: [dset] overwrites in place or appends, [ddel] removes.
    [json] is the value [json.loads] returns; its objects are such lists. *)

From Stdlib Require Export Sorted.
From S2P Require Import Prelude PyStr.

Section dict.
Context {K V : Type} `{!EqDecision K}.
Implicit Types (d : list (K * V)) (k : K) (v : V).

(** [d.get(k)]. *)
Fixpoint dget k d : option V :=
  match d with
  | [] => None
  | (k', v) :: t => if decide (k = k') then Some v else dget k t
  end.

(** [d[k] = v]. *)
Fixpoint dset k v d : list (K * V) :=
  match d with
  | [] => [(k, v)]
  | (k', v') :: t => if decide (k = k') then (k', v) :: t else (k', v') :: dset k v t
  end.

(** [d.pop(k, None)]. *)
Definition ddel k d : list (K * V) := filter (fun kv => kv.1 <> k) d.

(** [k in d]. *)
Definition dmem k d : bool := if dget k d then true else false.

(** The keys are distinct, as in every dictionary. *)
Definition dict_ok d : Prop := NoDup d.*1.

Lemma dget_dset k k' v d : dget k' (dset k v d) = if decide (k' = k) then Some v else dget k' d.
Proof.
  induction d as [|[k1 v1] t IH]; cbn [dset dget]; [done|].
  repeat (case_decide; subst; cbn [dget]); congruence || done.
Qed.

Lemma dget_dset_eq k v d : dget k (dset k v d) = Some v.
Proof. rewrite dget_dset. by rewrite decide_True. Qed.

Lemma dget_dset_ne k k' v d : k' <> k -> dget k' (dset k v d) = dget k' d.
Proof. intros H. rewrite dget_dset. by rewrite decide_False. Qed.

Lemma dget_ddel k k' d : dget k' (ddel k d) = if decide (k' = k) then None else dget k' d.
Proof.
  unfold ddel. induction d as [|[k1 v1] t IH]; cbn [dget]; [by case_decide|].
  rewrite filter_cons. cbn [fst].
  repeat (case_decide; subst; cbn [dget]); congruence || done.
Qed.

Lemma dget_In k v d : dget k d = Some v -> (k, v) ∈ d.
Proof.
  induction d as [|[k1 v1] t IH]; cbn [dget]; [done|]. case_decide; intros Hg.
  - simplify_eq. apply list_elem_of_here.
  - apply list_elem_of_further; auto.
Qed.

Lemma In_dget k v d : dict_ok d -> (k, v) ∈ d -> dget k d = Some v.
Proof.
  unfold dict_ok. induction d as [|[k1 v1] t IH]; cbn [dget]; [by intros _ H%elem_of_nil|].
  intros [H1 H2]%NoDup_cons H. apply elem_of_cons in H as [[= -> ->]|H]; [by rewrite decide_True|].
  rewrite decide_False; [by apply IH|]. intros ->. apply H1. apply (list_elem_of_fmap_2 fst _ _ H).
Qed.

Lemma dget_None_keys k d : dget k d = None <-> k ∉ d.*1.
Proof.
  induction d as [|[k1 v1] t IH]; cbn [dget fmap list_fmap fst]; [split; [intros _; apply not_elem_of_nil | done]|].
  rewrite not_elem_of_cons. case_decide; subst; [split; [done | by intros [? _]] | tauto].
Qed.

Lemma keys_dset k v d : (dset k v d).*1 = if decide (k ∈ d.*1) then d.*1 else d.*1 ++ [k].
Proof.
  induction d as [|[k1 v1] t IH]; cbn [dset].
  - rewrite decide_False; [done | apply not_elem_of_nil].
  - rewrite (fmap_cons fst (k1, v1) t). cbn [fst]. destruct (decide (k = k1)) as [<-|E].
    + rewrite decide_True; [done | apply list_elem_of_here].
    + rewrite fmap_cons, IH. cbn [fst]. destruct (decide (k ∈ t.*1)) as [H|H].
      * rewrite decide_True; [done | by apply list_elem_of_further].
      * rewrite decide_False; [done|]. by intros [?|?]%elem_of_cons.
Qed.

Lemma dict_ok_dset k v d : dict_ok d -> dict_ok (dset k v d).
Proof.
  unfold dict_ok. rewrite keys_dset. intros H. case_decide as E; [done|].
  apply NoDup_app. split; [done|]. split; [|apply NoDup_singleton].
  intros x Hx. rewrite list_elem_of_singleton. by intros ->.
Qed.

Lemma dict_ok_ddel k d : dict_ok d -> dict_ok (ddel k d).
Proof.
  unfold dict_ok, ddel. intros H. eapply sublist_NoDup; [exact H|].
  apply fmap_sublist, sublist_filter.
Qed.

Lemma dget_app k d1 d2 :
  dget k (d1 ++ d2) = match dget k d1 with Some v => Some v | None => dget k d2 end.
Proof. induction d1 as [|[k1 v1] t IH]; cbn [app dget]; [done|]. by case_decide. Qed.

Lemma dset_new k v d : dmem k d = false -> dset k v d = d ++ [(k, v)].
Proof.
  unfold dmem. induction d as [|[k1 v1] t IH]; cbn [dget dset app]; [done|].
  case_decide; [done|]. intros E. by rewrite IH.
Qed.

Lemma elem_dset k v d kv : kv ∈ dset k v d -> kv = (k, v) \/ kv ∈ d.
Proof.
  induction d as [|[k1 v1] t IH]; cbn [dset].
  - rewrite list_elem_of_singleton. auto.
  - case_decide; subst; rewrite !elem_of_cons; naive_solver.
Qed.

Lemma elem_ddel k d kv : kv ∈ ddel k d -> kv ∈ d.
Proof. unfold ddel. rewrite list_elem_of_filter. by intros [_ ?]. Qed.

End dict.

(** ** JSON values *)

(** A float is finite and stands for [m * 2 ^ e]. *)
Inductive json :=
| JNull
| JBool (b : bool)
| JInt (n : Z)
| JFloat (m e : Z)
| JStr (s : pystr)
| JList (l : list json)
| JObj (l : list (pystr * json)).

(** [bool(v)]. *)
Definition truthy (v : json) : bool :=
  match v with
  | JNull => false
  | JBool b => b
  | JInt n => negb (n =? 0)
  | JFloat m _ => negb (m =? 0)
  | JStr s => match s with [] => false | _ => true end
  | JList l => match l with [] => false | _ => true end
  | JObj l => match l with [] => false | _ => true end
  end.

(** [v.get(k)] and [v.get(k, default)] on an object. *)
Definition jget (k : pystr) (o : list (pystr * json)) : json := default JNull (dget k o).
Definition jget_default (k : pystr) (dflt : json) (o : list (pystr * json)) : json := default dflt (dget k o).

(** [set(v) - allowed]: does the object have a key outside the list? *)
Definition extra_keys (allowed : list pystr) (o : list (pystr * json)) : bool :=
  existsb (fun kv => negb (bool_decide (kv.1 ∈ allowed))) o.

(** ** Order of strings, as [sorted] uses it *)

Fixpoint str_le (a b : pystr) : bool :=
  match a, b with
  | [], _ => true
  | _ :: _, [] => false
  | x :: a', y :: b' => (x <? y) || ((x =? y) && str_le a' b')
  end.

Lemma str_le_total a b : str_le a b = true \/ str_le b a = true.
Proof.
  revert b; induction a as [|x a IH]; intros [|y b]; cbn; auto.
  destruct (Z.lt_trichotomy x y) as [H|[->|H]].
  - left. rewrite (proj2 (Z.ltb_lt x y)) by lia. done.
  - rewrite Z.ltb_irrefl, Z.eqb_refl. cbn. apply IH.
  - right. rewrite (proj2 (Z.ltb_lt y x)) by lia. done.
Qed.

Section insertion_sort.
Context {A : Type} (le : A -> A -> bool).

(** A stable sort; [sorted] and [list.sort] are stable. *)
Fixpoint insert_sorted (x : A) (l : list A) : list A :=
  match l with
  | [] => [x]
  | y :: t => if le x y then x :: l else y :: insert_sorted x t
  end.
Definition py_sorted (l : list A) : list A := fold_right insert_sorted [] l.

Lemma insert_sorted_perm x l : insert_sorted x l ≡ₚ x :: l.
Proof.
  induction l as [|y t IH]; cbn; [done|]. destruct (le x y); [done|].
  rewrite IH. apply Permutation_swap.
Qed.

Lemma py_sorted_perm l : py_sorted l ≡ₚ l.
Proof. induction l as [|x t IH]; cbn; [done|]. by rewrite insert_sorted_perm, IH. Qed.

Lemma insert_sorted_Sorted x l :
  (forall a b, le a b = true \/ le b a = true) ->
  Sorted (fun a b => le a b = true) l -> Sorted (fun a b => le a b = true) (insert_sorted x l).
Proof.
  intros Htot. induction 1 as [|y t Ht IH Hy]; cbn; [by repeat constructor|].
  destruct (le x y) eqn:E; [by repeat constructor|].
  assert (le y x = true) as Hyx by (destruct (Htot x y); congruence).
  constructor; [exact IH|].
  destruct t as [|z t]; cbn in *; [by constructor|]. inversion Hy; subst.
  destruct (le x z); by constructor.
Qed.

Lemma py_sorted_Sorted l :
  (forall a b, le a b = true \/ le b a = true) -> Sorted (fun a b => le a b = true) (py_sorted l).
Proof. intros H. induction l; cbn; [constructor | by apply insert_sorted_Sorted]. Qed.

End insertion_sort.
