(* ===== verification/PyIp.v ===== *)
(** * The part of [ipaddress] the configuration compilers use

    IPv4 addresses are integers; the text forms are parsed the way Python's
    [ipaddress] does: four decimal octets of at most three ASCII digits without a
    leading zero, a prefix as a decimal number, a netmask or a host mask.  The
    canonical text of an address is one-to-one with its number, so components that
    only store and compare canonical text keep the number instead. *)

From S2P Require Import Prelude PyStr PyDict.

Definition is_digit (c : Z) : bool := between 48 c 57.
Definition all_digits (s : pystr) : bool := match s with [] => false | _ => forallb is_digit s end.
(** [int(s)] for a string of ASCII digits. *)
Definition dec_value (s : pystr) : Z := fold_left (fun n c => 10 * n + (c - 48)) s 0.

(** [s.split(sep)] for a one-character separator. *)
Fixpoint split_on (sep : Z) (s : pystr) : list pystr :=
  match s with
  | [] => [[]]
  | c :: t =>
      if c =? sep then [] :: split_on sep t
      else match split_on sep t with
           | w :: ws => (c :: w) :: ws
           | [] => [[c]]
           end
  end.

(** [_BaseV4._parse_octet]. *)
Definition parse_octet (s : pystr) : option Z :=
  if negb (all_digits s) then None
  else if (3 <? length s)%nat then None
  else if negb (bool_decide (s = [48])) && bool_decide (head s = Some 48) then None
  else let v := dec_value s in if 255 <? v then None else Some v.

(** [IPv4Address(text)]. *)
Definition ip4_parse (s : pystr) : option Z :=
  match split_on 46 s with
  | [a; b; c; d] =>
      match parse_octet a, parse_octet b, parse_octet c, parse_octet d with
      | Some a, Some b, Some c, Some d => Some (((a * 256 + b) * 256 + c) * 256 + d)
      | _, _, _, _ => None
      end
  | _ => None
  end.

(** [IPv4Address(value)] for a JSON value: text or an integer (a Boolean is one). *)
Definition ip4_of_json (v : json) : option Z :=
  match v with
  | JStr s => ip4_parse s
  | JInt n => if (0 <=? n) && (n <? 2 ^ 32) then Some n else None
  | JBool b => Some (if b then 1 else 0)
  | _ => None
  end.

Definition netmask (plen : Z) : Z := 2 ^ 32 - 2 ^ (32 - plen).

(** [_prefix_from_ip_int]. *)
Definition prefix_from_int (m : Z) : option Z :=
  find (fun p => netmask p =? m) (map Z.of_nat (seq 0 33)).

(** [_make_netmask]: a prefix length, a netmask or a host mask. *)
Definition mask_parse (s : pystr) : option Z :=
  let by_mask :=
    match ip4_parse s with
    | None => None
    | Some m => match prefix_from_int m with
                | Some p => Some p
                | None => prefix_from_int (2 ^ 32 - 1 - m)
                end
    end in
  if all_digits s then let p := dec_value s in if p <=? 32 then Some p else by_mask
  else by_mask.

(** [IPv4Interface(text)]: the address and its prefix length. *)
Definition iface_parse (s : pystr) : option (Z * Z) :=
  match split_on 47 s with
  | [a] => (fun ip => (ip, 32)) <$> ip4_parse a
  | [a; m] => match ip4_parse a, mask_parse m with Some ip, Some p => Some (ip, p) | _, _ => None end
  | _ => None
  end.

Definition iface_of_json (v : json) : option (Z * Z) :=
  match v with
  | JStr s => iface_parse s
  | JInt _ | JBool _ => (fun ip => (ip, 32)) <$> ip4_of_json v
  | _ => None
  end.

(** [IPv4Network(...).network_address], [.broadcast_address] and [ip in network]. *)
Definition network_address (ip plen : Z) : Z := ip - ip mod 2 ^ (32 - plen).
Definition broadcast_address (ip plen : Z) : Z := network_address ip plen + 2 ^ (32 - plen) - 1.
Definition in_network (ip plen a : Z) : bool := between (network_address ip plen) a (broadcast_address ip plen).

Definition is_loopback (ip : Z) : bool := between (127 * 2 ^ 24) ip (128 * 2 ^ 24 - 1).
Definition is_multicast (ip : Z) : bool := between (224 * 2 ^ 24) ip (240 * 2 ^ 24 - 1).
Definition is_unspecified (ip : Z) : bool := ip =? 0.
Definition is_ip4 (ip : Z) : Prop := 0 <= ip < 2 ^ 32.

(** ** Facts *)

Lemma dec_value_nonneg s : all_digits s = true -> 0 <= dec_value s.
Proof.
  intros Hs. unfold dec_value.
  assert (forall l n, forallb is_digit l = true -> 0 <= n -> 0 <= fold_left (fun n c => 10 * n + (c - 48)) l n) as H.
  { induction l as [|c l IH]; intros n; cbn [forallb fold_left]; [done|]. intros [Hc Hl]%andb_true_iff Hn.
    apply IH; [done|]. apply between_inv in Hc. lia. }
  apply H; [|lia]. destruct s; done.
Qed.

Lemma parse_octet_bound s v : parse_octet s = Some v -> 0 <= v < 256.
Proof.
  unfold parse_octet. destruct (all_digits s) eqn:Ed; cbn [negb]; [|done].
  case_ifs; try done. intros [= <-]. split; [by apply dec_value_nonneg | bool_lia].
Qed.

Lemma ip4_parse_bound s v : ip4_parse s = Some v -> is_ip4 v.
Proof.
  unfold ip4_parse, is_ip4. destruct (split_on 46 s) as [|a [|b [|c [|d [|? ?]]]]]; try done.
  destruct (parse_octet a) eqn:Ea; [|done]. destruct (parse_octet b) eqn:Eb; [|done].
  destruct (parse_octet c) eqn:Ec; [|done]. destruct (parse_octet d) eqn:Ed; [|done].
  apply parse_octet_bound in Ea, Eb, Ec, Ed. intros [= <-]. lia.
Qed.

Lemma ip4_of_json_bound v ip : ip4_of_json v = Some ip -> is_ip4 ip.
Proof.
  unfold is_ip4. destruct v; cbn [ip4_of_json]; try done.
  - destruct b; intros [= <-]; lia.
  - destruct (_ && _) eqn:E; [|done]. intros [= <-]. bool_lia.
  - apply ip4_parse_bound.
Qed.

Lemma prefix_from_int_bound m p : prefix_from_int m = Some p -> 0 <= p <= 32.
Proof.
  unfold prefix_from_int. intros H. apply List.find_some in H as [H _].
  apply in_map_iff in H as (k & <- & H). apply in_seq in H. lia.
Qed.

Lemma mask_parse_bound s p : mask_parse s = Some p -> 0 <= p <= 32.
Proof.
  unfold mask_parse. set (bm := match ip4_parse s with None => None | Some _ => _ end).
  assert (bm = Some p -> 0 <= p <= 32) as Hb.
  { unfold bm. destruct (ip4_parse s) as [m|]; [|done]. destruct (prefix_from_int m) eqn:E.
    - intros [= <-]. by eapply prefix_from_int_bound.
    - apply prefix_from_int_bound. }
  destruct (all_digits s) eqn:Ed; [|done]. destruct (dec_value s <=? 32) eqn:E; [|done]. intros [= <-].
  split; [by apply dec_value_nonneg | bool_lia].
Qed.

(** ** Canonical text *)

(** [str(n)] for an octet or a prefix length. *)
Definition octet_text (n : Z) : pystr :=
  if n <? 10 then [48 + n]
  else if n <? 100 then [48 + n / 10; 48 + n mod 10]
  else [48 + n / 100; 48 + (n / 10) mod 10; 48 + n mod 10].

(** [str(IPv4Address(ip))] and [str(IPv4Interface(...))]. *)
Definition ip4_text (ip : Z) : pystr :=
  octet_text (ip / 2 ^ 24 mod 256) ++ 46 :: octet_text (ip / 2 ^ 16 mod 256) ++ 46 ::
  octet_text (ip / 2 ^ 8 mod 256) ++ 46 :: octet_text (ip mod 256).
Definition iface_text (a : Z * Z) : pystr := ip4_text a.1 ++ 47 :: octet_text a.2.

Lemma split_on_word sep w : Forall (fun c => c <> sep) w -> split_on sep w = [w].
Proof.
  induction 1 as [|c w Hc _ IH]; cbn [split_on]; [done|]. rewrite IH.
  by rewrite (proj2 (Z.eqb_neq c sep) Hc).
Qed.

Lemma split_on_sep sep w t : Forall (fun c => c <> sep) w -> split_on sep (w ++ sep :: t) = w :: split_on sep t.
Proof.
  induction 1 as [|c w Hc _ IH]; cbn [app split_on]; [by rewrite Z.eqb_refl|]. rewrite IH.
  by rewrite (proj2 (Z.eqb_neq c sep) Hc).
Qed.

(** A property of the 256 octets, checked one by one. *)
Lemma octet_cases (P : Z -> Prop) `{!forall n, Decision (P n)} :
  forallb (fun n => bool_decide (P (Z.of_nat n))) (seq 0 256) = true -> forall n, 0 <= n < 256 -> P n.
Proof.
  intros Hf n Hn. rewrite List.forallb_forall in Hf. specialize (Hf (Z.to_nat n)).
  rewrite Z2Nat.id in Hf by lia. apply bool_decide_eq_true_1 in Hf; [done|]. apply in_seq. lia.
Qed.

Lemma octet_text_parse n : 0 <= n < 256 ->
  parse_octet (octet_text n) = Some n /\ forallb is_digit (octet_text n) = true.
Proof.
  revert n. apply (octet_cases (fun n => parse_octet (octet_text n) = Some n /\ forallb is_digit (octet_text n) = true)).
  vm_compute. reflexivity.
Qed.

Lemma octet_text_sep sep n : is_digit sep = false -> 0 <= n < 256 -> Forall (fun c => c <> sep) (octet_text n).
Proof.
  intros Hs Hn. destruct (octet_text_parse n Hn) as [_ H]. apply Forall_forall. intros c Hc ->.
  rewrite List.forallb_forall in H. apply list_elem_of_In in Hc. apply H in Hc. congruence.
Qed.

Lemma ip4_text_parse ip : is_ip4 ip -> ip4_parse (ip4_text ip) = Some ip.
Proof.
  unfold is_ip4, ip4_parse, ip4_text. intros H.
  pose proof (Z.mod_pos_bound (ip / 2 ^ 24) 256). pose proof (Z.mod_pos_bound (ip / 2 ^ 16) 256).
  pose proof (Z.mod_pos_bound (ip / 2 ^ 8) 256). pose proof (Z.mod_pos_bound ip 256).
  rewrite !split_on_sep by (apply octet_text_sep; done || lia).
  rewrite split_on_word by (apply octet_text_sep; done || lia).
  rewrite !(fun n H => proj1 (octet_text_parse n H)) by lia.
  f_equal. change (2 ^ 24) with 16777216 in *. change (2 ^ 16) with 65536 in *. change (2 ^ 8) with 256 in *. dm. lia.
Qed.

Lemma ip4_text_sep ip : Forall (fun c => c <> 47) (ip4_text ip).
Proof.
  unfold ip4_text.
  repeat (apply Forall_app; split; [apply octet_text_sep; [done | apply Z.mod_pos_bound; lia]|];
          apply Forall_cons; split; [done|]).
  apply octet_text_sep; [done | apply Z.mod_pos_bound; lia].
Qed.

Lemma prefix_text_parse p : 0 <= p <= 32 -> mask_parse (octet_text p) = Some p.
Proof.
  intros H. assert (forall p, 0 <= p < 256 -> 32 < p \/ mask_parse (octet_text p) = Some p) as Hc.
  { apply (octet_cases (fun p => 32 < p \/ mask_parse (octet_text p) = Some p)). vm_compute. reflexivity. }
  destruct (Hc p); [lia | lia | done].
Qed.

Lemma iface_text_parse a : is_ip4 a.1 -> 0 <= a.2 <= 32 -> iface_parse (iface_text a) = Some a.
Proof.
  intros H1 H2. unfold iface_parse, iface_text. rewrite split_on_sep by apply ip4_text_sep.
  rewrite split_on_word by (apply octet_text_sep; [done | lia]).
  rewrite ip4_text_parse, prefix_text_parse by done. by destruct a.
Qed.

(** The dotted text of a netmask is read back as its prefix length. *)
Lemma netmask_text_parse p : 0 <= p <= 32 -> mask_parse (ip4_text (netmask p)) = Some p.
Proof.
  intros H. assert (forall p, 0 <= p < 256 -> 32 < p \/ mask_parse (ip4_text (netmask p)) = Some p) as Hc.
  { apply (octet_cases (fun p => 32 < p \/ mask_parse (ip4_text (netmask p)) = Some p)). vm_compute. reflexivity. }
  destruct (Hc p); [lia | lia | done].
Qed.
