(* ===== verification/MpdpWire.v ===== *)
(** * The management-plane / data-plane wire codec (opt/ffn_mpdp_wire.py)

    The length-prefixed binary codec for [MpDpMessage] envelopes: the writer [_W]
    and the reader [_R], one encoder and one decoder per table of the schema, the
    envelope ([build_message], [parse]) and the in-process and file-backed
    channels.  The main results: every message in range survives
    [build_message] followed by [parse] unchanged, a truncated frame is always
    refused, and both channels implement a FIFO of frames.

    Conventions.  A dictionary argument is a record with one [field] per key the
    code reads; a key may be absent, hold [None], or hold a value of the type the
    schema gives it.  An exception leaves the computation as [Err]. *)

From S2P Require Import Prelude PyStr.

(** ** Exceptions *)

Inductive exn : Type :=
| WireUnderrun (need off len : Z)     (* ValueError: wire underrun *)
| BadMagic (magic : bytes)            (* ValueError: bad magic *)
| UnknownTag (tag : Z)                (* ValueError: unknown body tag *)
| UnknownTagOnWire (tag : Z)          (* ValueError: unknown body tag on wire *)
| BadEnumValue (v : Z)                (* ValueError: bad ... value *)
| BadEnumName (s : pystr)             (* ValueError: bad ... name *)
| EnumTypeError                       (* TypeError: must be int or str *)
| IntTypeError                        (* TypeError: int() of None *)
| UnicodeEncodeError (s : pystr)
| UnicodeDecodeError (b : bytes)
| StructError (v : Z).                (* struct.error: argument out of range *)

(** ** Dictionary fields *)

Inductive field (A : Type) : Type :=
| Absent
| IsNone
| Given (a : A).
Arguments Absent {A}.
Arguments IsNone {A}.
Arguments Given {A} a.

(** [d.get(key, default)]; [None] is Python's [None]. *)
Definition get {A} (f : field A) (default : A) : option A :=
  match f with Absent => Some default | IsNone => None | Given a => Some a end.

(** [d.get(key) or []]. *)
Definition get_list {A} (f : field (list A)) : list A :=
  match f with Given l => l | _ => [] end.

(** ** Enums *)

Inductive enum_arg : Type :=
| EBool (b : bool)
| EInt (v : Z)
| EStr (s : pystr).

(** [cls._NAMES], in declaration order. *)
Definition enum_names := list (Z * pystr).
Definition Dir_NAMES : enum_names := [(0, lit "MP2DP"); (1, lit "DP2MP")].
Definition Verdict_NAMES : enum_names := [(0, lit "BENIGN"); (1, lit "GRAYWARE"); (2, lit "MALWARE")].
Definition MlKind_NAMES : enum_names := [(0, lit "XGBOOST"); (1, lit "NGRAM")].

Definition _enum_val (cls : enum_names) (v : option enum_arg) : result exn Z :=
  match v with
  | Some (EBool _) => Err EnumTypeError
  | Some (EInt n) =>
      if existsb (fun p => p.1 =? n) cls then Ok n else Err (BadEnumValue n)
  | Some (EStr s) =>
      let key := upper (strip s) in
      match find (fun p => bool_decide (p.2 = key)) cls with
      | Some (iv, _) => Ok iv
      | None => Err (BadEnumName s)
      end
  | None => Err EnumTypeError
  end.

(** ** The writer *)

(** The state of [_W] is the content of its buffer; every method appends. *)
Definition _W := bytes.

Definition py_int (v : option Z) : result exn Z :=
  match v with Some n => Ok n | None => Err IntTypeError end.

Definition W_u8 (v : option Z) (w : _W) : result exn _W :=
  n ← py_int v; Ok (w ++ le_pack 1 (Z.land n 255)).
Definition W_u16 (v : option Z) (w : _W) : result exn _W :=
  n ← py_int v; Ok (w ++ le_pack 2 (Z.land n 65535)).
Definition W_u32 (v : option Z) (w : _W) : result exn _W :=
  n ← py_int v; Ok (w ++ le_pack 4 (Z.land n 4294967295)).
Definition W_u64 (v : option Z) (w : _W) : result exn _W :=
  n ← py_int v; Ok (w ++ le_pack 8 (Z.land n 18446744073709551615)).

Definition W_blob (data : option bytes) (w : _W) : result exn _W :=
  let data := default [] data in
  w ← W_u32 (Some (blen data)) w; Ok (w ++ data).

Definition W_s (text : option pystr) (w : _W) : result exn _W :=
  let text := default [] text in
  match utf8_encode text with
  | Some b => W_blob (Some b) w
  | None => Err (UnicodeEncodeError text)
  end.

(** ** The reader *)

Record _R : Type := mkR { mv : bytes; off : Z }.

Definition rd (A : Type) : Type := _R -> result exn (A * _R).
#[global] Instance rd_ret : MRet rd := fun _ a r => Ok (a, r).
#[global] Instance rd_bind : MBind rd := fun _ _ f m r =>
  match m r with Ok (a, r') => f a r' | Err e => Err e end.

Definition rd_fail {A} (e : exn) : rd A := fun _ => Err e.

Definition R_take (n : Z) : rd bytes := fun r =>
  if off r + n >? blen (mv r) then Err (WireUnderrun n (off r) (blen (mv r)))
  else Ok (slice (off r) (off r + n) (mv r), mkR (mv r) (off r + n)).

Definition R_u8 : rd Z := c ← R_take 1; mret (le_unpack c).
Definition R_u16 : rd Z := c ← R_take 2; mret (le_unpack c).
Definition R_u32 : rd Z := c ← R_take 4; mret (le_unpack c).
Definition R_u64 : rd Z := c ← R_take 8; mret (le_unpack c).
Definition R_blob : rd bytes := n ← R_u32; R_take n.

Definition R_s : rd pystr :=
  b ← R_blob;
  match utf8_decode b with
  | Some s => mret s
  | None => rd_fail (UnicodeDecodeError b)
  end.

(** ** Leaf tables *)

Record signature_dict := {
  i_sid : field Z; i_name : field pystr; i_sig_type : field pystr; i_hash_type : field pystr;
  i_digest : field bytes; i_hex_pattern : field pystr; i_severity : field Z;
  i_sverdict : field enum_arg; i_family : field pystr }.

Record signature := {
  s_sid : Z; s_name : pystr; s_sig_type : pystr; s_hash_type : pystr;
  s_digest : bytes; s_hex_pattern : pystr; s_severity : Z;
  s_verdict : Z; s_family : pystr }.

Definition _enc_signature (w : _W) (sig : signature_dict) : result exn _W :=
  w ← W_u32 (get (i_sid sig) 0) w;
  w ← W_s (get (i_name sig) []) w;
  w ← W_s (get (i_sig_type sig) []) w;
  w ← W_s (get (i_hash_type sig) []) w;
  w ← W_blob (get (i_digest sig) []) w;
  w ← W_s (get (i_hex_pattern sig) []) w;
  w ← W_u8 (get (i_severity sig) 0) w;
  v ← _enum_val Verdict_NAMES (get (i_sverdict sig) (EInt 0));
  w ← W_u8 (Some v) w;
  W_s (get (i_family sig) []) w.

Definition _dec_signature : rd signature :=
  sid ← R_u32; name ← R_s; sig_type ← R_s; hash_type ← R_s; digest ← R_blob;
  hex_pattern ← R_s; severity ← R_u8; verdict ← R_u8; family ← R_s;
  mret {| s_sid := sid; s_name := name; s_sig_type := sig_type; s_hash_type := hash_type;
          s_digest := digest; s_hex_pattern := hex_pattern; s_severity := severity;
          s_verdict := verdict; s_family := family |}.

Record ioc_dict := { i_kind : field pystr; i_value : field pystr; i_iverdict : field enum_arg }.
Record ioc := { ioc_kind : pystr; ioc_value : pystr; ioc_verdict : Z }.

Definition _enc_ioc (w : _W) (i : ioc_dict) : result exn _W :=
  w ← W_s (get (i_kind i) []) w;
  w ← W_s (get (i_value i) []) w;
  v ← _enum_val Verdict_NAMES (get (i_iverdict i) (EInt 0));
  W_u8 (Some v) w.

Definition _dec_ioc : rd ioc :=
  kind ← R_s; value ← R_s; verdict ← R_u8;
  mret {| ioc_kind := kind; ioc_value := value; ioc_verdict := verdict |}.

Record policy_row_dict := {
  i_pvsys : field Z; i_pproto : field Z; i_src_ip : field pystr; i_psrc_port : field Z;
  i_dst_ip : field pystr; i_pdst_port : field Z; i_action : field Z; i_pname : field pystr }.
Record policy_row := {
  p_vsys : Z; p_proto : Z; p_src_ip : pystr; p_src_port : Z;
  p_dst_ip : pystr; p_dst_port : Z; p_action : Z; p_name : pystr }.

Definition _enc_policy_row (w : _W) (row : policy_row_dict) : result exn _W :=
  w ← W_u8 (get (i_pvsys row) 0) w;
  w ← W_u8 (get (i_pproto row) 0) w;
  w ← W_s (get (i_src_ip row) (lit "any")) w;
  w ← W_u16 (get (i_psrc_port row) 0) w;
  w ← W_s (get (i_dst_ip row) (lit "any")) w;
  w ← W_u16 (get (i_pdst_port row) 0) w;
  w ← W_u8 (get (i_action row) 0) w;
  W_s (get (i_pname row) []) w.

Definition _dec_policy_row : rd policy_row :=
  vsys ← R_u8; proto ← R_u8; src_ip ← R_s; src_port ← R_u16;
  dst_ip ← R_s; dst_port ← R_u16; action ← R_u8; name ← R_s;
  mret {| p_vsys := vsys; p_proto := proto; p_src_ip := src_ip; p_src_port := src_port;
          p_dst_ip := dst_ip; p_dst_port := dst_port; p_action := action; p_name := name |}.

Record flow_key_dict := {
  i_kvsys : field Z; i_kproto : field Z; i_ksrc_ip : field Z; i_ksrc_port : field Z;
  i_kdst_ip : field Z; i_kdst_port : field Z }.
Record flow_key := {
  k_vsys : Z; k_proto : Z; k_src_ip : Z; k_src_port : Z; k_dst_ip : Z; k_dst_port : Z }.

Definition empty_flow_key : flow_key_dict :=
  {| i_kvsys := Absent; i_kproto := Absent; i_ksrc_ip := Absent; i_ksrc_port := Absent;
     i_kdst_ip := Absent; i_kdst_port := Absent |}.

Definition _enc_flow_key (w : _W) (key : flow_key_dict) : result exn _W :=
  w ← W_u8 (get (i_kvsys key) 0) w;
  w ← W_u8 (get (i_kproto key) 0) w;
  w ← W_u32 (get (i_ksrc_ip key) 0) w;
  w ← W_u16 (get (i_ksrc_port key) 0) w;
  w ← W_u32 (get (i_kdst_ip key) 0) w;
  W_u16 (get (i_kdst_port key) 0) w.

Definition _dec_flow_key : rd flow_key :=
  vsys ← R_u8; proto ← R_u8; src_ip ← R_u32; src_port ← R_u16; dst_ip ← R_u32; dst_port ← R_u16;
  mret {| k_vsys := vsys; k_proto := proto; k_src_ip := src_ip; k_src_port := src_port;
          k_dst_ip := dst_ip; k_dst_port := dst_port |}.

(** ** Vectors *)

Definition _enc_vec {A} (w : _W) (items : list A) (enc_one : _W -> A -> result exn _W) : result exn _W :=
  w ← W_u32 (Some (blen items)) w;
  foldM_res enc_one w items.

Fixpoint rd_repeat {A} (n : nat) (p : rd A) : rd (list A) :=
  match n with
  | O => mret []
  | S n' => x ← p; xs ← rd_repeat n' p; mret (x :: xs)
  end.

Definition _dec_vec {A} (dec_one : rd A) : rd (list A) :=
  n ← R_u32; rd_repeat (Z.to_nat n) dec_one.

(** ** Message tables *)

(** The [body] argument of [build_message]: every key some encoder reads. *)
Record body_dict := {
  i_seq : field Z; i_adds : field (list signature_dict); i_removes : field (list Z);
  i_iocs : field (list ioc_dict);
  i_version : field Z; i_mkind : field enum_arg; i_tree_blob : field bytes;
  i_ngram_params : field bytes; i_features_version : field Z;
  i_bsid : field Z; i_sha256 : field bytes; i_verdict : field enum_arg; i_ts : field Z;
  i_vsys : field Z; i_rows : field (list policy_row_dict);
  i_engine : field pystr; i_packets : field Z; i_matches : field Z; i_drops : field Z;
  i_mode : field pystr;
  i_key : field flow_key_dict; i_bytes : field Z }.

Definition empty_body : body_dict :=
  {| i_seq := Absent; i_adds := Absent; i_removes := Absent; i_iocs := Absent;
     i_version := Absent; i_mkind := Absent; i_tree_blob := Absent; i_ngram_params := Absent;
     i_features_version := Absent; i_bsid := Absent; i_sha256 := Absent; i_verdict := Absent;
     i_ts := Absent; i_vsys := Absent; i_rows := Absent; i_engine := Absent; i_packets := Absent;
     i_matches := Absent; i_drops := Absent; i_mode := Absent; i_key := Absent; i_bytes := Absent |}.

Record threat_intel := { t_seq : Z; t_adds : list signature; t_removes : list Z; t_iocs : list ioc }.
Record ml_model := { m_version : Z; m_kind : Z; m_tree_blob : bytes; m_ngram_params : bytes;
                     m_features_version : Z }.
Record sig_verdict := { v_sid : Z; v_sha256 : bytes; v_verdict : Z; v_ts : Z }.
Record policy_update := { pu_vsys : Z; pu_rows : list policy_row }.
Record engine_telemetry := { e_engine : pystr; e_packets : Z; e_matches : Z; e_drops : Z; e_mode : pystr }.
Record flow_event := { f_vsys : Z; f_key : flow_key; f_verdict : Z; f_bytes : Z }.

Definition _enc_threat_intel (w : _W) (m : body_dict) : result exn _W :=
  w ← W_u32 (get (i_seq m) 0) w;
  w ← _enc_vec w (get_list (i_adds m)) _enc_signature;
  let adds_removes := get_list (i_removes m) in
  w ← W_u32 (Some (blen adds_removes)) w;
  w ← foldM_res (fun w sid => W_u32 (Some sid) w) w adds_removes;
  _enc_vec w (get_list (i_iocs m)) _enc_ioc.

Definition _dec_threat_intel : rd threat_intel :=
  seq ← R_u32;
  adds ← _dec_vec _dec_signature;
  n ← R_u32;
  removes ← rd_repeat (Z.to_nat n) R_u32;
  iocs ← _dec_vec _dec_ioc;
  mret {| t_seq := seq; t_adds := adds; t_removes := removes; t_iocs := iocs |}.

Definition _enc_ml_model (w : _W) (m : body_dict) : result exn _W :=
  w ← W_u32 (get (i_version m) 0) w;
  k ← _enum_val MlKind_NAMES (get (i_mkind m) (EInt 0));
  w ← W_u8 (Some k) w;
  w ← W_blob (get (i_tree_blob m) []) w;
  w ← W_blob (get (i_ngram_params m) []) w;
  W_u32 (get (i_features_version m) 0) w.

Definition _dec_ml_model : rd ml_model :=
  version ← R_u32; kind ← R_u8; tree_blob ← R_blob; ngram_params ← R_blob; features_version ← R_u32;
  mret {| m_version := version; m_kind := kind; m_tree_blob := tree_blob;
          m_ngram_params := ngram_params; m_features_version := features_version |}.

Definition _enc_sig_verdict (w : _W) (m : body_dict) : result exn _W :=
  w ← W_u32 (get (i_bsid m) 0) w;
  w ← W_blob (get (i_sha256 m) []) w;
  v ← _enum_val Verdict_NAMES (get (i_verdict m) (EInt 0));
  w ← W_u8 (Some v) w;
  W_u64 (get (i_ts m) 0) w.

Definition _dec_sig_verdict : rd sig_verdict :=
  sid ← R_u32; sha256 ← R_blob; verdict ← R_u8; ts ← R_u64;
  mret {| v_sid := sid; v_sha256 := sha256; v_verdict := verdict; v_ts := ts |}.

Definition _enc_policy_update (w : _W) (m : body_dict) : result exn _W :=
  w ← W_u32 (get (i_vsys m) 0) w;
  _enc_vec w (get_list (i_rows m)) _enc_policy_row.

Definition _dec_policy_update : rd policy_update :=
  vsys ← R_u32; rows ← _dec_vec _dec_policy_row;
  mret {| pu_vsys := vsys; pu_rows := rows |}.

Definition _enc_engine_telemetry (w : _W) (m : body_dict) : result exn _W :=
  w ← W_s (get (i_engine m) []) w;
  w ← W_u64 (get (i_packets m) 0) w;
  w ← W_u64 (get (i_matches m) 0) w;
  w ← W_u64 (get (i_drops m) 0) w;
  W_s (get (i_mode m) []) w.

Definition _dec_engine_telemetry : rd engine_telemetry :=
  engine ← R_s; packets ← R_u64; matches ← R_u64; drops ← R_u64; mode ← R_s;
  mret {| e_engine := engine; e_packets := packets; e_matches := matches; e_drops := drops;
          e_mode := mode |}.

Definition _enc_flow_event (w : _W) (m : body_dict) : result exn _W :=
  w ← W_u32 (get (i_vsys m) 0) w;
  w ← _enc_flow_key w (match i_key m with Given k => k | _ => empty_flow_key end);
  v ← _enum_val Verdict_NAMES (get (i_verdict m) (EInt 0));
  w ← W_u8 (Some v) w;
  W_u64 (get (i_bytes m) 0) w.

Definition _dec_flow_event : rd flow_event :=
  vsys ← R_u32; key ← _dec_flow_key; verdict ← R_u8; bytes ← R_u64;
  mret {| f_vsys := vsys; f_key := key; f_verdict := verdict; f_bytes := bytes |}.

(** ** The envelope *)

Inductive body : Type :=
| ThreatIntelUpdate (m : threat_intel)
| MlModelUpdate (m : ml_model)
| SignatureVerdict (m : sig_verdict)
| PolicyUpdate (m : policy_update)
| EngineTelemetry (m : engine_telemetry)
| FlowEvent (m : flow_event).

Definition body_tag (b : body) : Z :=
  match b with
  | ThreatIntelUpdate _ => 1 | MlModelUpdate _ => 2 | SignatureVerdict _ => 3
  | PolicyUpdate _ => 4 | EngineTelemetry _ => 5 | FlowEvent _ => 6
  end.

(** [_BODY_CODECS]: the encoder and the decoder registered for a tag. *)
Definition _BODY_CODECS (tag : Z) : option ((_W -> body_dict -> result exn _W) * rd body) :=
  if tag =? 1 then Some (_enc_threat_intel, m ← _dec_threat_intel; mret (ThreatIntelUpdate m))
  else if tag =? 2 then Some (_enc_ml_model, m ← _dec_ml_model; mret (MlModelUpdate m))
  else if tag =? 3 then Some (_enc_sig_verdict, m ← _dec_sig_verdict; mret (SignatureVerdict m))
  else if tag =? 4 then Some (_enc_policy_update, m ← _dec_policy_update; mret (PolicyUpdate m))
  else if tag =? 5 then Some (_enc_engine_telemetry, m ← _dec_engine_telemetry; mret (EngineTelemetry m))
  else if tag =? 6 then Some (_enc_flow_event, m ← _dec_flow_event; mret (FlowEvent m))
  else None.

Definition WIRE_VERSION : Z := 1.
Definition _MAGIC : bytes := lit "FMDP".

Definition build_message (tag : Z) (body : option body_dict) (direction : option enum_arg) (ver : option Z)
  : result exn bytes :=
  match _BODY_CODECS tag with
  | None => Err (UnknownTag tag)
  | Some (enc, _) =>
      body_bytes ← enc [] (default empty_body body);
      let fw : _W := _MAGIC in
      fw ← W_u32 ver fw;
      d ← _enum_val Dir_NAMES direction;
      fw ← W_u8 (Some d) fw;
      fw ← W_u8 (Some tag) fw;
      fw ← W_u32 (Some (blen body_bytes)) fw;
      Ok (fw ++ body_bytes)
  end.

(** The dictionary [parse] returns; [body_type] and [body_tag] are functions of
    the decoded body, [dir_name] of the direction. *)
Record message := { ver : Z; dir : Z; msg_body : option body }.

Definition dir_name (m : message) : pystr :=
  match find (fun p => p.1 =? dir m) Dir_NAMES with Some (_, n) => n | None => lit "?" end.

Definition parse (buf : bytes) : result exn message :=
  '(magic, r) ← R_take 4 (mkR buf 0);
  if negb (bool_decide (magic = _MAGIC)) then Err (BadMagic magic) else
  '(ver, r) ← R_u32 r;
  '(direction, r) ← R_u8 r;
  '(tag, r) ← R_u8 r;
  '(body_len, r) ← R_u32 r;
  '(body_raw, _) ← R_take body_len r;
  if tag =? 0 then Ok {| ver := ver; dir := direction; msg_body := None |} else
  match _BODY_CODECS tag with
  | None => Err (UnknownTagOnWire tag)
  | Some (_, dec) =>
      '(b, _) ← dec (mkR body_raw 0);
      Ok {| ver := ver; dir := direction; msg_body := Some b |}
  end.

(** ** The public builders *)

Definition list_of {A} (o : option (list A)) : list A := default [] o.

Definition build_threat_intel_update (seq : Z) (adds : option (list signature_dict))
  (removes : option (list Z)) (iocs : option (list ioc_dict)) (direction : enum_arg) (ver : Z) :=
  build_message 1 (Some {| i_seq := Given seq; i_adds := Given (list_of adds);
      i_removes := Given (list_of removes); i_iocs := Given (list_of iocs);
      i_version := Absent; i_mkind := Absent; i_tree_blob := Absent; i_ngram_params := Absent;
      i_features_version := Absent; i_bsid := Absent; i_sha256 := Absent; i_verdict := Absent;
      i_ts := Absent; i_vsys := Absent; i_rows := Absent; i_engine := Absent; i_packets := Absent;
      i_matches := Absent; i_drops := Absent; i_mode := Absent; i_key := Absent; i_bytes := Absent |})
    (Some direction) (Some ver).

Definition build_ml_model_update (version : Z) (kind : enum_arg) (tree_blob ngram_params : bytes)
  (features_version : Z) (direction : enum_arg) (ver : Z) :=
  build_message 2 (Some {| i_seq := Absent; i_adds := Absent; i_removes := Absent; i_iocs := Absent;
      i_version := Given version; i_mkind := Given kind; i_tree_blob := Given tree_blob;
      i_ngram_params := Given ngram_params; i_features_version := Given features_version;
      i_bsid := Absent; i_sha256 := Absent; i_verdict := Absent;
      i_ts := Absent; i_vsys := Absent; i_rows := Absent; i_engine := Absent; i_packets := Absent;
      i_matches := Absent; i_drops := Absent; i_mode := Absent; i_key := Absent; i_bytes := Absent |})
    (Some direction) (Some ver).

(** [now_ms] is [int(time.time() * 1000)], read only when [ts] is [None]. *)
Definition build_signature_verdict (now_ms : Z) (sid : Z) (sha256 : bytes) (verdict : enum_arg)
  (ts : option Z) (direction : enum_arg) (ver : Z) :=
  build_message 3 (Some {| i_seq := Absent; i_adds := Absent; i_removes := Absent; i_iocs := Absent;
      i_version := Absent; i_mkind := Absent; i_tree_blob := Absent; i_ngram_params := Absent;
      i_features_version := Absent; i_bsid := Given sid; i_sha256 := Given sha256;
      i_verdict := Given verdict; i_ts := Given (default now_ms ts);
      i_vsys := Absent; i_rows := Absent; i_engine := Absent; i_packets := Absent;
      i_matches := Absent; i_drops := Absent; i_mode := Absent; i_key := Absent; i_bytes := Absent |})
    (Some direction) (Some ver).

Definition build_policy_update (vsys : Z) (rows : option (list policy_row_dict)) (direction : enum_arg) (ver : Z) :=
  build_message 4 (Some {| i_seq := Absent; i_adds := Absent; i_removes := Absent; i_iocs := Absent;
      i_version := Absent; i_mkind := Absent; i_tree_blob := Absent; i_ngram_params := Absent;
      i_features_version := Absent; i_bsid := Absent; i_sha256 := Absent; i_verdict := Absent;
      i_ts := Absent; i_vsys := Given vsys; i_rows := Given (list_of rows); i_engine := Absent;
      i_packets := Absent; i_matches := Absent; i_drops := Absent; i_mode := Absent;
      i_key := Absent; i_bytes := Absent |})
    (Some direction) (Some ver).

Definition build_engine_telemetry (engine : pystr) (packets matches drops : Z) (mode : pystr)
  (direction : enum_arg) (ver : Z) :=
  build_message 5 (Some {| i_seq := Absent; i_adds := Absent; i_removes := Absent; i_iocs := Absent;
      i_version := Absent; i_mkind := Absent; i_tree_blob := Absent; i_ngram_params := Absent;
      i_features_version := Absent; i_bsid := Absent; i_sha256 := Absent; i_verdict := Absent;
      i_ts := Absent; i_vsys := Absent; i_rows := Absent; i_engine := Given engine;
      i_packets := Given packets; i_matches := Given matches; i_drops := Given drops;
      i_mode := Given mode; i_key := Absent; i_bytes := Absent |})
    (Some direction) (Some ver).

Definition build_flow_event (vsys : Z) (key : flow_key_dict) (verdict : enum_arg) (byte_count : Z)
  (direction : enum_arg) (ver : Z) :=
  build_message 6 (Some {| i_seq := Absent; i_adds := Absent; i_removes := Absent; i_iocs := Absent;
      i_version := Absent; i_mkind := Absent; i_tree_blob := Absent; i_ngram_params := Absent;
      i_features_version := Absent; i_bsid := Absent; i_sha256 := Absent; i_verdict := Given verdict;
      i_ts := Absent; i_vsys := Given vsys; i_rows := Absent; i_engine := Absent;
      i_packets := Absent; i_matches := Absent; i_drops := Absent; i_mode := Absent;
      i_key := Given key; i_bytes := Given byte_count |})
    (Some direction) (Some ver).

(** ** Channels *)

(** [InProcChannel]: the deque of pending frames. *)
Definition inproc := list bytes.
Definition inproc_send (q : inproc) (frame : bytes) : result exn inproc := Ok (q ++ [frame]).
Definition inproc_recv (q : inproc) : option bytes * inproc :=
  match q with [] => (None, []) | f :: t => (Some f, t) end.

(** [FileRingChannel]: the file's content and this instance's read cursor. *)
Record file_ring := { file : bytes; rpos : Z }.

(** [struct.pack("<I", v)], which refuses values outside 32 bits. *)
Definition pack_I (v : Z) : result exn bytes :=
  if ((0 <=? v) && (v <? 4294967296))%bool then Ok (le_pack 4 v) else Err (StructError v).

Definition file_ring_send (c : file_ring) (frame : bytes) : result exn file_ring :=
  hdr ← pack_I (blen frame);
  Ok {| file := file c ++ hdr ++ frame; rpos := rpos c |}.

(** [f.read(n)] at position [p]. *)
Definition f_read (f : bytes) (p n : Z) : bytes := slice p (p + n) f.

Definition file_ring_recv (c : file_ring) : option bytes * file_ring :=
  let hdr := f_read (file c) (rpos c) 4 in
  if blen hdr <? 4 then (None, c) else
  let n := le_unpack hdr in
  let payload := f_read (file c) (rpos c + 4) n in
  if blen payload <? n then (None, c) else
  (Some payload, {| file := file c; rpos := rpos c + 4 + blen payload |}).

(** [drain]: the loop ends because every frame takes at least its four-byte
    header out of the unread part of the file, which bounds the rounds. *)
Fixpoint file_ring_drain_loop (fuel : nat) (c : file_ring) : option (list bytes * file_ring) :=
  match fuel with
  | O => None
  | S f =>
      match file_ring_recv c with
      | (None, c') => Some ([], c')
      | (Some frame, c') =>
          match file_ring_drain_loop f c' with
          | Some (out, c'') => Some (frame :: out, c'')
          | None => None
          end
      end
  end.
Definition file_ring_drain (c : file_ring) : option (list bytes * file_ring) :=
  file_ring_drain_loop (S (length (file c))) c.

(** ** Reader and writer laws *)

(** [emits f e]: the writer step [f] appends exactly [e]. *)
Definition emits (f : _W -> result exn _W) (e : bytes) : Prop := forall w, f w = Ok (w ++ e).

(** [reads p e a]: wherever [e] stands in the input, [p] consumes it and returns [a]. *)
Definition reads {A} (p : rd A) (e : bytes) (a : A) : Prop := forall pre post,
  p (mkR (pre ++ e ++ post) (blen pre)) = Ok (a, mkR (pre ++ e ++ post) (blen pre + blen e)).

(** [codec f p a]: what [f] writes, [p] reads back as [a]. *)
Definition codec {A} (f : _W -> result exn _W) (p : rd A) (a : A) : Prop :=
  exists e, emits f e /\ reads p e a.

Lemma reads_bind {A B} (p : rd A) (q : A -> rd B) e1 e2 a b :
  reads p e1 a -> reads (q a) e2 b -> reads (x ← p; q x) (e1 ++ e2) b.
Proof.
  intros H1 H2 pre post. unfold mbind, rd_bind. rewrite <- app_assoc, H1.
  specialize (H2 (pre ++ e1) post). rewrite blen_app, <- app_assoc in H2.
  rewrite H2, blen_app. do 3 f_equal. lia.
Qed.

Lemma reads_ret {A} (a : A) : reads (mret a) [] a.
Proof. intros pre post. unfold mret, rd_ret. do 3 f_equal. unfold blen at 3. cbn [length]. lia. Qed.

Lemma reads_take e : reads (R_take (blen e)) e e.
Proof.
  intros pre post. unfold R_take; cbn [off mv].
  destruct (blen pre + blen e >? blen (pre ++ e ++ post)) eqn:E.
  - rewrite !blen_app in E. pose proof (blen_nonneg post).
    rewrite Z.gtb_ltb in E. zb. lia.
  - do 2 f_equal. rewrite slice_app_r by lia. rewrite slice_app_l by lia.
    unfold slice. rewrite Z.sub_diag. cbn [Z.to_nat drop].
    apply firstn_all2. unfold blen; lia.
Qed.

Lemma codec_bind {A B} f (p : rd A) a g (q : A -> rd B) b :
  codec f p a -> codec g (q a) b -> codec (fun w => w' ← f w; g w') (x ← p; q x) b.
Proof.
  intros (e1 & H1 & R1) (e2 & H2 & R2). exists (e1 ++ e2). split.
  - intros w. rewrite H1. cbn. rewrite H2. by rewrite app_assoc.
  - by eapply reads_bind.
Qed.

Lemma codec_last {A B} f (p : rd A) a (g : A -> B) :
  codec f p a -> codec f (x ← p; mret (g x)) (g a).
Proof.
  intros (e & H & R). exists e; split; [done|].
  rewrite <- (app_nil_r e). eapply reads_bind; [done | apply reads_ret].
Qed.

Lemma emits_bytes f e : (forall w, f w = Ok (w ++ e)) -> emits f e.
Proof. done. Qed.

Lemma codec_fixed n v f p :
  (forall w, f w = Ok (w ++ le_pack n (v mod 256 ^ Z.of_nat n))) ->
  p = (c ← R_take (Z.of_nat n); mret (le_unpack c)) ->
  0 <= v < 256 ^ Z.of_nat n -> codec f p v.
Proof.
  intros Hf -> Hv. exists (le_pack n v). rewrite Z.mod_small in Hf by done.
  split; [exact Hf|].
  replace (Z.of_nat n) with (blen (le_pack n v)) by (unfold blen; by rewrite length_le_pack).
  rewrite <- (app_nil_r (le_pack n v)) at 2.
  eapply reads_bind; [apply reads_take|].
  rewrite le_unpack_pack, Z.mod_small by done. apply reads_ret.
Qed.

Lemma codec_u8 v : 0 <= v < 256 -> codec (W_u8 (Some v)) R_u8 v.
Proof. intros H. apply (codec_fixed 1); [|done|done]. intros w; cbn -[le_pack]. by rewrite land_ff. Qed.
Lemma codec_u16 v : 0 <= v < 65536 -> codec (W_u16 (Some v)) R_u16 v.
Proof. intros H. apply (codec_fixed 2); [|done|done]. intros w; cbn -[le_pack]. by rewrite land_ffff. Qed.
Lemma codec_u32 v : 0 <= v < 4294967296 -> codec (W_u32 (Some v)) R_u32 v.
Proof. intros H. apply (codec_fixed 4); [|done|done]. intros w; cbn -[le_pack]. by rewrite land_ffffffff. Qed.
Lemma codec_u64 v : 0 <= v < 18446744073709551616 -> codec (W_u64 (Some v)) R_u64 v.
Proof. intros H. apply (codec_fixed 8); [|done|done]. intros w; cbn -[le_pack]. by rewrite land_ff64. Qed.

Definition fits32 (n : Z) : Prop := n < 4294967296.

Lemma codec_blob b : fits32 (blen b) -> codec (W_blob (Some b)) R_blob b.
Proof.
  intros H. unfold W_blob, R_blob; cbn [default].
  apply (codec_bind (W_u32 (Some (blen b))) R_u32 (blen b) (fun w => Ok (w ++ b)) R_take).
  - apply codec_u32. pose proof (blen_nonneg b). unfold fits32 in H; lia.
  - exists b. split; [done | apply reads_take].
Qed.

(** A string that can be written: it has a UTF-8 form of less than 4 GiB. *)
Definition str_fits (s : pystr) : Prop :=
  str_ok s /\ match utf8_encode s with Some b => fits32 (blen b) | None => False end.

Lemma codec_s s : str_fits s -> codec (W_s (Some s)) R_s s.
Proof.
  intros [Hs Hb]. unfold W_s, R_s.
  destruct (utf8_encode s) as [b|] eqn:E; [|done].
  destruct (codec_blob b Hb) as (e & He & Hr). exists e.
  split; [intros w; cbn; unfold id; rewrite E; apply He|].
  rewrite <- (app_nil_r e). eapply reads_bind; [exact Hr|].
  rewrite (utf8_decode_encode s b) by done. apply reads_ret.
Qed.

Lemma codec_fold {A B} (enc : _W -> A -> result exn _W) (dec : rd B) (emb : B -> A) l :
  Forall (fun x => codec (fun w => enc w (emb x)) dec x) l ->
  codec (fun w => foldM_res enc w (map emb l)) (rd_repeat (length l) dec) l.
Proof.
  induction 1 as [|x t Hx _ IH]; cbn [map foldM_res length rd_repeat].
  - exists []. split; [intros w; by rewrite app_nil_r | apply reads_ret].
  - eapply (codec_bind (fun w => enc w (emb x)) dec x
              (fun w => foldM_res enc w (map emb t))
              (fun y => ys ← rd_repeat (length t) dec; mret (y :: ys))); [exact Hx|].
    apply (codec_last _ _ t (cons x)), IH.
Qed.

Lemma codec_vec {A B} (enc : _W -> A -> result exn _W) (dec : rd B) (emb : B -> A) l :
  fits32 (blen l) -> Forall (fun x => codec (fun w => enc w (emb x)) dec x) l ->
  codec (fun w => _enc_vec w (map emb l) enc) (_dec_vec dec) l.
Proof.
  intros Hn Hl. unfold _enc_vec, _dec_vec.
  replace (blen (map emb l)) with (blen l) by (unfold blen; by rewrite length_map).
  eapply (codec_bind (W_u32 (Some (blen l))) R_u32 (blen l)
            (fun w => foldM_res enc w (map emb l)) (fun n => rd_repeat (Z.to_nat n) dec)).
  - apply codec_u32. pose proof (blen_nonneg l). unfold fits32 in Hn; lia.
  - replace (Z.to_nat (blen l)) with (length l) by (unfold blen; lia). by apply codec_fold.
Qed.

(** ** Messages in range, as the dictionaries a producer passes *)

Definition u8_ok (v : Z) : Prop := 0 <= v < 256.
Definition u16_ok (v : Z) : Prop := 0 <= v < 65536.
Definition u32_ok (v : Z) : Prop := 0 <= v < 4294967296.
Definition u64_ok (v : Z) : Prop := 0 <= v < 18446744073709551616.
Definition verdict_ok (v : Z) : Prop := 0 <= v < 3.
Definition blob_ok (b : bytes) : Prop := fits32 (blen b).

Definition signature_ok (s : signature) : Prop :=
  u32_ok (s_sid s) /\ str_fits (s_name s) /\ str_fits (s_sig_type s) /\ str_fits (s_hash_type s) /\
  blob_ok (s_digest s) /\ str_fits (s_hex_pattern s) /\ u8_ok (s_severity s) /\
  verdict_ok (s_verdict s) /\ str_fits (s_family s).
Definition signature_in (s : signature) : signature_dict :=
  {| i_sid := Given (s_sid s); i_name := Given (s_name s); i_sig_type := Given (s_sig_type s);
     i_hash_type := Given (s_hash_type s); i_digest := Given (s_digest s);
     i_hex_pattern := Given (s_hex_pattern s); i_severity := Given (s_severity s);
     i_sverdict := Given (EInt (s_verdict s)); i_family := Given (s_family s) |}.

Definition ioc_ok (i : ioc) : Prop :=
  str_fits (ioc_kind i) /\ str_fits (ioc_value i) /\ verdict_ok (ioc_verdict i).
Definition ioc_in (i : ioc) : ioc_dict :=
  {| i_kind := Given (ioc_kind i); i_value := Given (ioc_value i);
     i_iverdict := Given (EInt (ioc_verdict i)) |}.

Definition policy_row_ok (p : policy_row) : Prop :=
  u8_ok (p_vsys p) /\ u8_ok (p_proto p) /\ str_fits (p_src_ip p) /\ u16_ok (p_src_port p) /\
  str_fits (p_dst_ip p) /\ u16_ok (p_dst_port p) /\ u8_ok (p_action p) /\ str_fits (p_name p).
Definition policy_row_in (p : policy_row) : policy_row_dict :=
  {| i_pvsys := Given (p_vsys p); i_pproto := Given (p_proto p); i_src_ip := Given (p_src_ip p);
     i_psrc_port := Given (p_src_port p); i_dst_ip := Given (p_dst_ip p);
     i_pdst_port := Given (p_dst_port p); i_action := Given (p_action p); i_pname := Given (p_name p) |}.

Definition flow_key_ok (k : flow_key) : Prop :=
  u8_ok (k_vsys k) /\ u8_ok (k_proto k) /\ u32_ok (k_src_ip k) /\ u16_ok (k_src_port k) /\
  u32_ok (k_dst_ip k) /\ u16_ok (k_dst_port k).
Definition flow_key_in (k : flow_key) : flow_key_dict :=
  {| i_kvsys := Given (k_vsys k); i_kproto := Given (k_proto k); i_ksrc_ip := Given (k_src_ip k);
     i_ksrc_port := Given (k_src_port k); i_kdst_ip := Given (k_dst_ip k);
     i_kdst_port := Given (k_dst_port k) |}.

Definition body_ok (b : body) : Prop :=
  match b with
  | ThreatIntelUpdate m =>
      u32_ok (t_seq m) /\ fits32 (blen (t_adds m)) /\ Forall signature_ok (t_adds m) /\
      fits32 (blen (t_removes m)) /\ Forall u32_ok (t_removes m) /\
      fits32 (blen (t_iocs m)) /\ Forall ioc_ok (t_iocs m)
  | MlModelUpdate m =>
      u32_ok (m_version m) /\ 0 <= m_kind m < 2 /\ blob_ok (m_tree_blob m) /\
      blob_ok (m_ngram_params m) /\ u32_ok (m_features_version m)
  | SignatureVerdict m =>
      u32_ok (v_sid m) /\ blob_ok (v_sha256 m) /\ verdict_ok (v_verdict m) /\ u64_ok (v_ts m)
  | PolicyUpdate m =>
      u32_ok (pu_vsys m) /\ fits32 (blen (pu_rows m)) /\ Forall policy_row_ok (pu_rows m)
  | EngineTelemetry m =>
      str_fits (e_engine m) /\ u64_ok (e_packets m) /\ u64_ok (e_matches m) /\
      u64_ok (e_drops m) /\ str_fits (e_mode m)
  | FlowEvent m =>
      u32_ok (f_vsys m) /\ flow_key_ok (f_key m) /\ verdict_ok (f_verdict m) /\ u64_ok (f_bytes m)
  end.

(** The call of the public builder that sends [b]. *)
Definition build_body (b : body) (direction ver : Z) : result exn bytes :=
  match b with
  | ThreatIntelUpdate m =>
      build_threat_intel_update (t_seq m) (Some (map signature_in (t_adds m))) (Some (t_removes m))
        (Some (map ioc_in (t_iocs m))) (EInt direction) ver
  | MlModelUpdate m =>
      build_ml_model_update (m_version m) (EInt (m_kind m)) (m_tree_blob m) (m_ngram_params m)
        (m_features_version m) (EInt direction) ver
  | SignatureVerdict m =>
      build_signature_verdict 0 (v_sid m) (v_sha256 m) (EInt (v_verdict m)) (Some (v_ts m))
        (EInt direction) ver
  | PolicyUpdate m =>
      build_policy_update (pu_vsys m) (Some (map policy_row_in (pu_rows m))) (EInt direction) ver
  | EngineTelemetry m =>
      build_engine_telemetry (e_engine m) (e_packets m) (e_matches m) (e_drops m) (e_mode m)
        (EInt direction) ver
  | FlowEvent m =>
      build_flow_event (f_vsys m) (flow_key_in (f_key m)) (EInt (f_verdict m)) (f_bytes m)
        (EInt direction) ver
  end.

Lemma enum_verdict_int v : verdict_ok v -> _enum_val Verdict_NAMES (Some (EInt v)) = Ok v.
Proof.
  unfold verdict_ok; intros H. assert (v = 0 \/ v = 1 \/ v = 2) as [-> | [-> | ->]] by lia; reflexivity.
Qed.
Lemma enum_ml_int v : 0 <= v < 2 -> _enum_val MlKind_NAMES (Some (EInt v)) = Ok v.
Proof. intros H. assert (v = 0 \/ v = 1) as [-> | ->] by lia; reflexivity. Qed.
Lemma enum_dir_int v : 0 <= v < 2 -> _enum_val Dir_NAMES (Some (EInt v)) = Ok v.
Proof. intros H. assert (v = 0 \/ v = 1) as [-> | ->] by lia; reflexivity. Qed.

Lemma codec_ext {A} f g (p : rd A) a : (forall w, f w = g w) -> codec f p a -> codec g p a.
Proof. intros H (e & He & Hr). exists e. split; [intros w; rewrite <- H; apply He | done]. Qed.

Lemma verdict_u8 v : verdict_ok v -> 0 <= v < 256.
Proof. unfold verdict_ok; lia. Qed.

Create HintDb wire.
#[local] Hint Resolve codec_u8 codec_u16 codec_u32 codec_u64 codec_blob codec_s verdict_u8 : wire.
#[local] Hint Extern 1 (0 <= _ < _) => (unfold u8_ok, u16_ok, u32_ok, u64_ok in *; lia) : wire.
#[local] Hint Extern 1 (fits32 _) => assumption : wire.

(** One field: the next write of the encoder against the next read of the decoder. *)
Ltac codec_field :=
  cbn [get mbind result_bind];
  first [ eapply codec_bind; [solve [eauto with wire]|] | eapply codec_last; solve [eauto with wire] ].

Lemma codec_signature s :
  signature_ok s -> codec (fun w => _enc_signature w (signature_in s)) _dec_signature s.
Proof.
  destruct s; intros (H1 & H2 & H3 & H4 & H5 & H6 & H7 & H8 & H9); cbn in H1, H2, H3, H4, H5, H6, H7, H8, H9.
  unfold _enc_signature, _dec_signature, signature_in; cbn -[mbind W_u32 W_s W_blob W_u8 _enum_val].
  rewrite enum_verdict_int by done. repeat codec_field.
Qed.

Lemma codec_ioc i : ioc_ok i -> codec (fun w => _enc_ioc w (ioc_in i)) _dec_ioc i.
Proof.
  destruct i; intros (H1 & H2 & H3); cbn in H1, H2, H3.
  unfold _enc_ioc, _dec_ioc, ioc_in; cbn -[mbind W_s W_u8 _enum_val].
  rewrite enum_verdict_int by done. repeat codec_field.
Qed.

Lemma codec_policy_row r : policy_row_ok r -> codec (fun w => _enc_policy_row w (policy_row_in r)) _dec_policy_row r.
Proof.
  destruct r; intros (H1 & H2 & H3 & H4 & H5 & H6 & H7 & H8); cbn in H1, H2, H3, H4, H5, H6, H7, H8.
  unfold _enc_policy_row, _dec_policy_row, policy_row_in; cbn -[mbind W_s W_u8 W_u16].
  repeat codec_field.
Qed.

Lemma codec_flow_key k : flow_key_ok k -> codec (fun w => _enc_flow_key w (flow_key_in k)) _dec_flow_key k.
Proof.
  destruct k; intros (H1 & H2 & H3 & H4 & H5 & H6); cbn in H1, H2, H3, H4, H5, H6.
  unfold _enc_flow_key, _dec_flow_key, flow_key_in; cbn -[mbind W_u8 W_u16 W_u32].
  repeat codec_field.
Qed.

#[local] Hint Resolve codec_flow_key : wire.

Lemma codec_vec_of {A B} (ok : B -> Prop) (enc : _W -> A -> result exn _W) (dec : rd B) (emb : B -> A) l :
  (forall x, ok x -> codec (fun w => enc w (emb x)) dec x) ->
  fits32 (blen l) -> Forall ok l -> codec (fun w => _enc_vec w (map emb l) enc) (_dec_vec dec) l.
Proof. intros H Hn Hl. apply codec_vec; [done|]. eapply Forall_impl; [exact Hl | exact H]. Qed.

Lemma codec_removes l :
  fits32 (blen l) -> Forall u32_ok l ->
  codec (fun w => w' ← W_u32 (Some (blen l)) w; foldM_res (fun w sid => W_u32 (Some sid) w) w' l)
        (n ← R_u32; rd_repeat (Z.to_nat n) R_u32) l.
Proof.
  intros Hn Hl.
  pose proof (codec_vec_of u32_ok (fun w sid => W_u32 (Some sid) w) R_u32 id l codec_u32 Hn Hl) as H.
  unfold _enc_vec, _dec_vec in H. by rewrite map_id in H.
Qed.

Lemma codec_assoc {A B C} (f g h : _W -> result exn _W) (p : rd A) (q : A -> rd B) (k : B -> rd C) c :
  codec (fun w => w' ← (w1 ← f w; g w1); h w') (y ← (x ← p; q x); k y) c ->
  codec (fun w => w1 ← f w; w2 ← g w1; h w2) (x ← p; y ← q x; k y) c.
Proof.
  intros (e & He & Hr). exists e. split.
  - intros w. specialize (He w). unfold mbind, result_bind in *. by destruct (f w).
  - intros pre post. specialize (Hr pre post). unfold mbind, rd_bind in *.
    by destruct (p _) as [[? ?]|].
Qed.

Lemma codec_threat_intel m :
  body_ok (ThreatIntelUpdate m) ->
  codec (fun w => w1 ← W_u32 (Some (t_seq m)) w;
                  w2 ← _enc_vec w1 (map signature_in (t_adds m)) _enc_signature;
                  w3 ← W_u32 (Some (blen (t_removes m))) w2;
                  w4 ← foldM_res (fun w sid => W_u32 (Some sid) w) w3 (t_removes m);
                  _enc_vec w4 (map ioc_in (t_iocs m)) _enc_ioc)
        _dec_threat_intel m.
Proof.
  destruct m; intros (H1 & H2 & H3 & H4 & H5 & H6 & H7); cbn [t_seq t_adds t_removes t_iocs] in *. unfold _dec_threat_intel.
  eapply codec_bind; [eauto with wire|].
  eapply codec_bind; [by eapply (codec_vec_of signature_ok), H3; [apply codec_signature|]|].
  apply (codec_assoc (W_u32 (Some (blen t_removes0)))
           (fun w3 => foldM_res (fun w sid => W_u32 (Some sid) w) w3 t_removes0) _ R_u32
           (fun n => rd_repeat (Z.to_nat n) R_u32)).
  eapply codec_bind; [by apply codec_removes|].
  eapply codec_last. by eapply (codec_vec_of ioc_ok), H7; [apply codec_ioc|].
Qed.

Lemma codec_policy_update m :
  body_ok (PolicyUpdate m) ->
  codec (fun w => w1 ← W_u32 (Some (pu_vsys m)) w;
                  _enc_vec w1 (map policy_row_in (pu_rows m)) _enc_policy_row)
        _dec_policy_update m.
Proof.
  destruct m; intros (H1 & H2 & H3); cbn [pu_vsys pu_rows] in *. unfold _dec_policy_update.
  eapply codec_bind; [eauto with wire|].
  eapply codec_last. by eapply (codec_vec_of policy_row_ok), H3; [apply codec_policy_row|].
Qed.

Lemma codec_ml_model m :
  body_ok (MlModelUpdate m) ->
  codec (fun w => w1 ← W_u32 (Some (m_version m)) w; k ← _enum_val MlKind_NAMES (Some (EInt (m_kind m)));
                  w2 ← W_u8 (Some k) w1; w3 ← W_blob (Some (m_tree_blob m)) w2;
                  w4 ← W_blob (Some (m_ngram_params m)) w3; W_u32 (Some (m_features_version m)) w4)
        _dec_ml_model m.
Proof.
  destruct m; intros (H1 & H2 & H3 & H4 & H5);
  cbn [m_version m_kind m_tree_blob m_ngram_params m_features_version] in *.
  rewrite enum_ml_int by done. unfold _dec_ml_model.
  assert (0 <= m_kind0 < 256) by lia. repeat codec_field.
Qed.

Lemma codec_sig_verdict m :
  body_ok (SignatureVerdict m) ->
  codec (fun w => w1 ← W_u32 (Some (v_sid m)) w; w2 ← W_blob (Some (v_sha256 m)) w1;
                  k ← _enum_val Verdict_NAMES (Some (EInt (v_verdict m)));
                  w3 ← W_u8 (Some k) w2; W_u64 (Some (v_ts m)) w3)
        _dec_sig_verdict m.
Proof.
  destruct m; intros (H1 & H2 & H3 & H4); cbn [v_sid v_sha256 v_verdict v_ts] in *.
  rewrite enum_verdict_int by done. unfold _dec_sig_verdict. repeat codec_field.
Qed.

Lemma codec_engine_telemetry m :
  body_ok (EngineTelemetry m) ->
  codec (fun w => w1 ← W_s (Some (e_engine m)) w; w2 ← W_u64 (Some (e_packets m)) w1;
                  w3 ← W_u64 (Some (e_matches m)) w2; w4 ← W_u64 (Some (e_drops m)) w3;
                  W_s (Some (e_mode m)) w4)
        _dec_engine_telemetry m.
Proof.
  destruct m; intros (H1 & H2 & H3 & H4 & H5);
  cbn [e_engine e_packets e_matches e_drops e_mode] in *.
  unfold _dec_engine_telemetry. repeat codec_field.
Qed.

Lemma codec_flow_event m :
  body_ok (FlowEvent m) ->
  codec (fun w => w1 ← W_u32 (Some (f_vsys m)) w; w2 ← _enc_flow_key w1 (flow_key_in (f_key m));
                  k ← _enum_val Verdict_NAMES (Some (EInt (f_verdict m)));
                  w3 ← W_u8 (Some k) w2; W_u64 (Some (f_bytes m)) w3)
        _dec_flow_event m.
Proof.
  destruct m; intros (H1 & H2 & H3 & H4); cbn [f_vsys f_key f_verdict f_bytes] in *.
  rewrite enum_verdict_int by done. unfold _dec_flow_event.
  codec_field. eapply codec_bind; [by apply codec_flow_key|]. repeat codec_field.
Qed.

(** ** The envelope round trip *)

(** Everything before the body: magic, version, direction, tag, body length. *)
Definition header (ver d tag n : Z) : bytes :=
  _MAGIC ++ le_pack 4 ver ++ le_pack 1 d ++ le_pack 1 tag ++ le_pack 4 n.

Lemma length_header v d t n : length (header v d t n) = 14%nat.
Proof. unfold header. autorewrite with ffn_len. reflexivity. Qed.

Lemma build_message_ok tag d dict ver enc (dec : rd body) e :
  _BODY_CODECS tag = Some (enc, dec) -> emits (fun w => enc w dict) e ->
  0 <= d < 2 -> u32_ok ver -> u8_ok tag ->
  build_message tag (Some dict) (Some (EInt d)) (Some ver) =
  Ok (header ver d tag (blen e mod 4294967296) ++ e).
Proof.
  intros Hc He Hd Hv Ht. unfold build_message. rewrite Hc.
  cbn -[_enum_val le_pack _MAGIC]. unfold id. rewrite He. cbn -[_enum_val le_pack _MAGIC].
  rewrite enum_dir_int by done. cbn -[le_pack _MAGIC].
  unfold u32_ok, u8_ok in *.
  rewrite !land_ff, !land_ffffffff, !(Z.mod_small d), !(Z.mod_small tag), !(Z.mod_small ver) by lia.
  unfold header. by rewrite <- !app_assoc.
Qed.

Lemma rd_u8_at pre v post : u8_ok v ->
  R_u8 (mkR (pre ++ le_pack 1 v ++ post) (blen pre)) =
  Ok (v, mkR (pre ++ le_pack 1 v ++ post) (blen pre + 1)).
Proof.
  intros H. destruct (codec_u8 v H) as (e & He & Hr). specialize (He []). cbn -[le_pack] in He.
  rewrite land_ff, Z.mod_small in He by done. injection He as He. subst e. apply Hr.
Qed.

Lemma rd_u32_at pre v post : u32_ok v ->
  R_u32 (mkR (pre ++ le_pack 4 v ++ post) (blen pre)) =
  Ok (v, mkR (pre ++ le_pack 4 v ++ post) (blen pre + 4)).
Proof.
  intros H. destruct (codec_u32 v H) as (e & He & Hr). specialize (He []). cbn -[le_pack] in He.
  rewrite land_ffffffff, Z.mod_small in He by done. injection He as He. subst e. apply Hr.
Qed.

Lemma parse_header ver d tag e :
  u32_ok ver -> u8_ok d -> u8_ok tag -> tag <> 0 -> fits32 (blen e) ->
  parse (header ver d tag (blen e) ++ e) =
  match _BODY_CODECS tag with
  | None => Err (UnknownTagOnWire tag)
  | Some (_, dec) =>
      '(b, _) ← dec (mkR e 0); Ok {| ver := ver; dir := d; msg_body := Some b |}
  end.
Proof.
  intros Hv Hd Ht Ht0 Hn. pose proof (blen_nonneg e).
  unfold parse, header. rewrite <- !app_assoc.
  pose proof (reads_take _MAGIC [] (le_pack 4 ver ++ le_pack 1 d ++ le_pack 1 tag ++ le_pack 4 (blen e) ++ e)) as H0.
  cbn [app] in H0. change (blen _MAGIC) with 4 in H0. change (blen []) with 0 in H0. rewrite H0.
  cbn [mbind result_bind]. rewrite bool_decide_true by done. cbn [negb].
  pose proof (rd_u32_at _MAGIC ver (le_pack 1 d ++ le_pack 1 tag ++ le_pack 4 (blen e) ++ e) Hv) as H1.
  change (blen _MAGIC) with 4 in H1. change (0 + 4) with 4. rewrite H1. cbn [mbind result_bind].
  pose proof (rd_u8_at (_MAGIC ++ le_pack 4 ver) d (le_pack 1 tag ++ le_pack 4 (blen e) ++ e) Hd) as H2.
  rewrite <- !app_assoc in H2. change (blen (_MAGIC ++ le_pack 4 ver)) with (4 + 4) in H2.
  rewrite H2. cbn [mbind result_bind].
  pose proof (rd_u8_at (_MAGIC ++ le_pack 4 ver ++ le_pack 1 d) tag (le_pack 4 (blen e) ++ e) Ht) as H3.
  rewrite <- !app_assoc in H3. change (blen (_MAGIC ++ le_pack 4 ver ++ le_pack 1 d)) with (4 + 4 + 1) in H3.
  rewrite H3. cbn [mbind result_bind].
  assert (u32_ok (blen e)) as Hu by (unfold u32_ok, fits32 in *; lia).
  pose proof (rd_u32_at (_MAGIC ++ le_pack 4 ver ++ le_pack 1 d ++ le_pack 1 tag) (blen e) e Hu) as H4.
  rewrite <- !app_assoc in H4.
  change (blen (_MAGIC ++ le_pack 4 ver ++ le_pack 1 d ++ le_pack 1 tag)) with (4 + 4 + 1 + 1) in H4.
  rewrite H4. cbn [mbind result_bind].
  pose proof (reads_take e (_MAGIC ++ le_pack 4 ver ++ le_pack 1 d ++ le_pack 1 tag ++ le_pack 4 (blen e)) []) as H5.
  rewrite app_nil_r, <- !app_assoc in H5.
  change (blen (_MAGIC ++ le_pack 4 ver ++ le_pack 1 d ++ le_pack 1 tag ++ le_pack 4 (blen e)))
    with (4 + 4 + 1 + 1 + 4) in H5.
  rewrite H5. cbn [mbind result_bind].
  destruct (tag =? 0) eqn:E; [bool_lia|]. done.
Qed.

Lemma codec_decode {A} f (p : rd A) a e :
  codec f p a -> f [] = Ok e -> exists r, p (mkR e 0) = Ok (a, r).
Proof.
  intros (e' & He & Hr) H. rewrite (He []) in H. injection H as H. subst e.
  specialize (Hr [] []). rewrite app_nil_r in Hr. eexists. exact Hr.
Qed.

(** The generic envelope round trip for a body codec. *)
Lemma envelope_roundtrip tag d dict ver enc (dec : rd body) b :
  _BODY_CODECS tag = Some (enc, dec) -> codec (fun w => enc w dict) dec b ->
  0 <= d < 2 -> u32_ok ver -> u8_ok tag -> tag <> 0 ->
  exists frame, build_message tag (Some dict) (Some (EInt d)) (Some ver) = Ok frame /\
    (fits32 (blen frame) -> parse frame = Ok {| MpdpWire.ver := ver; dir := d; msg_body := Some b |}).
Proof.
  intros Hc Hb Hd Hv Ht Ht0. pose proof Hb as (e & He & Hr).
  eexists. split; [by eapply build_message_ok|].
  rewrite blen_app. intros Hsz. pose proof (blen_nonneg e).
  assert (fits32 (blen e)) as Hn.
  { unfold fits32 in *. pose proof (blen_nonneg (header ver d tag (blen e mod 4294967296))). lia. }
  rewrite Z.mod_small by (unfold fits32 in Hn; lia).
  rewrite parse_header by (done || (unfold u8_ok; lia)). rewrite Hc.
  destruct (codec_decode _ _ _ _ Hb (He [])) as [r Hp]. cbn [app] in Hp. by rewrite Hp.
Qed.

(** The body codec registered for the tag of [b] carries [b]. *)
Lemma body_codec b :
  body_ok b -> exists dict enc dec,
    _BODY_CODECS (body_tag b) = Some (enc, dec) /\ codec (fun w => enc w dict) dec b /\
    (forall d ver, build_body b d ver =
       build_message (body_tag b) (Some dict) (Some (EInt d)) (Some ver)).
Proof.
  destruct b as [m|m|m|m|m|m]; intros H.
  - eexists _, _, _. split_and!; [reflexivity | | intros; reflexivity].
    eapply codec_last. by apply codec_threat_intel.
  - eexists _, _, _. split_and!; [reflexivity | | intros; reflexivity].
    eapply codec_last. by apply codec_ml_model.
  - eexists _, _, _. split_and!; [reflexivity | | intros; reflexivity].
    eapply codec_last. by apply codec_sig_verdict.
  - eexists _, _, _. split_and!; [reflexivity | | intros; reflexivity].
    eapply codec_last. by apply codec_policy_update.
  - eexists _, _, _. split_and!; [reflexivity | | intros; reflexivity].
    eapply codec_last. by apply codec_engine_telemetry.
  - eexists _, _, _. split_and!; [reflexivity | | intros; reflexivity].
    eapply codec_last. by apply codec_flow_event.
Qed.

Lemma body_tag_u8 b : u8_ok (body_tag b) /\ body_tag b <> 0.
Proof. destruct b; unfold u8_ok; cbn; lia. Qed.

(** C11.  Every message in range survives the wire: the public builder of its
    table produces a frame, and [parse] of that frame (below 4 GiB, the range of
    the length prefix) returns the version, the direction and the body sent. *)
Theorem message_roundtrip b d v :
  body_ok b -> 0 <= d < 2 -> u32_ok v ->
  exists frame, build_body b d v = Ok frame /\
    (fits32 (blen frame) -> parse frame = Ok {| ver := v; dir := d; msg_body := Some b |}).
Proof.
  intros Hb Hd Hv. destruct (body_codec b Hb) as (dict & enc & dec & Hc & Hcod & Hbuild).
  rewrite Hbuild. destruct (body_tag_u8 b). by eapply envelope_roundtrip.
Qed.

Definition sample_flow : body :=
  FlowEvent {| f_vsys := 1; f_key := {| k_vsys := 1; k_proto := 6; k_src_ip := 167772165;
      k_src_port := 443; k_dst_ip := 3232235777; k_dst_port := 65535 |}; f_verdict := 2; f_bytes := 1500 |}.

Lemma message_roundtrip_witness :
  exists frame, build_body sample_flow 1 1 = Ok frame /\
    (fits32 (blen frame) -> parse frame = Ok {| ver := 1; dir := 1; msg_body := Some sample_flow |}).
Proof.
  apply (message_roundtrip sample_flow 1 1); [|lia|unfold u32_ok; lia].
  cbn; unfold u32_ok, verdict_ok, u64_ok, flow_key_ok, u8_ok, u16_ok, u32_ok; cbn; lia.
Defined.

(** ** Truncation *)

Lemma take_ok_inv n r x r' :
  R_take n r = Ok (x, r') -> off r + n <= blen (mv r) /\ r' = mkR (mv r) (off r + n) /\
  x = slice (off r) (off r + n) (mv r).
Proof.
  unfold R_take. destruct (off r + n >? blen (mv r)) eqn:E; [done|].
  intros [= <- <-]. rewrite Z.gtb_ltb in E. zb. done.
Qed.

Lemma rd_uint_inv n r x r' :
  (c ← R_take n; mret (le_unpack c)) r = Ok (x, r') ->
  off r + n <= blen (mv r) /\ r' = mkR (mv r) (off r + n) /\
  x = le_unpack (slice (off r) (off r + n) (mv r)).
Proof.
  unfold mbind, rd_bind. destruct (R_take n r) as [[c r1]|] eqn:E; [|done].
  apply take_ok_inv in E as (H1 & -> & ->). unfold mret, rd_ret. by intros [= <- <-].
Qed.

(** A frame that parses is long enough for the body length it announces. *)
Lemma parse_ok_length buf m :
  parse buf = Ok m -> 14 <= blen buf /\ 14 + le_unpack (slice 10 14 buf) <= blen buf.
Proof.
  unfold parse, R_u32, R_u8. intros H.
  apply bind_ok_inv in H as ([magic r0] & H0 & H). apply take_ok_inv in H0 as (B0 & -> & ->).
  case_match; [done|].
  apply bind_ok_inv in H as ([? r1] & H1 & H). apply rd_uint_inv in H1 as (B1 & -> & ->).
  apply bind_ok_inv in H as ([? r2] & H2 & H). apply rd_uint_inv in H2 as (B2 & -> & ->).
  apply bind_ok_inv in H as ([? r3] & H3 & H). apply rd_uint_inv in H3 as (B3 & -> & ->).
  apply bind_ok_inv in H as ([n r4] & H4 & H). apply rd_uint_inv in H4 as (B4 & -> & ->).
  apply bind_ok_inv in H as ([? ?] & H5 & H). apply take_ok_inv in H5 as (B5 & _ & _).
  cbn [off mv] in *. split; [lia|].
  change (0 + 4 + 4 + 1 + 1) with 10 in *. change (10 + 4) with 14 in *. lia.
Qed.

Lemma W_u8_inv v w w' : W_u8 v w = Ok w' -> exists n, w' = w ++ le_pack 1 n.
Proof. destruct v; [|done]. intros [= <-]. eexists. reflexivity. Qed.
Lemma W_u32_inv v w w' : W_u32 v w = Ok w' -> exists n, v = Some n /\ w' = w ++ le_pack 4 (n mod 4294967296).
Proof.
  destruct v as [n|]; [|done]. unfold W_u32, py_int, mbind, result_bind.
  rewrite land_ffffffff. intros H. assert (w' = w ++ le_pack 4 (n mod 4294967296)) by congruence. eauto.
Qed.

(** The shape of a built frame: ten header bytes, the body length, the body. *)
Lemma build_message_shape tag dict d v frame :
  build_message tag dict d v = Ok frame ->
  exists hd e, length hd = 10%nat /\ frame = hd ++ le_pack 4 (blen e mod 4294967296) ++ e.
Proof.
  unfold build_message. destruct (_BODY_CODECS tag) as [[enc dec]|]; [|done]. intros H.
  apply bind_ok_inv in H as (e & _ & H).
  apply bind_ok_inv in H as (w1 & H1 & H). apply W_u32_inv in H1 as (n1 & _ & ->).
  apply bind_ok_inv in H as (k & _ & H).
  apply bind_ok_inv in H as (w2 & H2 & H). apply W_u8_inv in H2 as (n2 & ->).
  apply bind_ok_inv in H as (w3 & H3 & H). apply W_u8_inv in H3 as (n3 & ->).
  apply bind_ok_inv in H as (w4 & H4 & H). apply W_u32_inv in H4 as (n4 & E4 & ->).
  exists (((_MAGIC ++ le_pack 4 (n1 mod 4294967296)) ++ le_pack 1 n2) ++ le_pack 1 n3), e.
  split; [autorewrite with ffn_len; reflexivity|].
  rewrite <- !app_assoc in H. rewrite <- !app_assoc. congruence.
Qed.

(**  A frame cut short anywhere is refused: no strict prefix of a frame
    that a producer built parses. *)
Theorem truncated_refused tag dict d v frame n :
  build_message tag dict d v = Ok frame ->
  fits32 (blen frame) -> (n < length frame)%nat ->
  is_ok (parse (take n frame)) = false.
Proof.
  intros Hb Hsz Hn. apply build_message_shape in Hb as (hd & e & Hl10 & ->).
  set (frame := hd ++ _) in *.
  assert (blen frame = 14 + blen e) as Hlen.
  { unfold frame, blen. autorewrite with ffn_len. lia. }
  destruct (parse (take n frame)) as [m|] eqn:Hp; [exfalso|done].
  apply parse_ok_length in Hp as [H14 Hle].
  assert (blen (take n frame) = Z.of_nat n) as Hbn.
  { unfold blen. rewrite length_take. lia. }
  assert (slice 10 14 (take n frame) = le_pack 4 (blen e mod 4294967296)) as Hsl.
  { transitivity (slice 10 14 frame).
    - rewrite <- (take_drop n frame) at 2. by rewrite slice_app_l by lia.
    - unfold frame. rewrite slice_app_r by (unfold blen; lia).
      rewrite slice_app_l by (unfold blen; rewrite ?Hl10, ?length_le_pack; lia).
      unfold blen at 1 2. rewrite Hl10. reflexivity. }
  pose proof (blen_nonneg e). unfold fits32 in Hsz.
  rewrite Hsl, Hbn, le_unpack_pack in Hle. change (256 ^ Z.of_nat 4) with 4294967296 in Hle.
  rewrite Z.mod_mod, Z.mod_small in Hle by lia. unfold blen in *. lia.
Qed.

Lemma truncated_refused_witness :
  match build_body sample_flow 1 1 with
  | Ok frame => length frame = 41%nat /\ is_ok (parse (take 40 frame)) = false
  | Err _ => False
  end.
Proof.
  destruct (build_body sample_flow 1 1) as [frame|] eqn:H; [|vm_compute in H; discriminate H].
  assert (length frame = 41%nat) as Hl by (vm_compute in H; injection H as <-; reflexivity).
  split; [exact Hl|].
  apply (truncated_refused 6 _ _ _ frame 40 H); [unfold fits32, blen; rewrite Hl|rewrite Hl]; lia.
Defined.

(** ** Channels as FIFOs of frames *)

(** What a transport promises its users: [rep c q] says that the frames [q], in
    this order, are still to be received. *)
Class FrameChannel {C : Type} (send : C -> bytes -> result exn C) (recv : C -> option bytes * C) := {
  rep : C -> list bytes -> Prop;
  send_spec : forall c q f, rep c q -> fits32 (blen f) ->
    exists c', send c f = Ok c' /\ rep c' (q ++ [f]);
  recv_some : forall c q f, rep c (f :: q) -> exists c', recv c = (Some f, c') /\ rep c' q;
  recv_none : forall c, rep c [] -> recv c = (None, c) }.

#[export] Instance inproc_channel : FrameChannel inproc_send inproc_recv.
Proof.
  refine {| rep := fun c q => c = q |}.
  - intros c q f -> _. by eexists.
  - intros c q f ->. by eexists.
  - by intros c ->.
Defined.

(** One record of the ring file. *)
Definition ring_record (f : bytes) : bytes := le_pack 4 (blen f) ++ f.

Definition ring_rep (c : file_ring) (q : list bytes) : Prop :=
  Forall (fun f => fits32 (blen f)) q /\
  exists done_, file c = done_ ++ concat (map ring_record q) /\ rpos c = blen done_.

Lemma file_ring_recv_record pre f post :
  fits32 (blen f) ->
  file_ring_recv {| file := pre ++ ring_record f ++ post; rpos := blen pre |} =
  (Some f, {| file := pre ++ ring_record f ++ post; rpos := blen (pre ++ ring_record f) |}).
Proof.
  intros Hf. pose proof (blen_nonneg f). unfold file_ring_recv, f_read, ring_record, fits32 in *. cbn [file rpos].
  rewrite <- !app_assoc. rewrite (slice_exact pre (le_pack 4 (blen f))) by (rewrite ?blen_pack4; lia).
  rewrite blen_pack4. cbn [Z.ltb Z.compare Pos.compare Pos.compare_cont].
  rewrite le_unpack_pack, Z.mod_small by (cbn; lia).
  rewrite (app_assoc pre), (slice_exact (pre ++ le_pack 4 (blen f)) f)
    by (rewrite blen_app, blen_pack4; lia).
  rewrite Z.ltb_irrefl. do 2 f_equal. rewrite !blen_app, blen_pack4. lia.
Qed.

#[export] Instance file_ring_channel : FrameChannel file_ring_send file_ring_recv.
Proof.
  refine {| rep := ring_rep |}.
  - intros [fl rp] q f (Hq & d & Hf & Hr) Hn. cbn [file rpos] in *. subst fl rp.
    unfold file_ring_send, pack_I. cbn [file rpos]. pose proof (blen_nonneg f). unfold fits32 in Hn.
    replace ((0 <=? blen f) && (blen f <? 4294967296))%bool with true
      by (symmetry; apply andb_true_iff; rewrite Z.leb_le, Z.ltb_lt; lia).
    eexists. split; [reflexivity|]. split; [by apply Forall_app; split; [|constructor]|].
    exists d. split; [|done]. cbn [file]. rewrite map_app, concat_app. cbn [map concat].
    by rewrite app_nil_r, <- app_assoc.
  - intros [fl rp] q f (Hq & d & Hf & Hr). cbn [file rpos map concat] in *. subst fl rp.
    inversion Hq as [|? ? H1 H2]; subst.
    rewrite file_ring_recv_record by done. eexists. split; [reflexivity|].
    split; [done|]. exists (d ++ ring_record f). cbn [file rpos]. by rewrite <- app_assoc.
  - intros [fl rp] (_ & d & Hf & Hr). cbn [file rpos map concat] in *. subst fl rp.
    unfold file_ring_recv, f_read. cbn [file rpos]. rewrite slice_app_r by lia.
    unfold slice. by rewrite drop_nil, take_nil.
Defined.

Section Delivery.
Context {C : Type} {send : C -> bytes -> result exn C} {recv : C -> option bytes * C}.
Context `{!FrameChannel send recv}.

(** A producer building and sending messages, a consumer receiving [n] frames. *)
Fixpoint send_bodies (c : C) (bs : list body) (d v : Z) : result exn C :=
  match bs with
  | [] => Ok c
  | b :: t => frame ← build_body b d v; c' ← send c frame; send_bodies c' t d v
  end.

Fixpoint recv_frames (n : nat) (c : C) : list (option bytes) * C :=
  match n with
  | O => ([], c)
  | S n' => let '(x, c1) := recv c in let '(xs, c2) := recv_frames n' c1 in (x :: xs, c2)
  end.

(** A body that can be sent: in range, with a frame below 4 GiB. *)
Definition sendable (d v : Z) (b : body) : Prop :=
  body_ok b /\ forall frame, build_body b d v = Ok frame -> fits32 (blen frame).

Lemma send_bodies_spec bs d v : 0 <= d < 2 -> u32_ok v -> Forall (sendable d v) bs ->
  forall c q, rep c q -> exists c' frames, send_bodies c bs d v = Ok c' /\ rep c' (q ++ frames) /\
    Forall2 (fun f b => parse f = Ok {| ver := v; dir := d; msg_body := Some b |}) frames bs.
Proof.
  intros Hd Hv. induction 1 as [|b t [Hb Hsz] _ IH]; intros c q Hc; cbn [send_bodies].
  - exists c, []. rewrite app_nil_r. by repeat split.
  - destruct (body_codec b Hb) as (dict & enc & dec & Hcd & Hcod & Hbuild).
    destruct (body_tag_u8 b) as [Ht Ht0].
    destruct (envelope_roundtrip _ d dict v enc dec b Hcd Hcod Hd Hv Ht Ht0) as (f & Hf & Hp).
    rewrite <- Hbuild in Hf. specialize (Hsz f Hf).
    destruct (send_spec c q f Hc Hsz) as (c1 & Hs & Hc1).
    destruct (IH c1 _ Hc1) as (c2 & fs & H2 & Hr2 & Hall).
    exists c2, (f :: fs). rewrite <- app_assoc in Hr2.
    rewrite Hf; cbn [mbind result_bind]; rewrite Hs; cbn [mbind result_bind].
    repeat split; [done | done |]. constructor; [by apply Hp | done].
Qed.

Lemma recv_frames_spec fs : forall c, rep c fs ->
  exists c', recv_frames (length fs) c = (map Some fs, c') /\ rep c' [].
Proof.
  induction fs as [|f t IH]; intros c Hc; cbn [length recv_frames map]; [by eexists|].
  destruct (recv_some c t f Hc) as (c1 & Hr & Hc1). rewrite Hr.
  destruct (IH c1 Hc1) as (c2 & H2 & Hc2). rewrite H2. by eexists.
Qed.

(**  Over any transport that keeps the FIFO promise, messages arrive in
    order and intact: after sending [bs] on an empty channel the receiver gets
    one frame per message, each parses to the message sent, and the channel is
    then empty. *)
Theorem channel_delivers c bs d v :
  rep c [] -> 0 <= d < 2 -> u32_ok v -> Forall (sendable d v) bs ->
  exists c1 frames c2, send_bodies c bs d v = Ok c1 /\
    recv_frames (length bs) c1 = (map Some frames, c2) /\
    Forall2 (fun f b => parse f = Ok {| ver := v; dir := d; msg_body := Some b |}) frames bs /\
    recv c2 = (None, c2).
Proof.
  intros Hc Hd Hv Hbs.
  destruct (send_bodies_spec bs d v Hd Hv Hbs c [] Hc) as (c1 & frames & H1 & Hr1 & Hall).
  destruct (recv_frames_spec frames c1 Hr1) as (c2 & H2 & Hc2).
  rewrite (Forall2_length _ _ _ Hall) in H2.
  exists c1, frames, c2. split_and!; [done..|]. by apply recv_none.
Qed.
End Delivery.

Definition empty_ring : file_ring := {| file := []; rpos := 0 |}.

Lemma sample_sendable : sendable 1 1 sample_flow.
Proof.
  split.
  - cbn; unfold u32_ok, verdict_ok, u64_ok, flow_key_ok, u8_ok, u16_ok, u32_ok; cbn; lia.
  - intros frame H. vm_compute in H. injection H as <-. vm_compute. reflexivity.
Qed.

Lemma channel_delivers_witness :
  exists c1 frames c2, send_bodies (send := file_ring_send) empty_ring [sample_flow] 1 1 = Ok c1 /\
    recv_frames (recv := file_ring_recv) 1 c1 = (map Some frames, c2) /\
    Forall2 (fun f b => parse f = Ok {| ver := 1; dir := 1; msg_body := Some b |}) frames [sample_flow] /\
    file_ring_recv c2 = (None, c2).
Proof.
  apply (channel_delivers (send := file_ring_send) (recv := file_ring_recv) empty_ring [sample_flow] 1 1).
  - split; [constructor|]. exists []. split; reflexivity.
  - lia.
  - unfold u32_ok; lia.
  - constructor; [apply sample_sendable | constructor].
Defined.

Lemma ring_record_min f : (4 <= length (ring_record f))%nat.
Proof. unfold ring_record. autorewrite with ffn_len. lia. Qed.

Lemma concat_records_length q : (length q <= length (concat (map ring_record q)))%nat.
Proof.
  induction q as [|f t IH]; cbn [map concat length]; [lia|].
  rewrite length_app. pose proof (ring_record_min f). lia.
Qed.

Lemma drain_loop_spec q : forall fuel c, ring_rep c q -> (length q < fuel)%nat ->
  exists c', file_ring_drain_loop fuel c = Some (q, c') /\ ring_rep c' [].
Proof.
  induction q as [|f t IH]; intros fuel c Hc Hf; (destruct fuel as [|fuel]; [lia|]); cbn [file_ring_drain_loop].
  - pose proof (@recv_none _ _ _ file_ring_channel c Hc) as H. rewrite H. by eexists.
  - destruct (@recv_some _ _ _ file_ring_channel c t f Hc) as (c1 & Hr & Hc1). rewrite Hr.
    destruct (IH fuel c1 Hc1 ltac:(cbn in Hf; lia)) as (c2 & H2 & Hc2). rewrite H2. by eexists.
Qed.

(**  [drain] on a ring file always returns, with exactly the unread frames
    in the order they were sent, and leaves none behind. *)
Theorem file_ring_drain_all c q :
  ring_rep c q -> exists c', file_ring_drain c = Some (q, c') /\ ring_rep c' [].
Proof.
  intros Hc. apply drain_loop_spec; [done|]. destruct Hc as (_ & d & -> & _).
  rewrite length_app. pose proof (concat_records_length q). lia.
Qed.

Lemma file_ring_drain_all_witness :
  exists c', file_ring_drain {| file := ring_record [1;2] ++ ring_record [] ++ ring_record [7]; rpos := 6 |}
    = Some ([[]; [7]], c') /\ ring_rep c' [].
Proof.
  apply (file_ring_drain_all _ [[]; [7]]). split.
  - repeat constructor.
  - exists (ring_record [1;2]). split; reflexivity.
Defined.

(** A record whose write has not finished is not delivered and not skipped: the
    cursor stays, so the record is received whole once the write completes. *)
Lemma file_ring_partial d f n :
  fits32 (blen f) -> (n < length (ring_record f))%nat ->
  file_ring_recv {| file := d ++ take n (ring_record f); rpos := blen d |} =
  (None, {| file := d ++ take n (ring_record f); rpos := blen d |}).
Proof.
  intros Hf Hn. pose proof (blen_nonneg f). unfold file_ring_recv, f_read. cbn [file rpos].
  rewrite slice_app_r by lia.
  replace (blen d - blen d) with 0 by lia. replace (blen d + 4 - blen d) with 4 by lia.
  destruct (blen (slice 0 4 (take n (ring_record f))) <? 4) eqn:E; [done|].
  assert (4 <= n)%nat as H4.
  { zb. unfold slice, blen in E. rewrite length_take, length_drop, length_take in E. lia. }
  assert (slice 0 4 (take n (ring_record f)) = le_pack 4 (blen f)) as ->.
  { unfold slice. change (Z.to_nat 0) with O. rewrite drop_0, take_take. unfold ring_record.
    apply take_app_exact. rewrite length_le_pack. lia. }
  rewrite le_unpack_pack. change (256 ^ Z.of_nat 4) with 4294967296.
  unfold fits32 in Hf. rewrite Z.mod_small by lia.
  rewrite slice_app_r by lia.
  destruct (blen (slice (blen d + 4 - blen d) (blen d + 4 + blen f - blen d) (take n (ring_record f))) <? blen f) eqn:E2; [done|].
  exfalso. zb. unfold slice in E2. unfold blen at 2 in E2.
  rewrite length_take, length_drop, length_take in E2.
  unfold ring_record in Hn, E2. autorewrite with ffn_len in Hn, E2. unfold blen in E2. lia.
Qed.
