(* ===== verification/DpRing.v ===== *)
(** * The dataplane control ring (opt/ffn_dpring.py, dataplanes/ffn_dp_abi.h)

    The shared region between the management plane and a dataplane: the header
    and its handshake, the command and event rings, the port table, and the
    commands the management plane sends.  The management-plane side is
    opt/ffn_dpring.py; the dataplane side of the rings is the C ABI header.  The
    region is a byte list; every access is an explicit read or write of it.

    Main results: the Python and C implementations of the ring agree, and a ring
    is a bounded FIFO, also when its 32-bit counters wrap around.  Here an
    operation is one function of the region; RingSteps takes it apart into its
    single accesses and lets the two sides interleave. *)

From S2P Require Import Prelude PyStr.

(** ** Layout *)

Definition ABI_MAGIC : bytes := lit "FFNDP" ++ [0].
Definition ABI_VER : Z := 2.
Definition OFF_HDR : Z := 0.
Definition OFF_CMD_RING : Z := 64.
Definition OFF_EVT_RING : Z := 4160.
Definition OFF_STATS : Z := 8256.
Definition OFF_PORTS : Z := 12288.
Definition OFF_BANK0 : Z := 16384.
Definition RING_DESCS : Z := 64.
Definition DESC_SIZE : Z := 32.
Definition RING_HDR_SZ : Z := 16.
Definition PORT_ENTRY_SZ : Z := 64.
Definition MAX_PORTS : Z := 32.
Definition CAP_PORT_CTL : Z := 1.
Definition F_HAS_LMAC : Z := 1.
Definition F_MGMT : Z := 2.
Definition F_VALID : Z := 128.

Definition CMD_PING : Z := 1.
Definition CMD_PORT_ENUM : Z := 7.
Definition CMD_PORT_CONFIG : Z := 8.
Definition CMD_PORT_ADMIN : Z := 9.
Definition EVT_PONG : Z := 1.

Definition name_table := list (Z * pystr).
Definition EVT_NAME : name_table :=
  [(1, lit "PONG"); (2, lit "READY"); (3, lit "STATS"); (4, lit "ERROR"); (5, lit "FLOW_DROP");
   (6, lit "PORT_INFO"); (7, lit "PORT_LINK"); (8, lit "PORT_STATS")].
Definition PORT_TYPE : name_table :=
  [(0, lit "none"); (1, lit "RJ45"); (2, lit "SFP"); (3, lit "SFP+"); (4, lit "QSFP+"); (5, lit "QSFP28");
   (6, lit "XFP"); (7, lit "HA"); (8, lit "internal"); (9, lit "uplink"); (10, lit "ghost")].
Definition PORT_STATE : name_table := [(0, lit "reset"); (1, lit "powerdown"); (2, lit "startup"); (3, lit "run")].
Definition PORT_NEG : name_table := [(0, lit "autoneg"); (1, lit "forced")].
Definition PORT_MEDIA : name_table :=
  [(0, lit "unknown"); (1, lit "absent"); (2, lit "present"); (3, lit "nopop"); (4, lit "invalid")].
Definition LMAC_TYPE : name_table :=
  [(0, lit "SGMII"); (1, lit "XAUI"); (2, lit "RXAUI"); (3, lit "10G-R"); (4, lit "40G-R"); (5, lit "QSGMII");
   (6, lit "RGMII"); (7, lit "reserved")].
Definition PORT_ROLE : name_table :=
  [(0, lit "data"); (1, lit "HA"); (2, lit "HSCI"); (3, lit "mgmt"); (4, lit "internal"); (5, lit "AE");
   (6, lit "loopback")].
Definition BRIDGEABLE_ROLES : list Z := [0; 5].
Definition DEFAULT_LMAC_TYPE : list (Z * Z) :=
  [(1, 0); (2, 0); (3, 3); (4, 4); (5, 4); (6, 3); (7, 0); (8, 3)].

(** [d.get(k, "?")]. *)
Definition tget (t : name_table) (k : Z) : pystr :=
  match find (fun p => p.1 =? k) t with Some (_, n) => n | None => lit "?" end.

(** [str.lower], as far as a comparison with ASCII text can see it: besides the
    ASCII letters only the Kelvin sign lower-cases to ASCII. *)
Definition lower1 (c : Z) : Z :=
  if between 65 c 90 then c + 32 else if c =? 8490 then 107 else c.
Definition lower (s : pystr) : pystr := map lower1 s.

(** [{v.lower(): k for k, v in t.items()}.get(s)]. *)
Definition id_of (t : name_table) (s : pystr) : option Z :=
  fst <$> find (fun p => bool_decide (lower p.2 = s)) t.

(** A name or a number, as [role] and [port_type] accept. *)
Inductive id_arg := IdStr (s : pystr) | IdInt (v : Z).

Definition role_bridgeable (role : id_arg) : bool :=
  let role := match role with IdStr s => default (-1) (id_of PORT_ROLE (lower s)) | IdInt v => v end in
  existsb (Z.eqb role) BRIDGEABLE_ROLES.

(** ** Exceptions *)

Inductive dp_exn : Type :=
| BadMagic (m : bytes)
| BadVersion (v : Z)
| NoPortCtl (caps : Z)
| UnknownPortType (s : pystr)
| BadNeg (s : pystr)
| UnknownRole (s : pystr)
| RingFull
| StructError
| IndexError.

(** ** The shared region *)

Definition mem := bytes.

Definition write_at (o : Z) (bs : bytes) (mm : mem) : mem :=
  take (Z.to_nat o) mm ++ bs ++ drop (Z.to_nat o + length bs) mm.

(** [struct.unpack_from] of one unsigned little-endian field. *)
Definition unpack_from (n : nat) (b : bytes) (o : Z) : result dp_exn Z :=
  if o + Z.of_nat n <=? blen b then Ok (le_unpack (slice o (o + Z.of_nat n) b)) else Err StructError.

(** [struct.pack_into] of already encoded fields. *)
Definition pack_into (mm : mem) (o : Z) (bs : bytes) : result dp_exn mem :=
  if o + blen bs <=? blen mm then Ok (write_at o bs mm) else Err StructError.

(** [b[i]]. *)
Definition index (b : bytes) (i : nat) : result dp_exn Z :=
  match b !! i with Some v => Ok v | None => Err IndexError end.

(** ** Words of a port command *)

Definition _pack_cfg (port_type lmac_type lane neg phy flags role : Z) : Z :=
  Z.lor (Z.lor (Z.lor (Z.lor (Z.lor (Z.lor
    (Z.land port_type 255) (Z.shiftl (Z.land lmac_type 7) 8))
    (Z.shiftl (Z.land lane 255) 16)) (Z.shiftl (Z.land neg 255) 24))
    (Z.shiftl (Z.land phy 255) 32)) (Z.shiftl (Z.land flags 255) 40))
    (Z.shiftl (Z.land role 255) 48).

Definition _pack_a2 (speed mtu : Z) : Z :=
  Z.lor (Z.land speed 4294967295) (Z.shiftl (Z.land mtu 65535) 32).

Record state_word := {
  w_port_type : pystr; w_state : pystr; w_neg : pystr; w_media : pystr;
  w_admin_up : bool; w_link_up : bool; w_flags : Z; w_role : pystr }.

Definition _unpack_state (w : Z) : state_word :=
  {| w_port_type := tget PORT_TYPE (Z.land w 255);
     w_state := tget PORT_STATE (Z.land (Z.shiftr w 8) 255);
     w_neg := tget PORT_NEG (Z.land (Z.shiftr w 16) 255);
     w_media := tget PORT_MEDIA (Z.land (Z.shiftr w 24) 255);
     w_admin_up := negb (Z.land (Z.shiftr w 32) 1 =? 0);
     w_link_up := negb (Z.land (Z.shiftr w 33) 1 =? 0);
     w_flags := Z.land (Z.shiftr w 40) 255;
     w_role := tget PORT_ROLE (Z.land (Z.shiftr w 48) 255) |}.

(** ** Header *)

Record hdr := {
  magic : bytes; abi_version : Z; dp_state : Z; host_state : Z; dp_heartbeat : Z;
  host_heartbeat : Z; active_bank : Z; default_dec : Z; dp_caps : Z; dp_error : Z }.

Definition header (mm : mem) : result dp_exn hdr :=
  let b := slice OFF_HDR (OFF_HDR + 64) mm in
  v ← unpack_from 2 b 6; ds ← unpack_from 4 b 8; hs ← unpack_from 4 b 12;
  dh ← unpack_from 8 b 16; hh ← unpack_from 8 b 24; ab ← unpack_from 4 b 32;
  dd ← unpack_from 4 b 36; dc ← unpack_from 4 b 40; de ← unpack_from 4 b 44;
  Ok {| magic := slice 0 6 b; abi_version := v; dp_state := ds; host_state := hs; dp_heartbeat := dh;
        host_heartbeat := hh; active_bank := ab; default_dec := dd; dp_caps := dc; dp_error := de |}.

Definition handshake (mm : mem) : result dp_exn hdr :=
  h ← header mm;
  if negb (bool_decide (magic h = ABI_MAGIC)) then Err (BadMagic (magic h))
  else if negb (abi_version h =? ABI_VER) then Err (BadVersion (abi_version h))
  else Ok h.

Definition caps (mm : mem) : result dp_exn Z := h ← header mm; Ok (dp_caps h).

Definition require_port_ctl (mm : mem) : result dp_exn Z :=
  c ← caps mm;
  if Z.land c CAP_PORT_CTL =? 0 then Err (NoPortCtl c) else Ok c.

(** ** Rings, management-plane side *)

Definition _ring_head (mm : mem) (base : Z) : result dp_exn Z := unpack_from 4 mm base.
Definition _ring_tail (mm : mem) (base : Z) : result dp_exn Z := unpack_from 4 mm (base + 4).
Definition _set_head (mm : mem) (base v : Z) : result dp_exn mem :=
  pack_into mm base (le_pack 4 (Z.land v 4294967295)).
Definition _set_tail (mm : mem) (base v : Z) : result dp_exn mem :=
  pack_into mm (base + 4) (le_pack 4 (Z.land v 4294967295)).
Definition _desc (base idx : Z) : Z := base + RING_HDR_SZ + (idx mod RING_DESCS) * DESC_SIZE.

Record desc := { d_op : Z; d_flags : Z; d_seq : Z; d_a0 : Z; d_a1 : Z; d_a2 : Z }.

Definition desc_bytes (d : desc) : bytes :=
  le_pack 2 (d_op d) ++ le_pack 2 (d_flags d) ++ le_pack 4 (d_seq d) ++
  le_pack 8 (d_a0 d) ++ le_pack 8 (d_a1 d) ++ le_pack 8 (d_a2 d).

Definition u64 (v : Z) : bool := (0 <=? v) && (v <? 18446744073709551616).

(** [push]: the boolean is the returned value; a [Q] argument outside 64 bits
    raises before the head moves. *)
Definition push (mm : mem) (opcode a0 a1 a2 flags : Z) : result dp_exn (bool * mem) :=
  let base := OFF_CMD_RING in
  head ← _ring_head mm base;
  tail ← _ring_tail mm base;
  if Z.land (head - tail) 4294967295 >=? RING_DESCS then Ok (false, mm) else
  let o := _desc base head in
  if negb (u64 a0 && u64 a1 && u64 a2) then Err StructError else
  mm ← pack_into mm o (desc_bytes {| d_op := Z.land opcode 65535; d_flags := Z.land flags 65535;
         d_seq := Z.land head 4294967295; d_a0 := a0; d_a1 := a1; d_a2 := a2 |});
  mm ← _set_head mm base (head + 1);
  Ok (true, mm).

(** An event as [pop_event] returns it; ["name"] is [tget EVT_NAME op] where the
    opcode is known and ["op%d"] otherwise. *)
Definition pop_event (mm : mem) : result dp_exn (option desc * mem) :=
  let base := OFF_EVT_RING in
  head ← _ring_head mm base;
  tail ← _ring_tail mm base;
  if head =? tail then Ok (None, mm) else
  let o := _desc base tail in
  op ← unpack_from 2 mm o; flags ← unpack_from 2 mm (o + 2); seq ← unpack_from 4 mm (o + 4);
  a0 ← unpack_from 8 mm (o + 8); a1 ← unpack_from 8 mm (o + 16); a2 ← unpack_from 8 mm (o + 24);
  mm ← _set_tail mm base (tail + 1);
  Ok (Some {| d_op := op; d_flags := flags; d_seq := seq; d_a0 := a0; d_a1 := a1; d_a2 := a2 |}, mm).

(** [drain(limit)]: at most [limit] rounds. *)
Fixpoint drain (limit : nat) (mm : mem) : result dp_exn (list desc * mem) :=
  match limit with
  | O => Ok ([], mm)
  | S n =>
      '(e, mm) ← pop_event mm;
      match e with
      | None => Ok ([], mm)
      | Some e => '(out, mm) ← drain n mm; Ok (e :: out, mm)
      end
  end.

(** [wait_event]: one element of [env] per round the clock allows before the
    deadline; each is what the other side does to the region before that round
    polls it. *)
Fixpoint wait_event (op : Z) (env : list (mem -> mem)) (mm : mem)
  : result dp_exn (option desc * list desc * mem) :=
  match env with
  | [] => Ok (None, [], mm)
  | step :: env =>
      '(e, mm) ← pop_event (step mm);
      match e with
      | None => wait_event op env mm
      | Some e =>
          if d_op e =? op then Ok (Some e, [], mm) else
          '(r, others, mm) ← wait_event op env mm; Ok (r, e :: others, mm)
      end
  end.

(** ** Port table *)

Definition port_raw (mm : mem) (i : Z) : bytes :=
  let o := OFF_PORTS + (i mod MAX_PORTS) * PORT_ENTRY_SZ in slice o (o + PORT_ENTRY_SZ) mm.

(** [b.split(b"\0")[0]] and [.decode("ascii", "replace")]. *)
Fixpoint until_nul (b : bytes) : bytes :=
  match b with [] => [] | c :: t => if c =? 0 then [] else c :: until_nul t end.
Definition ascii_replace (b : bytes) : pystr := map (fun c => if c <? 128 then c else 65533) b.

Record port_row := {
  lport : Z; pport : Z; bgx : Z; lmac : Z; port_type : pystr; lmac_type : pystr; lane_to_sds : Z;
  state : pystr; neg : pystr; media : pystr; admin_up : bool; link_up : bool; phy_addr : Z;
  flags : Z; has_lmac : bool; mgmt : bool; speed_mbps : Z; mtu : Z; pname : pystr;
  rx_pkts : Z; tx_pkts : Z; role : pystr; bridgeable : bool }.

Definition port (mm : mem) (i : Z) : result dp_exn (option port_row) :=
  let b := port_raw mm i in
  fl ← index b 15;
  if Z.land fl F_VALID =? 0 then Ok None else
  let name := ascii_replace (until_nul (slice 24 40 b)) in
  lp ← unpack_from 2 b 0; pp ← unpack_from 2 b 2;
  b4 ← index b 4; b5 ← index b 5; b6 ← index b 6; b7 ← index b 7; b8 ← index b 8; b9 ← index b 9;
  b10 ← index b 10; b11 ← index b 11; b12 ← index b 12; b13 ← index b 13; b14 ← index b 14;
  sp ← unpack_from 4 b 16; mt ← unpack_from 4 b 20; rx ← unpack_from 8 b 40; tx ← unpack_from 8 b 48;
  b56 ← index b 56;
  Ok (Some {| lport := lp; pport := pp; bgx := b4; lmac := b5; port_type := tget PORT_TYPE b6;
    lmac_type := tget LMAC_TYPE b7; lane_to_sds := b8; state := tget PORT_STATE b9; neg := tget PORT_NEG b10;
    media := tget PORT_MEDIA b11; admin_up := negb (b12 =? 0); link_up := negb (b13 =? 0); phy_addr := b14;
    flags := fl; has_lmac := negb (Z.land fl F_HAS_LMAC =? 0); mgmt := negb (Z.land fl F_MGMT =? 0);
    speed_mbps := sp; mtu := mt; pname := name; rx_pkts := rx; tx_pkts := tx;
    role := tget PORT_ROLE b56; bridgeable := role_bridgeable (IdInt b56) |}).

Definition ports (mm : mem) : result dp_exn (list port_row) :=
  (fun rows : list (option port_row) => omap id rows) <$> mapM_res (port mm) (seqZ 0 MAX_PORTS).

(** ** Commands *)

Definition ping (mm : mem) (token : Z) (env : list (mem -> mem)) : result dp_exn (bool * mem) :=
  '(_, mm) ← push mm CMD_PING token 0 0 0;
  '(e, _, mm) ← wait_event EVT_PONG env mm;
  Ok (match e with Some e => d_a0 e =? token | None => false end, mm).

Definition port_config (mm : mem) (lport : Z) (port_type : id_arg) (lmac_type : option Z) (lane : Z)
  (neg : pystr) (phy speed mtu : Z) (has_lmac mgmt : bool) (role : id_arg) : result dp_exn (bool * mem) :=
  _ ← require_port_ctl mm;
  port_type ← match port_type with
              | IdStr s => match id_of PORT_TYPE (lower s) with
                           | Some t => Ok t
                           | None => Err (UnknownPortType s)
                           end
              | IdInt v => Ok v
              end;
  let lmac_type := match lmac_type with
                   | Some v => v
                   | None => match find (fun p => p.1 =? port_type) DEFAULT_LMAC_TYPE with
                             | Some (_, v) => v
                             | None => 0
                             end
                   end in
  neg_id ← (if bool_decide (neg = lit "autoneg") then Ok 0
            else if bool_decide (neg = lit "forced") then Ok 1 else Err (BadNeg neg));
  let flags := Z.lor (if has_lmac then F_HAS_LMAC else 0) (if mgmt then F_MGMT else 0) in
  rid ← match role with
        | IdStr s => match id_of PORT_ROLE (lower s) with
                     | Some r => Ok r
                     | None => Err (UnknownRole s)
                     end
        | IdInt v => Ok v
        end;
  let cfg := _pack_cfg port_type lmac_type lane neg_id phy flags rid in
  '(pushed, mm) ← push mm CMD_PORT_CONFIG lport cfg (_pack_a2 speed mtu) 0;
  if pushed : bool then Ok (true, mm) else Err RingFull.

Definition port_admin (mm : mem) (lport : Z) (up : bool) : result dp_exn (bool * mem) :=
  _ ← require_port_ctl mm;
  '(pushed, mm) ← push mm CMD_PORT_ADMIN lport (if up then 1 else 0) 0 0;
  if pushed : bool then Ok (true, mm) else Err RingFull.

Definition port_enum (mm : mem) : result dp_exn (bool * mem) :=
  _ ← require_port_ctl mm;
  '(_, mm) ← push mm CMD_PORT_ENUM 0 0 0 0;
  Ok (true, mm).

(** ** Dataplane side (dataplanes/ffn_dp_abi.h) *)

Definition ld_le (n : nat) (mm : mem) (o : Z) : Z := le_unpack (slice o (o + Z.of_nat n) mm).

Definition ffn_dp_ring_push (ring opcode a0 a1 a2 : Z) (mm : mem) : bool * mem :=
  let head := ld_le 4 mm ring in
  let tail := ld_le 4 mm (ring + 4) in
  if (head - tail) mod 4294967296 >=? 64 then (false, mm) else
  let mm := write_at (_desc ring head)
    (desc_bytes {| d_op := opcode; d_flags := 0; d_seq := head; d_a0 := a0; d_a1 := a1; d_a2 := a2 |}) mm in
  (true, write_at ring (le_pack 4 ((head + 1) mod 4294967296)) mm).

Definition desc_at (mm : mem) (o : Z) : desc :=
  {| d_op := ld_le 2 mm o; d_flags := ld_le 2 mm (o + 2); d_seq := ld_le 4 mm (o + 4);
     d_a0 := ld_le 8 mm (o + 8); d_a1 := ld_le 8 mm (o + 16); d_a2 := ld_le 8 mm (o + 24) |}.

(** The C function returns the opcode and arguments; flags and sequence number
    of the descriptor are left in the region. *)
Definition ffn_dp_ring_pop (ring : Z) (mm : mem) : option desc * mem :=
  let head := ld_le 4 mm ring in
  let tail := ld_le 4 mm (ring + 4) in
  if head =? tail then (None, mm) else
  (Some (desc_at mm (_desc ring tail)), write_at (ring + 4) (le_pack 4 ((tail + 1) mod 4294967296)) mm).

Definition ffn_dp_hdr_init (dp_state : Z) (mm : mem) : mem :=
  write_at 0 (lit "FFNDP" ++ [0] ++ le_pack 2 1 ++ le_pack 4 dp_state ++ zeros 52) mm.

(** ** Reads and writes of the region *)

Lemma blen_write o bs mm : 0 <= o -> o + blen bs <= blen mm -> blen (write_at o bs mm) = blen mm.
Proof. intros Ho Hb. unfold write_at, blen in *. autorewrite with ffn_len. lia. Qed.

Lemma slice_write_same o bs mm :
  0 <= o -> o + blen bs <= blen mm -> slice o (o + blen bs) (write_at o bs mm) = bs.
Proof.
  intros Ho Hb. unfold slice, write_at, blen in *.
  rewrite drop_app_exact by (rewrite length_take; lia).
  apply take_app_exact. lia.
Qed.

Lemma slice_write_other i j o bs mm :
  0 <= i -> 0 <= o -> o + blen bs <= blen mm -> j <= o \/ o + blen bs <= i ->
  slice i j (write_at o bs mm) = slice i j mm.
Proof.
  intros Hi Ho Hb Hd. unfold write_at. pose proof (blen_nonneg bs).
  assert (blen (take (Z.to_nat o) mm) = o) as Hl.
  { unfold blen in *. rewrite length_take. lia. }
  destruct (decide (j <= i)).
  { unfold slice. by replace (Z.to_nat (j - i)) with O by lia. }
  destruct Hd as [Hd|Hd].
  - rewrite slice_app_l by lia. rewrite <- (take_drop (Z.to_nat o) mm) at 2. by rewrite slice_app_l by lia.
  - rewrite slice_app_r by lia. rewrite slice_app_r by lia. rewrite Hl.
    unfold slice, blen in *. rewrite drop_drop. f_equal; [lia|]. f_equal. lia.
Qed.

Lemma ld_write_same n v o mm :
  0 <= o -> o + Z.of_nat n <= blen mm -> ld_le n (write_at o (le_pack n v) mm) o = v mod 256 ^ Z.of_nat n.
Proof.
  intros Ho Hb. unfold ld_le.
  pose proof (slice_write_same o (le_pack n v) mm) as H. unfold blen at 1 3 in H.
  rewrite length_le_pack in H. rewrite H by done. apply le_unpack_pack.
Qed.

Lemma ld_write_other n i o bs mm :
  0 <= i -> 0 <= o -> o + blen bs <= blen mm -> i + Z.of_nat n <= o \/ o + blen bs <= i ->
  ld_le n (write_at o bs mm) i = ld_le n mm i.
Proof. intros. unfold ld_le. rewrite slice_write_other; done. Qed.

Lemma ld_le_bound n mm o : bytes_ok mm -> 0 <= ld_le n mm o < 256 ^ Z.of_nat n.
Proof.
  intros H. unfold ld_le. pose proof (le_unpack_bound (slice o (o + Z.of_nat n) mm) (bytes_ok_slice _ _ _ H)) as Hb.
  split; [lia|]. eapply Z.lt_le_trans; [apply Hb|]. apply Z.pow_le_mono_r; [lia|].
  unfold slice. rewrite length_take, length_drop. lia.
Qed.

Lemma bytes_ok_write o bs mm : bytes_ok bs -> bytes_ok mm -> bytes_ok (write_at o bs mm).
Proof.
  intros Hb Hm. unfold write_at. rewrite !bytes_ok_app. split_and!; [|done|].
  - by apply Forall_take.
  - by apply Forall_drop.
Qed.

Lemma length_desc_bytes d : blen (desc_bytes d) = 32.
Proof. unfold desc_bytes, blen. autorewrite with ffn_len. reflexivity. Qed.

Lemma desc_bytes_ok d : bytes_ok (desc_bytes d).
Proof. unfold desc_bytes. rewrite !bytes_ok_app. split_and!; apply le_pack_bytes. Qed.

Lemma ld_in_slice n k w o mm :
  0 <= o -> 0 <= k -> k + Z.of_nat n <= w ->
  ld_le n mm (o + k) = le_unpack (slice k (k + Z.of_nat n) (slice o (o + w) mm)).
Proof.
  intros Ho Hk Hw. unfold ld_le, slice. f_equal.
  rewrite skipn_firstn_comm, firstn_firstn, drop_drop. f_equal; [lia|]. f_equal. lia.
Qed.

(** ** A ring as a bounded queue *)

(** The descriptor range every producer stays in. *)
Definition desc_ok (d : desc) : Prop :=
  0 <= d_op d < 65536 /\ 0 <= d_flags d < 65536 /\ 0 <= d_seq d < 4294967296 /\
  0 <= d_a0 d < 18446744073709551616 /\ 0 <= d_a1 d < 18446744073709551616 /\
  0 <= d_a2 d < 18446744073709551616.

Definition rhead (ring : Z) (mm : mem) : Z := ld_le 4 mm ring.
Definition rtail (ring : Z) (mm : mem) : Z := ld_le 4 mm (ring + 4).
(** The number of descriptors in flight, modulo the counter width. *)
Definition rcount (ring : Z) (mm : mem) : Z := (rhead ring mm - rtail ring mm) mod 4294967296.

Definition ring_size : Z := 2064.

Record ring_wf (ring : Z) (mm : mem) : Prop := {
  wf_bytes : bytes_ok mm;
  wf_base : 0 <= ring;
  wf_fits : ring + ring_size <= blen mm;
  wf_count : rcount ring mm <= 64 }.

(** What the consumer of the ring has still to see, oldest first. *)
Definition contents (ring : Z) (mm : mem) : list desc :=
  map (fun i => desc_at mm (_desc ring (rtail ring mm + i))) (seqZ 0 (rcount ring mm)).

(** Nothing outside the ring changed. *)
Definition only_ring (ring : Z) (mm mm' : mem) : Prop :=
  blen mm' = blen mm /\ forall i j, 0 <= i -> j <= ring \/ ring + ring_size <= i -> slice i j mm' = slice i j mm.

Lemma desc_off_bounds ring idx :
  ring + 16 <= _desc ring idx /\ _desc ring idx + 32 <= ring + ring_size.
Proof.
  unfold _desc, RING_HDR_SZ, RING_DESCS, DESC_SIZE, ring_size.
  pose proof (Z.mod_pos_bound idx 64). lia.
Qed.

Lemma desc_off_disjoint ring i j :
  i mod 64 <> j mod 64 -> _desc ring i + 32 <= _desc ring j \/ _desc ring j + 32 <= _desc ring i.
Proof. unfold _desc, RING_HDR_SZ, RING_DESCS, DESC_SIZE. lia. Qed.

Lemma desc_off_cong ring i j : i mod 64 = j mod 64 -> _desc ring i = _desc ring j.
Proof. unfold _desc, RING_DESCS. by intros ->. Qed.

Lemma desc_at_slice mm mm' o :
  0 <= o -> slice o (o + 32) mm = slice o (o + 32) mm' -> desc_at mm o = desc_at mm' o.
Proof.
  intros Ho H. unfold desc_at. rewrite <- (Z.add_0_r o) at 1 7.
  rewrite !(ld_in_slice _ _ 32) by lia. by rewrite H.
Qed.

Lemma desc_at_written d o mm :
  desc_ok d -> 0 <= o -> o + 32 <= blen mm -> desc_at (write_at o (desc_bytes d) mm) o = d.
Proof.
  intros (H1 & H2 & H3 & H4 & H5 & H6) Ho Hb. unfold desc_at.
  pose proof (slice_write_same o (desc_bytes d) mm) as Hs. rewrite length_desc_bytes in Hs.
  rewrite <- (Z.add_0_r o) at 2. rewrite !(ld_in_slice _ _ 32) by lia. rewrite !Hs by done.
  destruct d as [op fl sq a0 a1 a2]; cbn [d_op d_flags d_seq d_a0 d_a1 d_a2] in *.
  set (d := {| d_op := op |}).
  change (slice 0 (0 + Z.of_nat 2) (desc_bytes d)) with (le_pack 2 op).
  change (slice 2 (2 + Z.of_nat 2) (desc_bytes d)) with (le_pack 2 fl).
  change (slice 4 (4 + Z.of_nat 4) (desc_bytes d)) with (le_pack 4 sq).
  change (slice 8 (8 + Z.of_nat 8) (desc_bytes d)) with (le_pack 8 a0).
  change (slice 16 (16 + Z.of_nat 8) (desc_bytes d)) with (le_pack 8 a1).
  change (slice 24 (24 + Z.of_nat 8) (desc_bytes d)) with (le_pack 8 a2).
  rewrite !le_unpack_pack, !Z.mod_small by done. reflexivity.
Qed.

(** The producer's two writes, without the full check. *)
Definition put (ring : Z) (d : desc) (mm : mem) : mem :=
  write_at ring (le_pack 4 ((rhead ring mm + 1) mod 4294967296))
    (write_at (_desc ring (rhead ring mm)) (desc_bytes d) mm).

Section Put.
Context (ring : Z) (d : desc) (mm : mem) (Hwf : ring_wf ring mm) (Hd : desc_ok d)
        (Hroom : rcount ring mm < 64).

Lemma put_fits : 0 <= _desc ring (rhead ring mm) /\ _desc ring (rhead ring mm) + 32 <= blen mm.
Proof. destruct Hwf. pose proof (desc_off_bounds ring (rhead ring mm)). lia. Qed.

Lemma put_blen : blen (put ring d mm) = blen mm.
Proof.
  destruct Hwf. pose proof put_fits. unfold put, ring_size in *.
  rewrite blen_write, blen_write; rewrite ?length_desc_bytes; try lia.
  rewrite blen_write; rewrite ?length_desc_bytes; try lia.
  unfold blen at 1. rewrite length_le_pack. lia.
Qed.

Lemma put_slice i j :
  0 <= i -> j <= ring \/ ring + 4 <= i ->
  j <= _desc ring (rhead ring mm) \/ _desc ring (rhead ring mm) + 32 <= i ->
  slice i j (put ring d mm) = slice i j mm.
Proof.
  intros Hi H1 H2. destruct Hwf. pose proof put_fits. unfold put, ring_size in *.
  assert (blen (le_pack 4 ((rhead ring mm + 1) mod 4294967296)) = 4) as H4
    by (unfold blen; by rewrite length_le_pack).
  rewrite slice_write_other; rewrite ?H4; try lia.
  - rewrite slice_write_other; rewrite ?length_desc_bytes; lia || done.
  - rewrite blen_write; rewrite ?length_desc_bytes; lia.
Qed.

Lemma put_only : only_ring ring mm (put ring d mm).
Proof.
  split; [apply put_blen|]. intros i j Hi Hd'.
  pose proof (desc_off_bounds ring (rhead ring mm)). unfold ring_size in *. apply put_slice; lia.
Qed.

Lemma put_tail : rtail ring (put ring d mm) = rtail ring mm.
Proof.
  unfold rtail, ld_le. pose proof (desc_off_bounds ring (rhead ring mm)).
  destruct Hwf. rewrite put_slice; [done|lia|lia|lia].
Qed.

Lemma put_head : rhead ring (put ring d mm) = (rhead ring mm + 1) mod 4294967296.
Proof.
  destruct Hwf. pose proof put_fits. unfold put, ring_size in *. unfold rhead at 1.
  rewrite ld_write_same; [|done|rewrite blen_write; rewrite ?length_desc_bytes; lia].
  change (256 ^ Z.of_nat 4) with 4294967296. by rewrite Z.mod_mod by lia.
Qed.

Lemma put_count : rcount ring (put ring d mm) = rcount ring mm + 1.
Proof.
  unfold rcount in *. rewrite put_tail, put_head.
  rewrite Zminus_mod_idemp_l.
  replace (rhead ring mm + 1 - rtail ring mm) with ((rhead ring mm - rtail ring mm) + 1) by lia.
  rewrite <- Zplus_mod_idemp_l. apply Z.mod_small.
  pose proof (Z.mod_pos_bound (rhead ring mm - rtail ring mm) 4294967296). lia.
Qed.

Lemma put_wf : ring_wf ring (put ring d mm).
Proof.
  destruct Hwf. constructor; [| done | by rewrite put_blen | rewrite put_count; lia].
  unfold put. apply bytes_ok_write, bytes_ok_write; [apply le_pack_bytes | apply desc_bytes_ok | done].
Qed.

Lemma put_contents : contents ring (put ring d mm) = contents ring mm ++ [d].
Proof.
  unfold contents. rewrite put_count, put_tail. destruct Hwf.
  pose proof (Z.mod_pos_bound (rhead ring mm - rtail ring mm) 4294967296 ltac:(lia)) as Hc.
  fold (rcount ring mm) in Hc.
  assert (rhead ring mm mod 64 = (rtail ring mm + rcount ring mm) mod 64) as Hm.
  { unfold rcount. rewrite Zplus_mod, (Z.mod_mod_divide _ 4294967296 64), <- Zplus_mod
      by (by exists 67108864). f_equal. lia. }
  rewrite seqZ_app by lia. rewrite map_app. f_equal.
  - apply map_ext_in. intros i Hi. apply list_elem_of_In, elem_of_seqZ in Hi.
    apply desc_at_slice; [pose proof (desc_off_bounds ring (rtail ring mm + i)); lia|].
    assert ((rtail ring mm + i) mod 64 <> rhead ring mm mod 64) as Hne.
    { rewrite Hm. intros E. Z.div_mod_to_equations. lia. }
    pose proof (desc_off_bounds ring (rtail ring mm + i)).
    destruct (desc_off_disjoint ring _ _ Hne); apply put_slice; lia.
  - change (seqZ (0 + rcount ring mm) 1) with [0 + rcount ring mm]. cbn [map]. f_equal.
    rewrite (desc_off_cong ring _ (rhead ring mm)) by (rewrite Hm; f_equal; lia).
    pose proof put_fits. pose proof (desc_off_bounds ring (rhead ring mm)).
    rewrite <- (desc_at_written d (_desc ring (rhead ring mm)) mm Hd) at 2 by lia.
    apply desc_at_slice; [lia|]. unfold put.
    assert (blen (le_pack 4 ((rhead ring mm + 1) mod 4294967296)) = 4) as H4
      by (unfold blen; by rewrite length_le_pack).
    unfold ring_size in *. rewrite slice_write_other; rewrite ?H4; try lia; try done.
    rewrite blen_write; rewrite ?length_desc_bytes; lia.
Qed.
End Put.

(** The consumer's write. *)
Definition drop_one (ring : Z) (mm : mem) : mem :=
  write_at (ring + 4) (le_pack 4 ((rtail ring mm + 1) mod 4294967296)) mm.

Section DropOne.
Context (ring : Z) (mm : mem) (Hwf : ring_wf ring mm) (Hne : rhead ring mm <> rtail ring mm).

Let H4 : blen (le_pack 4 ((rtail ring mm + 1) mod 4294967296)) = 4.
Proof. unfold blen; by rewrite length_le_pack. Qed.

Lemma drop_blen : blen (drop_one ring mm) = blen mm.
Proof. destruct Hwf. unfold drop_one, ring_size in *. apply blen_write; lia. Qed.

Lemma drop_slice i j : 0 <= i -> j <= ring + 4 \/ ring + 8 <= i -> slice i j (drop_one ring mm) = slice i j mm.
Proof. intros Hi Hj. destruct Hwf. unfold drop_one, ring_size in *. apply slice_write_other; lia. Qed.

Lemma drop_only : only_ring ring mm (drop_one ring mm).
Proof. split; [apply drop_blen|]. intros i j Hi Hd. unfold ring_size in *. apply drop_slice; lia. Qed.

Lemma drop_head : rhead ring (drop_one ring mm) = rhead ring mm.
Proof. destruct Hwf. unfold rhead, ld_le. rewrite drop_slice; [done|lia|lia]. Qed.

Lemma drop_tail : rtail ring (drop_one ring mm) = (rtail ring mm + 1) mod 4294967296.
Proof.
  destruct Hwf. unfold drop_one, ring_size in *. unfold rtail at 1.
  rewrite ld_write_same by lia. change (256 ^ Z.of_nat 4) with 4294967296. by rewrite Z.mod_mod by lia.
Qed.

Lemma count_pos : 0 < rcount ring mm.
Proof.
  unfold rcount. destruct Hwf.
  pose proof (ld_le_bound 4 mm ring wf_bytes0) as Hh. pose proof (ld_le_bound 4 mm (ring + 4) wf_bytes0) as Ht.
  fold (rhead ring mm) in Hh. fold (rtail ring mm) in Ht. change (256 ^ Z.of_nat 4) with 4294967296 in *.
  pose proof (Z.mod_pos_bound (rhead ring mm - rtail ring mm) 4294967296 ltac:(lia)).
  destruct (decide ((rhead ring mm - rtail ring mm) mod 4294967296 = 0)) as [E|]; [|lia].
  Z.div_mod_to_equations. lia.
Qed.

Lemma drop_count : rcount ring (drop_one ring mm) = rcount ring mm - 1.
Proof.
  pose proof count_pos as Hp. unfold rcount in *. rewrite drop_tail, drop_head.
  rewrite Zminus_mod_idemp_r.
  replace (rhead ring mm - (rtail ring mm + 1)) with ((rhead ring mm - rtail ring mm) - 1) by lia.
  rewrite <- Zminus_mod_idemp_l. apply Z.mod_small.
  pose proof (Z.mod_pos_bound (rhead ring mm - rtail ring mm) 4294967296). lia.
Qed.

Lemma drop_wf : ring_wf ring (drop_one ring mm).
Proof.
  destruct Hwf. constructor; [| done | by rewrite drop_blen | rewrite drop_count; lia].
  unfold drop_one. apply bytes_ok_write; [apply le_pack_bytes | done].
Qed.

Lemma desc_off_step i :
  _desc ring ((rtail ring mm + 1) mod 4294967296 + i) = _desc ring (rtail ring mm + (1 + i)).
Proof.
  apply desc_off_cong. rewrite Zplus_mod, (Z.mod_mod_divide _ 4294967296 64), <- Zplus_mod
    by (by exists 67108864). f_equal. lia.
Qed.

Lemma drop_contents :
  contents ring mm = desc_at mm (_desc ring (rtail ring mm)) :: contents ring (drop_one ring mm).
Proof.
  pose proof count_pos as Hp. unfold contents. rewrite drop_count, drop_tail.
  rewrite (seqZ_cons 0) by lia. cbn [map]. rewrite Z.add_0_r. f_equal.
  replace (Z.pred (rcount ring mm)) with (rcount ring mm - 1) by lia.
  change (Z.succ 0) with (1 + 0). rewrite <- (fmap_add_seqZ 1 0).
  change (Z.add 1 <$> ?l) with (map (Z.add 1) l). rewrite List.map_map.
  apply map_ext_in. intros i Hi. rewrite desc_off_step.
  pose proof (desc_off_bounds ring (rtail ring mm + (1 + i))). destruct Hwf.
  apply desc_at_slice; [lia|]. symmetry. apply drop_slice; lia.
Qed.
End DropOne.

Lemma contents_empty ring mm : rhead ring mm = rtail ring mm -> contents ring mm = [].
Proof. unfold contents, rcount. intros ->. rewrite Z.sub_diag. reflexivity. Qed.

(** A write confined to one ring leaves the queue of the other as it was. *)
Lemma only_ring_frame r1 r2 mm mm' :
  only_ring r1 mm mm' -> bytes_ok mm' -> r2 + ring_size <= r1 \/ r1 + ring_size <= r2 ->
  ring_wf r2 mm -> ring_wf r2 mm' /\ contents r2 mm' = contents r2 mm.
Proof.
  intros [Hl Hs] Hb Hd [W1 W2 W3 W4].
  assert (forall i j, r2 <= i -> j <= r2 + ring_size -> slice i j mm' = slice i j mm) as Hin.
  { intros i j Hi Hj. apply Hs; lia. }
  assert (rhead r2 mm' = rhead r2 mm) as Hh by (unfold rhead, ld_le; rewrite Hin; unfold ring_size; lia || done).
  assert (rtail r2 mm' = rtail r2 mm) as Ht by (unfold rtail, ld_le; rewrite Hin; unfold ring_size; lia || done).
  assert (rcount r2 mm' = rcount r2 mm) as Hc by (unfold rcount; by rewrite Hh, Ht).
  split; [constructor; [done | done | lia | lia]|].
  unfold contents. rewrite Hc, Ht. apply map_ext. intros i.
  pose proof (desc_off_bounds r2 (rtail r2 mm + i)). apply desc_at_slice; [lia|]. apply Hin; lia.
Qed.

(** ** The two implementations agree *)

Lemma unpack_from_ok n mm o : o + Z.of_nat n <= blen mm -> unpack_from n mm o = Ok (ld_le n mm o).
Proof. intros H. unfold unpack_from. destruct (_ <=? _) eqn:E; [done | bool_lia]. Qed.

Lemma pack_into_ok mm o bs : o + blen bs <= blen mm -> pack_into mm o bs = Ok (write_at o bs mm).
Proof. intros H. unfold pack_into. destruct (_ <=? _) eqn:E; [done | bool_lia]. Qed.

Lemma push_eq mm opcode a0 a1 a2 fl :
  ring_wf OFF_CMD_RING mm -> u64 a0 && u64 a1 && u64 a2 = true ->
  push mm opcode a0 a1 a2 fl =
    if rcount OFF_CMD_RING mm >=? 64 then Ok (false, mm)
    else Ok (true, put OFF_CMD_RING {| d_op := opcode mod 65536; d_flags := fl mod 65536;
               d_seq := rhead OFF_CMD_RING mm; d_a0 := a0; d_a1 := a1; d_a2 := a2 |} mm).
Proof.
  intros Hwf Hu. pose proof Hwf as [W1 W2 W3 W4].
  pose proof (ld_le_bound 4 mm OFF_CMD_RING W1) as Hh. fold (rhead OFF_CMD_RING mm) in Hh.
  change (256 ^ Z.of_nat 4) with 4294967296 in Hh.
  pose proof (desc_off_bounds OFF_CMD_RING (rhead OFF_CMD_RING mm)) as Hb.
  unfold push, _ring_head, _ring_tail, ring_size in *.
  rewrite !unpack_from_ok by lia. fold (rhead OFF_CMD_RING mm) (rtail OFF_CMD_RING mm).
  cbn [mbind result_bind]. rewrite land_ffffffff. fold (rcount OFF_CMD_RING mm). unfold RING_DESCS.
  destruct (rcount OFF_CMD_RING mm >=? 64); [done|]. rewrite Hu. cbn [negb].
  rewrite pack_into_ok by (rewrite length_desc_bytes; lia). cbn [mbind result_bind].
  unfold _set_head. rewrite pack_into_ok
    by (rewrite blen_write; rewrite ?blen_pack4, ?length_desc_bytes; lia).
  rewrite !land_ffff, !land_ffffffff, (Z.mod_small (rhead OFF_CMD_RING mm)) by lia. reflexivity.
Qed.

(**  The management plane's [push] and the dataplane's [ffn_dp_ring_push]
    are the same function of the region: same full test, same descriptor bytes,
    same new head, for every opcode and every in-range argument. *)
Theorem push_equiv mm opcode a0 a1 a2 :
  ring_wf OFF_CMD_RING mm -> 0 <= opcode < 65536 -> u64 a0 && u64 a1 && u64 a2 = true ->
  push mm opcode a0 a1 a2 0 = Ok (ffn_dp_ring_push OFF_CMD_RING opcode a0 a1 a2 mm).
Proof.
  intros Hwf Ho Hu. rewrite push_eq by done. unfold ffn_dp_ring_push.
  fold (rhead OFF_CMD_RING mm) (rtail OFF_CMD_RING mm) (rcount OFF_CMD_RING mm).
  destruct (rcount OFF_CMD_RING mm >=? 64); [done|].
  rewrite (Z.mod_small opcode) by done. reflexivity.
Qed.

(** A region of [n] zero bytes with the two ring counters set. *)
Definition sample_len : nat := Z.to_nat 17000.
Definition sample_region (h t : Z) : mem :=
  write_at OFF_CMD_RING (le_pack 4 h ++ le_pack 4 t) (zeros sample_len).

Lemma sample_wf h t :
  0 <= (h - t) mod 4294967296 <= 64 -> 0 <= h < 4294967296 -> 0 <= t < 4294967296 ->
  ring_wf OFF_CMD_RING (sample_region h t).
Proof.
  intros H Hh Ht. assert (blen (zeros sample_len) = 17000) as Hz
    by (unfold zeros, blen, sample_len; rewrite length_replicate; lia).
  assert (blen (le_pack 4 h ++ le_pack 4 t) = 8) as H8 by (by rewrite blen_app, !blen_pack4).
  unfold sample_region, OFF_CMD_RING. constructor; [| lia | |].
  - apply bytes_ok_write; [|apply bytes_ok_zeros]. rewrite bytes_ok_app; split; apply le_pack_bytes.
  - rewrite blen_write; unfold ring_size; lia.
  - unfold rcount, rhead, rtail.
    pose proof (slice_write_same 64 (le_pack 4 h ++ le_pack 4 t) (zeros sample_len) ltac:(lia) ltac:(lia)) as Hs.
    rewrite H8 in Hs. set (M := write_at _ _ _) in *.
    replace (ld_le 4 M 64) with (ld_le 4 M (64 + 0)) by (f_equal; lia).
    rewrite !(ld_in_slice _ _ 8) by lia. rewrite Hs.
    change (slice 0 (0 + Z.of_nat 4) (le_pack 4 h ++ le_pack 4 t)) with (le_pack 4 h).
    change (slice 4 (4 + Z.of_nat 4) (le_pack 4 h ++ le_pack 4 t)) with (le_pack 4 t).
    rewrite !le_unpack_pack. change (256 ^ Z.of_nat 4) with 4294967296.
    rewrite (Z.mod_small h), (Z.mod_small t) by lia. lia.
Qed.

Lemma wrapped_wf : ring_wf OFF_CMD_RING (sample_region 4294967295 4294967290).
Proof. apply sample_wf; [split; discriminate | lia | lia]. Qed.

Lemma push_equiv_witness :
  push (sample_region 4294967295 4294967290) 8 3 73588229205 1719109785 0 =
  Ok (ffn_dp_ring_push OFF_CMD_RING 8 3 73588229205 1719109785 (sample_region 4294967295 4294967290)).
Proof. apply (push_equiv _ 8); [apply wrapped_wf | lia | reflexivity]. Defined.

Lemma pop_event_eq mm :
  ring_wf OFF_EVT_RING mm -> pop_event mm = Ok (ffn_dp_ring_pop OFF_EVT_RING mm).
Proof.
  intros [W1 W2 W3 W4].
  pose proof (desc_off_bounds OFF_EVT_RING (rtail OFF_EVT_RING mm)) as Hb.
  unfold pop_event, ffn_dp_ring_pop, _ring_head, _ring_tail, _set_tail, ring_size in *.
  rewrite !unpack_from_ok by lia. cbn [mbind result_bind].
  fold (rhead OFF_EVT_RING mm) (rtail OFF_EVT_RING mm).
  destruct (rhead OFF_EVT_RING mm =? rtail OFF_EVT_RING mm); [done|].
  rewrite !unpack_from_ok by lia. cbn [mbind result_bind].
  rewrite pack_into_ok by (rewrite blen_pack4; lia). cbn [mbind result_bind].
  by rewrite land_ffffffff.
Qed.

(** ** The ring operations on the abstract queue *)

(**  [push] on the abstract queue: a full ring (64 descriptors) answers
    [False] and changes nothing; otherwise the command is appended at the end
    with the head counter as its sequence number, whatever the counters are (also
    when they wrap around 2^32), and nothing outside the ring changes. *)
Theorem push_spec mm opcode a0 a1 a2 fl :
  ring_wf OFF_CMD_RING mm -> u64 a0 && u64 a1 && u64 a2 = true ->
  (length (contents OFF_CMD_RING mm) = 64%nat /\ push mm opcode a0 a1 a2 fl = Ok (false, mm)) \/
  (exists mm', push mm opcode a0 a1 a2 fl = Ok (true, mm') /\ ring_wf OFF_CMD_RING mm' /\
     only_ring OFF_CMD_RING mm mm' /\
     contents OFF_CMD_RING mm' = contents OFF_CMD_RING mm ++
       [{| d_op := opcode mod 65536; d_flags := fl mod 65536; d_seq := rhead OFF_CMD_RING mm;
           d_a0 := a0; d_a1 := a1; d_a2 := a2 |}]).
Proof.
  intros Hwf Hu. rewrite push_eq by done. pose proof (wf_count _ _ Hwf) as Hc.
  destruct (rcount OFF_CMD_RING mm >=? 64) eqn:E; rewrite Z.geb_leb in E; zb.
  - left. split; [|done]. unfold contents. rewrite length_map, length_seqZ. lia.
  - right. eexists. split; [reflexivity|].
    assert (desc_ok {| d_op := opcode mod 65536; d_flags := fl mod 65536; d_seq := rhead OFF_CMD_RING mm;
                       d_a0 := a0; d_a1 := a1; d_a2 := a2 |}) as Hd.
    { unfold desc_ok; cbn. unfold u64 in *. zb.
      pose proof (ld_le_bound 4 mm OFF_CMD_RING (wf_bytes _ _ Hwf)) as Hb. change (256 ^ Z.of_nat 4) with 4294967296 in Hb.
      pose proof (Z.mod_pos_bound opcode 65536). pose proof (Z.mod_pos_bound fl 65536).
      unfold rhead. lia. }
    split_and!; [by apply put_wf | by apply put_only | by apply put_contents].
Qed.

Lemma push_spec_witness :
  exists mm', push (sample_region 4294967295 4294967290) 8 3 4 5 0 = Ok (true, mm') /\
    contents OFF_CMD_RING mm' = contents OFF_CMD_RING (sample_region 4294967295 4294967290) ++
      [{| d_op := 8; d_flags := 0; d_seq := 4294967295; d_a0 := 3; d_a1 := 4; d_a2 := 5 |}].
Proof.
  destruct (push_spec (sample_region 4294967295 4294967290) 8 3 4 5 0) as [[Hl _]|(mm' & H1 & _ & _ & H2)].
  - apply wrapped_wf.
  - reflexivity.
  - exfalso. vm_compute in Hl. discriminate Hl.
  - exists mm'. split; [exact H1|]. exact H2.
Defined.

Lemma ring_pop_spec ring mm :
  ring_wf ring mm ->
  (contents ring mm = [] /\ ffn_dp_ring_pop ring mm = (None, mm)) \/
  (exists d mm', ffn_dp_ring_pop ring mm = (Some d, mm') /\ ring_wf ring mm' /\
     only_ring ring mm mm' /\ contents ring mm = d :: contents ring mm').
Proof.
  intros Hwf. unfold ffn_dp_ring_pop. fold (rhead ring mm) (rtail ring mm).
  destruct (rhead ring mm =? rtail ring mm) eqn:E; zb.
  - left. split; [by apply contents_empty | done].
  - right. do 2 eexists. split; [reflexivity|].
    split_and!; [by apply drop_wf | by apply drop_only | by apply drop_contents].
Qed.

Lemma ring_push_spec ring opcode a0 a1 a2 mm mm' :
  ring_wf ring mm -> 0 <= opcode < 65536 -> u64 a0 && u64 a1 && u64 a2 = true ->
  ffn_dp_ring_push ring opcode a0 a1 a2 mm = (true, mm') ->
  ring_wf ring mm' /\ only_ring ring mm mm' /\
  contents ring mm' = contents ring mm ++
    [{| d_op := opcode; d_flags := 0; d_seq := rhead ring mm; d_a0 := a0; d_a1 := a1; d_a2 := a2 |}].
Proof.
  intros Hwf Ho Hu. unfold ffn_dp_ring_push.
  fold (rhead ring mm) (rtail ring mm) (rcount ring mm).
  destruct (rcount ring mm >=? 64) eqn:E; [done|]. rewrite Z.geb_leb in E. zb. intros [= <-].
  set (d := {| d_op := opcode |}).
  assert (desc_ok d) as Hd.
  { unfold desc_ok, d; cbn. unfold u64 in *. zb.
    pose proof (ld_le_bound 4 mm ring (wf_bytes _ _ Hwf)) as Hb. change (256 ^ Z.of_nat 4) with 4294967296 in Hb.
    unfold rhead. lia. }
  change (write_at ring _ _) with (put ring d mm).
  split_and!; [by apply put_wf | by apply put_only | by apply put_contents].
Qed.

(**  [drain] returns the oldest events, at most [limit] of them, in order,
    and leaves exactly the others in the ring. *)
Theorem drain_spec limit mm :
  ring_wf OFF_EVT_RING mm ->
  exists mm', drain limit mm = Ok (take limit (contents OFF_EVT_RING mm), mm') /\
    ring_wf OFF_EVT_RING mm' /\ contents OFF_EVT_RING mm' = drop limit (contents OFF_EVT_RING mm).
Proof.
  revert mm; induction limit as [|n IH]; intros mm Hwf; cbn [drain]; [eauto|].
  rewrite pop_event_eq by done. cbn [mbind result_bind].
  destruct (ring_pop_spec OFF_EVT_RING mm Hwf) as [[He Hp]|(d & mm1 & Hp & Hwf1 & _ & Hc)]; rewrite Hp.
  - rewrite He. eauto.
  - destruct (IH mm1 Hwf1) as (mm2 & H2 & Hwf2 & Hc2). rewrite H2. cbn [mbind result_bind].
    rewrite Hc. cbn [take drop]. eauto.
Qed.

Definition evt_region : mem :=
  snd (ffn_dp_ring_push OFF_EVT_RING 7 5 1 2 (snd (ffn_dp_ring_push OFF_EVT_RING 1 9 0 0 (zeros sample_len)))).

Lemma zero_ring_wf n ring : 0 <= ring -> ring + ring_size <= Z.of_nat n -> ring_wf ring (zeros n).
Proof.
  intros H1 H2. constructor; [apply bytes_ok_zeros | done | unfold blen, zeros; by rewrite length_replicate |].
  assert (forall i j, le_unpack (slice i j (zeros n)) = 0) as Hz.
  { intros i j. unfold slice, zeros. rewrite drop_replicate, take_replicate.
    induction (_ `min` _)%nat as [|k IHk]; [done|]. cbn [replicate le_unpack]. rewrite IHk. done. }
  unfold rcount, rhead, rtail, ld_le. rewrite !Hz. done.
Qed.

Lemma evt_region_wf : ring_wf OFF_EVT_RING evt_region.
Proof.
  unfold evt_region, OFF_EVT_RING.
  destruct (ffn_dp_ring_push 4160 1 9 0 0 (zeros sample_len)) as [b1 m1] eqn:E1.
  assert (b1 = true) as -> by (vm_compute in E1; congruence).
  apply ring_push_spec in E1 as (W1 & _ & _); [|apply zero_ring_wf; unfold ring_size, sample_len; lia|lia|done].
  cbn [snd].
  destruct (ffn_dp_ring_push 4160 7 5 1 2 m1) as [b2 m2] eqn:E2.
  cbn [snd]. destruct b2; [by apply ring_push_spec in E2 as (W2 & _ & _)|].
  unfold ffn_dp_ring_push in E2. case_match; congruence.
Qed.

Lemma drain_spec_witness :
  exists mm', drain 256 evt_region = Ok (take 256 (contents OFF_EVT_RING evt_region), mm') /\
    ring_wf OFF_EVT_RING mm' /\ contents OFF_EVT_RING mm' = drop 256 (contents OFF_EVT_RING evt_region).
Proof. apply (drain_spec 256), evt_region_wf. Defined.

(** ** What a successful [push] queued *)

Lemma push_inv mm op a0 a1 a2 fl b mm' :
  ring_wf OFF_CMD_RING mm -> push mm op a0 a1 a2 fl = Ok (b, mm') ->
  (b = false /\ mm' = mm) \/
  (b = true /\ ring_wf OFF_CMD_RING mm' /\ only_ring OFF_CMD_RING mm mm' /\
   contents OFF_CMD_RING mm' = contents OFF_CMD_RING mm ++
     [{| d_op := op mod 65536; d_flags := fl mod 65536; d_seq := rhead OFF_CMD_RING mm;
         d_a0 := a0; d_a1 := a1; d_a2 := a2 |}]).
Proof.
  intros Hwf Hp. pose proof Hwf as [W1 W2 W3 W4].
  destruct (u64 a0 && u64 a1 && u64 a2) eqn:Hu.
  - pose proof (push_eq mm op a0 a1 a2 fl Hwf Hu) as He. rewrite Hp in He.
    destruct (rcount OFF_CMD_RING mm >=? 64) eqn:E; injection He as -> ->; [by left|right].
    rewrite Z.geb_leb in E. zb. split; [done|].
    set (d := {| d_op := op mod 65536 |}).
    assert (desc_ok d) as Hd.
    { unfold desc_ok, d; cbn. unfold u64 in *. zb.
      pose proof (ld_le_bound 4 mm OFF_CMD_RING W1) as Hb. change (256 ^ Z.of_nat 4) with 4294967296 in Hb.
      pose proof (Z.mod_pos_bound op 65536). pose proof (Z.mod_pos_bound fl 65536). unfold rhead. lia. }
    split_and!; [by apply put_wf | by apply put_only | by apply put_contents].
  - unfold push, _ring_head, _ring_tail, ring_size in *.
    rewrite !unpack_from_ok in Hp by lia. cbn [mbind result_bind] in Hp.
    case_match; [left; by simplify_eq|]. rewrite Hu in Hp. done.
Qed.

Lemma push_queued mm op a0 a1 a2 fl mm' :
  ring_wf OFF_CMD_RING mm -> push mm op a0 a1 a2 fl = Ok (true, mm') ->
  contents OFF_CMD_RING mm' = contents OFF_CMD_RING mm ++
    [{| d_op := op mod 65536; d_flags := fl mod 65536; d_seq := rhead OFF_CMD_RING mm;
        d_a0 := a0; d_a1 := a1; d_a2 := a2 |}].
Proof. intros Hwf H. apply push_inv in H as [[? _]|(_ & _ & _ & ?)]; done. Qed.

(** ** Handshake and port commands *)

(**  A region whose header the C side initialised is refused by the
    management plane: [ffn_dp_hdr_init] stamps ABI version 1, [handshake] accepts
    version 2 only, whatever the dataplane state it announces. *)
Theorem c_header_refused st mm :
  64 <= blen mm -> handshake (ffn_dp_hdr_init st mm) = Err (BadVersion 1).
Proof.
  intros Hl. unfold handshake, header, ffn_dp_hdr_init.
  set (bs := lit "FFNDP" ++ [0] ++ le_pack 2 1 ++ le_pack 4 st ++ zeros 52).
  assert (blen bs = 64) as Hb by (unfold blen, bs; autorewrite with ffn_len; reflexivity).
  pose proof (slice_write_same 0 bs mm ltac:(lia) ltac:(lia)) as Hs. rewrite Hb in Hs.
  unfold OFF_HDR. rewrite Hs, !unpack_from_ok by lia. reflexivity.
Qed.

Lemma c_header_refused_witness : handshake (ffn_dp_hdr_init 2 (zeros sample_len)) = Err (BadVersion 1).
Proof.
  apply c_header_refused. unfold blen, zeros, sample_len. rewrite length_replicate. lia.
Defined.

Lemma testbit_ff n : 0 <= n -> Z.testbit 255 n = (n <? 8).
Proof. intros H. change 255 with (Z.ones 8). apply Z.testbit_ones_nonneg; lia. Qed.

Lemma land_7_255 x : Z.land (Z.land x 7) 255 = Z.land x 7.
Proof. rewrite <- Z.land_assoc. reflexivity. Qed.

(** The byte at one of the seven positions of a word assembled from bytes. *)
Lemma pack7_byte a b c d e f g k :
  0 <= k < 7 ->
  Z.land (Z.shiftr
    (Z.lor (Z.lor (Z.lor (Z.lor (Z.lor (Z.lor
      (Z.land a 255) (Z.shiftl (Z.land b 255) 8)) (Z.shiftl (Z.land c 255) 16)) (Z.shiftl (Z.land d 255) 24))
      (Z.shiftl (Z.land e 255) 32)) (Z.shiftl (Z.land f 255) 40)) (Z.shiftl (Z.land g 255) 48)) (8 * k)) 255
  = Z.land (nth (Z.to_nat k) [a; b; c; d; e; f; g] 0) 255.
Proof.
  intros Hk. apply Z.bits_inj'. intros n Hn.
  rewrite Z.land_spec, Z.shiftr_spec, !Z.lor_spec, !Z.shiftl_spec, !Z.land_spec by lia.
  rewrite (testbit_ff n) by done. destruct (n <? 8) eqn:E; [|by rewrite !andb_false_r]. zb.
  assert (forall x m, (0 <= m < 8 -> False) -> Z.testbit x m && Z.testbit 255 m = false) as Hout.
  { intros x m Hm. destruct (Z.ltb_spec m 0) as [?|?]; [by rewrite !Z.testbit_neg_r by lia|].
    rewrite testbit_ff by lia. destruct (Z.ltb_spec m 8) as [?|?]; [lia|]. apply andb_false_r. }
  assert (k = 0 \/ k = 1 \/ k = 2 \/ k = 3 \/ k = 4 \/ k = 5 \/ k = 6) as Hc by lia.
  destruct Hc as [->|[->|[->|[->|[->|[->| ->]]]]]]; cbn [Z.to_nat Pos.to_nat Pos.iter_op Nat.add nth];
    repeat match goal with
      | |- context [Z.testbit ?x ?m && Z.testbit 255 ?m] => rewrite (Hout x m) by lia
      end;
    cbn [orb]; rewrite ?orb_false_r, ?testbit_ff by lia;
    repeat match goal with |- context [?m <? 8] => replace (m <? 8) with true by lia end;
    rewrite ?andb_true_r; f_equal; lia.
Qed.

Definition cfg_byte (k w : Z) : Z := Z.land (Z.shiftr w (8 * k)) 255.

Lemma pack_cfg_byte t l ln ng ph fl r k :
  0 <= k < 7 ->
  cfg_byte k (_pack_cfg t l ln ng ph fl r) =
  Z.land (nth (Z.to_nat k) [t; Z.land l 7; ln; ng; ph; fl; r] 0) 255.
Proof. intros Hk. unfold cfg_byte, _pack_cfg. rewrite <- (land_7_255 l) at 1. by apply pack7_byte. Qed.

(** Names in a table have a one-byte identifier. *)
Lemma id_of_byte t s v :
  Forall (fun p => 0 <= p.1 < 256) t -> id_of t s = Some v -> v mod 256 = v.
Proof.
  intros Ht H. unfold id_of in H. destruct (find _ t) as [p|] eqn:E; [|done]. simplify_eq/=.
  apply find_some in E as [Hin _]. rewrite Forall_forall in Ht.
  apply Z.mod_small, Ht. by apply list_elem_of_In.
Qed.

(** The descriptor a [port_config] of the given words queues. *)
Definition cfg_desc (seq lport cfg a2 : Z) : desc :=
  {| d_op := CMD_PORT_CONFIG; d_flags := 0; d_seq := seq; d_a0 := lport; d_a1 := cfg; d_a2 := a2 |}.

(**  When [port_config] succeeds, the port-control capability was announced
    and exactly one descriptor was appended to the command ring: it carries the
    logical port, and the bytes of its configuration word are the port type, the
    LMAC type (3 bits), the lane, the negotiation mode, the PHY address, the flag
    bits and the role, each in its own byte, with no field leaking into another. *)
Theorem port_config_queues mm lport t lm lane ng phy speed mtu hl mg r b mm' :
  ring_wf OFF_CMD_RING mm ->
  port_config mm lport t lm lane ng phy speed mtu hl mg r = Ok (b, mm') ->
  (exists c, caps mm = Ok c /\ Z.land c CAP_PORT_CTL <> 0) /\
  exists cfg a2,
    contents OFF_CMD_RING mm' =
      contents OFF_CMD_RING mm ++ [cfg_desc (rhead OFF_CMD_RING mm) lport cfg a2] /\
    (forall s, t = IdStr s -> Some (cfg_byte 0 cfg) = id_of PORT_TYPE (lower s)) /\
    (forall v, lm = Some v -> cfg_byte 1 cfg = v mod 8) /\
    cfg_byte 2 cfg = lane mod 256 /\
    cfg_byte 3 cfg = (if bool_decide (ng = lit "autoneg") then 0 else 1) /\
    cfg_byte 4 cfg = phy mod 256 /\
    cfg_byte 5 cfg = (if hl then 1 else 0) + (if mg then 2 else 0) /\
    (forall s, r = IdStr s -> Some (cfg_byte 6 cfg) = id_of PORT_ROLE (lower s)).
Proof.
  intros Hwf H. unfold port_config in H. apply bind_ok_inv in H as (c & Hc & H). cbn beta in H.
  split.
  { unfold require_port_ctl in Hc. apply bind_ok_inv in Hc as (c' & Hc' & Hc). cbn beta in Hc.
    destruct (_ =? 0) eqn:E; inv_res. zb. eauto. }
  apply bind_ok_inv in H as (tid & Ht & H). cbn beta zeta in H.
  apply bind_ok_inv in H as (nid & Hn & H). cbn beta zeta in H.
  apply bind_ok_inv in H as (rid & Hr & H). cbn beta zeta in H.
  set (lmv := match lm with Some v => v | None => _ end) in H.
  apply bind_ok_inv in H as ([pushed m1] & Hp & H). cbn in H. destruct pushed; inv_res.
  eexists _, _. split; [exact (push_queued _ _ _ _ _ _ _ Hwf Hp)|].
  rewrite !pack_cfg_byte by lia. cbn [Z.to_nat Pos.to_nat Pos.iter_op Nat.add nth].
  rewrite !land_ff. split_and!.
  - intros s ->. destruct (id_of PORT_TYPE (lower s)) eqn:E; inv_res. f_equal.
    eapply id_of_byte; [|exact E]. repeat constructor; cbn; lia.
  - intros v ->. unfold lmv. change 7 with (Z.ones 3). rewrite Z.land_ones by lia. change (2 ^ 3) with 8.
    apply Z.mod_small. pose proof (Z.mod_pos_bound v 8). lia.
  - done.
  - destruct (bool_decide (ng = lit "autoneg")); [by inv_res|]. destruct (bool_decide _); by inv_res.
  - done.
  - by destruct hl, mg.
  - intros s ->. destruct (id_of PORT_ROLE (lower s)) eqn:E; inv_res. f_equal.
    eapply id_of_byte; [|exact E]. repeat constructor; cbn; lia.
Qed.

Lemma port_config_true mm lport t lm lane ng phy speed mtu hl mg r b mm' :
  port_config mm lport t lm lane ng phy speed mtu hl mg r = Ok (b, mm') -> b = true.
Proof.
  unfold port_config. intros H. do 4 (apply bind_ok_inv in H as (? & _ & H); cbn beta zeta in H).
  apply bind_ok_inv in H as ([[|] ?] & _ & H); cbn in H; inv_res. done.
Qed.

Definition ctl_region : mem := write_at 40 [1; 0; 0; 0] (zeros sample_len).

Lemma ctl_region_wf : ring_wf OFF_CMD_RING ctl_region.
Proof.
  assert (blen (zeros sample_len) = 17000) as Hz
    by (unfold zeros, blen, sample_len; rewrite length_replicate; lia).
  assert (blen [1; 0; 0; 0] = 4) as H4 by reflexivity.
  unfold ctl_region, OFF_CMD_RING. constructor; [| lia | |].
  - apply bytes_ok_write; [repeat constructor; unfold is_byte; lia | apply bytes_ok_zeros].
  - rewrite blen_write; unfold ring_size; lia.
  - vm_compute. discriminate.
Qed.

Abbreviation ctl_call :=
  (port_config ctl_region 3 (IdStr (lit "SFP+")) None 228 (lit "autoneg") 255 0 1500 true false (IdStr (lit "data"))).

Lemma ctl_call_ok : exists mm', ctl_call = Ok (true, mm').
Proof.
  assert (is_ok ctl_call = true) as Hr by (vm_compute; reflexivity).
  destruct ctl_call as [[b m']|e] eqn:E; [|discriminate Hr].
  exists m'. f_equal. f_equal. revert E. apply port_config_true.
Qed.

Lemma port_config_queues_witness :
  exists mm', ctl_call = Ok (true, mm') /\
  exists cfg a2,
    contents OFF_CMD_RING mm' =
      contents OFF_CMD_RING ctl_region ++ [cfg_desc (rhead OFF_CMD_RING ctl_region) 3 cfg a2] /\
    cfg_byte 2 cfg = 228.
Proof.
  destruct ctl_call_ok as [m' E]. exists m'. split; [exact E|].
  destruct (port_config_queues ctl_region 3 _ _ _ _ _ _ _ _ _ _ true m' ctl_region_wf E)
    as (_ & cfg & a2 & Hq & _ & _ & Hl & _).
  exists cfg, a2. split; [exact Hq | exact Hl].
Defined.
