(* ===== verification/RingSteps.v ===== *)
(** * The ring, access by access

    DpRing has each ring operation as one function of the region.  On the appliance the producer and the consumer of a ring
    run at the same time, and what they interleave is single accesses.  Here [push] (and [ffn_dp_ring_push]) is the read of
    the head, the read of the tail, the stores of the descriptor one byte at a time, and the store of the head; [pop_event]
    (and [ffn_dp_ring_pop]) is the read of the head, the read of the tail, the reads of the descriptor one byte at a time, and
    the store of the tail.  [struct.pack_into] clears the slot before it fills it, and when an argument does not fit it
    raises after it has written the fields before it.  Accesses take effect in program order and are seen by the other side
    at once (one byte store or load, or one counter).  Everything else that shares the region, the other ring included, can
    write outside the ring at any time.

    Main results: with counters that are stored in one access, no descriptor is lost, duplicated, reordered or seen
    half-written, over every interleaving ([rings_fifo]); an operation that is not interrupted is the function of DpRing
    ([push_alone], [pop_alone]).  The accessors in the source store a counter byte by byte ([struct.pack_into] clears it first), and then the property fails: the
    consumer can take a descriptor nobody sent ([torn_counter]). *)

From S2P Require Import Prelude PyStr DpRing.

#[local] Open Scope Z_scope.

(** ** The machine *)

(** The arguments of one [push]; [q_clears] for the Python side. *)
Record request := { q_op : Z; q_fl : Z; q_a0 : Z; q_a1 : Z; q_a2 : Z; q_clears : bool }.

(** Where the producer is: nothing to do; a call; the head has been read; stores left, and what the call then returns
    ([None]: it raises). *)
Inductive producer :=
| PIdle
| PStart (q : request)
| PHead (q : request) (head : Z)
| PStore (d : option desc) (ws : list (Z * bytes)).
(** Where the consumer is: before a call; the head has been read; a part of the descriptor has been read; stores left. *)
Inductive consumer :=
| CIdle
| CHead (head : Z)
| CRead (tail : Z) (got : bytes)
| CStore (d : desc) (ws : list (Z * bytes)).

Inductive label := Tau | Sent (d : desc) | Full | Raised | Took (d : desc) | Empty.

Definition store (w : Z * bytes) (mm : mem) : mem := write_at w.1 w.2 mm.
Fixpoint byte_stores (o : Z) (bs : bytes) : list (Z * bytes) :=
  match bs with [] => [] | b :: t => (o, [b]) :: byte_stores (o + 1) t end.

Section Machine.
(** [word]: a counter is stored in one access. *)
Context (word : bool) (ring : Z).

Definition counter_stores (o v : Z) : list (Z * bytes) :=
  if word then [(o, le_pack 4 v)] else byte_stores o (le_pack 4 v).

Definition q_desc (q : request) (head : Z) : desc :=
  {| d_op := q_op q mod 65536; d_flags := q_fl q mod 65536; d_seq := head mod 4294967296;
     d_a0 := q_a0 q; d_a1 := q_a1 q; d_a2 := q_a2 q |}.
Definition clear_stores (q : request) (o : Z) : list (Z * bytes) := if q_clears q then byte_stores o (zeros 32) else [].
Definition push_stores (q : request) (head : Z) : list (Z * bytes) :=
  clear_stores q (_desc ring head) ++ byte_stores (_desc ring head) (desc_bytes (q_desc q head))
  ++ counter_stores ring ((head + 1) mod 4294967296).
(** The fields before the first one that does not fit. *)
Definition partial_stores (q : request) (head : Z) : list (Z * bytes) :=
  clear_stores q (_desc ring head)
  ++ byte_stores (_desc ring head) (take (if negb (u64 (q_a0 q)) then 8 else if negb (u64 (q_a1 q)) then 16 else 24) (desc_bytes (q_desc q head))).

Definition p_step (p : producer) (mm : mem) : label * producer * mem :=
  match p with
  | PIdle => (Tau, PIdle, mm)
  | PStart q => (Tau, PHead q (ld_le 4 mm ring), mm)
  | PHead q head =>
      if (head - ld_le 4 mm (ring + 4)) mod 4294967296 >=? 64 then (Full, PIdle, mm)
      else if u64 (q_a0 q) && u64 (q_a1 q) && u64 (q_a2 q) then (Tau, PStore (Some (q_desc q head)) (push_stores q head), mm)
      else (Tau, PStore None (partial_stores q head), mm)
  | PStore d [] => (match d with Some d => Sent d | None => Raised end, PIdle, mm)
  | PStore d [w] => (match d with Some d => Sent d | None => Raised end, PIdle, store w mm)
  | PStore d (w :: ws) => (Tau, PStore d ws, store w mm)
  end.

(** The fields of a descriptor that has been read. *)
Definition decode (b : bytes) : desc :=
  {| d_op := le_unpack (slice 0 2 b); d_flags := le_unpack (slice 2 4 b); d_seq := le_unpack (slice 4 8 b);
     d_a0 := le_unpack (slice 8 16 b); d_a1 := le_unpack (slice 16 24 b); d_a2 := le_unpack (slice 24 32 b) |}.
Definition c_step (c : consumer) (mm : mem) : label * consumer * mem :=
  match c with
  | CIdle => (Tau, CHead (ld_le 4 mm ring), mm)
  | CHead head =>
      let tail := ld_le 4 mm (ring + 4) in
      if head =? tail then (Empty, CIdle, mm) else (Tau, CRead tail [], mm)
  | CRead tail got =>
      let o := _desc ring tail + Z.of_nat (length got) in
      let got := got ++ slice o (o + 1) mm in
      (Tau, if (32 <=? length got)%nat then CStore (decode got) (counter_stores (ring + 4) ((tail + 1) mod 4294967296)) else CRead tail got, mm)
  | CStore d [] => (Took d, CIdle, mm)
  | CStore d [w] => (Took d, CIdle, store w mm)
  | CStore d (w :: ws) => (Tau, CStore d ws, store w mm)
  end.

(** A schedule: a call of the producer, its next access, the consumer's next access (a call when it has none under way),
    and a write of somebody else outside the ring. *)
Inductive choice := Call (q : request) | P | C | Env (o : Z) (bs : bytes).
Record st := { s_mem : mem; s_prod : producer; s_cons : consumer }.

Definition outside (o : Z) (bs : bytes) (mm : mem) : bool :=
  (0 <=? o) && (o + blen bs <=? blen mm) && ((o + blen bs <=? ring) || (ring + ring_size <=? o)) && bool_decide (bytes_ok bs).
Definition sched_step (x : choice) (s : st) : label * st :=
  match x with
  | Call q => (Tau, match s_prod s with PIdle => {| s_mem := s_mem s; s_prod := PStart q; s_cons := s_cons s |} | _ => s end)
  | P => let '(l, p, mm) := p_step (s_prod s) (s_mem s) in (l, {| s_mem := mm; s_prod := p; s_cons := s_cons s |})
  | C => let '(l, c, mm) := c_step (s_cons s) (s_mem s) in (l, {| s_mem := mm; s_prod := s_prod s; s_cons := c |})
  | Env o bs => (Tau, if outside o bs (s_mem s) then {| s_mem := write_at o bs (s_mem s); s_prod := s_prod s; s_cons := s_cons s |} else s)
  end.
Fixpoint exec (xs : list choice) (s : st) : list label * st :=
  match xs with
  | [] => ([], s)
  | x :: t => let '(l, s1) := sched_step x s in let '(ls, s2) := exec t s1 in (l :: ls, s2)
  end.
End Machine.

Definition sent (l : list label) : list desc := omap (fun a => match a with Sent d => Some d | _ => None end) l.
Definition took (l : list label) : list desc := omap (fun a => match a with Took d => Some d | _ => None end) l.

(** ** Writes inside a slot *)

(** Nothing outside [o, o + n) changed. *)
Definition only_at (o n : Z) (mm mm' : mem) : Prop :=
  blen mm' = blen mm /\ forall i j, 0 <= i -> j <= o \/ o + n <= i -> slice i j mm' = slice i j mm.

Lemma only_at_refl o n mm : only_at o n mm mm.
Proof. done. Qed.

Lemma write_only o bs mm : 0 <= o -> o + blen bs <= blen mm -> only_at o (blen bs) mm (write_at o bs mm).
Proof. intros H1 H2. split; [by apply blen_write|]. intros i j Hi Hj. by apply slice_write_other. Qed.

Lemma only_at_weaken o n o' n' mm mm' : only_at o n mm mm' -> o' <= o -> o + n <= o' + n' -> only_at o' n' mm mm'.
Proof. intros [H1 H2] ? ?. split; [done|]. intros i j Hi Hj. apply H2; lia. Qed.

Lemma write_app_r k bs (A X : bytes) : write_at (Z.of_nat (length A + k)) bs (A ++ X) = A ++ write_at (Z.of_nat k) bs X.
Proof.
  unfold write_at. rewrite !Nat2Z.id, take_app_add, <- app_assoc. do 2 f_equal. f_equal.
  by rewrite <- Nat.add_assoc, drop_app_add.
Qed.

Lemma write_app_l k bs (B Y : bytes) : (k + length bs <= length B)%nat -> write_at (Z.of_nat k) bs (B ++ Y) = write_at (Z.of_nat k) bs B ++ Y.
Proof.
  intros H. unfold write_at. rewrite !Nat2Z.id, take_app_le, drop_app_le by lia. by rewrite <- !app_assoc.
Qed.

(** A slot seen as a byte string of its own. *)
Lemma slice_write_in o n w bs mm :
  0 <= o -> o <= w -> w + blen bs <= o + n -> o + n <= blen mm ->
  slice o (o + n) (write_at w bs mm) = write_at (w - o) bs (slice o (o + n) mm).
Proof.
  intros H1 H2 H3 H4. unfold blen in *.
  set (A := take (Z.to_nat o) mm). set (B := take (Z.to_nat n) (drop (Z.to_nat o) mm)). set (Y := drop (Z.to_nat n) (drop (Z.to_nat o) mm)).
  assert (mm = A ++ B ++ Y) as E by (unfold A, B, Y; by rewrite !take_drop).
  assert (length A = Z.to_nat o) as LA by (unfold A; rewrite length_take; lia).
  assert (length B = Z.to_nat n) as LB by (unfold B; rewrite length_take, length_drop; lia).
  assert (forall X Z', length X = Z.to_nat n -> slice o (o + n) (A ++ X ++ Z') = X) as Hsl.
  { intros X Z' HX. unfold slice. replace (Z.to_nat (o + n - o)) with (length X) by lia.
    replace (Z.to_nat o) with (length A) by lia. by rewrite drop_app_length, take_app_length. }
  rewrite E at 1 2. rewrite Hsl by done.
  replace w with (Z.of_nat (length A + Z.to_nat (w - o))) at 1 by lia. rewrite write_app_r, write_app_l by lia.
  replace (w - o) with (Z.of_nat (Z.to_nat (w - o))) at 2 by lia. apply Hsl.
  unfold write_at. rewrite !length_app, length_take, length_drop. lia.
Qed.

Lemma write_same o n mm : 0 <= o -> o + n <= blen mm -> 0 <= n -> write_at o (slice o (o + n) mm) mm = mm.
Proof.
  intros H1 H2 H3. unfold write_at, slice, blen in *. rewrite length_take, length_drop.
  replace (Z.to_nat (o + n - o)) with (Z.to_nat n) by lia.
  replace (Z.to_nat n `min` (length mm - Z.to_nat o))%nat with (Z.to_nat n) by lia.
  rewrite <- drop_drop, take_drop. apply take_drop.
Qed.

(** The writes of [ws], all inside the slot at [o]. *)
Definition in_slot (o : Z) (ws : list (Z * bytes)) : Prop :=
  Forall (fun w => o <= w.1 /\ w.1 + blen w.2 <= o + 32 /\ bytes_ok w.2) ws.
Definition fill (o : Z) (ws : list (Z * bytes)) (slot : bytes) : bytes := fold_left (fun s w => write_at (w.1 - o) w.2 s) ws slot.

Lemma byte_stores_in o bs : forall o', bytes_ok bs -> o <= o' -> o' + blen bs <= o + 32 -> in_slot o (byte_stores o' bs).
Proof.
  induction bs as [|b bs IH]; intros o' Hb H1 H2; [constructor|]. apply Forall_cons in Hb as [Hb Hbs].
  unfold blen in *. cbn [length] in H2. constructor.
  - unfold blen. cbn [fst snd length]. split; [done|]. split; [lia|]. by constructor.
  - apply IH; [done | lia | lia].
Qed.

Lemma fill_bytes o bs : forall pre suf, (length (pre ++ suf) = 32)%nat -> (length bs <= length suf)%nat ->
  fill o (byte_stores (o + Z.of_nat (length pre)) bs) (pre ++ suf) = pre ++ bs ++ drop (length bs) suf.
Proof.
  induction bs as [|b bs IH]; intros pre suf Hl Hs; [done|]. destruct suf as [|x suf]; [cbn in Hs; lia|].
  unfold fill. cbn [byte_stores fold_left fst snd].
  replace (write_at (o + Z.of_nat (length pre) - o) [b] (pre ++ x :: suf)) with ((pre ++ [b]) ++ suf).
  2: { unfold write_at. replace (Z.to_nat (o + Z.of_nat (length pre) - o)) with (length pre) by lia.
       rewrite take_app_length. cbn [length]. rewrite drop_app, drop_ge by lia.
       replace (length pre + 1 - length pre)%nat with 1%nat by lia. cbn. by rewrite <- app_assoc. }
  pose proof (IH (pre ++ [b]) suf) as H. unfold fill in H. rewrite !length_app in *. cbn [length] in *.
  replace (o + Z.of_nat (length pre) + 1) with (o + Z.of_nat (length pre + 1)) by lia. rewrite H by lia.
  rewrite <- app_assoc. done.
Qed.

Lemma fill_all o bs slot : length slot = 32%nat -> length bs = 32%nat -> fill o (byte_stores o bs) slot = bs.
Proof.
  intros H1 H2. pose proof (fill_bytes o bs [] slot) as H. cbn [app length Z.of_nat] in H. rewrite Z.add_0_r in H. rewrite H by lia.
  rewrite drop_ge by lia. apply app_nil_r.
Qed.

Lemma fill_app o ws1 ws2 slot : fill o (ws1 ++ ws2) slot = fill o ws2 (fill o ws1 slot).
Proof. unfold fill. apply fold_left_app. Qed.

Lemma fill_length o ws slot : in_slot o ws -> length slot = 32%nat -> length (fill o ws slot) = 32%nat.
Proof.
  revert slot. induction ws as [|[w bs] ws IH]; intros slot Hi Hl; [done|]. apply Forall_cons in Hi as [(H1 & H2 & _) Hi]. cbn [fst snd] in *.
  apply IH; [done|]. cbn. assert (blen (write_at (w - o) bs slot) = blen slot) as H by (apply blen_write; unfold blen in *; lia). unfold blen in H. lia.
Qed.

(** ** The invariant *)

Section Invariant.
Context (ring : Z).

Abbreviation slot_h mm := (_desc ring (rhead ring mm)) (only parsing).
Abbreviation slot_t mm := (_desc ring (rtail ring mm)) (only parsing).

(** The producer: the head is the one it read; while it stores, the ring has room, its stores but the last are in the slot
    at the head, and after them the slot holds the descriptor. *)
Definition p_ok (p : producer) (mm : mem) : Prop :=
  match p with
  | PIdle | PStart _ => True
  | PHead _ head => head = rhead ring mm
  | PStore (Some d) ws => rcount ring mm < 64 /\ desc_ok d /\ exists pre,
      ws = pre ++ [(ring, le_pack 4 ((rhead ring mm + 1) mod 4294967296))] /\ in_slot (slot_h mm) pre
      /\ fill (slot_h mm) pre (slice (slot_h mm) (slot_h mm + 32) mm) = desc_bytes d
  | PStore None ws => rcount ring mm < 64 /\ in_slot (slot_h mm) ws
  end.
(** The consumer: the head it read is not ahead of the present one; while it reads, there is a descriptor at the tail, and
    what it has is the beginning of it. *)
Definition c_ok (c : consumer) (mm : mem) : Prop :=
  match c with
  | CIdle => True
  | CHead head => exists n, 0 <= n <= rcount ring mm /\ head = (rtail ring mm + n) mod 4294967296
  | CRead tail got => tail = rtail ring mm /\ 0 < rcount ring mm /\ (length got < 32)%nat
      /\ got = slice (slot_t mm) (slot_t mm + Z.of_nat (length got)) mm
  | CStore d ws => 0 < rcount ring mm /\ d = desc_at mm (slot_t mm) /\ ws = [(ring + 4, le_pack 4 ((rtail ring mm + 1) mod 4294967296))]
  end.

Lemma rcount_bound mm : 0 <= rcount ring mm < 4294967296.
Proof. apply Z.mod_pos_bound. lia. Qed.

Lemma rhead_bound mm : bytes_ok mm -> 0 <= rhead ring mm < 4294967296.
Proof. intros H. exact (ld_le_bound 4 mm ring H). Qed.
Lemma rtail_bound mm : bytes_ok mm -> 0 <= rtail ring mm < 4294967296.
Proof. intros H. exact (ld_le_bound 4 mm (ring + 4) H). Qed.

(** The slot at the head and an occupied one are different slots. *)
Lemma head_slot_free mm i : 0 <= i < rcount ring mm -> rcount ring mm < 64 ->
  _desc ring (rtail ring mm + i) + 32 <= slot_h mm \/ slot_h mm + 32 <= _desc ring (rtail ring mm + i).
Proof.
  intros Hi Hc. apply desc_off_disjoint.
  assert (rhead ring mm mod 64 = (rtail ring mm + rcount ring mm) mod 64) as Hm.
  { unfold rcount. rewrite Zplus_mod, (Z.mod_mod_divide _ 4294967296 64), <- Zplus_mod by (by exists 67108864). f_equal. lia. }
  rewrite Hm. intros E. Z.div_mod_to_equations. lia.
Qed.

(** What a write that spares the counters and the occupied slots leaves. *)
Record spares (mm mm' : mem) : Prop := {
  sp_bytes : bytes_ok mm'; sp_blen : blen mm' = blen mm; sp_head : rhead ring mm' = rhead ring mm; sp_tail : rtail ring mm' = rtail ring mm;
  sp_slots : forall i, 0 <= i < rcount ring mm ->
    slice (_desc ring (rtail ring mm + i)) (_desc ring (rtail ring mm + i) + 32) mm'
    = slice (_desc ring (rtail ring mm + i)) (_desc ring (rtail ring mm + i) + 32) mm }.

Lemma spares_count mm mm' : spares mm mm' -> rcount ring mm' = rcount ring mm.
Proof. intros [_ _ H1 H2 _]. unfold rcount. by rewrite H1, H2. Qed.

Lemma spares_queue mm mm' : ring_wf ring mm -> spares mm mm' -> ring_wf ring mm' /\ contents ring mm' = contents ring mm.
Proof.
  intros [W1 W2 W3 W4] S. pose proof (spares_count _ _ S) as Hc. destruct S as [B L H T X].
  split; [constructor; [done | done | lia | lia]|]. unfold contents. rewrite Hc, T. apply map_ext_in. intros i Hi.
  apply list_elem_of_In, elem_of_seqZ in Hi. pose proof (desc_off_bounds ring (rtail ring mm + i)). apply desc_at_slice; [lia|]. apply X. lia.
Qed.

Lemma slice_prefix o k n (m1 m2 : mem) : 0 <= k <= n -> slice o (o + n) m1 = slice o (o + n) m2 -> slice o (o + k) m1 = slice o (o + k) m2.
Proof.
  intros Hk. unfold slice. replace (o + n - o) with n by lia. replace (o + k - o) with k by lia.
  assert (forall m : mem, take (Z.to_nat k) m = take (Z.to_nat k) (take (Z.to_nat n) m)) as Ht by (intros m; rewrite take_take; f_equal; lia).
  intros E. by rewrite Ht, E, <- Ht.
Qed.

(** The consumer does not notice such a write. *)
Lemma spares_consumer c mm mm' : ring_wf ring mm -> spares mm mm' -> c_ok c mm -> c_ok c mm'.
Proof.
  intros [W1 W2 W3 W4] S. pose proof (spares_count _ _ S) as Hc. destruct S as [B L H T X]. destruct c as [|h|t got|d ws]; cbn [c_ok]; rewrite ?Hc, ?T; [done | done | |].
  - intros (-> & Hp & Hl & E). split_and!; try done. rewrite E at 1.
    specialize (X 0 ltac:(lia)). rewrite Z.add_0_r in X. symmetry. apply (slice_prefix _ _ 32); [lia | done].
  - intros (Hp & -> & ->). split_and!; try done. specialize (X 0 ltac:(lia)). rewrite Z.add_0_r in X.
    pose proof (desc_off_bounds ring (rtail ring mm)). apply desc_at_slice; [lia | done].
Qed.

Lemma head_bounds mm : ring_wf ring mm -> ring + 16 <= slot_h mm /\ slot_h mm + 32 <= ring + ring_size /\ 0 <= ring /\ ring + ring_size <= blen mm.
Proof. intros [W1 W2 W3 W4]. pose proof (desc_off_bounds ring (rhead ring mm)). lia. Qed.

(** One store into the slot at the head. *)
Lemma slot_store w mm : ring_wf ring mm -> rcount ring mm < 64 -> in_slot (slot_h mm) [w] -> spares mm (store w mm).
Proof.
  intros Hwf Hc Hin. pose proof (head_bounds mm Hwf) as (B1 & B2 & B3 & B4). destruct w as [o bs].
  apply Forall_cons in Hin as [(I1 & I2 & I3) _]. cbn [fst snd] in *. unfold store. cbn [fst snd].
  assert (only_at o (blen bs) mm (write_at o bs mm)) as [L E] by (apply write_only; lia).
  constructor.
  - apply bytes_ok_write; [done | by destruct Hwf].
  - done.
  - unfold rhead, ld_le. rewrite E by lia. done.
  - unfold rtail, ld_le. rewrite E by lia. done.
  - intros i Hi. destruct (head_slot_free mm i Hi Hc); pose proof (desc_off_bounds ring (rtail ring mm + i)); apply E; lia.
Qed.

Lemma slot_fill w pre mm : ring_wf ring mm -> in_slot (slot_h mm) [w] ->
  fill (slot_h mm) pre (slice (slot_h mm) (slot_h mm + 32) (store w mm)) = fill (slot_h mm) (w :: pre) (slice (slot_h mm) (slot_h mm + 32) mm).
Proof.
  intros Hwf Hin. pose proof (head_bounds mm Hwf) as (B1 & B2 & B3 & B4). destruct w as [o bs].
  apply Forall_cons in Hin as [(I1 & I2 & I3) _]. cbn [fst snd] in *. unfold store, fill. cbn [fst snd fold_left].
  by rewrite slice_write_in by lia.
Qed.

(** The store of the head: the slot holds the descriptor, so this is [put]. *)
Lemma publish d mm : ring_wf ring mm -> slice (slot_h mm) (slot_h mm + 32) mm = desc_bytes d ->
  store (ring, le_pack 4 ((rhead ring mm + 1) mod 4294967296)) mm = put ring d mm.
Proof.
  intros Hwf E. pose proof (head_bounds mm Hwf) as (B1 & B2 & B3 & B4). unfold put, store. cbn [fst snd]. rewrite <- E.
  by rewrite write_same by lia.
Qed.

Lemma publish_consumer c d mm : ring_wf ring mm -> desc_ok d -> rcount ring mm < 64 -> c_ok c mm -> c_ok c (put ring d mm).
Proof.
  intros Hwf Hd Hc. pose proof (head_bounds mm Hwf) as (B1 & B2 & B3 & B4). pose proof (rcount_bound mm) as Hb.
  assert (forall i, 0 <= i < rcount ring mm -> slice (_desc ring (rtail ring mm + i)) (_desc ring (rtail ring mm + i) + 32) (put ring d mm)
    = slice (_desc ring (rtail ring mm + i)) (_desc ring (rtail ring mm + i) + 32) mm) as X.
  { intros i Hi. pose proof (desc_off_bounds ring (rtail ring mm + i)). destruct (head_slot_free mm i Hi Hc); apply put_slice; try done; lia. }
  destruct c as [|h|t got|d' ws]; cbn [c_ok]; rewrite ?put_tail, ?put_count by done; [done | | |].
  - intros (n & Hn & ->). exists n. split; [lia | done].
  - intros (-> & Hp & Hl & E). split_and!; [done | lia | done |]. rewrite E at 1.
    specialize (X 0 ltac:(lia)). rewrite Z.add_0_r in X. symmetry. apply (slice_prefix _ _ 32); [lia | done].
  - intros (Hp & -> & ->). split_and!; [lia | | done]. specialize (X 0 ltac:(lia)). rewrite Z.add_0_r in X.
    pose proof (desc_off_bounds ring (rtail ring mm)). apply desc_at_slice; [lia | done].
Qed.

Lemma count_nonzero mm : 0 < rcount ring mm -> rhead ring mm <> rtail ring mm.
Proof. unfold rcount. intros H E. rewrite E, Z.sub_diag in H. done. Qed.

(** The store of the tail does not disturb the producer. *)
Lemma drop_producer p mm : ring_wf ring mm -> 0 < rcount ring mm -> p_ok p mm -> p_ok p (drop_one ring mm).
Proof.
  intros Hwf Hp. pose proof (head_bounds mm Hwf) as (B1 & B2 & B3 & B4). pose proof (count_nonzero mm Hp) as Hne.
  assert (slice (slot_h mm) (slot_h mm + 32) (drop_one ring mm) = slice (slot_h mm) (slot_h mm + 32) mm) as E.
  { apply drop_slice; [done | lia | lia]. }
  destruct p as [|q|q h|[d|] ws]; cbn [p_ok]; rewrite ?drop_head, ?drop_count by done; [done | done | done | |].
  - intros (Hc & Hd & pre & -> & Hi & Hf). split_and!; [lia | done |]. exists pre. by rewrite E.
  - intros (Hc & Hi). split; [lia | done].
Qed.

(** What happens outside the ring changes nothing in it. *)
Lemma env_spares o bs mm : ring_wf ring mm -> outside ring o bs mm = true ->
  spares mm (write_at o bs mm) /\ slice (slot_h mm) (slot_h mm + 32) (write_at o bs mm) = slice (slot_h mm) (slot_h mm + 32) mm.
Proof.
  intros Hwf H. pose proof (head_bounds mm Hwf) as (B1 & B2 & B3 & B4). unfold outside in H. rewrite !andb_true_iff, orb_true_iff in H.
  destruct H as [[[H1 H2] H3] H4]. apply bool_decide_eq_true in H4. zb. 
  assert (o + blen bs <= ring \/ ring + ring_size <= o) as H5 by (destruct H3; zb; lia). clear H3.
  assert (only_at o (blen bs) mm (write_at o bs mm)) as [L E] by (apply write_only; lia). unfold ring_size in *.
  split; [constructor|].
  - apply bytes_ok_write; [done | by destruct Hwf].
  - done.
  - unfold rhead, ld_le. rewrite E by lia. done.
  - unfold rtail, ld_le. rewrite E by lia. done.
  - intros i Hi. pose proof (desc_off_bounds ring (rtail ring mm + i)). unfold ring_size in *. apply E; lia.
  - apply E; lia.
Qed.

Lemma env_producer p mm mm' : spares mm mm' -> slice (slot_h mm) (slot_h mm + 32) mm' = slice (slot_h mm) (slot_h mm + 32) mm -> p_ok p mm -> p_ok p mm'.
Proof.
  intros S E. pose proof (spares_count _ _ S) as Hc. destruct S as [B L H T X].
  destruct p as [|q|q h|[d|] ws]; cbn [p_ok]; rewrite ?Hc, ?H; try done. by rewrite E.
Qed.
End Invariant.

(** ** Every interleaving *)

Lemma triple_inj {X Y W} (a x : X) (b y : Y) (c z : W) : (a, b, c) = (x, y, z) -> x = a /\ y = b /\ z = c.
Proof. by intros [= -> -> ->]. Qed.

Section Fifo.
Context (ring : Z).

Lemma ring_slot_length mm : ring_wf ring mm ->
  length (slice (_desc ring (rhead ring mm)) (_desc ring (rhead ring mm) + 32) mm) = 32%nat.
Proof.
  intros Hwf. pose proof (head_bounds ring mm Hwf) as (B1 & B2 & B3 & B4). unfold slice, blen in *. rewrite length_take, length_drop. lia.
Qed.

Lemma q_desc_ok q head : u64 (q_a0 q) && u64 (q_a1 q) && u64 (q_a2 q) = true -> desc_ok (q_desc q head).
Proof.
  intros Hu. unfold desc_ok, q_desc, u64 in *; cbn. zb. pose proof (Z.mod_pos_bound (q_op q) 65536). pose proof (Z.mod_pos_bound (q_fl q) 65536).
  pose proof (Z.mod_pos_bound head 4294967296). lia.
Qed.

Lemma clear_in_slot q o : in_slot o (clear_stores q o).
Proof.
  unfold clear_stores. destruct (q_clears q); [|constructor]. apply byte_stores_in; [apply bytes_ok_zeros | lia |].
  unfold blen, zeros. rewrite length_replicate. lia.
Qed.

Lemma desc_in_slot o d n : in_slot o (byte_stores o (take n (desc_bytes d))).
Proof.
  apply byte_stores_in; [apply Forall_take, desc_bytes_ok | lia |]. pose proof (length_desc_bytes d) as H. unfold blen in *. rewrite length_take. lia.
Qed.

(** The stores of a call: a descriptor into the slot at the head, and the head. *)
Lemma push_stores_ok q mm : ring_wf ring mm -> rcount ring mm < 64 -> u64 (q_a0 q) && u64 (q_a1 q) && u64 (q_a2 q) = true ->
  p_ok ring (PStore (Some (q_desc q (rhead ring mm))) (push_stores true ring q (rhead ring mm))) mm.
Proof.
  intros Hwf Hc Hu. split; [done|]. split; [by apply q_desc_ok|].
  exists (clear_stores q (_desc ring (rhead ring mm)) ++ byte_stores (_desc ring (rhead ring mm)) (desc_bytes (q_desc q (rhead ring mm)))).
  split; [unfold push_stores, counter_stores; by rewrite <- app_assoc|]. pose proof (length_desc_bytes (q_desc q (rhead ring mm))) as H32. unfold blen in H32.
  split.
  - apply Forall_app. split; [apply clear_in_slot|]. pose proof (desc_in_slot (_desc ring (rhead ring mm)) (q_desc q (rhead ring mm)) 32) as H.
    by rewrite take_ge in H by lia.
  - rewrite fill_app. apply fill_all; [|lia]. apply fill_length; [apply clear_in_slot | by apply ring_slot_length].
Qed.

(** One access of the producer. *)
Lemma p_step_inv p c mm l p' mm' :
  ring_wf ring mm -> p_ok ring p mm -> c_ok ring c mm -> p_step true ring p mm = (l, p', mm') ->
  ring_wf ring mm' /\ p_ok ring p' mm' /\ c_ok ring c mm' /\ contents ring mm ++ sent [l] = contents ring mm' /\ took [l] = [].
Proof.
  intros Hwf Hp Hc Hs. destruct p as [|q|q h|d ws]; cbn [p_step] in Hs.
  - apply triple_inj in Hs as (-> & -> & ->). by rewrite app_nil_r.
  - apply triple_inj in Hs as (-> & -> & ->). by rewrite app_nil_r.
  - cbn in Hp. subst h. fold (rtail ring mm) (rcount ring mm) in Hs. destruct (rcount ring mm >=? 64) eqn:Eg; rewrite Z.geb_leb in Eg; zb.
    { apply triple_inj in Hs as (-> & -> & ->). by rewrite app_nil_r. }
    destruct (u64 (q_a0 q) && u64 (q_a1 q) && u64 (q_a2 q)) eqn:Eu; apply triple_inj in Hs as (-> & -> & ->); cbn [sent took omap list_omap]; rewrite app_nil_r;
      (split; [done|]); (split; [|done]).
    + by apply push_stores_ok.
    + split; [done|]. apply Forall_app. split; [apply clear_in_slot | apply desc_in_slot].
  - (* stores into the slot, and the store of the head *)
    assert (Hslot : forall w p0, in_slot (_desc ring (rhead ring mm)) [w] -> rcount ring mm < 64 ->
      (forall m, spares ring mm m -> m = store w mm -> p_ok ring p0 m) -> mm' = store w mm -> p' = p0 -> l = Tau \/ l = Raised ->
      ring_wf ring mm' /\ p_ok ring p' mm' /\ c_ok ring c mm' /\ contents ring mm ++ sent [l] = contents ring mm' /\ took [l] = []).
    { intros w p0 Hin Hr H0 -> -> Hl. pose proof (slot_store ring w mm Hwf Hr Hin) as S. destruct (spares_queue ring _ _ Hwf S) as [W E].
      split; [done|]. split; [by apply H0|]. split; [by apply (spares_consumer ring c mm)|]. rewrite E. by destruct Hl as [-> | ->]; cbn; rewrite app_nil_r. }
    destruct d as [d|].
    + destruct Hp as (Hr & Hd & pre & -> & Hin & Hf). destruct pre as [|w pre]; cbn [app] in Hs.
      * apply triple_inj in Hs as (-> & -> & ->). rewrite (publish ring d mm Hwf Hf). cbn [sent took omap list_omap].
        split; [by apply put_wf|]. split; [done|]. split; [by apply publish_consumer|]. by rewrite put_contents.
      * apply Forall_cons in Hin as [Hw Hin]. assert (in_slot (_desc ring (rhead ring mm)) [w]) as Hw1 by (by constructor).
        apply (Hslot w (PStore (Some d) (pre ++ [(ring, le_pack 4 ((rhead ring mm + 1) mod 4294967296))]))); try done;
          try (destruct pre; cbn [app] in Hs; apply triple_inj in Hs as (-> & -> & ->); by auto).
        intros m S ->. pose proof (spares_count ring _ _ S) as Hcnt. destruct S as [_ _ Hh _ _]. cbn [p_ok]. rewrite Hcnt, Hh.
        split; [done|]. split; [done|]. exists pre. split; [done|]. split; [done|]. by rewrite slot_fill.
    + destruct Hp as (Hr & Hin). destruct ws as [|w ws].
      { apply triple_inj in Hs as (-> & -> & ->). by rewrite app_nil_r. }
      apply Forall_cons in Hin as [Hw Hin]. assert (in_slot (_desc ring (rhead ring mm)) [w]) as Hw1 by (by constructor).
      destruct ws as [|w2 ws]; apply triple_inj in Hs as (-> & -> & ->).
      * apply (Hslot w PIdle); auto. done.
      * apply (Hslot w (PStore None (w2 :: ws))); auto. intros m S ->. pose proof (spares_count ring _ _ S) as Hcnt. destruct S as [_ _ Hh _ _].
        cbn [p_ok]. by rewrite Hcnt, Hh.
Qed.

Lemma decode_slot mm o : 0 <= o -> o + 32 <= blen mm -> decode (slice o (o + 32) mm) = desc_at mm o.
Proof.
  intros Ho Hb. unfold decode, desc_at. replace (ld_le 2 mm o) with (ld_le 2 mm (o + 0)) by (f_equal; lia).
  rewrite !(ld_in_slice _ _ 32) by lia. reflexivity.
Qed.

Lemma slice_snoc o k (mm : mem) : 0 <= o -> 0 <= k -> o + k < blen mm -> slice o (o + k) mm ++ slice (o + k) (o + k + 1) mm = slice o (o + k + 1) mm.
Proof.
  intros Ho Hk Hb. unfold slice, blen in *. replace (o + k - o) with k by lia. replace (o + k + 1 - (o + k)) with 1 by lia.
  replace (Z.to_nat (o + k + 1 - o)) with (Z.to_nat k + 1)%nat by lia. replace (Z.to_nat (o + k)) with (Z.to_nat o + Z.to_nat k)%nat by lia.
  rewrite <- drop_drop. change (Z.to_nat 1) with 1%nat. apply take_take_drop.
Qed.

(** One access of the consumer. *)
Lemma c_step_inv p c mm l c' mm' :
  ring_wf ring mm -> p_ok ring p mm -> c_ok ring c mm -> c_step true ring c mm = (l, c', mm') ->
  ring_wf ring mm' /\ p_ok ring p mm' /\ c_ok ring c' mm' /\ contents ring mm = took [l] ++ contents ring mm' /\ sent [l] = [].
Proof.
  intros Hwf Hp Hc Hs. pose proof Hwf as [W1 W2 W3 W4]. pose proof (rcount_bound ring mm) as Hb.
  pose proof (rhead_bound ring mm W1) as Hh. pose proof (rtail_bound ring mm W1) as Ht.
  pose proof (desc_off_bounds ring (rtail ring mm)) as Hd. unfold ring_size in *.
  destruct c as [|h|t got|d ws]; cbn [c_step] in Hs.
  - apply triple_inj in Hs as (-> & -> & ->). do 2 (split; [done|]). split; [|done]. exists (rcount ring mm). split; [lia|]. unfold rcount. rewrite Zplus_mod_idemp_r.
    replace (rtail ring mm + (rhead ring mm - rtail ring mm)) with (rhead ring mm) by lia. by rewrite Z.mod_small.
  - fold (rtail ring mm) in Hs. destruct Hc as (n & Hn & ->). destruct (Z.eqb_spec ((rtail ring mm + n) mod 4294967296) (rtail ring mm)) as [E|E].
    + by apply triple_inj in Hs as (-> & -> & ->).
    + apply triple_inj in Hs as (-> & -> & ->). do 2 (split; [done|]). split; [|done]. split; [done|]. split; [|split; [cbn; lia|]].
      * destruct (decide (rcount ring mm = 0)); [|lia]. exfalso. apply E. replace n with 0 by lia. rewrite Z.add_0_r. by apply Z.mod_small.
      * cbn [length]. unfold slice. replace (_desc ring (rtail ring mm) + Z.of_nat 0 - _desc ring (rtail ring mm)) with 0 by lia. done.
  - destruct Hc as (-> & Hpos & Hl & E). set (o := _desc ring (rtail ring mm)) in *.
    assert (Hsn : got ++ slice (o + Z.of_nat (length got)) (o + Z.of_nat (length got) + 1) mm = slice o (o + Z.of_nat (length got) + 1) mm).
    { rewrite E at 1. apply slice_snoc; lia. }
    rewrite Hsn in Hs.
    assert (Hlen : length (slice o (o + Z.of_nat (length got) + 1) mm) = S (length got)).
    { unfold slice, blen in *. rewrite length_take, length_drop. lia. }
    apply triple_inj in Hs as (-> & -> & ->). do 2 (split; [done|]). split; [|done]. rewrite Hlen. destruct (32 <=? S (length got))%nat eqn:E32.
    + apply Nat.leb_le in E32. split; [done|]. split; [|done]. replace (o + Z.of_nat (length got) + 1) with (o + 32) by lia. apply decode_slot; lia.
    + apply Nat.leb_gt in E32. split; [done|]. split; [done|]. rewrite Hlen. split; [done|]. f_equal. fold o. lia.
  - destruct Hc as (Hpos & -> & ->). pose proof (count_nonzero ring mm Hpos) as Hne. apply triple_inj in Hs as (-> & -> & ->).
    change (store _ mm) with (drop_one ring mm). split; [by apply drop_wf|]. split; [by apply drop_producer|]. split; [done|].
    split; [by apply drop_contents | done].
Qed.

Lemma sent_cons l ls : sent (l :: ls) = sent [l] ++ sent ls.
Proof. by destruct l. Qed.
Lemma took_cons l ls : took (l :: ls) = took [l] ++ took ls.
Proof. by destruct l. Qed.

Lemma exec_fifo xs : forall s ls s',
  ring_wf ring (s_mem s) -> p_ok ring (s_prod s) (s_mem s) -> c_ok ring (s_cons s) (s_mem s) -> exec true ring xs s = (ls, s') ->
  ring_wf ring (s_mem s') /\ contents ring (s_mem s) ++ sent ls = took ls ++ contents ring (s_mem s').
Proof.
  induction xs as [|x xs IH]; intros s ls s' Hwf Hp Hc He; cbn [exec] in He.
  { injection He as <- <-. by rewrite app_nil_r. }
  destruct (sched_step true ring x s) as [l s1] eqn:E1. destruct (exec true ring xs s1) as [ls2 s2] eqn:E2. injection He as <- <-.
  assert (ring_wf ring (s_mem s1) /\ p_ok ring (s_prod s1) (s_mem s1) /\ c_ok ring (s_cons s1) (s_mem s1)
    /\ contents ring (s_mem s) ++ sent [l] = took [l] ++ contents ring (s_mem s1)) as (W & P1 & C1 & Q).
  { destruct x as [q| | |o bs]; cbn [sched_step] in E1.
    - injection E1 as <- <-. destruct s as [mm p c]. cbn in *. destruct p; cbn; by rewrite app_nil_r.
    - destruct (p_step true ring (s_prod s) (s_mem s)) as [[l0 p'] mm'] eqn:Es. injection E1 as <- <-.
      destruct (p_step_inv _ _ _ _ _ _ Hwf Hp Hc Es) as (W & P1 & C1 & Q & ->). done.
    - destruct (c_step true ring (s_cons s) (s_mem s)) as [[l0 c'] mm'] eqn:Es. injection E1 as <- <-.
      destruct (c_step_inv _ _ _ _ _ _ Hwf Hp Hc Es) as (W & P1 & C1 & Q & ->). by rewrite app_nil_r.
    - injection E1 as <- <-. cbn [sent took omap list_omap app]. rewrite app_nil_r. destruct (outside ring o bs (s_mem s)) eqn:Eo; [|done]. cbn [s_mem s_prod s_cons].
      destruct (env_spares ring o bs _ Hwf Eo) as [S Hsl]. destruct (spares_queue ring _ _ Hwf S) as [W E].
      split; [done|]. split; [by eapply env_producer|]. split; [by apply (spares_consumer ring _ (s_mem s))|]. done. }
  destruct (IH _ _ _ W P1 C1 E2) as [W2 Q2]. split; [done|]. rewrite sent_cons, took_cons, app_assoc, Q, <- !app_assoc. by rewrite Q2.
Qed.
End Fifo.

(** ** What is sent is what was asked for *)

Definition req_args (q : request) : Z * Z * Z * Z * Z := (q_op q mod 65536, q_fl q mod 65536, q_a0 q, q_a1 q, q_a2 q).
Definition desc_args (d : desc) : Z * Z * Z * Z * Z := (d_op d, d_flags d, d_a0 d, d_a1 d, d_a2 d).
Definition calls (xs : list choice) : list request := omap (fun x => match x with Call q => Some q | _ => None end) xs.
(** The call under way. *)
Definition under_way (p : producer) : list (Z * Z * Z * Z * Z) :=
  match p with PStart q | PHead q _ => [req_args q] | PStore (Some d) _ => [desc_args d] | _ => [] end.

Lemma p_step_args word ring p mm l p' mm' : p_step word ring p mm = (l, p', mm') ->
  map desc_args (sent [l]) ++ under_way p' `sublist_of` under_way p.
Proof.
  destruct p as [|q|q h|d ws]; cbn [p_step]; intros Hs.
  - by apply triple_inj in Hs as (-> & -> & ->).
  - by apply triple_inj in Hs as (-> & -> & ->).
  - destruct (_ >=? _); [apply triple_inj in Hs as (-> & -> & ->); cbn; apply sublist_nil_l|].
    destruct (_ && _); apply triple_inj in Hs as (-> & -> & ->); [done | cbn; apply sublist_nil_l].
  - destruct ws as [|w [|w2 ws]], d as [d|]; apply triple_inj in Hs as (-> & -> & ->); done.
Qed.

Lemma c_step_args word ring c mm l c' mm' : c_step word ring c mm = (l, c', mm') -> sent [l] = [].
Proof.
  destruct c as [|h|t got|d ws]; cbn [c_step]; intros Hs.
  - by apply triple_inj in Hs as (-> & _ & _).
  - destruct (_ =? _); by apply triple_inj in Hs as (-> & _ & _).
  - by apply triple_inj in Hs as (-> & _ & _).
  - destruct ws as [|w [|w2 ws]]; by apply triple_inj in Hs as (-> & _ & _).
Qed.

Lemma exec_args word ring xs : forall s ls s', exec word ring xs s = (ls, s') ->
  map desc_args (sent ls) `sublist_of` under_way (s_prod s) ++ map req_args (calls xs).
Proof.
  induction xs as [|x xs IH]; intros s ls s' He; cbn [exec] in He.
  { injection He as <- <-. apply sublist_nil_l. }
  destruct (sched_step word ring x s) as [l s1] eqn:E1. destruct (exec word ring xs s1) as [ls2 s2] eqn:E2. injection He as <- <-.
  specialize (IH _ _ _ E2). rewrite sent_cons, map_app. destruct x as [q| | |o bs]; cbn [sched_step] in E1.
  - injection E1 as <- <-. cbn [sent omap list_omap map app] in *. change (calls (Call q :: xs)) with (q :: calls xs). cbn [map].
    destruct s as [mm p c]. destruct p as [|q'|q' h|d ws]; cbn [s_prod under_way app] in *; try done;
      (etrans; [exact IH|]); try (apply sublist_skip); try (apply sublist_app; [done|]); by apply sublist_cons.
  - destruct (p_step word ring (s_prod s) (s_mem s)) as [[l0 p'] mm'] eqn:Es. injection E1 as <- <-. cbn [s_prod] in IH.
    etrans; [apply sublist_app; [done | exact IH]|]. rewrite app_assoc. apply sublist_app; [by eapply p_step_args | done].
  - destruct (c_step word ring (s_cons s) (s_mem s)) as [[l0 c'] mm'] eqn:Es. injection E1 as <- <-.
    by rewrite (c_step_args _ _ _ _ _ _ _ Es).
  - injection E1 as <- <-. cbn [sent omap list_omap map app]. by destruct (outside ring o bs (s_mem s)).
Qed.

(** C7. No command and no event is lost, duplicated, reordered, invented or seen half-written, over every interleaving of the
    single accesses of the producer and the consumer of a ring, whatever else is written outside the ring meanwhile, and
    across the wrap-around of the counters, provided accesses take effect in program order and a counter is read and stored
    in one access, that is, the other side never looks at a counter while its bytes are being stored: what was in the ring followed by
    what the producer's calls that returned have appended is what the consumer's calls that returned have taken, followed
    by what is in the ring; and what was appended are arguments of the producer's calls, in their order.  (The accessors of
    the source store a counter byte by byte; see [torn_counter].) *)
Theorem rings_fifo ring mm xs ls s' :
  ring_wf ring mm -> exec true ring xs {| s_mem := mm; s_prod := PIdle; s_cons := CIdle |} = (ls, s') ->
  ring_wf ring (s_mem s') /\ contents ring mm ++ sent ls = took ls ++ contents ring (s_mem s')
  /\ map desc_args (sent ls) `sublist_of` map req_args (calls xs).
Proof.
  intros Hwf He. destruct (exec_fifo ring xs {| s_mem := mm; s_prod := PIdle; s_cons := CIdle |} ls s' Hwf I I He) as [W Q]. split; [done|]. split; [done|]. exact (exec_args _ _ _ _ _ _ He).
Qed.

(** ** An operation on its own *)

Definition stores (ws : list (Z * bytes)) (mm : mem) : mem := fold_left (fun m w => store w m) ws mm.

Lemma split_at o (mm : mem) : 0 <= o <= blen mm -> exists A X, mm = A ++ X /\ Z.of_nat (length A) = o.
Proof.
  intros H. exists (take (Z.to_nat o) mm), (drop (Z.to_nat o) mm). split; [by rewrite take_drop|]. unfold blen in H. rewrite length_take. lia.
Qed.

Lemma write_split o b bs mm : 0 <= o -> o + 1 <= blen mm -> write_at (o + 1) bs (write_at o [b] mm) = write_at o (b :: bs) mm.
Proof.
  intros H1 H2. destruct (split_at o mm ltac:(lia)) as (A & X & -> & L). unfold blen in H2. rewrite length_app in H2.
  replace (o + 1) with (Z.of_nat (length A + 1)) by lia. replace o with (Z.of_nat (length A + 0)) by lia. rewrite !write_app_r. f_equal.
  destruct X as [|x X]; [cbn in H2; lia|]. done.
Qed.

Lemma stores_bytes bs : forall o mm, 0 <= o -> o + blen bs <= blen mm -> stores (byte_stores o bs) mm = write_at o bs mm.
Proof.
  induction bs as [|b bs IH]; intros o mm H1 H2.
  - cbn. unfold write_at. cbn. by rewrite Nat.add_0_r, take_drop.
  - assert (blen (b :: bs) = 1 + blen bs) as Hl by (unfold blen; cbn; lia).
    unfold stores. cbn [byte_stores fold_left]. fold (stores (byte_stores (o + 1) bs) (store (o, [b]) mm)).
    assert (0 <= blen bs) by (unfold blen; lia).
    assert (blen (write_at o [b] mm) = blen mm) as Hb by (apply blen_write; [done | change (blen [b]) with 1; lia]).
    rewrite IH by (unfold store; cbn [fst snd]; lia). unfold store. cbn [fst snd]. apply write_split; lia.
Qed.

Lemma stores_counter word o v mm : 0 <= o -> o + 4 <= blen mm -> stores (counter_stores word o v) mm = write_at o (le_pack 4 v) mm.
Proof. intros H1 H2. destruct word; [done|]. apply stores_bytes; [done|]. by rewrite blen_pack4. Qed.

Lemma write_over o (b1 b2 : bytes) mm : 0 <= o -> o + blen b1 <= blen mm -> length b1 = length b2 -> write_at o b2 (write_at o b1 mm) = write_at o b2 mm.
Proof.
  intros H1 H2 H3. assert (0 <= blen b1) by (unfold blen; lia). destruct (split_at o mm ltac:(lia)) as (A & X & -> & L).
  replace o with (Z.of_nat (length A + 0)) by lia. rewrite !write_app_r. f_equal. unfold write_at. change (Z.to_nat (Z.of_nat 0)) with 0%nat. cbn [Nat.add take app].
  rewrite <- H3, !take_0. cbn [app]. f_equal. apply drop_app_length.
Qed.

Lemma stores_app ws1 ws2 mm : stores (ws1 ++ ws2) mm = stores ws2 (stores ws1 mm).
Proof. apply fold_left_app. Qed.

(** The stores of a call, one after the other, are the two writes of [push]. *)
Lemma push_stores_put word ring q mm : ring_wf ring mm ->
  stores (push_stores word ring q (rhead ring mm)) mm = put ring (q_desc q (rhead ring mm)) mm.
Proof.
  intros Hwf. pose proof (head_bounds ring mm Hwf) as (B1 & B2 & B3 & B4). unfold push_stores. set (o := _desc ring (rhead ring mm)) in *.
  set (d := q_desc q (rhead ring mm)). pose proof (length_desc_bytes d) as Hd.
  assert (Hc : stores (byte_stores o (desc_bytes d)) (stores (clear_stores q o) mm) = write_at o (desc_bytes d) mm).
  { unfold clear_stores. destruct (q_clears q); [|apply stores_bytes; lia].
    assert (blen (zeros 32) = 32) as Hz by done. rewrite (stores_bytes (zeros 32)) by lia.
    rewrite stores_bytes by (rewrite ?blen_write; lia). apply write_over; [lia | lia |]. unfold blen in *. lia. }
  rewrite !stores_app, Hc. unfold put. fold o d. apply stores_counter; [done|]. rewrite blen_write; unfold ring_size in *; lia.
Qed.

Lemma exec_step word ring x xs s l s1 ls s2 :
  sched_step word ring x s = (l, s1) -> exec word ring xs s1 = (ls, s2) -> exec word ring (x :: xs) s = (l :: ls, s2).
Proof. intros E1 E2. cbn [exec]. by rewrite E1, E2. Qed.

Lemma exec_stores word ring d ws : forall mm c, ws <> [] ->
  exists ls, exec word ring (replicate (length ws) P) {| s_mem := mm; s_prod := PStore (Some d) ws; s_cons := c |}
    = (ls, {| s_mem := stores ws mm; s_prod := PIdle; s_cons := c |}) /\ sent ls = [d].
Proof.
  induction ws as [|w ws IH]; intros mm c Hne; [done|]. destruct ws as [|w2 ws].
  - by exists [Sent d].
  - destruct (IH (store w mm) c ltac:(done)) as (ls & E & Hs). exists (Tau :: ls). split; [|done].
    change (replicate (length (w :: w2 :: ws)) P) with (P :: replicate (length (w2 :: ws)) P). by eapply exec_step; [|exact E].
Qed.

(** A call that finds room and is not interrupted. *)
Lemma call_alone word ring q mm c : ring_wf ring mm -> rcount ring mm < 64 -> u64 (q_a0 q) && u64 (q_a1 q) && u64 (q_a2 q) = true ->
  exists n ls, exec word ring (Call q :: replicate n P) {| s_mem := mm; s_prod := PIdle; s_cons := c |}
    = (ls, {| s_mem := put ring (q_desc q (rhead ring mm)) mm; s_prod := PIdle; s_cons := c |}) /\ sent ls = [q_desc q (rhead ring mm)].
Proof.
  intros Hwf Hc Hu. set (h := rhead ring mm). set (ws := push_stores word ring q h).
  destruct (exec_stores word ring (q_desc q h) ws mm c) as (ls & E & Hs).
  { unfold ws, push_stores, counter_stores. intros H. apply app_eq_nil in H as [_ H]. apply app_eq_nil in H as [_ H]. by destruct word. }
  exists (2 + length ws)%nat, (Tau :: Tau :: Tau :: ls). split; [|done].
  assert (Ep : p_step word ring (PHead q h) mm = (Tau, PStore (Some (q_desc q h)) ws, mm)).
  { cbn [p_step]. fold (rtail ring mm). unfold h. fold (rcount ring mm). rewrite Hu.
    by replace (rcount ring mm >=? 64) with false by (rewrite Z.geb_leb; symmetry; apply Z.leb_gt; lia). }
  assert (Est : stores ws mm = put ring (q_desc q h) mm) by exact (push_stores_put word ring q mm Hwf). rewrite Est in E.
  eapply exec_step; [reflexivity|]. cbn [replicate Nat.add s_prod s_mem s_cons]. eapply exec_step; [reflexivity|].
  eapply exec_step; [|exact E]. cbn [sched_step s_prod s_mem s_cons]. change (ld_le 4 mm ring) with h. by rewrite Ep.
Qed.

(** A call of [push] that nothing interrupts is [push]: the same region after it, and the descriptor it queued. *)
Lemma push_alone word mm op a0 a1 a2 fl mm' c :
  let q := {| q_op := op; q_fl := fl; q_a0 := a0; q_a1 := a1; q_a2 := a2; q_clears := true |} in
  ring_wf OFF_CMD_RING mm -> push mm op a0 a1 a2 fl = Ok (true, mm') ->
  exists n ls, exec word OFF_CMD_RING (Call q :: replicate n P) {| s_mem := mm; s_prod := PIdle; s_cons := c |}
    = (ls, {| s_mem := mm'; s_prod := PIdle; s_cons := c |}) /\ sent ls = [q_desc q (rhead OFF_CMD_RING mm)].
Proof.
  intros q Hwf Hp. pose proof (rhead_bound OFF_CMD_RING mm (wf_bytes _ _ Hwf)) as Hb.
  destruct (u64 a0 && u64 a1 && u64 a2) eqn:Hu.
  2: { unfold push, _ring_head, _ring_tail in Hp. destruct Hwf as [W1 W2 W3 W4]. unfold ring_size in *.
       rewrite !unpack_from_ok in Hp by lia. cbn [mbind result_bind] in Hp. case_match; [done|]. rewrite Hu in Hp. discriminate Hp. }
  rewrite push_eq in Hp by done. destruct (rcount OFF_CMD_RING mm >=? 64) eqn:Ec; [done|]. injection Hp as Hp. rewrite Z.geb_leb in Ec. apply Z.leb_gt in Ec.
  destruct (call_alone word OFF_CMD_RING q mm c Hwf ltac:(lia) Hu) as (n & ls & E & Hs). exists n, ls. split; [|done]. rewrite E, <- Hp.
  unfold q_desc, q. cbn [q_op q_fl q_a0 q_a1 q_a2]. by rewrite (Z.mod_small (rhead OFF_CMD_RING mm)).
Qed.

(** The same of the dataplane's [ffn_dp_ring_push], which does not clear the slot first. *)
Lemma emit_alone word ring mm op a0 a1 a2 mm' c :
  let q := {| q_op := op; q_fl := 0; q_a0 := a0; q_a1 := a1; q_a2 := a2; q_clears := false |} in
  ring_wf ring mm -> 0 <= op < 65536 -> u64 a0 && u64 a1 && u64 a2 = true -> ffn_dp_ring_push ring op a0 a1 a2 mm = (true, mm') ->
  exists n ls, exec word ring (Call q :: replicate n P) {| s_mem := mm; s_prod := PIdle; s_cons := c |}
    = (ls, {| s_mem := mm'; s_prod := PIdle; s_cons := c |}) /\ sent ls = [q_desc q (rhead ring mm)].
Proof.
  intros q Hwf Ho Hu Hp. pose proof (rhead_bound ring mm (wf_bytes _ _ Hwf)) as Hb. unfold ffn_dp_ring_push in Hp.
  fold (rhead ring mm) (rtail ring mm) (rcount ring mm) in Hp. destruct (rcount ring mm >=? 64) eqn:Ec; [done|]. injection Hp as Hp.
  rewrite Z.geb_leb in Ec. apply Z.leb_gt in Ec. destruct (call_alone word ring q mm c Hwf ltac:(lia) Hu) as (n & ls & E & Hs). exists n, ls. split; [|done].
  rewrite E, <- Hp. unfold q_desc, q. cbn [q_op q_fl q_a0 q_a1 q_a2]. rewrite (Z.mod_small (rhead ring mm)), (Z.mod_small op) by done. done.
Qed.

(** The reads of the descriptor. *)
Lemma exec_reads word ring t k : forall got mm p, (length got + k = 31)%nat -> 0 <= _desc ring t -> _desc ring t + 32 <= blen mm ->
  got = slice (_desc ring t) (_desc ring t + Z.of_nat (length got)) mm ->
  exists ls, exec word ring (replicate (S k) C) {| s_mem := mm; s_prod := p; s_cons := CRead t got |}
    = (ls, {| s_mem := mm; s_prod := p; s_cons := CStore (desc_at mm (_desc ring t)) (counter_stores word (ring + 4) ((t + 1) mod 4294967296)) |})
    /\ took ls = [].
Proof.
  induction k as [|k IH]; intros got mm p Hk H1 H2 E; set (o := _desc ring t) in *;
    assert (Hsn : got ++ slice (o + Z.of_nat (length got)) (o + Z.of_nat (length got) + 1) mm = slice o (o + Z.of_nat (length got) + 1) mm)
      by (rewrite E at 1; apply slice_snoc; lia);
    assert (Hlen : length (slice o (o + Z.of_nat (length got) + 1) mm) = S (length got)) by (unfold slice, blen in *; rewrite length_take, length_drop; lia).
  - exists [Tau]. split; [|done]. eapply exec_step; [|reflexivity]. cbn [sched_step c_step s_cons s_mem s_prod]. fold o.
    rewrite Hsn, Hlen. replace (32 <=? S (length got))%nat with true by (symmetry; apply Nat.leb_le; lia).
    replace (o + Z.of_nat (length got) + 1) with (o + 32) by lia. by rewrite decode_slot by lia.
  - destruct (IH (slice o (o + Z.of_nat (length got) + 1) mm) mm p) as (ls & El & Ht); [lia | done | done | fold o; rewrite Hlen; f_equal; lia |].
    exists (Tau :: ls). split; [|done]. change (replicate (S (S k)) C) with (C :: replicate (S k) C). eapply exec_step; [|exact El].
    cbn [sched_step c_step s_cons s_mem s_prod]. fold o. rewrite Hsn, Hlen.
    by replace (32 <=? S (length got))%nat with false by (symmetry; apply Nat.leb_gt; lia).
Qed.

Lemma exec_tail_stores word ring d ws : forall mm p, ws <> [] ->
  exists ls, exec word ring (replicate (length ws) C) {| s_mem := mm; s_prod := p; s_cons := CStore d ws |}
    = (ls, {| s_mem := stores ws mm; s_prod := p; s_cons := CIdle |}) /\ took ls = [d].
Proof.
  induction ws as [|w ws IH]; intros mm p Hne; [done|]. destruct ws as [|w2 ws].
  - by exists [Took d].
  - destruct (IH (store w mm) p ltac:(done)) as (ls & E & Hs). exists (Tau :: ls). split; [|done].
    change (replicate (length (w :: w2 :: ws)) C) with (C :: replicate (length (w2 :: ws)) C). by eapply exec_step; [|exact E].
Qed.

Lemma exec_trans word ring xs ys s ls s1 ls2 s2 : exec word ring xs s = (ls, s1) -> exec word ring ys s1 = (ls2, s2) ->
  exec word ring (xs ++ ys) s = (ls ++ ls2, s2).
Proof.
  revert s ls. induction xs as [|x xs IH]; intros s ls E1 E2; cbn [exec app] in *; [by injection E1 as <- ->|].
  destruct (sched_step word ring x s) as [l s0]. destruct (exec word ring xs s0) as [ls0 s0'] eqn:E. injection E1 as <- <-.
  by rewrite (IH _ _ E E2).
Qed.

Lemma took_app l1 l2 : took (l1 ++ l2) = took l1 ++ took l2.
Proof. apply omap_app. Qed.

(** A call that takes a descriptor and is not interrupted is [ffn_dp_ring_pop] (and [pop_event], which is the same
    function): the same region after it, and the same descriptor. *)
Lemma pop_alone word ring mm d mm' p : ring_wf ring mm -> ffn_dp_ring_pop ring mm = (Some d, mm') ->
  exists n ls, exec word ring (replicate n C) {| s_mem := mm; s_prod := p; s_cons := CIdle |}
    = (ls, {| s_mem := mm'; s_prod := p; s_cons := CIdle |}) /\ took ls = [d].
Proof.
  intros [W1 W2 W3 W4] Hp. unfold ffn_dp_ring_pop in Hp. set (t := ld_le 4 mm (ring + 4)) in *.
  destruct (ld_le 4 mm ring =? t) eqn:Eq; [done|]. injection Hp as Hd Hm. pose proof (desc_off_bounds ring t) as Hb. unfold ring_size in *.
  destruct (exec_reads word ring t 31 [] mm p) as (l1 & E1 & T1); [done | lia | lia | |].
  { cbn [length]. unfold slice. by replace (_desc ring t + Z.of_nat 0 - _desc ring t) with 0 by lia. }
  set (ws := counter_stores word (ring + 4) ((t + 1) mod 4294967296)) in *.
  destruct (exec_tail_stores word ring (desc_at mm (_desc ring t)) ws mm p) as (l2 & E2 & T2); [by unfold ws, counter_stores; destruct word|].
  assert (Est : stores ws mm = mm') by (rewrite <- Hm; apply stores_counter; lia). rewrite Est in E2.
  pose proof (exec_trans _ _ _ _ _ _ _ _ _ E1 E2) as E. rewrite <- replicate_add in E.
  exists (2 + (32 + length ws))%nat, (Tau :: Tau :: l1 ++ l2). split.
  - change (replicate (2 + (32 + length ws)) C) with (C :: C :: replicate (32 + length ws) C).
    eapply exec_step; [reflexivity|]. eapply exec_step; [|exact E]. cbn [sched_step c_step s_cons s_mem s_prod]. fold t. by rewrite Eq.
  - change (took (Tau :: Tau :: l1 ++ l2)) with (took (l1 ++ l2)). by rewrite took_app, T1, T2, Hd.
Qed.

(** ** Witnesses *)

Definition ping_call (token : Z) : request := {| q_op := CMD_PING; q_fl := 0; q_a0 := token; q_a1 := 0; q_a2 := 0; q_clears := true |}.
Definition at_rest (mm : mem) : st := {| s_mem := mm; s_prod := PIdle; s_cons := CIdle |}.

(** Two commands and the consumer in between: it starts while the first descriptor is being written (and finds nothing),
    and reads the first while the second is being written; the counters wrap around. *)
Definition interleaved : list choice :=
  [Call (ping_call 7)] ++ replicate 30 P ++ [C; C] ++ [Env 0 [70]] ++ replicate 37 P ++ [Call (ping_call 8)] ++ replicate 40 P ++ replicate 20 C
  ++ replicate 27 P ++ replicate 20 C.

Lemma rings_fifo_witness :
  let r := exec true OFF_CMD_RING interleaved (at_rest (sample_region 4294967295 4294967295)) in
  map d_a0 (sent r.1) = [7; 8] /\ map d_a0 (took r.1) = [7] /\ map d_a0 (contents OFF_CMD_RING (s_mem r.2)) = [8]
  /\ contents OFF_CMD_RING (sample_region 4294967295 4294967295) ++ sent r.1 = took r.1 ++ contents OFF_CMD_RING (s_mem r.2).
Proof.
  split; [vm_compute; reflexivity|]. split; [vm_compute; reflexivity|]. split; [vm_compute; reflexivity|].
  refine (proj1 (proj2 (rings_fifo OFF_CMD_RING (sample_region 4294967295 4294967295) interleaved _ _ _ (surjective_pairing _)))).
  apply sample_wf; [split; discriminate | lia | lia].
Defined.

(** With counters stored byte by byte, as [st_le32] does: the head moves from 255 to 256 and the consumer runs between the
    first and the second byte of it. *)
Definition torn : list choice :=
  [Call (ping_call 7)] ++ replicate 67 P ++ replicate 76 C ++ replicate 3 P.

(** A ring with one producer and one consumer, empty, both counters at 255.  One command is sent; the consumer takes two: the
    command, and after it a descriptor nobody sent, which is whatever the next slot held.  Afterwards the tail is ahead of
    the head, and for the producer the ring is full. *)
Theorem torn_counter :
  let r := exec false OFF_CMD_RING torn (at_rest (sample_region 255 255)) in
  contents OFF_CMD_RING (sample_region 255 255) = [] /\ map d_op (sent r.1) = [CMD_PING] /\ map d_op (took r.1) = [CMD_PING; 0]
  /\ s_prod r.2 = PIdle /\ s_cons r.2 = CIdle /\ rcount OFF_CMD_RING (s_mem r.2) = 4294967295
  /\ push (s_mem r.2) CMD_PING 9 0 0 0 = Ok (false, s_mem r.2).
Proof. vm_compute. repeat split; reflexivity. Qed.
