(* ===== verification/Checksum.v ===== *)
(** * The Internet checksum

    The one's-complement sum the packet builders share: [words_of] reads a
    byte string as big-endian 16-bit words, [fold16] is the end-around-carry loop.
    The three implementations of the repository (opt/ffn_ipv6_translation.py,
    opt/ffn_dhcp_server.py, opt/ffn_route_probe.py) are [checksum], [dhcp_checksum]
    and [probe_checksum]; they are the same function, and a field filled with the
    checksum of the rest makes the whole verify. *)

From S2P Require Import Prelude.

(** [struct.unpack('!%dH' % (len(b) // 2), b)] on an even number of bytes. *)
Fixpoint words_of (b : bytes) : list Z :=
  match b with
  | x :: y :: t => 256 * x + y :: words_of t
  | _ => []
  end.

Definition sum (l : list Z) : Z := fold_right Z.add 0 l.

(** [while total >> 16: total = (total & 65535) + (total >> 16)]; every round at
    least halves what is above the low word, so [fold_fuel] rounds are enough. *)
Fixpoint fold16_loop (fuel : nat) (total : Z) : Z :=
  match fuel with
  | O => total
  | S n => if Z.shiftr total 16 =? 0 then total
           else fold16_loop n (Z.land total 65535 + Z.shiftr total 16)
  end.
Definition fold_fuel (total : Z) : nat := Z.to_nat (Z.log2_up total).
Definition fold16 (total : Z) : Z := fold16_loop (fold_fuel total) total.

Definition pad_even (b : bytes) : bytes := b ++ zeros (length b mod 2).

(** opt/ffn_ipv6_translation.py: [checksum]. *)
Definition checksum (raw : bytes) : Z :=
  let data := pad_even raw in
  let total := sum (words_of data) in
  Z.lxor (fold16 total) 65535.

(** opt/ffn_dhcp_server.py: [checksum]. *)
Definition dhcp_checksum (data : bytes) : Z :=
  let data := if (length data mod 2 =? 0)%nat then data else data ++ [0] in
  let total := sum (words_of data) in
  Z.land (Z.lnot (fold16 total)) 65535.

(** opt/ffn_route_probe.py: [checksum]. *)
Definition probe_checksum (data : bytes) : Z :=
  let data := if (length data mod 2 =? 0)%nat then data else data ++ [0] in
  let value := sum (words_of data) in
  Z.land (Z.lnot (fold16 value)) 65535.

(** ** Termination and meaning of the folding loop *)

Lemma shiftr16 t : Z.shiftr t 16 = t / 65536.
Proof. rewrite Z.shiftr_div_pow2 by lia. reflexivity. Qed.

Lemma fold16_loop_spec n t :
  0 <= t <= 2 ^ Z.of_nat n ->
  let r := fold16_loop n t in
  0 <= r < 65536 /\ r mod 65535 = t mod 65535 /\ (0 < t -> 0 < r).
Proof.
  revert t; induction n as [|n IH]; intros t Ht; cbn [fold16_loop].
  - change (2 ^ Z.of_nat 0) with 1 in Ht. lia.
  - rewrite shiftr16, land_ffff. pose proof (Z.div_mod t 65536 ltac:(lia)) as Hd.
    pose proof (Z.mod_pos_bound t 65536 ltac:(lia)) as Hm.
    destruct (t / 65536 =? 0) eqn:E; zb; [rewrite E in Hd; lia|].
    assert (0 <= t / 65536) by (apply Z.div_pos; lia).
    rewrite Nat2Z.inj_succ, Z.pow_succ_r in Ht by lia.
    set (q := t / 65536) in *. set (m := t mod 65536) in *.
    destruct (IH (m + q) ltac:(lia)) as (H1 & H2 & H3). split_and!; [lia | lia | |].
    + rewrite H2. rewrite Hd. replace (65536 * q + m) with ((m + q) + q * 65535) by lia.
      by rewrite Z.mod_add.
    + intros _. apply H3. lia.
Qed.

Lemma fold16_spec t :
  0 <= t -> 0 <= fold16 t < 65536 /\ fold16 t mod 65535 = t mod 65535 /\ (0 < t -> 0 < fold16 t).
Proof.
  intros Ht. apply fold16_loop_spec. split; [done|]. unfold fold_fuel.
  rewrite Z2Nat.id by apply Z.log2_up_nonneg.
  destruct (Z.eq_dec t 0) as [->|Hn]; [apply Z.pow_nonneg; lia|].
  destruct (Z.eq_dec t 1) as [->|Hn1]; [done|]. apply Z.log2_up_spec; lia.
Qed.

(** ** Sums of words *)

(** The sum of the 16-bit words of a byte string, an odd last byte padded. *)
Fixpoint wsum (b : bytes) : Z :=
  match b with
  | x :: y :: t => 256 * x + y + wsum t
  | [x] => 256 * x
  | [] => 0
  end.

Lemma mod2_SS n : (S (S n) mod 2 = n mod 2)%nat.
Proof. replace (S (S n)) with (n + 1 * 2)%nat by lia. apply Nat.Div0.mod_add. Qed.

(** Induction two bytes at a time. *)
Lemma bytes_ind2 (P : bytes -> Prop) :
  P [] -> (forall x, P [x]) -> (forall x y t, P t -> P (x :: y :: t)) -> forall b, P b.
Proof.
  intros H0 H1 H2 b. enough (P b /\ forall x, P (x :: b)) as [? _] by done.
  induction b as [|y t [IH1 IH2]]; [auto|]. split; [apply IH2|]. intros x. by apply H2.
Qed.

Lemma wsum_app a b : (length a mod 2 = 0)%nat -> wsum (a ++ b) = wsum a + wsum b.
Proof.
  revert a. apply (bytes_ind2 (fun a => (length a mod 2 = 0)%nat -> wsum (a ++ b) = wsum a + wsum b)).
  - done.
  - done.
  - intros x y t IH H. cbn [length app wsum] in *. rewrite mod2_SS in H. rewrite IH; [lia | done].
Qed.

Lemma sum_words_pad b : sum (words_of (pad_even b)) = wsum b.
Proof.
  apply (bytes_ind2 (fun b => sum (words_of (pad_even b)) = wsum b)); [done | intros x; cbn; lia |].
  intros x y t IH. unfold pad_even in *. cbn [length app words_of sum fold_right wsum].
  rewrite mod2_SS. unfold sum in IH. lia.
Qed.

Lemma wsum_nonneg b : bytes_ok b -> 0 <= wsum b.
Proof.
  apply (bytes_ind2 (fun b => bytes_ok b -> 0 <= wsum b)).
  - done.
  - intros x H. apply Forall_cons in H as [? _]. unfold is_byte in *. cbn. lia.
  - intros x y t IH H. apply Forall_cons in H as [Hx H]. apply Forall_cons in H as [Hy H].
    cbn [wsum]. specialize (IH H). unfold is_byte in *. lia.
Qed.

Lemma lxor_ffff v : 0 <= v < 65536 -> Z.lxor v 65535 = 65535 - v.
Proof.
  intros Hv. assert (Z.lxor v 65535 + v = 65535); [|lia].
  assert (Z.land (Z.lxor v 65535) v = 0) as Hd.
  { apply Z.bits_inj'. intros n Hn. rewrite Z.land_spec, Z.lxor_spec, Z.bits_0. change 65535 with (Z.ones 16).
    rewrite Z.testbit_ones_nonneg by lia. destruct (Z.ltb_spec n 16); [by destruct (Z.testbit v n)|].
    replace (Z.testbit v n) with false; [done|]. symmetry.
    rewrite <- (Z.mod_small v (2 ^ 16)) by lia. apply Z.mod_pow2_bits_high; lia. }
  rewrite Z.add_nocarry_lxor by done.
  rewrite Z.lxor_assoc, (Z.lxor_comm 65535), <- Z.lxor_assoc, Z.lxor_nilpotent. apply Z.lxor_0_l.
Qed.

Lemma checksum_eq b : bytes_ok b -> checksum b = 65535 - fold16 (wsum b).
Proof.
  intros Hb. unfold checksum. rewrite sum_words_pad.
  apply lxor_ffff, fold16_spec, wsum_nonneg, Hb.
Qed.

Lemma checksum_bound b : bytes_ok b -> 0 <= checksum b < 65536.
Proof. intros Hb. rewrite checksum_eq by done. pose proof (fold16_spec _ (wsum_nonneg _ Hb)). lia. Qed.

Lemma bytes_ok_snoc0 b : bytes_ok b -> bytes_ok (b ++ [0]).
Proof. intros H. apply bytes_ok_app; split; [done|]. repeat constructor; unfold is_byte; lia. Qed.

Lemma dhcp_pad_even data :
  (if (length data mod 2 =? 0)%nat then data else data ++ [0]) = pad_even data.
Proof.
  unfold pad_even. pose proof (Nat.mod_upper_bound (length data) 2 ltac:(lia)).
  destruct (length data mod 2)%nat as [|[|k]] eqn:E; cbn; [by rewrite app_nil_r | done | lia].
Qed.

Lemma dhcp_checksum_eq b : bytes_ok b -> dhcp_checksum b = checksum b.
Proof.
  intros Hb. unfold dhcp_checksum. rewrite dhcp_pad_even. unfold checksum.
  rewrite sum_words_pad. cut (Z.land (Z.lnot (fold16 (wsum b))) 65535 = Z.lxor (fold16 (wsum b)) 65535); [done|].
  pose proof (fold16_spec _ (wsum_nonneg _ Hb)) as [Hf _].
  rewrite lxor_ffff, land_ffff by done. unfold Z.lnot.
  rewrite <- (Z.mod_add _ 1) by lia. rewrite Z.mod_small; lia.
Qed.

(**  The three Internet-checksum routines of the repository are one
    function, and their folding loops end. *)
Theorem checksum_equiv b :
  bytes_ok b -> dhcp_checksum b = checksum b /\ probe_checksum b = checksum b.
Proof. intros Hb. split; exact (dhcp_checksum_eq b Hb). Qed.

Lemma checksum_equiv_witness :
  dhcp_checksum [69; 0; 255] = checksum [69; 0; 255] /\ probe_checksum [69; 0; 255] = checksum [69; 0; 255].
Proof. apply checksum_equiv. repeat constructor; unfold is_byte; lia. Defined.

(** ** Filling and verifying a checksum field *)

(** [c] is a valid value of a checksum field when the rest sums to [s]. *)
Definition completes (s c : Z) : Prop := 0 < s + c /\ (s + c) mod 65535 = 0.

Lemma fold16_multiple t : 0 < t -> t mod 65535 = 0 -> fold16 t = 65535.
Proof.
  intros Ht Hm. destruct (fold16_spec t ltac:(lia)) as (Hf & He & Hp). specialize (Hp Ht).
  rewrite Hm in He. apply Z.mod_divide in He as [k Hk]; lia.
Qed.

Lemma checksum_verifies b : bytes_ok b -> 0 < wsum b -> wsum b mod 65535 = 0 -> checksum b = 0.
Proof. intros Hb Hp Hm. rewrite checksum_eq, fold16_multiple by done. lia. Qed.

Lemma checksum_completes b : bytes_ok b -> completes (wsum b) (checksum b).
Proof.
  intros Hb. rewrite checksum_eq by done. pose proof (wsum_nonneg _ Hb) as Hs.
  destruct (fold16_spec _ Hs) as (Hf & He & Hp). split.
  - destruct (Z.eq_dec (wsum b) 0) as [E|E]; [rewrite E; reflexivity | lia].
  - rewrite <- Zplus_mod_idemp_l, <- He, Zplus_mod_idemp_l.
    replace (fold16 (wsum b) + (65535 - fold16 (wsum b))) with 65535 by lia. reflexivity.
Qed.

(** The transmitted form of a UDP checksum: zero is sent as all ones. *)
Lemma completes_udp s c : completes s c -> 0 <= s -> completes s (if c =? 0 then 65535 else c).
Proof.
  intros [H1 H2] Hs. destruct (c =? 0) eqn:E; [|done]. zb. subst c. split; [lia|].
  rewrite Z.add_0_r in H2. replace (s + 65535) with (s + 1 * 65535) by lia. by rewrite Z.mod_add.
Qed.

Lemma wsum_be_pack2 v : 0 <= v < 65536 -> wsum (be_pack 2 v) = v.
Proof.
  intros Hv. change (be_pack 2 v) with [(v / 256) mod 256; v mod 256]. cbn [wsum].
  rewrite (Z.mod_small (v / 256)) by (split; [apply Z.div_pos | apply Z.div_lt_upper_bound]; lia).
  pose proof (Z.div_mod v 256). lia.
Qed.

(** Filling an even-aligned zero field with a completing value makes the whole
    verify. *)
Lemma fill_verifies pre post c :
  (length pre mod 2 = 0)%nat -> bytes_ok pre -> bytes_ok post -> 0 <= c < 65536 ->
  completes (wsum (pre ++ [0; 0] ++ post)) c ->
  checksum (pre ++ be_pack 2 c ++ post) = 0.
Proof.
  intros Hl Hp Hq Hc [H1 H2].
  assert (wsum (pre ++ be_pack 2 c ++ post) = wsum (pre ++ [0; 0] ++ post) + c) as Hw.
  { rewrite !wsum_app by done. rewrite wsum_be_pack2 by done. cbn [app wsum]. lia. }
  apply checksum_verifies; rewrite ?Hw; [|done|done].
  rewrite !bytes_ok_app. auto with ffn.
Qed.
