(* ===== verification/Ipv6Translation.v ===== *)
(** * NAT64 and NPTv6 (opt/ffn_ipv6_translation.py)

    Address synthesis and extraction (RFC 6052), prefix translation (RFC 6296)
    and the two packet rewriters.  An address is its integer value; a network is
    its address and prefix length; where the source takes the text of a network
    the argument is what [ipaddress] makes of that text, [None] when it refuses
    it.  [is_global] is the address registry of [ipaddress], whose contents depend
    on the interpreter's release, and stays a parameter.

    Main results: embedding an IPv4 address and extracting it gives the address
    back under every admissible prefix; prefix translation is checksum neutral and
    the reverse translation undoes it; a packet [nat64_packet] produces is itself
    well formed, with verifying header and transport checksums. *)

From Stdlib Require Import String.
From S2P Require Import Prelude Checksum.
Open Scope Z_scope.

Inductive exn : Type := ValueError (msg : string).

(** ** Networks *)

Record net6 : Type := { n_addr : Z; n_len : Z }.

Definition host_bits (n : net6) : Z := 128 - n_len n.
Definition netmask (n : net6) : Z := Z.shiftl (Z.ones (n_len n)) (host_bits n).
Definition broadcast (n : net6) : Z := n_addr n + (2 ^ host_bits n - 1).

(** [address in network]. *)
Definition in_net (a : Z) (n : net6) : bool := Z.land a (netmask n) =? n_addr n.

Definition overlaps (a b : net6) : bool :=
  in_net (n_addr b) a || in_net (broadcast b) a || in_net (n_addr a) b || in_net (broadcast a) b.

Definition reserved_nets : list net6 :=
  [ {| n_addr := Z.shiftl 65280 112; n_len := 8 |};       (* ff00::/8 *)
    {| n_addr := Z.shiftl 65152 112; n_len := 10 |};      (* fe80::/10 *)
    {| n_addr := 0; n_len := 128 |};                      (* ::/128 *)
    {| n_addr := 1; n_len := 128 |};                      (* ::1/128 *)
    {| n_addr := Z.shiftl 65535 32; n_len := 96 |} ].     (* ::ffff:0:0/96 *)

(** [prefix]: [IPv6Network(value, strict=True)] refuses host bits. *)
Definition prefix (value : option net6) (kind : string) : result exn net6 :=
  let refused := Err (ValueError (String.append kind " requires a unicast IPv6 network prefix without host bits")) in
  match value with
  | None => refused
  | Some network =>
      if negb (Z.land (n_addr network) (netmask network) =? n_addr network) then refused
      else if (n_len network =? 0) || existsb (overlaps network) reserved_nets then refused
      else Ok network
  end.

(** ** NAT64 addresses *)

Definition NAT64_LENGTHS : list Z := [32; 40; 48; 56; 64; 96].

Definition packed6 (a : Z) : bytes := be_pack 16 a.
Definition packed4 (a : Z) : bytes := be_pack 4 a.

Definition nat64_prefix (value : option net6) : result exn net6 :=
  network ← prefix value "NAT64";
  if negb (existsb (Z.eqb (n_len network)) NAT64_LENGTHS) then
    Err (ValueError "NAT64 prefix length must be /32, /40, /48, /56, /64 or /96")
  else if (n_len network =? 96) && negb (byte_at (packed6 (n_addr network)) 8 =? 0) then
    Err (ValueError "NAT64 reserved u octet must be zero")
  else Ok network.

(** The byte positions that hold the IPv4 address. *)
Definition positions (network : net6) : list Z :=
  let start := n_len network / 8 in
  if start =? 12 then [12; 13; 14; 15]
  else take 4 (filter (fun i => i <> 8) (seqZ start (16 - start))).

Definition set_bytes (raw : bytes) (l : list (Z * Z)) : bytes :=
  fold_left (fun raw '(i, b) => <[Z.to_nat i := b]> raw) l raw.

Definition nat64_embed (v4 : Z) (network : option net6) : result exn Z :=
  network ← nat64_prefix network;
  Ok (be_unpack (set_bytes (packed6 (n_addr network)) (zip (positions network) (packed4 v4)))).

Definition nat64_extract (address : Z) (network : option net6) : result exn Z :=
  network ← nat64_prefix network;
  let raw := packed6 address in
  if negb (in_net address network) then Err (ValueError "Address is outside the NAT64 prefix")
  else if negb (byte_at raw 8 =? 0) then Err (ValueError "NAT64 reserved u octet must be zero")
  else Ok (be_unpack (map (byte_at raw) (positions network))).

Definition is_multicast4 (a : Z) : bool := Z.shiftr a 28 =? 14.
Definition is_unspecified4 (a : Z) : bool := a =? 0.
Definition is_loopback4 (a : Z) : bool := Z.shiftr a 24 =? 127.
Definition is_link_local4 (a : Z) : bool := Z.shiftr a 16 =? 43518.

Definition well_known : net6 := {| n_addr := Z.shiftl 6619035 96; n_len := 96 |}.   (* 64:ff9b::/96 *)
Definition net6_eqb (a b : net6) : bool := (n_addr a =? n_addr b) && (n_len a =? n_len b).

Definition nat64_destination (is_global : Z -> bool) (value : Z) (network : option net6) : result exn Z :=
  address ← nat64_extract value network;
  if is_multicast4 address || is_unspecified4 address || is_loopback4 address || is_link_local4 address then
    Err (ValueError "NAT64 destination must be routable unicast")
  else
    n ← nat64_prefix network;
    if net6_eqb n well_known && negb (is_global address) then
      Err (ValueError "The NAT64 well-known prefix cannot translate non-global IPv4 destinations")
    else Ok address.

(** ** NPTv6 addresses *)

Definition nptv6_prefixes (internal external : option net6) : result exn (net6 * net6) :=
  a ← prefix internal "NPTv6";
  b ← prefix external "NPTv6";
  let length := Z.max (n_len a) (n_len b) in
  if length >? 64 then Err (ValueError "NPTv6 prefixes must be /64 or shorter") else
  let a := {| n_addr := n_addr a; n_len := length |} in
  let b := {| n_addr := n_addr b; n_len := length |} in
  if overlaps a b then Err (ValueError "NPTv6 internal and external prefixes must not overlap")
  else Ok (a, b).

(** [struct.pack('!8H', *words)]. *)
Definition word_bytes (ws : list Z) : bytes := List.concat (map (be_pack 2) ws).

(** [next((i for i in range(4, 8) if words[i] != 65535), None)]. *)
Definition nptv6_index (words : list Z) : option nat :=
  find (fun i => negb (nth i words 0 =? 65535)) [4; 5; 6; 7]%nat.

Definition nptv6_address (address : Z) (internal external : option net6) (reverse : bool) : result exn Z :=
  '(a, b) ← nptv6_prefixes internal external;
  let '(a, b) := if reverse : bool then (b, a) else (a, b) in
  if negb (in_net address a) then Err (ValueError "Address is outside the effective NPTv6 prefix") else
  let words := words_of (packed6 address) in
  index ← (if n_len a <=? 48 then
             if nth 3 words 0 =? 65535 then Err (ValueError "NPTv6 subnet 0xffff has no reversible mapping")
             else Ok 3%nat
           else match nptv6_index words with
                | None => Err (ValueError "NPTv6 all-ones interface identifier has no mapping")
                | Some i => Ok i
                end);
  let adjustment := (sum (words_of (packed6 (n_addr a))) - sum (words_of (packed6 (n_addr b)))) mod 65535 in
  let words := <[index := (nth index words 0 + adjustment) mod 65535]> words in
  let mapped := be_unpack (word_bytes words) in
  let hostmask := Z.shiftl 1 (host_bits a) - 1 in
  Ok (Z.lor (n_addr b) (Z.land mapped hostmask)).

Inductive direction : Type := outbound | inbound | hairpin.

(** [raw[offset:offset+n] = bs] for [n] bytes. *)
Definition splice (offset : Z) (bs raw : bytes) : bytes :=
  take (Z.to_nat offset) raw ++ bs ++ drop (Z.to_nat offset + length bs) raw.

(** [None] for a direction that is none of the three words. *)
Definition nptv6_packet (packet : bytes) (internal external : option net6) (dir : option direction)
  : result exn bytes :=
  match dir with
  | None => Err (ValueError "Invalid NPTv6 direction")
  | Some dir =>
      if (blen packet <? 40) || negb (Z.shiftr (byte_at packet 0) 4 =? 6)
         || negb (blen packet =? 40 + be_unpack (slice 4 6 packet)) then
        Err (ValueError "Expected one complete IPv6 packet")
      else if negb (existsb (Z.eqb (byte_at packet 6)) [6; 17; 58])
              || (byte_at packet 6 =? 58) && ((blen packet <? 48) || (byte_at packet 40 <? 128)) then
        Err (ValueError "NPTv6 packet oracle supports TCP, UDP and informational ICMPv6 without extensions")
      else
        foldM_res (fun raw '(offset, reverse) =>
            if (reverse && match dir with outbound => true | _ => false end)
               || (negb reverse && match dir with inbound => true | _ => false end)
            then Ok raw
            else a ← nptv6_address (be_unpack (slice offset (offset + 16) raw)) internal external reverse;
                 Ok (splice offset (packed6 a) raw))
          packet [(8, false); (24, true)]
  end.

(** ** NAT64 packets *)

(** [ip.ip_address]. *)
Inductive ipaddr : Type := V4 (a : Z) | V6 (a : Z).
Definition version (x : ipaddr) : Z := match x with V4 _ => 4 | V6 _ => 6 end.
Definition packed (x : ipaddr) : bytes := match x with V4 a => packed4 a | V6 a => packed6 a end.

(** What the header checks leave for the rest of the function. *)
Record nat64_in : Type := {
  i_protocol : Z; i_ttl : Z; i_traffic : Z; i_payload : bytes; i_pseudo : bytes }.

(** [struct.pack('!I3xB', n, proto)] and [struct.pack('!BBH', 0, proto, n)]. *)
Definition pseudo6 (src dst : bytes) (n proto : Z) : bytes := src ++ dst ++ be_pack 4 n ++ [0; 0; 0; proto].
Definition pseudo4 (src dst : bytes) (proto n : Z) : bytes := src ++ dst ++ [0; proto] ++ be_pack 2 n.

(** The branch for an IPv6 packet; [v] is the version of the new addresses. *)
Definition nat64_from6 (packet : bytes) (v : Z) : result exn nat64_in :=
  if (blen packet <? 40) || negb (blen packet =? 40 + be_unpack (slice 4 6 packet)) then
    Err (ValueError "Incomplete IPv6 packet") else
  let protocol := byte_at packet 6 in
  let ttl := byte_at packet 7 in
  let traffic := Z.land (Z.shiftr (be_unpack (slice 0 4 packet)) 20) 255 in
  let payload := drop 40 packet in
  if negb (v =? 4) || negb (existsb (Z.eqb protocol) [6; 17; 58]) then
    Err (ValueError "NAT64 oracle does not support IPv6 extensions or this protocol") else
  Ok {| i_protocol := protocol; i_ttl := ttl; i_traffic := traffic; i_payload := payload;
        i_pseudo := pseudo6 (slice 8 24 packet) (slice 24 40 packet) (blen payload) protocol |}.

(** The branch for an IPv4 packet. *)
Definition nat64_from4 (packet : bytes) (v : Z) : result exn nat64_in :=
  if (blen packet <? 20) || negb (byte_at packet 0 =? 69) || negb (blen packet =? be_unpack (slice 2 4 packet))
     || negb (checksum (take 20 packet) =? 0) then
    Err (ValueError "Invalid or unsupported IPv4 header") else
  if negb (Z.land (be_unpack (slice 6 8 packet)) 49151 =? 0) then
    Err (ValueError "NAT64 oracle requires unfragmented IPv4 without options") else
  let protocol := byte_at packet 9 in
  let ttl := byte_at packet 8 in
  let traffic := byte_at packet 1 in
  let payload := drop 20 packet in
  if negb (v =? 6) || negb (existsb (Z.eqb protocol) [6; 17; 1]) then
    Err (ValueError "Unsupported NAT64 input protocol") else
  Ok {| i_protocol := protocol; i_ttl := ttl; i_traffic := traffic; i_payload := payload;
        i_pseudo := if negb (protocol =? 1)
                    then pseudo4 (slice 12 16 packet) (slice 16 20 packet) protocol (blen payload) else [] |}.

(** One translated port: [struct.pack_into('!H', payload, index, port)]. *)
Definition set_port (port : option Z) (index : Z) (payload : bytes) : result exn bytes :=
  match port with
  | None => Ok payload
  | Some port =>
      if negb ((1 <=? port) && (port <=? 65535)) then Err (ValueError "Invalid translated port")
      else Ok (splice index (be_pack 2 port) payload)
  end.

(** The transport header: its checks, the rewritten payload, the offset of the
    checksum field and the protocol number of the output. *)
Definition nat64_transport (ver : Z) (i : nat64_in) (source_port destination_port : option Z)
  : result exn (bytes * Z * Z) :=
  let protocol := i_protocol i in
  let payload := i_payload i in
  if (protocol =? 6) || (protocol =? 17) then
    let '(minimum, offset) := if protocol =? 6 then (20, 16) else (8, 6) in
    if blen payload <? minimum then Err (ValueError "Truncated transport header") else
    let size := Z.shiftr (byte_at payload 12) 4 * 4 in
    if (protocol =? 6) && negb ((20 <=? size) && (size <=? blen payload)) then
      Err (ValueError "Invalid TCP header size") else
    if (protocol =? 17) && negb (be_unpack (slice 4 6 payload) =? blen payload) then
      Err (ValueError "Invalid UDP length") else
    let zero := bool_decide (slice offset (offset + 2) payload = [0; 0]) in
    if (protocol =? 17) && (ver =? 6) && zero then Err (ValueError "IPv6 UDP checksum is required") else
    if negb ((protocol =? 17) && (ver =? 4) && zero) && negb (checksum (i_pseudo i ++ payload) =? 0) then
      Err (ValueError "Invalid transport checksum") else
    payload ← set_port source_port 0 payload;
    payload ← set_port destination_port 2 payload;
    Ok (payload, offset, protocol)
  else
    if (match source_port with Some _ => true | None => false end)
       || (match destination_port with Some _ => true | None => false end) then
      Err (ValueError "ICMP identifiers require a separate binding allocator") else
    if (blen payload <? 8) || negb (byte_at payload 1 =? 0) || negb (checksum (i_pseudo i ++ payload) =? 0) then
      Err (ValueError "Invalid ICMP echo packet") else
    let types := if ver =? 6 then [(128, 8); (129, 0)] else [(8, 128); (0, 129)] in
    match find (fun p => p.1 =? byte_at payload 0) types with
    | None => Err (ValueError "NAT64 ICMP error translation is not qualified")
    | Some (_, t) => Ok (splice 0 [t] payload, 2, if ver =? 6 then 1 else 58)
    end.

(** The IPv4 header with its checksum field [c]. *)
Definition header4 (traffic n ttl proto c : Z) (src dst : bytes) : bytes :=
  [69; traffic] ++ be_pack 2 (20 + n) ++ [0; 0] ++ be_pack 2 16384 ++ [ttl; proto] ++ be_pack 2 c ++ src ++ dst.

Definition header6 (traffic n ttl proto : Z) (src dst : bytes) : bytes :=
  be_pack 4 (Z.lor 1610612736 (Z.shiftl traffic 20)) ++ be_pack 2 n ++ [proto; ttl] ++ src ++ dst.

(** [value or 65535] for UDP. *)
Definition final_sum (proto value : Z) : Z :=
  if proto =? 17 then (if value =? 0 then 65535 else value) else value.

(** The new header and the checksum over it. *)
Definition nat64_emit (src dst : ipaddr) (traffic ttl : Z) (payload : bytes) (offset proto : Z) : result exn bytes :=
  let payload := splice offset [0; 0] payload in
  let n := blen payload in
  '(header, pseudo) ←
    (if version src =? 4 then
       if n >? 65515 then Err (ValueError "NAT64 packet requires fragmentation") else
       let pseudo := if negb (proto =? 1) then pseudo4 (packed src) (packed dst) proto n else [] in
       let header := header4 traffic n (ttl - 1) proto 0 (packed src) (packed dst) in
       Ok (splice 10 (be_pack 2 (checksum header)) header, pseudo)
     else
       Ok (header6 traffic n (ttl - 1) proto (packed src) (packed dst),
           pseudo6 (packed src) (packed dst) n proto));
  let value := checksum (pseudo ++ payload) in
  Ok (header ++ splice offset (be_pack 2 (final_sum proto value)) payload).

Definition nat64_packet (packet : bytes) (src dst : ipaddr) (source_port destination_port : option Z)
  : result exn bytes :=
  if negb (version src =? version dst) || bool_decide (packet = [])
     || (Z.shiftr (byte_at packet 0) 4 =? version src) then
    Err (ValueError "NAT64 must change IP version") else
  let ver := Z.shiftr (byte_at packet 0) 4 in
  i ← (if ver =? 6 then nat64_from6 packet (version src)
       else if ver =? 4 then nat64_from4 packet (version src)
       else Err (ValueError "Unsupported input IP version"));
  if i_ttl i <=? 1 then Err (ValueError "NAT64 hop limit expired; provider must generate ICMP") else
  '(payload, offset, proto) ← nat64_transport ver i source_port destination_port;
  nat64_emit src dst (i_traffic i) (i_ttl i) payload offset proto.

(** ** Masks and packed addresses *)

Definition addr6_ok (a : Z) : Prop := 0 <= a < 2 ^ 128.
Definition addr4_ok (a : Z) : Prop := 0 <= a < 2 ^ 32.
Definition net6_ok (n : net6) : Prop := addr6_ok (n_addr n) /\ 0 <= n_len n <= 128.

Lemma host_bits_ok n : net6_ok n -> 0 <= host_bits n <= 128.
Proof. unfold net6_ok, host_bits. lia. Qed.

Lemma land_netmask a n :
  addr6_ok a -> net6_ok n -> Z.land a (netmask n) = a / 2 ^ host_bits n * 2 ^ host_bits n.
Proof.
  intros Ha Hn. pose proof (host_bits_ok n Hn) as Hk. unfold netmask.
  rewrite <- Z.shiftl_mul_pow2, <- Z.shiftr_div_pow2 by lia.
  rewrite <- (Z.mod_small (Z.shiftr a (host_bits n)) (2 ^ n_len n)).
  - rewrite <- Z.land_ones by (destruct Hn; lia).
    apply Z.bits_inj'. intros i Hi. rewrite Z.land_spec, !Z.shiftl_spec by lia.
    destruct (Z.ltb_spec i (host_bits n)) as [Hl|Hl].
    + rewrite !(Z.testbit_neg_r _ (i - host_bits n)) by lia. apply andb_false_r.
    + rewrite Z.land_spec, Z.shiftr_spec by lia. do 2 f_equal. lia.
  - rewrite Z.shiftr_div_pow2 by lia. split; [apply Z.div_pos; [apply Ha | apply Z.pow_pos_nonneg; lia]|].
    apply Z.div_lt_upper_bound; [apply Z.pow_pos_nonneg; lia|].
    rewrite <- Z.pow_add_r by (destruct Hn; lia). unfold host_bits.
    replace (128 - n_len n + n_len n) with 128 by lia. apply Ha.
Qed.

Lemma in_net_iff a n :
  addr6_ok a -> net6_ok n -> in_net a n = true <-> a / 2 ^ host_bits n * 2 ^ host_bits n = n_addr n.
Proof. intros Ha Hn. unfold in_net. rewrite land_netmask by done. apply Z.eqb_eq. Qed.

(** A network has no host bits. *)
Definition aligned (n : net6) : Prop := n_addr n mod 2 ^ host_bits n = 0.

Lemma aligned_mask n : net6_ok n -> Z.land (n_addr n) (netmask n) = n_addr n <-> aligned n.
Proof.
  intros Hn. rewrite land_netmask by (done || apply Hn). unfold aligned.
  pose proof (Z.div_mod (n_addr n) (2 ^ host_bits n)) as Hd.
  pose proof (Z.pow_pos_nonneg 2 (host_bits n) ltac:(lia) ltac:(apply host_bits_ok, Hn)). lia.
Qed.

Lemma prefix_inv value kind n :
  prefix value kind = Ok n -> value = Some n /\ Z.land (n_addr n) (netmask n) = n_addr n /\ n_len n <> 0.
Proof.
  unfold prefix. destruct value as [m|]; [|done].
  destruct (negb _) eqn:E1; [done|]. destruct (_ || _) eqn:E2; [done|]. intros [= ->]. zb. done.
Qed.

Lemma nat64_prefix_inv value n :
  nat64_prefix value = Ok n ->
  value = Some n /\ Z.land (n_addr n) (netmask n) = n_addr n /\ In (n_len n) NAT64_LENGTHS /\
  (n_len n = 96 -> byte_at (packed6 (n_addr n)) 8 = 0).
Proof.
  unfold nat64_prefix. intros H. apply bind_ok_inv in H as (m & Hm & H). cbn beta in H.
  destruct (negb _) eqn:E1; [done|]. destruct (_ && _) eqn:E2; [done|]. injection H as ->.
  apply prefix_inv in Hm as (-> & Hl & _). split_and!; [done | done | |].
  - zb. apply existsb_exists in E1 as (x & Hx & ->%Z.eqb_eq). done.
  - intros H96. rewrite H96 in E2. cbn in E2. by zb.
Qed.

Lemma be_unpack_packed6 a : addr6_ok a -> be_unpack (packed6 a) = a.
Proof. intros Ha. unfold packed6. rewrite be_unpack_pack. apply Z.mod_small, Ha. Qed.

Lemma packed6_be_unpack l : length l = 16%nat -> bytes_ok l -> packed6 (be_unpack l) = l.
Proof. intros Hl Hb. unfold packed6. rewrite <- Hl. by apply be_pack_unpack. Qed.

Lemma be_unpack_zero l : bytes_ok l -> be_unpack l = 0 -> l = zeros (length l).
Proof.
  intros Hb Hz. rewrite <- (be_pack_unpack l) at 1 by done. rewrite Hz. unfold be_pack, zeros.
  induction (length l) as [|k IH]; [done|]. cbn [le_pack rev].
  change (0 mod 256) with 0. change (0 / 256) with 0. rewrite IH.
  change [0] with (replicate 1 0). rewrite <- replicate_add. f_equal. lia.
Qed.

Lemma be_unpack_split s l : bytes_ok l -> (s <= length l)%nat ->
  be_unpack l / 256 ^ Z.of_nat (length l - s) = be_unpack (take s l) /\
  be_unpack l mod 256 ^ Z.of_nat (length l - s) = be_unpack (drop s l).
Proof.
  intros Hb Hs. pose proof (be_unpack_bound (drop s l) (Forall_drop _ _ _ Hb)) as Hd.
  rewrite length_drop in Hd.
  assert (be_unpack l = 256 ^ Z.of_nat (length l - s) * be_unpack (take s l) + be_unpack (drop s l)) as ->.
  { rewrite <- length_drop, <- be_unpack_app. by rewrite take_drop. }
  set (p := 256 ^ Z.of_nat (length l - s)) in *.
  set (q := be_unpack (take s l)). set (r := be_unpack (drop s l)) in *. split.
  - symmetry. apply (Z.div_unique _ _ _ r); lia.
  - symmetry. apply (Z.mod_unique _ _ q); lia.
Qed.

(** Octet-aligned networks, byte by byte. *)
Section OctetNet.
Context (n : net6) (s : nat) (Hn : net6_ok n) (Hs : n_len n = 8 * Z.of_nat s) (Ha : aligned n).

Lemma octet_size : 2 ^ host_bits n = 256 ^ Z.of_nat (16 - s).
Proof.
  unfold host_bits. rewrite Hs. change 256 with (2 ^ 8). rewrite <- Z.pow_mul_r by lia.
  f_equal. destruct Hn. lia.
Qed.

Lemma octet_tail : drop s (packed6 (n_addr n)) = zeros (16 - s).
Proof.
  assert (s <= 16)%nat by (destruct Hn; lia).
  assert (length (drop s (packed6 (n_addr n))) = (16 - s)%nat) as Hl
    by (unfold packed6; by rewrite length_drop, length_be_pack).
  rewrite <- Hl. apply be_unpack_zero; [apply Forall_drop, be_pack_bytes|].
  destruct (be_unpack_split s (packed6 (n_addr n))) as [_ He].
  { apply be_pack_bytes. } { unfold packed6; by rewrite length_be_pack. }
  rewrite <- He. unfold packed6 at 2. rewrite length_be_pack, be_unpack_packed6, <- octet_size by apply Hn.
  exact Ha.
Qed.

Lemma octet_in l :
  length l = 16%nat -> bytes_ok l -> take s l = take s (packed6 (n_addr n)) -> in_net (be_unpack l) n = true.
Proof.
  intros Hl Hb Ht. assert (s <= 16)%nat by (destruct Hn; lia).
  pose proof (be_unpack_bound l Hb) as Hbd. rewrite Hl in Hbd. change (256 ^ Z.of_nat 16) with (2 ^ 128) in Hbd.
  apply in_net_iff; [done | done |]. rewrite octet_size.
  destruct (be_unpack_split s l Hb ltac:(lia)) as [He _]. rewrite Hl in He. rewrite He, Ht.
  destruct (be_unpack_split s (packed6 (n_addr n))) as [He2 _].
  { apply be_pack_bytes. } { unfold packed6; by rewrite length_be_pack. }
  unfold packed6 at 2 in He2. rewrite length_be_pack, be_unpack_packed6, <- octet_size in He2 by apply Hn.
  rewrite <- He2, <- octet_size. pose proof (Z.div_mod (n_addr n) (2 ^ host_bits n)) as Hd.
  unfold aligned in Ha. pose proof (Z.pow_pos_nonneg 2 (host_bits n) ltac:(lia) ltac:(apply host_bits_ok, Hn)). lia.
Qed.
End OctetNet.

(** ** NAT64 round trip *)

Definition positions_at (len : Z) : list Z := positions {| n_addr := 0; n_len := len |}.

Lemma positions_eq n : positions n = positions_at (n_len n).
Proof. reflexivity. Qed.

(** Writing the IPv4 octets at the positions of the prefix length keeps the
    prefix and the reserved octet, and reading the positions returns the octets. *)
Lemma embed_octets n s raw v :
  n_len n = 8 * Z.of_nat s -> In (n_len n) NAT64_LENGTHS ->
  length raw = 16%nat -> drop s raw = zeros (16 - s) -> (n_len n = 96 -> byte_at raw 8 = 0) ->
  length v = 4%nat ->
  let l := set_bytes raw (zip (positions n) v) in
  length l = 16%nat /\ take s l = take s raw /\ byte_at l 8 = 0 /\ map (byte_at l) (positions n) = v /\
  (bytes_ok raw -> bytes_ok v -> bytes_ok l).
Proof.
  intros Hs Hin Hr Ht H96 Hv.
  destruct v as [|c0 [|c1 [|c2 [|c3 [|]]]]]; try discriminate Hv.
  do 16 (destruct raw as [|? raw]; [discriminate Hr|]). destruct raw; [|discriminate Hr].
  unfold NAT64_LENGTHS in Hin. cbn [In] in Hin.
  assert (s = 4 \/ s = 5 \/ s = 6 \/ s = 7 \/ s = 8 \/ s = 12)%nat as Hc by lia. clear Hin.
  rewrite positions_eq, Hs. rewrite Hs in H96. clear Hs Hr Hv.
  destruct Hc as [->|[->|[->|[->|[->| ->]]]]]; cbn in Ht; simplify_eq;
    match goal with |- context [positions_at ?k] =>
      let p := eval vm_compute in (positions_at k) in change (positions_at k) with p end;
    cbn [zip zip_with set_bytes fold_left]; cbn [insert list_insert Z.to_nat Pos.to_nat Pos.iter_op Nat.add];
    (split_and!; [reflexivity | reflexivity | first [reflexivity | by apply H96] | reflexivity |
      intros Hb Hv; unfold bytes_ok in *; decompose_Forall; by repeat (constructor; [done|])]).
Qed.

(**  NAT64 synthesis and extraction are inverse: under every prefix
    [nat64_prefix] accepts, the address [nat64_embed] builds for an IPv4 address
    lies in the prefix and [nat64_extract] returns the IPv4 address. *)
Theorem nat64_roundtrip v4 value n :
  net6_ok n -> addr4_ok v4 -> nat64_prefix value = Ok n ->
  exists a, nat64_embed v4 value = Ok a /\ in_net a n = true /\ nat64_extract a value = Ok v4.
Proof.
  intros Hn Hv Hp. destruct (nat64_prefix_inv _ _ Hp) as (_ & Hm & Hin & H96).
  apply aligned_mask in Hm; [|done].
  assert (exists s, n_len n = 8 * Z.of_nat s) as [s Hs].
  { exists (Z.to_nat (n_len n / 8)). unfold NAT64_LENGTHS in Hin. cbn [In] in Hin.
    repeat destruct Hin as [<-|Hin]; done. }
  assert (length (packed6 (n_addr n)) = 16%nat) as Hl by apply length_be_pack.
  destruct (embed_octets n s (packed6 (n_addr n)) (packed4 v4) Hs Hin Hl (octet_tail n s Hn Hs Hm) H96
              (length_be_pack _ _)) as (L & T & B8 & P & B).
  unfold nat64_embed, nat64_extract. rewrite Hp. cbn [mbind result_bind].
  set (l := set_bytes _ _) in *. specialize (B (be_pack_bytes _ _) (be_pack_bytes _ _)).
  assert (in_net (be_unpack l) n = true) as Hi by (by apply (octet_in n s)).
  eexists. split; [reflexivity|]. split; [done|].
  rewrite packed6_be_unpack, Hi by done. cbn [negb]. rewrite B8. cbn [Z.eqb negb].
  rewrite P. unfold packed4. rewrite be_unpack_pack, Z.mod_small by apply Hv. done.
Qed.

Definition doc_prefix : net6 := {| n_addr := Z.shiftl 536939960 96; n_len := 32 |}.   (* 2001:db8::/32 *)

Lemma nat64_roundtrip_witness :
  exists a, nat64_embed 3221226219 (Some doc_prefix) = Ok a /\ in_net a doc_prefix = true /\
    nat64_extract a (Some doc_prefix) = Ok 3221226219.
Proof. apply nat64_roundtrip; [vm_compute | vm_compute | reflexivity]; intuition discriminate. Defined.

(** ** Sixteen-bit words of an address *)

Definition word_ok (w : Z) : Prop := 0 <= w < 65536.

Lemma even_SS {A} (x y : A) t : Nat.Even (length (x :: y :: t)) -> Nat.Even (length t).
Proof. intros [k Hk]. exists (k - 1)%nat. cbn in Hk. lia. Qed.

Lemma word_bytes_words l : bytes_ok l -> Nat.Even (length l) -> word_bytes (words_of l) = l.
Proof.
  revert l. apply (bytes_ind2 (fun l => bytes_ok l -> Nat.Even (length l) -> word_bytes (words_of l) = l)).
  - done.
  - intros x _ [k Hk]. cbn in Hk. lia.
  - intros x y t IH Hb He. apply Forall_cons in Hb as [Hx Hb]. apply Forall_cons in Hb as [Hy Hb].
    unfold word_bytes. cbn [words_of map List.concat]. fold (word_bytes (words_of t)).
    rewrite IH by (done || by eapply even_SS). change (x :: y :: t) with ([x; y] ++ t). f_equal.
    assert (bytes_ok [x; y]) as H2 by (by constructor; [|constructor; [|constructor]]).
    rewrite <- (be_pack_unpack [x; y] H2). f_equal. cbn. lia.
Qed.

Lemma words_word_bytes ws : Forall word_ok ws -> words_of (word_bytes ws) = ws.
Proof.
  induction 1 as [|w t Hw _ IH]; [done|].
  change (word_bytes (w :: t)) with (be_pack 2 w ++ word_bytes t).
  change (be_pack 2 w) with [(w / 256) mod 256; w mod 256]. cbn [app words_of]. rewrite IH. f_equal.
  unfold word_ok in Hw. rewrite (Z.mod_small (w / 256))
    by (split; [apply Z.div_pos | apply Z.div_lt_upper_bound]; lia).
  pose proof (Z.div_mod w 256). lia.
Qed.

Lemma words_of_ok l : bytes_ok l -> Forall word_ok (words_of l).
Proof.
  revert l. apply (bytes_ind2 (fun l => bytes_ok l -> Forall word_ok (words_of l))).
  - constructor.
  - constructor.
  - intros x y t IH Hb. apply Forall_cons in Hb as [Hx Hb]. apply Forall_cons in Hb as [Hy Hb].
    cbn [words_of]. constructor; [unfold is_byte, word_ok in *; lia | auto].
Qed.

Lemma length_word_bytes ws : length (word_bytes ws) = (2 * length ws)%nat.
Proof.
  induction ws as [|w t IH]; [done|]. change (word_bytes (w :: t)) with (be_pack 2 w ++ word_bytes t).
  rewrite length_app, IH, length_be_pack. cbn. lia.
Qed.

Lemma bytes_ok_word_bytes ws : bytes_ok (word_bytes ws).
Proof.
  induction ws as [|w t IH]; [constructor|]. change (word_bytes (w :: t)) with (be_pack 2 w ++ word_bytes t).
  apply bytes_ok_app; split; [apply be_pack_bytes | done].
Qed.

(** The value of a list of words, most significant first. *)
Definition wval (ws : list Z) : Z := be_unpack (word_bytes ws).

Lemma wval_cons w t : word_ok w -> wval (w :: t) = w * 65536 ^ Z.of_nat (length t) + wval t.
Proof.
  intros Hw. unfold wval. change (word_bytes (w :: t)) with (be_pack 2 w ++ word_bytes t).
  rewrite be_unpack_app, be_unpack_pack, Z.mod_small by (unfold word_ok in Hw; lia).
  rewrite length_word_bytes. replace (Z.of_nat (2 * length t)) with (2 * Z.of_nat (length t)) by lia.
  rewrite Z.pow_mul_r by lia. change (256 ^ 2) with 65536. lia.
Qed.

Lemma wval_insert ws i w :
  Forall word_ok ws -> word_ok w -> (i < length ws)%nat ->
  wval (<[i := w]> ws) = wval ws + (w - nth i ws 0) * 65536 ^ Z.of_nat (length ws - 1 - i).
Proof.
  intros Hws Hw. revert i; induction Hws as [|x t Hx Ht IH]; intros i Hi; cbn [length] in *; [lia|].
  destruct i as [|i].
  - cbn [insert list_insert nth]. rewrite !wval_cons by done.
    replace (S (length t) - 1 - 0)%nat with (length t) by lia. lia.
  - change (<[S i := w]> (x :: t)) with (x :: <[i := w]> t). rewrite !wval_cons by done.
    rewrite length_insert, IH by lia. cbn [nth].
    replace (S (length t) - 1 - S i)%nat with (length t - 1 - i)%nat by lia. lia.
Qed.

Lemma pow65536 n : exists k, 65536 ^ Z.of_nat n = 1 + 65535 * k.
Proof.
  induction n as [|n [k IH]]; [by exists 0|]. rewrite Nat2Z.inj_succ, Z.pow_succ_r, IH by lia.
  exists (1 + 65536 * k). lia.
Qed.

(** 65536 is one modulo 65535: a list of words and its value have the same
    residue. *)
Lemma wval_sum ws : Forall word_ok ws -> wval ws mod 65535 = sum ws mod 65535.
Proof.
  induction 1 as [|w t Hw _ IH]; [done|]. rewrite wval_cons by done. cbn [sum fold_right].
  fold (sum t). destruct (pow65536 (length t)) as [k ->].
  replace (w * (1 + 65535 * k) + wval t) with (w + wval t + w * k * 65535) by lia.
  rewrite Z.mod_add by lia. rewrite Z.add_mod, IH, <- Z.add_mod by lia. done.
Qed.

Section Words.
Context (v : Z) (Hv : addr6_ok v).

Lemma packed6_even : Nat.Even (length (packed6 v)).
Proof. unfold packed6. rewrite length_be_pack. by exists 8%nat. Qed.

Lemma length_words : length (words_of (packed6 v)) = 8%nat.
Proof.
  pose proof (length_word_bytes (words_of (packed6 v))) as H.
  rewrite word_bytes_words in H by (apply be_pack_bytes || apply packed6_even).
  unfold packed6 in H at 1. rewrite length_be_pack in H. lia.
Qed.

Lemma words_ok : Forall word_ok (words_of (packed6 v)).
Proof. apply words_of_ok, be_pack_bytes. Qed.

Lemma wval_words : wval (words_of (packed6 v)) = v.
Proof.
  unfold wval. rewrite word_bytes_words by (apply be_pack_bytes || apply packed6_even).
  by apply be_unpack_packed6.
Qed.

Lemma sum_words_mod : sum (words_of (packed6 v)) mod 65535 = v mod 65535.
Proof. rewrite <- wval_sum by apply words_ok. by rewrite wval_words. Qed.
End Words.

Lemma wval_bound ws : Forall word_ok ws -> 0 <= wval ws < 65536 ^ Z.of_nat (length ws).
Proof.
  intros _. unfold wval. pose proof (be_unpack_bound _ (bytes_ok_word_bytes ws)) as H.
  rewrite length_word_bytes in H. replace (Z.of_nat (2 * length ws)) with (2 * Z.of_nat (length ws)) in H by lia.
  rewrite Z.pow_mul_r in H by lia. done.
Qed.

Lemma nth_wval ws i :
  Forall word_ok ws -> (i < length ws)%nat ->
  nth i ws 0 = wval ws / 65536 ^ Z.of_nat (length ws - 1 - i) mod 65536.
Proof.
  intros Hws. revert i; induction Hws as [|w t Hw Ht IH]; intros i Hi; cbn [length] in *; [lia|].
  rewrite wval_cons by done. pose proof (wval_bound t Ht) as Hb.
  destruct i as [|i]; cbn [nth].
  - replace (S (length t) - 1 - 0)%nat with (length t) by lia.
    rewrite Z.div_add_l, Z.div_small by lia. rewrite Z.add_0_r, Z.mod_small; done.
  - rewrite IH by lia. replace (S (length t) - 1 - S i)%nat with (length t - 1 - i)%nat by lia.
    set (m := (length t - 1 - i)%nat).
    replace (65536 ^ Z.of_nat (length t)) with (65536 ^ Z.of_nat i * 65536 * 65536 ^ Z.of_nat m).
    2: { rewrite <- (Z.pow_1_r 65536) at 2. rewrite <- !Z.pow_add_r by lia. f_equal. lia. }
    pose proof (Z.pow_pos_nonneg 65536 (Z.of_nat m)).
    rewrite !Z.mul_assoc, Z.div_add_l by lia.
    replace (w * 65536 ^ Z.of_nat i * 65536 + wval t / 65536 ^ Z.of_nat m)
      with (wval t / 65536 ^ Z.of_nat m + (w * 65536 ^ Z.of_nat i) * 65536) by lia.
    by rewrite Z.mod_add.
Qed.

(** ** NPTv6 translation of one address *)

(** The body of [nptv6_address] after its guards. *)
Definition pick (a : net6) (words : list Z) : result exn nat :=
  if n_len a <=? 48 then
    if nth 3 words 0 =? 65535 then Err (ValueError "NPTv6 subnet 0xffff has no reversible mapping")
    else Ok 3%nat
  else match nptv6_index words with
       | None => Err (ValueError "NPTv6 all-ones interface identifier has no mapping")
       | Some i => Ok i
       end.

Definition adjust (a b : net6) : Z :=
  (sum (words_of (packed6 (n_addr a))) - sum (words_of (packed6 (n_addr b)))) mod 65535.

Definition translate (a b : net6) (address : Z) (i : nat) : Z :=
  let ws := words_of (packed6 address) in
  Z.lor (n_addr b) (Z.land (wval (<[i := (nth i ws 0 + adjust a b) mod 65535]> ws))
                           (Z.shiftl 1 (host_bits a) - 1)).

Definition nptv6_map (a b : net6) (address : Z) : result exn Z :=
  if negb (in_net address a) then Err (ValueError "Address is outside the effective NPTv6 prefix") else
  i ← pick a (words_of (packed6 address)); Ok (translate a b address i).

Lemma nptv6_address_eq address internal external reverse :
  nptv6_address address internal external reverse =
    '(a, b) ← nptv6_prefixes internal external;
    if reverse : bool then nptv6_map b a address else nptv6_map a b address.
Proof. unfold nptv6_address. destruct (nptv6_prefixes _ _) as [[a b]|]; [|done]. by destruct reverse. Qed.

Lemma lor_aligned q r k : 0 <= k -> 0 <= r < 2 ^ k -> Z.lor (q * 2 ^ k) r = q * 2 ^ k + r.
Proof.
  intros Hk Hr. assert (Z.land (q * 2 ^ k) r = 0) as Hz.
  { apply Z.bits_inj'. intros i Hi. rewrite Z.land_spec, Z.bits_0, <- Z.shiftl_mul_pow2, Z.shiftl_spec by lia.
    destruct (Z.ltb_spec i k); [by rewrite (Z.testbit_neg_r q) by lia|].
    rewrite <- (Z.mod_small r (2 ^ k)), Z.mod_pow2_bits_high by lia. apply andb_false_r. }
  rewrite Z.add_nocarry_lxor by done. by rewrite Z.lxor_lor.
Qed.

Lemma hostmask_ones k : Z.shiftl 1 k - 1 = Z.ones k.
Proof. unfold Z.ones. lia. Qed.

Section Translate.
Context (a b : net6) (Ha : net6_ok a) (Hb : net6_ok b) (La : aligned a) (Lb : aligned b).
Context (Hab : n_len a = n_len b) (H64 : n_len a <= 64).
Context (address : Z) (Haddr : addr6_ok address).

(** A word of the host part. *)
Definition host_word (i : nat) : Prop := (i < 8)%nat /\ 16 * (8 - Z.of_nat i) <= host_bits a.

Lemma pick_inv i :
  pick a (words_of (packed6 address)) = Ok i ->
  host_word i /\ nth i (words_of (packed6 address)) 0 <> 65535 /\ (3 <= i)%nat.
Proof.
  unfold pick, host_word, host_bits. destruct (n_len a <=? 48) eqn:E; zb.
  - destruct (_ =? 65535) eqn:E2; [done|]. intros [= <-]. zb. split_and!; [lia | lia | done | lia].
  - destruct (nptv6_index _) as [j|] eqn:Ej; [|done]. intros [= ->].
    unfold nptv6_index in Ej. apply find_some in Ej as [Hin Hne]. zb. cbn in Hin.
    split_and!; [lia | lia | done | lia].
Qed.

Context (i : nat) (Hi : host_word i) (Hin : in_net address a = true).
Let k := host_bits a.
Let p := 65536 ^ (7 - Z.of_nat i).
Let ws := words_of (packed6 address).
Let w := nth i ws 0.
Let w' := (w + adjust a b) mod 65535.

Lemma w'_ok : 0 <= w' < 65535.
Proof. unfold w'. apply Z.mod_pos_bound. lia. Qed.

Lemma w_ok : word_ok w.
Proof.
  unfold w. apply Forall_lookup_1 with (l := ws) (i := i); [apply words_ok|].
  rewrite nth_lookup. destruct (lookup_lt_is_Some_2 ws i) as [x Hx].
  { unfold ws. rewrite length_words. apply Hi. } by rewrite Hx.
Qed.

Lemma mapped_eq : wval (<[i := w']> ws) = address + (w' - w) * p.
Proof.
  pose proof w'_ok. destruct Hi as [Hi8 _]. unfold ws.
  rewrite wval_insert; [|apply words_ok | unfold word_ok; lia | rewrite length_words; lia].
  rewrite wval_words, length_words by done. unfold p, w, ws. do 3 f_equal. lia.
Qed.

(** The chosen word lies inside the host part. *)
Lemma p_divides : exists m, 0 < m /\ 2 ^ k = m * (65536 * p).
Proof.
  destruct Hi as [Hi8 Hk]. fold k in Hk. exists (2 ^ (k - 16 * (8 - Z.of_nat i))).
  split; [apply Z.pow_pos_nonneg; lia|]. unfold p.
  replace (65536 * 65536 ^ (7 - Z.of_nat i)) with (2 ^ (16 * (8 - Z.of_nat i))).
  - rewrite <- Z.pow_add_r by lia. f_equal. lia.
  - rewrite Z.pow_mul_r by lia. change (2 ^ 16) with 65536.
    replace (8 - Z.of_nat i) with (Z.succ (7 - Z.of_nat i)) by lia. rewrite Z.pow_succ_r by lia. lia.
Qed.

Lemma p_pos : 0 < p.
Proof. apply Z.pow_pos_nonneg; destruct Hi; lia. Qed.

Lemma w_digit : w = address / p mod 65536.
Proof.
  unfold w, ws. rewrite nth_wval by (apply words_ok || rewrite length_words; apply Hi).
  rewrite wval_words, length_words by done. unfold p. destruct Hi. do 3 f_equal. lia.
Qed.

(** The address splits into its prefix and three parts of the host value, of
    which the translation changes the middle one. *)
Lemma address_parts :
  exists hi lo, address = n_addr a + (hi * (65536 * p) + w * p + lo) /\ 0 <= lo < p /\
    0 <= hi /\ (hi + 1) * (65536 * p) <= 2 ^ k.
Proof.
  pose proof p_pos as Hp. destruct p_divides as (m & Hm & Hk).
  apply in_net_iff in Hin; [|done..]. fold k in Hin.
  pose proof (Z.div_mod address (2 ^ k) ltac:(nia)) as Hd.
  pose proof (Z.mod_pos_bound address (2 ^ k) ltac:(nia)) as Hr.
  set (h := address mod 2 ^ k) in *. set (q := address / 2 ^ k) in *.
  exists (h / (65536 * p)), (h mod p).
  assert (w = h / p mod 65536) as Hw.
  { rewrite w_digit, Hd, Hk. replace (m * (65536 * p) * q + h) with ((m * q * 65536) * p + h) by lia.
    rewrite Z.div_add_l, Z.add_comm, Z.mod_add by lia. done. }
  pose proof (Z.div_mod h p ltac:(lia)) as H1. pose proof (Z.div_mod (h / p) 65536 ltac:(lia)) as H2.
  rewrite <- Hw in H2. rewrite Z.div_div in H2 by lia. rewrite (Z.mul_comm p 65536) in H2.
  pose proof (Z.mod_pos_bound h p ltac:(lia)) as H3.
  assert (0 <= h / (65536 * p)) by (apply Z.div_pos; lia).
  split_and!; [nia | lia | lia | lia |].
  assert (h / (65536 * p) < m) by (apply Z.div_lt_upper_bound; lia).
  rewrite Hk. nia.
Qed.

Lemma translate_eq : exists hi lo,
  address = n_addr a + (hi * (65536 * p) + w * p + lo) /\
  translate a b address i = n_addr b + (hi * (65536 * p) + w' * p + lo) /\
  0 <= hi * (65536 * p) + w' * p + lo < 2 ^ k /\ 0 <= lo < p.
Proof.
  destruct address_parts as (hi & lo & He & Hlo & Hhi & Hm). exists hi, lo.
  pose proof p_pos as Hp. pose proof w'_ok as Hw'.
  assert (0 <= hi * (65536 * p) + w' * p + lo < 2 ^ k) as Hh by nia.
  split_and!; [done | | lia | lia | lia | lia].
  unfold translate. fold ws. fold w. fold w'. rewrite mapped_eq, hostmask_ones.
  pose proof (host_bits_ok a Ha) as Hk0. rewrite Z.land_ones by lia. fold k.
  replace (address + (w' - w) * p) with (n_addr a + (hi * (65536 * p) + w' * p + lo)) by lia.
  rewrite <- Zplus_mod_idemp_l. unfold aligned in La, Lb. fold k in La. rewrite La, Z.add_0_l, Z.mod_small by lia.
  assert (host_bits b = k) as Hbk by (unfold k, host_bits; lia). rewrite Hbk in Lb.
  pose proof (Z.div_mod (n_addr b) (2 ^ k) ltac:(lia)) as Hd. rewrite Lb in Hd.
  replace (n_addr b) with (n_addr b / 2 ^ k * 2 ^ k) by lia. apply lor_aligned; [apply Hk0 | done].
Qed.
End Translate.

(** ** NPTv6 is neutral and reversible *)

Lemma digit_aligned x h k P m :
  0 < P -> 0 < m -> 2 ^ k = m * (65536 * P) -> x mod 2 ^ k = 0 -> (x + h) / P mod 65536 = h / P mod 65536.
Proof.
  intros HP H0 Hk Hx. apply Z.mod_divide in Hx as [q Hq]; [|rewrite Hk; nia].
  rewrite Hq, Hk. replace (q * (m * (65536 * P)) + h) with ((q * m * 65536) * P + h) by lia.
  rewrite Z.div_add_l, Z.add_comm, Z.mod_add by lia. done.
Qed.

(** [nptv6_index] is the first of the last four words that is not all ones. *)
Lemma nptv6_index_iff ws i :
  nptv6_index ws = Some i <->
  (4 <= i < 8)%nat /\ nth i ws 0 <> 65535 /\ (forall j, (4 <= j < i)%nat -> nth j ws 0 = 65535).
Proof.
  assert (forall P : nat -> Prop, (4 <= i < 8)%nat -> P 4%nat -> P 5%nat -> P 6%nat -> P 7%nat -> P i) as Hcase.
  { intros P Hi ? ? ? ?. assert (i = 4 \/ i = 5 \/ i = 6 \/ i = 7)%nat as [->|[->|[->| ->]]] by lia; done. }
  unfold nptv6_index. cbn [find]. split.
  - intros H.
    destruct (Z.eqb_spec (nth 4 ws 0) 65535) as [E4|E4]; cbn [negb] in H;
      [|injection H as <-; split_and!; [lia.. | done | intros; lia]].
    destruct (Z.eqb_spec (nth 5 ws 0) 65535) as [E5|E5]; cbn [negb] in H;
      [|injection H as <-; split_and!; [lia.. | done | intros j ?; by assert (j = 4)%nat as -> by lia]].
    destruct (Z.eqb_spec (nth 6 ws 0) 65535) as [E6|E6]; cbn [negb] in H.
    2: { injection H as <-. split_and!; [lia.. | done |]. intros j ?.
         by assert (j = 4 \/ j = 5)%nat as [->| ->] by lia. }
    destruct (Z.eqb_spec (nth 7 ws 0) 65535) as [E7|E7]; cbn [negb] in H; [done|].
    injection H as <-. split_and!; [lia.. | done |]. intros j ?.
    by assert (j = 4 \/ j = 5 \/ j = 6)%nat as [->|[->| ->]] by lia.
  - intros (Hi & Hne & Hlt). revert Hne Hlt. pattern i. apply Hcase; [done| | | |]; intros Hne Hlt;
      rewrite ?(Hlt 4%nat), ?(Hlt 5%nat), ?(Hlt 6%nat) by lia; cbn [Z.eqb Pos.eqb negb];
      apply Z.eqb_neq in Hne; by rewrite Hne.
Qed.

Lemma nptv6_index_insert ws i w :
  length ws = 8%nat -> nptv6_index ws = Some i -> w <> 65535 -> nptv6_index (<[i := w]> ws) = Some i.
Proof.
  rewrite !nptv6_index_iff. intros Hl (Hi & _ & Hlt) Hw. split_and!; [lia | lia | |].
  - rewrite nth_lookup, list_lookup_insert_eq by lia. done.
  - intros j Hj. rewrite nth_lookup, list_lookup_insert_ne, <- nth_lookup by lia. by apply Hlt.
Qed.

Lemma nptv6_index_ext ws ws' :
  (forall j, (4 <= j < 8)%nat -> nth j ws 0 = nth j ws' 0) -> nptv6_index ws = nptv6_index ws'.
Proof. intros H. unfold nptv6_index. cbn [find]. rewrite !H by lia. done. Qed.

Record pair_ok (a b : net6) : Prop := {
  po_a : net6_ok a; po_b : net6_ok b; po_la : aligned a; po_lb : aligned b;
  po_len : n_len a = n_len b; po_64 : n_len a <= 64 }.

Lemma pair_ok_sym a b : pair_ok a b -> pair_ok b a.
Proof. intros []; constructor; try done; lia. Qed.

Lemma aligned_add_bound n h : net6_ok n -> aligned n -> 0 <= h < 2 ^ host_bits n -> addr6_ok (n_addr n + h).
Proof.
  intros Hn La Hh. destruct Hn as [[H1 H2] H3]. unfold addr6_ok, aligned in *. split; [lia|].
  assert (2 ^ 128 = 2 ^ n_len n * 2 ^ host_bits n) as E.
  { rewrite <- Z.pow_add_r by (unfold host_bits; lia). f_equal. unfold host_bits. lia. }
  rewrite E in *. set (K := 2 ^ host_bits n) in *. clearbody K.
  apply Z.mod_divide in La as [q Hq]; [|lia]. rewrite Hq in *.
  assert (q < 2 ^ n_len n) by (apply (Z.mul_lt_mono_pos_r K); lia).
  assert ((q + 1) * K <= 2 ^ n_len n * K) by (apply Z.mul_le_mono_nonneg_r; lia). lia.
Qed.

Lemma in_net_add n h : net6_ok n -> aligned n -> 0 <= h < 2 ^ host_bits n -> in_net (n_addr n + h) n = true.
Proof.
  intros Hn La Hh. apply in_net_iff; [by apply aligned_add_bound | done |].
  unfold aligned in La. pose proof (host_bits_ok n Hn). apply Z.mod_divide in La as [q Hq]; [|lia].
  rewrite Hq, Z.div_add_l, Z.div_small by lia. lia.
Qed.

Lemma adjust_inverse a b w :
  addr6_ok (n_addr a) -> addr6_ok (n_addr b) -> 0 <= w < 65535 ->
  ((w + adjust a b) mod 65535 + adjust b a) mod 65535 = w.
Proof.
  intros _ _ Hw. unfold adjust. set (x := sum _). set (y := sum _).
  rewrite Zplus_mod_idemp_l, Zplus_mod_idemp_r.
  replace (w + (x - y) mod 65535 + (y - x)) with (w + (y - x) + (x - y) mod 65535) by lia.
  rewrite Zplus_mod_idemp_r. replace (w + (y - x) + (x - y)) with w by lia. by apply Z.mod_small.
Qed.

Lemma pick_translated a b address i :
  pair_ok a b -> addr6_ok address -> in_net address a = true ->
  pick a (words_of (packed6 address)) = Ok i ->
  let r := translate a b address i in
  let ws := words_of (packed6 address) in
  addr6_ok r /\ in_net r b = true /\ pick b (words_of (packed6 r)) = Ok i /\
  nth i (words_of (packed6 r)) 0 = (nth i ws 0 + adjust a b) mod 65535.
Proof.
  intros Hab Haddr Hin Hp r ws. destruct Hab as [Ha Hb La Lb Hl H64].
  destruct (pick_inv a H64 address i Hp) as (Hi & Hne & H3).
  destruct (translate_eq a b Ha La Lb Hl H64 address Haddr i Hi Hin) as (hi & lo & He & Hr & Hh & Hlo).
  fold r in Hr. fold ws in He, Hr, Hh.
  set (p := 65536 ^ (7 - Z.of_nat i)) in *. set (w := nth i ws 0) in *.
  set (w' := (w + adjust a b) mod 65535) in *.
  assert (host_bits b = host_bits a) as Hk by (unfold host_bits; lia).
  assert (addr6_ok r) as Hrok by (rewrite Hr; apply aligned_add_bound; rewrite ?Hk; done).
  assert (wval (<[i := w']> ws) = n_addr a + (hi * (65536 * p) + w' * p + lo)) as Hmap.
  { etrans; [exact (mapped_eq a b address Haddr i Hi)|]. fold ws. fold w. fold w'. fold p. lia. }
  assert (forall j, host_word a j -> nth j (words_of (packed6 r)) 0 = nth j (<[i := w']> ws) 0) as Hdig.
  { intros j Hj. destruct (p_divides a b address j Hj) as (m & H0 & Hm).
    assert (word_ok w') as Hw' by (pose proof (Z.mod_pos_bound (w + adjust a b) 65535); unfold word_ok, w'; lia).
    assert (Forall word_ok (<[i := w']> ws)) as Hws' by (apply Forall_insert; [apply words_ok | done]).
    rewrite !nth_wval by (try done; rewrite ?length_insert; unfold ws; rewrite ?length_words; apply words_ok || apply Hj).
    rewrite length_insert. unfold ws at 2. rewrite !length_words, wval_words, Hmap, Hr by done.
    replace (Z.of_nat (8 - 1 - j)) with (7 - Z.of_nat j) by (destruct Hj; lia).
    assert (0 < 65536 ^ (7 - Z.of_nat j)) as HP by (apply Z.pow_pos_nonneg; destruct Hj; lia).
    rewrite (digit_aligned (n_addr b) _ _ _ m HP H0 Hm), (digit_aligned (n_addr a) _ _ _ m HP H0 Hm); try done.
    unfold aligned in Lb. by rewrite Hk in Lb. }
  assert (nth i (<[i := w']> ws) 0 = w') as Hnth.
  { rewrite nth_lookup, list_lookup_insert_eq; [done|]. unfold ws. rewrite length_words. apply Hi. }
  assert (w' <> 65535) as Hwne by (pose proof (Z.mod_pos_bound (w + adjust a b) 65535); unfold w'; lia).
  split_and!; [done | rewrite Hr; apply in_net_add; rewrite ?Hk; done | | by rewrite Hdig, Hnth].
  unfold pick in Hp |- *. rewrite <- Hl. destruct (n_len a <=? 48) eqn:E48.
  - destruct (_ =? 65535); [done|]. injection Hp as <-. rewrite Hdig, Hnth by done.
    destruct (Z.eqb_spec w' 65535); done.
  - fold ws in Hp. destruct (nptv6_index ws) as [j|] eqn:Ej; [|done]. injection Hp as ->.
    rewrite (nptv6_index_ext _ (<[i := w']> ws)).
    + rewrite nptv6_index_insert; [done | unfold ws; by rewrite length_words | done | done].
    + intros j Hj. apply Hdig. unfold host_word, host_bits. lia.
Qed.

Lemma word_at_ok v i : 0 <= nth i (words_of (packed6 v)) 0 < 65536.
Proof.
  destruct (decide (i < 8)%nat) as [Hi|Hi].
  - pose proof (words_ok v) as Hw. rewrite nth_lookup.
    destruct (lookup_lt_is_Some_2 (words_of (packed6 v)) i) as [x Hx]; [by rewrite length_words|].
    rewrite Hx. exact (Forall_lookup_1 _ _ _ _ Hw Hx).
  - rewrite nth_overflow by (rewrite length_words; lia). lia.
Qed.

Lemma nptv6_map_spec a b address r :
  pair_ok a b -> addr6_ok address -> nptv6_map a b address = Ok r ->
  addr6_ok r /\ in_net r b = true /\ r mod 65535 = address mod 65535 /\ nptv6_map b a r = Ok address.
Proof.
  intros Hab Haddr H. unfold nptv6_map in H. destruct (in_net address a) eqn:Hin; [cbn [negb] in H|done].
  apply bind_ok_inv in H as (i & Hp & H). cbn beta in H. injection H as <-.
  destruct (pick_translated a b address i Hab Haddr Hin Hp) as (Hr & Hrb & Hpb & Hw).
  pose proof (word_at_ok address i) as Hw0.
  destruct Hab as [Ha Hb La Lb Hl H64]. destruct (pick_inv a H64 address i Hp) as (Hi & Hne & _).
  destruct (translate_eq a b Ha La Lb Hl H64 address Haddr i Hi Hin) as (hi & lo & He & Ht & Hh & Hlo).
  split_and!; [done | done | |].
  - rewrite Ht. set (w := nth i (words_of (packed6 address)) 0) in *. clearbody w. rewrite He. set (A := adjust a b) in *.
    set (p := 65536 ^ (7 - Z.of_nat i)) in *.
    assert (exists c, p = 1 + 65535 * c) as [c Hc].
    { unfold p. replace (7 - Z.of_nat i) with (Z.of_nat (7 - i)) by (destruct Hi; lia). apply pow65536. }
    assert (exists d, (w + A) mod 65535 = w + (n_addr a - n_addr b) + 65535 * d) as [d Hd].
    { unfold A, adjust. rewrite Zplus_mod_idemp_r. set (sa := sum _). set (sb := sum _).
      pose proof (sum_words_mod (n_addr a) (proj1 Ha)) as E1. pose proof (sum_words_mod (n_addr b) (proj1 Hb)) as E2.
      fold sa in E1. fold sb in E2. rewrite Z.mod_eq by lia.
      rewrite !Z.mod_eq in E1, E2 by lia.
      exists (sa / 65535 - n_addr a / 65535 - (sb / 65535 - n_addr b / 65535) - (w + (sa - sb)) / 65535). lia. }
    rewrite Hd, Hc.
    replace (n_addr b + _) with (n_addr a + (hi * (65536 * (1 + 65535 * c)) + w * (1 + 65535 * c) + lo)
       + ((n_addr a - n_addr b) * c + d * (1 + 65535 * c)) * 65535) by lia.
    apply Z.mod_add. lia.
  - unfold nptv6_map. rewrite Hrb. cbn [negb]. rewrite Hpb. cbn [mbind result_bind]. f_equal.
    assert (host_word b i) as Hib by (unfold host_word, host_bits in *; rewrite <- Hl; done).
    destruct (translate_eq b a Hb Lb La (eq_sym Hl) ltac:(lia) (translate a b address i) Hr i Hib Hrb)
      as (hi2 & lo2 & He2 & Ht2 & Hh2 & Hlo2).
    rewrite Ht2, Hw, adjust_inverse; [| apply Ha | apply Hb | lia].
    rewrite Hw in He2. set (p := 65536 ^ (7 - Z.of_nat i)) in *.
    set (w' := (_ + adjust a b) mod 65535) in *. set (w := nth i (words_of (packed6 address)) 0) in *. rewrite Ht in He2. lia.
Qed.

Lemma nptv6_prefixes_inv internal external a b :
  nptv6_prefixes internal external = Ok (a, b) ->
  (forall n, internal = Some n \/ external = Some n -> net6_ok n) -> pair_ok a b.
Proof.
  intros H Hok. unfold nptv6_prefixes in H.
  apply bind_ok_inv in H as (x & Hx & H). cbn beta in H. apply bind_ok_inv in H as (y & Hy & H). cbn beta in H.
  cbv zeta in H. destruct (_ >? 64) eqn:E64; [done|]. destruct (overlaps _ _); [done|]. injection H as <- <-.
  apply prefix_inv in Hx as (-> & Mx & _). apply prefix_inv in Hy as (-> & My & _).
  pose proof (Hok x (or_introl eq_refl)) as Ox. pose proof (Hok y (or_intror eq_refl)) as Oy.
  rewrite Z.gtb_ltb in E64. zb.
  apply aligned_mask in Mx; [|done]. apply aligned_mask in My; [|done].
  assert (forall n L, net6_ok n -> aligned n -> n_len n <= L <= 64 ->
            net6_ok {| n_addr := n_addr n; n_len := L |} /\ aligned {| n_addr := n_addr n; n_len := L |}) as Hext.
  { intros n L On An HL. split; [split; [apply On | cbn; destruct On; lia]|].
    unfold aligned, host_bits in *. cbn.
    replace (2 ^ (128 - n_len n)) with (2 ^ (L - n_len n) * 2 ^ (128 - L)) in An
      by (rewrite <- Z.pow_add_r by (destruct On; lia); f_equal; lia).
    pose proof (Z.pow_pos_nonneg 2 (L - n_len n)). pose proof (Z.pow_pos_nonneg 2 (128 - L)).
    apply Z.mod_divide in An as [q Hq]; [|nia]. rewrite Hq, Z.mul_assoc. apply Z.mod_mul. lia. }
  destruct (Hext x (Z.max (n_len x) (n_len y)) Ox Mx ltac:(lia)).
  destruct (Hext y (Z.max (n_len x) (n_len y)) Oy My ltac:(lia)).
  constructor; cbn; try done.
Qed.

(**  NPTv6 is checksum neutral: the words of the translated address have the
    same one's-complement sum as those of the original, so a transport checksum
    over the pseudo header stays right without being touched. *)
Theorem nptv6_neutral address internal external reverse r :
  (forall n, internal = Some n \/ external = Some n -> net6_ok n) -> addr6_ok address ->
  nptv6_address address internal external reverse = Ok r ->
  sum (words_of (packed6 r)) mod 65535 = sum (words_of (packed6 address)) mod 65535.
Proof.
  intros Hok Ha H. rewrite nptv6_address_eq in H. apply bind_ok_inv in H as ([a b] & Hp & H).
  apply nptv6_prefixes_inv in Hp as Hab; [|done]. cbn in H.
  assert (addr6_ok r /\ r mod 65535 = address mod 65535) as [Hr Hm].
  { destruct reverse; apply nptv6_map_spec in H as (? & _ & ? & _); try done. by apply pair_ok_sym. }
  by rewrite !sum_words_mod.
Qed.

(**  NPTv6 is reversible: the address one direction produces is mapped back to
    the original by the other direction. *)
Theorem nptv6_roundtrip address internal external reverse r :
  (forall n, internal = Some n \/ external = Some n -> net6_ok n) -> addr6_ok address ->
  nptv6_address address internal external reverse = Ok r ->
  nptv6_address r internal external (negb reverse) = Ok address.
Proof.
  intros Hok Ha H. rewrite nptv6_address_eq in *. apply bind_ok_inv in H as ([a b] & Hp & H).
  apply nptv6_prefixes_inv in Hp as Hab; [|done]. rewrite Hp. cbn in H |- *.
  destruct reverse; apply nptv6_map_spec in H as (_ & _ & _ & ?); try done. by apply pair_ok_sym.
Qed.

(** RFC 6296, section 3.1: fd01:203:405::/48 and 2001:db8:1::/48. *)
Definition rfc_internal : net6 := {| n_addr := Z.shiftl 278194415403013 80; n_len := 48 |}.
Definition rfc_external : net6 := {| n_addr := Z.shiftl 35188707082241 80; n_len := 48 |}.
Definition rfc_host : Z := n_addr rfc_internal + Z.shiftl 1 64 + 4660.

Lemma rfc_nets_ok n : Some rfc_internal = Some n \/ Some rfc_external = Some n -> net6_ok n.
Proof. intros [[= <-]|[= <-]]; vm_compute; intuition discriminate. Qed.

Definition rfc_mapped : Z := n_addr rfc_external + Z.shiftl 54608 64 + 4660.

Lemma nptv6_neutral_witness :
  sum (words_of (packed6 (match nptv6_address rfc_host (Some rfc_internal) (Some rfc_external) false with
                          | Ok r => r | Err _ => 0 end))) mod 65535 =
  sum (words_of (packed6 rfc_host)) mod 65535.
Proof.
  apply (nptv6_neutral rfc_host (Some rfc_internal) (Some rfc_external) false).
  - apply rfc_nets_ok.
  - vm_compute. intuition discriminate.
  - vm_compute. reflexivity.
Defined.

Lemma nptv6_roundtrip_witness :
  nptv6_address (match nptv6_address rfc_host (Some rfc_internal) (Some rfc_external) false with
                 | Ok r => r | Err _ => 0 end) (Some rfc_internal) (Some rfc_external) true = Ok rfc_host.
Proof.
  apply (nptv6_roundtrip rfc_host (Some rfc_internal) (Some rfc_external) false).
  - apply rfc_nets_ok.
  - vm_compute. intuition discriminate.
  - vm_compute. reflexivity.
Defined.

(** ** The packets [nat64_packet] produces *)

Lemma byte_at_ok l i : bytes_ok l -> is_byte (byte_at l i).
Proof.
  intros Hl. unfold byte_at. rewrite nth_lookup. destruct (l !! _) as [x|] eqn:E; cbn.
  - exact (Forall_lookup_1 _ _ _ _ Hl E).
  - unfold is_byte; lia.
Qed.

Lemma splice_ok o bs raw : bytes_ok bs -> bytes_ok raw -> bytes_ok (splice o bs raw).
Proof.
  intros H1 H2. unfold splice. rewrite !bytes_ok_app. split_and!; [by apply Forall_take | done | by apply Forall_drop].
Qed.

Lemma splice_length o bs raw : 0 <= o -> o + blen bs <= blen raw -> length (splice o bs raw) = length raw.
Proof. intros H1 H2. unfold splice, blen in *. autorewrite with ffn_len. lia. Qed.

Lemma splice_splice o b1 b2 raw :
  0 <= o -> o + blen b1 <= blen raw -> length b1 = length b2 ->
  splice o b2 (splice o b1 raw) = splice o b2 raw.
Proof.
  intros H1 H2 H3. unfold splice, blen in *. rewrite take_app_exact by (rewrite length_take; lia). do 2 f_equal.
  rewrite app_assoc, drop_app_exact by (rewrite length_app, length_take; lia). by rewrite H3.
Qed.

Record trans_ok (ver : Z) (i : nat64_in) (payload : bytes) (offset proto : Z) : Prop := {
  t_bytes : bytes_ok payload; t_length : length payload = length (i_payload i);
  t_even : offset = 16 \/ offset = 6 \/ offset = 2; t_room : offset + 2 <= blen payload;
  t_proto : proto = 6 \/ proto = 17 \/ proto = (if ver =? 6 then 1 else 58) }.

Lemma set_port_ok port idx p p' :
  bytes_ok p -> 0 <= idx -> idx + 2 <= blen p -> set_port port idx p = Ok p' ->
  bytes_ok p' /\ length p' = length p.
Proof.
  intros Hb Hi Hl. unfold set_port. destruct port as [port|]; [|by intros [= <-]].
  destruct (negb _); [done|]. intros [= <-].
  split; [apply splice_ok; [apply be_pack_bytes | done] | apply splice_length; [done|]].
  unfold blen at 1. rewrite length_be_pack. lia.
Qed.

Lemma nat64_transport_inv ver i sp dp payload offset proto :
  bytes_ok (i_payload i) -> nat64_transport ver i sp dp = Ok (payload, offset, proto) ->
  trans_ok ver i payload offset proto.
Proof.
  intros Hb H. unfold nat64_transport in H. destruct (_ || _) eqn:Ep.
  - destruct (if i_protocol i =? 6 then _ else _) as [minimum off] eqn:Em.
    destruct (blen _ <? minimum) eqn:El; [done|]. cbv zeta in H.
    repeat (destruct (_ && _); [done|]).
    apply bind_ok_inv in H as (p1 & H1 & H). cbn beta in H. apply bind_ok_inv in H as (p2 & H2 & H). cbn beta in H.
    injection H as <- <- <-. zb.
    assert ((minimum = 20 /\ off = 16) \/ (minimum = 8 /\ off = 6)) as Hm
      by (destruct (i_protocol i =? 6); simplify_eq; auto).
    assert (blen p1 = blen (i_payload i)) as Hl1.
    { unfold blen. f_equal. eapply set_port_ok in H1 as [_ ?]; [eassumption | exact Hb | lia | lia]. }
    eapply set_port_ok in H1 as [Hb1 HL1]; [|done|lia|lia].
    eapply set_port_ok in H2 as [Hb2 HL2]; [|done|lia|lia].
    constructor; [done | congruence | lia | unfold blen in *; lia |].
    apply orb_true_iff in Ep as [?|?]; zb; auto.
  - cbv zeta in H. split_if H; [done|]. split_if H; [done|]. zb.
    destruct (find _ _) as [[k t]|] eqn:Ef; [|done]. injection H as <- <- <-.
    apply find_some in Ef as [Hin _].
    assert (is_byte t) as Ht by (destruct (ver =? 6); cbn in Hin; unfold is_byte; intuition (simplify_eq; lia)).
    assert (length (splice 0 [t] (i_payload i)) = length (i_payload i)) as HL
      by (apply splice_length; [lia | unfold blen in *; cbn [length]; lia]).
    constructor; [apply splice_ok; [constructor; [exact Ht | constructor] | exact Hb] | exact HL | auto | | auto].
    unfold blen in *. lia.
Qed.

Section Emit.
Context (src dst : ipaddr) (traffic ttl : Z) (payload : bytes) (offset proto : Z).
Context (Hp : bytes_ok payload) (He : offset = 16 \/ offset = 6 \/ offset = 2) (Hr : offset + 2 <= blen payload).

Lemma field_zeroed pseudo c :
  bytes_ok pseudo -> (length pseudo mod 2 = 0)%nat -> 0 <= c < 65536 ->
  completes (wsum (pseudo ++ splice offset [0; 0] payload)) c ->
  checksum (pseudo ++ splice offset (be_pack 2 c) payload) = 0.
Proof.
  intros Hb Hl Hc Hs. unfold splice in *. rewrite length_be_pack. change (length [0; 0]) with 2%nat in Hs.
  rewrite !app_assoc in *. rewrite <- app_assoc in *.
  apply fill_verifies; [| | by apply Forall_drop | done | done].
  - rewrite length_app, length_take, Nat.Div0.add_mod, Hl. unfold blen in Hr.
    replace (Z.to_nat offset `min` length payload)%nat with (Z.to_nat offset) by lia.
    by destruct He as [->|[->| ->]].
  - apply bytes_ok_app; split; [done | by apply Forall_take].
Qed.

Definition emitted (pseudo : bytes) : bytes :=
  splice offset (be_pack 2 (final_sum proto (checksum (pseudo ++ splice offset [0; 0] payload)))) payload.

Lemma emitted_verifies pseudo :
  bytes_ok pseudo -> (length pseudo mod 2 = 0)%nat -> checksum (pseudo ++ emitted pseudo) = 0.
Proof.
  intros Hb Hl. assert (bytes_ok (pseudo ++ splice offset [0; 0] payload)) as Hz.
  { apply bytes_ok_app; split; [done|]. apply splice_ok; [|done]. repeat constructor; unfold is_byte; lia. }
  pose proof (checksum_bound _ Hz). apply field_zeroed; try done.
  - unfold final_sum. repeat case_match; lia.
  - unfold final_sum. pose proof (checksum_completes _ Hz). destruct (proto =? 17); [|done].
    apply completes_udp; [done | by apply wsum_nonneg].
Qed.

Lemma emitted_ok pseudo : bytes_ok (emitted pseudo) /\ length (emitted pseudo) = length payload.
Proof.
  split; [apply splice_ok; [apply be_pack_bytes | done]|]. apply splice_length; [lia|].
  unfold blen in *. rewrite length_be_pack. lia.
Qed.
End Emit.

Lemma be_pack2_list v : be_pack 2 v = [(v / 256) mod 256; v mod 256].
Proof. reflexivity. Qed.

Lemma be_unpack_pack2 v : 0 <= v < 65536 -> be_unpack [(v / 256) mod 256; v mod 256] = v.
Proof. intros Hv. rewrite <- be_pack2_list, be_unpack_pack. by apply Z.mod_small. Qed.

Lemma header4_splice tr n ttl pr c s d :
  splice 10 (be_pack 2 c) (header4 tr n ttl pr 0 s d) = header4 tr n ttl pr c s d.
Proof. reflexivity. Qed.

Lemma header4_verifies tr n ttl pr s d :
  is_byte tr -> is_byte ttl -> is_byte pr -> bytes_ok s -> bytes_ok d ->
  checksum (header4 tr n ttl pr (checksum (header4 tr n ttl pr 0 s d)) s d) = 0.
Proof.
  intros Ht Hl Hr Hs Hd.
  set (pre := [69; tr] ++ be_pack 2 (20 + n) ++ [0; 0] ++ be_pack 2 16384 ++ [ttl; pr]).
  assert (forall c, header4 tr n ttl pr c s d = pre ++ be_pack 2 c ++ s ++ d) as Heq by reflexivity.
  assert (bytes_ok pre) as Hp.
  { unfold pre. rewrite !bytes_ok_app. split_and!; auto with ffn; repeat constructor; unfold is_byte in *; lia. }
  assert (bytes_ok (s ++ d)) as Hsd by (by apply bytes_ok_app).
  assert (bytes_ok (header4 tr n ttl pr 0 s d)) as Hh
    by (rewrite Heq, bytes_ok_app; split; [done | apply bytes_ok_app; split; [apply be_pack_bytes | done]]).
  rewrite (Heq (checksum _)). apply fill_verifies; [reflexivity | done | done | by apply checksum_bound |].
  by apply checksum_completes in Hh.
Qed.

(** Decoding the IPv4 packet that was put together from a header and a payload. *)
Lemma from4_header tr n ttl pr c s d payload :
  length s = 4%nat -> length d = 4%nat -> n = blen payload -> 0 <= n <= 65515 ->
  checksum (header4 tr n ttl pr c s d) = 0 -> pr = 6 \/ pr = 17 \/ pr = 1 ->
  nat64_from4 (header4 tr n ttl pr c s d ++ payload) 6 =
    Ok {| i_protocol := pr; i_ttl := ttl; i_traffic := tr; i_payload := payload;
          i_pseudo := if negb (pr =? 1) then pseudo4 s d pr n else [] |}.
Proof.
  intros Hs Hd Hn Hb Hc Hp.
  do 4 (destruct s as [|? s]; [discriminate Hs|]). destruct s; [|discriminate Hs].
  do 4 (destruct d as [|? d]; [discriminate Hd|]). destruct d; [|discriminate Hd].
  unfold nat64_from4. set (h := header4 _ _ _ _ _ _ _) in *.
  assert (blen h = 20) as Hh by reflexivity.
  assert (blen (h ++ payload) = 20 + n) as Hl by (rewrite blen_app; lia).
  rewrite Hl. replace (20 + n <? 20) with false by lia.
  change (byte_at (h ++ payload) 0) with 69.
  change (slice 2 4 (h ++ payload)) with [((20 + n) / 256) mod 256; (20 + n) mod 256].
  change (take 20 (h ++ payload)) with h. rewrite be_unpack_pack2, (Z.eqb_refl (20 + n)), Hc by lia. cbn [Z.eqb negb orb].
  change (slice 6 8 (h ++ payload)) with [64; 0]. change (Z.land (be_unpack [64; 0]) 49151) with 0. cbn [Z.eqb negb].
  change (byte_at (h ++ payload) 9) with pr. change (byte_at (h ++ payload) 8) with ttl.
  change (byte_at (h ++ payload) 1) with tr. change (drop 20 (h ++ payload)) with payload.
  rewrite <- Hn.
  replace (existsb (Z.eqb pr) [6; 17; 1]) with true by (by destruct Hp as [->|[->| ->]]). reflexivity.
Qed.

Lemma from6_header tr n ttl pr s d payload :
  length s = 16%nat -> length d = 16%nat -> n = blen payload -> 0 <= n < 65536 -> is_byte tr ->
  pr = 6 \/ pr = 17 \/ pr = 58 ->
  nat64_from6 (header6 tr n ttl pr s d ++ payload) 4 =
    Ok {| i_protocol := pr; i_ttl := ttl; i_traffic := tr; i_payload := payload; i_pseudo := pseudo6 s d n pr |} /\
  Z.shiftr (byte_at (header6 tr n ttl pr s d ++ payload) 0) 4 = 6.
Proof.
  intros Hs Hd Hn Hb Ht Hp. unfold is_byte in Ht.
  assert (Z.lor 1610612736 (Z.shiftl tr 20) = 1536 * 2 ^ 20 + tr * 2 ^ 20) as Hw.
  { rewrite Z.shiftl_mul_pow2 by lia. change 1610612736 with (6 * 2 ^ 28).
    rewrite lor_aligned by lia. lia. }
  do 16 (destruct s as [|? s]; [discriminate Hs|]). destruct s; [|discriminate Hs].
  do 16 (destruct d as [|? d]; [discriminate Hd|]). destruct d; [|discriminate Hd].
  unfold nat64_from6. set (h := header6 _ _ _ _ _ _) in *.
  assert (blen h = 40) as Hh by reflexivity.
  assert (blen (h ++ payload) = 40 + n) as Hl by (rewrite blen_app; lia).
  split.
  - rewrite Hl. replace (40 + n <? 40) with false by lia.
    change (slice 4 6 (h ++ payload)) with [(n / 256) mod 256; n mod 256].
    rewrite be_unpack_pack2, (Z.eqb_refl (40 + n)) by lia. cbn [negb orb].
    change (byte_at (h ++ payload) 6) with pr. change (byte_at (h ++ payload) 7) with ttl.
    change (slice 0 4 (h ++ payload)) with (be_pack 4 (Z.lor 1610612736 (Z.shiftl tr 20))).
    rewrite be_unpack_pack, Hw, land_ff, Z.shiftr_div_pow2 by lia. change (256 ^ Z.of_nat 4) with (2 ^ 32).
    rewrite (Z.mod_small (_ + _)), <- Z.mul_add_distr_r, Z.div_mul by lia.
    replace ((1536 + tr) mod 256) with tr by (apply (Z.mod_unique _ _ 6); lia).
    change (drop 40 (h ++ payload)) with payload. rewrite <- Hn.
    replace (existsb (Z.eqb pr) [6; 17; 58]) with true by (by destruct Hp as [->|[->| ->]]). reflexivity.
  - change (byte_at (h ++ payload) 0) with ((Z.lor 1610612736 (Z.shiftl tr 20)) / 256 / 256 / 256 mod 256).
    rewrite Hw, !Z.div_div, Z.shiftr_div_pow2 by lia.
    assert ((1536 * 2 ^ 20 + tr * 2 ^ 20) / (256 * (256 * 256)) = 96 + tr / 16) as ->.
    { symmetry. apply (Z.div_unique _ _ _ (tr mod 16 * 2 ^ 20)); pose proof (Z.div_mod tr 16 ltac:(lia));
        pose proof (Z.mod_pos_bound tr 16 ltac:(lia)); lia. }
    assert (0 <= tr / 16 < 16) by (split; [apply Z.div_pos | apply Z.div_lt_upper_bound]; lia).
    rewrite Z.mod_small by lia. symmetry. apply (Z.div_unique _ _ _ (tr / 16)); lia.
Qed.

(** ** [nat64_packet] as a whole *)

Definition ipaddr_ok (x : ipaddr) : Prop := match x with V4 a => addr4_ok a | V6 a => addr6_ok a end.

(** The header checks of either version. *)
Definition nat64_decode (packet : bytes) : result exn nat64_in :=
  if Z.shiftr (byte_at packet 0) 4 =? 6 then nat64_from6 packet 4 else nat64_from4 packet 6.

Lemma packed_ok x : bytes_ok (packed x).
Proof. destruct x; apply be_pack_bytes. Qed.

Lemma packed_length x : length (packed x) = if version x =? 4 then 4%nat else 16%nat.
Proof. by destruct x. Qed.

Lemma from6_inv packet v i :
  bytes_ok packet -> nat64_from6 packet v = Ok i ->
  v = 4 /\ bytes_ok (i_payload i) /\ is_byte (i_traffic i) /\ i_ttl i < 256 /\ blen (i_payload i) < 65536.
Proof.
  intros Hb H. unfold nat64_from6 in H. split_if H; [done|]. cbv zeta in H. split_if H; [done|]. injection H as <-.
  zb. cbn. pose proof (byte_at_ok packet 7 Hb) as H7. unfold is_byte in *. split_and!; [done | by apply Forall_drop | | | lia |].
  1,2: rewrite land_ff; pose proof (Z.mod_pos_bound (Z.shiftr (be_unpack (slice 0 4 packet)) 20) 256); lia.
  pose proof (be_unpack_bound (slice 4 6 packet) (bytes_ok_slice _ _ _ Hb)) as Hu.
  rewrite length_slice in Hu by lia. change (256 ^ Z.of_nat (Z.to_nat (6 - 4))) with 65536 in Hu.
  unfold blen in *. rewrite length_drop. lia.
Qed.

Lemma from4_inv packet v i :
  bytes_ok packet -> nat64_from4 packet v = Ok i ->
  v = 6 /\ bytes_ok (i_payload i) /\ is_byte (i_traffic i) /\ i_ttl i < 256 /\ blen (i_payload i) < 65536.
Proof.
  intros Hb H. unfold nat64_from4 in H. split_if H; [done|]. split_if H; [done|]. cbv zeta in H.
  split_if H; [done|]. injection H as <-. zb. cbn.
  pose proof (byte_at_ok packet 8 Hb) as B8. pose proof (byte_at_ok packet 1 Hb) as B1. unfold is_byte in *.
  split_and!; [done | by apply Forall_drop | lia | lia | lia |].
  pose proof (be_unpack_bound (slice 2 4 packet) (bytes_ok_slice _ _ _ Hb)) as Hu.
  rewrite length_slice in Hu by lia. change (256 ^ Z.of_nat (Z.to_nat (4 - 2))) with 65536 in Hu.
  unfold blen in *. rewrite length_drop. lia.
Qed.

Lemma header4_addresses tr n ttl pr c s d p :
  length s = 4%nat -> length d = 4%nat ->
  slice 12 16 (header4 tr n ttl pr c s d ++ p) = s /\ slice 16 20 (header4 tr n ttl pr c s d ++ p) = d.
Proof.
  intros Hs Hd. do 4 (destruct s as [|? s]; [discriminate Hs|]). destruct s; [|discriminate Hs].
  do 4 (destruct d as [|? d]; [discriminate Hd|]). destruct d; [|discriminate Hd]. done.
Qed.

Lemma header6_addresses tr n ttl pr s d p :
  length s = 16%nat -> length d = 16%nat ->
  slice 8 24 (header6 tr n ttl pr s d ++ p) = s /\ slice 24 40 (header6 tr n ttl pr s d ++ p) = d.
Proof.
  intros Hs Hd. do 16 (destruct s as [|? s]; [discriminate Hs|]). destruct s; [|discriminate Hs].
  do 16 (destruct d as [|? d]; [discriminate Hd|]). destruct d; [|discriminate Hd]. done.
Qed.

Lemma pseudo4_ok s d pr n :
  bytes_ok s -> bytes_ok d -> is_byte pr -> length s = 4%nat -> length d = 4%nat ->
  bytes_ok (pseudo4 s d pr n) /\ (length (pseudo4 s d pr n) mod 2 = 0)%nat.
Proof.
  intros Hs Hd Hp Ls Ld. unfold pseudo4. rewrite !bytes_ok_app, !length_app, Ls, Ld.
  split_and!; auto with ffn. repeat constructor; unfold is_byte in *; lia.
Qed.

Lemma pseudo6_ok s d pr n :
  bytes_ok s -> bytes_ok d -> is_byte pr -> length s = 16%nat -> length d = 16%nat ->
  bytes_ok (pseudo6 s d n pr) /\ (length (pseudo6 s d n pr) mod 2 = 0)%nat.
Proof.
  intros Hs Hd Hp Ls Ld. unfold pseudo6. rewrite !bytes_ok_app, !length_app, Ls, Ld.
  split_and!; auto with ffn. repeat constructor; unfold is_byte in *; lia.
Qed.

Lemma if_true {A} (c : bool) (x y : A) : c = true -> (if c then x else y) = x.
Proof. by intros ->. Qed.

(** A decoded packet with the fields its maker gave it. *)
Record decodes (out : bytes) (tr ttl proto : Z) (src dst : ipaddr) : Prop := {
  dec_in : exists i, nat64_decode out = Ok i /\ i_ttl i = ttl /\ i_traffic i = tr /\ i_protocol i = proto /\
             checksum (i_pseudo i ++ i_payload i) = 0;
  dec_v4 : version src = 4 -> slice 12 16 out = packed src /\ slice 16 20 out = packed dst;
  dec_v6 : version src = 6 -> slice 8 24 out = packed src /\ slice 24 40 out = packed dst }.

Section EmitDecodes.
Context (src dst : ipaddr) (tr ttl : Z) (payload : bytes) (offset proto : Z) (out : bytes).
Context (Ht : is_byte tr) (Hl : is_byte (ttl - 1)) (Hb : bytes_ok payload) (Hn : blen payload < 65536).
Context (Ho : offset = 16 \/ offset = 6 \/ offset = 2) (Hr : offset + 2 <= blen payload).

Lemma emit4_decodes :
  version src = 4 -> version dst = 4 -> proto = 6 \/ proto = 17 \/ proto = 1 ->
  nat64_emit src dst tr ttl payload offset proto = Ok out -> decodes out tr (ttl - 1) proto src dst.
Proof.
  intros Vs Vd Hp H. unfold nat64_emit in H. rewrite Vs in H. cbn [Z.eqb Pos.eqb] in H.
  pose proof (packed_length src) as Ls. rewrite Vs in Ls. pose proof (packed_length dst) as Ld. rewrite Vd in Ld.
  assert (blen (splice offset [0; 0] payload) = blen payload) as HL
    by (unfold blen; f_equal; apply splice_length; [lia | change (blen [0; 0]) with 2; lia]).
  rewrite HL in H. destruct (_ >? 65515) eqn:Ef; [done|]. rewrite Z.gtb_ltb in Ef. zb.
  cbn [mbind result_bind] in H. rewrite splice_splice, header4_splice in H
    by (lia || (change (blen [0; 0]) with 2; lia) || by rewrite length_be_pack).
  injection H as <-. set (ps := if negb (proto =? 1) then pseudo4 _ _ _ _ else []).
  fold (emitted payload offset proto ps). set (em := emitted payload offset proto ps).
  destruct (emitted_ok payload offset proto Hb Ho Hr ps) as [Eb El]. fold em in Eb, El.
  assert (blen payload = blen em) as Hbl by (unfold blen; by rewrite El).
  assert (is_byte proto) as Hpb by (unfold is_byte; lia). pose proof (blen_nonneg payload).
  constructor; [|intros _; by apply header4_addresses | by rewrite Vs].
  eexists; split; [unfold nat64_decode; apply from4_header;
    [done | done | done | lia | apply header4_verifies; auto using packed_ok | done]|].
  cbn [i_ttl i_traffic i_protocol i_pseudo i_payload]. fold ps. split_and!; [done..|].
  assert (bytes_ok ps /\ (length ps mod 2 = 0)%nat) as [? ?].
  { unfold ps. destruct (negb _); [apply pseudo4_ok; auto using packed_ok | split; [constructor | done]]. }
  by apply emitted_verifies.
Qed.

Lemma emit6_decodes :
  version src = 6 -> version dst = 6 -> proto = 6 \/ proto = 17 \/ proto = 58 ->
  nat64_emit src dst tr ttl payload offset proto = Ok out -> decodes out tr (ttl - 1) proto src dst.
Proof.
  intros Vs Vd Hp H. unfold nat64_emit in H. rewrite Vs in H. cbn [Z.eqb Pos.eqb] in H.
  pose proof (packed_length src) as Ls. rewrite Vs in Ls. pose proof (packed_length dst) as Ld. rewrite Vd in Ld.
  assert (blen (splice offset [0; 0] payload) = blen payload) as HL
    by (unfold blen; f_equal; apply splice_length; [lia | change (blen [0; 0]) with 2; lia]).
  rewrite HL in H. cbn [mbind result_bind] in H. rewrite splice_splice in H
    by (lia || (change (blen [0; 0]) with 2; lia) || by rewrite length_be_pack).
  injection H as <-. set (ps := pseudo6 _ _ _ _).
  fold (emitted payload offset proto ps). set (em := emitted payload offset proto ps).
  destruct (emitted_ok payload offset proto Hb Ho Hr ps) as [Eb El]. fold em in Eb, El.
  assert (blen payload = blen em) as Hbl by (unfold blen; by rewrite El).
  assert (is_byte proto) as Hpb by (unfold is_byte; lia). pose proof (blen_nonneg payload).
  destruct (from6_header tr (blen payload) (ttl - 1) proto (packed src) (packed dst) em) as [Hd H6];
    [done | done | done | lia | done | done |].
  constructor; [|by rewrite Vs | intros _; by apply header6_addresses].
  apply Z.eqb_eq in H6. eexists; split; [etrans; [|exact Hd]; unfold nat64_decode; exact (if_true _ _ _ H6)|].
  cbn [i_ttl i_traffic i_protocol i_pseudo i_payload]. fold ps. split_and!; [done..|].
  destruct (pseudo6_ok (packed src) (packed dst) proto (blen payload)) as [? ?]; auto using packed_ok.
  by apply emitted_verifies.
Qed.
End EmitDecodes.

(**  Whatever [nat64_packet] emits is itself a well-formed packet of the other
    IP version: it passes the decoder's own header checks (length, version, header
    checksum, no fragmentation), carries the new addresses, the traffic class of
    the input and its hop limit less one, and its transport checksum verifies over
    the new pseudo header. *)
Theorem nat64_packet_valid packet src dst sp dp out :
  bytes_ok packet -> nat64_packet packet src dst sp dp = Ok out ->
  exists i proto, nat64_decode packet = Ok i /\ 1 < i_ttl i /\
    decodes out (i_traffic i) (i_ttl i - 1) proto src dst.
Proof.
  intros Hb H. unfold nat64_packet in H. split_if H; [done|]. cbv zeta in H. zb.
  apply bind_ok_inv in H as (i & Hi & H). cbn beta in H. split_if H; [done|]. zb.
  apply bind_ok_inv in H as ([[payload offset] proto] & Ht & H). cbn in H.
  assert (version src = version dst) as Hv by done.
  destruct (Z.shiftr (byte_at packet 0) 4 =? 6) eqn:V6; zb.
  - apply from6_inv in Hi as Hin; [|done]. destruct Hin as (V4 & Pb & Tb & Lt & Ln).
    apply nat64_transport_inv in Ht as [T1 T2 T3 T4 T5]; [|done]. rewrite V6 in T5. cbn [Z.eqb Pos.eqb] in T5.
    exists i, proto. split_and!; [unfold nat64_decode; rewrite V6; rewrite V4 in Hi; exact Hi | lia |].
    apply (emit4_decodes src dst (i_traffic i) (i_ttl i) payload offset proto out);
      first [done | congruence | unfold is_byte; lia | unfold blen in *; congruence].
  - split_if Hi; [|done]. zb.
    apply from4_inv in Hi as Hin; [|done]. destruct Hin as (V6' & Pb & Tb & Lt & Ln).
    apply nat64_transport_inv in Ht as [T1 T2 T3 T4 T5]; [|done].
    destruct (Z.shiftr (byte_at packet 0) 4 =? 6) eqn:E6 in T5; zb; [lia|].
    exists i, proto. split_and!; [| lia |].
    { unfold nat64_decode. apply Z.eqb_neq in V6. rewrite V6. rewrite V6' in Hi. exact Hi. }
    apply (emit6_decodes src dst (i_traffic i) (i_ttl i) payload offset proto out);
      first [done | congruence | unfold is_byte; lia | unfold blen in *; congruence].
Qed.

(** An ICMPv6 echo request from 2001:db8::1 to 64:ff9b::c000:201 and the IPv4 pair
    it is translated to. *)
Definition echo6 : bytes :=
  header6 0 8 64 58 (packed6 (n_addr doc_prefix + 1)) (packed6 (n_addr well_known + 3221225985)) ++
  splice 2 (be_pack 2 (checksum (pseudo6 (packed6 (n_addr doc_prefix + 1))
                                   (packed6 (n_addr well_known + 3221225985)) 8 58 ++ [128; 0; 0; 0; 0; 1; 0; 1])))
    [128; 0; 0; 0; 0; 1; 0; 1].

Lemma nat64_packet_valid_witness :
  exists out i proto, nat64_packet echo6 (V4 3405803777) (V4 3221225985) None None = Ok out /\
    nat64_decode echo6 = Ok i /\ 1 < i_ttl i /\
    decodes out (i_traffic i) (i_ttl i - 1) proto (V4 3405803777) (V4 3221225985).
Proof.
  destruct (nat64_packet echo6 (V4 3405803777) (V4 3221225985) None None) as [out|e] eqn:E.
  - destruct (nat64_packet_valid echo6 (V4 3405803777) (V4 3221225985) None None out) as (i & proto & H).
    + refine (bool_decide_unpack (bytes_ok echo6) _). vm_compute. exact I.
    + exact E.
    + exists out, i, proto. split; [reflexivity | exact H].
  - exfalso. vm_compute in E. discriminate E.
Defined.
