(* ===== verification/DhcpIntent.v ===== *)
(** * Validation of a DHCP server intent (opt/ffn_dhcp_server.py)

    [validate_server] turns the JSON of one device into a normalised [server_spec]
    or names the fault; [validate_intent] does so for every device in sorted order.
    Addresses are numbers (their canonical text is what the code stores), everything
    else is the JSON the code reads.  The theorems: an accepted intent is well formed
    ([spec_ok]: disjoint ordered ranges of client addresses, unique reservations,
    bounded lease) and validating the text of an accepted intent again gives the same
    intent. *)

From S2P Require Import Prelude PyStr PyDict PyIp.

(** One constructor per [raise ValueError] of the two functions. *)
Inductive dhcp_fault :=
| NotAddress | NotUnicast | BadDevice | UnknownField | NoInterfaceName | BadInterfaceAddress | NoRoom
| BadPools | BadPoolPair | PoolReversed | PoolOutside | PoolHasInterface | PoolsOverlap | PoolsTooBig
| BadReserved | BadMac | ReservationOutside | ReservationTwice | NothingToServe | BadLease | BadProbe
| UnknownOption | BadMask | TooManyAddresses | BadDomain
| NoServers | TooManyServers | BadDigest.

#[global] Instance dhcp_fault_eq_dec : EqDecision dhcp_fault.
Proof. solve_decision. Defined.

Definition MAX_POOL : Z := 65536.
Definition MAX_SERVERS : Z := 64.
Definition MIN_LEASE : Z := 60.
Definition MAX_LEASE : Z := 400 * 86400.

(** ** The regular expressions *)

(** [[1-9][0-9]{0,k}]. *)
Definition number_name (k : nat) (s : pystr) : bool :=
  match s with
  | c :: t => between 49 c 57 && forallb is_digit t && (length t <=? k)%nat
  | [] => false
  end.

(** [DEVICE]. *)
Definition device_base (s : pystr) : bool :=
  match s with
  | 112 :: t => number_name 3 t
  | 97 :: 101 :: t => number_name 2 t
  | _ => false
  end.
Definition DEVICE (s : pystr) : bool :=
  match split_on 46 s with
  | [base] => device_base base
  | [base; unit] => device_base base && number_name 3 unit
  | _ => false
  end.

Definition is_hex (c : Z) : bool := is_digit c || between 97 c 102.
(** [MAC]: six pairs of lower-case hexadecimal digits separated by colons. *)
Definition MAC (s : pystr) : bool :=
  let pairs := split_on 58 s in
  (length pairs =? 6)%nat && forallb (fun p => (length p =? 2)%nat && forallb is_hex p) pairs.

(** [str.lower] on the characters [MAC] can accept; any other character stays
    outside the alphabet. *)
Definition lower1 (c : Z) : Z := if between 65 c 90 then c + 32 else c.
Definition lower (s : pystr) : pystr := map lower1 s.

(** [[a-z0-9]] under [re.I]: the ASCII letters and digits and the four other
    letters that fold to ASCII. *)
Definition is_alnum_i (c : Z) : bool :=
  is_digit c || between 97 c 122 || between 65 c 90 || (c =? 304) || (c =? 305) || (c =? 383) || (c =? 8490).
(** One label: it starts and ends with a letter or digit and has at most 63 characters. *)
Definition domain_label (s : pystr) : bool :=
  (1 <=? length s)%nat && (length s <=? 63)%nat
  && forallb (fun c => is_alnum_i c || (c =? 45)) s
  && match head s with Some c => is_alnum_i c | None => false end
  && match last s with Some c => is_alnum_i c | None => false end.
Definition DOMAIN (s : pystr) : bool :=
  between 1 (blen s) 253 && forallb domain_label (split_on 46 s).

Definition is_digest (s : pystr) : bool := (length s =? 64)%nat && forallb is_hex s.

(** ** The normalised specification *)

Record dhcp_options := {
  gateway : option Z;
  subnet_mask : option Z;
  dns : list Z;
  ntp : list Z;
  wins : list Z;
  domain : option pystr }.

Record server_spec := {
  interface : pystr;
  address : Z * Z;
  pools : list (Z * Z);
  reserved : list (pystr * Z);
  lease : option Z;
  probe : bool;
  options : dhcp_options }.

Definition fault_of {A} (e : dhcp_fault) (o : option A) : result dhcp_fault A :=
  match o with Some a => Ok a | None => Err e end.

(** [_ip4(value, what)]. *)
Definition _ip4 (value : json) : result dhcp_fault Z :=
  address ← fault_of NotAddress (ip4_of_json value);
  _ ← raise_if (is_multicast address || is_unspecified address || is_loopback address) NotUnicast;
  Ok address.

(** The hosts of the interface's network: first and last client address. *)
Definition hosts (addr : Z * Z) : Z * Z :=
  (network_address addr.1 addr.2 + 1, broadcast_address addr.1 addr.2 - 1).

(** One round of [for item in spec.get('pools', [])]. *)
Definition check_pool (addr : Z * Z) (st : list (Z * Z) * Z) (item : json) :
    result dhcp_fault (list (Z * Z) * Z) :=
  match item with
  | JList [v; w] =>
      first ← _ip4 v;
      last ← _ip4 w;
      _ ← raise_if (last <? first) PoolReversed;
      _ ← raise_if (negb (((hosts addr).1 <=? first) && (last <=? (hosts addr).2))) PoolOutside;
      _ ← raise_if ((first <=? addr.1) && (addr.1 <=? last)) PoolHasInterface;
      Ok (st.1 ++ [(first, last)], st.2 + (last - first + 1))
  | _ => Err BadPoolPair
  end.

Definition pair_le (x y : Z * Z) : bool := (x.1 <? y.1) || ((x.1 =? y.1) && (x.2 <=? y.2)).

(** [for (a, b), (c, _) in zip(pools, pools[1:]): if c <= b]. *)
Fixpoint pools_overlap (l : list (Z * Z)) : bool :=
  match l with
  | (a, b) :: (((c, _) :: _) as t) => (c <=? b) || pools_overlap t
  | _ => false
  end.

Definition validate_pools (addr : Z * Z) (spec : list (pystr * json)) : result dhcp_fault (list (Z * Z)) :=
  match jget_default (lit "pools") (JList []) spec with
  | JList items =>
      _ ← raise_if (32 <? blen items) BadPools;
      '(ps, total) ← foldM_res (check_pool addr) ([], 0) items;
      let ps := py_sorted pair_le ps in
      _ ← raise_if (pools_overlap ps) PoolsOverlap;
      _ ← raise_if (MAX_POOL <? total) PoolsTooBig;
      Ok ps
  | _ => Err BadPools
  end.

(** One round of [for mac, ip in spec.get('reserved', {}).items()]. *)
Definition check_reservation (addr : Z * Z) (res : list (pystr * Z)) (kv : pystr * json) :
    result dhcp_fault (list (pystr * Z)) :=
  let mac := lower kv.1 in
  _ ← raise_if (negb (MAC mac)) BadMac;
  target ← _ip4 kv.2;
  _ ← raise_if (negb (in_network addr.1 addr.2 target)
        || negb (((hosts addr).1 <=? target) && (target <=? (hosts addr).2)) || (target =? addr.1)) ReservationOutside;
  _ ← raise_if (dmem mac res || bool_decide (target ∈ res.*2)) ReservationTwice;
  Ok (dset mac target res).

Definition validate_reserved (addr : Z * Z) (spec : list (pystr * json)) : result dhcp_fault (list (pystr * Z)) :=
  match jget_default (lit "reserved") (JObj []) spec with
  | JObj rows =>
      _ ← raise_if (4096 <? blen rows) BadReserved;
      foldM_res (check_reservation addr) [] rows
  | _ => Err BadReserved
  end.

Definition validate_lease (v : json) : result dhcp_fault (option Z) :=
  match v with
  | JNull => Ok None
  | JInt n => _ ← raise_if (negb ((MIN_LEASE <=? n) && (n <=? MAX_LEASE))) BadLease; Ok (Some n)
  | _ => Err BadLease
  end.

(** [IPv4Network('0.0.0.0/' + str(value)).netmask]; the text of a value that is
    neither a string nor an integer is never a mask. *)
Definition mask_of_json (v : json) : option Z :=
  match v with
  | JStr s => netmask <$> mask_parse s
  | JInt n => if (0 <=? n) && (n <=? 32) then Some (netmask n) else None
  | _ => None
  end.

Definition validate_list (name : pystr) (o : list (pystr * json)) : result dhcp_fault (list Z) :=
  match jget_default name (JList []) o with
  | JList values => _ ← raise_if (4 <? blen values) TooManyAddresses; mapM_res _ip4 values
  | _ => Err TooManyAddresses
  end.

Definition option_names : list pystr := map lit ["gateway"; "subnet_mask"; "domain"; "dns"; "ntp"; "wins"]%string.

Definition validate_options (v : json) : result dhcp_fault dhcp_options :=
  match v with
  | JObj o =>
      _ ← raise_if (extra_keys option_names o) UnknownOption;
      gw ← (let g := jget (lit "gateway") o in if truthy g then Some <$> _ip4 g else Ok None);
      mask ← (let m := jget (lit "subnet_mask") o in
              if truthy m then Some <$> fault_of BadMask (mask_of_json m) else Ok None);
      dns ← validate_list (lit "dns") o;
      ntp ← validate_list (lit "ntp") o;
      wins ← validate_list (lit "wins") o;
      dom ← (let d := jget (lit "domain") o in
             if truthy d then
               match d with
               | JStr s => _ ← raise_if (negb (DOMAIN s)) BadDomain; Ok (Some s)
               | _ => Err BadDomain
               end
             else Ok None);
      Ok {| gateway := gw; subnet_mask := mask; dns := dns; ntp := ntp; wins := wins; domain := dom |}
  | _ => Err UnknownOption
  end.

Definition field_names : list pystr :=
  map lit ["interface"; "address"; "pools"; "reserved"; "lease"; "probe"; "options"]%string.

Definition validate_server (device : json) (spec : json) : result dhcp_fault server_spec :=
  match device, spec with
  | JStr d, JObj sp =>
      _ ← raise_if (negb (DEVICE d)) BadDevice;
      _ ← raise_if (extra_keys field_names sp) UnknownField;
      name ← match jget (lit "interface") sp with
             | JStr (c :: t) => Ok (c :: t)
             | _ => Err NoInterfaceName
             end;
      addr ← fault_of BadInterfaceAddress (iface_of_json (jget (lit "address") sp));
      _ ← raise_if ((30 <? addr.2) || is_loopback addr.1 || is_multicast addr.1) NoRoom;
      ps ← validate_pools addr sp;
      res ← validate_reserved addr sp;
      _ ← raise_if (bool_decide (ps = []) && bool_decide (res = [])) NothingToServe;
      ls ← validate_lease (jget (lit "lease") sp);
      pr ← match jget_default (lit "probe") (JBool false) sp with JBool b => Ok b | _ => Err BadProbe end;
      opts ← validate_options (jget_default (lit "options") (JObj []) sp);
      Ok {| interface := name; address := addr; pools := ps; reserved := res; lease := ls; probe := pr; options := opts |}
  | JStr d, _ => if DEVICE d then Err UnknownField else Err BadDevice
  | _, _ => Err BadDevice
  end.

Record dhcp_intent := { configuration : option pystr; servers : list (pystr * server_spec) }.

Definition validate_intent (intent : json) : result dhcp_fault dhcp_intent :=
  match intent with
  | JObj o =>
      match jget (lit "servers") o with
      | JObj rows =>
          _ ← raise_if (MAX_SERVERS <? blen rows) TooManyServers;
          cfg ← match jget (lit "configuration") o with
                | JNull => Ok None
                | JStr s => _ ← raise_if (negb (is_digest s)) BadDigest; Ok (Some s)
                | _ => Err BadDigest
                end;
          ss ← mapM_res (fun kv : pystr * json => s ← validate_server (JStr kv.1) kv.2; Ok (kv.1, s))
                 (py_sorted (fun a b : pystr * json => str_le a.1 b.1) rows);
          Ok {| configuration := cfg; servers := ss |}
      | _ => Err NoServers
      end
  | _ => Err NoServers
  end.

(** ** What an accepted intent guarantees *)

Definition client_address (addr : Z * Z) (a : Z) : Prop :=
  (hosts addr).1 <= a <= (hosts addr).2 /\ a <> addr.1.
Definition unicast (a : Z) : Prop :=
  is_ip4 a /\ is_multicast a = false /\ is_unspecified a = false /\ is_loopback a = false.
Definition pool_ok (addr : Z * Z) (p : Z * Z) : Prop :=
  unicast p.1 /\ unicast p.2 /\ p.1 <= p.2 /\ (hosts addr).1 <= p.1 /\ p.2 <= (hosts addr).2 /\ ~ (p.1 <= addr.1 <= p.2).
Definition pool_total (l : list (Z * Z)) : Z := fold_right (fun p n => p.2 - p.1 + 1 + n) 0 l.
Definition options_ok (o : dhcp_options) : Prop :=
  (forall g, gateway o = Some g -> unicast g) /\
  (forall m, subnet_mask o = Some m -> exists p, 0 <= p <= 32 /\ m = netmask p) /\
  Forall (fun l => blen l <= 4 /\ Forall unicast l) [dns o; ntp o; wins o] /\
  (forall d, domain o = Some d -> DOMAIN d = true).

Record spec_ok (s : server_spec) : Prop := {
  ok_interface : interface s <> [];
  ok_address : is_ip4 (address s).1 /\ 0 <= (address s).2 <= 30;
  ok_local : is_loopback (address s).1 = false /\ is_multicast (address s).1 = false;
  ok_pools : Forall (pool_ok (address s)) (pools s);
  ok_disjoint : StronglySorted (fun p q => p.2 < q.1) (pools s);
  ok_count : blen (pools s) <= 32;
  ok_total : pool_total (pools s) <= MAX_POOL;
  ok_macs : Forall (fun kv => MAC kv.1 = true /\ lower kv.1 = kv.1 /\ unicast kv.2 /\ client_address (address s) kv.2) (reserved s);
  ok_keys : dict_ok (reserved s);
  ok_unique : NoDup (reserved s).*2;
  ok_reserved : blen (reserved s) <= 4096;
  ok_some : pools s <> [] \/ reserved s <> [];
  ok_lease : forall n, lease s = Some n -> MIN_LEASE <= n <= MAX_LEASE;
  ok_options : options_ok (options s) }.

Lemma fault_of_ok {A} e (o : option A) a : fault_of e o = Ok a -> o = Some a.
Proof. destruct o; cbn; congruence. Qed.

Lemma _ip4_ok v a : _ip4 v = Ok a -> unicast a /\ ip4_of_json v = Some a.
Proof.
  unfold _ip4, unicast. intros H. inv_res. apply fault_of_ok in Hv. zb.
  split; [|done]. split; [by eapply ip4_of_json_bound | done].
Qed.

Lemma check_pool_ok addr st item st' :
  check_pool addr st item = Ok st' ->
  exists p, pool_ok addr p /\ st' = (st.1 ++ [p], st.2 + (p.2 - p.1 + 1)).
Proof.
  unfold check_pool. destruct item as [| | | | |[|v [|w [|? ?]]]|]; try done. intros H. inv_res.
  apply _ip4_ok in Hv as [Hu _], Hv0 as [Hu0 _]. zb. eexists (_, _). split; [|reflexivity].
  unfold pool_ok. cbn. apply andb_false_iff in Hv3. split_and!; done || lia.
Qed.

Lemma pool_total_app l1 l2 : pool_total (l1 ++ l2) = pool_total l1 + pool_total l2.
Proof. unfold pool_total. induction l1 as [|p l IH]; cbn [app fold_right]; lia. Qed.

Lemma pool_total_perm l1 l2 : l1 ≡ₚ l2 -> pool_total l1 = pool_total l2.
Proof. unfold pool_total. induction 1; cbn [fold_right] in *; lia. Qed.

Lemma check_pools_ok addr items : forall st st',
  foldM_res (check_pool addr) st items = Ok st' -> Forall (pool_ok addr) st.1 -> st.2 = pool_total st.1 ->
  Forall (pool_ok addr) st'.1 /\ st'.2 = pool_total st'.1 /\ length st'.1 = (length st.1 + length items)%nat.
Proof.
  induction items as [|x items IH]; intros st st'; cbn [foldM_res length]; [intros; inv_res; split_and!; done || lia|].
  intros H Hf Ht. inv_res. apply check_pool_ok in Hv as (p & Hp & ->).
  apply IH in H as (H1 & H2 & H3); cbn [fst snd] in *.
  - rewrite length_app in H3. cbn in H3. split_and!; done || lia.
  - apply Forall_app. split; [done | by constructor].
  - rewrite pool_total_app. unfold pool_total at 2. cbn. lia.
Qed.

Lemma pools_overlap_sorted l :
  Forall (fun p => p.1 <= p.2) l -> pools_overlap l = false -> StronglySorted (fun p q => p.2 < q.1) l.
Proof.
  induction 1 as [|[a b] l Hp Hl IH]; [constructor|]. intros Ho.
  destruct l as [|[c d] t]; [by repeat constructor|].
  cbn [pools_overlap] in Ho. zb. specialize (IH H0). constructor; [done|].
  inversion IH as [|? ? Ht Hc]; subst. inversion Hl; subst. cbn in *.
  constructor; [cbn; lia|]. eapply Forall_impl; [exact Hc|]. cbn. lia.
Qed.

Lemma validate_pools_ok addr sp ps :
  validate_pools addr sp = Ok ps ->
  Forall (pool_ok addr) ps /\ StronglySorted (fun p q => p.2 < q.1) ps /\ blen ps <= 32 /\ pool_total ps <= MAX_POOL.
Proof.
  unfold validate_pools. destruct (jget_default _ _ _) as [| | | | |items|]; try done. intros H. inv_res.
  destruct v0 as [l total]. inv_res. apply check_pools_ok in Hv0 as (H1 & H2 & H3); [|constructor|done].
  cbn [fst snd] in *. pose proof (py_sorted_perm pair_le l) as Hp.
  assert (Forall (pool_ok addr) (py_sorted pair_le l)) as Hf by (by rewrite Hp).
  split; [done|]. split; [|split].
  - apply pools_overlap_sorted; [|done]. eapply Forall_impl; [exact Hf|]. unfold pool_ok. tauto.
  - unfold blen in *. rewrite Hp, H3. cbn. bool_lia.
  - rewrite (pool_total_perm _ _ Hp). bool_lia.
Qed.

Definition reserved_ok (addr : Z * Z) (res : list (pystr * Z)) : Prop :=
  Forall (fun kv => MAC kv.1 = true /\ lower kv.1 = kv.1 /\ unicast kv.2 /\ client_address addr kv.2) res /\
  dict_ok res /\ NoDup res.*2.

Lemma lower_idem s : lower (lower s) = lower s.
Proof.
  unfold lower. rewrite List.map_map. apply map_ext. intros c. unfold lower1, between. case_ifs; bool_lia.
Qed.

Lemma check_reservation_ok addr res kv res' :
  check_reservation addr res kv = Ok res' -> reserved_ok addr res ->
  reserved_ok addr res' /\ length res' = S (length res).
Proof.
  unfold check_reservation. intros H (Hf & Hk & Hv). inv_res. apply _ip4_ok in Hv1 as [Hu _].
  apply orb_false_iff in Hv2 as [Hv2 Hne]. zb. apply bool_decide_eq_false in H0.
  rewrite dset_new by done. split; [|by rewrite length_app, Nat.add_comm].
  split; [|split].
  - apply Forall_app. split; [done|]. constructor; [|constructor]. cbn [fst snd].
    rewrite lower_idem. unfold client_address. split_and!; done || lia.
  - unfold dict_ok in *. rewrite fmap_app. cbn. apply NoDup_app. split; [done|]. split; [|apply NoDup_singleton].
    intros x Hx. rewrite list_elem_of_singleton. intros ->. unfold dmem in H.
    destruct (dget _ res) eqn:E; [done|]. by apply dget_None_keys in E.
  - rewrite fmap_app. cbn. apply NoDup_app. split; [done|]. split; [|apply NoDup_singleton].
    intros x Hx. rewrite list_elem_of_singleton. by intros ->.
Qed.

Lemma check_reservations_ok addr rows : forall res res',
  foldM_res (check_reservation addr) res rows = Ok res' -> reserved_ok addr res ->
  reserved_ok addr res' /\ length res' = (length res + length rows)%nat.
Proof.
  induction rows as [|x rows IH]; intros res res'; cbn [foldM_res length]; [intros; inv_res; split; [done | lia]|].
  intros H Hr. inv_res. apply check_reservation_ok in Hv as [H1 H2]; [|done]. apply IH in H as [H3 H4]; [|done].
  split; [done | lia].
Qed.

Lemma validate_reserved_ok addr sp res :
  validate_reserved addr sp = Ok res -> reserved_ok addr res /\ blen res <= 4096.
Proof.
  unfold validate_reserved. destruct (jget_default _ _ _) as [| | | | | |rows]; try done. intros H. inv_res.
  apply check_reservations_ok in H as [H1 H2]; [|by repeat constructor]. split; [done|].
  unfold blen in *. cbn in H2. bool_lia.
Qed.

Lemma validate_list_ok name o l : validate_list name o = Ok l -> blen l <= 4 /\ Forall unicast l.
Proof.
  unfold validate_list. destruct (jget_default _ _ _) as [| | | | |vs|]; try done. intros H. inv_res.
  apply mapM_res_Forall2 in H. pose proof (Forall2_length _ _ _ H) as Hl. unfold blen in *. split; [bool_lia|].
  induction H as [|x y xs ys Hxy _ IH]; constructor; [by apply _ip4_ok in Hxy as [? _] | apply IH; cbn in *; bool_lia].
Qed.

Lemma mask_of_json_ok v m : mask_of_json v = Some m -> exists p, 0 <= p <= 32 /\ m = netmask p.
Proof.
  destruct v; cbn [mask_of_json]; try done.
  - destruct (_ && _) eqn:E; [|done]. intros [= <-]. exists n. split; [bool_lia | done].
  - destruct (mask_parse s) as [p|] eqn:E; [|done]. cbn. intros [= <-]. exists p. split; [by eapply mask_parse_bound | done].
Qed.

Lemma validate_options_ok v o : validate_options v = Ok o -> options_ok o.
Proof.
  unfold validate_options. destruct v as [| | | | | |kv]; try done. intros H. inv_res.
  apply validate_list_ok in Hv2, Hv3, Hv4. unfold options_ok. cbn. split_and!.
  - intros g ->. cbn zeta in Hv0. split_if Hv0; [|done]. destruct (_ip4 _) eqn:E'; [|done]. cbn in Hv0.
    simplify_eq. by apply _ip4_ok in E' as [? _].
  - intros m ->. cbn zeta in Hv1. split_if Hv1; [|done]. destruct (mask_of_json _) eqn:E'; [|done]. cbn in Hv1.
    simplify_eq. by eapply mask_of_json_ok.
  - apply Forall_cons; split; [done|]. apply Forall_cons; split; [done|]. by apply Forall_singleton.
  - intros d ->. cbn zeta in Hv5. split_if Hv5; [|done]. destruct (jget (lit "domain") kv) as [| | | |s| |]; try done. inv_res. by zb.
Qed.

Lemma iface_of_json_bound v a : iface_of_json v = Some a -> is_ip4 a.1 /\ 0 <= a.2 <= 32.
Proof.
  destruct v; cbn [iface_of_json]; try done.
  - destruct b; intros [= <-]; unfold is_ip4; cbn; lia.
  - destruct (ip4_of_json _) as [ip|] eqn:E; [|done]. intros [= <-]. apply ip4_of_json_bound in E. cbn. split; [done | lia].
  - unfold iface_parse. destruct (split_on 47 s) as [|x [|y [|? ?]]]; try done.
    + destruct (ip4_parse x) eqn:E; [|done]. intros [= <-]. apply ip4_parse_bound in E. cbn. split; [done | lia].
    + destruct (ip4_parse x) eqn:E; [|done]. destruct (mask_parse y) eqn:Em; [|done]. intros [= <-].
      apply ip4_parse_bound in E. apply mask_parse_bound in Em. done.
Qed.

Lemma validate_server_spec_ok device spec s : validate_server device spec = Ok s -> spec_ok s.
Proof.
  unfold validate_server. destruct device as [| | | |d| |]; try done.
  destruct spec as [| | | | | |sp]; try (by destruct (DEVICE d)). intros H. inv_res.
  apply fault_of_ok, iface_of_json_bound in Hv2 as [Ha1 Ha2]. apply orb_false_iff in Hv3 as [Hv3 Hmc]. zb.
  apply validate_pools_ok in Hv4 as (H1 & H2 & H3 & H4). apply validate_reserved_ok in Hv5 as ((R1 & R2 & R3) & R4).
  apply validate_options_ok in Hv9. apply andb_false_iff in Hv6. rewrite !bool_decide_eq_false in Hv6.
  constructor; cbn; try done.
  - destruct (jget (lit "interface") sp) as [| | | |[|c t]| |]; by inv_res.
  - split; [done | lia].
  - intros n ->. destruct (jget (lit "lease") sp); try done; cbn [validate_lease] in Hv7; inv_res. bool_lia.
Qed.

(** ** The normalised intent as the JSON that is stored and sent *)

Definition json_ip (a : Z) : json := JStr (ip4_text a).
Definition opt_field (k : pystr) (v : option json) : list (pystr * json) :=
  match v with Some v => [(k, v)] | None => [] end.
Definition list_field (k : pystr) (l : list Z) : list (pystr * json) :=
  match l with [] => [] | _ => [(k, JList (map json_ip l))] end.

Definition render_options (o : dhcp_options) : list (pystr * json) :=
  opt_field (lit "gateway") (json_ip <$> gateway o) ++ opt_field (lit "subnet_mask") (json_ip <$> subnet_mask o) ++
  list_field (lit "dns") (dns o) ++ list_field (lit "ntp") (ntp o) ++ list_field (lit "wins") (wins o) ++
  opt_field (lit "domain") (JStr <$> domain o).

(** The dictionary [validate_server] returns. *)
Definition render (s : server_spec) : json :=
  JObj [(lit "interface", JStr (interface s)); (lit "address", JStr (iface_text (address s)));
        (lit "pools", JList (map (fun p => JList [json_ip p.1; json_ip p.2]) (pools s)));
        (lit "reserved", JObj (map (fun kv => (kv.1, json_ip kv.2)) (reserved s)));
        (lit "lease", match lease s with Some n => JInt n | None => JNull end);
        (lit "probe", JBool (probe s)); (lit "options", JObj (render_options (options s)))].

Lemma _ip4_json_ip a : unicast a -> _ip4 (json_ip a) = Ok a.
Proof.
  intros (H1 & H2 & H3 & H4). unfold _ip4, json_ip. cbn [ip4_of_json]. rewrite ip4_text_parse by done.
  cbn [fault_of mbind result_bind]. by rewrite H2, H3, H4.
Qed.

Lemma check_pool_render addr st p : pool_ok addr p ->
  check_pool addr st (JList [json_ip p.1; json_ip p.2]) = Ok (st.1 ++ [p], st.2 + (p.2 - p.1 + 1)).
Proof.
  intros (H1 & H2 & H3 & H4 & H5 & H6). unfold check_pool. rewrite !_ip4_json_ip by done. cbn [mbind result_bind].
  rewrite (proj2 (Z.ltb_ge p.2 p.1)) by done. rewrite (proj2 (Z.leb_le _ p.1)), (proj2 (Z.leb_le p.2 _)) by done.
  assert ((p.1 <=? addr.1) && (addr.1 <=? p.2) = false) as ->
    by (apply andb_false_iff; rewrite !Z.leb_gt; lia).
  by destruct p.
Qed.

Lemma check_pools_render addr l : forall st, Forall (pool_ok addr) l ->
  foldM_res (check_pool addr) st (map (fun p => JList [json_ip p.1; json_ip p.2]) l) =
  Ok (st.1 ++ l, st.2 + pool_total l).
Proof.
  induction l as [|p l IH]; intros [ps n]; cbn [map foldM_res fst snd].
  - intros _. rewrite app_nil_r. unfold pool_total. cbn. do 2 f_equal. lia.
  - intros [Hp Hl]%Forall_cons. rewrite check_pool_render by done. cbn [mbind result_bind fst snd].
    rewrite IH by done. cbn [fst snd]. rewrite <- app_assoc. unfold pool_total. cbn. do 2 f_equal. lia.
Qed.

Lemma strict_pools_sorted l :
  Forall (fun p => p.1 <= p.2) l -> StronglySorted (fun p q => p.2 < q.1) l ->
  py_sorted pair_le l = l /\ pools_overlap l = false.
Proof.
  intros Hf Hs. induction Hs as [|[a b] l Hs IH Hp]; [done|]. apply Forall_cons in Hf as [Hab Hf].
  destruct (IH Hf) as [E1 E2]. cbn [py_sorted fold_right] in *. unfold py_sorted in E1. rewrite E1.
  destruct l as [|[c d] l]; [done|]. apply Forall_cons in Hp as [Hbc _]. cbn [fst snd] in *.
  cbn [insert_sorted pools_overlap]. unfold pair_le. cbn [fst snd].
  rewrite (proj2 (Z.ltb_lt a c)) by lia. rewrite (proj2 (Z.leb_gt c b)) by lia. done.
Qed.

Lemma check_reservation_render addr res k a :
  reserved_ok addr (res ++ [(k, a)]) -> check_reservation addr res (k, json_ip a) = Ok (res ++ [(k, a)]).
Proof.
  intros (Hf & Hk & Hv). apply Forall_app in Hf as [_ Hf]. apply Forall_singleton in Hf as (Hm & Hl & Hu & Hc).
  unfold check_reservation. cbn [fst snd] in *. rewrite Hl, Hm, _ip4_json_ip by done. cbn [negb raise_if mbind result_bind].
  destruct Hc as [[Hc1 Hc2] Hc3]. unfold in_network. unfold hosts in *. cbn [fst snd] in *.
  rewrite between_true by lia. rewrite (proj2 (Z.leb_le _ _) Hc1), (proj2 (Z.leb_le _ _) Hc2), (proj2 (Z.eqb_neq _ _) Hc3).
  unfold dict_ok in Hk. rewrite fmap_app in Hk; rewrite fmap_app in Hv. apply NoDup_app in Hk as (_ & Hk & _), Hv as (_ & Hv & _).
  assert (dmem k res = false) as Hd.
  { unfold dmem. destruct (dget k res) eqn:E; [|done]. apply dget_In in E.
    destruct (Hk k); [by apply (list_elem_of_fmap_2 fst _ _ E) | by apply list_elem_of_singleton]. }
  rewrite Hd, bool_decide_false.
  - cbn. by rewrite dset_new.
  - intros Ha. destruct (Hv a Ha). by apply list_elem_of_singleton.
Qed.

Lemma reserved_ok_prefix addr l1 l2 : reserved_ok addr (l1 ++ l2) -> reserved_ok addr l1.
Proof.
  intros (Hf & Hk & Hv). unfold reserved_ok, dict_ok in *. rewrite fmap_app in Hk; rewrite fmap_app in Hv.
  apply Forall_app in Hf as [? _]. by apply NoDup_app in Hk as (? & _), Hv as (? & _).
Qed.

Lemma check_reservations_render addr l : forall res, reserved_ok addr (res ++ l) ->
  foldM_res (check_reservation addr) res (map (fun kv => (kv.1, json_ip kv.2)) l) = Ok (res ++ l).
Proof.
  induction l as [|[k a] l IH]; intros res H; cbn [map foldM_res fst snd]; [by rewrite app_nil_r|].
  replace (res ++ (k, a) :: l) with ((res ++ [(k, a)]) ++ l) in * by (by rewrite <- app_assoc).
  rewrite check_reservation_render by (by eapply reserved_ok_prefix). cbn [mbind result_bind]. by apply IH.
Qed.

Lemma dget_opt_field k k' v : dget k (opt_field k' v) = if decide (k = k') then v else None.
Proof. destruct v; cbn; by case_decide. Qed.

Lemma dget_list_field k k' l :
  dget k (list_field k' l) = if decide (k = k') then match l with [] => None | _ => Some (JList (map json_ip l)) end else None.
Proof. destruct l; cbn [list_field dget]; by case_decide. Qed.

Lemma validate_list_render name l o :
  dget name o = (match l with [] => None | _ => Some (JList (map json_ip l)) end) ->
  blen l <= 4 /\ Forall unicast l -> validate_list name o = Ok l.
Proof.
  intros Hg [Hl Hu]. unfold validate_list, jget_default. rewrite Hg.
  assert (mapM_res _ip4 (map json_ip l) = Ok l) as Hm.
  { clear Hg Hl. induction Hu as [|a l Ha _ IH]; [done|]. cbn [map mapM_res]. rewrite _ip4_json_ip by done. cbn [mbind result_bind].
    by rewrite IH. }
  destruct l as [|a l]; [done|]. cbn [default from_option]. unfold id, blen in *. rewrite length_map.
  rewrite (proj2 (Z.ltb_ge 4 _)) by done. done.
Qed.

Lemma render_option_names o : extra_keys option_names (render_options o) = false.
Proof. unfold render_options. destruct o as [[?|] [?|] [|? ?] [|? ?] [|? ?] [?|]]; vm_compute; reflexivity. Qed.

(** The lookups of the rendered options, one field at a time. *)
Lemma render_get o :
  dget (lit "gateway") (render_options o) = json_ip <$> gateway o /\
  dget (lit "subnet_mask") (render_options o) = json_ip <$> subnet_mask o /\
  dget (lit "dns") (render_options o) = match dns o with [] => None | _ => Some (JList (map json_ip (dns o))) end /\
  dget (lit "ntp") (render_options o) = match ntp o with [] => None | _ => Some (JList (map json_ip (ntp o))) end /\
  dget (lit "wins") (render_options o) = match wins o with [] => None | _ => Some (JList (map json_ip (wins o))) end /\
  dget (lit "domain") (render_options o) = JStr <$> domain o.
Proof.
  unfold render_options. rewrite !dget_app, !dget_opt_field, !dget_list_field.
  rewrite ?decide_True by done. rewrite ?decide_False by done.
  split_and!; destruct o as [[?|] [?|] [|? ?] [|? ?] [|? ?] [?|]]; reflexivity.
Qed.

Lemma mask_json_render p : 0 <= p <= 32 -> mask_of_json (json_ip (netmask p)) = Some (netmask p).
Proof. intros H. unfold json_ip. cbn [mask_of_json]. by rewrite netmask_text_parse. Qed.

Lemma truthy_json_ip a : truthy (json_ip a) = true.
Proof.
  unfold json_ip, ip4_text. cbn [truthy].
  by destruct (octet_text (a / 2 ^ 24 mod 256)).
Qed.

Lemma validate_options_render o : options_ok o -> validate_options (JObj (render_options o)) = Ok o.
Proof.
  intros (Hg & Hm & Hl & Hd). unfold validate_options. rewrite render_option_names. cbn [raise_if mbind result_bind].
  destruct (render_get o) as (E1 & E2 & E3 & E4 & E5 & E6).
  apply Forall_cons in Hl as [Hl1 Hl]. apply Forall_cons in Hl as [Hl2 Hl]. apply Forall_cons in Hl as [Hl3 _].
  unfold jget. rewrite E1, E2, E6.
  rewrite (validate_list_render _ (dns o) _ E3 Hl1), (validate_list_render _ (ntp o) _ E4 Hl2), (validate_list_render _ (wins o) _ E5 Hl3).
  destruct o as [g m l1 l2 l3 d]; cbn [gateway subnet_mask dns ntp wins domain] in *.
  assert (exists p, forall x, m = Some x -> 0 <= p <= 32 /\ x = netmask p) as [p Hp].
  { destruct m as [x|]; [destruct (Hm x eq_refl) as (p & H); exists p; naive_solver | exists 0; done]. }
  destruct g as [g|]; cbn [fmap option_fmap option_map default from_option id truthy];
    [rewrite truthy_json_ip, _ip4_json_ip by auto|]; cbn [mbind result_bind fmap result_fmap].
  all: destruct m as [x|]; cbn [fmap option_fmap option_map default from_option id truthy];
    [destruct (Hp x eq_refl) as [Hp1 ->]; rewrite truthy_json_ip, mask_json_render by auto|];
    cbn [fault_of mbind result_bind fmap result_fmap].
  all: destruct d as [d|]; cbn [fmap option_fmap option_map default from_option id truthy mbind result_bind];
    [specialize (Hd d eq_refl); destruct d as [|c d]; [done|]; rewrite Hd; done | done].
Qed.

Lemma validate_pools_render sp addr ps :
  jget_default (lit "pools") (JList []) sp = JList (map (fun p => JList [json_ip p.1; json_ip p.2]) ps) ->
  Forall (pool_ok addr) ps -> StronglySorted (fun p q => p.2 < q.1) ps -> blen ps <= 32 -> pool_total ps <= MAX_POOL ->
  validate_pools addr sp = Ok ps.
Proof.
  intros Hj Hp Hs Hc Ht. unfold validate_pools. rewrite Hj. rewrite check_pools_render by done.
  unfold blen in *. rewrite length_map, (proj2 (Z.ltb_ge 32 _)) by done. cbn [raise_if mbind result_bind fst snd app].
  destruct (strict_pools_sorted ps) as [-> ->];
    [eapply Forall_impl; [exact Hp|]; unfold pool_ok; tauto | done|].
  rewrite Z.add_0_l, (proj2 (Z.ltb_ge MAX_POOL _)) by done. done.
Qed.

Lemma validate_reserved_render sp addr res :
  jget_default (lit "reserved") (JObj []) sp = JObj (map (fun kv => (kv.1, json_ip kv.2)) res) ->
  reserved_ok addr res -> blen res <= 4096 -> validate_reserved addr sp = Ok res.
Proof.
  intros Hj Hr Hc. unfold validate_reserved. rewrite Hj. unfold blen in *.
  rewrite length_map, (proj2 (Z.ltb_ge 4096 _)) by done. cbn [raise_if mbind result_bind].
  by rewrite check_reservations_render.
Qed.

Lemma validate_server_render d s : DEVICE d = true -> spec_ok s -> validate_server (JStr d) (render s) = Ok s.
Proof.
  intros Hd [Hi [Ha Hpl] [Hlo Hmc] Hp Hs Hc Ht Hr1 Hr2 Hr3 Hr4 Hsome Hl Ho].
  unfold validate_server, render. rewrite Hd. cbn [negb raise_if mbind result_bind].
  replace (extra_keys field_names _) with false by reflexivity. cbn [raise_if mbind result_bind].
  change (jget (lit "interface") _) with (JStr (interface s)).
  destruct (interface s) as [|c t] eqn:Ei; [done|]. cbn [mbind result_bind].
  change (jget (lit "address") _) with (JStr (iface_text (address s))). cbn [iface_of_json].
  rewrite iface_text_parse by (done || lia). cbn [fault_of mbind result_bind].
  rewrite (proj2 (Z.ltb_ge 30 _)) by lia. rewrite Hlo, Hmc. cbn [orb raise_if mbind result_bind].
  erewrite validate_pools_render by (reflexivity || done). cbn [mbind result_bind].
  erewrite validate_reserved_render by (reflexivity || done). cbn [mbind result_bind].
  assert (bool_decide (pools s = []) && bool_decide (reserved s = []) = false) as ->
    by (apply andb_false_iff; rewrite !bool_decide_eq_false; tauto). cbn [raise_if mbind result_bind].
  change (jget (lit "lease") _) with (match lease s with Some n => JInt n | None => JNull end).
  assert (validate_lease (match lease s with Some n => JInt n | None => JNull end) = Ok (lease s)) as ->.
  { destruct (lease s) as [n|]; [|done]. specialize (Hl n eq_refl). cbn [validate_lease].
    rewrite (proj2 (Z.leb_le _ n)), (proj2 (Z.leb_le n _)) by lia. done. }
  cbn [mbind result_bind].
  match goal with |- context [jget_default (lit "options") ?x ?y] =>
    change (jget_default (lit "options") x y) with (JObj (render_options (options s))) end.
  match goal with |- context [jget_default (lit "probe") ?x ?y] =>
    change (jget_default (lit "probe") x y) with (JBool (probe s)) end. cbn [mbind result_bind].
  rewrite validate_options_render by done. cbn [mbind result_bind]. rewrite <- Ei. by destruct s.
Qed.

Lemma validate_server_device d spec s : validate_server (JStr d) spec = Ok s -> DEVICE d = true.
Proof. unfold validate_server. destruct spec; destruct (DEVICE d); cbn; done. Qed.

Lemma mapM_res_keys rows ss :
  mapM_res (fun kv : pystr * json => s ← validate_server (JStr kv.1) kv.2; Ok (kv.1, s)) rows = Ok ss ->
  ss.*1 = rows.*1 /\ Forall (fun kv => DEVICE kv.1 = true /\ spec_ok kv.2) ss.
Proof.
  intros H. apply mapM_res_Forall2 in H. induction H as [|[d j] y rows ss Hy _ [IH1 IH2]]; [done|].
  cbn [fst snd] in Hy. inv_res. cbn. split; [by f_equal|]. constructor; [|done].
  split; [by eapply validate_server_device | by eapply validate_server_spec_ok].
Qed.

(** C33.  An accepted intent has at most 64 servers in the order of their device
    names, every device name has the accepted form and every server is well formed:
    at most 32 ranges of at most 65536 client addresses in all, in order, disjoint,
    inside the interface's network and without the interface's own address;
    reservations of distinct client addresses to distinct MAC addresses; something
    to serve; a lease within its bounds; options that are unicast addresses, a
    contiguous mask and a DNS name. *)
Theorem accepted_intent_ok j i :
  validate_intent j = Ok i ->
  blen (servers i) <= MAX_SERVERS /\ Sorted (fun a b => str_le a b = true) (servers i).*1 /\
  Forall (fun kv => DEVICE kv.1 = true /\ spec_ok kv.2) (servers i).
Proof.
  unfold validate_intent. destruct j as [| | | | | |o]; try done. destruct (jget _ o) as [| | | | | |rows]; try done.
  intros H. inv_res. apply mapM_res_keys in Hv1 as [Hk Hf]. cbn [servers].
  pose proof (py_sorted_perm (fun a b : pystr * json => str_le a.1 b.1) rows) as Hp.
  split; [|split; [|done]].
  - unfold blen in *. assert (length v1 = length rows) as Hlen.
    { rewrite <- (length_fmap fst v1), Hk, length_fmap. by rewrite Hp. }
    rewrite Hlen. bool_lia.
  - rewrite Hk. pose proof (py_sorted_Sorted (fun a b : pystr * json => str_le a.1 b.1) rows
      (fun a b => str_le_total a.1 b.1)) as Hs.
    clear Hp Hk. induction Hs as [|[k x] t Ht IH Hx]; [constructor|]. cbn. constructor; [exact IH|].
    destruct t as [|[k2 x2] t]; [constructor|]. inversion Hx. by constructor.
Qed.

Definition sample_server : json :=
  JObj [(lit "interface", JStr (lit "ethernet1/5")); (lit "address", JStr (lit "192.168.69.1/24"));
        (lit "pools", JList [JList [JStr (lit "192.168.69.150"); JStr (lit "192.168.69.199")];
                             JList [JStr (lit "192.168.69.100"); JStr (lit "192.168.69.103")]]);
        (lit "reserved", JObj [(lit "00:1B:21:0a:0b:0c", JStr (lit "192.168.69.10"))]);
        (lit "lease", JInt 3600);
        (lit "options", JObj [(lit "subnet_mask", JInt 24); (lit "dns", JList [JStr (lit "192.0.2.53")]);
                              (lit "domain", JStr (lit "lan.example"))])].
Definition sample_intent : json := JObj [(lit "servers", JObj [(lit "p5", sample_server); (lit "ae1.69", sample_server)])].

Lemma accepted_intent_ok_witness :
  exists i, validate_intent sample_intent = Ok i /\ (servers i).*1 = [lit "ae1.69"; lit "p5"] /\
    Forall (fun kv => DEVICE kv.1 = true /\ spec_ok kv.2) (servers i).
Proof.
  assert (match validate_intent sample_intent with Ok i => (servers i).*1 = [lit "ae1.69"; lit "p5"] | Err _ => False end) as H
    by (vm_compute; reflexivity).
  destruct (validate_intent sample_intent) as [i|] eqn:E; [|contradiction]. exists i. split; [reflexivity|]. split; [exact H|].
  exact (proj2 (proj2 (accepted_intent_ok sample_intent i E))).
Defined.

(**  Validation is idempotent: the dictionary [validate_server] returns, which is
    what is stored and sent to the daemon, is accepted again and gives the same
    specification, through the text of every address, mask and prefix. *)
Theorem validate_idempotent d spec s :
  validate_server (JStr d) spec = Ok s -> validate_server (JStr d) (render s) = Ok s.
Proof.
  intros H. apply validate_server_render; [by eapply validate_server_device | by eapply validate_server_spec_ok].
Qed.

Lemma validate_idempotent_witness :
  exists s, validate_server (JStr (lit "p5")) sample_server = Ok s /\ lease s = Some 3600 /\
    validate_server (JStr (lit "p5")) (render s) = Ok s.
Proof.
  assert (match validate_server (JStr (lit "p5")) sample_server with Ok s => lease s = Some 3600 | Err _ => False end) as H
    by (vm_compute; reflexivity).
  destruct (validate_server (JStr (lit "p5")) sample_server) as [s|] eqn:E; [|contradiction]. exists s.
  split; [reflexivity|]. split; [exact H|]. exact (validate_idempotent (lit "p5") sample_server s E).
Defined.
