(* ===== verification/DhcpServer.v ===== *)
(** * The DHCPv4 server (opt/ffn_dhcp_server.py)

    The frame codec ([parse], [option], [build]), the lease table ([Leases]) and the
    protocol state machine ([Server.handle] with allocation, binding and the reply
    rules) of one served device.  The lease table is the ordered dictionary the code
    keeps, beside the file its last [save] wrote; addresses are numbers; the clock,
    the ARP probe and the random IP identification are inputs of each step.  A call
    that raises keeps what it changed before, so [handle] returns the state beside
    the result. *)

From S2P Require Import Prelude PyStr PyDict PyIp Checksum DhcpIntent.

Definition DISCOVER := 1.
Definition OFFER := 2.
Definition REQUEST := 3.
Definition DECLINE := 4.
Definition ACK := 5.
Definition NAK := 6.
Definition RELEASE := 7.
Definition INFORM := 8.
Definition CLIENT_MESSAGES : list Z := [DISCOVER; REQUEST; DECLINE; RELEASE; INFORM].
Definition MAGIC : bytes := [99; 130; 83; 99].
Definition BROADCAST_MAC : bytes := replicate 6 255.
Definition OFFER_SECONDS := 60.
Definition DECLINE_SECONDS := 600.
Definition STATUS_LEASES : nat := 1024.
Definition INFINITE := 4294967295.

Inductive derr := ByteRange | StructRange | NotEncodable.

(** ** Codec *)

Record message := {
  src_mac : bytes; dst_mac : bytes; src_ip : bytes; xid : Z; secs : Z; flags : Z;
  ciaddr : bytes; yiaddr : bytes; giaddr : bytes; chaddr : bytes;
  mtype : Z; moptions : list (Z * bytes); sport : Z }.

(** The option loop of [parse], on the bytes after the magic cookie; every round
    consumes at least one byte. *)
Fixpoint option_loop (fuel : nat) (rest : bytes) (opts : list (Z * bytes)) : list (Z * bytes) :=
  match fuel, rest with
  | S n, tag :: r =>
      if tag =? 0 then option_loop n r opts
      else if tag =? 255 then opts
      else match r with
           | [] => opts
           | len :: r2 =>
               let value := take (Z.to_nat len) r2 in
               if blen value <? len then opts
               else option_loop n (drop (Z.to_nat len) r2) (if dmem tag opts then opts else dset tag value opts)
           end
  | _, _ => opts
  end.

Definition parse (frame : bytes) : option message :=
  if blen frame <? 14 + 20 + 8 + 240 then None
  else if negb (bool_decide (slice 12 14 frame = [8; 0])) then None
  else
    let ihl := Z.land (byte_at frame 14) 15 * 4 in
    if (ihl <? 20) || negb (byte_at frame 23 =? 17) || negb (Z.land (be_unpack (slice 20 22 frame)) 8191 =? 0) then None
    else
      let ip_len := be_unpack (slice 16 18 frame) in
      let udp := 14 + ihl in
      if blen frame <? udp + 8 then None
      else
        let sport := be_unpack (slice udp (udp + 2) frame) in
        let dport := be_unpack (slice (udp + 2) (udp + 4) frame) in
        let udp_len := be_unpack (slice (udp + 4) (udp + 6) frame) in
        if negb (dport =? 67) then None
        else
          let last := Z.min (Z.min (blen frame) (14 + ip_len)) (udp + udp_len) in
          let data := slice (udp + 8) last frame in
          if (blen data <? 240) || negb (bool_decide (slice 236 240 data = MAGIC)) then None
          else if negb (byte_at data 0 =? 1) || negb (byte_at data 1 =? 1) || negb (byte_at data 2 =? 6) then None
          else
            let opts := option_loop (length data) (drop 240 data) [] in
            match dget 53 opts with
            | Some [t] =>
                if bool_decide (t ∈ CLIENT_MESSAGES) then
                  Some {| src_mac := slice 6 12 frame; dst_mac := slice 0 6 frame; src_ip := slice 26 30 frame;
                          xid := be_unpack (slice 4 8 data); secs := be_unpack (slice 8 10 data);
                          flags := be_unpack (slice 10 12 data); ciaddr := slice 12 16 data;
                          yiaddr := slice 16 20 data; giaddr := slice 24 28 data; chaddr := slice 28 34 data;
                          mtype := t; moptions := opts; sport := sport |}
                else None
            | _ => None
            end.

(** [option(tag, value)]: [bytes([tag, len(value)]) + value]. *)
Definition option_ (tag : Z) (value : bytes) : result derr bytes :=
  if blen value <? 256 then Ok (tag :: blen value :: value) else Err ByteRange.

(** [struct.pack('!H', v)]. *)
Definition pack_H (v : Z) : result derr bytes :=
  if (0 <=? v) && (v <? 65536) then Ok (be_pack 2 v) else Err StructRange.

Definition dhcp_body (reply : Z) (m : message) (server_ip yi opts : bytes) : result derr bytes :=
  o53 ← option_ 53 [reply];
  o54 ← option_ 54 server_ip;
  let body := [2; 1; 6; 0] ++ be_pack 4 (xid m) ++ [0; 0] ++ be_pack 2 (flags m)
              ++ (if reply =? NAK then zeros 4 else ciaddr m) ++ yi ++ zeros 4 ++ giaddr m
              ++ chaddr m ++ zeros 10 ++ zeros 64 ++ zeros 128 ++ MAGIC ++ o53 ++ o54 ++ opts ++ [255] in
  Ok (if blen body <? 300 then body ++ zeros (Z.to_nat (300 - blen body)) else body).

Definition build (ipid : Z) (reply : Z) (m : message) (server_ip server_mac yi opts dst_mac dst_ip : bytes) :
    result derr bytes :=
  body ← dhcp_body reply m server_ip yi opts;
  ulen ← pack_H (8 + blen body);
  let udp := be_pack 2 67 ++ be_pack 2 (if sport m =? 67 then 67 else 68) ++ ulen ++ [0; 0] ++ body in
  plen ← pack_H (blen udp);
  let pseudo := server_ip ++ dst_ip ++ [0; 17] ++ plen in
  let c := dhcp_checksum (pseudo ++ udp) in
  let udp := slice 0 6 udp ++ be_pack 2 (if c =? 0 then 65535 else c) ++ drop 8 udp in
  tlen ← pack_H (20 + blen udp);
  let ip := [69; 0] ++ tlen ++ be_pack 2 ipid ++ [0; 0; 64; 17; 0; 0] ++ server_ip ++ dst_ip in
  let ip := slice 0 10 ip ++ be_pack 2 (dhcp_checksum ip) ++ drop 12 ip in
  Ok (dst_mac ++ server_mac ++ [8; 0] ++ ip ++ udp).

(** ** Leases *)

Inductive lease_state := Offered | Bound | Declined.
#[global] Instance lease_state_eq_dec : EqDecision lease_state.
Proof. solve_decision. Defined.

Record row := {
  rstate : lease_state; rkey : option pystr; rmac : option pystr; rhost : pystr;
  since : Z; expires : option Z }.

Record lease_file := { f_schema : Z; f_device : pystr; f_rows : list (Z * row) }.

(** [Leases.__init__]: the rows of a readable file of this device, else none. *)
Definition leases_init (device : pystr) (file : option lease_file) : list (Z * row) :=
  match file with
  | Some f => if (f_schema f =? 1) && bool_decide (f_device f = device) then f_rows f else []
  | None => []
  end.

Definition stale (now : Z) (r : row) : bool := match expires r with Some e => e <=? now | None => false end.

(** [Leases.expire]. *)
Definition expire (now : Z) (rows : list (Z * row)) : list (Z * row) * bool :=
  (filter (fun kv => stale now kv.2 = false) rows, existsb (fun kv => stale now kv.2) rows).

(** [Leases.held_by]. *)
Definition holds (key : pystr) (r : row) : bool :=
  bool_decide (rkey r = Some key) && (bool_decide (rstate r = Offered) || bool_decide (rstate r = Bound)).
Definition held_by (key : pystr) (rows : list (Z * row)) : option (Z * row) :=
  find (fun kv => holds key kv.2) rows.

(** ** Server *)

Inductive counter :=
| c_discover | c_offer | c_request | c_ack | c_nak | c_decline | c_release | c_inform
| c_relayed | c_exhausted | c_other_server | c_ignored | c_conflict.
#[global] Instance counter_eq_dec : EqDecision counter.
Proof. solve_decision. Defined.

Record server := {
  device : pystr;
  spec : server_spec;
  smac : bytes;
  rows : list (Z * row);
  disk : option lease_file;
  counters : list (counter * Z);
  last_event : option Z }.

Definition with_rows (s : server) (r : list (Z * row)) : server :=
  {| device := device s; spec := spec s; smac := smac s; rows := r; disk := disk s;
     counters := counters s; last_event := last_event s |}.
(** [Leases.save]. *)
Definition save (s : server) : server :=
  {| device := device s; spec := spec s; smac := smac s; rows := rows s;
     disk := Some {| f_schema := 1; f_device := device s; f_rows := rows s |};
     counters := counters s; last_event := last_event s |}.
Definition bump (c : counter) (s : server) : server :=
  {| device := device s; spec := spec s; smac := smac s; rows := rows s; disk := disk s;
     counters := dset c (default 0 (dget c (counters s)) + 1) (counters s); last_event := last_event s |}.
Definition touch (now : Z) (s : server) : server :=
  {| device := device s; spec := spec s; smac := smac s; rows := rows s; disk := disk s;
     counters := counters s; last_event := Some now |}.

Definition all_counters : list counter :=
  [c_discover; c_offer; c_request; c_ack; c_nak; c_decline; c_release; c_inform;
   c_relayed; c_exhausted; c_other_server; c_ignored; c_conflict].

(** [Server.__init__] on the lease file found at start; [mac] is what opening the
    device reads. *)
Definition server_init (dev : pystr) (sp : server_spec) (mac : bytes) (file : option lease_file) : server :=
  {| device := dev; spec := sp; smac := mac; rows := leases_init dev file; disk := file;
     counters := map (fun c => (c, 0)) all_counters; last_event := None |}.

Definition server_ip (s : server) : bytes := be_pack 4 (address (spec s)).1.
Definition reserved_ips (s : server) : list Z := (reserved (spec s)).*2.
Definition in_net (s : server) (a : Z) : bool := in_network (address (spec s)).1 (address (spec s)).2 a.

Definition in_pool (s : server) (ip : Z) : bool := existsb (fun p => (p.1 <=? ip) && (ip <=? p.2)) (pools (spec s)).

Definition range_z (a b : Z) : list Z := map (fun i => a + Z.of_nat i) (seq 0 (Z.to_nat (b - a + 1))).
Definition is_reserved (s : server) (ip : Z) : bool := bool_decide (ip ∈ reserved_ips s).
Definition candidates (s : server) : list Z :=
  filter (fun ip => is_reserved s ip = false) (concat (map (fun p => range_z p.1 p.2) (pools (spec s)))).

(** The loop of [allocate]. *)
Fixpoint allocate_loop (prb : Z -> bool) (key : pystr) (now : Z) (l : list Z) (s : server) : option Z * server :=
  match l with
  | [] => (None, s)
  | ip :: t =>
      let taken := match dget ip (rows s) with Some r => negb (bool_decide (rkey r = Some key)) | None => false end in
      if taken then allocate_loop prb key now t s
      else if probe (spec s) && prb ip then
        let r := {| rstate := Declined; rkey := None; rmac := None; rhost := []; since := now;
                    expires := Some (now + DECLINE_SECONDS) |} in
        let s := bump c_conflict s in
        allocate_loop prb key now t (with_rows s (dset ip r (rows s)))
      else (Some ip, s)
  end.

Definition allocate (prb : Z -> bool) (key mac : pystr) (requested : option Z) (now : Z) (s : server) : option Z * server :=
  match dget mac (reserved (spec s)) with
  | Some ip => (Some ip, s)
  | None =>
      match held_by key (rows s) with
      | Some (held, _) => (Some held, s)
      | None =>
          let wanted := match requested with
                        | Some r => if in_pool s r && negb (is_reserved s r) then [r] else []
                        | None => []
                        end in
          allocate_loop prb key now (wanted ++ candidates s) s
      end
  end.

Definition bind (ip : Z) (key mac hostname : pystr) (now : Z) (st : lease_state) (s : server) : server :=
  let ex := if bool_decide (st = Bound)
            then match lease (spec s) with None => None | Some n => Some (now + n) end
            else Some (now + OFFER_SECONDS) in
  save (with_rows s (dset ip {| rstate := st; rkey := Some key; rmac := Some mac; rhost := hostname;
                                since := now; expires := ex |} (rows s))).

Definition release (ip : Z) (key : pystr) (s : server) : bool * server :=
  match dget ip (rows s) with
  | Some r => if bool_decide (rkey r = Some key) then (true, save (with_rows s (ddel ip (rows s)))) else (false, s)
  | None => (false, s)
  end.

Definition offered_to (ip : Z) (key mac : pystr) (bound_only : bool) (s : server) : bool :=
  if bool_decide (dget mac (reserved (spec s)) = Some ip) then true
  else if is_reserved s ip then false
  else match dget ip (rows s) with
       | None => false
       | Some r =>
           if bool_decide (rkey r = Some key)
           then bool_decide (rstate r = Bound) || (negb bound_only && bool_decide (rstate r = Offered))
           else false
       end.

(** ** Replies *)

(** The options [lease_options] encodes, in its order. *)
Definition lease_option_list (with_lease : bool) (s : server) : result derr (list (Z * bytes)) :=
  let o := options (spec s) in
  let addr := address (spec s) in
  dom ← match domain o with
        | Some d => match utf8_encode d with Some b => Ok [(15, b)] | None => Err NotEncodable end
        | None => Ok []
        end;
  Ok ((if with_lease then
         match lease (spec s) with
         | None => [(51, be_pack 4 INFINITE)]
         | Some n => [(51, be_pack 4 n); (58, be_pack 4 (n / 2)); (59, be_pack 4 (n * 7 / 8))]
         end
       else [])
      ++ [(1, be_pack 4 (default (netmask addr.2) (subnet_mask o)));
          (28, be_pack 4 (broadcast_address addr.1 addr.2));
          (3, be_pack 4 (default addr.1 (gateway o)))]
      ++ (if decide (dns o = []) then [] else [(6, concat (map (be_pack 4) (dns o)))])
      ++ (if decide (ntp o = []) then [] else [(42, concat (map (be_pack 4) (ntp o)))])
      ++ (if decide (wins o = []) then [] else [(44, concat (map (be_pack 4) (wins o)))])
      ++ dom).

Definition encode_options (l : list (Z * bytes)) : result derr bytes :=
  bs ← mapM_res (fun tv : Z * bytes => option_ tv.1 tv.2) l; Ok (concat bs).

Definition lease_options (with_lease : bool) (s : server) : result derr bytes :=
  l ← lease_option_list with_lease s; encode_options l.

Definition reply (ipid kind : Z) (m : message) (yi opts : bytes) (s : server) : result derr bytes :=
  let '(dst_mac, dst_ip) :=
    if (kind =? NAK) || (negb (Z.land (flags m) 32768 =? 0) && bool_decide (ciaddr m = zeros 4))
    then (BROADCAST_MAC, replicate 4 255)
    else if negb (bool_decide (ciaddr m = zeros 4)) then (src_mac m, ciaddr m)
    else (chaddr m, yi) in
  opts ← match dget 61 (moptions m) with
         | Some cid => if kind =? NAK then Ok opts else (o ← option_ 61 cid; Ok (opts ++ o))
         | None => Ok opts
         end;
  build ipid kind m (server_ip s) (smac s) yi opts dst_mac dst_ip.

Definition one_frame (r : result derr bytes) : result derr (list bytes) := (fun f => [f]) <$> r.

Definition nak (ipid : Z) (m : message) (reason : pystr) (s : server) : server * result derr (list bytes) :=
  (bump c_nak s, one_frame (o ← option_ 56 (take 64 reason); reply ipid NAK m (zeros 4) o s)).

(** The identity a message carries: its MAC text and the lease key. *)
Definition mac_text (m : message) : pystr :=
  match chaddr m with [] => [] | b :: t => hex2 b ++ concat (map (fun b => 58 :: hex2 b) t) end.
Definition client_key (m : message) : pystr :=
  match dget 61 (moptions m) with
  | Some (b :: t) => lit "id:" ++ hex (b :: t)
  | _ => lit "mac:" ++ mac_text m
  end.
Definition hostname (m : message) : pystr := take 64 (utf8_decode_replace (default [] (dget 12 (moptions m)))).
Definition requested_ip (m : message) : option Z :=
  match dget 50 (moptions m) with
  | Some r => if (length r =? 4)%nat then Some (be_unpack r) else None
  | None => None
  end.
Definition ciaddr_ip (m : message) : option Z :=
  if bool_decide (ciaddr m = zeros 4) then None else Some (be_unpack (ciaddr m)).

Definition kind_counter (t : Z) : counter :=
  if t =? DISCOVER then c_discover else if t =? REQUEST then c_request else if t =? DECLINE then c_decline
  else if t =? RELEASE then c_release else c_inform.

Definition handle_discover (prb : Z -> bool) (ipid now : Z) (m : message) (s : server) : server * result derr (list bytes) :=
  match allocate prb (client_key m) (mac_text m) (requested_ip m) now s with
  | (None, s) => (bump c_exhausted s, Ok [])
  | (Some ip, s) =>
      let s := bump c_offer (bind ip (client_key m) (mac_text m) (hostname m) now Offered s) in
      (s, one_frame (opts ← lease_options true s; reply ipid OFFER m (be_pack 4 ip) opts s))
  end.

Definition ack (ipid now : Z) (m : message) (target : Z) (s : server) : server * result derr (list bytes) :=
  let s := bump c_ack (bind target (client_key m) (mac_text m) (hostname m) now Bound s) in
  (s, one_frame (opts ← lease_options true s; reply ipid ACK m (be_pack 4 target) opts s)).

Definition handle_request (ipid now : Z) (m : message) (s : server) : server * result derr (list bytes) :=
  let key := client_key m in
  let mac := mac_text m in
  match dget 54 (moptions m) with
  | Some srv =>
      if negb (bool_decide (srv = server_ip s)) then
        let s := match held_by key (rows s) with
                 | Some (held, r) => if bool_decide (rstate r = Offered) then (release held key s).2 else s
                 | None => s
                 end in
        (bump c_other_server s, Ok [])
      else match requested_ip m with
           | Some target =>
               if offered_to target key mac false s then ack ipid now m target s
               else nak ipid m (lit "requested address was not offered") s
           | None => nak ipid m (lit "requested address was not offered") s
           end
  | None =>
      match requested_ip m, ciaddr_ip m with
      | Some target, _ =>
          if negb (in_net s target) then nak ipid m (lit "wrong network") s
          else if offered_to target key mac true s then ack ipid now m target s
          else nak ipid m (lit "address is not leased to this client") s
      | None, Some target =>
          if negb (in_net s target) || negb (offered_to target key mac true s)
          then nak ipid m (lit "lease is not held by this client") s
          else ack ipid now m target s
      | None, None => (bump c_ignored s, Ok [])
      end
  end.

Definition handle_decline (now : Z) (m : message) (s : server) : server :=
  match requested_ip m with
  | Some ip =>
      if in_pool s ip then
        save (with_rows s (dset ip {| rstate := Declined; rkey := None; rmac := Some (mac_text m); rhost := [];
                                      since := now; expires := Some (now + DECLINE_SECONDS) |} (rows s)))
      else s
  | None => s
  end.

Definition handle_message (prb : Z -> bool) (ipid now : Z) (m : message) (s : server) : server * result derr (list bytes) :=
  let '(r, changed) := expire now (rows s) in
  let s := with_rows s r in
  let s := if changed then save s else s in
  let s := touch now (bump (kind_counter (mtype m)) s) in
  if negb (bool_decide (giaddr m = zeros 4)) then (bump c_relayed s, Ok [])
  else if mtype m =? DISCOVER then handle_discover prb ipid now m s
  else if mtype m =? REQUEST then handle_request ipid now m s
  else if mtype m =? DECLINE then (handle_decline now m s, Ok [])
  else if mtype m =? RELEASE then
    (match ciaddr_ip m with Some ip => (release ip (client_key m) s).2 | None => s end, Ok [])
  else if mtype m =? INFORM then
    match ciaddr_ip m with
    | None => (bump c_ignored s, Ok [])
    | Some _ =>
        let s := bump c_ack s in
        (s, one_frame (opts ← lease_options false s; reply ipid ACK m (zeros 4) opts s))
    end
  else (s, Ok []).

(** [Server.handle]. *)
Definition handle (prb : Z -> bool) (ipid now : Z) (frame : bytes) (s : server) : server * result derr (list bytes) :=
  match parse frame with
  | None => (s, Ok [])
  | Some m => handle_message prb ipid now m s
  end.

(** [Server.summary]: the counts per state and the first rows by address. *)
Record summary_t := {
  sum_bound : Z; sum_offered : Z; sum_declined : Z; sum_pool_size : Z; sum_reserved : Z;
  sum_leases : list (Z * row); sum_counters : list (counter * Z); sum_last : option Z }.
Definition count_state (st : lease_state) (l : list (Z * row)) : Z :=
  blen (filter (fun kv => rstate kv.2 = st) l).
Definition summary (s : server) : summary_t :=
  let sorted := py_sorted (fun a b : Z * row => a.1 <=? b.1) (rows s) in
  {| sum_bound := count_state Bound sorted; sum_offered := count_state Offered sorted;
     sum_declined := count_state Declined sorted;
     sum_pool_size := pool_total (pools (spec s)); sum_reserved := blen (reserved (spec s));
     sum_leases := take STATUS_LEASES sorted; sum_counters := counters s; sum_last := last_event s |}.
