(* ===== verification/DhcpFrames.v ===== *)
(** * The frames of the DHCP server

    The codec of opt/ffn_dhcp_server.py against the receiver's view: every reply the
    server builds is an IPv4/UDP frame whose lengths and checksums verify and whose
    options decode to the message type, the server identifier, the lease options of
    the specification and the echoed client identifier. *)

From S2P Require Import Prelude PyStr PyDict PyIp Checksum DhcpIntent DhcpServer.

(** ** Frames *)

Record message_wf (m : message) : Prop := {
  wf_src : length (src_mac m) = 6%nat /\ bytes_ok (src_mac m);
  wf_ch : length (chaddr m) = 6%nat /\ bytes_ok (chaddr m);
  wf_ci : length (ciaddr m) = 4%nat /\ bytes_ok (ciaddr m);
  wf_gi : length (giaddr m) = 4%nat /\ bytes_ok (giaddr m);
  wf_opts : Forall (fun tv => bytes_ok tv.2) (moptions m) }.

Lemma option_loop_bytes fuel : forall rest opts, bytes_ok rest -> Forall (fun tv => bytes_ok tv.2) opts ->
  Forall (fun tv => bytes_ok tv.2) (option_loop fuel rest opts).
Proof.
  induction fuel as [|n IH]; intros [|tag r] opts Hr Ho; cbn [option_loop]; try done.
  apply Forall_cons in Hr as [_ Hr]. destruct (tag =? 0); [by apply IH|].
  destruct (tag =? 255); [done|]. destruct r as [|len r2]; [done|]. apply Forall_cons in Hr as [_ Hr].
  destruct (_ <? len); [done|]. destruct (dmem tag opts).
  - apply IH; [by apply Forall_drop | done].
  - apply IH; [by apply Forall_drop|]. apply Forall_forall. intros tv [->|H]%elem_dset; [by apply Forall_take|].
    rewrite Forall_forall in Ho. by apply Ho.
Qed.

Lemma slice_wf i j n (l : bytes) : bytes_ok l -> 0 <= i -> i <= j -> j <= blen l -> n = Z.to_nat (j - i) ->
  length (slice i j l) = n /\ bytes_ok (slice i j l).
Proof. intros. subst. split; [by apply length_slice | by apply bytes_ok_slice]. Qed.

Lemma parse_wf frame m : bytes_ok frame -> parse frame = Some m -> message_wf m.
Proof.
  intros Hb. unfold parse. cbv zeta. set (data := slice (14 + _ + 8) (Z.min _ _) frame). intros H.
  assert (bytes_ok data) as Hd by (by apply bytes_ok_slice). clearbody data.
  repeat match type of H with (if ?b then _ else _) = _ => let E := fresh "E" in destruct b eqn:E; [discriminate H|] end.
  destruct (dget 53 _) as [[|t [|? ?]]|] eqn:E53; try done. case_bool_decide; [|done].
  injection H as <-. zb. constructor; cbn; try (apply slice_wf; done || lia).
  apply option_loop_bytes; [by apply Forall_drop | constructor].
Qed.

(** [bs] is the encoding of the options [l]. *)
Lemma option_ok_inv tag v bs : option_ tag v = Ok bs -> blen v < 256 /\ bs = tag :: blen v :: v.
Proof. unfold option_. destruct (blen v <? 256) eqn:E; [|done]. intros [= <-]. split; [bool_lia | done]. Qed.

Lemma encode_options_cons tv l bs :
  encode_options (tv :: l) = Ok bs <->
  exists b1 b2, option_ tv.1 tv.2 = Ok b1 /\ encode_options l = Ok b2 /\ bs = b1 ++ b2.
Proof.
  unfold encode_options. cbn [mapM_res]. split.
  - intros H. inv_res. eexists _, _. split; [done|]. rewrite Hv1. cbn. done.
  - intros (b1 & b2 & H1 & H2 & ->). inv_res. rewrite H1, Hv. done.
Qed.

Lemma encode_options_app l1 l2 b1 b2 :
  encode_options l1 = Ok b1 -> encode_options l2 = Ok b2 -> encode_options (l1 ++ l2) = Ok (b1 ++ b2).
Proof.
  revert b1. induction l1 as [|tv l1 IH]; intros b1; cbn [app]; [intros [= <-]; done|].
  rewrite encode_options_cons. intros (x & y & Hx & Hy & ->) H2. apply encode_options_cons.
  exists x, (y ++ b2). rewrite <- app_assoc. auto.
Qed.

Definition tags_ok (l : list (Z * bytes)) : Prop := NoDup l.*1 /\ Forall (fun tv => 1 <= tv.1 <= 254) l.

(** Reading back encoded options gives the options, whatever follows the end mark. *)
Lemma option_loop_encode l : forall bs acc tail fuel,
  encode_options l = Ok bs -> tags_ok (acc ++ l) -> (length l < fuel)%nat ->
  option_loop fuel (bs ++ 255 :: tail) acc = acc ++ l.
Proof.
  induction l as [|[tag v] l IH]; intros bs acc tail fuel He Ht Hf.
  - injection He as <-. destruct fuel; [lia|]. cbn. by rewrite app_nil_r.
  - apply encode_options_cons in He as (b1 & b2 & H1 & H2 & ->). cbn [fst snd] in H1.
    apply option_ok_inv in H1 as [Hl ->]. destruct fuel as [|fuel]; [lia|].
    assert (tags_ok ((acc ++ [(tag, v)]) ++ l)) as Ht' by (by rewrite <- app_assoc).
    destruct Ht as [Hn Ha]. apply Forall_app in Ha as [_ Ha]. apply Forall_cons in Ha as [Ha _]. cbn [fst] in Ha.
    cbn [app option_loop]. rewrite (proj2 (Z.eqb_neq tag 0)), (proj2 (Z.eqb_neq tag 255)) by lia.
    rewrite <- app_assoc. unfold blen. rewrite Nat2Z.id, take_app_length, drop_app_length, Z.ltb_irrefl.
    assert (dmem tag acc = false) as Hd.
    { unfold dmem. destruct (dget tag acc) eqn:E; [|done]. rewrite fmap_app in Hn. apply NoDup_app in Hn as (_ & Hn & _).
      apply dget_In in E. destruct (Hn tag); [exact (list_elem_of_fmap_2 fst _ _ E) | apply list_elem_of_here]. }
    rewrite Hd, dset_new by done. rewrite IH; [by rewrite <- app_assoc | done | done | cbn in *; lia].
Qed.

Lemma encode_options_bytes l bs :
  encode_options l = Ok bs -> tags_ok l -> Forall (fun tv => bytes_ok tv.2) l -> bytes_ok bs.
Proof.
  intros He [_ Ht] Hv. revert bs He. induction l as [|[tag v] l IH]; intros bs; [intros [= <-]; constructor|].
  rewrite encode_options_cons. intros (b1 & b2 & H1 & H2 & ->). cbn [fst snd] in H1. apply option_ok_inv in H1 as [Hl ->].
  apply Forall_cons in Ht as [Ht1 Ht], Hv as [Hv1 Hv]. cbn [fst snd] in *. pose proof (blen_nonneg v).
  apply bytes_ok_app. split; [|by apply IH]. repeat constructor; unfold is_byte; try lia. done.
Qed.

Lemma fill_field {A} (a z b : list A) c n k : n = blen a -> k = (length a + length z)%nat ->
  slice 0 n (a ++ z ++ b) ++ c ++ drop k (a ++ z ++ b) = a ++ c ++ b.
Proof.
  intros -> ->. rewrite slice_head by done. rewrite (app_assoc a z b), drop_app_exact by (by rewrite length_app). done.
Qed.

(** The parts of a reply: link header, IP header around its checksum, ports and
    length, UDP checksum and the DHCP body. *)
Definition frame_of (dst_mac server_mac a b u body : bytes) : bytes :=
  let cs := dhcp_checksum (a ++ [0; 0] ++ b) in
  let cu := dhcp_checksum (b ++ [0; 17] ++ be_pack 2 (8 + blen body) ++ u ++ [0; 0] ++ body) in
  dst_mac ++ server_mac ++ [8; 0] ++ a ++ be_pack 2 cs ++ b ++ u ++ be_pack 2 (if cu =? 0 then 65535 else cu) ++ body.

Lemma pack_H_ok v b : pack_H v = Ok b -> 0 <= v < 65536 /\ b = be_pack 2 v.
Proof. unfold pack_H. destruct (_ && _) eqn:E; [|done]. intros [= <-]. split; [bool_lia | done]. Qed.

Lemma build_shape ipid kind m sip smac yi opts dmac dip f :
  build ipid kind m sip smac yi opts dmac dip = Ok f ->
  exists body, dhcp_body kind m sip yi opts = Ok body /\ 28 + blen body < 65536 /\
  f = frame_of dmac smac ([69; 0] ++ be_pack 2 (28 + blen body) ++ be_pack 2 ipid ++ [0; 0; 64; 17]) (sip ++ dip)
        (be_pack 2 67 ++ be_pack 2 (if sport m =? 67 then 67 else 68) ++ be_pack 2 (8 + blen body)) body.
Proof.
  unfold build. intros H. apply bind_ok_inv in H as (body & Hb & H). apply bind_ok_inv in H as (ul & H1 & H).
  apply pack_H_ok in H1 as [H1 ->]. set (U := be_pack 2 67 ++ be_pack 2 (if sport m =? 67 then 67 else 68) ++ be_pack 2 (8 + blen body)).
  assert (be_pack 2 67 ++ be_pack 2 (if sport m =? 67 then 67 else 68) ++ be_pack 2 (8 + blen body) ++ [0; 0] ++ body = U ++ [0; 0] ++ body) as Eu
    by (unfold U; by rewrite <- !app_assoc).
  rewrite Eu in H. assert (blen (U ++ [0; 0] ++ body) = 8 + blen body) as El
    by (rewrite !blen_app; change (blen U) with 6; change (blen [0; 0]) with 2; lia).
  rewrite El in H. apply bind_ok_inv in H as (pl & H2 & H). apply pack_H_ok in H2 as [H2 ->].
  rewrite fill_field in H by reflexivity. apply bind_ok_inv in H as (tl & H3 & H). apply pack_H_ok in H3 as [H3 ->].
  exists body. split; [done|]. pose proof (blen_nonneg body).
  match type of H3 with 0 <= 20 + ?x < _ => assert (x = 8 + blen body) as El2
    by (rewrite !blen_app; change (blen U) with 6; change (blen (be_pack 2 _)) with 2; lia) end.
  rewrite El2 in *. split; [lia|]. apply ok_inj in H as <-. unfold frame_of.
  replace (20 + (8 + blen body)) with (28 + blen body) by lia.
  match goal with |- context [slice 0 10 ?x] => replace x with
    (([69; 0] ++ be_pack 2 (28 + blen body) ++ be_pack 2 ipid ++ [0; 0; 64; 17]) ++ [0; 0] ++ sip ++ dip) by (by rewrite <- !app_assoc) end.
  rewrite fill_field by reflexivity. by rewrite <- !app_assoc.
Qed.

(** What a receiver checks of a frame before it reads the DHCP message. *)
Record valid_frame (f : bytes) : Prop := {
  v_type : slice 12 14 f = [8; 0];
  v_header : slice 14 16 f = [69; 0] /\ slice 23 24 f = [17];
  v_total : be_unpack (slice 16 18 f) = blen f - 14;
  v_ip_sum : checksum (slice 14 34 f) = 0;
  v_udp_len : be_unpack (slice 38 40 f) = blen f - 34;
  v_udp_sum : checksum (slice 26 34 f ++ [0; 17] ++ slice 38 40 f ++ drop 34 f) = 0;
  v_ports : be_unpack (slice 34 36 f) = 67 }.

Lemma be_unpack_pack_16 v : 0 <= v < 65536 -> be_unpack (be_pack 2 v) = v.
Proof. intros H. rewrite be_unpack_pack. by apply Z.mod_small. Qed.

(** A list of known length is its elements. *)
Ltac explode l H := repeat (destruct l as [|? l]; try discriminate H); clear H.

Lemma frame_of_valid dmac smac sip dip u0 body idf :
  length dmac = 6%nat -> length smac = 6%nat -> length sip = 4%nat -> length dip = 4%nat ->
  bytes_ok sip -> bytes_ok dip -> bytes_ok body -> 28 + blen body < 65536 ->
  let f := frame_of dmac smac ([69; 0] ++ be_pack 2 (28 + blen body) ++ be_pack 2 idf ++ [0; 0; 64; 17]) (sip ++ dip)
             (be_pack 2 67 ++ be_pack 2 u0 ++ be_pack 2 (8 + blen body)) body in
  valid_frame f /\ drop 42 f = body /\ slice 0 6 f = dmac /\ slice 6 12 f = smac /\ slice 26 30 f = sip /\ slice 30 34 f = dip.
Proof.
  intros Ld Ls Lp Lq Hp Hq Hb Hl f. pose proof (blen_nonneg body).
  set (a := [69; 0] ++ be_pack 2 (28 + blen body) ++ be_pack 2 idf ++ [0; 0; 64; 17]) in *.
  set (u := be_pack 2 67 ++ be_pack 2 u0 ++ be_pack 2 (8 + blen body)) in *.
  assert (bytes_ok a) as Ha.
  { unfold a. rewrite !bytes_ok_app. split_and!; auto with ffn; repeat constructor; unfold is_byte; lia. }
  assert (bytes_ok u) as Hu by (unfold u; rewrite !bytes_ok_app; auto with ffn).
  assert (bytes_ok (sip ++ dip)) as Hpq by (by apply bytes_ok_app).
  assert (blen a = 10) as La by reflexivity. assert (blen u = 6) as Lu by reflexivity.
  assert (blen (sip ++ dip) = 8) as Lpq by (unfold blen; rewrite length_app; lia).
  assert (length (sip ++ dip) = 8%nat) as Lpq' by (rewrite length_app; lia).
  set (cs := dhcp_checksum (a ++ [0; 0] ++ sip ++ dip)).
  set (cu := dhcp_checksum ((sip ++ dip) ++ [0; 17] ++ be_pack 2 (8 + blen body) ++ u ++ [0; 0] ++ body)).
  set (cu' := if cu =? 0 then 65535 else cu).
  assert (f = dmac ++ smac ++ [8; 0] ++ a ++ be_pack 2 cs ++ (sip ++ dip) ++ u ++ be_pack 2 cu' ++ body) as Ef by reflexivity.
  assert (bytes_ok ((sip ++ dip) ++ [0; 17] ++ be_pack 2 (8 + blen body) ++ u)) as Hps
    by (rewrite !bytes_ok_app; split_and!; auto with ffn; try (by apply bytes_ok_app); repeat constructor; unfold is_byte; lia).
  assert (checksum (a ++ be_pack 2 cs ++ sip ++ dip) = 0) as Eip.
  { assert (bytes_ok (a ++ [0; 0] ++ sip ++ dip)) as Hz
      by (rewrite bytes_ok_app; split; [done|]; apply bytes_ok_app; split; [repeat constructor; unfold is_byte; lia | done]).
    unfold cs. rewrite dhcp_checksum_eq by done.
    apply fill_verifies; [reflexivity | done | done | by apply checksum_bound | by apply checksum_completes]. }
  assert (checksum ((sip ++ dip) ++ [0; 17] ++ be_pack 2 (8 + blen body) ++ u ++ be_pack 2 cu' ++ body) = 0) as Eudp.
  { assert (bytes_ok (((sip ++ dip) ++ [0; 17] ++ be_pack 2 (8 + blen body) ++ u) ++ [0; 0] ++ body)) as Hz
      by (rewrite bytes_ok_app; split; [done|]; apply bytes_ok_app; split; [repeat constructor; unfold is_byte; lia | done]).
    assert (cu = checksum (((sip ++ dip) ++ [0; 17] ++ be_pack 2 (8 + blen body) ++ u) ++ [0; 0] ++ body)) as Ec
      by (unfold cu; rewrite dhcp_checksum_eq; rewrite <- ?app_assoc in *; done).
    replace ((sip ++ dip) ++ [0; 17] ++ be_pack 2 (8 + blen body) ++ u ++ be_pack 2 cu' ++ body)
      with (((sip ++ dip) ++ [0; 17] ++ be_pack 2 (8 + blen body) ++ u) ++ be_pack 2 cu' ++ body) by (by rewrite <- !app_assoc).
    pose proof (checksum_bound _ Hz). unfold cu'. rewrite Ec. apply fill_verifies; try done.
    - rewrite !length_app, Lp, Lq. reflexivity.
    - case_ifs; lia.
    - apply completes_udp; [by apply checksum_completes | by apply wsum_nonneg]. }
  clearbody f. subst f. clearbody cs cu'. clear cu.
  explode dmac Ld. explode smac Ls. explode sip Lp. explode dip Lq.
  split; [constructor|split_and!]; try reflexivity.
  - split; reflexivity.
  - change (slice 16 18 _) with (be_pack 2 (28 + blen body)). rewrite be_unpack_pack_16 by lia.
    rewrite !blen_app, La, Lu. unfold blen. rewrite !length_be_pack. cbn [length]. lia.
  - exact Eip.
  - change (slice 38 40 _) with (be_pack 2 (8 + blen body)). rewrite be_unpack_pack_16 by lia.
    rewrite !blen_app, La, Lu. unfold blen. rewrite !length_be_pack. cbn [length]. lia.
  - exact Eudp.
Qed.

Lemma dhcp_body_shape kind m sip yi opts body :
  dhcp_body kind m sip yi opts = Ok body -> message_wf m -> length sip = 4%nat -> length yi = 4%nat ->
  bytes_ok sip -> bytes_ok yi -> bytes_ok opts -> is_byte kind ->
  bytes_ok body /\ 300 <= blen body /\ slice 4 8 body = be_pack 4 (xid m) /\ slice 16 20 body = yi /\
  slice 28 34 body = chaddr m /\ slice 236 240 body = MAGIC /\
  exists pad o, encode_options [(53, [kind]); (54, sip)] = Ok o /\ drop 240 body = (o ++ opts) ++ 255 :: pad.
Proof.
  intros H [_ [Lc Hc] [Li Hi] [Lg Hg] _] Ls Ly Hs Hy Ho Hk. unfold dhcp_body in H.
  apply bind_ok_inv in H as (o53 & H53 & H). apply bind_ok_inv in H as (o54 & H54 & H). cbv zeta in H.
  set (ci := if kind =? NAK then zeros 4 else ciaddr m) in *.
  assert (length ci = 4%nat /\ bytes_ok ci) as [Lci Hci] by (unfold ci; case_ifs; auto with ffn).
  assert (encode_options [(53, [kind]); (54, sip)] = Ok (o53 ++ o54)) as He.
  { unfold encode_options. cbn [mapM_res fst snd]. rewrite H53, H54. cbn. by rewrite app_nil_r. }
  assert (bytes_ok (o53 ++ o54)) as Hoo.
  { eapply encode_options_bytes; [exact He | |].
    - split; [apply (bool_decide_unpack _); vm_compute; exact I | repeat constructor; cbn; lia].
    - apply Forall_cons. split; [by apply Forall_singleton | by apply Forall_singleton]. }
  set (h := [2; 1; 6; 0] ++ be_pack 4 (xid m) ++ [0; 0] ++ be_pack 2 (flags m) ++ ci ++ yi ++ zeros 4 ++ giaddr m ++
            chaddr m ++ zeros 10 ++ zeros 64 ++ zeros 128 ++ MAGIC) in *.
  match type of H with Ok (if blen ?b <? 300 then _ else _) = _ => set (b0 := b) in * end.
  assert (b0 = h ++ (o53 ++ o54) ++ opts ++ [255]) as Eb by (unfold b0, h; by rewrite <- !app_assoc).
  assert (exists pad, body = h ++ ((o53 ++ o54) ++ opts) ++ 255 :: pad /\ bytes_ok pad /\ 300 <= blen body) as (pad & -> & Hpad & Hl).
  { destruct (blen b0 <? 300) eqn:El; apply ok_inj in H as <-; zb.
    - exists (zeros (Z.to_nat (300 - blen b0))). rewrite Eb at 1. split; [by rewrite <- !app_assoc|]. split; [auto with ffn|].
      rewrite blen_app. unfold blen at 2. unfold zeros. rewrite length_replicate. lia.
    - exists []. rewrite Eb at 1. split; [by rewrite <- !app_assoc|]. split; [constructor | lia]. }
  clearbody b0. clear H Eb b0.
  assert (bytes_ok h) as Hh.
  { unfold h. rewrite !bytes_ok_app. split_and!; auto with ffn; repeat constructor; unfold is_byte; lia. }
  assert (length h = 240%nat) as Lh.
  { unfold h. rewrite !length_app, !length_be_pack, Lci, Ly, Lg, Lc. reflexivity. }
  split; [|split; [done|]].
  { rewrite !bytes_ok_app. split_and!; try (by apply bytes_ok_app in Hoo as [? ?]); try done.
    constructor; [unfold is_byte; lia | done]. }
  assert (blen h = 240) as Lh' by (unfold blen; lia).
  rewrite !slice_app_l by lia.
  split_and!.
  - unfold h. reflexivity.
  - unfold h. explode ci Lci. explode yi Ly. reflexivity.
  - unfold h. explode ci Lci. explode yi Ly. 
    revert Lg Lc. generalize (giaddr m) (chaddr m). intros gi ch Lg Lc. explode gi Lg. explode ch Lc. reflexivity.
  - unfold h. explode ci Lci. explode yi Ly. 
    revert Lg Lc. generalize (giaddr m) (chaddr m). intros gi ch Lg Lc. explode gi Lg. explode ch Lc. reflexivity.
  - exists pad, (o53 ++ o54). split; [done|]. rewrite drop_app_exact by done. done.
Qed.

Record server_wf (s : server) : Prop := {
  wf_smac : length (smac s) = 6%nat /\ bytes_ok (smac s);
  wf_spec : spec_ok (spec s) }.

(** The client identifier a reply echoes. *)
Definition echoed (kind : Z) (m : message) : list (Z * bytes) :=
  if kind =? NAK then [] else match dget 61 (moptions m) with Some cid => [(61, cid)] | None => [] end.

Lemma split_on_elem sep s c : In c s -> c = sep \/ exists w, In w (split_on sep s) /\ In c w.
Proof.
  induction s as [|x s IH]; [done|]. cbn [split_on]. intros [->|Hc].
  - destruct (c =? sep) eqn:E; [left; bool_lia|]. right.
    destruct (split_on sep s) as [|w ws]; [exists [c] | exists (c :: w)]; split; by left.
  - destruct (IH Hc) as [->|(w & Hw & Hcw)]; [by left|]. right. destruct (x =? sep).
    + exists w. split; [by right | done].
    + destruct (split_on sep s) as [|w' ws]; [done|]. destruct Hw as [<-|Hw].
      * exists (x :: w'). split; [by left | by right].
      * exists w. split; [by right | done].
Qed.

Lemma domain_str_ok d : DOMAIN d = true -> str_ok d.
Proof.
  unfold DOMAIN. intros [_ H]%andb_true_iff. rewrite List.forallb_forall in H. apply List.Forall_forall. intros c Hc.
  destruct (split_on_elem 46 d c Hc) as [->|(w & Hw & Hcw)]; [unfold is_scalar; lia|].
  specialize (H w Hw). unfold domain_label in H. rewrite !andb_true_iff in H. destruct H as [[[_ H] _] _].
  rewrite List.forallb_forall in H. specialize (H c Hcw). unfold is_alnum_i, is_digit, between in H. unfold is_scalar. lia.
Qed.

Lemma concat_pack_bytes l : bytes_ok (concat (map (be_pack 4) l)).
Proof. induction l; cbn [map concat]; [constructor|]. apply bytes_ok_app. auto with ffn. Qed.

Lemma lease_option_list_ok b s l cid v53 v54 :
  lease_option_list b s = Ok l -> spec_ok (spec s) -> cid = [] \/ (exists v, cid = [(61, v)]) ->
  tags_ok ([(53, v53); (54, v54)] ++ l ++ cid) /\ Forall (fun tv => bytes_ok tv.2) l.
Proof.
  intros H Hs Hc. unfold lease_option_list in H. apply bind_ok_inv in H as (dom & Hd & H). apply ok_inj in H as <-.
  assert (dom = [] \/ exists v, bytes_ok v /\ dom = [(15, v)]) as Hdom.
  { destruct (domain (options (spec s))) as [d|] eqn:Ed; [|inv_res; by left].
    destruct (utf8_encode d) eqn:Eu; [|done]. inv_res. right. eexists. split; [|done].
    eapply utf8_encode_bytes; [|done]. apply domain_str_ok. by eapply (ok_options _ Hs). }
  clear Hd. split.
  - destruct Hdom as [->|(v & _ & ->)], Hc as [->|(v' & ->)], b, (lease (spec s)) as [n|];
      repeat case_decide; (split; [apply (bool_decide_unpack _); vm_compute; exact I | repeat constructor; cbn; lia]).
  - destruct Hdom as [->|(v & Hv & ->)], b, (lease (spec s)) as [n|];
      repeat case_decide; cbn [app];
      repeat match goal with |- Forall _ (_ :: _) => apply Forall_cons; split | |- Forall _ [] => constructor end; cbn [snd];
      auto using concat_pack_bytes, be_pack_bytes.
Qed.

(** The options a reply of each kind carries. *)
Definition reply_options (kind : Z) (l : list (Z * bytes)) (s : server) : Prop :=
  (kind = NAK /\ exists r, bytes_ok r /\ l = [(56, take 64 r)]) \/
  ((kind = OFFER \/ kind = ACK) /\ exists b, lease_option_list b s = Ok l).

(** A reply as the client reads it. *)
Definition decodes_to (f : bytes) (kind : Z) (m : message) (yi : bytes) (l : list (Z * bytes)) (s : server) : Prop :=
  valid_frame f /\ slice 46 50 f = be_pack 4 (xid m) /\ slice 58 62 f = yi /\ slice 70 76 f = chaddr m /\
  slice 278 282 f = MAGIC /\
  option_loop (length f) (drop 282 f) [] = (53, [kind]) :: (54, server_ip s) :: l ++ echoed kind m.

Lemma encode_options_length l : forall bs, encode_options l = Ok bs -> (length l <= length bs)%nat.
Proof.
  induction l as [|tv l IH]; intros bs; [intros; cbn; lia|]. rewrite encode_options_cons.
  intros (b1 & b2 & H1 & H2 & ->). apply option_ok_inv in H1 as [_ ->]. apply IH in H2. cbn [length app]. rewrite length_app. lia.
Qed.

Lemma drop_slice_shift n (f : bytes) i j : 0 <= i -> slice i j (drop n f) = slice (Z.of_nat n + i) (Z.of_nat n + j) f.
Proof.
  intros H. unfold slice. rewrite drop_drop. f_equal; [lia|]. f_equal. lia.
Qed.

Lemma server_ip_ok s : length (server_ip s) = 4%nat /\ bytes_ok (server_ip s).
Proof. unfold server_ip. split; [reflexivity | auto with ffn]. Qed.

Lemma dst_choice kind m yi : message_wf m -> length yi = 4%nat -> bytes_ok yi ->
  let d := if (kind =? NAK) || (negb (Z.land (flags m) 32768 =? 0) && bool_decide (ciaddr m = zeros 4))
           then (BROADCAST_MAC, replicate 4 255)
           else if negb (bool_decide (ciaddr m = zeros 4)) then (src_mac m, ciaddr m) else (chaddr m, yi) in
  length d.1 = 6%nat /\ length d.2 = 4%nat /\ bytes_ok d.2.
Proof.
  intros [[L1 _] [L2 _] [L3 H3] _ _] Ly Hy. case_ifs; cbn; split_and!; try done.
  repeat constructor; unfold is_byte; lia.
Qed.

Lemma reply_decodes ipid kind m yi l opts s f :
  reply ipid kind m yi opts s = Ok f -> encode_options l = Ok opts -> reply_options kind l s ->
  server_wf s -> message_wf m -> length yi = 4%nat -> bytes_ok yi -> decodes_to f kind m yi l s.
Proof.
  intros H Hl Hr [[Lm Hm] Hs] Hw Ly Hy. unfold reply in H.
  destruct (dst_choice kind m yi Hw Ly Hy) as (Ld & Li & Hi).
  set (d := if (kind =? NAK) || _ then _ else _) in *. destruct d as [dm di]. cbn [fst snd] in *.
  apply bind_ok_inv in H as (opts' & Ho & H).
  destruct (server_ip_ok s) as [Lsi Hsi].
  assert (exists cid, echoed kind m = cid /\ encode_options (l ++ cid) = Ok opts' /\
          (cid = [] \/ exists v, bytes_ok v /\ cid = [(61, v)])) as (cid & Ec & Hcid & Hc).
  { unfold echoed. destruct (dget 61 (moptions m)) as [v|] eqn:E61.
    - destruct (kind =? NAK); [exists []; inv_res; rewrite app_nil_r; auto|].
      apply bind_ok_inv in Ho as (o & Hov & Ho). inv_res. exists [(61, v)]. split; [done|]. split.
      + apply encode_options_app; [done|]. unfold encode_options. cbn [mapM_res fst snd]. rewrite Hov. cbn. by rewrite app_nil_r.
      + right. exists v. split; [|done]. apply dget_In in E61. pose proof (wf_opts _ Hw) as Hf. rewrite Forall_forall in Hf.
        exact (Hf _ E61).
    - exists []. inv_res. rewrite app_nil_r. case_ifs; auto. }
  assert (tags_ok ([(53, [kind]); (54, server_ip s)] ++ l ++ cid) /\ Forall (fun tv => bytes_ok tv.2) (l ++ cid) /\ is_byte kind)
    as (Ht & Hb & Hk).
  { destruct Hr as [[-> (r & Hr & ->)]|[Hk (b & Hb)]].
    - change (echoed NAK m) with (@nil (Z * bytes)) in Ec. subst cid. split; [|split].
      + split; [apply (bool_decide_unpack _); vm_compute; exact I | repeat constructor; cbn; lia].
      + apply Forall_singleton. by apply Forall_take.
      + unfold is_byte, NAK. lia.
    - destruct (lease_option_list_ok b s l cid [kind] (server_ip s) Hb Hs) as [H1 H2]; [naive_solver|].
      split; [done|]. split; [|unfold is_byte, OFFER, ACK in *; lia].
      apply Forall_app. split; [done|]. destruct Hc as [->|(v & Hv & ->)]; [constructor | by apply Forall_singleton]. }
  assert (bytes_ok opts') as Hoo.
  { eapply encode_options_bytes; [exact Hcid | | done]. destruct Ht as [Hn Hf]. cbn in Hn, Hf.
    apply NoDup_cons in Hn as [_ Hn]. apply NoDup_cons in Hn as [_ Hn].
    apply Forall_cons in Hf as [_ Hf]. apply Forall_cons in Hf as [_ Hf]. done. }
  apply build_shape in H as (body & Hbody & Hlen & ->).
  destruct (dhcp_body_shape _ _ _ _ _ _ Hbody Hw Lsi Ly Hsi Hy Hoo Hk) as (B1 & B2 & B3 & B4 & B5 & B6 & pad & o & Eo & B7).
  destruct (frame_of_valid dm (smac s) (server_ip s) di (if sport m =? 67 then 67 else 68) body ipid)
    as (V & D & _); try done.
  set (f := frame_of _ _ _ _ _ _) in *. clearbody f.
  rewrite <- D in B3, B4, B5, B6, B7. rewrite !drop_slice_shift in B3, B4, B5, B6 by lia. rewrite drop_drop in B7.
  unfold decodes_to. split_and!; try done.
  cbn [Nat.add] in B7. rewrite B7, Ec.
  rewrite (option_loop_encode ([(53, [kind]); (54, server_ip s)] ++ l ++ cid)); [done | | done |].
  - by apply encode_options_app.
  - assert (encode_options ([(53, [kind]); (54, server_ip s)] ++ l ++ cid) = Ok (o ++ opts')) as He by (by apply encode_options_app).
    apply encode_options_length in He. apply (f_equal length) in B7. rewrite length_drop, !length_app in B7. cbn [length] in B7.
    rewrite !length_app in *. cbn [length] in *. lia.
Qed.
