(* ===== verification/DhcpLeases.v ===== *)
(** * Safety of the lease table

    What one step of the server can do to its leases ([handle_message_good], an
    induction principle over every branch of [Server.handle]), and from it: an address
    bound to one client is not given to another before it expires, every address the
    server gives is the client's reservation or an unreserved pool address, and every
    answer is on disk before it is sent. *)

From S2P Require Import Prelude PyStr PyDict PyIp Checksum DhcpIntent DhcpServer DhcpFrames.

(** ** What a step can do to the lease table *)

Definition pool_has (sp : server_spec) (ip : Z) : bool := existsb (fun p => (p.1 <=? ip) && (ip <=? p.2)) (pools sp).
Definition reserved_has (sp : server_spec) (ip : Z) : bool := bool_decide (ip ∈ (reserved sp).*2).

(** No other client has a row for the address. *)
Definition free_for (key : pystr) (ip : Z) (rs : list (Z * row)) : Prop :=
  match dget ip rs with Some r => rkey r = Some key | None => True end.

(** The addresses a client can be given: its reservation, an address it already
    holds, or a pool address that is not reserved and not another client's. *)
Definition grantable (sp : server_spec) (key mac : pystr) (ip : Z) (rs : list (Z * row)) : Prop :=
  dget mac (reserved sp) = Some ip \/
  (exists r, (ip, r) ∈ rs /\ holds key r = true) \/
  (pool_has sp ip = true /\ reserved_has sp ip = false /\ free_for key ip rs).

Lemma elem_of_range_z a b x : x ∈ range_z a b <-> a <= x <= b.
Proof.
  unfold range_z. rewrite list_elem_of_In, in_map_iff. split.
  - intros (i & <- & Hi). apply in_seq in Hi. lia.
  - intros H. exists (Z.to_nat (x - a)). split; [lia|]. apply in_seq. lia.
Qed.

Lemma candidates_spec s ip : ip ∈ candidates s <-> pool_has (spec s) ip = true /\ reserved_has (spec s) ip = false.
Proof.
  unfold candidates, pool_has. rewrite list_elem_of_filter, existsb_exists.
  change (is_reserved s ip) with (reserved_has (spec s) ip). split; intros [H1 H2]; split; try done.
  - apply list_elem_of_In, in_concat in H2 as (l & Hl & Hi). apply in_map_iff in Hl as (p & <- & Hp). exists p. split; [done|].
    apply list_elem_of_In, elem_of_range_z in Hi. apply andb_true_iff. rewrite !Z.leb_le. lia.
  - destruct H1 as (p & Hp & Hi). apply list_elem_of_In, in_concat. exists (range_z p.1 p.2). split.
    + exact (in_map (fun p => range_z p.1 p.2) _ _ Hp).
    + apply list_elem_of_In, elem_of_range_z. zb. lia.
Qed.

Definition conflict_row (now : Z) : row :=
  {| rstate := Declined; rkey := None; rmac := None; rhost := []; since := now; expires := Some (now + DECLINE_SECONDS) |}.

Lemma allocate_loop_ind prb key now (P : list (Z * row) -> Prop) l : forall s o s',
  allocate_loop prb key now l s = (o, s') -> P (rows s) ->
  (forall ip rs, ip ∈ l -> P rs -> free_for key ip rs -> P (dset ip (conflict_row now) rs)) ->
  P (rows s') /\ spec s' = spec s /\ smac s' = smac s /\ device s' = device s /\ disk s' = disk s /\
  (forall ip, o = Some ip -> ip ∈ l /\ free_for key ip (rows s')).
Proof.
  induction l as [|ip t IH]; intros s o s'; cbn [allocate_loop]; [intros [= <- <-]; naive_solver|].
  intros H HP Hc.
  assert (forall ip' rs, ip' ∈ t -> P rs -> free_for key ip' rs -> P (dset ip' (conflict_row now) rs)) as Hc'
    by (intros; apply Hc; [by apply list_elem_of_further | done | done]).
  assert (forall x, x ∈ t -> x ∈ ip :: t) as Hin by (intros; by apply list_elem_of_further).
  destruct (match dget ip (rows s) with Some _ => _ | None => _ end) eqn:Et.
  - edestruct IH as (H1 & H2 & H3 & H4 & H5 & H6); [exact H | done | done |]. naive_solver.
  - assert (free_for key ip (rows s)) as Hf.
    { unfold free_for. destruct (dget ip (rows s)) as [r|]; [|done]. apply negb_false_iff in Et.
      by apply bool_decide_eq_true in Et. }
    destruct (probe (spec s) && prb ip) eqn:Ep.
    + edestruct IH as (H1 & H2 & H3 & H4 & H5 & H6); [exact H | cbn; apply Hc; [apply list_elem_of_here | done | done] | done |].
      cbn in *. naive_solver.
    + injection H as <- <-. split_and!; try done. intros ? [= <-]. split; [apply list_elem_of_here | done].
Qed.

(** A literal text is a byte string. *)
Ltac text_bytes := apply (bool_decide_unpack _); vm_compute; exact I.

(** The addresses a client can be bound to: never another client's reservation. *)
Definition bindable (sp : server_spec) (mac : pystr) (ip : Z) : Prop :=
  dget mac (reserved sp) = Some ip \/ reserved_has sp ip = false.

Section step.
Context (prb : Z -> bool) (ipid now : Z) (m : message) (sp : server_spec) (P : list (Z * row) -> Prop).
Let key := client_key m.
Let mac := mac_text m.

(** The row [bind] writes. *)
Definition granted_row (st : lease_state) : row :=
  {| rstate := st; rkey := Some key; rmac := Some mac; rhost := hostname m; since := now;
     expires := if bool_decide (st = Bound) then match lease sp with None => None | Some n => Some (now + n) end
                else Some (now + OFFER_SECONDS) |}.
Definition declined_row : row :=
  {| rstate := Declined; rkey := None; rmac := Some mac; rhost := []; since := now; expires := Some (now + DECLINE_SECONDS) |}.

Context
  (Pexpire : forall rs, P rs -> P (expire now rs).1)
  (Pconflict : forall ip rs, P rs -> pool_has sp ip = true -> reserved_has sp ip = false ->
     free_for key ip rs -> P (dset ip (conflict_row now) rs))
  (Pgrant : forall ip st rs, P rs -> st <> Declined -> grantable sp key mac ip rs ->
     (st = Bound -> bindable sp mac ip) -> P (dset ip (granted_row st) rs))
  (Prelease : forall ip r rs, P rs -> dget ip rs = Some r -> rkey r = Some key -> P (ddel ip rs))
  (Pdecline : forall ip rs, P rs -> mtype m = DECLINE -> requested_ip m = Some ip -> pool_has sp ip = true ->
     P (dset ip declined_row rs)).

(** Each reply frame is [reply] for the options [l] and the address field [yi], and
    no frame carries an address the client cannot be given. *)
Definition answers (Q : Z -> Prop) (s : server) (res : result derr (list bytes)) : Prop :=
  match res with
  | Err _ => True
  | Ok fs => Forall (fun f => exists kind yi l opts s',
      spec s' = sp /\ smac s' = smac s /\ encode_options l = Ok opts /\ reply_options kind l s' /\
      reply ipid kind m yi opts s' = Ok f /\ (yi = zeros 4 \/ exists ip, yi = be_pack 4 ip /\ Q ip)) fs
  end.

(** What a step keeps and what it may answer. *)
Definition good (Q : Z -> Prop) (s : server) (out : server * result derr (list bytes)) : Prop :=
  P (rows out.1) /\ spec out.1 = sp /\ smac out.1 = smac s /\ device out.1 = device s /\ answers Q s out.2.

Lemma answers_one Q s kind yi (l : result derr (list (Z * bytes))) opts s' :
  spec s' = sp -> smac s' = smac s -> (forall l', l = Ok l' -> reply_options kind l' s') ->
  (forall o, opts = Ok o -> exists l', l = Ok l' /\ encode_options l' = Ok o) ->
  (yi = zeros 4 \/ exists ip, yi = be_pack 4 ip /\ Q ip) ->
  answers Q s (one_frame (o ← opts; reply ipid kind m yi o s')).
Proof.
  intros H1 H2 H3 H4 H5. destruct opts as [o|]; cbn [mbind result_bind]; [|done].
  destruct (H4 o eq_refl) as (l' & -> & Ho).
  destruct (reply ipid kind m yi o s') eqn:E; cbn; [|done]. apply Forall_singleton.
  exists kind, yi, l', o, s'. auto 10.
Qed.

Lemma answers_lease Q s kind yi b s' :
  spec s' = sp -> smac s' = smac s -> kind = OFFER \/ kind = ACK ->
  (yi = zeros 4 \/ exists ip, yi = be_pack 4 ip /\ Q ip) ->
  answers Q s (one_frame (o ← lease_options b s'; reply ipid kind m yi o s')).
Proof.
  intros H1 H2 H3 H4. apply (answers_one Q s kind yi (lease_option_list b s')); try done.
  - intros l' Hl. right. eauto.
  - intros o Ho. unfold lease_options in Ho. by apply bind_ok_inv in Ho as (l' & ? & ?); eauto.
Qed.

Definition can_grant (rs : list (Z * row)) (ip : Z) : Prop := grantable sp key mac ip rs.

Lemma allocate_good s : P (rows s) -> spec s = sp ->
  forall o s', allocate prb key mac (requested_ip m) now s = (o, s') ->
  P (rows s') /\ spec s' = sp /\ smac s' = smac s /\ device s' = device s /\ (forall ip, o = Some ip -> can_grant (rows s') ip).
Proof.
  intros HP Hsp o s'. unfold allocate, can_grant, grantable. rewrite Hsp.
  destruct (dget mac (reserved sp)) as [ip|] eqn:Er; [intros [= <- <-]; naive_solver|].
  destruct (held_by key (rows s)) as [[ip r]|] eqn:Eh.
  - intros [= <- <-]. split_and!; try done. intros ? [= <-]. right. left. exists r.
    apply List.find_some in Eh as [Hi Hh]. split; [by apply list_elem_of_In | done].
  - intros H. assert (forall ip, ip ∈ (match requested_ip m with
        | Some r => if in_pool s r && negb (is_reserved s r) then [r] else [] | None => [] end) ++ candidates s ->
        pool_has sp ip = true /\ reserved_has sp ip = false) as Hw.
    { intros ip [Hi|Hi]%elem_of_app; [|rewrite <- Hsp; by apply candidates_spec].
      destruct (requested_ip m) as [q|]; [|by apply elem_of_nil in Hi].
      destruct (in_pool s q && negb (is_reserved s q)) eqn:E; [|by apply elem_of_nil in Hi].
      apply list_elem_of_singleton in Hi as ->. unfold in_pool, is_reserved, reserved_ips in E. rewrite Hsp in E.
      apply andb_true_iff in E as [E1 E2]. by apply negb_true_iff in E2. }
    eapply allocate_loop_ind with (P := P) in H as (H1 & H2 & H3 & H4 & _ & H6); [|done|].
    + rewrite Hsp in H2. split_and!; try done. intros ip ->. destruct (H6 ip eq_refl) as [Hi Hf].
      right. right. destruct (Hw ip Hi). done.
    + intros ip rs Hi HPr Hf. destruct (Hw ip Hi). by apply Pconflict.
Qed.

Lemma handle_discover_good s : P (rows s) -> spec s = sp ->
  good (fun ip => exists rs, P rs /\ can_grant rs ip) s (handle_discover prb ipid now m s).
Proof.
  intros HP Hsp. unfold handle_discover. fold key mac.
  destruct (allocate prb key mac (requested_ip m) now s) as [o s'] eqn:E.
  destruct (allocate_good s HP Hsp o s' E) as (H1 & H2 & H3 & H4 & H5).
  destruct o as [ip|].
  - specialize (H5 ip eq_refl). unfold good. cbn [fst snd]. split_and!; try done.
    + unfold bump, bind. cbn. rewrite H2. by apply (Pgrant ip Offered).
    + apply answers_lease; [done | done | by left |]. right. exists ip. split; [done|]. by exists (rows s').
  - unfold good. cbn. split_and!; done || constructor.
Qed.

Lemma offered_to_grantable ip b s : spec s = sp -> offered_to ip key mac b s = true -> can_grant (rows s) ip.
Proof.
  intros Hsp. unfold offered_to, can_grant, grantable. rewrite Hsp. case_bool_decide as E; [by left|].
  destruct (is_reserved s ip) eqn:Er; [done|]. destruct (dget ip (rows s)) as [r|] eqn:Ed; [|done].
  case_bool_decide as Ek; [|done]. intros H. right. left. exists r. split; [by apply dget_In|].
  unfold holds. rewrite bool_decide_true by done. cbn.
  apply orb_true_iff in H as [->|[_ ->]%andb_true_iff]; by rewrite ?orb_true_r.
Qed.

Lemma offered_to_bindable ip b s : spec s = sp -> offered_to ip key mac b s = true -> bindable sp mac ip.
Proof.
  intros Hsp. unfold offered_to, bindable. rewrite Hsp. case_bool_decide as E; [by left|].
  destruct (is_reserved s ip) eqn:Er; [done|]. intros _. right. rewrite <- Hsp. exact Er.
Qed.

Lemma ack_good s ip b : P (rows s) -> spec s = sp -> offered_to ip key mac b s = true ->
  good (fun ip => exists rs, P rs /\ can_grant rs ip) s (ack ipid now m ip s).
Proof.
  intros HP Hsp Ho. pose proof (offered_to_grantable _ _ _ Hsp Ho) as Hg. unfold ack, good. cbn [fst snd]. split_and!; try done.
  - unfold bump, bind. cbn. rewrite Hsp. apply (Pgrant ip Bound); [done | done | done|]. intros _. by eapply offered_to_bindable.
  - apply answers_lease; [done | done | by right |]. right. exists ip. split; [done|]. by exists (rows s).
Qed.

Lemma nak_good Q s reason : P (rows s) -> spec s = sp -> bytes_ok reason -> good Q s (nak ipid m reason s).
Proof.
  intros HP Hsp Hr. unfold nak, good. cbn [fst snd]. split_and!; try done.
  apply (answers_one Q s NAK _ (Ok [(56, take 64 reason)])); auto.
  - intros l' [= <-]. left. eauto.
  - intros o Ho. eexists. split; [reflexivity|]. unfold encode_options. cbn [mapM_res fst snd]. rewrite Ho. cbn. by rewrite app_nil_r.
Qed.

Lemma release_good ip s : P (rows s) ->
  let s' := (release ip key s).2 in P (rows s') /\ spec s' = spec s /\ smac s' = smac s /\ device s' = device s.
Proof.
  intros HP. unfold release. destruct (dget ip (rows s)) as [r|] eqn:E; [|done].
  case_bool_decide as Ek; [|done]. cbn. split_and!; try done. by eapply Prelease.
Qed.

Lemma handle_request_good s : P (rows s) -> spec s = sp ->
  good (fun ip => exists rs, P rs /\ can_grant rs ip) s (handle_request ipid now m s).
Proof.
  intros HP Hsp. unfold handle_request. fold key mac.
  destruct (dget 54 (moptions m)) as [srv|].
  - case_bool_decide as Es; cbn [negb].
    + destruct (requested_ip m) as [ip|]; [|by (apply nak_good; [done | done | text_bytes])].
      destruct (offered_to ip key mac false s) eqn:Eo; [|by (apply nak_good; [done | done | text_bytes])].
      by eapply ack_good.
    + destruct (held_by key (rows s)) as [[ip r]|]; [|unfold good; cbn; split_and!; done || constructor].
      case_bool_decide; [|unfold good; cbn; split_and!; done || constructor].
      destruct (release_good ip s HP) as (H1 & H2 & H3 & H4).
      unfold good. cbn. split_and!; first [done | by rewrite H2 | constructor].
  - destruct (requested_ip m) as [ip|].
    + destruct (in_net s ip); cbn [negb]; [|by (apply nak_good; [done | done | text_bytes])].
      destruct (offered_to ip key mac true s) eqn:Eo; [|by (apply nak_good; [done | done | text_bytes])].
      by eapply ack_good.
    + destruct (ciaddr_ip m) as [ip|]; [|unfold good; cbn; split_and!; done || constructor].
      destruct (negb (in_net s ip) || negb (offered_to ip key mac true s)) eqn:E; [by (apply nak_good; [done | done | text_bytes])|].
      apply orb_false_iff in E as [_ E]. apply negb_false_iff in E.
      by eapply ack_good.
Qed.

Lemma handle_message_good s : P (rows s) -> spec s = sp ->
  good (fun ip => exists rs, P rs /\ can_grant rs ip) s (handle_message prb ipid now m s).
Proof.
  intros HP Hsp. unfold handle_message.
  destruct (expire now (rows s)) as [r changed] eqn:Ee.
  set (s1 := touch now _). assert (P (rows s1) /\ spec s1 = sp /\ smac s1 = smac s /\ device s1 = device s) as (H1 & H2 & H3 & H4).
  { apply Pexpire in HP. rewrite Ee in HP. unfold s1. destruct changed; cbn; done. }
  clearbody s1. assert (forall Q out, good Q s1 out -> good Q s out) as Hg.
  { unfold good, answers. rewrite H3, H4. done. }
  apply Hg. clear Hg HP Hsp Ee H3 H4.
  case_ifs; try (unfold good; cbn; split_and!; done || constructor).
  - by apply handle_discover_good.
  - by apply handle_request_good.
  - unfold good, handle_decline. cbn [fst snd]. destruct (requested_ip m) as [ip|] eqn:Er; [|split_and!; done || constructor].
    destruct (in_pool s1 ip) eqn:Ep; [|split_and!; done || constructor]. cbn. split_and!; try done.
    apply Pdecline; [done | bool_lia | done |]. unfold in_pool in Ep. by rewrite H2 in Ep.
  - destruct (ciaddr_ip m) as [ip|]; [|unfold good; cbn; split_and!; done || constructor].
    destruct (release_good ip s1 H1) as (R1 & R2 & R3 & R4). unfold good. cbn [fst snd]. split_and!; first [done | by etrans; [exact R2|] | constructor].
  - destruct (ciaddr_ip m) as [ip|]; [|unfold good; cbn; split_and!; done || constructor].
    unfold good. cbn [fst snd]. split_and!; try done. apply answers_lease; auto.
Qed.

End step.

(** ** What the client receives *)

Lemma reply_options_spec kind l s s1 : spec s1 = spec s -> reply_options kind l s1 -> reply_options kind l s.
Proof. unfold reply_options, lease_option_list. by intros ->. Qed.

Lemma handle_good prb ipid now frame m s (P : list (Z * row) -> Prop) :
  parse frame = Some m -> P (rows s) ->
  (forall rs, P rs -> P (expire now rs).1) ->
  (forall ip rs, P rs -> pool_has (spec s) ip = true -> reserved_has (spec s) ip = false ->
     free_for (client_key m) ip rs -> P (dset ip (conflict_row now) rs)) ->
  (forall ip st rs, P rs -> st <> Declined -> grantable (spec s) (client_key m) (mac_text m) ip rs ->
     (st = Bound -> bindable (spec s) (mac_text m) ip) -> P (dset ip (granted_row now m (spec s) st) rs)) ->
  (forall ip r rs, P rs -> dget ip rs = Some r -> rkey r = Some (client_key m) -> P (ddel ip rs)) ->
  (forall ip rs, P rs -> mtype m = DECLINE -> requested_ip m = Some ip -> pool_has (spec s) ip = true ->
     P (dset ip (declined_row now m) rs)) ->
  good ipid m (spec s) P (fun ip => exists rs, P rs /\ grantable (spec s) (client_key m) (mac_text m) ip rs) s
    (handle prb ipid now frame s).
Proof. intros Hp ? ? ? ? ? ?. unfold handle. rewrite Hp. by apply handle_message_good. Qed.

(** The frames of one step decode, and their address field is zero or a granted address. *)
Lemma answers_decode ipid m s Q fs :
  server_wf s -> message_wf m -> answers ipid m (spec s) Q s (Ok fs) ->
  Forall (fun f => exists kind yi l, reply_options kind l s /\ decodes_to f kind m yi l s /\
    (yi = zeros 4 \/ exists ip, yi = be_pack 4 ip /\ Q ip)) fs.
Proof.
  intros [Hm Hs] Hw H. unfold answers in H. eapply Forall_impl; [exact H|]. cbv beta.
  intros f (kind & yi & l & opts & s1 & H1 & H2 & H3 & H4 & H5 & H6).
  exists kind, yi, l. split; [by eapply reply_options_spec|]. split; [|done].
  assert (length yi = 4%nat /\ bytes_ok yi) as [Ly Hy].
  { destruct H6 as [->|(ip & -> & _)]; split; first [reflexivity | apply bytes_ok_zeros | apply be_pack_bytes]. }
  assert (server_wf s1) as Hw1 by (split; [by rewrite H2 | by rewrite H1]).
  pose proof (reply_decodes _ _ _ _ _ _ _ _ H5 H3 H4 Hw1 Hw Ly Hy) as Hd.
  unfold decodes_to, server_ip in *. by rewrite H1 in Hd.
Qed.

Lemma good_weaken ipid m sp P (Q Q' : Z -> Prop) s out :
  (forall ip, Q ip -> Q' ip) -> good ipid m sp P Q s out -> good ipid m sp P Q' s out.
Proof.
  intros HQ (H1 & H2 & H3 & H4 & H5). split_and!; try done. unfold answers in *. destruct out.2; [|done].
  eapply Forall_impl; [exact H5|]. cbv beta. intros f (kind & yi & l & opts & s1 & Hx). exists kind, yi, l, opts, s1. naive_solver.
Qed.

(**  Every frame the server sends in answer to a client passes the receiver's
    checks: IPv4 and UDP lengths and both checksums verify, it echoes the transaction
    and the hardware address, and its options decode to the message type, the server
    identifier, then the lease options of the specification (or the NAK text) and
    the client identifier. *)
Theorem replies_decode prb ipid now frame m s s' fs :
  server_wf s -> bytes_ok frame -> parse frame = Some m -> handle prb ipid now frame s = (s', Ok fs) ->
  Forall (fun f => exists kind yi l, reply_options kind l s /\ decodes_to f kind m yi l s) fs.
Proof.
  intros Hs Hb Hp Hh.
  assert (good ipid m (spec s) (fun _ => True) (fun _ => True) s (handle prb ipid now frame s)) as (_ & _ & _ & _ & Ha).
  { eapply good_weaken; [|apply (handle_good prb ipid now frame m s (fun _ => True)); done]. done. }
  rewrite Hh in Ha. cbn [snd] in Ha. apply answers_decode in Ha; [|done | by eapply parse_wf].
  eapply Forall_impl; [exact Ha|]. cbv beta. naive_solver.
Qed.

(** ** Exclusive leases *)

(** One received frame with the clock, the probe and the random identification of its step. *)
Record input := { i_probe : Z -> bool; i_ipid : Z; i_now : Z; i_frame : bytes }.

Fixpoint serve (evs : list input) (s : server) : server * list (result derr (list bytes)) :=
  match evs with
  | [] => (s, [])
  | e :: t =>
      let '(s1, r) := handle (i_probe e) (i_ipid e) (i_now e) (i_frame e) s in
      let '(s2, rs) := serve t s1 in (s2, r :: rs)
  end.

(** The frame arrives before the lease ends, comes from another client, whose MAC has
    no reservation of the address, and is not a DECLINE of the address. *)
Definition foreign (sp : server_spec) (ip : Z) (r : row) (k : pystr) (e : input) : Prop :=
  bytes_ok (i_frame e) /\ stale (i_now e) r = false /\
  match parse (i_frame e) with
  | None => True
  | Some m => client_key m <> k /\ dget (mac_text m) (reserved sp) <> Some ip /\
              ~ (mtype m = DECLINE /\ requested_ip m = Some ip)
  end.

Definition keeps (ip : Z) (r : row) (rs : list (Z * row)) : Prop :=
  dict_ok rs /\ dget ip rs = Some r /\ Forall (fun kv => is_ip4 kv.1) rs.

Lemma expire_In now rs kv : kv ∈ (expire now rs).1 <-> stale now kv.2 = false /\ kv ∈ rs.
Proof. unfold expire. cbn [fst]. by rewrite list_elem_of_filter. Qed.

Lemma dict_ok_expire now rs : dict_ok rs -> dict_ok (expire now rs).1.
Proof.
  unfold dict_ok, expire. cbn. intros H. eapply sublist_NoDup; [exact H|]. apply fmap_sublist, sublist_filter.
Qed.

Lemma Forall_dset (Pr : Z * row -> Prop) ip r rs : Pr (ip, r) -> Forall Pr rs -> Forall Pr (dset ip r rs).
Proof. intros H Hf. apply Forall_forall. intros kv [->|Hi]%elem_dset; [done|]. rewrite Forall_forall in Hf. auto. Qed.

Lemma Forall_ddel (Pr : Z * row -> Prop) ip rs : Forall Pr rs -> Forall Pr (ddel ip rs).
Proof. intros Hf. apply Forall_forall. intros kv Hi%elem_ddel. rewrite Forall_forall in Hf. auto. Qed.

Lemma Forall_expire (Pr : Z * row -> Prop) now rs : Forall Pr rs -> Forall Pr (expire now rs).1.
Proof. intros Hf. apply Forall_forall. intros kv [_ Hi]%expire_In. rewrite Forall_forall in Hf. auto. Qed.

Lemma keeps_dset ip r ip' r' rs : keeps ip r rs -> ip' <> ip -> is_ip4 ip' -> keeps ip r (dset ip' r' rs).
Proof.
  intros (H1 & H2 & H3) Hne Hi. split; [by apply dict_ok_dset|]. split; [by rewrite dget_dset_ne|]. by apply Forall_dset.
Qed.

Lemma pool_has_spec sp ip : spec_ok sp -> pool_has sp ip = true ->
  exists p, p ∈ pools sp /\ pool_ok (address sp) p /\ p.1 <= ip <= p.2.
Proof.
  intros Hs. unfold pool_has. rewrite existsb_exists. intros (p & Hp & Hi). zb. exists p.
  apply list_elem_of_In in Hp. pose proof (ok_pools _ Hs) as Hf. rewrite Forall_forall in Hf. auto.
Qed.

Lemma pool_ip4 sp ip : spec_ok sp -> pool_has sp ip = true -> is_ip4 ip.
Proof.
  intros Hs H. apply pool_has_spec in H as (p & _ & (Hp1 & Hp2 & _) & Hi); [|done].
  destruct Hp1 as [H1 _], Hp2 as [H2 _]. unfold is_ip4 in *. lia.
Qed.

Lemma grantable_ip4 sp key mac ip rs :
  spec_ok sp -> Forall (fun kv => is_ip4 kv.1) rs -> grantable sp key mac ip rs -> is_ip4 ip.
Proof.
  intros Hs Hf [H|[(r & Hr & _)|[H _]]].
  - apply dget_In in H. pose proof (ok_macs _ Hs) as Hm. rewrite Forall_forall in Hm.
    destruct (Hm _ H) as (_ & _ & (? & _) & _). done.
  - rewrite Forall_forall in Hf. exact (Hf _ Hr).
  - by eapply pool_ip4.
Qed.

Lemma grantable_foreign sp key mac ip ip' r k rs :
  keeps ip r rs -> rkey r = Some k -> key <> k -> dget mac (reserved sp) <> Some ip ->
  grantable sp key mac ip' rs -> ip' <> ip.
Proof.
  intros (H1 & H2 & _) Hk Hne Hm Hg ->. destruct Hg as [H|[(r' & Hr & Hh)|(_ & _ & Hf)]]; [done| |].
  - apply In_dget in Hr; [|done]. rewrite H2 in Hr. injection Hr as <-. unfold holds in Hh.
    apply andb_true_iff in Hh as [Hh _]. apply bool_decide_eq_true in Hh. congruence.
  - unfold free_for in Hf. rewrite H2 in Hf. congruence.
Qed.

Lemma pack4_inj a b : is_ip4 a -> is_ip4 b -> be_pack 4 a = be_pack 4 b -> a = b.
Proof.
  unfold is_ip4. intros Ha Hb H. apply (f_equal be_unpack) in H. rewrite !be_unpack_pack in H.
  change (256 ^ Z.of_nat 4) with (2 ^ 32) in H. rewrite !Z.mod_small in H; lia.
Qed.

(** Results none of whose frames carries the address. *)
Definition withholds (ip : Z) (res : result derr (list bytes)) : Prop :=
  match res with Ok fs => Forall (fun f => slice 58 62 f <> be_pack 4 ip) fs | Err _ => True end.

Lemma foreign_step ip r k e s :
  server_wf s -> rkey r = Some k -> 0 < ip < 2 ^ 32 -> keeps ip r (rows s) ->
  foreign (spec s) ip r k e ->
  let out := handle (i_probe e) (i_ipid e) (i_now e) (i_frame e) s in
  keeps ip r (rows out.1) /\ spec out.1 = spec s /\ smac out.1 = smac s /\ withholds ip out.2.
Proof.
  intros Hs Hk Hip HP (Hf & Hst & He). destruct (parse (i_frame e)) as [m|] eqn:Ep.
  2:{ unfold handle. rewrite Ep. cbn. done. }
  destruct He as (H1 & H2 & H3). pose proof (wf_spec _ Hs) as Hsp.
  pose proof (handle_good (i_probe e) (i_ipid e) (i_now e) (i_frame e) m s (keeps ip r) Ep HP) as Hg.
  destruct Hg as (G1 & G2 & G3 & G4 & G5).
  - intros rs (R1 & R2 & R3). split; [by apply dict_ok_expire|]. split; [|by apply Forall_expire].
    apply In_dget; [by apply dict_ok_expire|]. apply expire_In. split; [done | by apply dget_In].
  - intros ip' rs HPr Hp Hr Hfr. apply keeps_dset; [done| |].
    + eapply grantable_foreign with (mac := mac_text m); try done. right. right. done.
    + by eapply pool_ip4.
  - intros ip' st rs HPr _ Hgr _. apply keeps_dset; [done| |].
    + by eapply grantable_foreign.
    + eapply grantable_ip4; [done | apply HPr | done].
  - intros ip' r' rs (R1 & R2 & R3) Hd Hkr. split; [by apply dict_ok_ddel|]. split; [|by apply Forall_ddel].
    rewrite dget_ddel, decide_False; [done|]. intros <-. rewrite R2 in Hd. injection Hd as <-. congruence.
  - intros ip' rs HPr Hmt Hrq Hp. apply keeps_dset; [done| |].
    + intros ->. by apply H3.
    + by eapply pool_ip4.
  - split_and!; try done. unfold withholds.
    destruct (handle _ _ _ _ s).2 as [fs|] eqn:Eh; [|done].
    apply answers_decode in G5; [|done | by eapply parse_wf]. eapply Forall_impl; [exact G5|]. cbv beta.
    intros f (kind & yi & l & _ & (_ & _ & Hy & _) & Hyi) Heq. rewrite Hy in Heq.
    destruct Hyi as [->|(ip' & -> & rs & HPr & Hgr)].
    + apply (f_equal be_unpack) in Heq. rewrite be_unpack_pack in Heq. change (256 ^ Z.of_nat 4) with (2 ^ 32) in Heq.
      rewrite Z.mod_small in Heq by lia. change (be_unpack (zeros 4)) with 0 in Heq. lia.
    + apply pack4_inj in Heq; [|eapply grantable_ip4; [done | apply HPr | done] | unfold is_ip4; lia].
      exact (grantable_foreign _ _ _ ip ip' r k rs HPr Hk H1 H2 Hgr Heq).
Qed.

Lemma serve_foreign ip r k evs : forall s,
  server_wf s -> rkey r = Some k -> 0 < ip < 2 ^ 32 -> keeps ip r (rows s) -> Forall (foreign (spec s) ip r k) evs ->
  keeps ip r (rows (serve evs s).1) /\ Forall (withholds ip) (serve evs s).2.
Proof.
  induction evs as [|e evs IH]; intros s Hs Hk Hip HP Hf; cbn [serve]; [done|].
  apply Forall_cons in Hf as [He Hf].
  destruct (foreign_step ip r k e s Hs Hk Hip HP He) as (H1 & H2 & H3 & H4).
  destruct (handle _ _ _ _ s) as [s1 res]. cbn [fst snd] in *.
  assert (server_wf s1) as Hs1 by (destruct Hs; split; [by rewrite H3 | by rewrite H2]).
  rewrite <- H2 in Hf. destruct (IH s1 Hs1 Hk Hip H1 Hf) as [I1 I2]. destruct (serve evs s1) as [s2 rs].
  cbn [fst snd] in *. split; [done | by constructor].
Qed.

(** C2.  Leases are exclusive.  On a well-formed server whose table has a row for each address at
    most once, let a client hold an offer or a lease.  No sequence of frames that arrive before it
    ends and come from other clients, whatever they request, release or renew, changes its row, and
    none of the answers carries its address.  Two kinds of frames are excepted because the code lets
    them take the address: a DECLINE of that very address, and those of a client whose MAC has the
    address reserved, since a reservation is granted without a look at the table. *)
Theorem lease_exclusive ip r k evs s :
  server_wf s -> dict_ok (rows s) -> Forall (fun kv => is_ip4 kv.1) (rows s) -> 0 < ip ->
  dget ip (rows s) = Some r -> rkey r = Some k -> Forall (foreign (spec s) ip r k) evs ->
  dget ip (rows (serve evs s).1) = Some r /\ Forall (withholds ip) (serve evs s).2.
Proof.
  intros Hs Hd Hi Hp Hg Hk Hf. assert (is_ip4 ip) as [_ Hb].
  { apply dget_In in Hg. rewrite Forall_forall in Hi. exact (Hi _ Hg). }
  destruct (serve_foreign ip r k evs s Hs Hk) as [(_ & ? & _) ?]; done.
Qed.

(** ** Served addresses *)

Definition row_ok (sp : server_spec) (kv : Z * row) : Prop :=
  (pool_has sp kv.1 = true \/ reserved_has sp kv.1 = true) /\
  (rstate kv.2 = Bound -> reserved_has sp kv.1 = true ->
   exists m, rmac kv.2 = Some m /\ dget m (reserved sp) = Some kv.1).
Definition rows_ok (sp : server_spec) (rs : list (Z * row)) : Prop := dict_ok rs /\ Forall (row_ok sp) rs.

Lemma dget_reserved_has sp mac ip : dget mac (reserved sp) = Some ip -> reserved_has sp ip = true.
Proof. intros H%dget_In. apply bool_decide_eq_true. exact (list_elem_of_fmap_2 snd _ _ H). Qed.

Lemma grantable_served sp key mac ip rs :
  Forall (row_ok sp) rs -> grantable sp key mac ip rs -> pool_has sp ip = true \/ reserved_has sp ip = true.
Proof.
  intros Hf [H|[(r & Hr & _)|[H _]]]; [right; by eapply dget_reserved_has | | by left].
  rewrite Forall_forall in Hf. exact (proj1 (Hf _ Hr)).
Qed.

Lemma rows_ok_step prb ipid now frame m s : parse frame = Some m -> rows_ok (spec s) (rows s) ->
  good ipid m (spec s) (rows_ok (spec s)) (fun ip => pool_has (spec s) ip = true \/ reserved_has (spec s) ip = true) s
    (handle prb ipid now frame s).
Proof.
  intros Hp HP. eapply good_weaken; [|apply (handle_good prb ipid now frame m s (rows_ok (spec s)) Hp HP)].
  - cbv beta. intros ip (rs & [_ Hr] & Hg). by eapply grantable_served.
  - intros rs [H1 H2]. split; [by apply dict_ok_expire | by apply Forall_expire].
  - intros ip rs [H1 H2] Hpl Hr _. split; [by apply dict_ok_dset|]. apply Forall_dset; [|done]. split; [by left | intros E; discriminate E].
  - intros ip st rs [H1 H2] _ Hg Hb. split; [by apply dict_ok_dset|]. apply Forall_dset; [|done].
    split; [by eapply grantable_served|]. cbn. intros -> Hr. destruct (Hb eq_refl) as [E|E]; [eauto | unfold reserved_has in *; congruence].
  - intros ip r rs [H1 H2] _ _. split; [by apply dict_ok_ddel | by apply Forall_ddel].
  - intros ip rs [H1 H2] _ _ Hpl. split; [by apply dict_ok_dset|]. apply Forall_dset; [|done]. split; [by left | intros E; discriminate E].
Qed.

Lemma served_client_address sp ip :
  spec_ok sp -> pool_has sp ip = true \/ reserved_has sp ip = true -> is_ip4 ip /\ client_address (address sp) ip.
Proof.
  intros Hs [H|H].
  - split; [by eapply pool_ip4|]. apply pool_has_spec in H as (p & _ & (_ & _ & _ & H1 & H2 & H3) & Hi); [|done].
    split; [lia|]. intros ->. lia.
  - apply bool_decide_eq_true in H. apply list_elem_of_fmap in H as ([mac ip'] & -> & Hi).
    pose proof (ok_macs _ Hs) as Hm. rewrite Forall_forall in Hm. destruct (Hm _ Hi) as (_ & _ & (? & _) & ?). done.
Qed.

(** The address field of a frame is zero or a client address of the served network. *)
Definition carries_client_address (sp : server_spec) (f : bytes) : Prop :=
  slice 58 62 f = zeros 4 \/ exists ip, slice 58 62 f = be_pack 4 ip /\ is_ip4 ip /\ client_address (address sp) ip.

(** C31.  Started with no leases, or with leases that fit the configuration (a lease file from before
    a change of the pools need not: see [stale_lease_offered]), after any frames the lease table only has
    pool and reserved addresses, a reserved address is bound only to the MAC it is reserved for, and
    every frame sent carries no address or a client address of the served network: never the
    network, broadcast or interface address. *)
Theorem served_addresses evs : forall s,
  server_wf s -> rows_ok (spec s) (rows s) -> Forall (fun e => bytes_ok (i_frame e)) evs ->
  rows_ok (spec s) (rows (serve evs s).1) /\
  Forall (fun res => match res with Ok fs => Forall (carries_client_address (spec s)) fs | Err _ => True end) (serve evs s).2.
Proof.
  induction evs as [|e evs IH]; intros s Hs HP Hf; cbn [serve]; [done|].
  apply Forall_cons in Hf as [He Hf].
  assert (let out := handle (i_probe e) (i_ipid e) (i_now e) (i_frame e) s in
    rows_ok (spec s) (rows out.1) /\ spec out.1 = spec s /\ smac out.1 = smac s /\
    match out.2 with Ok fs => Forall (carries_client_address (spec s)) fs | Err _ => True end) as (H1 & H2 & H3 & H4).
  { destruct (parse (i_frame e)) as [m|] eqn:Ep; [|unfold handle; rewrite Ep; cbn; split_and!; done || constructor].
    destruct (rows_ok_step (i_probe e) (i_ipid e) (i_now e) _ m s Ep HP) as (G1 & G2 & G3 & _ & G5).
    cbv zeta. split_and!; try done. destruct (handle _ _ _ _ s).2 as [fs|]; [|done].
    apply answers_decode in G5; [|done | by eapply parse_wf]. eapply Forall_impl; [exact G5|]. cbv beta.
    intros f (kind & yi & l & _ & (_ & _ & Hy & _) & Hyi). unfold carries_client_address. rewrite Hy.
    destruct Hyi as [->|(ip & -> & Hq)]; [by left|]. right. exists ip. split; [done|].
    apply served_client_address; [apply Hs | done]. }
  destruct (handle _ _ _ _ s) as [s1 res]. cbn [fst snd] in *.
  assert (server_wf s1) as Hs1 by (destruct Hs; split; [by rewrite H3 | by rewrite H2]).
  rewrite <- H2 in H1. destruct (IH s1 Hs1 H1 Hf) as [I1 I2]. rewrite H2 in I1, I2. destruct (serve evs s1) as [s2 rs].
  cbn [fst snd] in *. split; [done | by constructor].
Qed.

(** ** Durability *)

Definition saved (s : server) : Prop := disk s = Some {| f_schema := 1; f_device := device s; f_rows := rows s |}.

Lemma nak_answers ipid m reason s s0 : spec s = spec s0 -> smac s = smac s0 -> bytes_ok reason ->
  answers ipid m (spec s0) (fun _ => False) s0 (nak ipid m reason s).2.
Proof.
  intros H1 H2 Hr. pose proof (nak_good ipid m (spec s0) (fun _ => True) (fun _ => False) s reason I H1 Hr) as (_ & _ & _ & _ & H).
  unfold answers in *. by rewrite <- H2.
Qed.

(** A step saves the table it leaves behind, or grants no address. *)
Lemma handle_request_durable ipid now m s s0 : spec s = spec s0 -> smac s = smac s0 ->
  let out := handle_request ipid now m s in
  saved out.1 \/ answers ipid m (spec s0) (fun _ => False) s0 out.2.
Proof.
  intros H1 H2. assert (forall reason, bytes_ok reason -> answers ipid m (spec s0) (fun _ => False) s0 (nak ipid m reason s).2) as Hn
    by (intros; by apply nak_answers).
  unfold handle_request. destruct (dget 54 (moptions m)) as [srv|].
  - case_bool_decide; cbn [negb]; [|right; exact (List.Forall_nil _)].
    destruct (requested_ip m); [|right; apply Hn; text_bytes].
    destruct (offered_to _ _ _ _ s); [by left | right; apply Hn; text_bytes].
  - destruct (requested_ip m).
    + destruct (negb (in_net s _)); [right; apply Hn; text_bytes|].
      destruct (offered_to _ _ _ _ s); [by left | right; apply Hn; text_bytes].
    + destruct (ciaddr_ip m); [|right; exact (List.Forall_nil _)].
      destruct (_ || _); [right; apply Hn; text_bytes | by left].
Qed.

Lemma handle_message_durable prb ipid now m s :
  let out := handle_message prb ipid now m s in
  saved out.1 \/ answers ipid m (spec s) (fun _ => False) s out.2.
Proof.
  unfold handle_message. destruct (expire now (rows s)) as [r changed].
  set (s1 := touch now _). assert (spec s1 = spec s /\ smac s1 = smac s) as [H1 H2] by (unfold s1; by destruct changed).
  clearbody s1. case_ifs; try (right; exact (List.Forall_nil _)).
  - unfold handle_discover. destruct (allocate _ _ _ _ _ s1) as [[ip|] s2]; [by left | right; exact (List.Forall_nil _)].
  - by apply handle_request_durable.
  - right. apply answers_lease; auto.
Qed.

(**  An answer is durable before it is sent: when a frame carries an address, the
    lease file holds exactly the table the server then has, so a daemon started from
    that file has the same leases. *)
Theorem answered_leases_survive prb ipid now frame s s' fs f sp mac :
  server_wf s -> bytes_ok frame -> handle prb ipid now frame s = (s', Ok fs) -> f ∈ fs -> slice 58 62 f <> zeros 4 ->
  rows (server_init (device s') sp mac (disk s')) = rows s'.
Proof.
  intros Hs Hb Hh Hf Hne.
  assert (saved s') as ->.
  - unfold handle in Hh. destruct (parse frame) as [m|] eqn:Ep; [|injection Hh as <- <-; by apply elem_of_nil in Hf].
    pose proof (handle_message_durable prb ipid now m s) as Hd. rewrite Hh in Hd. cbn [fst snd] in Hd.
    destruct Hd as [Hd|Hd]; [done|]. apply answers_decode in Hd; [|done | by eapply parse_wf].
    rewrite Forall_forall in Hd. destruct (Hd f Hf) as (kind & yi & l & _ & (_ & _ & Hy & _) & [->|(? & _ & [])]). done.
  - cbn. by rewrite bool_decide_true.
Qed.

(**  A DECLINE is not checked against the client that holds the address: any
    client's DECLINE of a pool address replaces the row, also another client's
    unexpired lease, by one that lapses after ten minutes. *)
Theorem decline_evicts prb ipid now frame m ip s :
  parse frame = Some m -> mtype m = DECLINE -> giaddr m = zeros 4 -> requested_ip m = Some ip -> in_pool s ip = true ->
  let s' := (handle prb ipid now frame s).1 in
  dget ip (rows s') = Some (declined_row now m) /\ saved s'.
Proof.
  intros Hp Ht Hg Hr Hi. unfold handle. rewrite Hp. unfold handle_message.
  destruct (expire now (rows s)) as [r changed]. set (s1 := touch now _).
  assert (spec s1 = spec s) as H1 by (unfold s1; by destruct changed). clearbody s1.
  rewrite Hg, bool_decide_true, Ht by done. cbn [negb Z.eqb DISCOVER REQUEST DECLINE Pos.eqb].
  unfold handle_decline. rewrite Hr. unfold in_pool in *. rewrite H1, Hi. cbn. by rewrite dget_dset_eq.
Qed.

(** ** A served device *)

Definition client_frame (kind : Z) (ch ci : bytes) (opts : list (Z * bytes)) : bytes :=
  let enc := concat (map (fun tv : Z * bytes => tv.1 :: blen tv.2 :: tv.2) ((53, [kind]) :: opts)) in
  let body := [1; 1; 6; 0] ++ [18; 52; 86; 120] ++ zeros 4 ++ ci ++ zeros 12 ++ ch ++ zeros 202 ++ MAGIC ++ enc ++ [255] in
  BROADCAST_MAC ++ ch ++ [8; 0] ++ [69; 0] ++ be_pack 2 (28 + blen body) ++ [0; 0; 0; 0; 64; 17; 0; 0] ++ zeros 4
    ++ replicate 4 255 ++ be_pack 2 68 ++ be_pack 2 67 ++ be_pack 2 (8 + blen body) ++ [0; 0] ++ body.

Definition no_options : dhcp_options :=
  {| gateway := None; subnet_mask := None; dns := []; ntp := []; wins := []; domain := None |}.
Definition empty_spec : server_spec :=
  {| interface := []; address := (0, 0); pools := []; reserved := []; lease := None; probe := false; options := no_options |}.
Definition demo_spec : server_spec :=
  match validate_server (JStr (lit "p5")) sample_server with Ok s => s | Err _ => empty_spec end.
Definition demo : server := server_init (lit "p5") demo_spec [2; 0; 0; 0; 0; 1] None.

Lemma demo_spec_ok : spec_ok demo_spec.
Proof.
  unfold demo_spec. pose proof (validate_server_spec_ok (JStr (lit "p5")) sample_server) as H.
  assert (is_ok (validate_server (JStr (lit "p5")) sample_server) = true) as E by (vm_compute; reflexivity).
  destruct (validate_server (JStr (lit "p5")) sample_server) as [s|]; [by apply H | done].
Qed.

Lemma demo_wf : server_wf demo.
Proof. split; [split; [reflexivity | text_bytes] | exact demo_spec_ok]. Qed.

Definition mac_a : bytes := [2; 17; 34; 51; 68; 85].
Definition mac_b : bytes := [2; 17; 34; 51; 68; 86].
(** 192.168.69.100, the first address of the lower pool. *)
Definition first_ip : Z := 3232253284.
Definition at_time (t : Z) (f : bytes) : input := {| i_probe := fun _ => false; i_ipid := 7; i_now := t; i_frame := f |}.
Definition discover_a : input := at_time 1000 (client_frame DISCOVER mac_a (zeros 4) []).
Definition request_a : input :=
  at_time 1001 (client_frame REQUEST mac_a (zeros 4) [(50, be_pack 4 first_ip); (54, be_pack 4 3232253185)]).
Definition discover_b : input := at_time 1002 (client_frame DISCOVER mac_b (zeros 4) [(50, be_pack 4 first_ip)]).
Definition renew_b : input := at_time 1003 (client_frame REQUEST mac_b (be_pack 4 first_ip) []).
Definition leased : server := (serve [discover_a; request_a] demo).1.

Definition row_a : row :=
  {| rstate := Bound; rkey := Some (lit "mac:02:11:22:33:44:55"); rmac := Some (lit "02:11:22:33:44:55"); rhost := [];
     since := 1001; expires := Some 4601 |}.

Lemma leased_facts : rows leased = [(first_ip, row_a)] /\ spec leased = demo_spec /\ smac leased = smac demo.
Proof. vm_compute. auto. Qed.

Lemma replies_decode_witness :
  exists m s' fs, parse (i_frame discover_a) = Some m /\
    handle (fun _ => false) 7 1000 (i_frame discover_a) demo = (s', Ok fs) /\ length fs = 1%nat /\
    Forall (fun f => exists kind yi l, reply_options kind l demo /\ decodes_to f kind m yi l demo) fs.
Proof.
  assert (match parse (i_frame discover_a), handle (fun _ => false) 7 1000 (i_frame discover_a) demo with
          | Some _, (_, Ok [_]) => true | _, _ => false end = true) as H by (vm_compute; reflexivity).
  destruct (parse (i_frame discover_a)) as [m|] eqn:Ep; [|discriminate H].
  destruct (handle (fun _ => false) 7 1000 (i_frame discover_a) demo) as [s' [[|f [|? ?]]|]] eqn:Eh; try discriminate H.
  exists m, s', [f]. split; [reflexivity|]. split; [reflexivity|]. split; [reflexivity|].
  refine (replies_decode _ _ _ _ m demo s' [f] demo_wf _ Ep Eh). text_bytes.
Defined.

Lemma foreign_b : Forall (foreign demo_spec first_ip row_a (lit "mac:02:11:22:33:44:55")) [discover_b; renew_b].
Proof.
  assert (forall e, (bool_decide (bytes_ok (i_frame e)) && negb (stale (i_now e) row_a) &&
    match parse (i_frame e) with
    | None => false
    | Some m => negb (bool_decide (client_key m = lit "mac:02:11:22:33:44:55")) &&
                negb (bool_decide (dget (mac_text m) (reserved demo_spec) = Some first_ip)) && negb (mtype m =? DECLINE)
    end) = true -> foreign demo_spec first_ip row_a (lit "mac:02:11:22:33:44:55") e) as H.
  { intros e He. apply andb_true_iff in He as [He Hm]. apply andb_true_iff in He as [Hb Hs].
    split; [by apply bool_decide_eq_true in Hb|]. split; [by apply negb_true_iff in Hs|].
    destruct (parse (i_frame e)) as [m|]; [|done]. rewrite !andb_true_iff, !negb_true_iff, !bool_decide_eq_false in Hm.
    destruct Hm as [[H1 H2] H3]. split_and!; [done | done |]. intros [Hd _]. bool_lia. }
  apply Forall_cons. split; [apply H; vm_compute; reflexivity|]. apply Forall_singleton. apply H. vm_compute. reflexivity.
Qed.

Lemma lease_exclusive_witness :
  dget first_ip (rows (serve [discover_b; renew_b] leased).1) = Some row_a /\
  Forall (withholds first_ip) (serve [discover_b; renew_b] leased).2.
Proof.
  destruct leased_facts as (E1 & E2 & E3).
  apply (lease_exclusive first_ip row_a (lit "mac:02:11:22:33:44:55")).
  - split; [rewrite E3; exact (wf_smac _ demo_wf) | rewrite E2; exact demo_spec_ok].
  - rewrite E1. unfold dict_ok. cbn. apply NoDup_singleton.
  - rewrite E1. apply Forall_singleton. unfold is_ip4, first_ip. cbn. lia.
  - unfold first_ip. lia.
  - rewrite E1. reflexivity.
  - reflexivity.
  - rewrite E2. exact foreign_b.
Defined.

Lemma served_addresses_witness :
  rows leased = [(first_ip, row_a)] /\ rows_ok (spec demo) (rows leased).
Proof.
  split; [exact (proj1 leased_facts)|]. unfold leased.
  refine (proj1 (served_addresses [discover_a; request_a] demo demo_wf _ _)).
  - split; [apply NoDup_nil_2 | constructor].
  - apply Forall_cons. split; [text_bytes|]. apply Forall_singleton. text_bytes.
Defined.

Lemma answered_leases_survive_witness :
  exists s' f, (handle (fun _ => false) 7 1000 (i_frame discover_a) demo) = (s', Ok [f]) /\ length (rows s') = 1%nat /\
    rows (server_init (device s') demo_spec (smac demo) (disk s')) = rows s'.
Proof.
  assert (match handle (fun _ => false) 7 1000 (i_frame discover_a) demo with
          | (s', Ok [f]) => (length (rows s') =? 1)%nat && negb (bool_decide (slice 58 62 f = zeros 4)) | _ => false end = true) as H
    by (vm_compute; reflexivity).
  destruct (handle (fun _ => false) 7 1000 (i_frame discover_a) demo) as [s' [[|f [|? ?]]|]] eqn:Eh; try discriminate H.
  apply andb_true_iff in H as [H1 H2]. apply negb_true_iff, bool_decide_eq_false in H2.
  exists s', f. split; [reflexivity|]. split; [by apply Nat.eqb_eq|].
  apply (answered_leases_survive (fun _ => false) 7 1000 (i_frame discover_a) demo s' [f] f).
  - exact demo_wf.
  - text_bytes.
  - exact Eh.
  - apply list_elem_of_here.
  - exact H2.
Defined.

Definition decline_b : bytes := client_frame DECLINE mac_b (zeros 4) [(50, be_pack 4 first_ip)].

Lemma decline_evicts_witness :
  dget first_ip (rows leased) = Some row_a /\
  exists m, parse decline_b = Some m /\ rmac (declined_row 1010 m) = Some (lit "02:11:22:33:44:56") /\
    dget first_ip (rows (handle (fun _ => false) 7 1010 decline_b leased).1) = Some (declined_row 1010 m).
Proof.
  split; [rewrite (proj1 leased_facts); reflexivity|].
  assert (match parse decline_b with
          | Some m => (mtype m =? DECLINE) && bool_decide (giaddr m = zeros 4) && bool_decide (requested_ip m = Some first_ip)
                      && bool_decide (mac_text m = lit "02:11:22:33:44:56")
          | None => false end = true) as H by (vm_compute; reflexivity).
  destruct (parse decline_b) as [m|] eqn:Ep; [|discriminate H]. exists m. split; [reflexivity|].
  rewrite !andb_true_iff, !bool_decide_eq_true in H. destruct H as [[[H1 H2] H3] H4].
  split; [cbn; by rewrite H4|].
  refine (proj1 (decline_evicts (fun _ => false) 7 1010 decline_b m first_ip leased Ep _ H2 H3 _)).
  - by apply Z.eqb_eq.
  - vm_compute. reflexivity.
Defined.

(** A lease of an earlier configuration is offered and acknowledged although the
    address is outside the pools the device is now configured with. *)
Definition narrowed_spec : server_spec :=
  {| interface := interface demo_spec; address := address demo_spec; pools := [(3232253360, 3232253380)];
     reserved := []; lease := lease demo_spec; probe := false; options := options demo_spec |}.
Lemma stale_lease_offered :
  let s := server_init (lit "p5") narrowed_spec [2; 0; 0; 0; 0; 1] (disk leased) in
  in_pool s first_ip = false /\
  match (serve [discover_a; request_a] s).2 with
  | [Ok [offer]; Ok [granted]] => slice 58 62 offer = be_pack 4 first_ip /\ slice 58 62 granted = be_pack 4 first_ip
  | _ => False
  end.
Proof. vm_compute. auto. Qed.

(** A domain name of 253 letters that fold to ASCII is accepted, but its encoding does
    not fit the option: every answer that lists the options raises. *)
Definition long_s_label : pystr := replicate 63 383.
Definition long_s_domain : pystr := long_s_label ++ 46 :: long_s_label ++ 46 :: long_s_label ++ 46 :: replicate 61 383.
Lemma domain_overflows_option :
  DOMAIN long_s_domain = true /\
  let sp := {| interface := interface demo_spec; address := address demo_spec; pools := pools demo_spec;
               reserved := []; lease := lease demo_spec; probe := false;
               options := {| gateway := None; subnet_mask := None; dns := []; ntp := []; wins := []; domain := Some long_s_domain |} |} in
  (serve [discover_a] (server_init (lit "p5") sp [2; 0; 0; 0; 0; 1] None)).2 = [Err ByteRange].
Proof. vm_compute. auto. Qed.
