(* ===== verification/DhcpFilter.v ===== *)
(** * The kernel filter of the DHCP server (opt/ffn_dhcp_server.py, [bpf_program])

    The daemon attaches a classic BPF program to its raw socket.  The machine that
    runs it is the kernel's, so it is an interface here: [BpfVm] states the documented
    meaning of the seven instructions the program uses, and the theorems hold for every
    machine with that meaning ([run] is one).  The program accepts exactly the frames
    described by [wanted], and every frame [parse] accepts among them. *)

From S2P Require Import Prelude PyStr PyDict DhcpServer.

Definition ETH_P_IP : Z := 2048.
Definition ETH_P_ARP : Z := 2054.

(** Opcode, jump offsets when true and when false, operand. *)
Abbreviation insn := (Z * Z * Z * Z)%type (only parsing).

Definition instructions (probing : bool) : list insn :=
  [ (40, 0, 0, 12);
    (if probing then (21, 0, 2, ETH_P_ARP) else (21, 11, 2, ETH_P_ARP));
    (40, 0, 0, 20);
    (21, 8, 9, 2);
    (21, 0, 8, ETH_P_IP);
    (48, 0, 0, 23);
    (21, 0, 6, 17);
    (40, 0, 0, 20);
    (69, 4, 0, 8191);
    (177, 0, 0, 14);
    (72, 0, 0, 16);
    (21, 0, 1, 67);
    (6, 0, 0, 65535);
    (6, 0, 0, 0) ].

(** [struct.pack('HBBI', *row)] in the byte order of the machine. *)
Definition pack_insn (big : bool) (i : insn) : bytes :=
  let '(code, jt, jf, k) := i in
  let pack := if big then be_pack else le_pack in
  pack 2%nat code ++ [jt; jf] ++ pack 4%nat k.
Definition bpf_program (big : bool) (probing : bool) : bytes * Z :=
  (concat (map (pack_insn big) (instructions probing)), blen (instructions probing)).

Definition unpack_insn (big : bool) (b : bytes) : insn :=
  let unpack := if big then be_unpack else le_unpack in
  (unpack (slice 0 2 b), byte_at b 2, byte_at b 3, unpack (slice 4 8 b)).

(** ** The machine *)

Definition half_at (f : bytes) (o : Z) : Z := be_unpack (slice o (o + 2) f).
Definition jump (pc : nat) (taken : bool) (jt jf : Z) : nat := S pc + Z.to_nat (if taken then jt else jf).

(** [exec prog frame pc a x]: the value the program returns when it goes on at [pc]
    with accumulator [a] and index register [x]; a load outside the frame ends the
    program with 0. *)
Class BpfVm (exec : list insn -> bytes -> nat -> Z -> Z -> Z) : Prop := {
  bpf_ldh : forall p f pc a x jt jf k, p !! pc = Some (40, jt, jf, k) ->
    exec p f pc a x = if k + 2 <=? blen f then exec p f (S pc) (half_at f k) x else 0;
  bpf_ldb : forall p f pc a x jt jf k, p !! pc = Some (48, jt, jf, k) ->
    exec p f pc a x = if k + 1 <=? blen f then exec p f (S pc) (byte_at f k) x else 0;
  bpf_ldh_ind : forall p f pc a x jt jf k, p !! pc = Some (72, jt, jf, k) ->
    exec p f pc a x = if x + k + 2 <=? blen f then exec p f (S pc) (half_at f (x + k)) x else 0;
  bpf_ldx_msh : forall p f pc a x jt jf k, p !! pc = Some (177, jt, jf, k) ->
    exec p f pc a x = if k + 1 <=? blen f then exec p f (S pc) a (4 * Z.land (byte_at f k) 15) else 0;
  bpf_jeq : forall p f pc a x jt jf k, p !! pc = Some (21, jt, jf, k) ->
    exec p f pc a x = exec p f (jump pc (a =? k) jt jf) a x;
  bpf_jset : forall p f pc a x jt jf k, p !! pc = Some (69, jt, jf, k) ->
    exec p f pc a x = exec p f (jump pc (negb (Z.land a k =? 0)) jt jf) a x;
  bpf_ret : forall p f pc a x jt jf k, p !! pc = Some (6, jt, jf, k) -> exec p f pc a x = k }.

(** An interpreter; jumps only go forward, so the rest of the program bounds it. *)
Fixpoint run_fuel (fuel : nat) (p : list insn) (f : bytes) (pc : nat) (a x : Z) : Z :=
  match fuel, p !! pc with
  | S n, Some (code, jt, jf, k) =>
      if code =? 40 then if k + 2 <=? blen f then run_fuel n p f (S pc) (half_at f k) x else 0
      else if code =? 48 then if k + 1 <=? blen f then run_fuel n p f (S pc) (byte_at f k) x else 0
      else if code =? 72 then if x + k + 2 <=? blen f then run_fuel n p f (S pc) (half_at f (x + k)) x else 0
      else if code =? 177 then if k + 1 <=? blen f then run_fuel n p f (S pc) a (4 * Z.land (byte_at f k) 15) else 0
      else if code =? 21 then run_fuel n p f (jump pc (a =? k) jt jf) a x
      else if code =? 69 then run_fuel n p f (jump pc (negb (Z.land a k =? 0)) jt jf) a x
      else if code =? 6 then k
      else 0
  | _, _ => 0
  end.
Definition run (p : list insn) (f : bytes) (pc : nat) (a x : Z) : Z := run_fuel (length p - pc) p f pc a x.

Lemma run_fuel_enough p f : forall n n' pc a x,
  (length p - pc <= n)%nat -> (length p - pc <= n')%nat -> run_fuel n p f pc a x = run_fuel n' p f pc a x.
Proof.
  assert (forall n pc a x, p !! pc = None -> run_fuel n p f pc a x = 0) as H0
    by (intros [|n] pc a x E; [reflexivity | cbn [run_fuel]; rewrite E; reflexivity]).
  induction n as [|n IH]; intros n' pc a x H1 H2.
  { rewrite !H0; [done | |]; apply lookup_ge_None; lia. }
  destruct (p !! pc) as [[[[code jt] jf] k]|] eqn:E; [|by rewrite !H0].
  apply lookup_lt_Some in E as El. destruct n' as [|n']; [lia|]. cbn [run_fuel]. rewrite E.
  unfold jump. case_ifs; try done; apply IH; lia.
Qed.

Lemma run_unfold p f pc a x i : p !! pc = Some i ->
  run p f pc a x = run_fuel (S (length p - S pc)) p f pc a x.
Proof. intros H. apply lookup_lt_Some in H. unfold run. f_equal. lia. Qed.

#[export] Instance run_vm : BpfVm run.
Proof.
  split; intros p f pc a x jt jf k E; rewrite (run_unfold _ _ _ _ _ _ E); cbn [run_fuel]; rewrite E; cbn [Z.eqb Pos.eqb];
    apply lookup_lt_Some in E; unfold run, jump; try done; try (destruct (_ <=? blen f); [|done]); apply run_fuel_enough; lia.
Qed.

(** ** The frames the daemon wants *)

Definition wanted (probing : bool) (f : bytes) : bool :=
  (14 <=? blen f) &&
  (if half_at f 12 =? ETH_P_ARP then probing && (22 <=? blen f) && (half_at f 20 =? 2)
   else (half_at f 12 =? ETH_P_IP) && (24 <=? blen f) && (byte_at f 23 =? 17) && (Z.land (half_at f 20) 8191 =? 0)
        && (let x := 4 * Z.land (byte_at f 14) 15 in (x + 18 <=? blen f) && (half_at f (x + 16) =? 67))).

Section filter.
Context {exec : list insn -> bytes -> nat -> Z -> Z -> Z} `{!BpfVm exec}.

Lemma jump_ret probing f pc (b : bool) jt jf a x k1 k2 :
  (exists j1 j2, instructions probing !! jump pc true jt jf = Some (6, j1, j2, k1)) ->
  (exists j1 j2, instructions probing !! jump pc false jt jf = Some (6, j1, j2, k2)) ->
  exec (instructions probing) f (jump pc b jt jf) a x = if b then k1 else k2.
Proof. intros (? & ? & H1) (? & ? & H2). destruct b; by eapply bpf_ret. Qed.

Lemma filter_run probing f a x : exec (instructions probing) f 0 a x = if wanted probing f then 65535 else 0.
Proof.
  unfold wanted. set (p := instructions probing).
  rewrite (bpf_ldh p f 0 a x 0 0 12 eq_refl). change (12 + 2) with 14. destruct (14 <=? blen f); [|done]. cbn [andb].
  assert (p !! 1%nat = Some (21, (if probing then 0 else 11), 2, ETH_P_ARP)) as E1 by (by destruct probing).
  rewrite (bpf_jeq p f 1 _ _ _ _ _ E1). destruct (half_at f 12 =? ETH_P_ARP) eqn:Ea.
  - destruct probing; cbn [andb]; [|by erewrite bpf_ret].
    rewrite (bpf_ldh p f 2 _ _ 0 0 20 eq_refl). change (20 + 2) with 22. destruct (22 <=? blen f); [|done]. cbn [andb].
    rewrite (bpf_jeq p f 3 _ _ 8 9 2 eq_refl). apply jump_ret; eexists _, _; reflexivity.
  - replace (jump 1 false _ 2) with 4%nat by (by destruct probing).
    rewrite (bpf_jeq p f 4 _ _ 0 8 ETH_P_IP eq_refl).
    destruct (half_at f 12 =? ETH_P_IP); cbn [andb]; [|by erewrite bpf_ret].
    rewrite (bpf_ldb p f 5 _ _ 0 0 23 eq_refl). change (23 + 1) with 24. destruct (24 <=? blen f) eqn:El; [|done]. cbn [andb].
    rewrite (bpf_jeq p f 6 _ _ 0 6 17 eq_refl). destruct (byte_at f 23 =? 17); cbn [andb]; [|by erewrite bpf_ret].
    rewrite (bpf_ldh p f 7 _ _ 0 0 20 eq_refl). rewrite (proj2 (Z.leb_le (20 + 2) (blen f))) by bool_lia.
    rewrite (bpf_jset p f 8 _ _ 4 0 8191 eq_refl). destruct (Z.land (half_at f 20) 8191 =? 0); cbn [negb andb]; [|by erewrite bpf_ret].
    rewrite (bpf_ldx_msh p f 9 _ _ 0 0 14 eq_refl). rewrite (proj2 (Z.leb_le (14 + 1) (blen f))) by bool_lia.
    rewrite (bpf_ldh_ind p f 10 _ _ 0 0 16 eq_refl). set (xx := 4 * Z.land (byte_at f 14) 15).
    replace (xx + 16 + 2) with (xx + 18) by lia. destruct (xx + 18 <=? blen f); [|done]. cbn [andb].
    rewrite (bpf_jeq p f 11 _ _ 0 1 67 eq_refl). apply jump_ret; eexists _, _; reflexivity.
Qed.

(**  The program accepts (returns the whole frame) exactly the wanted frames and
    drops every other one: UDP to port 67 in an unfragmented IPv4 packet, and ARP
    replies while the server probes addresses, on every machine with the documented
    instruction meanings. *)
Theorem filter_exact probing f a x :
  exec (instructions probing) f 0 a x = if wanted probing f then 65535 else 0.
Proof. apply filter_run. Qed.

Lemma parse_wanted probing f m : parse f = Some m -> wanted probing f = true.
Proof.
  unfold parse. cbv zeta. intros H.
  repeat match type of H with (if ?b then _ else _) = _ => let E := fresh "E" in destruct b eqn:E; [discriminate H|] end.
  clear H. zb. apply bool_decide_eq_true in E0. unfold wanted, half_at. change (12 + 2) with 14. rewrite E0.
  change (be_unpack [8; 0]) with ETH_P_IP. cbn [Z.eqb ETH_P_IP ETH_P_ARP Pos.eqb].
  rewrite (proj2 (Z.leb_le 14 _)), (proj2 (Z.leb_le 24 _)), (proj2 (Z.leb_le (_ + 18) _)) by lia. cbn [andb].
  change (20 + 2) with 22. rewrite !andb_true_iff, !Z.eqb_eq. split_and!; [done | done |].
  match goal with E : be_unpack (slice _ _ f) = 67 |- _ => etrans; [|exact E] end. f_equal. f_equal; lia.
Qed.

(**  The kernel filter never hides a request: every frame the daemon's parser
    would accept is delivered, whether or not it is probing. *)
Theorem filter_passes_requests probing f m a x :
  parse f = Some m -> exec (instructions probing) f 0 a x = 65535.
Proof. intros H. rewrite filter_run. by rewrite (parse_wanted probing f m H). Qed.

End filter.

Lemma filter_passes_requests_witness :
  exists f m, parse f = Some m /\ run (instructions true) f 0 0 0 = 65535.
Proof.
  set (f := BROADCAST_MAC ++ [2; 0; 0; 0; 0; 9] ++ [8; 0; 69; 0] ++ be_pack 2 274 ++ [0; 0; 0; 0; 64; 17; 0; 0] ++ zeros 8
    ++ be_pack 2 68 ++ be_pack 2 67 ++ be_pack 2 254 ++ [0; 0; 1; 1; 6; 0] ++ zeros 24 ++ [2; 0; 0; 0; 0; 9] ++ zeros 202
    ++ MAGIC ++ [53; 1; 1; 255; 0; 0]).
  destruct (parse f) as [m|] eqn:E; [|vm_compute in E; discriminate E].
  exists f, m. split; [exact E | exact (filter_passes_requests true f m 0 0 E)].
Defined.

(** The packed program decodes to the instructions in either byte order. *)
Lemma program_decodes big probing :
  map (fun i => unpack_insn big (slice (8 * Z.of_nat i) (8 * Z.of_nat i + 8) (bpf_program big probing).1))
    (seq 0 (Z.to_nat (bpf_program big probing).2)) = instructions probing.
Proof. destruct big, probing; vm_compute; reflexivity. Qed.

Definition arp_reply : bytes :=
  BROADCAST_MAC ++ [2; 0; 0; 0; 0; 9] ++ [8; 6; 0; 1; 8; 0; 6; 4; 0; 2] ++ zeros 20.

Lemma filter_exact_witness :
  wanted true arp_reply = true /\ wanted false arp_reply = false /\
  run (instructions true) arp_reply 0 0 0 = (if wanted true arp_reply then 65535 else 0).
Proof. split; [reflexivity|]. split; [reflexivity|]. exact (filter_exact true arp_reply 0 0). Defined.
