(* ===== verification/AhoCorasick.v ===== *)
(** * Multi-pattern matching (opt/inline_payload_det.py, class AhoCorasick)

    The automaton the inline detector and the FPGA emulator share (the emulator
    carries an identical copy for when the import fails): a trie of byte patterns
    as a list of dictionaries, failure links computed breadth first with a work
    queue, and output lists merged along them.  A dictionary is an association
    list in insertion order; a node is an index into the three parallel lists.

    Main result: scanning yields, for every position, exactly the tags of the
    patterns that end there, longest pattern first and in the order they were
    added, as a brute-force comparison with every suffix would. *)

From S2P Require Import Prelude.

Section AhoCorasick.
Context {A : Type}.

Inductive ac_exn : Type := RuntimeError | ValueError.

Record ac : Type := {
  _goto : list (list (Z * nat)); _fail : list nat; _out : list (list A); _built : bool; _npat : nat }.

Definition ac_init : ac := {| _goto := [[]]; _fail := [0%nat]; _out := [[]]; _built := false; _npat := 0 |}.

(** [d.get(b)]. *)
Definition dget (b : Z) (d : list (Z * nat)) : option nat := snd <$> find (fun p => p.1 =? b) d.

(** [self._goto[node].get(b)]. *)
Definition child (g : list (list (Z * nat))) (node : nat) (b : Z) : option nat := dget b (nth node g []).

(** The loop of [add] over the bytes of the pattern. *)
Fixpoint add_loop (g : list (list (Z * nat))) (f : list nat) (o : list (list A)) (node : nat) (pattern : bytes)
  : list (list (Z * nat)) * list nat * list (list A) * nat :=
  match pattern with
  | [] => (g, f, o, node)
  | b :: rest =>
      match child g node b with
      | Some nxt => add_loop g f o nxt rest
      | None =>
          let nxt := length g in
          let g := g ++ [[]] in
          add_loop (<[node := nth node g [] ++ [(b, nxt)]]> g) (f ++ [0%nat]) (o ++ [[]]) nxt rest
      end
  end.

Definition add (a : ac) (pattern : bytes) (tag : A) : result ac_exn ac :=
  if _built a then Err RuntimeError else
  match pattern with
  | [] => Err ValueError
  | _ =>
      let '(g, f, o, node) := add_loop (_goto a) (_fail a) (_out a) 0 pattern in
      Ok {| _goto := g; _fail := f; _out := <[node := nth node o [] ++ [tag]]> o;
            _built := false; _npat := S (_npat a) |}
  end.

(** [while f and b not in self._goto[f]: f = self._fail[f]]. *)
Fixpoint fail_walk (fuel : nat) (g : list (list (Z * nat))) (fl : list nat) (b : Z) (f : nat) : nat :=
  match fuel with
  | O => f
  | S k =>
      if (f =? 0)%nat || (match child g f b with Some _ => true | None => false end) then f
      else fail_walk k g fl b (nth f fl 0%nat)
  end.

(** The move both [build] and [iter_matches] make: follow failure links, then the
    edge if there is one. *)
Definition advance (g : list (list (Z * nat))) (fl : list nat) (node : nat) (b : Z) : nat :=
  default 0%nat (child g (fail_walk (length g) g fl b node) b).

(** The body of the inner loop of [build]. *)
Definition build_child (g : list (list (Z * nat))) (cur : nat) (st : list nat * list (list A) * list nat)
  (e : Z * nat) : list nat * list (list A) * list nat :=
  let '(fl, o, q) := st in
  let '(b, nxt) := e in
  let q := q ++ [nxt] in
  let f := fail_walk (length g) g fl b (nth cur fl 0%nat) in
  let fn := if negb (f =? 0)%nat || (match child g 0 b with Some _ => true | None => false end)
            then default 0%nat (child g f b) else 0%nat in
  let fl := <[nxt := fn]> fl in
  (fl, <[nxt := nth nxt o [] ++ nth fn o []]> o, q).

(** [while q: cur = q.popleft(); ...]. *)
Fixpoint build_loop (fuel : nat) (g : list (list (Z * nat))) (fl : list nat) (o : list (list A)) (q : list nat)
  : list nat * list (list A) :=
  match fuel, q with
  | S k, cur :: q =>
      let '(fl, o, q) := fold_left (build_child g cur) (nth cur g []) (fl, o, q) in
      build_loop k g fl o q
  | _, _ => (fl, o)
  end.

Definition build (a : ac) : ac :=
  let g := _goto a in
  let '(fl, q) := fold_left (fun '(fl, q) '(_, nxt) => (<[nxt := 0%nat]> fl, q ++ [nxt]))
                            (nth 0%nat g []) (_fail a, []) in
  let '(fl, o) := build_loop (length g) g fl (_out a) q in
  {| _goto := g; _fail := fl; _out := o; _built := true; _npat := _npat a |}.

Fixpoint iter_loop (g : list (list (Z * nat))) (fl : list nat) (o : list (list A)) (node : nat) (i : Z)
  (data : bytes) : list (Z * A) :=
  match data with
  | [] => []
  | b :: rest =>
      let node := advance g fl node b in
      map (fun tag => (i, tag)) (nth node o []) ++ iter_loop g fl o node (i + 1) rest
  end.

(** [list(ac.iter_matches(data))] and the automaton afterwards. *)
Definition iter_matches (a : ac) (data : bytes) : list (Z * A) * ac :=
  let a := if _built a then a else build a in
  (iter_loop (_goto a) (_fail a) (_out a) 0 0 data, a).

(** ** The reference: compare every suffix with every pattern *)

(** The tags of the patterns equal to [s], in the order of [pats]. *)
Definition own (pats : list (bytes * A)) (s : bytes) : list A :=
  snd <$> filter (fun p => p.1 = s) pats.

(** Over the suffixes of [t], longest first. *)
Fixpoint ending (pats : list (bytes * A)) (t : bytes) : list A :=
  own pats t ++ match t with [] => [] | _ :: t' => ending pats t' end.

Fixpoint matches_from (pats : list (bytes * A)) (seen : bytes) (i : Z) (data : bytes) : list (Z * A) :=
  match data with
  | [] => []
  | b :: rest =>
      map (fun tag => (i, tag)) (ending pats (seen ++ [b])) ++ matches_from pats (seen ++ [b]) (i + 1) rest
  end.

(** All matches of [pats] in [data], by brute force. *)
Definition all_matches (pats : list (bytes * A)) (data : bytes) : list (Z * A) := matches_from pats [] 0 data.

(** Adding a list of patterns. *)
Definition add_all (a : ac) (pats : list (bytes * A)) : result ac_exn ac :=
  foldM_res (fun a '(p, t) => add a p t) a pats.

(** ** The trie *)

(** [words] names the word each node stands for. *)
Record trie (g : list (list (Z * nat))) (words : list bytes) : Prop := {
  t_len : length words = length g;
  t_root : words !! 0%nat = Some [];
  t_nodup : NoDup words;
  t_child : forall n w b m, words !! n = Some w -> child g n b = Some m <-> words !! m = Some (w ++ [b]);
  t_prefix : forall m w b, words !! m = Some (w ++ [b]) -> exists n, words !! n = Some w;
  t_depth : forall n w, words !! n = Some w -> (length w <= n)%nat;
  t_keys : forall n, NoDup (nth n g []).*1 }.

Lemma dget_in b d m : NoDup d.*1 -> dget b d = Some m <-> (b, m) ∈ d.
Proof.
  intros Hn. unfold dget. split.
  - destruct (find _ d) as [[b' m']|] eqn:E; [|done]. apply find_some in E as [Hin He].
    intros [= ->]. cbn in He. apply Z.eqb_eq in He as ->. by apply list_elem_of_In.
  - induction d as [|[b' m'] d IH]; [by intros ?%not_elem_of_nil|].
    cbn in Hn. apply NoDup_cons in Hn as [Hni Hn]. cbn [find fst].
    intros [[= -> ->]|Hin]%elem_of_cons; [by rewrite Z.eqb_refl|].
    destruct (Z.eqb_spec b' b) as [->|_]; [|by apply IH].
    exfalso. apply Hni. apply (list_elem_of_fmap_2 fst) in Hin. done.
Qed.

Lemma word_inj (words : list bytes) n m w : NoDup words -> words !! n = Some w -> words !! m = Some w -> n = m.
Proof. intros Hn H1 H2. by eapply NoDup_lookup. Qed.

Lemma nth_snoc_nil (g : list (list (Z * nat))) n : nth n (g ++ [[]]) [] = nth n g [].
Proof.
  destruct (decide (n < length g)%nat); [by apply app_nth1|].
  rewrite app_nth2 by lia. rewrite (nth_overflow g) by lia. by destruct (n - length g)%nat as [|[|]].
Qed.

Lemma nth_insert {B} (l : list B) i j x d :
  (i < length l)%nat -> nth j (<[i := x]> l) d = if decide (i = j) then x else nth j l d.
Proof.
  intros Hi. rewrite !nth_lookup. destruct (decide (i = j)) as [->|Hne].
  - by rewrite list_lookup_insert_eq.
  - by rewrite list_lookup_insert_ne.
Qed.

Lemma find_app {B} (f : B -> bool) l1 l2 :
  find f (l1 ++ l2) = match find f l1 with Some x => Some x | None => find f l2 end.
Proof. induction l1 as [|x t IH]; cbn; [done|]. by destruct (f x). Qed.

(** One step of [add_loop] that creates a node. *)
Lemma trie_extend g words node w b :
  trie g words -> words !! node = Some w -> child g node b = None ->
  trie (<[node := nth node (g ++ [[]]) [] ++ [(b, length g)]]> (g ++ [[]])) (words ++ [w ++ [b]]).
Proof.
  intros Ht Hw Hc. pose proof Ht as [Tl Tr Tn Tc Tp Td Tk].
  assert (node < length g)%nat as Hlt by (rewrite <- Tl; by eapply lookup_lt_Some).
  assert (w ++ [b] ∉ words) as Hfresh.
  { intros [m Hm]%list_elem_of_lookup. apply (Tc node w b m Hw) in Hm. congruence. }
  set (g' := <[node := _]> _).
  assert (forall n, nth n g' [] = if decide (node = n) then nth n g [] ++ [(b, length g)] else nth n g []) as Hnth.
  { intros n. unfold g'. rewrite nth_insert by (rewrite length_app; cbn; lia). rewrite !nth_snoc_nil.
    destruct (decide (node = n)) as [->|]; done. }
  assert (forall n w', (words ++ [w ++ [b]]) !! n = Some w' ->
            words !! n = Some w' \/ (n = length g /\ w' = w ++ [b])) as Hlk.
  { intros n w' H. apply lookup_app_Some in H as [H|[Hge H]]; [by left|right].
    apply list_lookup_singleton_Some in H as [H <-]. split; [lia | done]. }
  assert (forall b', child g' node b' = if decide (b' = b) then Some (length g) else child g node b') as Hnode.
  { intros b'. unfold child in *. rewrite Hnth, decide_True by done. unfold dget in *.
    rewrite find_app. destruct (find (fun p => p.1 =? b') (nth node g [])) as [p|] eqn:E; cbn.
    - destruct (decide (b' = b)) as [->|]; [by rewrite E in Hc | done].
    - destruct (Z.eqb_spec b b'), (decide (b' = b)); subst; done. }
  constructor.
  - unfold g'. rewrite length_insert, !length_app. cbn. lia.
  - by rewrite lookup_app_l by (eapply lookup_lt_Some, Tr).
  - apply NoDup_app. split_and!; [done | | apply NoDup_singleton].
    intros x Hx ->%list_elem_of_singleton. done.
  - intros n w' b' m H. apply Hlk in H as [H|[-> ->]].
    + destruct (decide (n = node)) as [->|Hne].
      * assert (w' = w) as -> by congruence. rewrite Hnode. destruct (decide (b' = b)) as [->|Hb].
        -- split; [intros [= <-]; rewrite lookup_app_r, Tl, Nat.sub_diag by lia; done|].
           intros [Hm|[-> _]]%Hlk; [|done]. exfalso. apply Hfresh. by eapply list_elem_of_lookup_2.
        -- rewrite (Tc _ _ _ _ H). split; intros Hm.
           ++ by rewrite lookup_app_l by (eapply lookup_lt_Some, Hm).
           ++ apply Hlk in Hm as [Hm|[_ He]]; [done|]. apply app_inj_tail in He as [_ ->]. done.
      * unfold child at 1. rewrite Hnth, decide_False by done. fold (child g n b'). rewrite (Tc _ _ _ _ H).
        split; intros Hm; [by rewrite lookup_app_l by (eapply lookup_lt_Some, Hm)|].
        apply Hlk in Hm as [Hm|[_ He]]; [done|]. apply app_inj_tail in He as [-> _].
        exfalso. apply Hne. by eapply word_inj.
    + unfold child. rewrite Hnth, decide_False by lia. rewrite nth_overflow by lia. split; [done|].
      intros [Hm|[_ He]]%Hlk.
      * apply Tp in Hm as [n Hn]. exfalso. apply Hfresh. by eapply list_elem_of_lookup_2.
      * exfalso. apply (f_equal length) in He. rewrite !length_app in He. cbn in He. lia.
  - intros m w' b' [Hm|[-> He]]%Hlk.
    + apply Tp in Hm as [n Hn]. exists n. by rewrite lookup_app_l by (eapply lookup_lt_Some, Hn).
    + apply app_inj_tail in He as [-> ->]. exists node. by rewrite lookup_app_l by (eapply lookup_lt_Some, Hw).
  - intros n w' [H|[-> ->]]%Hlk; [by apply Td|]. rewrite length_app. cbn. apply Td in Hw. lia.
  - intros n. rewrite Hnth. destruct (decide (node = n)) as [<-|]; [|done]. rewrite fmap_app. cbn.
    apply NoDup_app. split_and!; [done | | apply NoDup_singleton]. intros x Hx ->%list_elem_of_singleton.
    apply list_elem_of_fmap in Hx as ([b' m] & -> & Hin). cbn in *.
    apply dget_in in Hin; [|done]. unfold child in Hc. congruence.
Qed.

Lemma add_loop_spec g f o node w pattern words :
  trie g words -> words !! node = Some w -> 
  let '(g', f', o', node') := add_loop g f o node pattern in
  exists fresh, trie g' (words ++ fresh) /\ (words ++ fresh) !! node' = Some (w ++ pattern) /\
    f' = f ++ replicate (length fresh) 0%nat /\ o' = o ++ replicate (length fresh) [].
Proof.
  revert g f o node w words. induction pattern as [|b rest IH]; intros g f o node w words Ht Hw; cbn [add_loop].
  { exists []. cbn. by rewrite !app_nil_r. }
  destruct (child g node b) as [nxt|] eqn:Ec.
  - apply (t_child _ _ Ht _ _ _ _ Hw) in Ec. specialize (IH g f o nxt _ _ Ht Ec). by rewrite <- app_assoc in IH.
  - pose proof (trie_extend _ _ _ _ _ Ht Hw Ec) as Ht'.
    assert ((words ++ [w ++ [b]]) !! length g = Some (w ++ [b])) as Hn.
    { rewrite lookup_app_r, (t_len _ _ Ht), Nat.sub_diag by (rewrite (t_len _ _ Ht); lia). done. }
    specialize (IH _ (f ++ [0%nat]) (o ++ [[]]) _ _ _ Ht' Hn).
    destruct (add_loop _ _ _ _ rest) as [[[g' f'] o'] n']. destruct IH as (fresh & H1 & H2 & -> & ->).
    exists ((w ++ [b]) :: fresh). cbn [length replicate]. rewrite <- !app_assoc in *. done.
Qed.

(** The automaton after adding [pats], before [build]. *)
Record loaded (a : ac) (pats : list (bytes * A)) (words : list bytes) : Prop := {
  l_trie : trie (_goto a) words;
  l_built : _built a = false;
  l_fail : _fail a = replicate (length words) 0%nat;
  l_outlen : length (_out a) = length words;
  l_out : forall n w, words !! n = Some w -> nth n (_out a) [] = own pats w;
  l_pats : forall p t, (p, t) ∈ pats -> p ∈ words /\ p <> [] }.

Lemma own_snoc pats p t s : own (pats ++ [(p, t)]) s = own pats s ++ (if decide (p = s) then [t] else []).
Proof.
  unfold own. rewrite filter_app, fmap_app. f_equal. rewrite filter_cons, filter_nil. cbn. by destruct (decide (p = s)).
Qed.

Lemma own_nil pats s : (forall t, (s, t) ∉ pats) -> own pats s = [].
Proof.
  intros H. unfold own. destruct (filter _ pats) as [|[p t] l] eqn:E; [done|exfalso].
  assert ((p, t) ∈ filter (fun p => p.1 = s) pats) as Hin by (rewrite E; left).
  apply list_elem_of_filter in Hin as [He Hin]. cbn in He. subst. by eapply H.
Qed.

Lemma nth_replicate_nil {B} k j : nth j (replicate k ([] : list B)) [] = [].
Proof. revert j; induction k as [|k IH]; intros [|j]; cbn; [done..|]. apply IH. Qed.

Lemma loaded_init : loaded ac_init [] [[]].
Proof.
  constructor; try done; cbn.
  - constructor; try done; cbn.
    + apply NoDup_singleton.
    + intros [|n] w b m; [|done]. intros [= <-]. cbn. split; [done|]. by destruct m as [|[|]].
    + intros [|[|]] w b H; try done. by destruct w.
    + intros [|[|]] w H; try done. injection H as <-. cbn. lia.
    + intros [|[|]]; constructor.
  - intros [|[|]] w H; by simplify_eq.
  - intros p t H. by apply not_elem_of_nil in H.
Qed.

Lemma add_loaded a pats words p t a' :
  loaded a pats words -> add a p t = Ok a' -> exists words', loaded a' (pats ++ [(p, t)]) words'.
Proof.
  intros [L1 L2 L3 L4 L5 L6] H. unfold add in H. rewrite L2 in H.
  destruct p as [|b rest]; [done|]. set (p := b :: rest) in *.
  pose proof (add_loop_spec (_goto a) (_fail a) (_out a) 0 [] p words L1 (t_root _ _ L1)) as Hl.
  destruct (add_loop _ _ _ _ p) as [[[g f] o] node]. destruct Hl as (fresh & T & Hn & -> & ->).
  injection H as <-. cbn [app] in Hn. exists (words ++ fresh).
  assert (node < length (_out a ++ replicate (length fresh) ([] : list A)))%nat as Hlt.
  { rewrite length_app, length_replicate, L4, <- length_app. by eapply lookup_lt_Some. }
  constructor; cbn; [done | done | | | |].
  - by rewrite L3, length_app, replicate_add.
  - by rewrite length_insert, !length_app, length_replicate, L4.
  - intros n w Hw. rewrite own_snoc, nth_insert by done.
    assert (nth n (_out a ++ replicate (length fresh) []) [] = own pats w) as Hold.
    { apply lookup_app_Some in Hw as [Hw|[Hge Hw]].
      - rewrite app_nth1 by (rewrite L4; by eapply lookup_lt_Some). by apply L5.
      - rewrite app_nth2, nth_replicate_nil by lia.
        symmetry. apply own_nil. intros t' Ht'. apply L6 in Ht' as [Hin _].
        apply list_elem_of_lookup in Hin as [m Hm].
        assert (n = m) as ->; [|apply lookup_lt_Some in Hm; lia].
        eapply word_inj; [apply (t_nodup _ _ T) | | rewrite lookup_app_l by (by eapply lookup_lt_Some); exact Hm].
        rewrite lookup_app_r by lia. exact Hw. }
    destruct (decide (node = n)) as [->|Hne].
    + rewrite Hold. assert (w = p) as -> by congruence. by rewrite decide_True.
    + rewrite Hold. rewrite decide_False, app_nil_r; [done|]. intros ->. apply Hne.
      eapply word_inj; [apply (t_nodup _ _ T) | done | done].
  - intros p' t' [Hin|Hin]%elem_of_app.
    + apply L6 in Hin as [? ?]. split; [apply elem_of_app; by left | done].
    + apply list_elem_of_singleton in Hin as [= -> ->]. split; [by eapply list_elem_of_lookup_2 | done].
Qed.

Lemma add_all_loaded a pats0 words pats a' :
  loaded a pats0 words -> add_all a pats = Ok a' -> exists words', loaded a' (pats0 ++ pats) words'.
Proof.
  revert a pats0 words; induction pats as [|[p t] pats IH]; intros a pats0 words L H.
  - cbn in H. simplify_eq. rewrite app_nil_r. eauto.
  - unfold add_all in H. cbn [foldM_res] in H. apply bind_ok_inv in H as (a1 & H1 & H).
    destruct (add_loaded _ _ _ _ _ _ L H1) as [w1 L1].
    destruct (IH _ _ _ L1 H) as [w2 L2]. exists w2. by rewrite <- app_assoc in L2.
Qed.

(** ** Failure links and outputs *)

Section Build.
Context (g : list (list (Z * nat))) (words : list bytes) (pats : list (bytes * A)).
Context (T : trie g words) (Hpats : forall p t, (p, t) ∈ pats -> p ∈ words /\ p <> []).

(** The longest suffix of [t] in the trie. *)
Fixpoint lsuf (t : bytes) : bytes :=
  if decide (t ∈ words) then t else match t with [] => [] | _ :: t' => lsuf t' end.

Lemma root_in : [] ∈ words.
Proof. eapply list_elem_of_lookup_2, (t_root _ _ T). Qed.

Lemma prefix_in w b : w ++ [b] ∈ words -> w ∈ words.
Proof.
  intros [m Hm]%list_elem_of_lookup. apply (t_prefix _ _ T) in Hm as [n Hn]. by eapply list_elem_of_lookup_2.
Qed.

Lemma lsuf_in t : lsuf t ∈ words.
Proof. induction t as [|x t IH]; cbn; destruct (decide _); try done. apply root_in. Qed.

Lemma lsuf_id t : t ∈ words -> lsuf t = t.
Proof. intros H. destruct t; cbn; by rewrite decide_True. Qed.

Lemma lsuf_length t : (length (lsuf t) <= length t)%nat.
Proof. induction t as [|x t IH]; cbn; destruct (decide _); cbn; lia. Qed.

Lemma lsuf_snoc t b : lsuf (t ++ [b]) = lsuf (lsuf t ++ [b]).
Proof.
  induction t as [|x t IH]; [by rewrite (lsuf_id []) by apply root_in|].
  destruct (decide (x :: t ∈ words)) as [Hin|Hni]; [by rewrite (lsuf_id (x :: t))|].
  cbn [app lsuf]. rewrite decide_False by (intros H; apply Hni; by apply (prefix_in (x :: t) b)).
  rewrite IH. by rewrite (decide_False (P := x :: t ∈ words)).
Qed.

Lemma own_out_of_trie s : s ∉ words -> own pats s = [].
Proof. intros H. apply own_nil. intros t Ht. apply Hpats in Ht as [? _]. done. Qed.

Lemma own_empty : own pats [] = [].
Proof. apply own_nil. intros t Ht. apply Hpats in Ht as [_ ?]. done. Qed.

Lemma ending_lsuf t : ending pats t = ending pats (lsuf t).
Proof.
  induction t as [|x t IH]; cbn [lsuf]; destruct (decide _) as [|Hni]; try done.
  cbn [ending]. by rewrite own_out_of_trie.
Qed.

Lemma ending_cons w : w <> [] -> ending pats w = own pats w ++ ending pats (tail w).
Proof. by destruct w. Qed.

(** The failure link of [n] leads to its longest proper suffix in the trie. *)
Definition link_ok (fl : list nat) (n : nat) : Prop :=
  forall w, words !! n = Some w -> words !! nth n fl 0%nat = Some (lsuf (tail w)).

Lemma child_spec n w b : words !! n = Some w ->
  words !! default 0%nat (child g n b) = Some (if decide (w ++ [b] ∈ words) then w ++ [b] else []).
Proof.
  intros Hw. destruct (child g n b) as [m|] eqn:E; cbn.
  - apply (t_child _ _ T _ _ _ _ Hw) in E. rewrite decide_True; [done|]. by eapply list_elem_of_lookup_2.
  - rewrite decide_False; [apply T|]. intros [m Hm]%list_elem_of_lookup.
    apply (t_child _ _ T _ _ _ _ Hw) in Hm. congruence.
Qed.

Lemma fail_walk_spec fuel fl b n u :
  words !! n = Some u -> (length u < fuel)%nat ->
  (forall m w, words !! m = Some w -> (length w <= length u)%nat -> link_ok fl m) ->
  words !! default 0%nat (child g (fail_walk fuel g fl b n) b) = Some (lsuf (u ++ [b])).
Proof.
  revert n u; induction fuel as [|k IH]; intros n u Hn Hf Hl; [lia|]. cbn [fail_walk].
  destruct (decide (u ++ [b] ∈ words)) as [Hin|Hni].
  { assert (child g n b <> None) as Hc.
    { apply list_elem_of_lookup in Hin as [m Hm]. apply (t_child _ _ T _ _ _ _ Hn) in Hm. congruence. }
    destruct (child g n b) eqn:E; [|done]. rewrite orb_true_r, (child_spec n u b), decide_True, lsuf_id by done. done. }
  destruct (child g n b) as [m|] eqn:E.
  { exfalso. apply Hni. apply (t_child _ _ T _ _ _ _ Hn) in E. by eapply list_elem_of_lookup_2. }
  destruct (Nat.eqb_spec n 0) as [->|Hn0]; cbn [orb].
  - assert (u = []) as -> by (rewrite (t_root _ _ T) in Hn; congruence).
    rewrite (child_spec 0 [] b), decide_False by done. cbn [app lsuf]. rewrite decide_False by done.
    by rewrite decide_True by apply root_in.
  - destruct u as [|x u].
    { exfalso. apply Hn0. eapply word_inj; [apply T | exact Hn | apply T]. }
    pose proof (Hl n (x :: u) Hn ltac:(lia) _ Hn) as Hlk. cbn [tail] in Hlk.
    pose proof (lsuf_length u). rewrite (IH _ _ Hlk).
    + rewrite <- lsuf_snoc. cbn [app lsuf]. by rewrite decide_False.
    + cbn in Hf. lia.
    + intros m w Hm Hw. apply (Hl m w Hm). cbn. lia.
Qed.

Lemma node_bound n w : words !! n = Some w -> (n < length g)%nat /\ (length w < length g)%nat.
Proof.
  intros H. pose proof (lookup_lt_Some _ _ _ H). rewrite (t_len _ _ T) in *.
  pose proof (t_depth _ _ T _ _ H). lia.
Qed.

Lemma advance_spec fl b n u :
  words !! n = Some u -> (forall m w, words !! m = Some w -> (length w <= length u)%nat -> link_ok fl m) ->
  words !! advance g fl n b = Some (lsuf (u ++ [b])).
Proof. intros Hn Hl. apply fail_walk_spec; [done | by eapply node_bound | done]. Qed.

(** [D]: the nodes whose link and output are final. *)
Record core (D : list nat) (fl : list nat) (o : list (list A)) : Prop := {
  c_fl : length fl = length words;
  c_o : length o = length words;
  c_link : forall n, n ∈ D \/ n = 0%nat -> link_ok fl n;
  c_out : forall n w, n ∈ D \/ n = 0%nat -> words !! n = Some w -> nth n o [] = ending pats w;
  c_raw : forall n w, n ∉ D -> n <> 0%nat -> words !! n = Some w -> nth n o [] = own pats w }.

Lemma build_child_spec D fl o q cur wc b nxt :
  core D fl o -> words !! cur = Some wc -> wc <> [] -> cur ∈ D ->
  words !! nxt = Some (wc ++ [b]) -> nxt ∉ D ->
  (forall m w, words !! m = Some w -> (length w <= length wc)%nat -> m ∈ D \/ m = 0%nat) ->
  exists fl' o', build_child g cur (fl, o, q) (b, nxt) = (fl', o', q ++ [nxt]) /\ core (D ++ [nxt]) fl' o'.
Proof.
  intros C Hcur Hwc HcD Hnxt HnD Hdone. unfold build_child.
  set (f := fail_walk _ _ _ _ _).
  assert ((if negb (f =? 0)%nat || (match child g 0 b with Some _ => true | None => false end)
           then default 0%nat (child g f b) else 0%nat) = default 0%nat (child g f b)) as ->.
  { destruct (Nat.eqb_spec f 0) as [->|]; cbn [negb orb]; [|done]. by destruct (child g 0 b). }
  set (fn := default 0%nat (child g f b)).
  pose proof (c_link _ _ _ C cur (or_introl HcD) _ Hcur) as Hlk.
  pose proof (lsuf_length (tail wc)) as Hls.
  assert (length (tail wc) < length wc)%nat as Htl by (destruct wc; cbn; [done | lia]).
  assert (words !! fn = Some (lsuf (tail (wc ++ [b])))) as Hfn.
  { replace (tail (wc ++ [b])) with (tail wc ++ [b]) by (by destruct wc). rewrite lsuf_snoc.
    apply (advance_spec fl b _ _ Hlk). intros m w Hm Hw. apply (c_link _ _ _ C), (Hdone _ _ Hm). lia. }
  assert (nxt <> 0%nat) as Hn0.
  { intros ->. rewrite (t_root _ _ T) in Hnxt. by destruct wc. }
  assert (fn ∈ D \/ fn = 0%nat) as HfD.
  { apply (Hdone _ _ Hfn). pose proof (lsuf_length (tail (wc ++ [b]))) as H1.
    replace (tail (wc ++ [b])) with (tail wc ++ [b]) in * by (by destruct wc).
    rewrite length_app in H1. cbn in H1. lia. }
  assert (nxt < length words)%nat as Hnl by (by eapply lookup_lt_Some).
  do 2 eexists. split; [reflexivity|]. destruct C as [C1 C2 C3 C4 C5]. constructor.
  - by rewrite length_insert.
  - by rewrite length_insert.
  - intros n Hn w Hw. rewrite nth_insert by lia. destruct (decide (nxt = n)) as [<-|Hne].
    + assert (w = wc ++ [b]) as -> by congruence. exact Hfn.
    + apply C3; [|done]. rewrite elem_of_app, list_elem_of_singleton in Hn.
      destruct Hn as [[?|Hn]|?]; [by left | by rewrite Hn in Hne | by right].
  - intros n w Hn Hw. rewrite nth_insert by lia. destruct (decide (nxt = n)) as [<-|Hne].
    + assert (w = wc ++ [b]) as -> by congruence.
      rewrite (C5 nxt _ HnD Hn0 Hnxt), (C4 fn _ HfD Hfn), <- ending_lsuf, <- ending_cons; [done|]. by destruct wc.
    + apply C4; [|done]. rewrite elem_of_app, list_elem_of_singleton in Hn.
      destruct Hn as [[?|Hn]|?]; [by left | by rewrite Hn in Hne | by right].
  - intros n w Hn Hn0' Hw. rewrite elem_of_app, list_elem_of_singleton in Hn.
    rewrite nth_insert, decide_False; [apply C5; tauto | intros ->; tauto | lia].
Qed.

Lemma build_children_spec cur wc cs : forall D fl o q,
  core D fl o -> words !! cur = Some wc -> wc <> [] -> cur ∈ D ->
  NoDup cs.*1 -> (forall b m, (b, m) ∈ cs -> words !! m = Some (wc ++ [b]) /\ m ∉ D) ->
  (forall m w, words !! m = Some w -> (length w <= length wc)%nat -> m ∈ D \/ m = 0%nat) ->
  exists fl' o', fold_left (build_child g cur) cs (fl, o, q) = (fl', o', q ++ cs.*2) /\ core (D ++ cs.*2) fl' o'.
Proof.
  induction cs as [|[b m] cs IH]; intros D fl o q C Hcur Hwc HcD Hnd Hcs Hdone.
  { cbn. rewrite !app_nil_r. eauto. }
  cbn in Hnd. apply NoDup_cons in Hnd as [Hb Hnd]. destruct (Hcs b m) as [Hm HmD]; [left|].
  destruct (build_child_spec D fl o q cur wc b m C Hcur Hwc HcD Hm HmD Hdone) as (fl1 & o1 & He & C1).
  destruct (IH (D ++ [m]) fl1 o1 (q ++ [m]) C1) as (fl2 & o2 & He2 & C2); try done.
  - apply elem_of_app. by left.
  - intros b' m' Hin. destruct (Hcs b' m') as [Hm' HmD']; [by right|]. split; [done|].
    rewrite elem_of_app, list_elem_of_singleton. intros [?| ->]; [done|].
    rewrite Hm in Hm'. injection Hm' as Hm'. apply app_inj_tail in Hm' as [_ ->].
    apply Hb. by apply (list_elem_of_fmap_2 fst _ (b', m)).
  - intros m' w' Hm' Hw'. destruct (Hdone _ _ Hm' Hw'); [left; apply elem_of_app; by left | by right].
  - exists fl2, o2. cbn [fold_left fmap list_fmap snd]. rewrite He, He2, <- !app_assoc in *. done.
Qed.

(** ** The work queue *)

Definition depth (n d : nat) : Prop := exists w, words !! n = Some w /\ length w = d.

(** [P] the popped nodes, [q] the queue: a breadth-first frontier of two levels. *)
Record frontier (P q : list nat) : Prop := {
  f_nodup : NoDup (P ++ q);
  f_nodes : forall n, n ∈ P ++ q -> n <> 0%nat /\ is_Some (words !! n);
  f_closed : forall n b m, n ∈ P \/ n = 0%nat -> child g n b = Some m -> m ∈ P ++ q;
  f_parent : forall n w m b, m ∈ P ++ q -> words !! m = Some (w ++ [b]) -> words !! n = Some w ->
               n ∈ P \/ n = 0%nat;
  f_levels : exists d q1 q2, q = q1 ++ q2 /\ Forall (fun n => depth n d) q1 /\ Forall (fun n => depth n (S d)) q2 }.

Lemma undone_ancestor P q m w :
  frontier P q -> words !! m = Some w -> m ∉ P ++ q -> m <> 0%nat ->
  exists y d, y ∈ q /\ depth y d /\ (d < length w)%nat.
Proof.
  intros F. revert m; induction w as [|b w IH] using rev_ind; intros m Hm HmD Hm0.
  { exfalso. apply Hm0. eapply word_inj; [apply T | exact Hm | apply T]. }
  destruct (t_prefix _ _ T _ _ _ Hm) as [n Hn].
  pose proof (proj2 (t_child _ _ T _ _ b m Hn) Hm) as Hc.
  destruct (decide (n = 0%nat)) as [->|Hn0].
  { exfalso. apply HmD. apply (f_closed _ _ F 0%nat b); auto. }
  destruct (decide (n ∈ P)) as [HnP|HnP].
  { exfalso. apply HmD. apply (f_closed _ _ F n b); auto. }
  rewrite length_app. cbn. destruct (decide (n ∈ q)) as [Hnq|Hnq].
  - exists n, (length w). split_and!; [done | by exists w | lia].
  - destruct (IH n Hn) as (y & d & H1 & H2 & H3); [rewrite elem_of_app; tauto | done |].
    exists y, d. split_and!; [done | done | lia].
Qed.

Lemma levels_head cur q :
  (exists d q1 q2, cur :: q = q1 ++ q2 /\ Forall (fun n => depth n d) q1 /\ Forall (fun n => depth n (S d)) q2) ->
  exists d q1 q2, depth cur d /\ q = q1 ++ q2 /\ Forall (fun n => depth n d) q1 /\ Forall (fun n => depth n (S d)) q2.
Proof.
  intros (d & [|x q1] & q2 & He & H1 & H2).
  - cbn in He. subst q2. apply Forall_cons in H2 as [Hc H2]. exists (S d), q, []. by rewrite app_nil_r.
  - injection He as <- ->. apply Forall_cons in H1 as [Hc H1]. by exists d, q1, q2.
Qed.

Lemma depth_fun n d w : depth n d -> words !! n = Some w -> length w = d.
Proof. intros (w' & Hw' & <-) Hw. congruence. Qed.

Lemma NoDup_targets wc cs :
  NoDup cs.*1 -> (forall b m, (b, m) ∈ cs -> words !! m = Some (wc ++ [b])) -> NoDup cs.*2.
Proof.
  induction cs as [|[b m] cs IH]; intros Hnd Hcs; [constructor|]. cbn in *.
  apply NoDup_cons in Hnd as [Hb Hnd]. apply NoDup_cons. split; [|apply IH; [done|]; intros; apply Hcs; by right].
  intros ([b' m'] & -> & Hin)%list_elem_of_fmap. cbn in Hcs. apply Hb.
  pose proof (Hcs b m' ltac:(left)) as H1. pose proof (Hcs b' m' ltac:(by right)) as H2.
  rewrite H1 in H2. injection H2 as H2. apply app_inj_tail in H2 as [_ ->].
  by apply (list_elem_of_fmap_2 fst _ (b', m')).
Qed.

(** Popping [cur] and queueing its children keeps the frontier. *)
Lemma frontier_pop P cur q :
  frontier P (cur :: q) -> frontier (P ++ [cur]) (q ++ (nth cur g []).*2).
Proof.
  intros F. pose proof F as [F1 F2 F3 F4 F5]. set (cs := nth cur g []).
  assert (cur ∈ P ++ cur :: q) as HcD by (apply elem_of_app; right; left).
  destruct (F2 _ HcD) as [Hc0 [wc Hwc]].
  assert (forall x, x ∈ cs.*2 <-> exists b, words !! x = Some (wc ++ [b])) as Hch.
  { intros x. split.
    - intros ([b m] & -> & Hin)%list_elem_of_fmap. exists b. apply (t_child _ _ T _ _ _ _ Hwc), dget_in, Hin. apply T.
    - intros [b Hx]. apply (t_child _ _ T _ _ _ _ Hwc), dget_in in Hx; [|apply T].
      by apply (list_elem_of_fmap_2 snd _ (b, x)). }
  assert (forall x, x ∈ cs.*2 -> x ∉ P ++ cur :: q) as Hnew.
  { intros x [b Hx]%Hch Hin. apply NoDup_app in F1 as (_ & Hd & _).
    destruct (F4 _ _ _ _ Hin Hx Hwc); [|done]. eapply Hd; [done | left]. }
  assert (forall x, x ∈ (P ++ [cur]) ++ q ++ cs.*2 <-> x ∈ P ++ cur :: q \/ x ∈ cs.*2) as Hmem.
  { intros x. rewrite !elem_of_app, !elem_of_cons, elem_of_nil. tauto. }
  constructor.
  - replace ((P ++ [cur]) ++ q ++ cs.*2) with ((P ++ cur :: q) ++ cs.*2) by (by rewrite <- !app_assoc).
    apply NoDup_app. split_and!; [done | intros x Hx Hy; by apply (Hnew x)|].
    apply (NoDup_targets wc); [apply T|]. intros b m Hin. apply (t_child _ _ T _ _ _ _ Hwc), dget_in, Hin. apply T.
  - intros n [Hn|Hn]%Hmem; [by apply F2|]. apply Hch in Hn as [b Hb]. split; [|by rewrite Hb].
    intros ->. rewrite (t_root _ _ T) in Hb. by destruct wc.
  - intros n b m Hn Hc. apply Hmem. rewrite elem_of_app, list_elem_of_singleton in Hn.
    destruct (decide (n = cur)) as [->|Hne].
    + right. apply Hch. exists b. by apply (t_child _ _ T _ _ _ _ Hwc).
    + left. apply (F3 n b); tauto.
  - intros n w m b [Hm|Hm]%Hmem Hw Hn; rewrite elem_of_app, list_elem_of_singleton.
    + destruct (F4 _ _ _ _ Hm Hw Hn); tauto.
    + apply Hch in Hm as [b' Hb']. rewrite Hw in Hb'. injection Hb' as Hb'. apply app_inj_tail in Hb' as [-> ->].
      left; right. eapply word_inj; [apply T | exact Hn | exact Hwc].
  - apply levels_head in F5 as (d & q1 & q2 & Hd & -> & H1 & H2). exists d, q1, (q2 ++ cs.*2).
    rewrite app_assoc. split_and!; [done | done |]. apply Forall_app. split; [done|]. apply Forall_forall.
    intros x [b Hb]%Hch. exists (wc ++ [b]). split; [done|]. rewrite length_app, (depth_fun _ _ _ Hd Hwc). cbn. lia.
Qed.

Lemma frontier_done P cur q m w wc :
  frontier P (cur :: q) -> words !! cur = Some wc -> words !! m = Some w -> (length w <= length wc)%nat ->
  m ∈ P ++ cur :: q \/ m = 0%nat.
Proof.
  intros F Hc Hm Hl. destruct (decide (m = 0%nat)) as [|Hm0]; [by right|left].
  destruct (decide (m ∈ P ++ cur :: q)) as [|HmD]; [done|exfalso].
  destruct (undone_ancestor _ _ _ _ F Hm HmD Hm0) as (y & d & Hy & Hd & Hlt).
  pose proof (f_levels _ _ F) as (d0 & q1 & q2 & Hd0 & -> & H1 & H2)%levels_head.
  rewrite (depth_fun _ _ _ Hd0 Hc) in Hl. rewrite Forall_forall in H1, H2. destruct Hd as (wy & Hwy & <-).
  apply elem_of_cons in Hy as [->|[Hy|Hy]%elem_of_app].
  - rewrite (depth_fun _ _ _ Hd0 Hwy) in Hlt. lia.
  - rewrite (depth_fun _ _ _ (H1 _ Hy) Hwy) in Hlt. lia.
  - rewrite (depth_fun _ _ _ (H2 _ Hy) Hwy) in Hlt. lia.
Qed.

Lemma frontier_size P q : frontier P q -> (length (P ++ q) < length words)%nat.
Proof.
  intros [F1 F2 _ _ _]. assert (forall n, n ∈ 0%nat :: P ++ q -> n ∈ seq 0 (length words)) as Hsub.
  { intros n [->|Hn]%elem_of_cons; apply elem_of_seq.
    - pose proof (lookup_lt_Some _ _ _ (t_root _ _ T)). lia.
    - apply F2 in Hn as [_ Hn]. apply lookup_lt_is_Some in Hn. lia. }
  assert (length (0%nat :: P ++ q) <= length (seq 0 (length words)))%nat as Hle.
  { apply NoDup_incl_length; [|intros n Hn; apply list_elem_of_In, Hsub, list_elem_of_In, Hn].
    apply NoDup_ListNoDup, NoDup_cons. split; [|done]. intros Hn. by apply F2 in Hn as [? _]. }
  rewrite length_seq in Hle. cbn in Hle. lia.
Qed.

Lemma build_loop_spec fuel : forall P q fl o,
  frontier P q -> core (P ++ q) fl o -> (length P + fuel = length words)%nat ->
  let '(fl', o') := build_loop fuel g fl o q in
  exists D, core D fl' o' /\ forall n w, words !! n = Some w -> n ∈ D \/ n = 0%nat.
Proof.
  induction fuel as [|k IH]; intros P q fl o F C Hf.
  { exfalso. pose proof (frontier_size _ _ F) as Hs. rewrite length_app in Hs. lia. }
  cbn [build_loop]. destruct q as [|cur q].
  { exists (P ++ []). split; [done|]. intros n w Hw. destruct (decide (n = 0%nat)) as [|Hn0]; [by right|left].
    destruct (decide (n ∈ P ++ [])) as [|HnD]; [done|].
    destruct (undone_ancestor _ _ _ _ F Hw HnD Hn0) as (y & d & Hy & _). by apply not_elem_of_nil in Hy. }
  assert (cur ∈ P ++ cur :: q) as HcD by (apply elem_of_app; right; left).
  destruct (f_nodes _ _ F _ HcD) as [Hc0 [wc Hwc]].
  destruct (build_children_spec cur wc (nth cur g []) (P ++ cur :: q) fl o q C Hwc) as (fl' & o' & He & C').
  - intros ->. apply Hc0. eapply word_inj; [apply T | exact Hwc | apply T].
  - done.
  - apply T.
  - intros b m Hin. assert (words !! m = Some (wc ++ [b])) as Hm
      by (apply (t_child _ _ T _ _ _ _ Hwc), dget_in, Hin; apply T).
    split; [done|]. intros HmD. pose proof (f_nodup _ _ F) as (_ & Hd & _)%NoDup_app.
    destruct (f_parent _ _ F _ _ _ _ HmD Hm Hwc); [|done]. eapply Hd; [done | left].
  - intros m w Hm Hl. by eapply frontier_done.
  - rewrite He. apply (IH (P ++ [cur]) (q ++ (nth cur g []).*2)).
    + by apply frontier_pop.
    + by rewrite <- !app_assoc in *.
    + rewrite length_app. cbn. lia.
Qed.

(** ** The first level *)

Lemma first_level cs : forall (fl : list nat) q,
  (forall n, nth n fl 0%nat = 0%nat) ->
  let '(fl', q') := fold_left (fun '(fl, q) '(_, nxt) => (<[nxt := 0%nat]> fl, q ++ [nxt])) cs (fl, q) in
  length fl' = length fl /\ (forall n, nth n fl' 0%nat = 0%nat) /\ q' = q ++ (cs : list (Z * nat)).*2.
Proof.
  induction cs as [|[b m] cs IH]; intros fl q Hz; cbn [fold_left]; [by rewrite app_nil_r|].
  specialize (IH (<[m := 0%nat]> fl) (q ++ [m])).
  destruct (fold_left _ cs _) as [fl' q']. destruct IH as (H1 & H2 & ->).
  - intros n. destruct (decide (m < length fl)%nat).
    + rewrite nth_insert by done. by destruct (decide _).
    + rewrite list_insert_ge by lia. apply Hz.
  - rewrite length_insert in H1. by rewrite <- app_assoc.
Qed.

Lemma frontier_init : frontier [] (nth 0%nat g []).*2.
Proof.
  set (cs := nth 0%nat g []). pose proof (t_root _ _ T) as H0.
  assert (forall b m, (b, m) ∈ cs -> words !! m = Some [b]) as Hcs.
  { intros b m Hin. apply (t_child _ _ T _ _ _ _ H0), dget_in, Hin. apply T. }
  assert (forall x, x ∈ cs.*2 -> exists b, words !! x = Some [b]) as Hch.
  { intros x ([b m] & -> & Hin)%list_elem_of_fmap. exists b. by apply Hcs. }
  constructor; cbn.
  - by apply (NoDup_targets []); [apply T|].
  - intros n [b Hb]%Hch. split; [|by rewrite Hb]. intros ->. congruence.
  - intros n b m [Hn| ->] Hc; [by apply not_elem_of_nil in Hn|]. apply dget_in in Hc; [|apply T].
    by apply (list_elem_of_fmap_2 snd _ (b, m)).
  - intros n w m b [b' Hb']%Hch Hm Hn. right. rewrite Hb' in Hm. injection Hm as Hm.
    apply (app_inj_tail [] w) in Hm as [<- _]. eapply word_inj; [apply T | exact Hn | done].
  - exists 1%nat, cs.*2, []. rewrite app_nil_r. split_and!; [done | | constructor]. apply Forall_forall.
    intros x [b Hb]%Hch. by exists [b].
Qed.

Lemma core_init fl o :
  length fl = length words -> length o = length words -> (forall n, nth n fl 0%nat = 0%nat) ->
  (forall n w, words !! n = Some w -> nth n o [] = own pats w) -> core (nth 0%nat g []).*2 fl o.
Proof.
  intros H1 H2 Hz Ho. assert (lsuf [] = []) as Hnil by (apply lsuf_id, root_in).
  assert (forall n w, n ∈ (nth 0%nat g []).*2 \/ n = 0%nat -> words !! n = Some w -> tail w = []) as Htl.
  { intros n w [([b m] & -> & Hin)%list_elem_of_fmap| ->] Hw.
    - apply dget_in, (t_child _ _ T _ _ _ _ (t_root _ _ T)) in Hin; [|apply T]. cbn in *. by simplify_eq.
    - rewrite (t_root _ _ T) in Hw. by simplify_eq. }
  constructor; [done | done | | | auto].
  - intros n Hn w Hw. rewrite Hz, (Htl n w Hn Hw), Hnil. apply T.
  - intros n w Hn Hw. rewrite (Ho n w Hw). destruct w as [|b w]; cbn [ending].
    + by rewrite app_nil_r.
    + pose proof (Htl n (b :: w) Hn Hw) as E. cbn in E. rewrite E. cbn. by rewrite own_empty, !app_nil_r.
Qed.

(** ** The scan *)

Lemma iter_loop_spec D fl o : core D fl o -> (forall n w, words !! n = Some w -> n ∈ D \/ n = 0%nat) ->
  forall data node seen i, words !! node = Some (lsuf seen) ->
  iter_loop g fl o node i data = matches_from pats seen i data.
Proof.
  intros C Hall. induction data as [|b rest IH]; intros node seen i Hn; [done|].
  cbn [iter_loop matches_from].
  assert (words !! advance g fl node b = Some (lsuf (seen ++ [b]))) as Ha.
  { rewrite lsuf_snoc. apply advance_spec; [done|]. intros m w Hm _. apply (c_link _ _ _ C). by eapply Hall. }
  rewrite (c_out _ _ _ C _ _ (Hall _ _ Ha) Ha), <- ending_lsuf. f_equal. by apply IH.
Qed.
End Build.

Lemma build_scan a pats words data :
  loaded a pats words ->
  iter_loop (_goto (build a)) (_fail (build a)) (_out (build a)) 0 0 data = all_matches pats data.
Proof.
  intros [L1 L2 L3 L4 L5 L6]. unfold build.
  pose proof (first_level (nth 0%nat (_goto a) []) (_fail a) []) as Hf.
  destruct (fold_left _ _ (_fail a, [])) as [fl q]. destruct Hf as (Hl & Hz & ->).
  { intros n. rewrite L3. generalize (length words). intros k. revert n.
    induction k as [|k IH]; intros [|n]; cbn; [done..|]. apply IH. }
  cbn [app]. pose proof (build_loop_spec (_goto a) words pats L1 L6 (length (_goto a)) []
    (nth 0%nat (_goto a) []).*2 fl (_out a)) as Hb.
  destruct (build_loop _ _ _ _ _) as [fl' o']. destruct Hb as (D & C & Hall).
  - by apply frontier_init.
  - apply core_init; try done. rewrite Hl, L3. apply length_replicate.
  - cbn. symmetry. apply L1.
  - cbn [_goto _fail _out]. eapply iter_loop_spec; [done.. | | ]; try done.
    rewrite lsuf_id; [apply L1 | by eapply root_in].
Qed.

(** C19.  The automaton is equivalent to brute force: after adding any list of
    patterns with their tags, scanning any data yields, position by position, the
    tags of exactly the patterns that end there, longest first and in the order
    they were added; nothing is missed and nothing is reported twice. *)
Theorem iter_matches_exact (pats : list (bytes * A)) (a : ac) (data : bytes) :
  add_all ac_init pats = Ok a -> fst (iter_matches a data) = all_matches pats data.
Proof.
  intros H. destruct (add_all_loaded _ _ _ _ _ loaded_init H) as [words L].
  unfold iter_matches. rewrite (l_built _ _ _ L). by apply (build_scan a pats words).
Qed.

(** Adding succeeds exactly when no pattern is empty. *)
Lemma add_all_total (pats : list (bytes * A)) (a : ac) :
  _built a = false -> (forall p t, (p, t) ∈ pats -> p <> []) -> exists a', add_all a pats = Ok a'.
Proof.
  revert a; induction pats as [|[p t] pats IH]; intros a Hb Hp; [by exists a|].
  assert (exists a1, add a p t = Ok a1 /\ _built a1 = false) as (a1 & Ha & Hb1).
  { unfold add. rewrite Hb. destruct p as [|b p]; [destruct (Hp [] t ltac:(left)); done|].
    destruct (add_loop _ _ _ _ _) as [[[g f] o] n]. by eexists. }
  unfold add_all. cbn [foldM_res]. rewrite Ha. cbn [mbind result_bind]. apply IH; [done|].
  intros p' t' Hin. apply (Hp p' t'). by right.
Qed.
End AhoCorasick.

Arguments ac A : clear implicits.

Lemma iter_matches_exact_witness :
  exists a, add_all ac_init [([104; 101], 1); ([115; 104; 101], 2); ([104; 105; 115], 3); ([104; 101; 114; 115], 4)] = Ok a /\
    fst (iter_matches a [117; 115; 104; 101; 114; 115]) = [(3, 2); (3, 1); (5, 4)].
Proof.
  eexists. split; [vm_compute; reflexivity|].
  rewrite (iter_matches_exact [([104; 101], 1); ([115; 104; 101], 2); ([104; 105; 115], 3); ([104; 101; 114; 115], 4)]);
    vm_compute; reflexivity.
Defined.
