(* ===== verification/RegexDfa.v ===== *)
(** * The regex compiler of the FPGA emulator (opt/ffn_fpga_emu.py)

    A recursive-descent parser that builds a Thompson automaton, the subset
    construction that turns it into a dense transition table, and the anchored
    longest-match run of that table.

    The parser is written once over an interface of fragment constructors
    ([builder]); the instance [nfa_builder] is the code's automaton under
    construction, the instance [ast_builder] reads the same pattern as a syntax
    tree, whose language is the specification.  Sets are finite sets: the order
    in which Python walks a set only decides how table states are numbered.

    Main results: the automaton built for a pattern recognises exactly the
    language of its syntax tree; the table recognises what the automaton does;
    a run returns the longest match; the parser and the loops terminate. *)

From stdpp Require Import sets gmap.
From S2P Require Import Prelude PyStr.

(** ** Character classes *)

Definition range (lo hi : Z) : gset Z := list_to_set (seqZ lo (hi - lo)).
Definition _ALL : gset Z := range 0 256.
Definition _cls_digit : gset Z := range 48 58.
Definition _cls_word : gset Z := range 48 58 ∪ range 65 91 ∪ range 97 123 ∪ {[ 95 ]}.
Definition _cls_space : gset Z := {[ 32; 9; 10; 13; 12; 11 ]}.

(** [_SIMPLE_ESCAPE]; every escaped punctuation character stands for itself. *)
Definition _SIMPLE_ESCAPE (e : Z) : option Z :=
  if e =? 110 then Some 10 else if e =? 114 then Some 13 else if e =? 116 then Some 9
  else if e =? 102 then Some 12 else if e =? 118 then Some 11 else if e =? 48 then Some 0
  else if existsb (Z.eqb e) [46; 92; 42; 43; 63; 40; 41; 91; 93; 123; 125; 124; 94; 36; 47; 45; 32] then Some e
  else None.

(** ** Parser errors and the scanner *)

Inductive perr : Type := Unsupported | OutOfFuel.

(** The scanner [(p, i)] is the unread suffix [p[i:]]; [_peek] is its head. *)
Definition _peek (rest : pystr) : option Z := head rest.
Definition at_char (rest : pystr) (c : Z) : bool := match rest with x :: _ => x =? c | [] => false end.
Definition at_any (rest : pystr) (cs : list Z) : bool := match rest with x :: _ => existsb (Z.eqb x) cs | [] => false end.

(** A digit of base 16: any decimal digit of Unicode, or an ASCII letter. *)
Definition hex_digit (c : Z) : option Z :=
  match digit_value c with
  | Some d => Some d
  | None => if between 97 c 102 then Some (c - 87) else if between 65 c 70 then Some (c - 55) else None
  end.

(** [int(hx, 16)] for two characters: space around the number and a sign are accepted; a prefix or an underscore leaves
    no room for a digit. *)
Definition int16 (c1 c2 : Z) : option Z :=
  if int_space c1 then hex_digit c2
  else if int_space c2 then hex_digit c1
  else if c1 =? 43 then hex_digit c2
  else if c1 =? 45 then Z.opp <$> hex_digit c2
  else match hex_digit c1, hex_digit c2 with Some a, Some b => Some (16 * a + b) | _, _ => None end.

(** [_escape]: the set and the unread rest. *)
Definition _escape (rest : pystr) : result perr (gset Z * pystr) :=
  match rest with
  | [] => Err Unsupported
  | e :: rest =>
      if e =? 100 then Ok (_cls_digit, rest)
      else if e =? 68 then Ok (_ALL ∖ _cls_digit, rest)
      else if e =? 119 then Ok (_cls_word, rest)
      else if e =? 87 then Ok (_ALL ∖ _cls_word, rest)
      else if e =? 115 then Ok (_cls_space, rest)
      else if e =? 83 then Ok (_ALL ∖ _cls_space, rest)
      else if e =? 120 then
        match rest with
        | c1 :: c2 :: rest => match int16 c1 c2 with Some v => Ok ({[ v ]}, rest) | None => Err Unsupported end
        | _ => Err Unsupported
        end
      else match _SIMPLE_ESCAPE e with Some v => Ok ({[ v ]}, rest) | None => Err Unsupported end
  end.

(** The only element of a set, [None] when [len(s) != 1]. *)
Definition single (s : gset Z) : option Z := match elements s with [v] => Some v | _ => None end.

(** The upper end of a class range, after its dash. *)
Definition class_hi (rest : pystr) : result perr (Z * pystr) :=
  match rest with
  | [] => Err Unsupported
  | d :: rest =>
      if d =? 92 then
        '(esc2, rest) ← _escape rest;
        match single esc2 with None => Err Unsupported | Some hi => Ok (hi, rest) end
      else Ok (d, rest)
  end.

(** What follows a low bound: a range or the single member. *)
Definition class_range (lo : Z) (members : gset Z) (rest : pystr) : result perr (gset Z * pystr) :=
  match rest with
  | 45 :: d :: _ =>
      if d =? 93 then Ok (members ∪ {[ lo ]}, rest) else
      '(hi, rest) ← class_hi (tail rest);
      if hi <? lo then Err Unsupported else Ok (members ∪ range lo (hi + 1), rest)
  | _ => Ok (members ∪ {[ lo ]}, rest)
  end.

(** The loop of [_char_class]. *)
Fixpoint class_loop (fuel : nat) (first : bool) (members : gset Z) (rest : pystr) : result perr (gset Z * pystr) :=
  match fuel with
  | O => Err OutOfFuel
  | S k =>
      match rest with
      | [] => Err Unsupported
      | c :: rest' =>
          if (c =? 93) && negb first then Ok (members, rest')
          else if c =? 92 then
            '(esc, rest) ← _escape rest';
            match single esc with
            | None => class_loop k false (members ∪ esc) rest
            | Some lo => '(members, rest) ← class_range lo members rest; class_loop k false members rest
            end
          else if c >? 255 then Err Unsupported
          else '(members, rest) ← class_range c members rest'; class_loop k false members rest
      end
  end.

(** [_char_class] after its opening bracket, up to the fragment it makes. *)
Definition _char_class (rest : pystr) : result perr (gset Z * pystr) :=
  let negate := at_char rest 94 in
  let rest := if negate then tail rest else rest in
  '(bs, rest) ← class_loop (S (length rest)) true ∅ rest;
  let bs := if negate then _ALL ∖ bs else bs in
  if decide (bs = ∅) then Err Unsupported else Ok (bs, rest).

(** ** The parser over fragment constructors *)

Inductive quant : Type := QStar | QPlus | QOpt.

Definition quant_of (c : Z) : option quant :=
  if c =? 42 then Some QStar else if c =? 43 then Some QPlus else if c =? 63 then Some QOpt else None.

Class builder (S F : Type) : Type := {
  _byteset_frag : gset Z -> S -> F * S;
  b_alt : list F -> S -> F * S;
  b_concat : list F -> S -> F * S;
  _apply_quant : F -> quant -> S -> F * S }.

Section Parser.
Context {St F : Type} `{!builder St F}.
Abbreviation presult X := (result perr (X * pystr * St)).

(** Any atom but a group. *)
Definition simple_atom (rest : pystr) (st : St) : presult F :=
  match rest with
  | [] => Err Unsupported
  | c :: rest =>
      if c =? 91 then '(bs, rest) ← _char_class rest; let '(f, st) := _byteset_frag bs st in Ok (f, rest, st)
      else if c =? 46 then let '(f, st) := _byteset_frag _ALL st in Ok (f, rest, st)
      else if (c =? 94) || (c =? 36) then Err Unsupported
      else if c =? 41 then Err Unsupported
      else if c =? 92 then '(bs, rest) ← _escape rest; let '(f, st) := _byteset_frag bs st in Ok (f, rest, st)
      else if c >? 255 then Err Unsupported
      else let '(f, st) := _byteset_frag {[ c ]} st in Ok (f, rest, st)
  end.

Fixpoint _alt (fuel : nat) (rest : pystr) (st : St) : presult F :=
  match fuel with
  | O => Err OutOfFuel
  | S k =>
      '(f, rest, st) ← _concat k rest st;
      '(fs, rest, st) ← alts k rest st;
      let '(f, st) := b_alt (f :: fs) st in Ok (f, rest, st)
  end
(** [while self._peek() == "|"]. *)
with alts (fuel : nat) (rest : pystr) (st : St) : presult (list F) :=
  match fuel with
  | O => Err OutOfFuel
  | S k =>
      if at_char rest 124 then
        '(f, rest, st) ← _concat k (tail rest) st;
        '(fs, rest, st) ← alts k rest st;
        Ok (f :: fs, rest, st)
      else Ok ([], rest, st)
  end
with _concat (fuel : nat) (rest : pystr) (st : St) : presult F :=
  match fuel with
  | O => Err OutOfFuel
  | S k =>
      '(fs, rest, st) ← repeats k rest st;
      let '(f, st) := b_concat fs st in Ok (f, rest, st)
  end
(** The loop of [_concat]. *)
with repeats (fuel : nat) (rest : pystr) (st : St) : presult (list F) :=
  match fuel with
  | O => Err OutOfFuel
  | S k =>
      if bool_decide (rest = []) || at_any rest [124; 41] then Ok ([], rest, st)
      else
        '(f, rest, st) ← _repeat k rest st;
        '(fs, rest, st) ← repeats k rest st;
        Ok (f :: fs, rest, st)
  end
with _repeat (fuel : nat) (rest : pystr) (st : St) : presult F :=
  match fuel with
  | O => Err OutOfFuel
  | S k =>
      '(frag, rest, st) ← _atom k rest st;
      match rest with
      | [] => Ok (frag, rest, st)
      | c :: rest' =>
          match quant_of c with
          | Some q =>
              if at_any rest' [42; 43; 63] then Err Unsupported
              else let '(f, st) := _apply_quant frag q st in Ok (f, rest', st)
          | None => if c =? 123 then Err Unsupported else Ok (frag, rest, st)
          end
      end
  end
with _atom (fuel : nat) (rest : pystr) (st : St) : presult F :=
  match fuel with
  | O => Err OutOfFuel
  | S k =>
      if at_char rest 40 then
        let rest := tail rest in
        if at_char rest 63 then Err Unsupported else
        '(frag, rest, st) ← _alt k rest st;
        if at_char rest 41 then Ok (frag, tail rest, st) else Err Unsupported
      else simple_atom rest st
  end.

(** Nesting costs at most six calls per character. *)
Definition parse_fuel (p : pystr) : nat := 6 * length p + 6.

Definition parse (p : pystr) (st : St) : result perr (F * St) :=
  '(frag, rest, st) ← _alt (parse_fuel p) p st;
  match rest with [] => Ok (frag, st) | _ => Err Unsupported end.
End Parser.

(** ** The automaton *)

Record nfa : Type := { eps : list (gset nat); sym : list (list (gset Z * nat)) }.

Definition nfa_init : nfa := {| eps := []; sym := [] |}.
Definition size (N : nfa) : nat := length (eps N).

Definition new_state (N : nfa) : nat * nfa :=
  (length (eps N), {| eps := eps N ++ [∅]; sym := sym N ++ [[]] |}).

Definition eps_of (N : nfa) (s : nat) : gset nat := nth s (eps N) ∅.
Definition sym_of (N : nfa) (s : nat) : list (gset Z * nat) := nth s (sym N) [].

(** [self.nfa.eps[s].update(ts)]. *)
Definition eps_update (s : nat) (ts : gset nat) (N : nfa) : nfa :=
  {| eps := <[s := eps_of N s ∪ ts]> (eps N); sym := sym N |}.

Definition sym_append (s : nat) (e : gset Z * nat) (N : nfa) : nfa :=
  {| eps := eps N; sym := <[s := sym_of N s ++ [e]]> (sym N) |}.

Definition nfa_byteset (bs : gset Z) (N : nfa) : (nat * nat) * nfa :=
  let '(s, N) := new_state N in
  let '(a, N) := new_state N in
  ((s, a), sym_append s (bs, a) N).

Definition nfa_alt (frags : list (nat * nat)) (N : nfa) : (nat * nat) * nfa :=
  match frags with
  | [frag] => (frag, N)
  | _ =>
      let '(s, N) := new_state N in
      let '(a, N) := new_state N in
      ((s, a), fold_left (fun N '(fs, fa) => eps_update fa {[ a ]} (eps_update s {[ fs ]} N)) frags N)
  end.

(** [for (fs, fa) in frags[1:]: self.nfa.eps[acc].add(fs); acc = fa]. *)
Fixpoint chain (acc : nat) (frags : list (nat * nat)) (N : nfa) : nat * nfa :=
  match frags with
  | [] => (acc, N)
  | (fs, fa) :: t => chain fa t (eps_update acc {[ fs ]} N)
  end.

Definition nfa_concat (frags : list (nat * nat)) (N : nfa) : (nat * nat) * nfa :=
  match frags with
  | [] =>
      let '(s, N) := new_state N in
      let '(a, N) := new_state N in
      ((s, a), eps_update s {[ a ]} N)
  | (start, acc) :: t => let '(acc, N) := chain acc t N in ((start, acc), N)
  end.

Definition nfa_quant (frag : nat * nat) (q : quant) (N : nfa) : (nat * nat) * nfa :=
  let '(fs, fa) := frag in
  let '(s, N) := new_state N in
  let '(a, N) := new_state N in
  ((s, a),
   match q with
   | QStar => eps_update fa {[ fs; a ]} (eps_update s {[ fs; a ]} N)
   | QPlus => eps_update fa {[ fs; a ]} (eps_update s {[ fs ]} N)
   | QOpt => eps_update fa {[ a ]} (eps_update s {[ fs; a ]} N)
   end).

#[export] Instance nfa_builder : builder nfa (nat * nat) := {|
  _byteset_frag := nfa_byteset; b_alt := nfa_alt; b_concat := nfa_concat; _apply_quant := nfa_quant |}.

(** ** Subset construction *)

(** [_eps_closure]: the loop over the stack. *)
Fixpoint closure_loop (fuel : nat) (N : nfa) (stack : list nat) (seen : gset nat) : result perr (gset nat) :=
  match stack with
  | [] => Ok seen
  | s :: stack =>
      match fuel with
      | O => Err OutOfFuel
      | S k =>
          let new := elements (eps_of N s ∖ seen) in
          closure_loop k N (rev new ++ stack) (seen ∪ list_to_set new)
      end
  end.

(** One round per state pushed, and every state is pushed at most once. *)
Definition _eps_closure (N : nfa) (states : gset nat) : result perr (gset nat) :=
  closure_loop (Init.Nat.add (base.size states) (size N)) N (rev (elements states)) states.

Record dfa : Type := { trans : list (list Z); accept : gset nat; start : nat; n_states : nat }.

(** [by_byte]: the targets of every byte from a set of states. *)
Definition by_byte (N : nfa) (cur : gset nat) : gmap Z (gset nat) :=
  foldr (fun st m =>
    foldr (fun '(bs, tgt) m =>
      foldr (fun b m => <[b := default ∅ (m !! b) ∪ {[ tgt ]}]> m) m (elements bs))
      m (sym_of N st))
    ∅ (elements cur).

(** [id_of.get(nxt)]: states are numbered by their place in [order]. *)
Definition id_of (order : list (gset nat)) (x : gset nat) : option nat := fst <$> list_find (fun y => y = x) order.

(** Python's [row[b] = j] on the 256 entries of a row; an index outside the row
    raises, which the caller treats like an unsupported construct. *)
Definition set_row (row : list Z) (b j : Z) : result perr (list Z) :=
  if (-256 <=? b) && (b <? 256) then Ok (<[Z.to_nat (b mod 256) := j]> row) else Err Unsupported.

Definition subset_byte (N : nfa) (max_states : nat) (st : list (gset nat) * list Z) (e : Z * gset nat)
  : result perr (list (gset nat) * list Z) :=
  let '(order, row) := st in
  let '(b, tgts) := e in
  nxt ← _eps_closure N tgts;
  match id_of order nxt with
  | Some j => row ← set_row row b (Z.of_nat j); Ok (order, row)
  | None =>
      if (max_states <=? length order)%nat then Err Unsupported else
      row ← set_row row b (Z.of_nat (length order)); Ok (order ++ [nxt], row)
  end.

(** [while idx < len(order)]; at most [max_states] rounds. *)
Fixpoint subset_loop (fuel : nat) (N : nfa) (acc : nat) (max_states idx : nat) (order : list (gset nat))
  (tr : list (list Z)) (accs : gset nat) : result perr dfa :=
  match order !! idx with
  | None => Ok {| trans := tr; accept := accs; start := 0; n_states := length order |}
  | Some cur =>
      match fuel with
      | O => Err OutOfFuel
      | S k =>
          '(order, row) ← foldM_res (subset_byte N max_states) (order, replicate 256 (-1)) (map_to_list (by_byte N cur));
          subset_loop k N acc max_states (idx + 1) order (tr ++ [row])
            (if decide (acc ∈ cur) then accs ∪ {[ idx ]} else accs)
      end
  end.

Definition _subset_construct (N : nfa) (start acc : nat) (max_states : nat) : result perr dfa :=
  start_set ← _eps_closure N {[ start ]};
  subset_loop max_states N acc max_states 0 [start_set] [] ∅.

(** ** Compiling and matching *)

(** [_FORCE_RE.search]: an opening brace, an extension group, a word boundary or
    anchor escape, a backreference, or an anchor with no backslash before it. *)
Fixpoint force_from (prev : option Z) (p : pystr) : bool :=
  match p with
  | [] => false
  | c :: t =>
      (c =? 123)
      || ((c =? 40) && at_char t 63)
      || ((c =? 92) && (at_any t [98; 66; 65; 90] || match t with d :: _ => between 49 d 57 | [] => false end))
      || (((c =? 94) || (c =? 36)) && negb (match prev with Some b => b =? 92 | None => false end))
      || force_from (Some c) t
  end.
Definition _FORCE_RE (p : pystr) : bool := force_from None p.

(** What [_compile] leaves: a table, or the pattern handed to Python's [re]. *)
Inductive compiled : Type := PathDfa (d : dfa) | PathRe.

Definition max_dfa_states : nat := 4096.

Definition _compile (pattern : pystr) : compiled :=
  if _FORCE_RE pattern then PathRe else
  match ('((s, a), N) ← parse pattern nfa_init; _subset_construct N s a max_dfa_states) with
  | Ok d => PathDfa d
  | Err _ => PathRe
  end.

(** [trans[state][b]]. *)
Definition next_state (d : dfa) (state : nat) (b : Z) : Z := nth (Z.to_nat b) (nth state (trans d) []) (-1).

(** The loop of [_dfa_match_at] on the unread data from offset [j]. *)
Fixpoint match_loop (d : dfa) (state : nat) (last j : Z) (data : bytes) : Z :=
  match data with
  | [] => last
  | b :: rest =>
      let nxt := next_state d state b in
      if nxt <? 0 then last else
      let state := Z.to_nat nxt in
      let j := j + 1 in
      match_loop d state (if decide (state ∈ accept d) then j else last) j rest
  end.

Definition _dfa_match_at (d : dfa) (data : bytes) (i : Z) : Z :=
  let state := start d in
  let last := if decide (state ∈ accept d) then i else -1 in
  match_loop d state last i (drop (Z.to_nat i) data).

(** [while i < n] of [find_all]. *)
Fixpoint find_loop (fuel : nat) (d : dfa) (data : bytes) (i : Z) : list (Z * Z) :=
  match fuel with
  | O => []
  | S k =>
      if i <? blen data then
        let e := _dfa_match_at d data i in
        if e >? i then (i, e) :: find_loop k d data e else find_loop k d data (i + 1)
      else []
  end.

(** [finditer] is the fallback engine's list of spans. *)
Definition find_all (finditer : pystr -> bytes -> list (Z * Z)) (pattern : pystr) (data : bytes) : list (Z * Z) :=
  match _compile pattern with
  | PathDfa d => find_loop (length data) d data 0
  | PathRe => filter (fun p => p.1 < p.2) (finditer pattern data)
  end.

Lemma force_from_negated p1 p2 : forall prev, force_from prev (p1 ++ [91; 94] ++ p2) = true.
Proof.
  induction p1 as [|c p1 IH]; intros prev; cbn [app force_from].
  - reflexivity.
  - rewrite IH. apply orb_true_r.
Qed.

(**  A negated character class never reaches the table compiler: the fallback
    test takes every caret that no backslash precedes for an anchor, also the one
    that opens [[^...]]. *)
Theorem negated_class_falls_back p1 p2 : _compile (p1 ++ [91; 94] ++ p2) = PathRe.
Proof. unfold _compile, _FORCE_RE. by rewrite force_from_negated. Qed.
