(* ===== verification/RegexTable.v ===== *)
(** * The transition table of the regex compiler

    The subset construction and the table run: the ε-closure loop computes the
    reachable states, every row of the table is the successor set of its state
    set, and [_dfa_match_at] returns the end of the longest match.  Together with
    RegexCorrect this gives the theorem on [find_all], and with RegexGrammar the end-to-end theorem on [_compile]. *)

From stdpp Require Import sets gmap sorting.
From S2P Require Import Prelude PyStr RegexDfa RegexCorrect.

(** ** ε-closure *)

Lemma elem_of_rev {A} (l : list A) x : x ∈ rev l <-> x ∈ l.
Proof. rewrite !list_elem_of_In. symmetry. apply in_rev. Qed.

Definition in_range (N : nfa) : Prop := forall s t, t ∈ eps_of N s -> (t < size N)%nat.

Lemma path_nil_closed N (r : gset nat) s w t :
  (forall s t, s ∈ r -> t ∈ eps_of N s -> t ∈ r) -> path N s w t -> w = [] -> s ∈ r -> t ∈ r.
Proof. intros Hr. induction 1; intros Hw Hs; [done | eauto | done]. Qed.

Section Closure.
Context (N : nfa) (HN : in_range N) (X : gset nat).

Definition univ : gset nat := X ∪ set_seq 0 (size N).

Lemma closure_loop_spec fuel : forall stack seen,
  X ⊆ seen -> seen ⊆ univ -> (forall s, s ∈ stack -> s ∈ seen) ->
  (forall t, t ∈ seen -> exists s, s ∈ X /\ path N s [] t) ->
  (forall s t, s ∈ seen -> s ∉ stack -> t ∈ eps_of N s -> t ∈ seen) ->
  (length stack + base.size (univ ∖ seen) <= fuel)%nat ->
  exists r, closure_loop fuel N stack seen = Ok r /\ X ⊆ r /\ (forall t, t ∈ r -> exists s, s ∈ X /\ path N s [] t) /\
  (forall s t, s ∈ r -> t ∈ eps_of N s -> t ∈ r).
Proof.
  induction fuel as [|k IH]; intros stack seen HX HU Hst Hr Hc Hf;
    (destruct stack as [|s stack]; [exists seen; split_and!; [done | done | done | intros s t Hs Ht; eapply Hc; [done | by apply not_elem_of_nil | done]]|]);
    [cbn in Hf; lia|]. cbn [closure_loop].
  set (new := elements (eps_of N s ∖ seen)).
  assert (forall t, t ∈ new <-> t ∈ eps_of N s /\ t ∉ seen) as Hnew
    by (intros t; unfold new; rewrite elem_of_elements; set_solver).
  assert (s ∈ seen) as Hs by (apply Hst; left).
  assert (list_to_set new = eps_of N s ∖ seen) as Hset by (unfold new; apply list_to_set_elements_L).
  apply IH.
  - set_solver.
  - intros t [Ht|Ht]%elem_of_union; [by apply HU|]. rewrite Hset in Ht. apply elem_of_union; right.
    apply elem_of_set_seq. apply elem_of_difference in Ht as [Ht _]. apply HN in Ht. lia.
  - intros t [Ht|Ht]%elem_of_app.
    + apply elem_of_union; right. rewrite elem_of_list_to_set. by apply elem_of_rev.
    + apply elem_of_union; left. apply Hst. by right.
  - intros t [Ht|Ht]%elem_of_union; [by apply Hr|]. rewrite Hset in Ht. apply elem_of_difference in Ht as [Ht _].
    destruct (Hr s Hs) as (x & Hx & Hp). exists x. split; [done|]. apply (path_app N x [] s []); [done|].
    apply (p_eps _ _ t); [done | constructor].
  - intros x t Hx Hns Ht. destruct (decide (x = s)) as [->|Hne].
    + destruct (decide (t ∈ seen)); [set_solver|]. apply elem_of_union; right. rewrite Hset. set_solver.
    + apply elem_of_union in Hx as [Hx|Hx].
      * apply elem_of_union; left. apply (Hc x); [done | | done]. intros [?|?]%elem_of_cons; [done|].
        apply Hns, elem_of_app. by right.
      * exfalso. apply Hns, elem_of_app. left. rewrite elem_of_list_to_set in Hx. by apply elem_of_rev.
  - rewrite length_app, length_rev. cbn [length] in Hf.
    assert (univ ∖ (seen ∪ list_to_set new) = (univ ∖ seen) ∖ list_to_set new) as -> by set_solver.
    assert (list_to_set new ⊆ univ ∖ seen) as Hsub.
    { rewrite Hset. intros t [Ht Hn]%elem_of_difference. apply elem_of_difference. split; [|done].
      apply elem_of_union; right. apply elem_of_set_seq. apply HN in Ht. lia. }
    rewrite size_difference by done.
    assert (base.size (list_to_set new : gset nat) = length new) as Hsz
      by (rewrite Hset; reflexivity).
    pose proof (subseteq_size _ _ Hsub). lia.
Qed.

(** The closure, which is always computed: the fuel is one round per state that can be pushed. *)
Definition eps_set : gset nat := match _eps_closure N X with Ok Y => Y | Err _ => ∅ end.

Lemma closure_total : exists r, _eps_closure N X = Ok r /\ forall t, t ∈ r <-> exists s, s ∈ X /\ path N s [] t.
Proof.
  unfold _eps_closure.
  destruct (closure_loop_spec (base.size X + size N) (rev (elements X)) X) as (r & H0 & H1 & H2 & H3).
  - done.
  - unfold univ. set_solver.
  - intros s Hs. apply elem_of_rev, elem_of_elements in Hs. done.
  - intros s Hs. exists s. split; [done | constructor].
  - intros s t' Hs Hn. exfalso. apply Hn, elem_of_rev, elem_of_elements, Hs.
  - rewrite length_rev. assert (univ ∖ X ⊆ set_seq 0 (size N)) as Hs by (unfold univ; set_solver).
    apply subseteq_size in Hs. rewrite size_set_seq in Hs.
    change (length (elements X)) with (base.size X). lia.
  - exists r. split; [exact H0|]. intros t. split; [apply H2|]. intros (s & Hs & Hp). apply H1 in Hs. by eapply path_nil_closed.
Qed.

Lemma closure_ok : _eps_closure N X = Ok eps_set.
Proof. unfold eps_set. by destruct closure_total as (r & -> & _). Qed.

Lemma closure_elem t : t ∈ eps_set <-> exists s, s ∈ X /\ path N s [] t.
Proof. unfold eps_set. destruct closure_total as (r & -> & H). apply H. Qed.
End Closure.

(** ** Targets of a byte *)

Definition targets (m : gmap Z (gset nat)) (b : Z) : gset nat := default ∅ (m !! b).
Definition nonempty (m : gmap Z (gset nat)) : Prop := forall b T, m !! b = Some T -> T <> ∅.

Lemma add_bytes_spec tgt l m :
  nonempty m ->
  let m' := foldr (fun b m => <[b := default ∅ (m !! b) ∪ {[ tgt ]}]> m) m l in
  nonempty m' /\ forall b t, t ∈ targets m' b <-> (b ∈ l /\ t = tgt) \/ t ∈ targets m b.
Proof.
  intros Hm. induction l as [|b0 l [IH1 IH2]]; cbn [foldr].
  - split; [done|]. intros b t. rewrite elem_of_nil. tauto.
  - split.
    + intros b T. rewrite lookup_insert_Some. intros [[<- <-]|[_ H]]; [set_solver | by apply (IH1 b)].
    + intros b t. unfold targets at 1. destruct (decide (b0 = b)) as [->|Hne].
      * rewrite lookup_insert_eq. cbn. rewrite elem_of_union, elem_of_singleton, elem_of_cons.
        pose proof (IH2 b t) as H. unfold targets at 1 in H. rewrite H. tauto.
      * rewrite lookup_insert_ne by done. fold (targets (foldr (fun b m => <[b := default ∅ (m !! b) ∪ {[ tgt ]}]> m) m l) b).
        rewrite IH2, elem_of_cons. intuition congruence.
Qed.

Lemma add_edges_spec l m :
  nonempty m ->
  let m' := foldr (fun '(bs, tgt) m => foldr (fun b m => <[b := default ∅ (m !! b) ∪ {[ tgt ]}]> m) m (elements bs)) m
              (l : list (gset Z * nat)) in
  nonempty m' /\ forall b t, t ∈ targets m' b <-> (exists bs, (bs, t) ∈ l /\ b ∈ bs) \/ t ∈ targets m b.
Proof.
  intros Hm. induction l as [|[bs tgt] l [IH1 IH2]]; cbn [foldr].
  - split; [done|]. intros b t. split; [tauto|]. intros [(bs & H & _)|H]; [by apply not_elem_of_nil in H | done].
  - destruct (add_bytes_spec tgt (elements bs) _ IH1) as [H1 H2]. split; [done|].
    intros b t. rewrite H2, IH2, elem_of_elements. split.
    + intros [[Hb ->]|[(bs' & Hin & Hb)|Ht]]; [left; exists bs; split; [left | done] | left; exists bs'; split; [by right | done] | by right].
    + intros [(bs' & [[= -> ->]|Hin]%elem_of_cons & Hb)|Ht]; [by left | right; left; by exists bs' | by right; right].
Qed.

Definition byte_target (N : nfa) (X : gset nat) (b : Z) (t : nat) : Prop :=
  exists s bs, s ∈ X /\ (bs, t) ∈ sym_of N s /\ b ∈ bs.

Lemma by_byte_spec N X :
  nonempty (by_byte N X) /\ forall b t, t ∈ targets (by_byte N X) b <-> byte_target N X b t.
Proof.
  unfold by_byte, byte_target.
  enough (forall l, nonempty (foldr (fun st m => foldr (fun '(bs, tgt) m =>
      foldr (fun b m => <[b := default ∅ (m !! b) ∪ {[ tgt ]}]> m) m (elements bs)) m (sym_of N st)) ∅ l) /\
    forall b t, t ∈ targets (foldr (fun st m => foldr (fun '(bs, tgt) m =>
      foldr (fun b m => <[b := default ∅ (m !! b) ∪ {[ tgt ]}]> m) m (elements bs)) m (sym_of N st)) ∅ l) b
      <-> exists s bs, s ∈ l /\ (bs, t) ∈ sym_of N s /\ b ∈ bs) as Hl.
  { destruct (Hl (elements X)) as [H1 H2]. split; [done|]. intros b t. rewrite H2. by setoid_rewrite elem_of_elements. }
  induction l as [|s l [IH1 IH2]]; cbn [foldr].
  - split; [intros b T; rewrite lookup_empty; done|]. intros b t. unfold targets. rewrite lookup_empty. cbn.
    split; [set_solver|]. intros (s & bs & H & _). by apply not_elem_of_nil in H.
  - destruct (add_edges_spec (sym_of N s) _ IH1) as [H1 H2]. split; [done|]. intros b t. rewrite H2, IH2. split.
    + intros [(bs & Hin & Hb)|(s' & bs & Hs & Hin & Hb)]; [exists s, bs; split_and!; [left | done..] | exists s', bs; split_and!; [by right | done..]].
    + intros (s' & bs & [->|Hs]%elem_of_cons & Hin & Hb); [left; by exists bs | right; by exists s', bs].
Qed.

Lemma by_byte_none N X b : by_byte N X !! b = None <-> forall t, ~ byte_target N X b t.
Proof.
  destruct (by_byte_spec N X) as [H1 H2]. split.
  - intros Hn t Ht. apply H2 in Ht. unfold targets in Ht. rewrite Hn in Ht. cbn in Ht. set_solver.
  - intros Hn. destruct (by_byte N X !! b) as [T|] eqn:E; [|done]. exfalso. apply (H1 b T E).
    apply set_eq. intros t. split; [|set_solver]. intros Ht. exfalso. apply (Hn t), H2. unfold targets. by rewrite E.
Qed.

(** The successor of a state set, and the set reached by a word. *)
Definition succ (N : nfa) (X : gset nat) (b : Z) : gset nat := eps_set N (targets (by_byte N X) b).
Definition reach (N : nfa) (s : nat) (w : bytes) : gset nat :=
  fold_left (succ N) w (eps_set N {[ s ]}).

Lemma path_snoc N s w b t :
  path N s (w ++ [b]) t <-> exists u bs v, path N s w u /\ (bs, v) ∈ sym_of N u /\ b ∈ bs /\ path N v [] t.
Proof.
  split.
  - remember (w ++ [b]) as w' eqn:Ew. intros Hp. revert w Ew.
    induction Hp as [s|s t' w' u Ht Hp IH|s bs t' b' w' u Ht Hb Hp IH]; intros w Ew.
    + by destruct w.
    + destruct (IH w Ew) as (u' & bs & v & H1 & H2). exists u', bs, v. split; [by apply (p_eps _ _ t') | done].
    + destruct w as [|b0 w]; cbn in Ew; simplify_eq.
      * exists s, bs, t'. split_and!; [constructor | done | done | done].
      * destruct (IH w eq_refl) as (u' & bs' & v & H1 & H2). exists u', bs', v.
        split; [by apply (p_sym _ _ bs t') | done].
  - intros (u & bs & v & H1 & H2 & H3 & H4). apply (path_app _ _ _ u); [done|]. by apply (p_sym _ _ bs v).
Qed.

Lemma reach_elem N s w t : in_range N -> t ∈ reach N s w <-> path N s w t.
Proof.
  intros HN. revert t. induction w as [|b w IH] using rev_ind; intros t.
  - unfold reach. cbn [fold_left]. rewrite closure_elem by done. setoid_rewrite elem_of_singleton. naive_solver.
  - unfold reach in *. rewrite fold_left_app. cbn [fold_left]. unfold succ at 1. rewrite closure_elem by done.
    destruct (by_byte_spec N (fold_left (succ N) w (eps_set N {[ s ]}))) as [_ H2].
    rewrite path_snoc. setoid_rewrite H2. unfold byte_target. setoid_rewrite IH. naive_solver.
Qed.

(** Once no state is reachable, none is later. *)
Lemma succ_empty N b : in_range N -> succ N ∅ b = ∅.
Proof.
  intros HN. apply set_eq. intros t. split; [|set_solver]. unfold succ. rewrite closure_elem by done.
  intros (s & Hs & _). exfalso. apply (by_byte_spec N ∅) in Hs as (x & bs & Hx & _). set_solver.
Qed.

(** ** The rows of the table *)

Definition byte_sets (N : nfa) : Prop := forall s bs t b, (bs, t) ∈ sym_of N s -> b ∈ bs -> 0 <= b < 256.

Lemma id_of_some order x j : id_of order x = Some j -> order !! j = Some x.
Proof.
  unfold id_of. destruct (list_find _ order) as [[k y]|] eqn:E; [|done]. intros [= ->].
  apply list_find_Some in E as (H & -> & _). done.
Qed.

(** Marking the state set at [idx]. *)
Lemma accs_step idx i (order e : list (gset nat)) (accs : gset nat) (acc : nat) (cur : gset nat) :
  order !! idx = Some cur -> (idx < length order)%nat ->
  (forall i, i ∈ accs <-> (i < idx)%nat /\ exists X, order !! i = Some X /\ acc ∈ X) ->
  i ∈ (if decide (acc ∈ cur) then accs ∪ {[idx]} else accs) <->
  (i < idx + 1)%nat /\ exists X, (order ++ e) !! i = Some X /\ acc ∈ X.
Proof.
  intros E Hlt Haccs. pose proof (Haccs i) as H0. split.
  - intros Hi. assert ((i < idx)%nat /\ (exists X, order !! i = Some X /\ acc ∈ X) \/ (i = idx /\ acc ∈ cur)) as [[Hl (X & HX & Ha)]|[-> Ha]].
    { destruct (decide (acc ∈ cur)); [|left; by apply H0].
      apply elem_of_union in Hi as [Hi| ->%elem_of_singleton]; [left; by apply H0 | by right]. }
    + split; [lia|]. exists X. by rewrite lookup_app_l by lia.
    + split; [lia|]. exists cur. by rewrite lookup_app_l by lia.
  - intros [Hl (X & HX & Ha)]. rewrite lookup_app_l in HX by lia. destruct (decide (i = idx)) as [->|Hne].
    + assert (X = cur) as -> by congruence. rewrite decide_True by done. set_solver.
    + assert (i ∈ accs) as Hi by (apply H0; split; [lia | by exists X]). destruct (decide _); set_solver.
Qed.

Section Table.
Context (N : nfa) (HN : in_range N) (HB : byte_sets N) (max : nat).

(** One entry: dead, or the index of the successor set. *)
Definition entry_ok (order : list (gset nat)) (X : gset nat) (v : Z) (b : Z) : Prop :=
  (by_byte N X !! b = None /\ v = -1) \/
  (by_byte N X !! b <> None /\ exists j, v = Z.of_nat j /\ order !! j = Some (succ N X b)).

Definition row_ok (order : list (gset nat)) (X : gset nat) (row : list Z) : Prop :=
  forall b, 0 <= b < 256 -> entry_ok order X (nth (Z.to_nat b) row (-1)) b.

Lemma subset_byte_inv order row b T order' row' :
  0 <= b < 256 -> length row = 256%nat -> (length order <= max)%nat ->
  subset_byte N max (order, row) (b, T) = Ok (order', row') ->
  (exists e, order' = order ++ e) /\ (length order' <= max)%nat /\
  exists j, row' = <[Z.to_nat b := Z.of_nat j]> row /\ order' !! j = Some (eps_set N T).
Proof.
  intros Hb Hr Ho H. unfold subset_byte, set_row in H. rewrite (closure_ok N HN) in H. cbn [mbind result_bind] in H.
  replace ((-256 <=? b) && (b <? 256)) with true in H by lia.
  rewrite Z.mod_small in H by lia.
  destruct (id_of order (eps_set N T)) as [j|] eqn:E.
  - cbn [mbind result_bind] in H. simplify_eq. apply id_of_some in E.
    split_and!; [exists []; by rewrite app_nil_r | done | by exists j].
  - destruct (max <=? length order)%nat eqn:Em; [done|]. apply Nat.leb_gt in Em.
    cbn [mbind result_bind] in H. simplify_eq.
    split_and!; [by eexists | rewrite length_app; cbn; lia|].
    exists (length order). split; [done|]. by rewrite lookup_app_r, Nat.sub_diag by lia.
Qed.

Lemma subset_bytes_inv l : forall order row order' row',
  NoDup l.*1 -> (forall b T, (b, T) ∈ l -> 0 <= b < 256) -> length row = 256%nat -> (length order <= max)%nat ->
  foldM_res (subset_byte N max) (order, row) l = Ok (order', row') ->
  (exists e, order' = order ++ e) /\ length row' = 256%nat /\ (length order' <= max)%nat /\
  forall b, 0 <= b < 256 ->
    (b ∉ l.*1 /\ nth (Z.to_nat b) row' (-1) = nth (Z.to_nat b) row (-1)) \/
    (exists T j, (b, T) ∈ l /\ nth (Z.to_nat b) row' (-1) = Z.of_nat j /\ order' !! j = Some (eps_set N T)).
Proof.
  induction l as [|[b0 T0] l IH]; intros order row order' row' Hnd Hl Hr Ho H; cbn [foldM_res] in H.
  - simplify_eq. split_and!; [exists []; by rewrite app_nil_r | done | done |]. intros b _. left.
    split; [by apply not_elem_of_nil | done].
  - cbn in Hnd. apply NoDup_cons in Hnd as [Hb0 Hnd].
    apply bind_ok_inv in H as ([o1 r1] & H1 & H).
    assert (0 <= b0 < 256) as Hb by (eapply Hl; left).
    apply subset_byte_inv in H1 as ([e1 ->] & Ho1 & j0 & -> & Hj0); [|done..].
    apply IH in H as ([e2 ->] & Hr2 & Ho2 & H2); [|done | intros; eapply Hl; by right | by rewrite length_insert | done].
    split_and!; [by exists (e1 ++ e2); rewrite app_assoc | done | done |]. intros b Hbb.
    destruct (H2 b Hbb) as [[Hn He]|(T & j & Hin & He & Hj)].
    + destruct (decide (b = b0)) as [->|Hne].
      * right. exists T0, j0. split_and!; [left | | by rewrite lookup_app_l by (by eapply lookup_lt_Some)].
        rewrite He, nth_lookup, list_lookup_insert_eq by lia. done.
      * left. split; [cbn; intros [?|?]%elem_of_cons; done|].
        rewrite He, !nth_lookup, list_lookup_insert_ne by lia. done.
    + right. exists T, j. split_and!; [by right | done | done].
Qed.

Lemma by_byte_keys X b T : (b, T) ∈ map_to_list (by_byte N X) -> 0 <= b < 256.
Proof.
  intros H%elem_of_map_to_list. destruct (by_byte_spec N X) as [H1 H2].
  destruct (set_choose_L T (H1 b T H)) as [t Ht].
  assert (t ∈ targets (by_byte N X) b) as Htt by (unfold targets; by rewrite H).
  apply H2 in Htt as (s & bs & _ & Hin & Hb). by eapply HB.
Qed.

Lemma subset_row order X order' row :
  (length order <= max)%nat ->
  foldM_res (subset_byte N max) (order, replicate 256 (-1)) (map_to_list (by_byte N X)) = Ok (order', row) ->
  (exists e, order' = order ++ e) /\ (length order' <= max)%nat /\ row_ok order' X row.
Proof.
  intros Ho H. apply subset_bytes_inv in H as (He & _ & Ho' & H); try done.
  - split_and!; [done | done |]. intros b Hb. destruct (H b Hb) as [[Hn Hv]|(T & j & Hin & Hv & Hj)].
    + left. split.
      * destruct (by_byte N X !! b) as [T|] eqn:E; [|done]. exfalso. apply Hn.
        by apply elem_of_map_to_list, (list_elem_of_fmap_2 fst) in E.
      * rewrite Hv, nth_lookup, lookup_replicate_2 by lia. done.
    + right. apply elem_of_map_to_list in Hin. rewrite Hin. split; [done|]. exists j. split; [done|].
      unfold succ, targets. by rewrite Hin.
  - apply NoDup_fst_map_to_list.
  - apply by_byte_keys.
Qed.

Lemma entry_ok_app order e X v b : entry_ok order X v b -> entry_ok (order ++ e) X v b.
Proof.
  intros [?|(? & j & ? & Hj)]; [by left|]. right. split; [done|]. exists j. split; [done|].
  by rewrite lookup_app_l by (by eapply lookup_lt_Some).
Qed.

(** The finished table. *)
Record table_ok (acc : nat) (order : list (gset nat)) (d : dfa) : Prop := {
  to_rows : forall i X, order !! i = Some X -> row_ok order X (nth i (trans d) []);
  to_acc : forall i X, order !! i = Some X -> i ∈ accept d <-> acc ∈ X;
  to_start : start d = 0%nat;
  to_size : n_states d = length order }.

Lemma subset_bytes_err l : forall st x, foldM_res (subset_byte N max) st l = Err x -> x = Unsupported.
Proof.
  induction l as [|e l IH]; intros st x H; cbn [foldM_res] in H; [done|].
  destruct (subset_byte N max st e) as [st'|y] eqn:E; cbn [mbind result_bind] in H; [by eapply IH|].
  injection H as <-. destruct st as [order row], e as [b T]. unfold subset_byte, set_row in E. rewrite (closure_ok N HN) in E. cbn [mbind result_bind] in E.
  repeat case_match; cbn in E; congruence.
Qed.

Lemma subset_loop_inv acc fuel : forall idx order tr accs,
  (length order <= max)%nat -> (idx + fuel = max)%nat -> length tr = idx -> (idx <= length order)%nat ->
  (forall i X, (i < idx)%nat -> order !! i = Some X -> row_ok order X (nth i tr [])) ->
  (forall i, i ∈ accs <-> (i < idx)%nat /\ exists X, order !! i = Some X /\ acc ∈ X) ->
  match subset_loop fuel N acc max idx order tr accs with
  | Ok d => exists e, table_ok acc (order ++ e) d
  | Err x => x = Unsupported
  end.
Proof.
  induction fuel as [|k IH]; intros idx order tr accs Ho Hf Htr Hidx Hrows Haccs; cbn [subset_loop].
  all: destruct (order !! idx) as [cur|] eqn:E.
  1: apply lookup_lt_Some in E; lia.
  1,3: apply lookup_ge_None in E; exists []; rewrite app_nil_r; constructor; cbn; try done;
    [intros i X Hi; apply Hrows; [|done]; apply lookup_lt_Some in Hi; lia|];
    intros i X Hi; rewrite (Haccs i), Hi; apply lookup_lt_Some in Hi; split;
    [intros (_ & Y & [= ->] & ?); done | intros ?; split; [lia | by exists X]].
  assert (idx < length order)%nat as Hlt by (by eapply lookup_lt_Some).
  destruct (foldM_res _ _ _) as [[order1 row]|x] eqn:Ef; cbn [mbind result_bind]; [|by eapply subset_bytes_err].
  apply subset_row in Ef as ([e ->] & Ho1 & Hrow); [|done].
  assert (forall i, (i < idx + 1)%nat -> (order ++ e) !! i = order !! i) as Hlk
    by (intros i Hi; by rewrite lookup_app_l by lia).
  specialize (IH (idx + 1)%nat (order ++ e) (tr ++ [row]) (if decide (acc ∈ cur) then accs ∪ {[idx]} else accs)).
  destruct (subset_loop k _ _ _ _ _ _ _) as [d|x].
  - destruct IH as [e2 He2]; [done | lia | rewrite length_app; cbn; lia | rewrite length_app; lia | | | exists (e ++ e2); by rewrite app_assoc].
    + intros i X Hi HX. rewrite Hlk in HX by done. destruct (decide (i = idx)) as [->|Hne].
      * assert (X = cur) as -> by congruence. rewrite app_nth2, Htr, Nat.sub_diag by lia. exact Hrow.
      * rewrite app_nth1 by lia. intros b Hb. apply entry_ok_app. apply (Hrows i X); [lia | done | done].
    + intros i. apply (accs_step idx i order e accs acc cur); auto; lia.
  - apply IH; [done | lia | rewrite length_app; cbn; lia | rewrite length_app; lia | |].
    + intros i X Hi HX. rewrite Hlk in HX by done. destruct (decide (i = idx)) as [->|Hne].
      * assert (X = cur) as -> by congruence. rewrite app_nth2, Htr, Nat.sub_diag by lia. exact Hrow.
      * rewrite app_nth1 by lia. intros b Hb. apply entry_ok_app. apply (Hrows i X); [lia | done | done].
    + intros i. apply (accs_step idx i order e accs acc cur); auto; lia.
Qed.

Lemma subset_construct_inv s acc :
  (1 <= max)%nat ->
  match _subset_construct N s acc max with
  | Ok d => exists order, order !! 0%nat = Some (eps_set N {[ s ]}) /\ table_ok acc order d
  | Err x => x = Unsupported
  end.
Proof.
  intros Hm. unfold _subset_construct. rewrite (closure_ok N HN). cbn [mbind result_bind].
  pose proof (subset_loop_inv acc max 0 [eps_set N {[ s ]}] [] ∅) as H.
  destruct (subset_loop _ _ _ _ _ _ _ _) as [d|x].
  - destruct H as [e He]; [cbn; lia | lia | done | lia | intros; lia | |].
    + intros i. split; [set_solver | intros [? _]; lia].
    + eexists. split; [|exact He]. reflexivity.
  - apply H; [cbn; lia | lia | done | lia | intros; lia |]. intros i. split; [set_solver | intros [? _]; lia].
Qed.
End Table.

(** ** Running the table *)

(** What [_dfa_match_at] promises: [-1] when no prefix of the data from [i] is in
    the language, the end of the longest one otherwise. *)
Definition longest (L : bytes -> Prop) (data : bytes) (i e : Z) : Prop :=
  let rest := drop (Z.to_nat i) data in
  (e = -1 /\ forall k, (k <= length rest)%nat -> ~ L (take k rest)) \/
  (exists k, (k <= length rest)%nat /\ e = i + Z.of_nat k /\ L (take k rest) /\
     forall k', (k < k' <= length rest)%nat -> ~ L (take k' rest)).

Section Run.
Context (N : nfa) (s acc : nat) (order : list (gset nat)) (d : dfa).
Context (HN : in_range N) (H0 : order !! 0%nat = Some (eps_set N {[ s ]})) (HT : table_ok N acc order d).

Lemma reach_snoc w b : reach N s (w ++ [b]) = succ N (reach N s w) b.
Proof. unfold reach. by rewrite fold_left_app. Qed.

Lemma reach_empty_app w w' : reach N s w = ∅ -> reach N s (w ++ w') = ∅.
Proof.
  intros He. induction w' as [|b w' IH] using rev_ind; [by rewrite app_nil_r|].
  by rewrite app_assoc, reach_snoc, IH, succ_empty.
Qed.

Lemma by_byte_none_succ X b : by_byte N X !! b = None -> succ N X b = ∅.
Proof.
  intros Hn. apply set_eq. intros t. split; [|set_solver]. unfold succ, targets. rewrite Hn. cbn [default].
  rewrite closure_elem by done. intros (x & Hx & _). set_solver.
Qed.

Lemma match_loop_spec data : forall w state last j,
  bytes_ok data -> order !! state = Some (reach N s w) ->
  let r := match_loop d state last j data in
  (r = last /\ forall k, (1 <= k <= length data)%nat -> acc ∉ reach N s (w ++ take k data)) \/
  (exists k, (1 <= k <= length data)%nat /\ r = j + Z.of_nat k /\ acc ∈ reach N s (w ++ take k data) /\
     forall k', (k < k' <= length data)%nat -> acc ∉ reach N s (w ++ take k' data)).
Proof.
  induction data as [|b rest IH]; intros w state last j Hb Hst; cbn [match_loop].
  { left. split; [done|]. cbn. intros k Hk. lia. }
  apply Forall_cons in Hb as [Hb0 Hb]. unfold is_byte in Hb0.
  pose proof (to_rows _ _ _ _ HT state _ Hst b Hb0) as Hrow. unfold next_state.
  destruct Hrow as [[Hn ->]|(_ & j' & -> & Hj')].
  - left. cbn. split; [done|]. intros k Hk. destruct k as [|k]; [lia|].
    change (take (S k) (b :: rest)) with ([b] ++ take k rest). rewrite app_assoc, reach_empty_app; [set_solver|].
    by rewrite reach_snoc, by_byte_none_succ.
  - assert ((Z.of_nat j' <? 0) = false) as Hj0 by (apply Z.ltb_ge, Nat2Z.is_nonneg). rewrite Hj0, Nat2Z.id. rewrite <- reach_snoc in Hj'.
    pose proof (to_acc _ _ _ _ HT j' _ Hj') as Hacc.
    assert (forall k, w ++ take (S k) (b :: rest) = (w ++ [b]) ++ take k rest) as Htk
      by (intros k; by rewrite <- app_assoc).
    assert (w ++ take 1 (b :: rest) = w ++ [b]) as Ht1 by (cbn; by rewrite take_0).
    destruct (IH (w ++ [b]) j' (if decide (j' ∈ accept d) then j + 1 else last) (j + 1) Hb Hj')
      as [[-> Hno]|(k & Hk & -> & Hin & Hno)].
    + destruct (decide (j' ∈ accept d)) as [Ha|Ha].
      * right. exists 1%nat. rewrite Ht1. split_and!; [lia | cbn; lia | lia | by apply Hacc |].
        intros [|k'] Hk'; [lia|]. rewrite Htk. apply Hno. cbn in Hk'. lia.
      * left. split; [done|]. intros [|[|k]] Hk; [lia | rewrite Ht1; by rewrite <- Hacc |].
        rewrite Htk. apply Hno. cbn in Hk. lia.
    + right. exists (S k). rewrite Htk. split_and!; [lia | cbn; lia | lia | done |].
      intros [|k'] Hk'; [lia|]. rewrite Htk. apply Hno. cbn in Hk'. lia.
Qed.

Lemma match_at_longest data i :
  bytes_ok data -> longest (fun w => path N s w acc) data i (_dfa_match_at d data i).
Proof.
  intros Hb. unfold _dfa_match_at, longest. set (rest := drop (Z.to_nat i) data).
  assert (bytes_ok rest) as Hr by (by apply Forall_drop). rewrite (to_start _ _ _ _ HT).
  pose proof (to_acc _ _ _ _ HT 0%nat _ H0) as Ha0.
  destruct (match_loop_spec rest [] 0 (if decide (0%nat ∈ accept d) then i else -1) i Hr H0)
    as [[-> Hno]|(k & Hk & -> & Hin & Hno)].
  - destruct (decide (0%nat ∈ accept d)) as [Ha|Ha].
    + right. exists 0%nat. split_and!; [lia | lia | |].
      * rewrite take_0. apply (reach_elem N s [] acc HN). by apply Ha0.
      * intros k' Hk' Hp. apply (Hno k'); [lia|]. by apply reach_elem.
    + left. split; [done|]. intros [|k] Hk Hp.
      * apply Ha, Ha0. rewrite take_0 in Hp. by apply (reach_elem N s [] acc HN).
      * apply (Hno (S k)); [lia|]. by apply reach_elem.
  - right. exists k. split_and!; [lia | done | by apply reach_elem |].
    intros k' Hk' Hp. apply (Hno k'); [lia|]. by apply reach_elem.
Qed.
End Run.

(** ** From pattern to match *)

(** Every byte set of the tree holds bytes only (a signed [\x] escape is the way to
    leave that range). *)
Fixpoint byte_tree (r : re) : bool :=
  match r with
  | RNone | REps => true
  | RSet bs => bool_decide (set_Forall (fun b => 0 <= b < 256) bs)
  | RCat r1 r2 | RAlt r1 r2 => byte_tree r1 && byte_tree r2
  | RQuant r _ => byte_tree r
  end.

Lemma byte_tree_sets r bs b : byte_tree r = true -> in_sets bs r -> b ∈ bs -> 0 <= b < 256.
Proof.
  induction r as [| |bs'|r1 IH1 r2 IH2|r1 IH1 r2 IH2|r IH q]; cbn [byte_tree in_sets]; [done | done | | | | exact IH].
  - intros H -> Hb. apply bool_decide_eq_true in H. by apply H.
  - rewrite andb_true_iff. intros [? ?] [?|?]; auto.
  - rewrite andb_true_iff. intros [? ?] [?|?]; auto.
Qed.

Lemma wf_init : wf nfa_init.
Proof. reflexivity. Qed.

(** The automaton of a parsed pattern. *)
Lemma parse_frag p r s a N :
  ast p = Ok r -> parse p nfa_init = Ok ((s, a), N) -> wf N /\ frag N 0 (size N) (s, a) r.
Proof.
  unfold ast, parse. intros Ha Hn.
  pose proof (proj1 (parser_sim (parse_fuel p)) p nfa_init wf_init) as H.
  destruct (_alt (parse_fuel p) p tt) as [[[r' l] []]|], (_alt (parse_fuel p) p nfa_init) as [[[f l'] N']|];
    cbn [sim mbind result_bind] in *; try done.
  destruct H as (-> & (W & _ & _) & G). destruct l; [|done]. cbn in Ha. simplify_eq. done.
Qed.

Lemma frag_in_range N f r : wf N -> frag N 0 (size N) f r -> in_range N.
Proof.
  intros Hw Hf s t Ht. destruct (decide (s < size N)%nat) as [Hs|Hs].
  - apply (proj1 (fr_closed _ _ _ _ _ Hf s ltac:(lia))) in Ht. lia.
  - rewrite eps_of_fresh in Ht by lia. set_solver.
Qed.

Lemma frag_byte_sets N f r : wf N -> frag N 0 (size N) f r -> byte_tree r = true -> byte_sets N.
Proof.
  intros Hw Hf Hr s bs t b Ht Hb. destruct (decide (s < size N)%nat) as [Hs|Hs].
  - eapply byte_tree_sets; [exact Hr | | exact Hb]. apply (fr_sets _ _ _ _ _ Hf s bs t); [lia | done].
  - rewrite sym_of_fresh in Ht by (done || lia). by apply not_elem_of_nil in Ht.
Qed.

(** Both readings of a pattern fail together. *)
Lemma parse_ast p f N : parse p nfa_init = Ok (f, N) -> exists r, ast p = Ok r.
Proof.
  unfold ast, parse. intros Hn.
  pose proof (proj1 (parser_sim (parse_fuel p)) p nfa_init wf_init) as H.
  destruct (_alt (parse_fuel p) p tt) as [[[r' l] []]|], (_alt (parse_fuel p) p nfa_init) as [[[f' l'] N']|];
    cbn [sim mbind result_bind] in *; try done.
  destruct H as (-> & _ & _). destruct l; [|done]. cbn. by eexists.
Qed.

Lemma compile_inv p d :
  _compile p = PathDfa d ->
  exists s a N, parse p nfa_init = Ok ((s, a), N) /\ _subset_construct N s a max_dfa_states = Ok d.
Proof.
  unfold _compile. destruct (_FORCE_RE p); [done|].
  destruct (parse p nfa_init) as [[[s a] N]|] eqn:E; cbn [mbind result_bind]; [|done].
  destruct (_subset_construct _ _ _ _) eqn:E2; [|done]. intros [= ->]. eauto.
Qed.

Lemma compile_longest_aux p r d data i :
  ast p = Ok r -> byte_tree r = true -> _compile p = PathDfa d -> bytes_ok data ->
  longest (lang r) data i (_dfa_match_at d data i).
Proof.
  intros Ha Hr Hd Hb. apply compile_inv in Hd as (s & a & N & Hp & Hs).
  destruct (parse_frag _ _ _ _ _ Ha Hp) as [Hw Hf].
  pose proof (frag_in_range _ _ _ Hw Hf) as HN. pose proof (frag_byte_sets _ _ _ Hw Hf Hr) as HB.
  assert (1 <= max_dfa_states)%nat as Hm by (apply Nat.leb_le; reflexivity).
  pose proof (subset_construct_inv N HN HB max_dfa_states s a Hm) as H.
  rewrite Hs in H. destruct H as (order & H0 & HT).
  pose proof (match_at_longest N s a order d HN H0 HT data i Hb) as Hl.
  pose proof (fr_lang _ _ _ _ _ Hf) as HL. cbn in HL. unfold longest in *. by setoid_rewrite <- HL.
Qed.

(** ** All spans *)

Record spans_ok (L : bytes -> Prop) (data : bytes) (i : Z) (spans : list (Z * Z)) : Prop := {
  so_match : forall a b, (a, b) ∈ spans -> i <= a < b /\ b <= blen data /\ L (slice a b data) /\ longest L data a b;
  so_sorted : StronglySorted (fun p q => p.2 <= q.1) spans;
  so_complete : forall a b, i <= a < b -> b <= blen data -> L (slice a b data) ->
                  exists s t, (s, t) ∈ spans /\ s <= a < t }.

Lemma slice_take (data : bytes) a b : 0 <= a -> a <= b -> slice a b data = take (Z.to_nat (b - a)) (drop (Z.to_nat a) data).
Proof. reflexivity. Qed.

(** What one call of the matcher says about the matches that start at [i]. *)
Lemma longest_span L data i e :
  0 <= i < blen data -> longest L data i e ->
  (i < e -> e <= blen data /\ L (slice i e data)) /\
  (e <= i -> forall b, i < b -> b <= blen data -> ~ L (slice i b data)).
Proof.
  intros Hi [[-> Hno]|(k & Hk & -> & Hin & Hno)]; rewrite length_drop in *; unfold blen in *.
  - split; [lia|]. intros _ b Hb Hn HL. apply (Hno (Z.to_nat (b - i))); [lia | exact HL].
  - split.
    + intros Hlt. split; [lia|]. unfold slice. by replace (Z.to_nat (i + Z.of_nat k - i)) with k by lia.
    + intros Hle b Hb Hn HL. apply (Hno (Z.to_nat (b - i))); [lia | exact HL].
Qed.

Lemma find_loop_spec d L data :
  (forall i, longest L data i (_dfa_match_at d data i)) ->
  forall fuel i, 0 <= i -> blen data - i <= Z.of_nat fuel -> spans_ok L data i (find_loop fuel d data i).
Proof.
  intros HL. induction fuel as [|k IH]; intros i Hi Hf; cbn [find_loop].
  { constructor; [by intros a b ?%not_elem_of_nil | constructor | intros a b Hab Hb; lia]. }
  destruct (i <? blen data) eqn:Ei; zb.
  2: { constructor; [by intros a b ?%not_elem_of_nil | constructor | intros a b Hab Hb; lia]. }
  pose proof (HL i) as Hl. set (e := _dfa_match_at d data i) in *.
  destruct (longest_span L data i e ltac:(lia) Hl) as [Hyes Hno].
  destruct (e >? i) eqn:Ee; rewrite Z.gtb_ltb in Ee; zb.
  - destruct (Hyes ltac:(lia)) as [He1 He2]. destruct (IH e ltac:(lia) ltac:(lia)) as [S1 S2 S3]. constructor.
    + intros a b [[= -> ->]|Hin]%elem_of_cons; [split_and!; [lia | lia | lia | done | done]|].
      apply S1 in Hin as (? & ? & ? & ?). split_and!; [lia | lia | lia | done | done].
    + constructor; [done|]. apply Forall_forall. intros [a b] Hin. apply S1 in Hin as (? & _). cbn. lia.
    + intros a b Hab Hb HLab. destruct (decide (a < e)).
      * exists i, e. split; [left | lia].
      * destruct (S3 a b ltac:(lia) Hb HLab) as (s & t & Hin & Hst). exists s, t. split; [by right | done].
  - destruct (IH (i + 1) ltac:(lia) ltac:(lia)) as [S1 S2 S3]. constructor; [|done|].
    + intros a b Hin. apply S1 in Hin as (? & ? & ? & ?). split_and!; [lia | lia | lia | done | done].
    + intros a b Hab Hb HLab. destruct (decide (a = i)) as [->|Hne].
      * exfalso. apply (Hno ltac:(lia) b); [lia | done | done].
      * by apply (S3 a b); [lia|..].
Qed.

(**  [find_all] on a table: every span it reports is a non-empty longest match
    at its start, spans are in order and do not overlap, and every non-empty match
    in the data starts inside a reported span; the loop ends. *)
Theorem find_all_spans fi p r d data :
  ast p = Ok r -> byte_tree r = true -> _compile p = PathDfa d -> bytes_ok data ->
  spans_ok (lang r) data 0 (find_all fi p data).
Proof.
  intros Ha Hr Hd Hb. unfold find_all. rewrite Hd. apply find_loop_spec; [|lia | unfold blen; lia].
  intros i. by apply (compile_longest_aux p).
Qed.

(** ** Examples and limits *)

Definition evil : pystr := lit "evil[0-9]+\.com".
Definition evil_data : bytes := lit "callback evil12345.com end".

(** The facts about the example that evaluation settles. *)
Lemma evil_facts :
  match ast evil, _compile evil with
  | Ok r, PathDfa d => byte_tree r && (_dfa_match_at d evil_data 9 =? 22)
  | _, _ => false
  end = true.
Proof. vm_compute. reflexivity. Qed.

Lemma evil_bytes : bytes_ok evil_data.
Proof. refine (bool_decide_unpack (bytes_ok evil_data) _). vm_compute. exact I. Qed.

Lemma find_all_spans_witness :
  exists r, ast evil = Ok r /\ spans_ok (lang r) evil_data 0 (find_all (fun _ _ => []) evil evil_data) /\
    find_all (fun _ _ => []) evil evil_data = [(9, 22)].
Proof.
  pose proof evil_facts as H.
  destruct (ast evil) as [r|e] eqn:Ea; [|discriminate H].
  destruct (_compile evil) as [d|] eqn:Ed; [|discriminate H].
  apply andb_true_iff in H as [H1 _].
  exists r. split; [reflexivity|]. split; [|vm_compute; reflexivity].
  apply (find_all_spans (fun _ _ => []) evil r d evil_data Ea H1 Ed evil_bytes).
Defined.

(** The hexadecimal escape accepts a sign: the pattern [\x-1] compiles to a table
    that matches the byte 0xff. *)
Lemma signed_hex_escape :
  match _compile (lit "\x-1") with PathDfa d => _dfa_match_at d [255] 0 | PathRe => -1 end = 1.
Proof. vm_compute. reflexivity. Qed.

Lemma subset_bytes_len N max l : in_range N -> forall st st',
  (length st.1 <= max)%nat -> foldM_res (subset_byte N max) st l = Ok st' -> (length st'.1 <= max)%nat.
Proof.
  intros HN. induction l as [|[b T] l IH]; intros [order row] st' Ho H; cbn [foldM_res] in H; [by simplify_eq|].
  apply bind_ok_inv in H as ([o1 r1] & H1 & H). apply (IH (o1, r1) st'); [|done]. cbn.
  unfold subset_byte in H1. rewrite (closure_ok N HN) in H1. cbn [mbind result_bind] in H1. destruct (id_of _ _); [inv_res; cbn in *; lia|].
  destruct (max <=? length order)%nat eqn:E; [done|]. apply Nat.leb_gt in E. inv_res. rewrite length_app. cbn. lia.
Qed.

Lemma subset_loop_fuel N acc max fuel : in_range N -> forall idx order tr accs,
  (length order <= max)%nat -> (idx + fuel = max)%nat -> subset_loop fuel N acc max idx order tr accs <> Err OutOfFuel.
Proof.
  intros HN. induction fuel as [|k IH]; intros idx order tr accs Ho Hf; cbn [subset_loop];
    (destruct (order !! idx) as [cur|] eqn:E; [|done]); [apply lookup_lt_Some in E; lia|].
  destruct (foldM_res _ _ _) as [[order1 row]|x] eqn:Ef; cbn [mbind result_bind].
  - apply subset_bytes_len in Ef; [|done..]. apply IH; [done | lia].
  - apply subset_bytes_err in Ef as ->; done.
Qed.

(** The body of [_RegexDFA._compile] past the fallback test: the table, or the
    reason there is none. *)
Definition compile_result (p : pystr) : result perr dfa :=
  '((s, a), N) ← parse p nfa_init; _subset_construct N s a max_dfa_states.

(** C35.  Compilation ends for every pattern: neither the parser, nor the loop over the stack in the ε-closure, nor the
    subset construction ever runs out of the rounds its bound gives it, and each of them fails when it does; so a pattern
    goes to the fallback only for a construct the compiler refuses or a table of more than 4096 states. *)
Theorem compiler_terminates p :
  compile_result p <> Err OutOfFuel.
Proof.
  unfold compile_result.
  pose proof (parse_not_fuel p nfa_init) as H. destruct (parse p nfa_init) as [[[s a] N]|e] eqn:Ep; cbn [mbind result_bind].
  - destruct (parse_ast _ _ _ Ep) as [r Hr]. destruct (parse_frag _ _ _ _ _ Hr Ep) as [Hw Hf].
    pose proof (frag_in_range _ _ _ Hw Hf) as HN. unfold _subset_construct. rewrite (closure_ok N HN). cbn [mbind result_bind].
    apply subset_loop_fuel; [done| |lia]. cbn [length]. apply Nat.leb_le. reflexivity.
  - congruence.
Qed.
