(* ===== verification/RegexGrammar.v ===== *)
(** * What a pattern means

    A grammar of patterns, written down without the parser: which texts are an escape, a class, an atom, a repetition, a
    concatenation and an alternation, and the syntax tree each of them stands for.  The recursive-descent parser of
    RegexDfa reads every pattern it accepts as this grammar does, so that the end-to-end theorem on the compiled table is
    about the text of the pattern and not about what the parser made of it. *)

From stdpp Require Import sets gmap.
From S2P Require Import Prelude PyStr RegexDfa RegexCorrect RegexTable.

(** ** The grammar *)

(** The text after a backslash. *)
Inductive g_escape : pystr -> gset Z -> Prop :=
| ge_digit : g_escape (lit "d") _cls_digit
| ge_not_digit : g_escape (lit "D") (_ALL ∖ _cls_digit)
| ge_word : g_escape (lit "w") _cls_word
| ge_not_word : g_escape (lit "W") (_ALL ∖ _cls_word)
| ge_space : g_escape (lit "s") _cls_space
| ge_not_space : g_escape (lit "S") (_ALL ∖ _cls_space)
| ge_hex c1 c2 v : int16 c1 c2 = Some v -> g_escape (lit "x" ++ [c1; c2]) {[ v ]}
| ge_simple e v : _SIMPLE_ESCAPE e = Some v -> g_escape [e] {[ v ]}.

(** A member of a class written as one byte: itself or an escape for a single byte. *)
Inductive g_member : pystr -> Z -> Prop :=
| gm_byte c : c <= 255 -> c <> 92 -> g_member [c] c
| gm_escape t v : g_escape t {[ v ]} -> g_member (92 :: t) v.
(** The upper end of a range, which may be any character. *)
Inductive g_upper : pystr -> Z -> Prop :=
| gu_char c : c <> 92 -> c <> 93 -> g_upper [c] c
| gu_escape t v : g_escape t {[ v ]} -> g_upper (92 :: t) v.

(** The text between the brackets of a class.  A closing bracket is a member only when it comes first; a member that a
    dash and another character follow begins a range. *)
Definition no_range (s : pystr) : Prop := forall x t, s <> 45 :: x :: t.
Inductive g_items : bool -> pystr -> gset Z -> Prop :=
| gi_end : g_items false [] ∅
| gi_one first t v s ms : g_member t v -> (head t = Some 93 -> first = true) -> no_range s -> g_items false s ms ->
    g_items first (t ++ s) ({[ v ]} ∪ ms)
| gi_range first t lo u hi s ms : g_member t lo -> (head t = Some 93 -> first = true) -> g_upper u hi -> lo <= hi ->
    g_items false s ms -> g_items first (t ++ 45 :: u ++ s) (range lo (hi + 1) ∪ ms)
| gi_set first t bs s ms : g_escape t bs -> single bs = None -> g_items false s ms -> g_items first (92 :: t ++ s) (bs ∪ ms).
Inductive g_class : pystr -> gset Z -> Prop :=
| gc_in s bs : g_items true s bs -> head s <> Some 94 -> bs <> ∅ -> g_class s bs
| gc_not_in s bs : g_items true s bs -> _ALL ∖ bs <> ∅ -> g_class (94 :: s) (_ALL ∖ bs).

(** Characters that do not stand for themselves at the start of an atom. *)
Definition meta (c : Z) : Prop := c ∈ lit "([.^$)\|".

(** What may follow a bare atom ([false]) and a quantified one ([true]) in a concatenation. *)
Definition follows (quantified : bool) (s : pystr) : Prop :=
  match s with [] => True | c :: _ => quant_of c = None /\ (quantified = false -> c <> 123) end.

Definition cat_tree (rs : list re) : re := match rs with [] => REps | r :: rs => fold_left RCat rs r end.
Definition alt_tree (rs : list re) : re := match rs with [] => RNone | r :: rs => fold_left RAlt rs r end.

Inductive g_atom : pystr -> re -> Prop :=
| gt_group s rs : g_alts s rs -> head s <> Some 63 -> g_atom (40 :: s ++ [41]) (alt_tree rs)
| gt_class s bs : g_class s bs -> g_atom (91 :: s ++ [93]) (RSet bs)
| gt_any : g_atom [46] (RSet _ALL)
| gt_escape t bs : g_escape t bs -> g_atom (92 :: t) (RSet bs)
| gt_byte c : c <= 255 -> ~ meta c -> g_atom [c] (RSet {[ c ]})
with g_repeat : bool -> pystr -> re -> Prop :=
| gr_atom t r : g_atom t r -> g_repeat false t r
| gr_quant t r c q : g_atom t r -> quant_of c = Some q -> g_repeat true (t ++ [c]) (RQuant r q)
with g_concat : pystr -> list re -> Prop :=
| gk_end : g_concat [] []
| gk_cons b t r s rs : g_repeat b t r -> follows b s -> g_concat s rs -> g_concat (t ++ s) (r :: rs)
with g_alts : pystr -> list re -> Prop :=
| gl_one s rs : g_concat s rs -> g_alts s [cat_tree rs]
| gl_more s rs t l : g_concat s rs -> g_alts t l -> g_alts (s ++ 124 :: t) (cat_tree rs :: l).

(** The pattern [p] is the syntax tree [r]. *)
Definition denotes (p : pystr) (r : re) : Prop := exists rs, g_alts p rs /\ r = alt_tree rs.

(** ** The parser reads patterns by the grammar *)

Lemma escape_grammar rest bs rest' : _escape rest = Ok (bs, rest') -> exists t, rest = t ++ rest' /\ g_escape t bs.
Proof.
  unfold _escape. destruct rest as [|e rest]; [done|]. intros H.
  repeat match type of H with (if e =? ?k then _ else _) = _ =>
    destruct (Z.eqb_spec e k) as [->|_]; [first [injection H as <- <-; eexists [_]; split; [reflexivity|]; constructor | idtac]|] end.
  - destruct rest as [|c1 [|c2 rest]]; [done | done|]. destruct (int16 c1 c2) as [v|] eqn:E; [|done]. injection H as <- <-.
    exists (lit "x" ++ [c1; c2]). split; [done | by constructor].
  - destruct (_SIMPLE_ESCAPE e) as [v|] eqn:E; [|done]. injection H as <- <-. exists [e]. split; [done | by constructor].
Qed.

Lemma single_some bs v : single bs = Some v -> bs = {[ v ]}.
Proof.
  unfold single. intros H. destruct (elements bs) as [|x [|y l]] eqn:E; try done. injection H as ->. apply set_eq. intros y.
  by rewrite <- elem_of_elements, E, elem_of_singleton, list_elem_of_singleton.
Qed.

Lemma upper_grammar d rest hi rest' : d <> 93 -> class_hi (d :: rest) = Ok (hi, rest') ->
  exists u, d :: rest = u ++ rest' /\ g_upper u hi.
Proof.
  intros Hd. unfold class_hi. destruct (Z.eqb_spec d 92) as [->|Hne].
  - intros H. apply bind_ok_inv in H as ([esc rest1] & He & H). destruct (single esc) as [v|] eqn:E; [|done]. injection H as -> ->.
    destruct (escape_grammar _ _ _ He) as (t & -> & Ht). apply single_some in E as ->. exists (92 :: t). split; [done | by constructor].
  - intros [= -> ->]. exists [hi]. split; [done | by constructor].
Qed.

(** What follows a low bound: a range, or nothing that would begin one. *)
Lemma range_grammar lo members rest ms rest' : class_range lo members rest = Ok (ms, rest') ->
  (ms = members ∪ {[ lo ]} /\ rest' = rest /\ (forall x t, rest = 45 :: x :: t -> x = 93))
  \/ exists u hi, rest = 45 :: u ++ rest' /\ g_upper u hi /\ lo <= hi /\ ms = members ∪ range lo (hi + 1).
Proof.
  intros H.
  assert (Hcase : (exists d t, rest = 45 :: d :: t) \/ class_range lo members rest = Ok (members ∪ {[ lo ]}, rest) /\ forall x t, rest <> 45 :: x :: t).
  { destruct rest as [|c [|d t]]; [right; done | right; split; [|done] |].
    - unfold class_range. destruct c as [|c|c]; try done. by do 6 (destruct c as [c|c|]; try done).
    - destruct (Z.eq_dec c 45) as [->|Hc]; [left; eauto|]. right. split; [|congruence].
      unfold class_range. destruct c as [|c|c]; try done. by do 6 (destruct c as [c|c|]; try done). }
  destruct Hcase as [(d & t & ->)|[E Hno]].
  - cbn [class_range tail] in H. destruct (Z.eqb_spec d 93) as [->|Hd].
    + injection H as <- <-. left. split; [done|]. split; [done|]. by intros x t' [= <- _].
    + apply bind_ok_inv in H as ([hi rest1] & Hh & H). destruct (hi <? lo) eqn:El; [done|]. injection H as <- <-. zb.
      destruct (upper_grammar _ _ _ _ Hd Hh) as (u & Hu & Hg). right. exists u, hi. split; [by rewrite Hu | auto].
  - rewrite E in H. injection H as <- <-. left. split; [done|]. split; [done|]. intros x t Ht. by destruct (Hno x t).
Qed.

Lemma items_head first s ms : g_items first s ms -> first = false -> head s <> Some 93.
Proof.
  intros H Hf. destruct H as [|first t v s ms Hm Hh _ _|first t lo u hi s ms Hm Hh _ _ _|]; try done.
  all: destruct t as [|c t]; [by inversion Hm|]; intros E; cbn in E, Hh; specialize (Hh E); congruence.
Qed.

(** A dash with a closing bracket after it does not come up inside the brackets. *)
Lemma items_dash s ms : g_items false s ms -> forall t, s <> 45 :: 93 :: t.
Proof.
  intros H t' E. remember false as first eqn:Ef. destruct H as [|first t v s ms Hm Hh Hr Hs|first t lo u hi s ms Hm Hh _ _ _|]; try done.
  - destruct Hm as [c|]; [|done]. cbn in E. injection E as -> ->. by apply (items_head _ _ _ Hs).
  - destruct Hm; done.
Qed.

(** A member and what is read after it. *)
Lemma member_items lo t members rest ms rest' s ms' r2 first :
  g_member t lo -> (head t = Some 93 -> first = true) -> class_range lo members rest = Ok (ms, rest') ->
  rest' = s ++ 93 :: r2 -> g_items false s ms' ->
  exists s' bs, t ++ rest = s' ++ 93 :: r2 /\ g_items first s' bs /\ ms ∪ ms' = members ∪ bs.
Proof.
  intros Hm Hf Hr -> Hs. destruct (range_grammar _ _ _ _ _ Hr) as [(-> & <- & Hno)|(u & hi & -> & Hu & Hle & ->)].
  - exists (t ++ s), ({[lo]} ∪ ms'). split; [by rewrite <- app_assoc|]. split; [|set_solver]. constructor; try done.
    intros x s' ->. cbn in Hno. assert (x = 93) as -> by (eapply Hno; done). by apply (items_dash _ _ Hs s').
  - exists (t ++ 45 :: u ++ s), (range lo (hi + 1) ∪ ms'). split; [by rewrite <- app_assoc; cbn; rewrite <- app_assoc|].
    split; [by constructor | set_solver].
Qed.

Lemma class_grammar k : forall first members rest ms rest', class_loop k first members rest = Ok (ms, rest') ->
  exists s bs, rest = s ++ 93 :: rest' /\ ms = members ∪ bs /\ g_items first s bs.
Proof.
  induction k as [|k IH]; intros first members rest ms rest' H; [done|]. cbn [class_loop] in H. destruct rest as [|c rest]; [done|].
  destruct ((c =? 93) && negb first) eqn:E1.
  { apply andb_true_iff in E1 as [->%Z.eqb_eq ->%negb_true_iff]. injection H as <- <-. exists [], ∅. split; [done|]. split; [set_solver | constructor]. }
  assert (Hhead : c = 93 -> first = true) by (intros ->; by destruct first).
  destruct (Z.eqb_spec c 92) as [->|Hc].
  - apply bind_ok_inv in H as ([esc rest1] & He & H). destruct (escape_grammar _ _ _ He) as (t & -> & Ht).
    destruct (single esc) as [lo|] eqn:Es.
    + apply bind_ok_inv in H as ([m1 rest2] & Hr & H). apply single_some in Es as ->.
      destruct (IH _ _ _ _ _ H) as (s & bs & Hs & -> & Hg).
      destruct (member_items lo (92 :: t) _ _ _ _ _ _ _ first (gm_escape _ _ Ht) ltac:(done) Hr Hs Hg) as (s' & bs' & E & Hg' & ->). eauto.
    + destruct (IH _ _ _ _ _ H) as (s & bs & -> & -> & Hg). exists (92 :: t ++ s), (esc ∪ bs).
      split; [by cbn; rewrite <- app_assoc|]. split; [set_solver | by constructor].
  - destruct (c >? 255) eqn:E2; [done|]. apply bind_ok_inv in H as ([m1 rest2] & Hr & H).
    destruct (IH _ _ _ _ _ H) as (s & bs & Hs & -> & Hg). rewrite Z.gtb_ltb in E2. zb.
    destruct (member_items c [c] _ _ _ _ _ _ _ first (gm_byte c ltac:(lia) Hc) ltac:(cbn; intros [= ?]; auto) Hr Hs Hg) as (s' & bs' & E & Hg' & ->). eauto.
Qed.

Lemma char_class_grammar rest bs rest' : _char_class rest = Ok (bs, rest') -> exists s, rest = s ++ 93 :: rest' /\ g_class s bs.
Proof.
  unfold _char_class. intros H. apply bind_ok_inv in H as ([ms r1] & Hl & H). destruct (decide _) as [|Hne]; [done|]. injection H as <- <-.
  destruct (class_grammar _ _ _ _ _ _ Hl) as (s & bs & Hs & -> & Hg).
  replace (∅ ∪ bs) with bs in * by set_solver.
  destruct rest as [|c rest]; [by destruct s|]. cbn [at_char] in *. destruct (Z.eqb_spec c 94) as [->|Hc].
  - cbn [tail] in Hs. subst rest. exists (94 :: s). split; [done | by constructor].
  - exists s. split; [done|]. constructor; [done| |done]. destruct s as [|x s]; [done|]. cbn in *. congruence.
Qed.

Lemma simple_atom_grammar c rest r rest' : c <> 40 -> c <> 124 -> simple_atom (c :: rest) tt = Ok (r, rest', tt) ->
  exists t, c :: rest = t ++ rest' /\ g_atom t r.
Proof.
  unfold simple_atom. intros Hp Hb H. destruct (Z.eqb_spec c 91) as [->|H91].
  { apply bind_ok_inv in H as ([bs r1] & Hc & H). injection H as <- <-. destruct (char_class_grammar _ _ _ Hc) as (s & -> & Hg).
    exists (91 :: s ++ [93]). split; [by cbn; rewrite <- app_assoc | by constructor]. }
  destruct (Z.eqb_spec c 46) as [->|H46]. { injection H as <- <-. exists [46]. split; [done | constructor]. }
  destruct (Z.eqb_spec c 94) as [->|H94]; [done|]. destruct (Z.eqb_spec c 36) as [->|H36]; [done|]. cbn [orb] in H.
  destruct (Z.eqb_spec c 41) as [->|H41]; [done|]. destruct (Z.eqb_spec c 92) as [->|H92].
  { apply bind_ok_inv in H as ([bs r1] & Hc & H). injection H as <- <-. destruct (escape_grammar _ _ _ Hc) as (t & -> & Hg).
    exists (92 :: t). split; [done | by constructor]. }
  destruct (c >? 255) eqn:E; [done|]. injection H as <- <-. rewrite Z.gtb_ltb in E. zb. exists [c]. split; [done|]. constructor; [done|].
  intros Hm. unfold meta in Hm. vm_compute in Hm. repeat (apply elem_of_cons in Hm as [Hm|Hm]; [done|]). by apply not_elem_of_nil in Hm.
Qed.

Lemma follows_app b s t : follows b (s ++ t) -> follows b s.
Proof. by destruct s. Qed.

(** The parser's result on the unread text: what it consumed, in the grammar. *)
Lemma parser_grammar k :
  (forall rest r rest', _alt k rest tt = Ok (r, rest', tt) -> exists s rs, rest = s ++ rest' /\ g_alts s rs /\ r = alt_tree rs) /\
  (forall rest l rest', alts k rest tt = Ok (l, rest', tt) ->
     l = [] /\ rest' = rest \/ exists s, rest = 124 :: s ++ rest' /\ g_alts s l) /\
  (forall rest r rest', _concat k rest tt = Ok (r, rest', tt) -> exists s rs, rest = s ++ rest' /\ g_concat s rs /\ r = cat_tree rs) /\
  (forall rest l rest', repeats k rest tt = Ok (l, rest', tt) -> exists s, rest = s ++ rest' /\ g_concat s l) /\
  (forall rest r rest', at_any rest [124; 41] = false -> _repeat k rest tt = Ok (r, rest', tt) ->
     exists b t, rest = t ++ rest' /\ g_repeat b t r /\ follows b rest') /\
  (forall rest r rest', at_any rest [124; 41] = false -> _atom k rest tt = Ok (r, rest', tt) -> exists t, rest = t ++ rest' /\ g_atom t r).
Proof.
  induction k as [|k (IHalt & IHalts & IHcat & IHreps & IHrep & IHatom)]; [split_and!; done|].
  split_and!; intros rest r rest'.
  - rewrite alt_S. intros H. apply bind_ok_inv in H as ([[f r1] []] & Hc & H). apply bind_ok_inv in H as ([[fs r2] []] & Ha & H).
    injection H as <- <-. destruct (IHcat _ _ _ Hc) as (s & rs & -> & Hg & ->).
    destruct (IHalts _ _ _ Ha) as [[-> ->]|(s2 & -> & Hg2)].
    + exists s, [cat_tree rs]. split; [done|]. split; [by constructor | done].
    + exists (s ++ 124 :: s2), (cat_tree rs :: fs). split; [by rewrite <- app_assoc|]. split; [by constructor | done].
  - rewrite alts_S. destruct (at_char rest 124) eqn:E; [|intros [= <- <-]; by left].
    destruct rest as [|c rest]; [done|]. cbn in E. apply Z.eqb_eq in E as ->. cbn [tail]. intros H.
    apply bind_ok_inv in H as ([[f r1] []] & Hc & H). apply bind_ok_inv in H as ([[fs r2] []] & Ha & H).
    injection H as <- <-. destruct (IHcat _ _ _ Hc) as (s & rs & -> & Hg & ->). right.
    destruct (IHalts _ _ _ Ha) as [[-> ->]|(s2 & -> & Hg2)].
    + exists s. split; [done | by constructor].
    + exists (s ++ 124 :: s2). split; [by rewrite <- app_assoc | by constructor].
  - rewrite concat_S. intros H. apply bind_ok_inv in H as ([[fs r1] []] & Hc & H). injection H as <- <-.
    destruct (IHreps _ _ _ Hc) as (s & -> & Hg). by exists s, fs.
  - rewrite repeats_S. destruct (bool_decide (rest = []) || at_any rest [124; 41]) eqn:E.
    { intros [= <- <-]. exists []. split; [done | constructor]. }
    apply orb_false_iff in E as [_ E]. intros H. apply bind_ok_inv in H as ([[f r1] []] & Hr & H).
    apply bind_ok_inv in H as ([[fs r2] []] & Hs & H). injection H as <- <-.
    destruct (IHrep _ _ _ E Hr) as (b & t & -> & Hg & Hf). destruct (IHreps _ _ _ Hs) as (s & -> & Hgs).
    exists (t ++ s). split; [by rewrite <- app_assoc|]. apply (gk_cons b); [done | by eapply follows_app | done].
  - intros E. rewrite repeat_S. intros H. apply bind_ok_inv in H as ([[f r1] []] & Ha & H). destruct (IHatom _ _ _ E Ha) as (t & -> & Hg).
    destruct r1 as [|c r1].
    { injection H as <- <-. exists false, t. split; [done|]. by split; [constructor|]. }
    destruct (quant_of c) as [q|] eqn:Eq.
    + destruct (at_any r1 [42; 43; 63]) eqn:Es; [done|]. injection H as <- <-. exists true, (t ++ [c]).
      split; [by rewrite <- app_assoc|]. split; [by apply gr_quant|]. destruct r1 as [|d r1]; [done|]. split; [|done].
      cbn [at_any existsb] in Es. apply orb_false_iff in Es as [E1 Es]. apply orb_false_iff in Es as [E2 Es]. apply orb_false_iff in Es as [E3 _].
      unfold quant_of. by rewrite E1, E2, E3.
    + destruct (Z.eqb_spec c 123) as [->|Hc]; [done|]. injection H as <- <-. exists false, t. split; [done|]. by split; [constructor|].
  - intros E. rewrite atom_S. destruct (at_char rest 40) eqn:E4.
    + destruct rest as [|c rest]; [done|]. cbn in E4. apply Z.eqb_eq in E4 as ->. cbn [tail]. destruct (at_char rest 63) eqn:E63; [done|].
      intros H. apply bind_ok_inv in H as ([[f r1] []] & Ha & H). destruct (at_char r1 41) eqn:E41; [|done]. injection H as <- <-.
      destruct r1 as [|c r1]; [done|]. cbn in E41. apply Z.eqb_eq in E41 as ->. cbn [tail]. destruct (IHalt _ _ _ Ha) as (s & rs & -> & Hg & ->).
      exists (40 :: s ++ [41]). split; [by cbn; rewrite <- app_assoc|]. constructor; [done|].
      destruct s as [|x s]; [done|]. cbn in E63. apply Z.eqb_neq in E63. cbn. congruence.
    + destruct rest as [|c rest]; [done|]. cbn in E4. apply Z.eqb_neq in E4. apply orb_false_iff in E as [E _]. apply Z.eqb_neq in E.
      by apply simple_atom_grammar.
Qed.

(** The syntax tree of a pattern is the one the grammar gives it. *)
Lemma ast_denotes p r : ast p = Ok r -> denotes p r.
Proof.
  unfold ast, parse. intros H. destruct (_alt (parse_fuel p) p tt) as [[[r1 rest] []]|] eqn:E; [|done]. cbn in H.
  destruct (proj1 (parser_grammar _) _ _ _ E) as (s & rs & -> & Hg & ->). destruct rest; [|done]. cbn in H. injection H as <-.
  rewrite app_nil_r. by exists rs.
Qed.

(** C15. A compiled table matches what its pattern means: every pattern that compiles to a table is, by the grammar of
    patterns above, some syntax tree, and when the byte sets of that tree hold bytes only, [_dfa_match_at] returns, for all
    data and every offset, the end of the longest prefix of the data from the offset that is in the language of the tree,
    and [-1] when there is none.  (A set with something else than a byte comes from a [\x] escape with a minus sign or
    from a range in a class whose upper end is above 255.) *)
Theorem compile_longest p d :
  _compile p = PathDfa d ->
  exists r, ast p = Ok r /\ denotes p r /\
    (byte_tree r = true -> forall data i, bytes_ok data -> 0 <= i -> longest (lang r) data i (_dfa_match_at d data i)).
Proof.
  intros Hd. destruct (compile_inv _ _ Hd) as (s & a & N & Hp & _). destruct (parse_ast _ _ _ Hp) as [r Hr].
  exists r. split; [done|]. split; [by apply ast_denotes|]. intros Hb data i Hdata _. by apply (compile_longest_aux p).
Qed.

Lemma compile_longest_witness :
  exists d r, _compile evil = PathDfa d /\ denotes evil r /\ longest (lang r) evil_data 9 (_dfa_match_at d evil_data 9)
    /\ _dfa_match_at d evil_data 9 = 22.
Proof.
  pose proof evil_facts as H.
  destruct (ast evil) as [r0|e] eqn:Ea; [|discriminate H].
  destruct (_compile evil) as [d|] eqn:Ed; [|discriminate H].
  apply andb_true_iff in H as [H1 H2]. apply Z.eqb_eq in H2.
  destruct (compile_longest evil d Ed) as (r & Hr & Hg & Hl). assert (r = r0) as -> by congruence.
  exists d, r0. split; [reflexivity|]. split; [exact Hg|]. split; [|exact H2]. apply (Hl H1); [apply evil_bytes | lia].
Defined.

(** A quantifier with nothing before it is read as the character itself. *)
Lemma leading_quantifier : match _compile (lit "*a") with PathDfa d => _dfa_match_at d (lit "*a") 0 | PathRe => -1 end = 2.
Proof. vm_compute. reflexivity. Qed.
