(* ===== verification/FpgaEmu.v ===== *)
(** * The FPGA emulator (opt/ffn_fpga_emu.py, class FpgaEmulator)

    The façade over the two matching engines: loading patterns, scanning a buffer
    with one or both engines, and the per-engine counters.  Tags are the integers
    and strings the callers load.  [finditer] is Python's [re] on the patterns the
    table compiler refuses.

    Main results: the spans reported for literal patterns are exactly their
    occurrences, provided patterns that share a tag have the same length; a scan
    returns the hits of the engines it ran, ordered by offset, and counts them. *)

From stdpp Require Import sorting gmap.
From S2P Require Import Prelude PyStr AhoCorasick RegexDfa.

Inductive tag : Type := TInt (v : Z) | TStr (s : pystr).
#[export] Instance tag_eq_dec : EqDecision tag.
Proof. solve_decision. Defined.
#[export] Instance tag_countable : Countable tag.
Proof.
  refine (inj_countable' (fun t => match t with TInt v => inl v | TStr s => inr s end)
            (fun x : Z + list Z => match x with inl v => TInt v | inr s => TStr s end) _).
  by intros [].
Defined.

Inductive which : Type := W_ac | W_dfa.

Record EmuMatch : Type := {
  m_tag : tag; m_sid : option Z; m_offset : Z; m_engine : pystr; m_which : which; m_end : Z }.

Definition _derive_sid (t : tag) : option Z := match t with TInt v => Some v | TStr _ => None end.

Record counter : Type := { enabled : bool; packets : Z; matches : Z; drops : Z }.
Definition _new_counter (e : bool) : counter := {| enabled := e; packets := 0; matches := 0; drops := 0 |}.

Record emu : Type := {
  _ac : option (ac tag); _ac_engine : pystr; _ac_patlen : gmap tag Z; _ac_loaded : nat;
  _dfa : list (pystr * tag); _dfa_engine : pystr;
  _counters : gmap pystr counter }.

Definition AC_ENGINE : pystr := lit "dpi_l7".
Definition DFA_ENGINE : pystr := lit "dpi_regex".

Definition emu_init : emu :=
  {| _ac := None; _ac_engine := AC_ENGINE; _ac_patlen := ∅; _ac_loaded := 0;
     _dfa := []; _dfa_engine := DFA_ENGINE; _counters := ∅ |}.

(** [setdefault] followed by setting the flag. *)
Definition set_enabled (name : pystr) (e : bool) (cs : gmap pystr counter) : gmap pystr counter :=
  let c := default (_new_counter e) (cs !! name) in
  <[name := {| enabled := e; packets := packets c; matches := matches c; drops := drops c |}]> cs.

(** [if engine: self._ac_engine = engine]. *)
Definition pick_engine (engine : option pystr) (cur : pystr) : pystr :=
  match engine with Some (_ :: _ as e) => e | _ => cur end.

(** One round of the loop of [load_ac]. *)
Definition load_one (st : ac tag * gmap tag Z * nat) (e : bytes * tag) : result ac_exn (ac tag * gmap tag Z * nat) :=
  let '(a, patlen, n) := st in
  let '(pat, t) := e in
  match pat with
  | [] => Ok st
  | _ => a ← add a pat t; Ok (a, <[t := blen pat]> patlen, S n)
  end.

Definition load_ac (s : emu) (patterns : list (bytes * tag)) (engine : option pystr) : result ac_exn (nat * emu) :=
  let name := pick_engine engine (_ac_engine s) in
  '(a, patlen, n) ← foldM_res load_one (ac_init, ∅, 0%nat) patterns;
  let a := build a in
  let loaded := negb (n =? 0)%nat in
  Ok (n, {| _ac := if loaded then Some a else None; _ac_engine := name; _ac_patlen := patlen; _ac_loaded := n;
            _dfa := _dfa s; _dfa_engine := _dfa_engine s;
            _counters := set_enabled name loaded (_counters s) |}).

(** [re_compile] says which of the patterns handed to [re] it accepts; a refused
    one raises. *)
Definition load_dfa (re_compile : pystr -> bool) (s : emu) (regexes : list (pystr * tag)) (engine : option pystr)
  : option (nat * emu) :=
  let name := pick_engine engine (_dfa_engine s) in
  if forallb (fun '(rx, _) => match _compile rx with PathDfa _ => true | PathRe => re_compile rx end) regexes then
    let loaded := match regexes with [] => false | _ => true end in
    Some (length regexes, {| _ac := _ac s; _ac_engine := _ac_engine s; _ac_patlen := _ac_patlen s;
      _ac_loaded := _ac_loaded s; _dfa := regexes; _dfa_engine := name;
      _counters := set_enabled name loaded (_counters s) |})
  else None.

Definition dfa_paths (s : emu) : list (pystr * pystr) :=
  map (fun '(rx, _) => (rx, match _compile rx with PathDfa _ => lit "dfa" | PathRe => lit "re" end)) (_dfa s).

(** ** Scanning *)

Definition ac_hit (s : emu) (h : Z * tag) : EmuMatch :=
  let '(e, t) := h in
  let plen := default 0 (_ac_patlen s !! t) in
  let start := if negb (plen =? 0) then e - plen + 1 else e in
  {| m_tag := t; m_sid := _derive_sid t; m_offset := start; m_engine := _ac_engine s; m_which := W_ac; m_end := e + 1 |}.

(** [_scan_ac] on a loaded automaton. *)
Definition _scan_ac (s : emu) (a : ac tag) (data : bytes) : list EmuMatch :=
  map (ac_hit s) (fst (iter_matches a data)).

Definition _scan_dfa (finditer : pystr -> bytes -> list (Z * Z)) (s : emu) (data : bytes) : list EmuMatch :=
  flat_map (fun '(rx, t) =>
    map (fun '(start, e) =>
      {| m_tag := t; m_sid := _derive_sid t; m_offset := start; m_engine := _dfa_engine s; m_which := W_dfa; m_end := e |})
      (find_all finditer rx data)) (_dfa s).

Definition _account (name : pystr) (hits : list EmuMatch) (cs : gmap pystr counter) : gmap pystr counter :=
  let c := default (_new_counter true) (cs !! name) in
  <[name := {| enabled := enabled c; packets := packets c + 1; matches := matches c + blen hits;
               drops := drops c + (match hits with [] => 0 | _ => 1 end) |}]> cs.

(** The sort key [(offset, which)]. *)
Definition key_le (x y : EmuMatch) : Prop :=
  m_offset x < m_offset y \/
  (m_offset x = m_offset y /\ (m_which x = W_ac \/ m_which y = W_dfa)).
#[export] Instance which_eq_dec : EqDecision which.
Proof. solve_decision. Defined.
#[export] Instance key_le_dec x y : Decision (key_le x y).
Proof. unfold key_le. apply _. Defined.

(** [list.sort]: a stable sort by the key. *)
Fixpoint insert_hit (x : EmuMatch) (l : list EmuMatch) : list EmuMatch :=
  match l with
  | [] => [x]
  | y :: t => if decide (key_le x y) then x :: y :: t else y :: insert_hit x t
  end.
Definition sort_hits (l : list EmuMatch) : list EmuMatch := foldr insert_hit [] l.

(** [engine in (None, name)]. *)
Definition engine_in (engine : option pystr) (name : pystr) : bool :=
  match engine with None => true | Some e => bool_decide (e = name) end.

(** [if run_ac] and [if run_dfa]: the hits of an engine that runs. *)
Definition ac_part (s : emu) (data : bytes) (engine : option pystr) : option (list EmuMatch) :=
  match _ac s with
  | Some a => if engine_in engine (_ac_engine s) then Some (_scan_ac s a data) else None
  | None => None
  end.
Definition dfa_part (fi : pystr -> bytes -> list (Z * Z)) (s : emu) (data : bytes) (engine : option pystr)
  : option (list EmuMatch) :=
  if negb (bool_decide (_dfa s = [])) && engine_in engine (_dfa_engine s) then Some (_scan_dfa fi s data) else None.

Definition account_run (name : pystr) (hits : option (list EmuMatch)) (cs : gmap pystr counter) : gmap pystr counter :=
  match hits with Some hits => _account name hits cs | None => cs end.

Definition scan (fi : pystr -> bytes -> list (Z * Z)) (s : emu) (data : bytes) (engine : option pystr)
  : list EmuMatch * emu :=
  let ac_hits := ac_part s data engine in
  let cs := account_run (_ac_engine s) ac_hits (_counters s) in
  let dfa_hits := dfa_part fi s data engine in
  let cs := account_run (_dfa_engine s) dfa_hits cs in
  (sort_hits (default [] ac_hits ++ default [] dfa_hits),
   {| _ac := _ac s; _ac_engine := _ac_engine s; _ac_patlen := _ac_patlen s; _ac_loaded := _ac_loaded s;
      _dfa := _dfa s; _dfa_engine := _dfa_engine s; _counters := cs |}).

(** [emu_status]: the counter, or the all-zero one for an unknown engine. *)
Definition emu_status (s : emu) (name : pystr) : counter := default (_new_counter false) (_counters s !! name).

Definition status_all (s : emu) : gmap pystr counter := _counters s.

Definition reset_counters (s : emu) : emu :=
  {| _ac := _ac s; _ac_engine := _ac_engine s; _ac_patlen := _ac_patlen s; _ac_loaded := _ac_loaded s;
     _dfa := _dfa s; _dfa_engine := _dfa_engine s;
     _counters := (fun c => {| enabled := enabled c; packets := 0; matches := 0; drops := 0 |}) <$> _counters s |}.

(** ** What brute force reports *)

Lemma own_elem {A} (pats : list (bytes * A)) s t : t ∈ own pats s <-> (s, t) ∈ pats.
Proof.
  unfold own. rewrite list_elem_of_fmap. split.
  - intros ([p t'] & -> & Hin). apply list_elem_of_filter in Hin as [He Hin]. cbn in *. by subst.
  - intros Hin. exists (s, t). split; [done|]. by apply list_elem_of_filter.
Qed.

Lemma ending_elem {A} (pats : list (bytes * A)) w t : t ∈ ending pats w <-> exists p, (p, t) ∈ pats /\ p `suffix_of` w.
Proof.
  induction w as [|b w IH]; cbn [ending]; rewrite elem_of_app, own_elem.
  - rewrite elem_of_nil. split.
    + intros [H|[]]. by exists [].
    + intros (p & Hp & Hs). apply suffix_nil_inv in Hs as ->. by left.
  - rewrite IH. split.
    + intros [H|(p & Hp & Hs)]; [by exists (b :: w)|]. exists p. split; [done|]. by apply suffix_cons_r.
    + intros ([|c p] & Hp & Hs); [right; exists []; split; [done | apply suffix_nil]|].
      apply suffix_cons_inv in Hs as [He|Hs]; [left; by rewrite <- He | right; by exists (c :: p)].
Qed.

Lemma matches_from_elem {A} (pats : list (bytes * A)) data : forall seen i j t,
  (j, t) ∈ matches_from pats seen i data <->
  exists k, (k < length data)%nat /\ j = i + Z.of_nat k /\ t ∈ ending pats (seen ++ take (S k) data).
Proof.
  induction data as [|b data IH]; intros seen i j t; cbn [matches_from].
  - rewrite elem_of_nil. split; [done|]. intros (k & Hk & _). cbn in Hk. lia.
  - rewrite elem_of_app, IH. split.
    + intros [H|(k & Hk & -> & Ht)].
      * apply list_elem_of_fmap in H as (t' & [= -> ->] & Ht). exists 0%nat. cbn [length take].
        rewrite take_0. split_and!; [lia | lia | done].
      * exists (S k). cbn [length]. split_and!; [lia | lia |].
        change (take (S (S k)) (b :: data)) with ([b] ++ take (S k) data). by rewrite app_assoc.
    + intros (k & Hk & -> & Ht). destruct k as [|k].
      * left. apply list_elem_of_fmap. exists t. cbn [take] in Ht. rewrite take_0 in Ht.
        split; [by rewrite Z.add_0_r | done].
      * right. exists k. cbn [length] in Hk. split_and!; [lia | lia |].
        change (take (S (S k)) (b :: data)) with ([b] ++ take (S k) data) in Ht. by rewrite app_assoc in Ht.
Qed.

(** An occurrence of [p] in [data] at offset [o]. *)
Definition occurs (p data : bytes) (o : Z) : Prop :=
  0 <= o /\ o + blen p <= blen data /\ slice o (o + blen p) data = p.

Lemma suffix_occurs p data k :
  (k <= length data)%nat -> p `suffix_of` take k data <-> occurs p data (Z.of_nat k - blen p).
Proof.
  intros Hk. unfold occurs, blen, slice. split.
  - intros [w Hw]. assert (length w + length p = k)%nat as Hl.
    { apply (f_equal length) in Hw. rewrite length_take, length_app in Hw. lia. }
    split_and!; [lia | lia|]. replace (Z.to_nat (Z.of_nat k - Z.of_nat (length p))) with (length w) by lia.
    replace (Z.to_nat _) with (k - length w)%nat by lia.
    rewrite <- skipn_firstn_comm || rewrite take_drop_commute.
    replace (length w + (k - length w))%nat with k by lia. rewrite Hw. by rewrite drop_app_length.
  - intros (H1 & H2 & H3). set (n := Z.to_nat (Z.of_nat k - Z.of_nat (length p))) in *.
    replace (Z.to_nat _) with (length p) in H3 by lia.
    exists (take n data). rewrite <- H3 at 1. rewrite take_drop_commute. replace (n + length p)%nat with k by lia.
    rewrite <- (take_drop n (take k data)) at 1. rewrite take_take. by replace (n `min` k)%nat with n by lia.
Qed.

Lemma all_matches_elem {A} (pats : list (bytes * A)) data e t :
  (e, t) ∈ all_matches pats data <->
  0 <= e < blen data /\ exists p, (p, t) ∈ pats /\ occurs p data (e + 1 - blen p).
Proof.
  unfold all_matches. rewrite matches_from_elem. cbn [app]. split.
  - intros (k & Hk & -> & (p & Hp & Hs)%ending_elem). split; [unfold blen; lia|]. exists p. split; [done|].
    apply suffix_occurs in Hs; [|lia]. by replace (0 + Z.of_nat k + 1) with (Z.of_nat (S k)) by lia.
  - intros (He & p & Hp & Ho). exists (Z.to_nat e). unfold blen in He. split_and!; [lia | lia |].
    apply ending_elem. exists p. split; [done|]. apply suffix_occurs; [lia|].
    by replace (Z.of_nat (S (Z.to_nat e))) with (e + 1) by lia.
Qed.

(** ** Loading *)

Definition nonempty_pats (pats : list (bytes * tag)) : list (bytes * tag) := filter (fun p => p.1 <> []) pats.

Lemma load_fold pats : forall a pl n a' pl' n',
  foldM_res load_one (a, pl, n) pats = Ok (a', pl', n') ->
  add_all a (nonempty_pats pats) = Ok a' /\
  (forall t, pl' !! t = pl !! t \/ exists p, (p, t) ∈ nonempty_pats pats /\ pl' !! t = Some (blen p)) /\
  (forall p t, (p, t) ∈ nonempty_pats pats -> exists p', (p', t) ∈ nonempty_pats pats /\ pl' !! t = Some (blen p')) /\
  n' = (n + length (nonempty_pats pats))%nat.
Proof.
  induction pats as [|[p t] pats IH]; intros a pl n a' pl' n' H.
  - cbn in H. simplify_eq. split_and!; [done | by left | by intros ? ? ?%not_elem_of_nil | cbn; lia].
  - cbn [foldM_res] in H. apply bind_ok_inv in H as ([[a1 pl1] n1] & H1 & H).
    apply IH in H as (I1 & I2 & I3 & ->). unfold nonempty_pats in *. rewrite filter_cons. cbn in H1.
    destruct p as [|b p].
    { injection H1 as <- <- <-. rewrite decide_False by (cbn; tauto). done. }
    rewrite decide_True by done. apply bind_ok_inv in H1 as (a2 & Ha & H1). injection H1 as <- <- <-.
    split_and!.
    + unfold add_all in *. cbn [foldM_res]. by rewrite Ha.
    + intros t'. destruct (I2 t') as [E|(p' & Hp & E)]; [|right; exists p'; split; [by right | done]].
      destruct (decide (t = t')) as [->|Hne].
      * right. exists (b :: p). split; [left|]. by rewrite E, lookup_insert_eq.
      * left. by rewrite E, lookup_insert_ne.
    + intros p' t' [[= -> ->]|Hin]%elem_of_cons.
      * destruct (I2 t) as [E|(p' & Hp & E)]; [|exists p'; split; [by right | done]].
        exists (b :: p). split; [left|]. by rewrite E, lookup_insert_eq.
      * destruct (I3 p' t' Hin) as (p2 & Hp2 & E). exists p2. split; [by right | done].
    + cbn. lia.
Qed.

(** Patterns that share a tag have the same length. *)
Definition lengths_agree (pats : list (bytes * tag)) : Prop :=
  forall p p' t, (p, t) ∈ nonempty_pats pats -> (p', t) ∈ nonempty_pats pats -> length p = length p'.

(**  The literal engine reports exactly the occurrences of the loaded patterns:
    when patterns that share a tag have the same length, a match is reported if
    and only if the data between its offset and its end is a loaded pattern with
    its tag. *)
Theorem scan_ac_spans s pats eng n s' a data hit :
  load_ac s pats eng = Ok (n, s') -> lengths_agree pats -> _ac s' = Some a ->
  hit ∈ _scan_ac s' a data <->
  exists p t o, (p, t) ∈ pats /\ p <> [] /\ occurs p data o /\
    hit = {| m_tag := t; m_sid := _derive_sid t; m_offset := o; m_engine := _ac_engine s'; m_which := W_ac;
             m_end := o + blen p |}.
Proof.
  intros H Hag Hac. unfold load_ac in H. apply bind_ok_inv in H as ([[a0 pl] k] & Hf & H). cbn in H.
  injection H as <- <-. apply load_fold in Hf as (Hadd & _ & Hpl & ->). cbn in Hac.
  destruct (negb _); [|done]. injection Hac as <-.
  destruct (add_all_loaded _ _ _ _ _ loaded_init Hadd) as [words L]. cbn [app] in L.
  assert (fst (iter_matches (build a0) data) = all_matches (nonempty_pats pats) data) as Hm.
  { unfold iter_matches. replace (_built (build a0)) with true; [by apply (build_scan a0 _ words)|].
    unfold build. destruct (fold_left _ _ _). by destruct (build_loop _ _ _ _ _). }
  unfold _scan_ac. rewrite Hm.
  assert (forall p t, (p, t) ∈ nonempty_pats pats -> default 0 (pl !! t) = blen p) as Hlen.
  { intros p t Hin. destruct (Hpl p t Hin) as (p' & Hin' & ->). cbn. unfold blen. by rewrite (Hag p' p t Hin' Hin). }
  assert (forall p (t : tag), (p, t) ∈ nonempty_pats pats <-> (p, t) ∈ pats /\ p <> []) as Hne.
  { intros p t. unfold nonempty_pats. rewrite list_elem_of_filter. cbn. tauto. }
  assert (forall p, p <> [] -> 1 <= blen (A := Z) p) as Hpos by (intros [|? ?] ?; [done | rewrite blen_cons; pose proof (blen_nonneg l); lia]).
  rewrite list_elem_of_fmap. split.
  - intros ([e t] & -> & (He & p & Hp & Ho)%all_matches_elem). apply Hne in Hp as Hp'. destruct Hp' as [Hin Hnil].
    exists p, t, (e + 1 - blen p). split_and!; [done | done | done |]. unfold ac_hit. cbn. rewrite (Hlen p t Hp).
    specialize (Hpos p Hnil). replace (blen p =? 0) with false by lia. cbn. f_equal; lia.
  - intros (p & t & o & Hin & Hnil & Ho & ->). specialize (Hpos p Hnil). pose proof Ho as (H0 & H1 & _).
    assert ((p, t) ∈ nonempty_pats pats) as Hp by (by apply Hne).
    exists (o + blen p - 1, t). split.
    + unfold ac_hit. cbn. rewrite (Hlen p t Hp). replace (blen p =? 0) with false by lia. cbn. f_equal; lia.
    + apply all_matches_elem. split; [lia|]. exists p. split; [done|].
      by replace (o + blen p - 1 + 1 - blen p) with o by lia.
Qed.

Definition demo_pats : list (bytes * tag) := [(lit "jndi", TInt 1001); (lit "evil", TInt 1002)].

Lemma demo_agree : lengths_agree demo_pats.
Proof.
  intros p p' t H H'. unfold nonempty_pats, demo_pats in *.
  apply list_elem_of_filter in H as [_ H]. apply list_elem_of_filter in H' as [_ H'].
  rewrite !elem_of_cons, elem_of_nil in H, H'. naive_solver.
Qed.

Lemma scan_ac_spans_witness :
  exists n s' a, load_ac emu_init demo_pats None = Ok (n, s') /\ _ac s' = Some a /\
    ({| m_tag := TInt 1001; m_sid := Some 1001; m_offset := 2; m_engine := AC_ENGINE; m_which := W_ac; m_end := 6 |}
       ∈ _scan_ac s' a (lit "${jndi:")).
Proof.
  destruct (load_ac emu_init demo_pats None) as [[n s']|e] eqn:E; [|vm_compute in E; discriminate E].
  assert (exists a, _ac s' = Some a /\ _ac_engine s' = AC_ENGINE) as (a & Ha & He).
  { vm_compute in E. injection E as <- <-. eexists. split; reflexivity. }
  exists n, s', a. split; [reflexivity|]. split; [exact Ha|].
  apply (proj2 (scan_ac_spans emu_init demo_pats None n s' a (lit "${jndi:") _ E demo_agree Ha)).
  exists (lit "jndi"), (TInt 1001), 2. split; [left|]. split; [discriminate|].
  split; [split; [lia|]; split; vm_compute; [discriminate | reflexivity]|]. rewrite He. reflexivity.
Defined.

(** Without that condition the offset can be wrong: two patterns of different
    lengths under one tag, and the shorter one is reported as starting before the
    data does. *)
Lemma shared_tag_offset :
  match load_ac emu_init [(lit "ab", TInt 7); (lit "wxyz", TInt 7)] None with
  | Ok (_, s) => match _ac s with
                 | Some a => map (fun h => (m_offset h, m_end h)) (_scan_ac s a (lit "ab"))
                 | None => []
                 end
  | Err _ => []
  end = [(-2, 2)].
Proof. vm_compute. reflexivity. Qed.

(** ** A scan *)

Lemma insert_hit_perm x l : insert_hit x l ≡ₚ x :: l.
Proof. induction l as [|y t IH]; cbn; [done|]. destruct (decide _); [done|]. rewrite IH. apply Permutation_swap. Qed.

Lemma sort_hits_perm l : sort_hits l ≡ₚ l.
Proof. induction l as [|x t IH]; cbn; [done|]. by rewrite insert_hit_perm, IH. Qed.

Lemma key_le_total x y : ~ key_le x y -> key_le y x.
Proof.
  unfold key_le. intros H. destruct (m_which x), (m_which y); (destruct (Z.lt_trichotomy (m_offset x) (m_offset y)) as [?|[?|?]]; [tauto | | lia]);
    try (exfalso; apply H; right; split; [done | tauto]); right; split; [done | tauto].
Qed.

Lemma key_le_trans x y z : key_le x y -> key_le y z -> key_le x z.
Proof. unfold key_le. destruct (m_which x), (m_which y), (m_which z); intuition (congruence || lia). Qed.

Lemma insert_hit_sorted x l : StronglySorted key_le l -> StronglySorted key_le (insert_hit x l).
Proof.
  induction 1 as [|y t Ht IH Hy]; cbn; [repeat constructor|]. destruct (decide (key_le x y)) as [Hxy|Hxy].
  - constructor; [by constructor|]. constructor; [done|]. eapply Forall_impl; [exact Hy|]. intros z. by apply key_le_trans.
  - constructor; [done|]. rewrite insert_hit_perm. constructor; [by apply key_le_total | done].
Qed.

Lemma sort_hits_sorted l : StronglySorted key_le (sort_hits l).
Proof. induction l as [|x t IH]; cbn; [constructor | by apply insert_hit_sorted]. Qed.

(** What a scan adds to the counter of an engine. *)
Definition counted (hits : option (list EmuMatch)) (c c' : counter) : Prop :=
  match hits with
  | None => c' = c
  | Some hs => packets c' = packets c + 1 /\ matches c' = matches c + blen hs /\
               drops c' = drops c + (if decide (hs = []) then 0 else 1)
  end.

Lemma account_other name name' hits cs : name <> name' -> _account name hits cs !! name' = cs !! name'.
Proof. intros Hn. unfold _account. by rewrite lookup_insert_ne. Qed.

Lemma account_counted name hits cs :
  counted (Some hits) (default (_new_counter false) (cs !! name)) (default (_new_counter false) (_account name hits cs !! name)).
Proof.
  unfold _account. rewrite lookup_insert_eq. cbn.
  destruct (cs !! name) as [c|]; cbn; (split_and!; [done | done |]); by destruct hits.
Qed.

(** The counter of an engine after a round depends on that counter only. *)
Lemma account_counted_at name hits cs cs' :
  cs !! name = cs' !! name -> _account name hits cs !! name = _account name hits cs' !! name.
Proof. intros H. unfold _account. by rewrite !lookup_insert_eq, H. Qed.

(**  A scan returns exactly the hits of the engines it ran, sorted by offset
    with literal hits first at equal offsets, and each engine's counters grow by
    one packet, its number of hits and one drop if it had any; an engine that did
    not run keeps its counters. *)
Theorem scan_spec fi s data engine out s' :
  _ac_engine s <> _dfa_engine s -> scan fi s data engine = (out, s') ->
  out ≡ₚ default [] (ac_part s data engine) ++ default [] (dfa_part fi s data engine) /\
  StronglySorted key_le out /\
  counted (ac_part s data engine) (emu_status s (_ac_engine s)) (emu_status s' (_ac_engine s)) /\
  counted (dfa_part fi s data engine) (emu_status s (_dfa_engine s)) (emu_status s' (_dfa_engine s)).
Proof.
  intros Hne H. unfold scan in H. injection H as <- <-.
  split_and!; [apply sort_hits_perm | apply sort_hits_sorted | |]; unfold emu_status; cbn [_counters]; unfold account_run.
  - assert (forall cs, (match dfa_part fi s data engine with Some h => _account (_dfa_engine s) h cs | None => cs end)
              !! _ac_engine s = cs !! _ac_engine s) as ->.
    { intros cs. destruct (dfa_part fi s data engine); [by rewrite account_other | done]. }
    destruct (ac_part s data engine) as [h|]; [|done]. apply account_counted.
  - destruct (dfa_part fi s data engine) as [h|].
    + erewrite account_counted_at; [apply account_counted|]. destruct (ac_part s data engine); [by rewrite account_other | done].
    + destruct (ac_part s data engine); [by rewrite account_other | done].
Qed.

Definition demo_emu : emu :=
  match load_ac emu_init demo_pats None with
  | Ok (_, s) => match load_dfa (fun _ => true) s [(lit "ev[a-z]+", TInt 2001)] None with Some (_, s) => s | None => s end
  | Err _ => emu_init
  end.

Lemma scan_spec_witness :
  exists out s', scan (fun _ _ => []) demo_emu (lit "an evil jndi") None = (out, s') /\
    out ≡ₚ default [] (ac_part demo_emu (lit "an evil jndi") None) ++
           default [] (dfa_part (fun _ _ => []) demo_emu (lit "an evil jndi") None) /\
    map (fun m => (m_offset m, m_end m)) out = [(3, 7); (3, 7); (8, 12)].
Proof.
  destruct (scan (fun _ _ => []) demo_emu (lit "an evil jndi") None) as [out s'] eqn:E.
  assert (_ac_engine demo_emu <> _dfa_engine demo_emu) as Hne by (vm_compute; discriminate).
  exists out, s'. split; [reflexivity|]. split.
  - exact (proj1 (scan_spec (fun _ _ => []) demo_emu (lit "an evil jndi") None out s' Hne E)).
  - apply (f_equal (fun p => map (fun m => (m_offset m, m_end m)) (fst p))) in E. cbn [fst] in E.
    rewrite <- E. vm_compute. reflexivity.
Defined.
