(* ===== verification/PyXml.v ===== *)
(** * Element trees

    The configuration is an XML document that the code reads through
    [xml.etree.ElementTree]: an element has a tag, attributes, a text and
    children.  The model starts from the parsed tree; tags are plain names and the
    text between children ([tail]) is not kept, since no operation reads it.
    Paths are the ones the code uses: names separated by a slash, a step
    [entry[@name='n']] and a leading dot. *)

From S2P Require Import Prelude PyStr PyDict PyIp.

Inductive element := Element {
  tag : pystr;
  attrib : list (pystr * pystr);
  text : option pystr;
  children : list element;
}.

(** [e.get(k)]. *)
Definition eget (k : pystr) (e : element) : option pystr := dget k (attrib e).
(** [e.text or '']. *)
Definition text_of (e : element) : pystr := default [] (text e).

(** A step of a path selects children by tag, and by the [name] attribute. *)
Inductive step := Child (t : pystr) | Named (t n : pystr).

Definition selects (s : step) (e : element) : bool :=
  match s with
  | Child t => bool_decide (tag e = t)
  | Named t n => bool_decide (tag e = t) && bool_decide (eget (lit "name") e = Some n)
  end.

(** [e.findall(path)], in document order, and [e.find(path)]. *)
Fixpoint findall (path : list step) (e : element) : list element :=
  match path with
  | [] => [e]
  | s :: p => concat (map (findall p) (List.filter (selects s) (children e)))
  end.
Definition find_first (path : list step) (e : element) : option element := head (findall path e).

(** [e.findtext(path)] and [e.findtext(path, default)]. *)
Definition findtext (path : list step) (e : element) : option pystr := text_of <$> find_first path e.
Definition findtext_default (path : list step) (dflt : pystr) (e : element) : pystr :=
  default dflt (findtext path e).

(** A path of names. *)
Definition path_of (s : pystr) : list step := map Child (split_on 47 s).
Definition xpath (s : string) : list step := path_of (lit s).

(** [ET.Element(t, name=n)], [ET.SubElement] and [e.text = s]. *)
Definition new_element (t : pystr) : element := Element t [] None [].
Definition set_text (s : pystr) (e : element) : element := Element (tag e) (attrib e) (Some s) (children e).
Definition append_child (c e : element) : element := Element (tag e) (attrib e) (text e) (children e ++ [c]).

(** Apply [f] to the first child with a tag, if there is one. *)
Fixpoint on_first (t : pystr) (f : element -> element) (l : list element) : option (list element) :=
  match l with
  | [] => None
  | c :: r => if bool_decide (tag c = t) then Some (f c :: r) else (cons c) <$> on_first t f r
  end.

(** [e.remove(e.find(t))]. *)
Fixpoint remove_first (p : element -> bool) (l : list element) : option (list element) :=
  match l with
  | [] => None
  | c :: r => if p c then Some r else (cons c) <$> remove_first p r
  end.
Definition remove_child (t : pystr) (e : element) : element :=
  Element (tag e) (attrib e) (text e) (default (children e) (remove_first (selects (Child t)) (children e))).

(** ** Facts *)

Lemma findall_nil e : findall [] e = [e].
Proof. done. Qed.

Lemma findall_child_tag t e c : c ∈ findall [Child t] e -> tag c = t /\ c ∈ children e.
Proof.
  cbn [findall]. intros H. apply list_elem_of_In, in_concat in H as (l & Hl & Hc).
  apply in_map_iff in Hl as (x & <- & Hx). apply filter_In in Hx as [Hx Hs].
  destruct Hc as [<-|[]]. cbn [selects] in Hs. apply bool_decide_eq_true_1 in Hs.
  by split; [|apply list_elem_of_In].
Qed.

Lemma findall_app p q e : findall (p ++ q) e = concat (map (findall q) (findall p e)).
Proof.
  revert e; induction p as [|s p IH]; intros e; cbn [app findall]; [cbn; by rewrite app_nil_r|].
  induction (List.filter (selects s) (children e)) as [|c l IHl]; cbn; [done|].
  by rewrite map_app, concat_app, IH, IHl.
Qed.

Lemma find_first_In p e c : find_first p e = Some c -> c ∈ findall p e.
Proof. unfold find_first. apply head_Some_elem_of. Qed.
