(* ===== verification/PyIp6.v ===== *)
(** * IPv6 text and networks of either version, as [ipaddress] reads them

    [ip6_parse] is [IPv6Address(text)]: eight groups of at most four hexadecimal
    digits, one run of groups left out, an embedded IPv4 address at the end and a
    scope after a percent sign.  [ip_network] tries IPv4 first, then IPv6, and
    returns the canonical network; its text is [net_text]. *)

From S2P Require Import Prelude PyStr PyDict PyIp.

Definition is_hex (c : Z) : bool := is_digit c || between 65 c 70 || between 97 c 102.
Definition hex_value1 (c : Z) : Z := if c <? 58 then c - 48 else if c <? 71 then c - 55 else c - 87.
(** [_parse_hextet]. *)
Definition parse_hextet (s : pystr) : option Z :=
  if negb (forallb is_hex s) then None
  else if (4 <? length s)%nat then None
  else match s with [] => None | _ => Some (fold_left (fun n c => 16 * n + hex_value1 c) s 0) end.

(** [s.partition(sep)]: the text before the first separator and, if there is one, after it. *)
Fixpoint partition_on (sep : Z) (s : pystr) : pystr * option pystr :=
  match s with
  | [] => ([], None)
  | c :: t => if c =? sep then ([], Some t) else let r := partition_on sep t in (c :: r.1, r.2)
  end.

(** An IPv4 address in the last group stands for two groups. *)
Definition expand_embedded (parts : list pystr) : option (list pystr) :=
  match last parts with
  | None => None
  | Some l =>
      if bool_decide (46 ∈ l) then
        match ip4_parse l with
        | None => None
        | Some v =>
            let hex4 n := map hex_digit [n / 4096; n / 256 mod 16; n / 16 mod 16; n mod 16] in
            Some (removelast parts ++ [hex4 (v / 65536); hex4 (v mod 65536)])
        end
      else Some parts
  end.

(** The positions of the empty inner groups. *)
Definition empty_inner (parts : list pystr) : list nat :=
  List.filter (fun i => bool_decide (parts !! i = Some [])) (seq 1 (length parts - 2)).

Definition hextets (l : list pystr) : option Z :=
  fold_left (fun acc p => match acc, parse_hextet p with Some n, Some h => Some (65536 * n + h) | _, _ => None end) l (Some 0).

(** [IPv6Address._ip_int_from_string]. *)
Definition ip6_int (s : pystr) : option Z :=
  let raw := split_on 58 s in
  if (length raw <? 3)%nat then None else
  match expand_embedded raw with
  | None => None
  | Some parts =>
      if (9 <? length parts)%nat then None else
      let n := length parts in
      let first_empty := bool_decide (head parts = Some []) in
      let last_empty := bool_decide (last parts = Some []) in
      match empty_inner parts with
      | _ :: _ :: _ => None
      | [i] =>
          let hi := if first_empty then (i - 1)%nat else i in
          let lo := if last_empty then (n - i - 2)%nat else (n - i - 1)%nat in
          if (first_empty && negb (hi =? 0)%nat) || (last_empty && negb (lo =? 0)%nat) then None
          else if (7 <? hi + lo)%nat then None
          else match hextets (take hi parts), hextets (drop (n - lo) parts) with
               | Some a, Some b => Some (a * 65536 ^ (8 - Z.of_nat hi) + b)
               | _, _ => None
               end
      | [] => if negb (n =? 8)%nat || first_empty || last_empty then None else hextets parts
      end
  end.

(** [IPv6Address(text)]: the number and the scope. *)
Definition ip6_parse (s : pystr) : option (Z * option pystr) :=
  if bool_decide (47 ∈ s) then None else
  match partition_on 37 s with
  | (a, None) => (fun n => (n, None)) <$> ip6_int a
  | (a, Some sc) => if bool_decide (sc = []) || bool_decide (37 ∈ sc) then None else (fun n => (n, Some sc)) <$> ip6_int a
  end.

(** [str] of an IPv6 address: lower-case groups, the first longest run of zeros left out. *)
Definition hextet_text (n : Z) : pystr :=
  if n <? 16 then [hex_digit n]
  else if n <? 256 then [hex_digit (n / 16); hex_digit (n mod 16)]
  else if n <? 4096 then map hex_digit [n / 256; n / 16 mod 16; n mod 16]
  else map hex_digit [n / 4096; n / 256 mod 16; n / 16 mod 16; n mod 16].
Definition groups (a : Z) : list Z := map (fun i => a / 65536 ^ (7 - Z.of_nat i) mod 65536) (seq 0 8).
Fixpoint zero_run (l : list Z) : nat :=
  match l with 0 :: t => S (zero_run t) | _ => O end.
Definition best_run (l : list Z) : nat * nat :=
  fold_left (fun b i => let k := zero_run (drop i l) in if (b.2 <? k)%nat then (i, k) else b) (seq 0 (length l)) (O, O).
Definition join (sep : pystr) (l : list pystr) : pystr :=
  match l with [] => [] | x :: t => x ++ concat (map (fun y => sep ++ y) t) end.
Definition ip6_text (a : Z) : pystr :=
  let l := groups a in
  let '(i, k) := best_run l in
  if (k <? 2)%nat then join [58] (map hextet_text l)
  else join [58] (map hextet_text (take i l)) ++ [58; 58] ++ join [58] (map hextet_text (drop (i + k) l)).

(** ** Addresses and networks of either version *)

Inductive ipaddr := IPv4 (a : Z) | IPv6 (a : Z) (scope : option pystr).
Inductive ipnet := Net4 (a p : Z) | Net6 (a p : Z) (scope : option pystr).

(** [ip_address(text)]. *)
Definition ip_address (s : pystr) : option ipaddr :=
  match ip4_parse s with
  | Some a => Some (IPv4 a)
  | None => (fun x => IPv6 x.1 x.2) <$> ip6_parse s
  end.
Definition version (a : ipaddr) : Z := match a with IPv4 _ => 4 | IPv6 _ _ => 6 end.
Definition net_version (n : ipnet) : Z := match n with Net4 _ _ => 4 | Net6 _ _ _ => 6 end.
Definition scope_text (sc : option pystr) : pystr := match sc with Some s => 37 :: s | None => [] end.
Definition addr_text (a : ipaddr) : pystr :=
  match a with IPv4 a => ip4_text a | IPv6 a sc => ip6_text a ++ scope_text sc end.

Definition prefix6_parse (s : pystr) : option Z :=
  if all_digits s then let p := dec_value s in if p <=? 128 then Some p else None else None.
Definition network_address6 (a p : Z) : Z := a - a mod 2 ^ (128 - p).

(** [IPv4Network(text, strict)] and [IPv6Network(text, strict)]. *)
Definition ip4_network (strict : bool) (s : pystr) : option ipnet :=
  match iface_parse s with
  | Some (a, p) => if strict && negb (network_address a p =? a) then None else Some (Net4 (network_address a p) p)
  | None => None
  end.
Definition ip6_network (strict : bool) (s : pystr) : option ipnet :=
  let build a sc p :=
    let b := network_address6 a p in
    if b =? a then Some (Net6 a p sc) else if strict then None else Some (Net6 b p None) in
  match split_on 47 s with
  | [a] => match ip6_parse a with Some (a, sc) => build a sc 128 | None => None end
  | [a; m] => match ip6_parse a, prefix6_parse m with Some (a, sc), Some p => build a sc p | _, _ => None end
  | _ => None
  end.
(** [ip_network(text, strict)]: IPv6 is tried only when the text is not IPv4 at all. *)
Definition ip_network (strict : bool) (s : pystr) : option ipnet :=
  match iface_parse s with
  | Some _ => ip4_network strict s
  | None => ip6_network strict s
  end.
Definition net_text (n : ipnet) : pystr :=
  match n with
  | Net4 a p => ip4_text a ++ 47 :: octet_text p
  | Net6 a p sc => ip6_text a ++ scope_text sc ++ 47 :: octet_text p
  end.

(** [address in network]. *)
Definition in_net (x : ipaddr) (n : ipnet) : bool :=
  match x, n with
  | IPv4 a, Net4 b p => network_address a p =? b
  | IPv6 a _, Net6 b p _ => network_address6 a p =? b
  | _, _ => false
  end.

(** ** Facts *)

Lemma split_on_nil sep s : split_on sep s <> [].
Proof. destruct s as [|c t]; cbn; [done|]. destruct (c =? sep); [done|]. by destruct (split_on sep t). Qed.

Lemma network_address_ok a p : is_ip4 a -> 0 <= p <= 32 -> is_ip4 (network_address a p).
Proof.
  unfold is_ip4, network_address. intros Ha Hp. assert (0 < 2 ^ (32 - p)) by (apply Z.pow_pos_nonneg; lia).
  pose proof (Z.mod_pos_bound a (2 ^ (32 - p))). pose proof (Z.mod_le a (2 ^ (32 - p))). lia.
Qed.

Lemma network_address_idem a p : 0 <= p <= 32 -> network_address (network_address a p) p = network_address a p.
Proof.
  intros Hp. unfold network_address. assert (0 < 2 ^ (32 - p)) by (apply Z.pow_pos_nonneg; lia).
  rewrite Zminus_mod_idemp_r, Z.sub_diag, Z.mod_0_l by lia. lia.
Qed.

Lemma in_network_iff a p b : 0 <= p <= 32 ->
  (network_address a p =? network_address b p) = in_network b p a.
Proof.
  intros Hp. unfold in_network, broadcast_address, network_address, between.
  assert (0 < 2 ^ (32 - p)) as Hm by (apply Z.pow_pos_nonneg; lia). set (m := 2 ^ (32 - p)) in *.
  pose proof (Z.mod_pos_bound a m Hm). pose proof (Z.mod_pos_bound b m Hm).
  pose proof (Z.div_mod a m). pose proof (Z.div_mod b m).
  apply eq_true_iff_eq. rewrite Z.eqb_eq, andb_true_iff, !Z.leb_le. split; [nia|]. intros [H3 H4].
  assert (a / m = b / m) by nia. nia.
Qed.

Lemma iface_parse_bound s a p : iface_parse s = Some (a, p) -> is_ip4 a /\ 0 <= p <= 32.
Proof.
  unfold iface_parse. destruct (split_on 47 s) as [|x [|m [|? ?]]]; try done.
  - destruct (ip4_parse x) eqn:E; cbn; [|done]. intros [= <- <-]. apply ip4_parse_bound in E. split; [done | lia].
  - destruct (ip4_parse x) eqn:E; [|done]. destruct (mask_parse m) eqn:Em; [|done]. intros [= <- <-].
    split; [by eapply ip4_parse_bound | by eapply mask_parse_bound].
Qed.

(** The canonical text of an IPv4 network is read back as the network. *)
Lemma net4_text_parse strict a p : is_ip4 a -> 0 <= p <= 32 -> network_address a p = a ->
  ip_network strict (net_text (Net4 a p)) = Some (Net4 a p).
Proof.
  intros Ha Hp Hn. unfold ip_network, ip4_network. cbn [net_text].
  pose proof (iface_text_parse (a, p) Ha Hp) as E. unfold iface_text in E. cbn [fst snd] in E. rewrite E.
  by rewrite Hn, Z.eqb_refl, andb_false_r.
Qed.

Lemma ip6_network_v6 strict s a p : ip6_network strict s <> Some (Net4 a p).
Proof.
  unfold ip6_network. destruct (split_on 47 s) as [|x [|m [|? ?]]]; try done.
  - destruct (ip6_parse x) as [[]|]; [|done]. by case_ifs.
  - destruct (ip6_parse x) as [[]|]; [|done]. destruct (prefix6_parse m); [|done]. by case_ifs.
Qed.

Lemma v6_examples :
  ip6_parse (lit "2001:db8::1") = Some (42540766411282592856903984951653826561, None)
  /\ ip6_text 42540766411282592856903984951653826561 = lit "2001:db8::1"
  /\ option_map net_text (ip_network false (lit "2001:db8:0:1::5/64")) = Some (lit "2001:db8:0:1::/64")
  /\ ip_network true (lit "2001:db8:0:1::5/64") = None
  /\ option_map net_text (ip_network true (lit "::/0")) = Some (lit "::/0")
  /\ option_map net_text (ip_network true (lit "::ffff:10.0.0.1")) = Some (lit "::ffff:a00:1/128")
  /\ ip6_parse (lit "1::2::3") = None /\ ip6_parse (lit ":1:2:3:4:5:6:7") = None
  /\ option_map net_text (ip_network false (lit "1:0:0:2:0:0:0:3")) = Some (lit "1:0:0:2::3/128").
Proof. vm_compute. repeat split. Qed.
