(* ===== verification/PolicyObjects.v ===== *)
(** * Address, service and interface objects of a policy (ffn_nat_policy.py)

    A rule names objects: addresses, address groups, services, service groups and
    zones of the virtual system or of the shared section.  [Resolver] expands the
    names to canonical networks and ranges, port lists and interface names.  Groups
    may nest; the expansion stops at seventeen levels and at a name that is already
    being expanded, so a depth of eighteen is fuel enough for every configuration
    ([resolver_terminates]). *)

From S2P Require Import Prelude PyStr PyDict PyIp PyXml PyIp6.

(** The exceptions of the policy modules, with the text the user sees. *)
Inductive exn :=
| NatError (msg : pystr)
| PolicyError (msg : pystr) (code : Z)
| ValueError
| OutOfFuel.
#[global] Instance exn_eq_dec : EqDecision exn.
Proof. solve_decision. Defined.

(** A literal with characters outside ASCII, written in UTF-8. *)
Definition utf (s : string) : pystr := default [] (utf8_decode (lit s)).
(** [str(x)] of an attribute that may be missing. *)
Definition opt_text (x : option pystr) : pystr := default (lit "None") x.
(** [sorted(set(l))]. *)
Definition sorted_set (l : list pystr) : list pystr := py_sorted str_le (remove_dups l).
Definition str_in (x : pystr) (l : list pystr) : bool := bool_decide (x ∈ l).

(** ** Numbers as text *)

(** [int(s)] of a text of digits; texts of more than 4300 digits are refused. *)
Definition int_of_digits (s : pystr) : option Z :=
  if (4300 <? length s)%nat then None else
  fold_left (fun acc c => match acc, digit_value c with Some n, Some v => Some (10 * n + v) | _, _ => None end) s (Some 0).
(** [str(n)] for a natural number. *)
Fixpoint nat_text_fuel (fuel : nat) (n : Z) : pystr :=
  match fuel with
  | O => []
  | S k => if n <? 10 then [48 + n] else nat_text_fuel k (n / 10) ++ [48 + n mod 10]
  end.
Definition nat_text (n : Z) : pystr := nat_text_fuel (S (Z.to_nat (Z.log2 n))) n.

(** ** Addresses *)

Definition ipv4 (value : pystr) (host : bool) : result exn pystr :=
  let refused := Err (NatError (lit "Expected an IPv4 "
    ++ (if host then lit "host address" else lit "address, subnet or range") ++ lit ": " ++ value)) in
  if bool_decide (45 ∈ value) && negb host then
    match split_on 45 value with
    | [a; b] =>
        match ip4_parse a, ip4_parse b with
        | Some a, Some b => if b <? a then refused else Ok (ip4_text a ++ [45] ++ ip4_text b)
        | _, _ => refused
        end
    | _ => refused
    end
  else
    match ip_network false value with
    | Some (Net4 a p) =>
        if host && negb (p =? 32) then refused
        else if host && (is_multicast a || is_unspecified a || is_loopback a) then refused
        else Ok (if host then ip4_text a else net_text (Net4 a p))
    | _ => refused
    end.

(** ** Ports *)

(** One end of a range; a digit that [int] refuses is a plain [ValueError]. *)
Definition port_end (value x : pystr) : result exn Z :=
  if negb (isdigit x) then Err (NatError (lit "Invalid service ports: " ++ value))
  else match int_of_digits x with
       | None => Err ValueError
       | Some n => if between 1 n 65535 then Ok n else Err (NatError (lit "Invalid service ports: " ++ value))
       end.
Definition port_range (value part : pystr) : result exn pystr :=
  match split_on 45 part with
  | [a] => n ← port_end value a; Ok (nat_text n)
  | [a; b] =>
      n ← port_end value a; m ← port_end value b;
      if m <? n then Err (NatError (lit "Reversed service port range")) else Ok (nat_text n ++ [45] ++ nat_text m)
  | _ => Err (NatError (lit "Invalid service ports: " ++ value))
  end.
Definition ports (value : pystr) : result exn (list pystr) := mapM_res (port_range value) (split_on 44 value).

(** ** The resolver *)

Record resolver := { r_root : element; r_owner : element; r_family : Z }.
Record service := { protocol : pystr; source_ports : list pystr; destination_ports : list pystr }.
Definition any_service : service := {| protocol := lit "any"; source_ports := []; destination_ports := [] |}.

(** Local objects shadow shared objects. *)
Definition resolver_find (r : resolver) (kind name : pystr) : option element :=
  let named e := bool_decide (eget (lit "name") e = Some name) in
  let inside p := List.find named (findall (path_of kind ++ [Child (lit "entry")]) p) in
  match inside (r_owner r) with
  | Some e => Some e
  | None => find_first (xpath "shared") (r_root r) ≫= inside
  end.

(** [Resolver.addresses.address]. *)
Definition address_text (r : resolver) (value : pystr) (object_value : bool) : result exn pystr :=
  if r_family r =? 4 then ipv4 value false
  else match ip_network (negb object_value) value with
       | Some (Net6 a p sc) => Ok (net_text (Net6 a p sc))
       | _ => Err (NatError (lit "Expected an IPv6 address or network prefix: " ++ value))
       end.

Definition member_texts (l : list element) : list pystr := map text_of l.

(** The value element of an address object. *)
Definition object_child (entry : element) : option element :=
  match find_first (xpath "ip-netmask") entry with
  | Some c => Some c
  | None => find_first (xpath "ip-range") entry
  end.

(** The texts one value of the loop of [addresses] adds; [rec] is the expansion of a group. *)
Definition address_value (r : resolver) (rec : list pystr -> list pystr -> result exn (list pystr))
    (stack : list pystr) (value : pystr) : result exn (list pystr) :=
  match resolver_find r (lit "address") value, resolver_find r (lit "address-group") value with
  | Some entry, _ =>
      match object_child entry with
      | None => Err (NatError (lit "NAT requires static address objects; unresolved object: " ++ value))
      | Some child => t ← address_text r (text_of child) (bool_decide (tag child = lit "ip-netmask")); Ok [t]
      end
  | None, Some group =>
      let members := findall (xpath "static/member") group in
      if (if find_first (xpath "dynamic") group then true else false) || (length members =? 0)%nat then
        Err (NatError (lit "NAT requires a nonempty static address group: " ++ value))
      else rec (member_texts members) (stack ++ [value])
  | None, None => t ← address_text r value false; Ok [t]
  end.

Definition address_step (r : resolver) (rec : list pystr -> list pystr -> result exn (list pystr))
    (stack out : list pystr) (value : pystr) : result exn (list pystr) :=
  if (16 <? length stack)%nat || str_in value stack then
    Err (NatError (lit "Address group cycle or excessive nesting: " ++ value))
  else if bool_decide (value = lit "any") then
    Ok (out ++ [if r_family r =? 4 then lit "0.0.0.0/0" else lit "::/0"])
  else
    more ← address_value r rec stack value;
    if (256 <? length (out ++ more))%nat then Err (NatError (lit "Expanded address list exceeds 256 entries"))
    else Ok (out ++ more).

Fixpoint addresses_rec (r : resolver) (fuel : nat) (values stack : list pystr) : result exn (list pystr) :=
  match fuel with
  | O => Err OutOfFuel
  | S k => out ← foldM_res (address_step r (addresses_rec r k) stack) [] values; Ok (sorted_set out)
  end.
Definition addresses (r : resolver) (values : list pystr) : result exn (list pystr) := addresses_rec r 18 values [].

Definition protocol_children (entry : element) : list element :=
  match find_first (xpath "protocol") entry with Some p => children p | None => [] end.
(** Source ports are optional; an empty text means any. *)
Definition source_ports_of (child : element) : result exn (list pystr) :=
  match findtext (xpath "source-port") child with
  | Some ((_ :: _) as t) => ports t
  | _ => Ok []
  end.
Definition service_value (r : resolver) (rec : list pystr -> list pystr -> result exn (list service))
    (stack : list pystr) (value : pystr) : result exn (list service) :=
  match resolver_find r (lit "service") value, resolver_find r (lit "service-group") value with
  | Some entry, _ =>
      match protocol_children entry with
      | [child] =>
          if str_in (tag child) [lit "tcp"; lit "udp"] then
            sp ← source_ports_of child;
            dp ← ports (findtext_default (xpath "port") [] child);
            Ok [{| protocol := tag child; source_ports := sp; destination_ports := dp |}]
          else Err (NatError (lit "Only TCP/UDP service objects are supported: " ++ value))
      | _ => Err (NatError (lit "Only TCP/UDP service objects are supported: " ++ value))
      end
  | None, Some group =>
      let members := findall (xpath "members/member") group in
      if (length members =? 0)%nat then Err (NatError (lit "Empty service group: " ++ value))
      else rec (member_texts members) (stack ++ [value])
  | None, None => Err (NatError (lit "Unknown service: " ++ value))
  end.

Definition service_step (r : resolver) (rec : list pystr -> list pystr -> result exn (list service))
    (stack : list pystr) (out : list service) (value : pystr) : result exn (list service) :=
  if (16 <? length stack)%nat || str_in value stack then
    Err (NatError (lit "Service group cycle or excessive nesting: " ++ value))
  else if bool_decide (value = lit "any") then Ok (out ++ [any_service])
  else
    more ← service_value r rec stack value;
    if (256 <? length (out ++ more))%nat then Err (NatError (lit "Expanded service list exceeds 256 entries"))
    else Ok (out ++ more).

Fixpoint services_rec (r : resolver) (fuel : nat) (values stack : list pystr) : result exn (list service) :=
  match fuel with
  | O => Err OutOfFuel
  | S k => foldM_res (service_step r (services_rec r k) stack) [] values
  end.
Definition services (r : resolver) (values : list pystr) : result exn (list service) := services_rec r 18 values [].

(** An unaddressed aggregate that only carries units is not an endpoint itself. *)
Definition is_container (entry : element) : bool :=
  match find_first (xpath "layer3") entry with
  | None => false
  | Some layer =>
      bool_decide (findtext (xpath "aggregate-only") entry = Some (lit "yes"))
      || ((if find_first (xpath "units/entry") layer then true else false)
          && (length (findall (xpath "ip/entry") layer) =? 0)%nat
          && negb (bool_decide (findtext_default (xpath "dhcp-client/enable") (lit "no") layer = lit "yes")))
  end.
Definition containers (root : element) : list (option pystr) :=
  map (eget (lit "name")) (List.filter is_container
    (findall (xpath "devices/entry/network/interface/aggregate-ethernet/entry") root)).

Definition zone_interfaces (r : resolver) (zones : list (option pystr)) (out : list pystr) (zone : element) : result exn (list pystr) :=
  let is_any := bool_decide (zones = [Some (lit "any")]) in
  let name := eget (lit "name") zone in
  if negb is_any && negb (bool_decide (name ∈ zones)) then Ok out
  else
    let members := findall (xpath "network/layer3/member") zone in
    if (length members =? 0)%nat && negb is_any then
      Err (NatError (lit "NAT requires a nonempty Layer 3 zone: " ++ opt_text name))
    else Ok (out ++ member_texts (List.filter (fun m => negb (bool_decide (text m ∈ containers (r_root r)))) members)).

Definition interfaces (r : resolver) (zones : list (option pystr)) : result exn (list pystr) :=
  out ← foldM_res (zone_interfaces r zones) [] (findall (xpath "zone/entry") (r_owner r));
  if (length out =? 0)%nat then Err (NatError (lit "Assign Layer 3 interfaces to the selected zones before activating NAT"))
  else Ok (sorted_set out).

(** ** What a name stands for *)

(** [address in item] for one item of an expanded list (ffn_policy_plan.py, [address_match]). *)
Definition item_match (x : ipaddr) (item : pystr) : result exn bool :=
  if bool_decide (45 ∈ item) then
    match split_on 45 item with
    | [lo; hi] =>
        match x with
        | IPv4 a => match ip4_parse lo with
                    | None => Err ValueError
                    | Some l => if l <=? a then match ip4_parse hi with None => Err ValueError | Some h => Ok (a <=? h) end
                                else Ok false
                    end
        | IPv6 _ _ => Ok false
        end
    | _ => Err ValueError
    end
  else match ip_network true item with Some n => Ok (in_net x n) | None => Err ValueError end.

(** The addresses a configured text stands for: a range, a host or a subnet with or without host bits. *)
Definition text_covers (t : pystr) (a : Z) : Prop :=
  if bool_decide (45 ∈ t) then
    exists lo hi l h, split_on 45 t = [lo; hi] /\ ip4_parse lo = Some l /\ ip4_parse hi = Some h /\ l <= a <= h
  else exists b p, iface_parse t = Some (b, p) /\ in_network b p a = true.

(** The addresses a name stands for in a configuration. *)
Inductive denotes (r : resolver) : pystr -> Z -> Prop :=
| den_any a : denotes r (lit "any") a
| den_object v e c a : v <> lit "any" -> resolver_find r (lit "address") v = Some e ->
    object_child e = Some c -> text_covers (text_of c) a -> denotes r v a
| den_group v g m a : v <> lit "any" -> resolver_find r (lit "address") v = None ->
    resolver_find r (lit "address-group") v = Some g -> m ∈ findall (xpath "static/member") g ->
    denotes r (text_of m) a -> denotes r v a
| den_literal v a : v <> lit "any" -> resolver_find r (lit "address") v = None ->
    resolver_find r (lit "address-group") v = None -> text_covers v a -> denotes r v a.

(** ** Facts *)

Lemma elem_sorted_set x l : x ∈ sorted_set l <-> x ∈ l.
Proof. unfold sorted_set. by rewrite py_sorted_perm, elem_of_remove_dups. Qed.

Lemma NoDup_sorted_set l : NoDup (sorted_set l).
Proof. unfold sorted_set. rewrite py_sorted_perm. apply NoDup_remove_dups. Qed.

Lemma Sorted_sorted_set l : Sorted (fun a b => str_le a b = true) (sorted_set l).
Proof. apply py_sorted_Sorted, str_le_total. Qed.

Lemma ip4_text_nodash ip : Forall (fun c => c <> 45) (ip4_text ip).
Proof.
  unfold ip4_text.
  repeat (apply Forall_app; split; [apply octet_text_sep; [done | apply Z.mod_pos_bound; lia]|];
          apply Forall_cons; split; [done|]).
  apply octet_text_sep; [done | apply Z.mod_pos_bound; lia].
Qed.

Lemma nodash_iff (s : pystr) : Forall (fun c => c <> 45) s -> bool_decide (45 ∈ s) = false.
Proof. intros H. apply bool_decide_eq_false_2. intros Hin. rewrite Forall_forall in H. by eapply H. Qed.

Lemma net4_text_nodash a p : 0 <= p <= 32 -> Forall (fun c => c <> 45) (net_text (Net4 a p)).
Proof.
  intros Hp. cbn [net_text]. apply Forall_app; split; [apply ip4_text_nodash|].
  apply Forall_cons; split; [done|]. apply octet_text_sep; [done | lia].
Qed.

(** The canonical text of a range matches the addresses between its ends. *)
Lemma range_item l h a : is_ip4 l -> is_ip4 h ->
  item_match (IPv4 a) (ip4_text l ++ [45] ++ ip4_text h) = Ok (between l a h).
Proof.
  intros Hl Hh. unfold item_match. rewrite bool_decide_eq_true_2 by set_solver.
  cbn [app]. rewrite split_on_sep by apply ip4_text_nodash. rewrite split_on_word by apply ip4_text_nodash.
  rewrite !ip4_text_parse by done. unfold between. by destruct (l <=? a).
Qed.

(** The canonical text of a network matches the addresses of the network. *)
Lemma net_item b p a : is_ip4 b -> 0 <= p <= 32 ->
  item_match (IPv4 a) (net_text (Net4 (network_address b p) p)) = Ok (in_network b p a).
Proof.
  intros Hb Hp. unfold item_match. rewrite nodash_iff by (by apply net4_text_nodash).
  rewrite net4_text_parse by (try apply network_address_ok; auto using network_address_idem).
  cbn [in_net]. f_equal. by apply in_network_iff.
Qed.

(** [ipv4] keeps the meaning of the text it normalises. *)
Lemma ipv4_meaning t u : ipv4 t false = Ok u ->
  forall a, exists b, item_match (IPv4 a) u = Ok b /\ (b = true <-> text_covers t a).
Proof.
  unfold ipv4, text_covers. destruct (bool_decide (45 ∈ t)) eqn:Ed; cbn [andb negb].
  - destruct (split_on 45 t) as [|x [|y [|? ?]]] eqn:Es; try done.
    destruct (ip4_parse x) as [l|] eqn:El; [|done]. destruct (ip4_parse y) as [h|] eqn:Eh; [|done].
    destruct (h <? l) eqn:Elt; [done|]. intros [= <-] a. exists (between l a h). split.
    + apply range_item; by eapply ip4_parse_bound.
    + unfold between. rewrite andb_true_iff, !Z.leb_le. naive_solver.
  - unfold ip_network. destruct (iface_parse t) as [[b p]|] eqn:Ei.
    + destruct (iface_parse_bound _ _ _ Ei) as [Hb Hp]. unfold ip4_network. rewrite Ei. cbn [andb].
      intros [= <-] a. exists (in_network b p a). split; [by apply net_item|]. naive_solver.
    + destruct (ip6_network false t) as [[]|] eqn:E6; [|done..]. by apply ip6_network_v6 in E6.
Qed.

(** Each normalised text matches every IPv4 address without an error. *)
Definition matches_v4 (u : pystr) : Prop := forall a, exists b, item_match (IPv4 a) u = Ok b.
Definition some_match (a : Z) (l : list pystr) : Prop := exists u, u ∈ l /\ item_match (IPv4 a) u = Ok true.

Section meaning.
Context (r : resolver) (Hfam : r_family r = 4).

Lemma address_text_v4 t o : address_text r t o = ipv4 t false.
Proof. unfold address_text. by rewrite Hfam. Qed.

Lemma single_meaning t u : ipv4 t false = Ok u ->
  Forall matches_v4 [u] /\ forall a, some_match a [u] <-> text_covers t a.
Proof.
  intros H. pose proof (ipv4_meaning t u H) as Hm. split.
  - apply Forall_singleton. intros a. destruct (Hm a) as (b & Hb & _). by exists b.
  - intros a. destruct (Hm a) as (b & Hb & Hiff). unfold some_match. split.
    + intros (v & ->%list_elem_of_singleton & Hv). apply Hiff. congruence.
    + intros Hc. exists u. rewrite list_elem_of_singleton. split; [done|]. apply Hiff in Hc. congruence.
Qed.

Lemma any_meaning : matches_v4 (lit "0.0.0.0/0") /\ forall a, is_ip4 a -> some_match a [lit "0.0.0.0/0"].
Proof.
  assert (lit "0.0.0.0/0" = net_text (Net4 (network_address 0 0) 0)) as -> by (vm_compute; reflexivity).
  assert (forall a, item_match (IPv4 a) (net_text (Net4 (network_address 0 0) 0)) = Ok (in_network 0 0 a)) as H.
  { intros a. apply net_item; unfold is_ip4; lia. }
  split; [intros a; rewrite H; eauto|]. intros a Ha. eexists. split; [apply list_elem_of_here|]. rewrite H.
  f_equal. unfold is_ip4 in Ha. unfold in_network, between, broadcast_address, network_address.
  change (2 ^ (32 - 0)) with (2 ^ 32). cbn [Z.modulo]. rewrite Z.mod_0_l by lia.
  apply andb_true_iff. rewrite !Z.leb_le. lia.
Qed.

(** The names [values] expand exactly to the addresses [l] matches. *)
Definition exact (values l : list pystr) : Prop :=
  Forall matches_v4 l /\ forall a, is_ip4 a -> some_match a l <-> exists v, v ∈ values /\ denotes r v a.

Lemma exact_app vs1 vs2 l1 l2 : exact vs1 l1 -> exact vs2 l2 -> exact (vs1 ++ vs2) (l1 ++ l2).
Proof.
  intros [H1 H2] [H3 H4]. split; [by apply Forall_app|]. intros a Ha. specialize (H2 a Ha). specialize (H4 a Ha).
  assert (some_match a (l1 ++ l2) <-> some_match a l1 \/ some_match a l2) as ->.
  { unfold some_match. setoid_rewrite elem_of_app. naive_solver. }
  rewrite H2, H4. setoid_rewrite elem_of_app. naive_solver.
Qed.

Lemma exact_sorted vs l : exact vs l -> exact vs (sorted_set l).
Proof.
  intros [H1 H2]. split.
  - rewrite Forall_forall in *. intros x Hx. apply H1. by apply elem_sorted_set.
  - intros a Ha. rewrite <- (H2 a Ha). unfold some_match. by setoid_rewrite elem_sorted_set.
Qed.

Lemma exact_single v l : (Forall matches_v4 l) -> (forall a, is_ip4 a -> some_match a l <-> denotes r v a) -> exact [v] l.
Proof.
  intros H1 H2. split; [done|]. intros a Ha. rewrite H2 by done. split.
  - intros H. exists v. by rewrite list_elem_of_singleton.
  - by intros (w & ->%list_elem_of_singleton & H).
Qed.

Lemma exact_any : exact [lit "any"] [lit "0.0.0.0/0"].
Proof.
  destruct any_meaning as [H1 H2]. apply exact_single; [by apply Forall_singleton|].
  intros a Ha. split; [intros _; apply den_any | intros _; by apply H2].
Qed.

(** One value that is not [any]. *)
Lemma address_value_exact rec stack v more :
  (forall vs st l, rec vs st = Ok l -> exact vs l) -> v <> lit "any" ->
  address_value r rec stack v = Ok more -> exact [v] more.
Proof.
  intros Hrec Hv. unfold address_value.
  destruct (resolver_find r (lit "address") v) as [e|] eqn:Ea.
  - destruct (object_child e) as [c|] eqn:Ec; [|done]. rewrite address_text_v4. intros H. inv_res.
    destruct (single_meaning _ _ Hv0) as [H1 H2]. apply exact_single; [done|]. intros a _. rewrite H2.
    split; [intros; by eapply den_object|]. inversion 1; congruence.
  - destruct (resolver_find r (lit "address-group") v) as [g|] eqn:Eg.
    + destruct (_ || _) eqn:Ed; [done|]. intros [H1 H2]%Hrec. apply exact_single; [done|]. intros a Ha.
      rewrite (H2 a Ha). unfold member_texts. split.
      * intros (w & Hw & Hd). apply list_elem_of_In, in_map_iff in Hw as (m & <- & Hm).
        eapply den_group; eauto. by apply list_elem_of_In.
      * inversion 1; try congruence. simplify_eq. exists (text_of m). split; [|done].
        apply list_elem_of_In, in_map, list_elem_of_In. done.
    + rewrite address_text_v4. intros H. inv_res. destruct (single_meaning _ _ Hv0) as [H1 H2].
      apply exact_single; [done|]. intros a _. rewrite H2.
      split; [intros; by eapply den_literal|]. inversion 1; congruence.
Qed.

Lemma address_step_exact rec stack vs out v out' :
  (forall ws st l, rec ws st = Ok l -> exact ws l) -> exact vs out ->
  address_step r rec stack out v = Ok out' -> exact (vs ++ [v]) out'.
Proof.
  intros Hrec Hout. unfold address_step. destruct (_ || _); [done|]. case_bool_decide as Hv.
  - subst v. rewrite Hfam. cbn [Z.eqb Pos.eqb]. intros [= <-]. apply exact_app; [done | apply exact_any].
  - intros H. inv_res. split_if H; [done|]. injection H as <-. apply exact_app; [done|].
    by eapply address_value_exact.
Qed.

Lemma address_fold_exact rec stack values vs out out' :
  (forall ws st l, rec ws st = Ok l -> exact ws l) -> exact vs out ->
  foldM_res (address_step r rec stack) out values = Ok out' -> exact (vs ++ values) out'.
Proof.
  intros Hrec. revert vs out. induction values as [|v t IH]; intros vs out Hout; cbn [foldM_res].
  - intros [= <-]. by rewrite app_nil_r.
  - intros H. inv_res. rewrite cons_middle, app_assoc. eapply IH; [|exact H]. by eapply address_step_exact.
Qed.

Lemma exact_nil : exact [] [].
Proof. split; [constructor|]. intros a _. split; [by intros (u & []%not_elem_of_nil & _) | by intros (u & []%not_elem_of_nil & _)]. Qed.

Lemma addresses_rec_exact fuel values stack l : addresses_rec r fuel values stack = Ok l -> exact values l.
Proof.
  revert values stack l; induction fuel as [|k IH]; intros values stack l; cbn [addresses_rec]; [done|].
  intros H. inv_res. apply exact_sorted. eapply (address_fold_exact _ _ values []); [exact IH | apply exact_nil | done].
Qed.

End meaning.

(** [address_match] of ffn_policy_plan.py on an address. *)
Fixpoint address_match (x : ipaddr) (addresses : list pystr) : result exn bool :=
  match addresses with
  | [] => Ok false
  | item :: t =>
      match item_match x item with
      | Ok true => Ok true
      | Ok false => address_match x t
      | Err e => Err e
      end
  end.

Lemma address_match_some a l : Forall matches_v4 l ->
  exists b, address_match (IPv4 a) l = Ok b /\ (b = true <-> some_match a l).
Proof.
  induction 1 as [|u l Hu _ IH]; cbn [address_match].
  - exists false. split; [done|]. split; [done|]. by intros (u & []%not_elem_of_nil & _).
  - destruct (Hu a) as (b & Hb). destruct IH as (c & Hc & Hiff). rewrite Hb. unfold some_match in *.
    setoid_rewrite elem_of_cons. destruct b.
    + exists true. split; [done|]. split; [|done]. intros _. exists u. by split; [left|].
    + rewrite Hc. exists c. split; [done|]. rewrite Hiff. split; [naive_solver|].
      intros (v & [->|Hv] & Hm); [congruence | eauto].
Qed.

(** ** Termination *)

Section termination.
Context {A : Type} (f : list A -> pystr -> result exn (list A)).

Lemma foldM_not_fuel values out :
  (forall out v, f out v <> Err OutOfFuel) -> foldM_res f out values <> Err OutOfFuel.
Proof.
  intros H. revert out; induction values as [|v t IH]; intros out; cbn [foldM_res]; [done|].
  specialize (H out v). destruct (f out v); cbn [mbind result_bind]; [apply IH | congruence].
Qed.
End termination.

Lemma ipv4_not_fuel t h : ipv4 t h <> Err OutOfFuel.
Proof.
  unfold ipv4. destruct (_ && _).
  - destruct (split_on 45 t) as [|? [|? [|? ?]]]; try done.
    repeat (destruct (ip4_parse _); [|done]). by case_ifs.
  - destruct (ip_network false t) as [[]|]; try done. by case_ifs.
Qed.

Lemma address_text_not_fuel r t o : address_text r t o <> Err OutOfFuel.
Proof.
  unfold address_text. destruct (r_family r =? 4); [apply ipv4_not_fuel|].
  by destruct (ip_network (negb o) t) as [[]|].
Qed.

Lemma ports_not_fuel t : ports t <> Err OutOfFuel.
Proof.
  assert (forall x, port_end t x <> Err OutOfFuel) as He.
  { intros x. unfold port_end. destruct (isdigit x); cbn [negb]; [|done]. destruct (int_of_digits x); [|done]. by case_ifs. }
  assert (forall x, port_range t x <> Err OutOfFuel) as Hr.
  { intros x. unfold port_range. destruct (split_on 45 x) as [|a [|b [|? ?]]]; try done.
    - pose proof (He a). destruct (port_end t a); cbn [mbind result_bind]; congruence.
    - pose proof (He a). pose proof (He b). destruct (port_end t a); cbn [mbind result_bind]; [|congruence].
      destruct (port_end t b); cbn [mbind result_bind]; [by case_ifs | congruence]. }
  unfold ports. induction (split_on 44 t) as [|x l IH]; cbn [mapM_res]; [done|]. specialize (Hr x).
  destruct (port_range t x); cbn [mbind result_bind]; [|congruence].
  destruct (mapM_res (port_range t) l); cbn [mbind result_bind]; congruence.
Qed.

(** Expanding below depth [17] leaves fuel for the next level. *)
Lemma address_step_fuel r k stack out v : (S k + length stack = 18)%nat ->
  (forall vs st, (k + length st = 18)%nat -> (0 < k)%nat -> addresses_rec r k vs st <> Err OutOfFuel) ->
  address_step r (addresses_rec r k) stack out v <> Err OutOfFuel.
Proof.
  intros Hk IH. unfold address_step. destruct (16 <? length stack)%nat eqn:E; cbn [orb]; [done|].
  apply Nat.ltb_ge in E. case_ifs; try done.
  assert (address_value r (addresses_rec r k) stack v <> Err OutOfFuel) as H.
  { unfold address_value. destruct (resolver_find r (lit "address") v).
    - destruct (object_child _) as [c|]; [|done].
      pose proof (address_text_not_fuel r (text_of c) (bool_decide (tag c = lit "ip-netmask"))).
      destruct (address_text r _ _); cbn [mbind result_bind]; congruence.
    - destruct (resolver_find r (lit "address-group") v).
      + case_ifs; try done. all: apply IH; [rewrite length_app; cbn [length]; lia | lia].
      + pose proof (address_text_not_fuel r v false). destruct (address_text r v false); cbn [mbind result_bind]; congruence. }
  destruct (address_value _ _ _ _); cbn [mbind result_bind]; [by case_ifs | congruence].
Qed.

Lemma addresses_rec_fuel r k values stack : (k + length stack = 18)%nat -> (0 < k)%nat ->
  addresses_rec r k values stack <> Err OutOfFuel.
Proof.
  revert values stack; induction k as [|k IH]; intros values stack Hk H0; [lia|]. cbn [addresses_rec].
  pose proof (foldM_not_fuel (address_step r (addresses_rec r k) stack) values []
    (fun out v => address_step_fuel r k stack out v Hk IH)).
  destruct (foldM_res _ _ _); cbn [mbind result_bind]; congruence.
Qed.

Lemma service_step_fuel r k stack out v : (S k + length stack = 18)%nat ->
  (forall vs st, (k + length st = 18)%nat -> (0 < k)%nat -> services_rec r k vs st <> Err OutOfFuel) ->
  service_step r (services_rec r k) stack out v <> Err OutOfFuel.
Proof.
  intros Hk IH. unfold service_step. destruct (16 <? length stack)%nat eqn:E; cbn [orb]; [done|].
  apply Nat.ltb_ge in E. case_ifs; try done.
  assert (service_value r (services_rec r k) stack v <> Err OutOfFuel) as H.
  { unfold service_value. destruct (resolver_find r (lit "service") v) as [e|].
    - destruct (protocol_children e) as [|c [|? ?]]; try done.
      destruct (str_in (tag c) _); [|done].
      assert (source_ports_of c <> Err OutOfFuel) as Hs.
      { unfold source_ports_of. destruct (findtext _ c) as [[|x t]|]; try done. apply ports_not_fuel. }
      destruct (source_ports_of c); cbn [mbind result_bind]; [|congruence].
      pose proof (ports_not_fuel (findtext_default (xpath "port") [] c)).
      destruct (ports _); cbn [mbind result_bind]; congruence.
    - destruct (resolver_find r (lit "service-group") v); [|done].
      case_ifs; [done|]. apply IH; [rewrite length_app; cbn [length]; lia | lia]. }
  destruct (service_value _ _ _ _); cbn [mbind result_bind]; [by case_ifs | congruence].
Qed.

Lemma services_rec_fuel r k values stack : (k + length stack = 18)%nat -> (0 < k)%nat ->
  services_rec r k values stack <> Err OutOfFuel.
Proof.
  revert values stack; induction k as [|k IH]; intros values stack Hk H0; [lia|]. cbn [services_rec].
  exact (foldM_not_fuel (service_step r (services_rec r k) stack) values []
    (fun out v => service_step_fuel r k stack out v Hk IH)).
Qed.

(** The expansion of address and service names ends on every configuration, also
    when groups contain each other: the recursion never runs deeper than the bound
    the code checks. *)
Theorem resolver_terminates r values :
  addresses r values <> Err OutOfFuel /\ services r values <> Err OutOfFuel.
Proof. split; [apply addresses_rec_fuel | apply services_rec_fuel]; cbn; lia. Qed.

(** ** A configuration *)

Definition el (t : string) (kids : list element) : element := Element (lit t) [] None kids.
Definition leaf (t s : string) : element := Element (lit t) [] (Some (lit s)) [].
Definition entry (name : string) (kids : list element) : element :=
  Element (lit "entry") [(lit "name", lit name)] None kids.

(** Two hosts and a subnet in nested groups, one name shadowed by the virtual system. *)
Definition demo_owner : element :=
  entry "vsys1"
    [ el "address" [ entry "web" [leaf "ip-netmask" "10.1.2.9/24"]; entry "lab" [leaf "ip-range" "10.9.0.1-10.9.0.20"] ];
      el "address-group" [ entry "all" [el "static" [leaf "member" "web"; leaf "member" "sub"]];
                           entry "sub" [el "static" [leaf "member" "lab"; leaf "member" "dns"]];
                           entry "loop" [el "static" [leaf "member" "loop"]] ];
      el "service" [ entry "https" [el "protocol" [el "tcp" [leaf "port" "443,8443-8450"]]] ];
      el "zone" [ entry "trust" [el "network" [el "layer3" [leaf "member" "ethernet1/1"]]];
                  entry "untrust" [el "network" [el "layer3" [leaf "member" "ethernet1/2"]]] ] ].
Definition demo_root : element :=
  el "config" [ el "shared" [ el "address" [ entry "dns" [leaf "ip-netmask" "192.0.2.53"]; entry "web" [leaf "ip-netmask" "198.51.100.1"] ] ];
                el "devices" [ entry "localhost.localdomain" [ el "vsys" [demo_owner] ] ] ].
Definition demo : resolver := {| r_root := demo_root; r_owner := demo_owner; r_family := 4 |}.

Lemma demo_addresses : addresses demo [lit "all"] =
  Ok [lit "10.1.2.0/24"; lit "10.9.0.1-10.9.0.20"; lit "192.0.2.53/32"].
Proof. vm_compute. reflexivity. Qed.

Lemma demo_cycle : addresses demo [lit "loop"] = Err (NatError (lit "Address group cycle or excessive nesting: loop")).
Proof. vm_compute. reflexivity. Qed.

Lemma demo_services : services demo [lit "https"; lit "any"] =
  Ok [ {| protocol := lit "tcp"; source_ports := []; destination_ports := [lit "443"; lit "8443-8450"] |}; any_service ].
Proof. vm_compute. reflexivity. Qed.

(** C27. For an IPv4 resolver, what the expanded list matches is what the names stand for: an IPv4 address matches the
    canonical list [addresses] returns exactly when one of the names denotes it, through
    objects, nested groups, shared objects and literal text; the list is sorted and has no
    entry twice. *)
Theorem addresses_exact r values l : r_family r = 4 -> addresses r values = Ok l ->
  Sorted (fun a b => str_le a b = true) l /\ NoDup l /\
  forall a, is_ip4 a -> exists b, address_match (IPv4 a) l = Ok b /\ (b = true <-> exists v, v ∈ values /\ denotes r v a).
Proof.
  intros Hf Hl. destruct (addresses_rec_exact r Hf _ _ _ _ Hl) as [H1 H2].
  unfold addresses in Hl. cbn [addresses_rec] in Hl. apply bind_ok_inv in Hl as (out & _ & [= <-]).
  split; [apply Sorted_sorted_set|]. split; [apply NoDup_sorted_set|]. intros a Ha.
  destruct (address_match_some a _ H1) as (b & Hb & Hiff). exists b. split; [done|]. by rewrite Hiff, H2.
Qed.

Lemma addresses_exact_witness : r_family demo = 4 /\
  forall a, is_ip4 a -> exists b, address_match (IPv4 a) [lit "10.1.2.0/24"; lit "10.9.0.1-10.9.0.20"; lit "192.0.2.53/32"] = Ok b
    /\ (b = true <-> exists v, v ∈ [lit "all"] /\ denotes demo v a).
Proof. split; [reflexivity|]. apply (addresses_exact demo [lit "all"]); [reflexivity | apply demo_addresses]. Defined.
