(* ===== verification/Ipv6Settings.v ===== *)
(** * IPv6 translation settings of a NAT rule (ffn_ipv6_translation.py)

    [validate_settings] checks that the fields of a rule belong to its NAT type and
    normalises the translation: prefixes in canonical form, the NAT64 source pool as
    sorted host addresses.  [validate_translation] checks such a record again where
    the dataplane receives it.  Settings are JSON values; those of a described or
    validated rule are texts and lists of texts. *)

From S2P Require Import Prelude PyStr PyDict PyIp PyXml PyIp6 PolicyObjects.
From S2P Require Ipv6Translation.

(** ** Settings *)

Abbreviation settings_t := (list (pystr * json)) (only parsing).
Definition sget (k : string) (s : settings_t) : json := jget (lit k) s.
(** A text field and a list of texts. *)
Definition jtext (v : json) : pystr := match v with JStr s => s | _ => [] end.
Definition jtexts (v : json) : list pystr := match v with JList l => map jtext l | _ => [] end.
Definition stext (k : string) (s : settings_t) : pystr := jtext (sget k s).
Definition slist (k : string) (s : settings_t) : list pystr := jtexts (sget k s).
Definition is_str (v : json) : bool := match v with JStr _ => true | _ => false end.
Definition is_text (t : string) (v : json) : bool := match v with JStr s => bool_decide (s = lit t) | _ => false end.

Definition FIELDS : list string := ["nat64-prefix"; "nat64-pool"; "nptv6-internal-prefix"; "nptv6-external-prefix"].
Definition LEGACY_FIELDS : list string :=
  ["source-type"; "translated-source"; "source-interface"; "destination-type"; "translated-destination";
   "translated-port"; "session-distribution"].

Inductive translation :=
| Nat64 (prefix : pystr) (pool : list pystr)
| Nptv6 (internal external : pystr).
#[global] Instance translation_eq_dec : EqDecision translation.
Proof. solve_decision. Defined.

(** ** Networks as [ffn_ipv6_translation] reads them *)

(** [IPv6Network(value)] of a text with a slash, before the host bits are checked. *)
Definition net6_of_text (s : pystr) : option (Ipv6Translation.net6 * option pystr) :=
  match split_on 47 s with
  | [a; m] =>
      match ip6_parse a, prefix6_parse m with
      | Some (a, sc), Some p => Some ({| Ipv6Translation.n_addr := a; Ipv6Translation.n_len := p |}, sc)
      | _, _ => None
      end
  | _ => None
  end.
Definition net6_only (s : pystr) : option Ipv6Translation.net6 := fst <$> net6_of_text s.
Definition scope_of (s : pystr) : option pystr := net6_of_text s ≫= snd.
Definition net6_text (n : Ipv6Translation.net6) (sc : option pystr) : pystr :=
  net_text (Net6 (Ipv6Translation.n_addr n) (Ipv6Translation.n_len n) sc).
Definition lift_exn {A} (r : result Ipv6Translation.exn A) : result exn A :=
  match r with Ok a => Ok a | Err (Ipv6Translation.ValueError m) => Err (PolicyError (lit m) 422) end.
Definition value_error {A} (m : pystr) : result exn A := Err (PolicyError m 422).

(** A host that can be a source address. *)
Definition pool_host (a : Z) : bool :=
  negb (is_multicast a || is_unspecified a || is_loopback a || Ipv6Translation.is_link_local4 a).

Definition pool_item (item : pystr) : result exn Z :=
  match ip4_network true item with
  | Some (Net4 a p) =>
      if (p =? 32) && pool_host a then Ok a else value_error (lit "NAT64 source pool must contain unicast IPv4 hosts")
  | _ => value_error (lit "NAT64 source pool must contain explicit IPv4 hosts")
  end.

(** [sorted({...}, key=IPv4Address)]. *)
Definition sorted_hosts (l : list Z) : list Z := py_sorted Z.leb (remove_dups l).

Section settings.
Context (resolve : list pystr -> Z -> result exn (list pystr)).

(** [validate_settings.one]. *)
Definition one (s : settings_t) (key : string) : result exn pystr :=
  if negb (truthy (sget key s)) then value_error (lit "Required translation field: " ++ lit key) else
  values ← resolve [stext key s] 6;
  match values with
  | [v] => Ok v
  | _ => value_error (lit key ++ lit " requires exactly one IPv6 prefix")
  end.

Definition validate_nat64 (s : settings_t) : result exn translation :=
  p ← one s "nat64-prefix";
  network ← lift_exn (Ipv6Translation.nat64_prefix (net6_only p));
  pool ← resolve (slist "nat64-pool" s) 4;
  if (length pool =? 0)%nat || (256 <? length pool)%nat then value_error (lit "NAT64 requires an explicit IPv4 source pool") else
  hosts ← mapM_res pool_item pool;
  Ok (Nat64 (net6_text network (scope_of p)) (map ip4_text (sorted_hosts hosts))).

Definition validate_nptv6 (s : settings_t) : result exn translation :=
  i ← one s "nptv6-internal-prefix";
  e ← one s "nptv6-external-prefix";
  ab ← lift_exn (Ipv6Translation.nptv6_prefixes (net6_only i) (net6_only e));
  if negb (bool_decide (slist "service" s = [lit "any"])) || negb (bool_decide (slist "destination" s = [lit "any"])) then
    value_error (lit "NPTv6 is transport-independent; Service and Destination Address must be any") else
  source ← resolve (slist "source" s) 6;
  let a := net6_text ab.1 (scope_of i) in
  if bool_decide (source = [lit "::/0"]) || bool_decide (source = [a])
  then Ok (Nptv6 a (net6_text ab.2 (scope_of e)))
  else value_error (lit "NPTv6 Source Address must be any or the effective internal prefix").

(** A legacy field is set when it is neither missing, empty nor [none]. *)
Definition legacy_set (s : settings_t) (k : string) : bool := truthy (sget k s) && negb (is_text "none" (sget k s)).

Definition validate_settings (s : settings_t) : result exn (option translation) :=
  let mode := if truthy (sget "nat-type" s) then stext "nat-type" s else lit "ipv4" in
  let any_of l := existsb (fun k => truthy (sget k s)) l in
  if bool_decide (mode = lit "ipv4") then
    if any_of FIELDS then value_error (lit "IPv6 translation fields require NAT64 or NPTv6") else Ok None
  else if bool_decide (mode = lit "nat64") then
    if existsb (legacy_set s) LEGACY_FIELDS then value_error (lit "NAT64 cannot include IPv4 translation fields")
    else if any_of (drop 2 FIELDS) then value_error (lit "Translation fields belong to another NAT type")
    else Some <$> validate_nat64 s
  else if bool_decide (mode = lit "nptv6") then
    if existsb (legacy_set s) LEGACY_FIELDS then value_error (lit "NPTV6 cannot include IPv4 translation fields")
    else if any_of (take 2 FIELDS) then value_error (lit "Translation fields belong to another NAT type")
    else Some <$> validate_nptv6 s
  else value_error (lit "Unknown NAT type").

End settings.

(** ** The record at the dataplane *)

(** The JSON form of a translation. *)
Definition translation_json (t : translation) : list (pystr * json) :=
  match t with
  | Nat64 p pool => [(lit "type", JStr (lit "nat64")); (lit "prefix", JStr p); (lit "pool", JList (map JStr pool))]
  | Nptv6 a b => [(lit "type", JStr (lit "nptv6")); (lit "internal", JStr a); (lit "external", JStr b);
                  (lit "checksum_neutral", JBool true)]
  end.

Definition pool_json (v : json) : result exn pystr :=
  match v with
  | JStr s =>
      match ip4_parse s with
      | Some a => if pool_host a then Ok s else value_error (lit "Invalid NAT64 pool address")
      | None => Err ValueError
      end
  | _ => value_error (lit "Invalid NAT64 pool address")
  end.

(** [set(translation) == {...}]. *)
Definition keys_are (l : list string) (o : list (pystr * json)) : bool :=
  bool_decide (length o = length l) && forallb (fun k => dmem (lit k) o) l.

(** [nat64_prefix] and [nptv6_prefixes] refuse what is not a text. *)
Definition prefix_json (v : json) : option Ipv6Translation.net6 := match v with JStr s => net6_only s | _ => None end.

(** A value that cannot be hashed makes [set(pool)] raise a [TypeError]. *)
Definition hashable (v : json) : bool := match v with JList _ | JObj _ => false | _ => true end.

(** Equality of scalars: numbers compare by value, a Boolean is a number. *)
Definition num_of (v : json) : option (Z * Z) :=
  match v with JBool b => Some (if b then 1 else 0, 0) | JInt n => Some (n, 0) | JFloat m e => Some (m, e) | _ => None end.
Definition scalar_eq (a b : json) : bool :=
  match num_of a, num_of b with
  | Some (m, e), Some (n, f) => let g := Z.min e f in m * 2 ^ (e - g) =? n * 2 ^ (f - g)
  | None, None => match a, b with JStr s, JStr t => bool_decide (s = t) | JNull, JNull => true | _, _ => false end
  | _, _ => false
  end.
(** [len(set(l)) != len(l)]. *)
Fixpoint has_dup (l : list json) : bool :=
  match l with [] => false | x :: t => existsb (scalar_eq x) t || has_dup t end.

Definition validate_translation (o : list (pystr * json)) : result exn string :=
  let kind := jget (lit "type") o in
  if is_text "nat64" kind && keys_are ["type"; "prefix"; "pool"] o then
    _ ← lift_exn (Ipv6Translation.nat64_prefix (prefix_json (jget (lit "prefix") o)));
    match jget (lit "pool") o with
    | JList pool =>
        if (length pool =? 0)%nat || (256 <? length pool)%nat then value_error (lit "Invalid NAT64 pool")
        else if negb (forallb hashable pool) then Err ValueError
        else if has_dup pool then value_error (lit "Invalid NAT64 pool")
        else (_ ← mapM_res pool_json pool; Ok "nat64"%string)
    | _ => value_error (lit "Invalid NAT64 pool")
    end
  else if is_text "nptv6" kind && keys_are ["type"; "internal"; "external"; "checksum_neutral"] o then
    let i := jget (lit "internal") o in
    let e := jget (lit "external") o in
    ab ← lift_exn (Ipv6Translation.nptv6_prefixes (prefix_json i) (prefix_json e));
    if bool_decide (jtext i = net6_text ab.1 (scope_of (jtext i))) && bool_decide (jtext e = net6_text ab.2 (scope_of (jtext e)))
       && match jget (lit "checksum_neutral") o with JBool true => true | _ => false end
    then Ok "nptv6"%string
    else value_error (lit "Invalid normalized NPTv6 translation")
  else value_error (lit "Invalid IPv6 translation fields").
