(* ===== verification/PolicyConfig.v ===== *)
(** * The policy configuration contract (ffn_policy_config.py)

    Rules live in the candidate document as XML entries.  [serialize] writes a rule
    from its settings with the field table of its kind, [describe] reads it back and
    decides whether the entry holds nothing the table does not know ([editable]),
    [validate] checks a rule against the schema and the objects of the document, and
    [execute] edits one rulebase.  The field table keeps the columns the operations
    use; labels appear in error texts, tabs only in the interface. *)

From S2P Require Import Prelude PyStr PyDict PyIp PyXml PyIp6 PolicyObjects Ipv6Settings.

(** ** Schemas *)

Inductive kind :=
| Security | Nat | Qos | Pbf | Decryption | TunnelInspect | ApplicationOverride | Authentication | Dos | Sdwan.
#[global] Instance kind_eq_dec : EqDecision kind.
Proof. solve_decision. Defined.
Definition kind_name (k : kind) : pystr :=
  lit match k with
      | Security => "security" | Nat => "nat" | Qos => "qos" | Pbf => "pbf" | Decryption => "decryption"
      | TunnelInspect => "tunnel-inspect" | ApplicationOverride => "application-override"
      | Authentication => "authentication" | Dos => "dos" | Sdwan => "sdwan"
      end.

Inductive mode := MList | MSelect | MText | MBranch | MMember.
#[global] Instance mode_eq_dec : EqDecision mode.
Proof. solve_decision. Defined.

Record field := {
  key : string;
  label : string;
  fmode : mode;
  fdefault : json;
  options : list string;
  ref : option string;
  fpath : pystr;
  virtual : bool;
}.

Definition any_list : json := JList [JStr (lit "any")].
Definition mk_field (k l : string) (m : mode) (d : json) (o : list string) (r : option string) (p : string) : field :=
  {| key := k; label := l; fmode := m; fdefault := d; options := o; ref := r;
     fpath := lit (if (p =? "")%string then k else p); virtual := false |}.
Definition flist k l d r p : field := mk_field k l MList d [] r p.
Definition ftext k l r p : field := mk_field k l MText JNull [] r p.
Definition select k l (o : list string) (d p : string) : field :=
  mk_field k l MSelect (JStr (lit (if (d =? "")%string then default ""%string (head o) else d))) o None p.
Definition as_virtual (f : field) : field :=
  {| key := key f; label := label f; fmode := fmode f; fdefault := fdefault f; options := options f; ref := ref f;
     fpath := fpath f; virtual := true |}.

Definition FROM := flist "from" "Source Zone" any_list (Some "zone"%string) "".
Definition TO := flist "to" "Destination Zone" any_list (Some "zone"%string) "".
Definition SOURCE := flist "source" "Source Address" any_list (Some "address"%string) "".
Definition DEST := flist "destination" "Destination Address" any_list (Some "address"%string) "".
Definition USER := flist "source-user" "Source User" any_list None "".
Definition APP := flist "application" "Application" any_list (Some "application"%string) "".
Definition SERVICE := flist "service" "Service" any_list (Some "service"%string) "".
Definition TAGS := flist "tag" "Tags" (JList []) (Some "tag"%string) "".
Definition MATCH := [FROM; SOURCE; TO; DEST].
Definition FULL := MATCH ++ [USER; APP; SERVICE].

(** The profile fields: key, label and path. *)
Definition SECURITY_PROFILES : list (string * string * string) :=
  [("antivirus", "Antivirus Profile", "virus");
   ("vulnerability", "Vulnerability Protection Profile", "vulnerability");
   ("anti-spyware", "Anti-Spyware", "spyware");
   ("url-filtering", "URL Filtering", "url-filtering");
   ("file-blocking", "File Blocking", "file-blocking");
   ("data-filtering", "Data Filtering", "data-filtering");
   ("crucible-analysis", "Crucible Analysis", "crucible-analysis")]%string.
Definition profile_keys : list string := map (fun x => x.1.1) SECURITY_PROFILES.

Definition security_fields : list field :=
  FULL ++
  [ flist "source-device" "Source Device" any_list (Some "device"%string) "";
    flist "destination-device" "Destination Device" any_list (Some "device"%string) "";
    select "rule-type" "Rule Type" ["universal"; "intrazone"; "interzone"] "" "";
    select "action" "Action" ["allow"; "deny"; "drop"; "reset-client"; "reset-server"; "reset-both"] "deny" "";
    select "icmp-unreachable" "Send ICMP Unreachable" ["no"; "yes"] "" "";
    as_virtual (select "profile-mode" "Profile Type" ["none"; "group"; "profiles"] "" "");
    mk_field "profile-group" "Security Profile Group" MMember JNull [] (Some "profile-group"%string) "profile-setting/group" ]
  ++ map (fun x => mk_field x.1.1 x.1.2 MMember JNull [] (Some (String.append "profiles/" x.2))
                            (String.append "profile-setting/profiles/" x.2)) SECURITY_PROFILES
  ++ [ select "log-start" "Log at Session Start" ["no"; "yes"] "" "";
       select "log-end" "Log at Session End" ["yes"; "no"] "" "";
       ftext "log-setting" "Log Forwarding Profile" (Some "log-settings/profiles"%string) "" ].

Definition nat_fields : list field :=
  MATCH ++
  [ SERVICE;
    select "nat-type" "NAT Type" ["ipv4"; "nat64"; "nptv6"] "" "";
    ftext "nat64-prefix" "IPv6 Translation Prefix" (Some "address"%string) "nat64/prefix";
    flist "nat64-pool" "IPv4 Source Pool" (JList []) (Some "address"%string) "nat64/source-pool";
    ftext "nptv6-internal-prefix" "Internal IPv6 Prefix" (Some "address"%string) "nptv6/internal-prefix";
    ftext "nptv6-external-prefix" "External IPv6 Prefix" (Some "address"%string) "nptv6/external-prefix";
    mk_field "to-interface" "Destination Interface" MText (JStr (lit "any")) [] (Some "layer3-interface"%string) "";
    mk_field "source-type" "Translation Type" MBranch (JStr (lit "none"))
      ["none"; "static-ip"; "dynamic-ip"; "dynamic-ip-and-port"; "persistent-dynamic-ip-and-port"] None "source-translation";
    flist "translated-source" "Translated Source Addresses" (JList []) (Some "address"%string)
      "source-translation/{source-type}/translated-address";
    ftext "source-interface" "Interface" (Some "layer3-interface"%string)
      "source-translation/{source-type}/interface-address/interface";
    as_virtual (mk_field "destination-type" "Translation Type" MSelect (JStr (lit "none")) ["none"; "static-ip"; "dynamic-ip"] None "");
    ftext "translated-destination" "Translated Destination Address" (Some "address"%string) "destination-translation/translated-address";
    ftext "translated-port" "Translated Port" None "destination-translation/translated-port";
    mk_field "session-distribution" "Session Distribution Method" MSelect (JStr [])
      [""; "round-robin"; "source-ip-hash"; "ip-modulo"; "ip-hash"; "least-sessions"] None "dynamic-destination-translation/distribution" ].

(** [SCHEMAS[kind]['fields']]. *)
Definition schema_fields (k : kind) : list field :=
  TAGS ::
  match k with
  | Security => security_fields
  | Nat => nat_fields
  | Qos => FULL ++ [select "class" "Class" ["1"; "2"; "3"; "4"; "5"; "6"; "7"; "8"] "" "action/class"]
  | Pbf => FULL ++
      [ mk_field "action" "Action" MBranch (JStr (lit "no-pbf")) ["forward"; "discard"; "no-pbf"] None "action";
        ftext "egress-interface" "Egress Interface" (Some "layer3-interface"%string) "action/forward/egress-interface";
        ftext "next-hop" "Next Hop" None "action/forward/nexthop/ip-address" ]
  | Decryption => MATCH ++
      [ USER; SERVICE; select "action" "Action" ["no-decrypt"; "decrypt"] "" "";
        mk_field "type" "Type" MBranch (JStr (lit "ssl-forward-proxy")) ["ssl-forward-proxy"; "ssl-inbound-inspection"; "ssh-proxy"] None "";
        ftext "certificate" "Server Certificate" (Some "certificate"%string) "type/ssl-inbound-inspection/certificate";
        ftext "profile" "Decryption Profile" (Some "profiles/decryption"%string) "" ]
  | TunnelInspect => MATCH ++
      [ select "action" "Action" ["inspect"; "bypass"] "" "";
        mk_field "tunnel-protocol" "Tunnel Protocols" MList (JList [JStr (lit "gre")]) ["gre"; "gtp-u"; "ipsec"; "vxlan"] None "";
        select "log-end" "Log at Session End" ["yes"; "no"] "" "" ]
  | ApplicationOverride => MATCH ++
      [ select "protocol" "Protocol" ["tcp"; "udp"] "" ""; ftext "port" "Ports" None "";
        ftext "application" "Application" (Some "application"%string) "" ]
  | Authentication => MATCH ++
      [ USER; SERVICE;
        ftext "authentication-enforcement" "Authentication Enforcement" (Some "authentication-enforcement"%string) "";
        mk_field "timeout" "Timeout (minutes)" MText (JStr (lit "60")) [] None "" ]
  | Dos => MATCH ++
      [ USER; SERVICE; select "action" "Action" ["deny"; "allow"; "protect"] "" "";
        ftext "aggregate-profile" "Aggregate Profile" (Some "profiles/dos-protection"%string) "protection/aggregate/profile";
        ftext "classified-profile" "Classified Profile" (Some "profiles/dos-protection"%string) "protection/classified/profile" ]
  | Sdwan => FULL ++
      [ ftext "path-quality-profile" "Path Quality Profile" (Some "profiles/sdwan-path-quality"%string)
          "action/traffic-distribution/path-quality-profile";
        ftext "traffic-distribution-profile" "Traffic Distribution Profile" (Some "profiles/sdwan-traffic-distribution"%string)
          "action/traffic-distribution/traffic-distribution-profile" ]
  end.

(** ** The document *)

Definition localhost : list step := [Child (lit "devices"); Named (lit "entry") (lit "localhost.localdomain")].
(** The virtual systems by name; a later one replaces an earlier one of the same name. *)
Definition owners (root : element) : list (option pystr * element) :=
  fold_left (fun d n => dset (eget (lit "name") n) n d) (findall (localhost ++ xpath "vsys/entry") root) [].

(** [node_at(root, path)] followed by [f] on the node it returns. *)
Fixpoint node_at (parts : list pystr) (f : element -> element) (root : element) : element :=
  match parts with
  | [] => f root
  | p :: rest =>
      match on_first p (node_at rest f) (children root) with
      | Some l => Element (tag root) (attrib root) (text root) l
      | None => append_child (node_at rest f (new_element p)) root
      end
  end.

(** [shape(a) == shape(b)]: equal up to the order of attributes and children and white space around
    texts.  Sorting by [repr] lists equal shapes alike, so the children must be a permutation. *)
Fixpoint shape_eq (a b : element) {struct a} : bool :=
  bool_decide (tag a = tag b)
  && bool_decide (py_sorted (fun x y => str_le x.1 y.1) (attrib a) = py_sorted (fun x y => str_le x.1 y.1) (attrib b))
  && bool_decide (strip (text_of a) = strip (text_of b))
  && (fix go (l : list element) (r : list element) : bool :=
        match l with
        | [] => (length r =? 0)%nat
        | c :: l' => match remove_first (shape_eq c) r with Some r' => go l' r' | None => false end
        end) (children a) (children b).

Definition named (node : option element) (p : list step) : list (option pystr) :=
  match node with Some n => map (eget (lit "name")) (findall (p ++ [Child (lit "entry")]) n) | None => [] end.

(** Keep the names that are there and not empty. *)
Definition nonempty_name (o : option pystr) : bool := match o with Some (_ :: _) => true | _ => false end.

Definition layer3_interfaces (root : element) : list (option pystr) :=
  match find_first (localhost ++ xpath "network/interface") root with
  | None => []
  | Some parent =>
      let routed (entry : element) :=
        match find_first (xpath "layer3") entry with
        | None => []
        | Some _ =>
            (if bool_decide (findtext (xpath "aggregate-only") entry = Some (lit "yes")) then [] else [eget (lit "name") entry])
            ++ named (Some entry) (xpath "layer3/units")
        end in
      List.filter nonempty_name
        (concat (map routed (findall (xpath "ethernet/entry") parent ++ findall (xpath "aggregate-ethernet/entry") parent))
         ++ concat (map (fun g => named (Some parent) (path_of (lit g) ++ xpath "units")) ["vlan"; "loopback"; "tunnel"]%string))
  end.

(** The names a field may refer to (an [interface] reference is not in any schema). *)
Definition ref_paths (r : string) : list string :=
  if (r =? "address")%string then ["address"; "address-group"; "region"; "external-list"]
  else if (r =? "application")%string then ["application"; "application-group"; "application-filter"]
  else if (r =? "service")%string then ["service"; "service-group"]
  else [r].
Definition inventory (root local : element) (r : string) : list (option pystr) :=
  if (r =? "zone")%string then named (Some local) (xpath "zone")
  else if (r =? "layer3-interface")%string then layer3_interfaces root
  else concat (map (fun node => concat (map (fun p => named node (xpath p)) (ref_paths r)))
                   [find_first (xpath "shared") root; Some local]).

(** ** Reading and writing a rule *)

Definition nat_destination_type (s : settings_t) : json :=
  if truthy (sget "destination-type" s) then sget "destination-type" s
  else JStr (lit (if truthy (sget "translated-destination" s) then "static-ip" else "none")).

Definition has_prefix (p s : pystr) : bool := bool_decide (take (length p) s = p).
(** [s.replace(old, new)] for a non-empty [old]; [skip] characters of a replaced occurrence remain. *)
Fixpoint replace_go (old new : pystr) (skip : nat) (s : pystr) : pystr :=
  match s with
  | [] => []
  | c :: t =>
      match skip with
      | S k => replace_go old new k t
      | O => if has_prefix old s then new ++ replace_go old new (length old - 1) t else c :: replace_go old new O t
      end
  end.
Definition replace_all (old new s : pystr) : pystr := replace_go old new O s.
(** [s.replace(old, new, 1)]. *)
Fixpoint replace_once (old new s : pystr) : pystr :=
  match s with
  | [] => []
  | c :: t => if has_prefix old s then new ++ drop (length old) s else c :: replace_once old new t
  end.

Definition policy_field_path (k : kind) (f : field) (s : settings_t) : pystr :=
  let path :=
    if bool_decide (k = Nat) && bool_decide (key f ∈ ["translated-destination"; "translated-port"]%string)
       && is_text "dynamic-ip" (nat_destination_type s)
    then replace_once (lit "destination-translation/") (lit "dynamic-destination-translation/") (fpath f)
    else fpath f in
  fold_left (fun p kv => match kv.2 with JStr v => replace_all (lit "{" ++ kv.1 ++ lit "}") v p | _ => p end) s path.

Record rule_spec := { r_name : pystr; r_description : pystr; r_enabled : bool; r_settings : list (pystr * json) }.

Definition sub_member (t : pystr) (e : element) : element := append_child (set_text t (new_element (lit "member"))) e.

(** One field of the loop of [serialize]. *)
Definition write_field (k : kind) (s : settings_t) (entry : element) (f : field) : element :=
  if virtual f then entry else
  let value := sget (key f) s in
  if negb (truthy value) then entry else
  let path := policy_field_path k f s in
  match fmode f with
  | MBranch => if is_text "none" value then entry else node_at (split_on 47 (path ++ lit "/" ++ jtext value)) id entry
  | MList => fold_left (fun e item => node_at (split_on 47 path) (sub_member item) e) (jtexts value) entry
  | MMember => node_at (split_on 47 path) (sub_member (jtext value)) entry
  | MSelect | MText => node_at (split_on 47 path) (set_text (jtext value)) entry
  end.

Definition serialize (k : kind) (spec : rule_spec) : element :=
  let disabled := set_text (lit (if r_enabled spec then "no" else "yes")) (new_element (lit "disabled")) in
  let description := if bool_decide (r_description spec = []) then []
                     else [set_text (r_description spec) (new_element (lit "description"))] in
  fold_left (write_field k (r_settings spec)) (schema_fields k)
    (Element (lit "entry") [(lit "name", r_name spec)] None (disabled :: description)).

(** The branch a field names: its only child, if there is one. *)
Definition read_branch (entry : element) (f : field) : json :=
  JStr match find_first (path_of (fpath f)) entry with
       | None => lit "none"
       | Some parent => match children parent with [] => lit "none" | [c] => tag c | _ => lit "unsupported" end
       end.
Definition read_field (k : kind) (entry : element) (s : settings_t) (f : field) : list (pystr * json) :=
  if bool_decide (fmode f = MBranch) || virtual f then s else
  match find_first (path_of (policy_field_path k f s)) entry with
  | None => s
  | Some node =>
      dset (lit (key f))
        (match fmode f with
         | MList => JList (map (fun n => JStr (text_of n)) (findall (xpath "member") node))
         | MMember => JStr (if (0 <? length (children node))%nat then findtext_default (xpath "member") [] node else text_of node)
         | _ => JStr (text_of node)
         end) s
  end.

(** The profile type follows from the profile fields that are set. *)
Definition profile_mode (s : settings_t) : json :=
  JStr (lit (if truthy (sget "profile-group" s) then "group"
             else if existsb (fun k => truthy (sget k s)) profile_keys then "profiles" else "none")).

Definition read_settings (k : kind) (entry : element) : list (pystr * json) :=
  let has p := if find_first (xpath p) entry then true else false in
  let s0 : list (pystr * json) :=
    if bool_decide (k = Nat)
    then [(lit "destination-type", JStr (lit (if has "dynamic-destination-translation" then "dynamic-ip"
                                             else if has "destination-translation" then "static-ip" else "none")))]
    else [] in
  let s1 := fold_left (fun s f => if bool_decide (fmode f = MBranch) then dset (lit (key f)) (read_branch entry f) s else s)
                      (schema_fields k) s0 in
  let s2 := fold_left (read_field k entry) (schema_fields k) s1 in
  if bool_decide (k = Security) then dset (lit "profile-mode") (profile_mode s2) s2 else s2.

(** [str.lower], as far as a comparison with ASCII text without [k] can see it. *)
Definition lower (s : pystr) : pystr := map (fun c => if between 65 c 90 then c + 32 else c) s.
Definition implicit_name (n : pystr) : bool := str_in (lower n) [lit "intrazone-default"; lit "interzone-default"].

(** What the settings stand for in XML, adjusted for older documents. *)
Definition expected_entry (k : kind) (entry : element) (spec : rule_spec) : element :=
  let e0 := serialize k spec in
  let group := xpath "profile-setting/group" in
  let e1 :=
    match bool_decide (k = Security), find_first group entry, find_first group e0 with
    | true, Some old, Some _ =>
        if (length (children old) =? 0)%nat then
          node_at [lit "profile-setting"; lit "group"]
            (fun n => let m := remove_child (lit "member") n in Element (tag m) (attrib m) (text old) (children m)) e0
        else e0
    | _, _, _ => e0
    end in
  if find_first (xpath "disabled") entry then e1 else remove_child (lit "disabled") e1.

Definition setting_default (k : kind) (f : field) : json :=
  match bool_decide (k = Security), fdefault f with
  | true, JNull | false, _ => match fmode f with MList => JList [] | _ => JStr [] end
  | true, d => d
  end.
Definition setdefault (k : string) (v : json) (s : settings_t) : list (pystr * json) :=
  if dmem (lit k) s then s else s ++ [(lit k, v)].

Record described := { d_spec : rule_spec; d_implicit : bool; d_editable : bool }.

Definition describe (k : kind) (entry : element) : described :=
  let s := read_settings k entry in
  let spec := {| r_name := default [] (eget (lit "name") entry);
                 r_description := findtext_default (xpath "description") [] entry;
                 r_enabled := negb (bool_decide (findtext_default (xpath "disabled") (lit "no") entry = lit "yes"));
                 r_settings := s |} in
  let implicit := bool_decide (k = Security) && implicit_name (r_name spec) in
  {| d_spec := {| r_name := r_name spec; r_description := r_description spec; r_enabled := r_enabled spec;
                  r_settings := fold_left (fun s f => setdefault (key f) (setting_default k f) s) (schema_fields k) s |};
     d_implicit := implicit;
     d_editable := negb implicit && shape_eq (expected_entry k entry spec) entry |}.

(** ** Validation *)

Definition text_char (c : Z) : bool :=
  (c =? 10) || (c =? 13) || (c =? 9) || between 32 c 55295 || between 57344 c 65533 || between 65536 c 1114111.
Definition text_ok (v : json) : bool := match v with JStr s => forallb text_char s | _ => false end.

Definition name_first (c : Z) : bool := is_digit c || between 65 c 90 || between 97 c 122 || (c =? 95).
Definition name_rest (c : Z) : bool := name_first c || (c =? 32) || (c =? 46) || (c =? 45).
Definition name_ok (n : pystr) : bool :=
  match n with
  | c :: t => name_first c && forallb name_rest t && (length t <=? 62)%nat && bool_decide (strip n = n)
  | [] => false
  end.

Definition perr {A} (m : pystr) : result exn A := Err (PolicyError m 422).
Definition check (b : bool) (m : string) : result exn unit := if b then perr (utf m) else Ok tt.

Definition is_any_default (f : field) : bool :=
  match fdefault f with JList [JStr s] => bool_decide (s = lit "any") | _ => false end.

(** A reference of a field that is not one of the built-in words or a literal address. *)
Definition check_ref (k : kind) (f : field) (r : string) (choices : list (option pystr)) (v : pystr) : result exn unit :=
  if bool_decide (v = []) then Ok tt
  else if bool_decide (k = Nat) && (key f =? "to-interface")%string && bool_decide (v = lit "any") then Ok tt
  else if bool_decide (v = lit "any") && is_any_default f then Ok tt
  else if bool_decide (v = lit "application-default") && bool_decide (k = Security) && (key f =? "service")%string then Ok tt
  else if (r =? "address")%string && (if ip_network false v then true else false) then Ok tt
  else if bool_decide (Some v ∈ choices) then Ok tt
  else perr (lit (label f) ++ lit ": unknown reference " ++ v).

Definition field_values (f : field) (value : json) : list json :=
  match fmode f, value with MList, JList l => l | MList, _ => [] | _, _ => [value] end.

(** One field of the loop of [validate]; missing settings get their defaults. *)
Definition validate_field (k : kind) (root local : element) (s : settings_t) (f : field) : result exn (list (pystr * json)) :=
  let dflt := match fdefault f with JNull => JStr [] | d => d end in
  let s := setdefault (key f) dflt s in
  let value := sget (key f) s in
  let values := field_values f value in
  let is_list := bool_decide (fmode f = MList) in
  let members := match value with JList l => l | _ => [] end in
  if is_list && negb (match value with
                      | JList l => (length l <=? 256)%nat && forallb is_str l && bool_decide (NoDup (map jtext l))
                      | _ => false
                      end)
  then perr (lit (label f) ++ lit ": expected unique list values")
  else if existsb (fun v => negb (text_ok v) || (1024 <? length (jtext v))%nat || (is_list && bool_decide (strip (jtext v) = []))) values
  then perr (lit "Invalid " ++ lit (label f))
  else if negb (length (options f) =? 0)%nat && existsb (fun v => negb (bool_decide (jtext v ∈ map lit (options f)))) values
  then perr (lit "Invalid " ++ lit (label f))
  else if is_any_default f && negb (truthy value) then perr (lit (label f) ++ lit " must include a value or any")
  else if existsb (is_text "any") members && negb (length members =? 1)%nat then perr (lit "Any cannot be combined with other matches")
  else if existsb (is_text "application-default") members && negb (length members =? 1)%nat
  then perr (lit "Application-default cannot be combined with other services")
  else
    _ ← (match ref f with
         | None => Ok []
         | Some r => mapM_res (check_ref k f r (inventory root local r)) (map jtext values)
         end);
    Ok s.

Definition validate_security (s : settings_t) : result exn unit :=
  let isv key t := bool_decide (stext key s = lit t) in
  let group := truthy (sget "profile-group" s) in
  let profiles := existsb (fun k => truthy (sget k s)) profile_keys in
  _ ← check (isv "profile-mode" "none" && (group || profiles)) "Profile Type None cannot include a group or individual profiles";
  _ ← check (isv "profile-mode" "group" && (negb group || profiles)) "Select one profile group without individual profiles";
  _ ← check (isv "profile-mode" "profiles" && (group || negb profiles)) "Select at least one individual profile without a profile group";
  _ ← check (isv "icmp-unreachable" "yes" && isv "action" "allow") "ICMP Unreachable requires a blocking action";
  check (isv "rule-type" "intrazone" && negb (bool_decide (slist "to" s = [lit "any"])))
    "Intrazone rules use the source zone as destination; set Destination Zone to any".

(** A setting that is a decimal number within bounds. *)
Definition number_in (lo hi : Z) (t : pystr) : result exn bool :=
  if negb (isdigit t) then Ok false
  else match int_of_digits t with Some n => Ok (between lo n hi) | None => Err ValueError end.

Definition validate_nat (root local : element) (s : settings_t) : result exn unit :=
  let isv key t := bool_decide (stext key s = lit t) in
  let has key := truthy (sget key s) in
  _ ← (match validate_settings (fun vs fam => addresses {| r_root := root; r_owner := local; r_family := fam |} vs) s with
       | Ok t => Ok t
       | Err (NatError m) => perr m
       | Err e => Err e
       end);
  _ ← check (isv "source-type" "none" && (has "translated-source" || has "source-interface")) "Source translation must be selected";
  _ ← check (negb (isv "source-type" "none") && Bool.eqb (has "translated-source") (has "source-interface"))
        "Select translated source addresses or an interface address";
  _ ← check (has "source-interface" && negb (isv "source-type" "dynamic-ip-and-port" || isv "source-type" "persistent-dynamic-ip-and-port"))
        "Interface address requires Dynamic IP and Port or Persistent Dynamic IP and Port";
  _ ← check (isv "source-type" "static-ip" && negb (length (slist "translated-source" s) =? 1)%nat) "Static source NAT needs one address";
  _ ← check (isv "destination-type" "none" && (has "translated-destination" || has "translated-port")) "Select a destination translation type";
  _ ← check (negb (isv "destination-type" "none") && negb (has "translated-destination")) "Destination translation requires a translated address";
  _ ← check (isv "destination-type" "dynamic-ip" && negb (has "session-distribution")) "Select a session distribution method";
  _ ← check (negb (isv "destination-type" "dynamic-ip") && has "session-distribution") "Session distribution requires Dynamic IP destination translation";
  if has "translated-port" then
    ok ← number_in 1 65535 (stext "translated-port" s);
    check (negb ok || negb (has "translated-destination")) "Destination port requires a destination address and port 1–65535"
  else Ok tt.

(** [[0-9]{1,5}(-[0-9]{1,5})?] and the bounds of each part. *)
Definition override_port (part : pystr) : result exn unit :=
  let ends := split_on 45 part in
  if negb ((length ends <=? 2)%nat && forallb (fun e => all_digits e && (length e <=? 5)%nat) ends)
  then perr (lit "Use TCP/UDP port numbers or ranges")
  else let ns := map dec_value ends in
       check (negb (forallb (fun n => between 1 n 65535) ns) || (default 0 (last ns) <? default 0 (head ns))) "Invalid port range".

Definition validate_kind (k : kind) (root local : element) (s : settings_t) : result exn unit :=
  let isv key t := bool_decide (stext key s = lit t) in
  let has key := truthy (sget key s) in
  match k with
  | Security => validate_security s
  | Nat => validate_nat root local s
  | Pbf =>
      if isv "action" "forward" then
        _ ← check (negb (has "egress-interface")) "Forward requires an egress interface";
        check (has "next-hop" && (if ip_address (stext "next-hop" s) then false else true)) "Invalid next hop"
      else check (has "egress-interface" || has "next-hop") "Forwarding fields require Forward"
  | Decryption =>
      _ ← check (isv "action" "no-decrypt" && has "certificate") "Server certificate requires Decrypt";
      _ ← check (isv "type" "ssl-inbound-inspection" && isv "action" "decrypt" && negb (has "certificate")) "Inbound TLS inspection requires a certificate";
      check (has "certificate" && negb (isv "type" "ssl-inbound-inspection")) "Server certificate requires inbound TLS inspection"
  | ApplicationOverride =>
      _ ← check (negb (has "application")) "Select an application";
      _ ← mapM_res override_port (split_on 44 (stext "port" s));
      Ok tt
  | Authentication =>
      if negb (has "authentication-enforcement") then perr (utf "Select an authentication enforcement profile and timeout 1–1440")
      else (ok ← number_in 1 1440 (stext "timeout" s);
            check (negb ok) "Select an authentication enforcement profile and timeout 1–1440")
  | Dos => check (isv "action" "protect" && negb (has "aggregate-profile" || has "classified-profile")) "Protect requires a DoS protection profile"
  | Sdwan => check (negb (has "path-quality-profile" && has "traffic-distribution-profile")) "Select path quality and traffic distribution profiles"
  | Qos | TunnelInspect => Ok tt
  end.

(** [validate(kind, spec, root, scope)]; [local] is the virtual system.  The rule it accepts, with
    the defaults it filled in. *)
Definition validate (k : kind) (spec : json) (root local : element) : result exn rule_spec :=
  match spec with
  | JObj o =>
      let description := jget_default (lit "description") (JStr []) o in
      _ ← check (extra_keys (map lit ["name"; "description"; "enabled"; "settings"]%string) o) "Unknown rule properties";
      _ ← check (negb (match jget_default (lit "name") (JStr []) o with JStr n => name_ok n | _ => false end))
            "Invalid rule name (1–63 characters)";
      _ ← check (negb (match jget (lit "enabled") o with JBool _ => true | _ => false end)) "Enabled must be true or false";
      _ ← check (negb (text_ok description) || (1024 <? length (jtext description))%nat) "Invalid description";
      match jget (lit "settings") o with
      | JObj s =>
          _ ← check (extra_keys (map (fun f => lit (key f)) (schema_fields k)) s) "Unknown rule settings";
          let s := if bool_decide (k = Nat) then setdefault "destination-type" (nat_destination_type s) s else s in
          let s := if bool_decide (k = Security) then setdefault "profile-mode" (profile_mode s) s else s in
          s ← foldM_res (validate_field k root local) s (schema_fields k);
          _ ← validate_kind k root local s;
          Ok {| r_name := jtext (jget (lit "name") o); r_description := jtext description;
                r_enabled := match jget (lit "enabled") o with JBool b => b | _ => false end; r_settings := s |}
      | _ => perr (lit "Unknown rule settings")
      end
  | _ => perr (lit "Unknown rule properties")
  end.

(** ** Editing a rulebase *)

(** Apply [g] to the first child it accepts. *)
Fixpoint try_first (g : element -> option element) (l : list element) : option (list element) :=
  match l with
  | [] => None
  | c :: r => match g c with Some c' => Some (c' :: r) | None => (cons c) <$> try_first g r end
  end.
(** Change the element [find_first] returns, in place. *)
Fixpoint update_first (path : list step) (f : element -> element) (e : element) : option element :=
  match path with
  | [] => Some (f e)
  | s :: p => Element (tag e) (attrib e) (text e) <$>
                try_first (fun c => if selects s c then update_first p f c else None) (children e)
  end.

Inductive action :=
| Create (rule : json)
| Update (name rule : json)
| Delete (name : json)
| Toggle (name enabled : json)
| Move (name position : json).
(** [args.get('name')] and the name inside [args.get('rule')]. *)
Definition action_name (a : action) : json :=
  match a with Create _ => JNull | Update n _ | Delete n | Toggle n _ | Move n _ => n end.
Definition incoming_name (a : action) : json :=
  match a with Create (JObj o) | Update _ (JObj o) => jget (lit "name") o | _ => JNull end.

Definition rules_path (k : kind) : list step := [Child (lit "rulebase"); Child (kind_name k); Child (lit "rules")].
(** [list(rules)] if the rulebase exists. *)
Definition rules_of (k : kind) (local : element) : list element :=
  match find_first (rules_path k) local with Some r => children r | None => [] end.
Definition rule_names (l : list element) : list (option pystr) := map (eget (lit "name")) l.
Definition with_children (l : list element) (e : element) : element := Element (tag e) (attrib e) (text e) l.
(** Store the rules; [node_at] creates the rulebase the first rule needs. *)
Definition put_rules (k : kind) (l : list element) (local : element) : element :=
  match update_first (rules_path k) (with_children l) local with
  | Some e => e
  | None => node_at [lit "rulebase"; kind_name k; lit "rules"] (with_children l) local
  end.

Definition conflict {A} (m : string) : result exn A := Err (PolicyError (lit m) 409).
(** The index of the rule the request names. *)
Definition rule_index (name : json) (rows : list element) : option (nat * element) :=
  match name with
  | JStr n => list_find (fun e => eget (lit "name") e = Some n) rows
  | _ => None
  end.

(** The actions on an existing rule. *)
Definition change_rule (k : kind) (root local : element) (a : action) (rows : list element) (i : nat) (entry : element)
    : result exn (list element) :=
  match a with
  | Create _ => Ok rows
  | Update name rule =>
      spec ← validate k rule root local;
      if bool_decide (r_name spec = jtext name) then Ok (<[i := serialize k spec]> rows)
      else perr (lit "Clone and update references to rename a rule")
  | Delete _ => Ok (delete i rows)
  | Toggle _ (JBool b) => Ok (<[i := node_at [lit "disabled"] (set_text (lit (if b then "no" else "yes"))) entry]> rows)
  | Toggle _ _ => perr (lit "Enabled must be true or false")
  | Move _ (JInt p) =>
      if between 1 p (blen rows)
      then Ok (take (Z.to_nat (p - 1)) (delete i rows) ++ entry :: drop (Z.to_nat (p - 1)) (delete i rows))
      else perr (lit "Position must be within the rulebase")
  | Move _ _ => perr (lit "Position must be within the rulebase")
  end.

(** The edit itself: the new rules. *)
Definition edit_rows (k : kind) (root local : element) (a : action) (rows : list element) : result exn (list element) :=
  match a with
  | Create rule =>
      spec ← validate k rule root local;
      if bool_decide (Some (r_name spec) ∈ rule_names rows) then conflict "A rule with this name already exists"
      else Ok (rows ++ [serialize k spec])
  | _ =>
      match rule_index (action_name a) rows with
      | None => Err (PolicyError (lit "Rule not found") 404)
      | Some (i, entry) =>
          if d_editable (describe k entry) then change_rule k root local a rows i entry
          else conflict "Imported settings are protected; this rule cannot be edited safely"
      end
  end.

Definition is_implicit_json (v : json) : bool := match v with JStr n => implicit_name n | _ => false end.

(** [execute] for the editing actions.  [lock] is the holder of the configuration lock when it is
    taken, [rev] the revision of the document and [unchanged] whether the file still holds it when
    the edit is stored. *)
Definition execute (k : kind) (root local : element) (rev user : pystr) (lock : option (option pystr))
    (revision : json) (unchanged : bool) (a : action) : result exn element :=
  let rows := rules_of k local in
  _ ← raise_if (negb (bool_decide (NoDup (rule_names rows)))) (PolicyError (lit "Duplicate rule names must be repaired") 409);
  _ ← raise_if (bool_decide (user = [])) (PolicyError (lit "Authenticated actor required") 403);
  _ ← raise_if (match lock with Some h => negb (bool_decide (h = Some user)) | None => false end)
        (PolicyError (lit "Configuration is locked by another administrator") 423);
  _ ← raise_if (negb (match revision with JStr r => bool_decide (r = rev) | _ => false end))
        (PolicyError (lit "Candidate changed. Refresh and review before retrying") 409);
  _ ← raise_if (bool_decide (k = Security) && (is_implicit_json (action_name a) || is_implicit_json (incoming_name a)))
        (PolicyError (lit "Implicit security rules are read only") 403);
  rows' ← edit_rows k root local a rows;
  _ ← raise_if (negb unchanged) (PolicyError (lit "Candidate changed during this edit") 409);
  Ok (put_rules k rows' local).

(** ** Facts *)

Lemma on_first_none t f l : on_first t f l = None -> Forall (fun c => tag c <> t) l.
Proof.
  induction l as [|c r IH]; cbn [on_first]; [constructor|]. case_bool_decide as E; [done|].
  destruct (on_first t f r); cbn; [done|]. intros _. by constructor; [|apply IH].
Qed.

Lemma node_at_root p parts f e :
  tag (node_at (p :: parts) f e) = tag e /\ attrib (node_at (p :: parts) f e) = attrib e.
Proof. cbn [node_at]. by destruct (on_first p (node_at parts f) (children e)). Qed.

Lemma node_at_split s f e : attrib (node_at (split_on 47 s) f e) = attrib e.
Proof.
  destruct (split_on 47 s) as [|p parts] eqn:E; [by apply split_on_nil in E|]. apply node_at_root.
Qed.

Lemma write_field_attrib k s e f : attrib (write_field k s e f) = attrib e.
Proof.
  unfold write_field. destruct (virtual f); [done|]. destruct (truthy _); cbn [negb]; [|done].
  destruct (fmode f); try apply node_at_split.
  - generalize (jtexts (sget (key f) s)). intros l. revert e; induction l as [|x l IH]; intros e; cbn [fold_left]; [done|].
    by rewrite IH, node_at_split.
  - destruct (is_text _ _); [done|]. apply node_at_split.
Qed.

Lemma serialize_name k spec : eget (lit "name") (serialize k spec) = Some (r_name spec).
Proof.
  unfold eget. assert (attrib (serialize k spec) = [(lit "name", r_name spec)]) as ->; [|done].
  unfold serialize. set (e := Element _ _ _ _). change [(lit "name", r_name spec)] with (attrib e). generalize e.
  induction (schema_fields k) as [|f l IH]; intros e0; cbn [fold_left]; [done|]. by rewrite IH, write_field_attrib.
Qed.

(** [update_first] changes exactly the element [find_first] returns. *)
Definition keeps_identity (f : element -> element) : Prop := forall e, tag (f e) = tag e /\ attrib (f e) = attrib e.

Lemma selects_identity s e e' : tag e' = tag e -> attrib e' = attrib e -> selects s e' = selects s e.
Proof. intros Ht Ha. destruct s; unfold selects, eget; by rewrite Ht, ?Ha. Qed.

Lemma update_first_root s p f e e' : update_first (s :: p) f e = Some e' -> tag e' = tag e /\ attrib e' = attrib e.
Proof. cbn [update_first]. destruct (try_first _ _); cbn; [|done]. by intros [= <-]. Qed.

Lemma head_concat {A B} (g : A -> list B) (l : list A) :
  head (concat (map g l)) = match list_find (fun a => g a <> []) l with Some (_, a) => head (g a) | None => None end.
Proof.
  induction l as [|a l IH]; cbn [map concat list_find]; [done|]. destruct (decide _) as [H|H].
  - by destruct (g a).
  - destruct (g a) eqn:E; [|by exfalso; apply H]. cbn [app]. rewrite IH. by destruct (list_find _ l) as [[]|].
Qed.

(** The first match among the children, one child at a time. *)
Definition first_in (s : step) (p : list step) (l : list element) : option element :=
  head (concat (map (findall p) (List.filter (selects s) l))).

Lemma first_in_cons s p c l : first_in s p (c :: l) =
  if selects s c then match find_first p c with Some x => Some x | None => first_in s p l end else first_in s p l.
Proof.
  unfold first_in, find_first. cbn [List.filter]. destruct (selects s c); [|done]. cbn [map concat].
  by destruct (findall p c).
Qed.

Lemma find_first_cons s p e : find_first (s :: p) e = first_in s p (children e).
Proof. done. Qed.

Lemma update_identity p f e e' : keeps_identity f -> update_first p f e = Some e' -> tag e' = tag e /\ attrib e' = attrib e.
Proof. intros Hf. destruct p as [|s p]; [intros [= <-]; apply Hf | apply update_first_root]. Qed.

Lemma update_first_found p f e : keeps_identity f ->
  match find_first p e with
  | Some x => exists e', update_first p f e = Some e' /\ find_first p e' = Some (f x)
  | None => update_first p f e = None
  end.
Proof.
  intros Hf. revert e; induction p as [|s p IH]; intros e; [by exists (f e)|]. rewrite find_first_cons. cbn [update_first].
  assert (match first_in s p (children e) with
          | Some x => exists l', try_first (fun c => if selects s c then update_first p f c else None) (children e) = Some l'
                        /\ first_in s p l' = Some (f x)
          | None => try_first (fun c => if selects s c then update_first p f c else None) (children e) = None
          end) as H.
  { induction (children e) as [|c l IHl]; [done|]. rewrite first_in_cons. cbn [try_first].
    destruct (selects s c) eqn:Es.
    - specialize (IH c). destruct (find_first p c) as [x|] eqn:Ec.
      + destruct IH as (c' & Hu & Hx). rewrite Hu. exists (c' :: l). split; [done|]. rewrite first_in_cons.
        destruct (update_identity _ _ _ _ Hf Hu) as [Ht Ha]. rewrite (selects_identity s c c' Ht Ha), Es, Hx. done.
      + rewrite IH. destruct (first_in s p l) as [x|].
        * destruct IHl as (l' & -> & Hl). exists (c :: l'). split; [done|]. by rewrite first_in_cons, Es, Ec.
        * by rewrite IHl.
    - destruct (first_in s p l) as [x|].
      + destruct IHl as (l' & -> & Hl). exists (c :: l'). split; [done|]. by rewrite first_in_cons, Es.
      + by rewrite IHl. }
  destruct (first_in s p (children e)) as [x|].
  - destruct H as (l' & -> & Hl). eexists. split; [done|]. done.
  - by rewrite H.
Qed.

Lemma node_at_identity parts f e : keeps_identity f -> tag (node_at parts f e) = tag e /\ attrib (node_at parts f e) = attrib e.
Proof. intros Hf. destruct parts; [apply Hf | apply node_at_root]. Qed.

Lemma node_at_found parts f e : keeps_identity f -> exists x, find_first (map Child parts) (node_at parts f e) = Some (f x).
Proof.
  intros Hf. revert e; induction parts as [|p parts IH]; intros e; [by exists e|]. cbn [map node_at].
  rewrite find_first_cons.
  destruct (on_first p (node_at parts f) (children e)) as [l|] eqn:E; cbn [children append_child].
  - revert l E; induction (children e) as [|c r IHr]; intros l; cbn [on_first]; [done|]. case_bool_decide as Et.
    + intros [= <-]. destruct (IH c) as (x & Hx). exists x. rewrite first_in_cons. cbn [selects].
      rewrite (proj1 (node_at_identity parts f c Hf)). by rewrite bool_decide_eq_true_2, Hx.
    + destruct (on_first p (node_at parts f) r) as [r'|] eqn:Er; cbn; [|done]. intros [= <-].
      destruct (IHr _ eq_refl) as (x & Hx). exists x. rewrite first_in_cons. cbn [selects].
      by rewrite bool_decide_eq_false_2.
  - apply on_first_none in E. destruct (IH (new_element p)) as (x & Hx). exists x.
    induction E as [|c r Hc _ IHr]; cbn [app]; rewrite first_in_cons; cbn [selects].
    + rewrite (proj1 (node_at_identity parts f (new_element p) Hf)). cbn [tag new_element].
      by rewrite bool_decide_eq_true_2, Hx.
    + by rewrite bool_decide_eq_false_2.
Qed.

Lemma with_children_identity l : keeps_identity (with_children l).
Proof. by intros e. Qed.

Lemma rules_of_put k l local : rules_of k (put_rules k l local) = l.
Proof.
  unfold rules_of, put_rules. pose proof (update_first_found (rules_path k) (with_children l) local (with_children_identity l)) as H.
  destruct (find_first (rules_path k) local) as [x|].
  - destruct H as (e' & -> & ->). done.
  - rewrite H. destruct (node_at_found [lit "rulebase"; kind_name k; lit "rules"] (with_children l) local (with_children_identity l))
      as (x & Hx).
    change (map Child [lit "rulebase"; kind_name k; lit "rules"]) with (rules_path k) in Hx. by rewrite Hx.
Qed.

(** *** Other rulebases *)

(** A search that asks a different tag than the changed child has does not see the change. *)
Lemma try_first_other g t q l l' :
  (forall c c', g c = Some c' -> tag c <> t /\ tag c' <> t) -> try_first g l = Some l' ->
  first_in (Child t) q l' = first_in (Child t) q l.
Proof.
  intros Hg. revert l'; induction l as [|c r IH]; intros l'; cbn [try_first]; [done|].
  destruct (g c) as [c'|] eqn:E.
  - intros [= <-]. destruct (Hg _ _ E) as [H1 H2]. rewrite !first_in_cons. cbn [selects].
    by rewrite !bool_decide_eq_false_2.
  - destruct (try_first g r) as [r'|] eqn:Er; cbn; [|done]. intros [= <-]. rewrite !first_in_cons.
    by rewrite (IH _ eq_refl).
Qed.

Lemma update_other t t' p q f e e' : t <> t' -> keeps_identity f -> update_first (Child t :: p) f e = Some e' ->
  find_first (Child t' :: q) e' = find_first (Child t' :: q) e.
Proof.
  intros Hne Hf. cbn [update_first]. destruct (try_first _ (children e)) as [l|] eqn:E; cbn; [|done]. intros [= <-].
  rewrite !find_first_cons. cbn [children]. eapply try_first_other; [|exact E]. cbn beta. intros c c'.
  destruct (selects (Child t) c) eqn:Es; [|done]. cbn [selects] in Es. apply bool_decide_eq_true_1 in Es.
  intros Hu. destruct (update_identity _ _ _ _ Hf Hu) as [-> _]. by rewrite Es.
Qed.

Lemma update_under s p q f e e' : keeps_identity f ->
  (forall c c', update_first p f c = Some c' -> find_first q c' = find_first q c) ->
  update_first (s :: p) f e = Some e' -> find_first (s :: q) e' = find_first (s :: q) e.
Proof.
  intros Hf Hq. cbn [update_first]. destruct (try_first _ (children e)) as [l|] eqn:E; cbn; [|done]. intros [= <-].
  rewrite !find_first_cons. cbn [children]. revert l E. induction (children e) as [|c r IH]; intros l; cbn [try_first]; [done|].
  destruct (if selects s c then update_first p f c else None) as [c'|] eqn:E.
  - destruct (selects s c) eqn:Es; [|done]. intros [= <-]. rewrite !first_in_cons.
    destruct (update_identity _ _ _ _ Hf E) as [Ht Ha]. by rewrite (selects_identity s c c' Ht Ha), Es, (Hq _ _ E).
  - destruct (try_first _ r) as [r'|]; cbn; [|done]. intros [= <-]. rewrite !first_in_cons. by rewrite (IH _ eq_refl).
Qed.

Lemma on_first_as_try t f l : on_first t f l = try_first (fun c => if bool_decide (tag c = t) then Some (f c) else None) l.
Proof. induction l as [|c r IH]; cbn [on_first try_first]; [done|]. case_bool_decide; [done|]. by rewrite IH. Qed.

Lemma first_in_snoc_other t q l c : tag c <> t -> first_in (Child t) q (l ++ [c]) = first_in (Child t) q l.
Proof.
  intros Hc. induction l as [|x r IH]; cbn [app]; rewrite ?first_in_cons; [|by rewrite IH].
  cbn [selects]. by rewrite bool_decide_eq_false_2.
Qed.

Lemma node_other t t' parts q f e : t <> t' -> keeps_identity f ->
  find_first (Child t' :: q) (node_at (t :: parts) f e) = find_first (Child t' :: q) e.
Proof.
  intros Hne Hf. cbn [node_at]. rewrite on_first_as_try. destruct (try_first _ (children e)) as [l|] eqn:E;
    rewrite !find_first_cons; cbn [children append_child].
  - eapply try_first_other; [|exact E]. cbn beta. intros c c'. case_bool_decide as Et; [|done]. intros [= <-].
    rewrite (proj1 (node_at_identity parts f c Hf)). by rewrite Et.
  - apply first_in_snoc_other. rewrite (proj1 (node_at_identity parts f (new_element t) Hf)). done.
Qed.

Lemma node_under t t' t'' parts q f e : t' <> t'' -> keeps_identity f ->
  find_first (Child t :: Child t'' :: q) (node_at (t :: t' :: parts) f e) = find_first (Child t :: Child t'' :: q) e.
Proof.
  intros Hne Hf. remember (t' :: parts) as ps eqn:Hps. cbn [node_at]. rewrite on_first_as_try.
  assert (forall c, tag (node_at ps f c) = tag c) as Htag by (intros c; apply (node_at_identity ps f c Hf)).
  assert (forall c, find_first (Child t'' :: q) (node_at ps f c) = find_first (Child t'' :: q) c) as Hq
    by (intros c; subst ps; by apply node_other).
  destruct (try_first _ (children e)) as [l|] eqn:E; rewrite !find_first_cons; cbn [children append_child].
  - revert l E. induction (children e) as [|c r IH]; intros l; cbn [try_first]; [done|]. case_bool_decide as Et.
    + intros [= <-]. rewrite !first_in_cons. cbn [selects]. rewrite Htag, Hq. done.
    + destruct (try_first _ r) as [r'|]; cbn; [|done]. intros [= <-]. rewrite !first_in_cons. by rewrite (IH _ eq_refl).
  - clear E. induction (children e) as [|c r IH]; cbn [app]; rewrite ?first_in_cons; [|by rewrite IH].
    rewrite Hq. cbn [selects]. by destruct (bool_decide _).
Qed.

Lemma kind_name_inj k k' : kind_name k = kind_name k' -> k = k'.
Proof. destruct k, k'; vm_compute; congruence. Qed.

Lemma rules_of_put_other k k' l local : k <> k' -> rules_of k' (put_rules k l local) = rules_of k' local.
Proof.
  intros Hk. assert (kind_name k <> kind_name k') as Hn by (intros E; by apply Hk, kind_name_inj).
  unfold rules_of, put_rules. f_equal.
  assert (forall e', update_first (rules_path k) (with_children l) local = Some e' ->
          find_first (rules_path k') e' = find_first (rules_path k') local) as Hu.
  { intros e'. apply update_under; [apply with_children_identity|]. intros c c'. apply update_other; [done | apply with_children_identity]. }
  destruct (update_first (rules_path k) (with_children l) local) as [e'|]; [by rewrite Hu|].
  rewrite (node_under (lit "rulebase") (kind_name k) (kind_name k') [lit "rules"] [Child (lit "rules")]); done || apply with_children_identity.
Qed.

(** *** Names *)

Lemma rule_index_Some name rows i e : rule_index name rows = Some (i, e) ->
  rows !! i = Some e /\ exists n, name = JStr n /\ eget (lit "name") e = Some n.
Proof.
  unfold rule_index. destruct name; try done. intros (H1 & H2 & _)%list_find_Some. eauto.
Qed.

Lemma names_insert i e e' rows : rows !! i = Some e -> eget (lit "name") e' = eget (lit "name") e ->
  rule_names (<[i := e']> rows) = rule_names rows.
Proof.
  intros H He. unfold rule_names. change (map ?f ?l) with (f <$> l). rewrite list_fmap_insert.
  apply list_insert_id. by rewrite list_lookup_fmap, H, He.
Qed.

Lemma delete_perm {A} (rows : list A) i e : rows !! i = Some e -> e :: delete i rows ≡ₚ rows.
Proof. intros H. by rewrite <- (delete_Permutation rows i e H). Qed.

(** The new rules keep their names apart. *)
Lemma edit_rows_names k root local a rows rows' : NoDup (rule_names rows) ->
  edit_rows k root local a rows = Ok rows' -> NoDup (rule_names rows').
Proof.
  intros Hnd. unfold edit_rows.
  assert (forall i e, rule_index (action_name a) rows = Some (i, e) -> change_rule k root local a rows i e = Ok rows' ->
          NoDup (rule_names rows')) as Hch.
  { intros i e Hi. destruct (rule_index_Some _ _ _ _ Hi) as (Hl & n & Hn & He). unfold change_rule. destruct a; cbn [action_name] in Hn.
    - by intros [= <-].
    - intros H. inv_res. case_bool_decide as E; [|done]. inv_res. subst. cbn [jtext] in E.
      by rewrite (names_insert _ _ _ _ Hl) by (rewrite serialize_name, He; congruence).
    - intros [= <-]. unfold rule_names in *. rewrite <- (delete_perm _ _ _ Hl) in Hnd. cbn [map] in Hnd. by apply NoDup_cons in Hnd as [_ ?].
    - destruct enabled; try done. intros H. apply ok_inj in H as <-. rewrite (names_insert _ _ _ _ Hl); [done|].
      unfold eget. by rewrite (proj2 (node_at_root _ _ _ _)).
    - destruct position; try done. destruct (between _ _ _); [|done]. intros [= <-]. unfold rule_names in *.
      rewrite <- (delete_perm _ _ _ Hl) in Hnd. rewrite <- Permutation_middle, take_drop. done. }
  destruct a; try (destruct (rule_index _ _) as [[i e]|] eqn:Hi; [|done]; destruct (d_editable _); [|done]; eauto).
  intros H. inv_res. case_bool_decide as E; [done|]. inv_res. unfold rule_names in *. rewrite map_app. cbn [map].
  rewrite serialize_name. apply NoDup_app. split; [done|]. split; [|apply NoDup_singleton].
  intros x Hx ->%list_elem_of_singleton. done.
Qed.

(** *** The effect of an edit *)

(** Rule [e] with name [n] is at index [i]. *)
Definition rule_at (rows : list element) (name : json) (i : nat) (e : element) : Prop :=
  rows !! i = Some e /\ exists n, name = JStr n /\ eget (lit "name") e = Some n.

(** What each action does to the rules. *)
Definition edited (k : kind) (root local : element) (a : action) (rows rows' : list element) : Prop :=
  match a with
  | Create rule => exists spec, validate k rule root local = Ok spec /\ rows' = rows ++ [serialize k spec]
  | Update name rule => exists i e spec, rule_at rows name i e /\ validate k rule root local = Ok spec
      /\ name = JStr (r_name spec) /\ rows' = <[i := serialize k spec]> rows
  | Delete name => exists i e, rule_at rows name i e /\ rows' = delete i rows
  | Toggle name enabled => exists i e b, rule_at rows name i e /\ enabled = JBool b
      /\ rows' = <[i := node_at [lit "disabled"] (set_text (lit (if b then "no" else "yes"))) e]> rows
  | Move name position => exists i e p, rule_at rows name i e /\ position = JInt p /\ 1 <= p <= blen rows
      /\ rows' !! Z.to_nat (p - 1) = Some e /\ delete (Z.to_nat (p - 1)) rows' = delete i rows
  end.

Lemma insert_then_delete {A} (l : list A) (n : nat) x : (n <= length l)%nat ->
  (take n l ++ x :: drop n l) !! n = Some x /\ delete n (take n l ++ x :: drop n l) = l.
Proof.
  intros H. assert (n = length (take n l)) as E by (rewrite length_take; lia). split.
  - rewrite E at 3. by rewrite list_lookup_middle.
  - rewrite E at 1. rewrite delete_middle. apply take_drop.
Qed.

Lemma edit_rows_effect k root local a rows rows' : edit_rows k root local a rows = Ok rows' -> edited k root local a rows rows'.
Proof.
  unfold edit_rows.
  assert (forall i e, rule_index (action_name a) rows = Some (i, e) -> (forall r, a <> Create r) ->
          change_rule k root local a rows i e = Ok rows' -> edited k root local a rows rows') as Hch.
  { intros i e Hi Hc. apply rule_index_Some in Hi as (Hl & n & Hn & He).
    assert (rule_at rows (action_name a) i e) as Hat by (split; eauto). unfold change_rule, edited.
    destruct a as [r|name rule|name|name enabled|name position]; cbn [action_name] in *; [by destruct (Hc r)|..].
    - intros H. inv_res. case_bool_decide as E; [|done]. apply ok_inj in H as <-. subst. cbn [jtext] in E.
      exists i, e, v. by rewrite E.
    - intros H. apply ok_inj in H as <-. by exists i, e.
    - destruct enabled as [|b|?|? ?|?|?|?]; try done. intros H. apply ok_inj in H as <-. by exists i, e, b.
    - destruct position as [|?|p|? ?|?|?|?]; try done. destruct (between 1 p (blen rows)) eqn:E; [|done].
      intros H. apply ok_inj in H as <-. apply between_inv in E. exists i, e, p. split; [done|]. split; [done|]. split; [lia|].
      apply insert_then_delete. rewrite length_delete by eauto. unfold blen in E. lia. }
  destruct a; try (destruct (rule_index _ _) as [[i e]|] eqn:Hi; [|done]; destruct (d_editable _); [|done]; apply Hch; done).
  intros H. inv_res. case_bool_decide as E; [done|]. apply ok_inj in H as <-. by exists v.
Qed.

(** C24. An edit the manager accepts comes from a named user who is not locked out and who saw the
    current revision; it does to the rules what the action says and nothing else: the names stay
    distinct, the other rules stay as and where they are, and no other rulebase of the virtual
    system changes. *)
Theorem execute_effect k root local rev user lock revision unchanged a local' :
  execute k root local rev user lock revision unchanged a = Ok local' ->
  user <> [] /\ revision = JStr rev /\ (forall h, lock = Some h -> h = Some user) /\ unchanged = true /\
  edited k root local a (rules_of k local) (rules_of k local') /\
  NoDup (rule_names (rules_of k local')) /\
  forall k', k' <> k -> rules_of k' local' = rules_of k' local.
Proof.
  unfold execute. intros H. inv_res. subst. zb. rewrite rules_of_put.
  apply bool_decide_eq_true_1 in Hv. apply bool_decide_eq_false_1 in Hv0.
  split; [done|]. split.
  { destruct revision; try done. f_equal. by apply bool_decide_eq_true_1 in Hv2. }
  split. { intros h ->. zb. by apply bool_decide_eq_true_1 in Hv1. }
  split; [done|]. split; [by apply edit_rows_effect|]. split; [by eapply edit_rows_names|].
  intros k' Hk. apply rules_of_put_other. congruence.
Qed.

(** A rule that lets trust reach the web hosts. *)
Definition web_rule : json :=
  JObj [(lit "name", JStr (lit "web")); (lit "enabled", JBool true);
        (lit "settings", JObj [ (lit "from", JList [JStr (lit "trust")]); (lit "to", JList [JStr (lit "untrust")]);
                                (lit "destination", JList [JStr (lit "all")]); (lit "service", JList [JStr (lit "https")]);
                                (lit "action", JStr (lit "allow")) ])].

Definition created : result exn element :=
  execute Security demo_root demo_owner (lit "r1") (lit "admin") None (JStr (lit "r1")) true (Create web_rule).
Definition created_owner : element := match created with Ok e => e | Err _ => demo_owner end.

Lemma execute_effect_witness : created = Ok created_owner /\
  edited Security demo_root demo_owner (Create web_rule) (rules_of Security demo_owner) (rules_of Security created_owner) /\
  NoDup (rule_names (rules_of Security created_owner)).
Proof.
  assert (created = Ok created_owner) as H by (vm_compute; reflexivity).
  split; [exact H|]. unfold created in H. destruct (execute_effect _ _ _ _ _ _ _ _ _ _ H) as (_ & _ & _ & _ & H1 & H2 & _).
  split; [exact H1 | exact H2].
Defined.
