(* ===== verification/NatPolicy.v ===== *)
(** * Compiling NAT rules (ffn_nat_policy.py)

    [compile_rule] turns one described rule into a platform-neutral translation: the
    matched networks, services and interfaces with the source and destination
    translation, or an IPv6 translation.  [compile_policy] compiles the enabled rules
    of every virtual system in order and reports the rules it cannot compile. *)

From S2P Require Import Prelude PyStr PyDict PyIp PyXml PyIp6 PolicyObjects Ipv6Settings PolicyConfig.
From S2P Require Ipv6Translation.

(** [int(text)]: white space around, a sign, digits with single underscores between them. *)
Definition digit_group (p : pystr) : bool :=
  negb (length p =? 0)%nat && forallb (fun c => if digit_value c then true else false) p.
Definition py_int (s : pystr) : option Z :=
  let t := strip s in
  let body := match t with 45 :: r | 43 :: r => r | _ => t end in
  let parts := split_on 95 body in
  if forallb digit_group parts then
    (fun n => if bool_decide (head t = Some 45) then - n else n) <$> int_of_digits (concat parts)
  else None.

Inductive snat_t :=
| SnatNone
| Masquerade (interface : pystr)
| SnatHost (static : bool) (address : pystr).
Inductive dnat_t :=
| DnatPool (addresses : list pystr) (method : pystr) (port : option Z)
| DnatHost (address : pystr) (port : option Z).

Record nat_rule := {
  n_name : pystr; n_scope : option pystr; n_position : Z;
  n_ingress : list pystr; n_egress : list pystr;
  n_source : list pystr; n_destination : list pystr; n_services : list service;
  n_snat : snat_t; n_dnat : option dnat_t; n_translation : option translation;
}.

(** [a.subnet_of(b)] for the canonical texts of two IPv6 networks. *)
Definition subnet6 (a b : pystr) : result exn bool :=
  match ip6_network true a, ip6_network true b with
  | Some (Net6 x p _), Some (Net6 y q _) => Ok ((q <=? p) && (network_address6 x q =? y))
  | _, _ => Err ValueError
  end.

Definition egress_of (s : settings_t) (egress : list pystr) : result exn (list pystr) :=
  let i := stext "to-interface" s in
  if bool_decide (i = []) || bool_decide (i = lit "any") then Ok egress
  else if str_in i egress then Ok [i]
  else Err (NatError (lit "Destination interface is not in the selected destination zone")).

(** [any(...)] over a test that can raise. *)
Fixpoint any_res {A} (f : A -> result exn bool) (l : list A) : result exn bool :=
  match l with
  | [] => Ok false
  | x :: t => match f x with Ok true => Ok true | Ok false => any_res f t | Err e => Err e end
  end.

(** The branch of [compile_rule] for NAT64 and NPTv6. *)
Definition compile_translation (root owner : element) (spec : rule_spec) (position : Z) (t : translation) : result exn nat_rule :=
  let s := r_settings spec in
  let r := {| r_root := root; r_owner := owner; r_family := 6 |} in
  source ← addresses r (slist "source" s);
  destination ← addresses r (slist "destination" s);
  sd ← (match t with
        | Nat64 target _ =>
            let destination := if bool_decide (destination = [lit "::/0"]) then [target] else destination in
            match any_res (fun n => b ← subnet6 n target; Ok (negb b)) destination with
            | Ok false => Ok (source, destination)
            | Ok true => Err (NatError (lit "NAT64 destination matches must be within the translation prefix"))
            | Err e => Err e
            end
        | Nptv6 internal _ => Ok ([internal], destination)
        end);
  ingress ← interfaces r (Some <$> slist "from" s);
  egress ← interfaces r (Some <$> slist "to" s);
  egress ← egress_of s egress;
  svc ← services r (slist "service" s);
  Ok {| n_name := r_name spec; n_scope := eget (lit "name") owner; n_position := position; n_ingress := ingress;
        n_egress := egress; n_source := sd.1; n_destination := sd.2; n_services := svc; n_snat := SnatNone;
        n_dnat := None; n_translation := Some t |}.

Definition prefixlen (n : ipnet) : Z := match n with Net4 _ p | Net6 _ p _ => p end.

(** The source translation of an IPv4 rule. *)
Definition compile_snat (r : resolver) (s : settings_t) (source : list pystr) : result exn snat_t :=
  let mode := stext "source-type" s in
  let is_static := bool_decide (mode = lit "static-ip") in
  let is_dipp := bool_decide (mode = lit "dynamic-ip-and-port") in
  let iface := truthy (sget "source-interface" s) in
  if bool_decide (mode = lit "dynamic-ip") then
    Err (NatError (lit "Dynamic IP without port translation requires a dedicated address-pool allocator; use Dynamic IP and Port"))
  else if negb (bool_decide (mode = lit "none") || is_static || is_dipp) then Err (NatError (lit "Unsupported source translation"))
  else if bool_decide (mode = lit "none") then
    if iface || truthy (sget "translated-source" s) then Err (NatError (lit "Source translation must be selected")) else Ok SnatNone
  else if iface then
    if negb is_dipp || truthy (sget "translated-source" s) then
      Err (NatError (lit "Interface NAT requires Dynamic IP and Port without an address pool"))
    else Ok (Masquerade (stext "source-interface" s))
  else
    translated ← addresses r (slist "translated-source" s);
    match translated with
    | [t] =>
        address ← ipv4 t true;
        let refused := Err (NatError (lit "Static source NAT requires one original host and one translated host")) in
        if is_static then
          match source with
          | [o] => match ip_network true o with
                   | None => Err ValueError
                   | Some n => if prefixlen n =? 32 then Ok (SnatHost true address) else refused
                   end
          | _ => refused
          end
        else Ok (SnatHost false address)
    | _ => Err (NatError (lit "This NAT provider requires one translated IPv4 address"))
    end.

(** The first and last address of an expanded text. *)
Definition host_range (value : pystr) : result exn (Z * Z) :=
  if bool_decide (45 ∈ value) then
    match split_on 45 value with
    | [a; b] => match ip4_parse a, ip4_parse b with Some x, Some y => Ok (x, y) | _, _ => Err ValueError end
    | _ => Err ValueError
    end
  else match ip4_network true value with
       | Some (Net4 a p) => Ok (a, broadcast_address a p)
       | _ => Err ValueError
       end.

(** [range(start, end + 1)]. *)
Definition z_range (a b : Z) : list Z := map (fun i => a + Z.of_nat i) (seq 0 (Z.to_nat (b - a + 1))).
Definition pool_error {A} : result exn A := Err (NatError (lit "Dynamic destination pool exceeds 256 hosts")).

Definition pool_add (pool : list Z) (number : Z) : result exn (list Z) :=
  _ ← ipv4 (ip4_text number) true;
  Ok (if bool_decide (number ∈ pool) then pool else pool ++ [number]).
Definition pool_value (pool : list Z) (value : pystr) : result exn (list Z) :=
  ab ← host_range value;
  if 256 <? ab.2 - ab.1 + 1 then pool_error else
  pool ← foldM_res pool_add pool (z_range ab.1 ab.2);
  if (256 <? length pool)%nat then pool_error else Ok pool.

Definition compile_port (s : settings_t) (services : list service) : result exn (option Z) :=
  if negb (truthy (sget "translated-port" s)) then Ok None
  else if existsb (fun x => bool_decide (protocol x = lit "any")) services then
    Err (NatError (lit "Port forwarding requires a TCP or UDP service"))
  else match py_int (stext "translated-port" s) with
       | None => Err ValueError
       | Some n => if between 1 n 65535 then Ok (Some n) else Err (NatError (utf "Translated port must be 1–65535"))
       end.

(** The destination translation of an IPv4 rule. *)
Definition compile_dnat (r : resolver) (s : settings_t) (dynamic : bool) (services : list service) : result exn (option dnat_t) :=
  if negb (truthy (sget "translated-destination" s)) then
    if truthy (sget "translated-port" s) then Err (NatError (lit "Translated port requires destination translation")) else Ok None
  else
    l ← addresses r [stext "translated-destination" s];
    if dynamic then
      pool ← foldM_res pool_value [] l;
      if (length pool =? 0)%nat then Err (NatError (lit "Dynamic destination pool is empty")) else
      port ← compile_port s services;
      Ok (Some (DnatPool (map ip4_text (py_sorted Z.leb pool)) (stext "session-distribution" s) port))
    else
      match l with
      | [a] => host ← ipv4 a true; port ← compile_port s services; Ok (Some (DnatHost host port))
      | _ => Err (NatError (lit "Destination translation requires one IPv4 host"))
      end.

Definition distributions : list pystr := map lit ["round-robin"; "source-ip-hash"; "ip-hash"]%string.

Definition compile_ipv4 (root owner : element) (spec : rule_spec) (position : Z) : result exn nat_rule :=
  let s := r_settings spec in
  let r := {| r_root := root; r_owner := owner; r_family := 4 |} in
  let dynamic := bool_decide (stext "destination-type" s = lit "dynamic-ip") in
  _ ← raise_if (bool_decide (stext "source-type" s = lit "persistent-dynamic-ip-and-port"))
        (NatError (lit "Persistent Dynamic IP and Port requires a dataplane persistent-binding allocator; activation is not supported by this provider"));
  _ ← raise_if (dynamic && negb (str_in (stext "session-distribution" s) distributions))
        (NatError (lit "This session-distribution method requires a different dataplane allocator"));
  _ ← raise_if (negb dynamic && truthy (sget "session-distribution" s))
        (NatError (lit "Session distribution requires dynamic destination translation"));
  source ← addresses r (slist "source" s);
  destination ← addresses r (slist "destination" s);
  ingress ← interfaces r (Some <$> slist "from" s);
  egress ← interfaces r (Some <$> slist "to" s);
  egress ← egress_of s egress;
  svc ← services r (slist "service" s);
  snat ← compile_snat r s source;
  dnat ← compile_dnat r s dynamic svc;
  Ok {| n_name := r_name spec; n_scope := eget (lit "name") owner; n_position := position; n_ingress := ingress;
        n_egress := egress; n_source := source; n_destination := destination; n_services := svc; n_snat := snat;
        n_dnat := dnat; n_translation := None |}.

Definition compile_rule (root owner : element) (spec : rule_spec) (editable : bool) (position : Z) : result exn nat_rule :=
  _ ← raise_if (negb editable) (NatError (lit "Imported NAT rule contains unsupported XML fields"));
  t ← validate_settings (fun vs fam => addresses {| r_root := root; r_owner := owner; r_family := fam |} vs) (r_settings spec);
  match t with
  | Some t => compile_translation root owner spec position t
  | None => compile_ipv4 root owner spec position
  end.

Record blocker := { b_scope : option pystr; b_name : pystr; b_reason : exn }.
Record nat_report := { np_rules : list nat_rule; np_errors : list blocker; np_disabled : Z }.

(** One entry of a rulebase; its position counts from one. *)
Definition compile_one (root : element) (scope : option pystr) (owner : element) (rep : nat_report) (ie : Z * element) : nat_report :=
  let '(i, e) := ie in
  if bool_decide (findtext (xpath "disabled") e = Some (lit "yes")) then
    {| np_rules := np_rules rep; np_errors := np_errors rep; np_disabled := np_disabled rep + 1 |}
  else
    let d := describe Nat e in
    match compile_rule root owner (d_spec d) (d_editable d) i with
    | Ok r => {| np_rules := np_rules rep ++ [r]; np_errors := np_errors rep; np_disabled := np_disabled rep |}
    | Err x => {| np_rules := np_rules rep;
                  np_errors := np_errors rep ++ [{| b_scope := scope; b_name := default [] (eget (lit "name") e); b_reason := x |}];
                  np_disabled := np_disabled rep |}
    end.
Definition enumerate {A} (l : list A) : list (Z * A) := zip (map (fun i => Z.of_nat i + 1) (seq 0 (length l))) l.

Definition compile_policy (root : element) : nat_report :=
  let rep := fold_left (fun rep so => fold_left (compile_one root so.1 so.2) (enumerate (findall (xpath "rulebase/nat/rules/entry") so.2)) rep)
               (owners root) {| np_rules := []; np_errors := []; np_disabled := 0 |} in
  if (1024 <? length (np_rules rep))%nat then
    {| np_rules := np_rules rep; np_disabled := np_disabled rep;
       np_errors := np_errors rep ++ [{| b_scope := Some (lit "all"); b_name := [];
                                         b_reason := NatError (lit "NAT supports at most 1024 enabled rules") |}] |}
  else rep.
Definition plan_valid (rep : nat_report) : bool := (length (np_errors rep) =? 0)%nat.
Definition plan_version (rep : nat_report) : Z :=
  if existsb (fun r => if n_translation r then true else false) (np_rules rep) then 2 else 1.

(** ** What a compiled rule may contain *)

(** A host that can be translated to. *)
Definition usable (a : Z) : Prop :=
  is_ip4 a /\ is_multicast a = false /\ is_unspecified a = false /\ is_loopback a = false.

Lemma ipv4_host t u : ipv4 t true = Ok u -> exists a, u = ip4_text a /\ usable a.
Proof.
  unfold ipv4. rewrite andb_false_r. destruct (ip_network false t) as [[a p|]|] eqn:E; try done.
  cbn [andb]. destruct (p =? 32) eqn:Ep; cbn [negb]; [|done]. destruct (_ || _) eqn:Eu; [done|].
  intros H. apply ok_inj in H as <-. exists a. split; [done|]. zb. split; [|done].
  unfold ip_network in E. destruct (iface_parse t) as [[b q]|] eqn:Ei; [|by apply ip6_network_v6 in E].
  unfold ip4_network in E. rewrite Ei in E. cbn [andb] in E. injection E as <- <-.
  destruct (iface_parse_bound _ _ _ Ei). by apply network_address_ok.
Qed.

Lemma ipv4_host_text a u : ipv4 (ip4_text a) true = Ok u -> is_ip4 a -> usable a.
Proof.
  intros H Ha. revert H. unfold ipv4. rewrite andb_false_r.
  assert (iface_parse (ip4_text a) = Some (a, 32)) as Hi.
  { unfold iface_parse. rewrite split_on_word by apply ip4_text_sep. by rewrite ip4_text_parse. }
  unfold ip_network, ip4_network. rewrite Hi. cbn [andb negb].
  assert (network_address a 32 = a) as -> by (unfold network_address; rewrite Z.sub_diag, Z.pow_0_r, Z.mod_1_r; lia).
  cbn [Z.eqb Pos.eqb negb]. destruct (_ || _) eqn:Eu; [done|]. intros _. zb. done.
Qed.

Lemma pool_add_ok pool n pool' : is_ip4 n -> NoDup pool -> Forall usable pool -> pool_add pool n = Ok pool' ->
  NoDup pool' /\ Forall usable pool'.
Proof.
  intros Hn Hd Hu. unfold pool_add. intros H. inv_res. apply ipv4_host_text in Hv; [|done].
  case_bool_decide as E; [done|]. split; [|by apply Forall_app; split; [|apply Forall_singleton]].
  apply NoDup_app. split; [done|]. split; [|apply NoDup_singleton]. by intros x Hx ->%list_elem_of_singleton.
Qed.

Lemma host_range_bound v a b : host_range v = Ok (a, b) -> is_ip4 a /\ is_ip4 b.
Proof.
  unfold host_range. case_bool_decide.
  - destruct (split_on 45 v) as [|x [|y [|? ?]]]; try done.
    destruct (ip4_parse x) eqn:Ex; [|done]. destruct (ip4_parse y) eqn:Ey; [|done]. intros [= <- <-].
    split; by eapply ip4_parse_bound.
  - unfold ip4_network. destruct (iface_parse v) as [[x p]|] eqn:Ei; [|done]. destruct (iface_parse_bound _ _ _ Ei) as [Hx Hp].
    destruct (_ && _) eqn:E; [done|]. cbn [andb] in E. apply negb_false_iff, Z.eqb_eq in E. rewrite E. intros [= <- <-].
    split; [done|]. unfold broadcast_address. rewrite E. unfold network_address in E. unfold is_ip4 in *.
    assert (0 < 2 ^ (32 - p)) by (apply Z.pow_pos_nonneg; lia).
    assert (x mod 2 ^ (32 - p) = 0) as Hm by lia. apply Z.mod_divide in Hm as [q ->]; [|lia].
    assert (2 ^ 32 = 2 ^ p * 2 ^ (32 - p)) as Hs by (rewrite <- Z.pow_add_r by lia; f_equal; lia). rewrite Hs in *.
    set (m := 2 ^ (32 - p)) in *. assert (q < 2 ^ p) by (apply (Z.mul_lt_mono_pos_r m); lia).
    assert (0 <= q) by (apply (Z.mul_le_mono_pos_r _ _ m); lia).
    assert ((q + 1) * m <= 2 ^ p * m) by (apply Z.mul_le_mono_nonneg_r; lia). lia.
Qed.

Lemma z_range_elem a b x : x ∈ z_range a b -> a <= x <= b.
Proof. unfold z_range. intros H. apply list_elem_of_In, in_map_iff in H as (i & <- & H). apply in_seq in H. lia. Qed.

Lemma pool_fold_ok l pool pool' : Forall is_ip4 l -> NoDup pool -> Forall usable pool ->
  foldM_res pool_add pool l = Ok pool' -> NoDup pool' /\ Forall usable pool'.
Proof.
  intros Hl. revert pool. induction Hl as [|n l Hn _ IH]; intros pool Hd Hu; cbn [foldM_res]; [by intros [= <-]|].
  intros H. inv_res. destruct (pool_add_ok _ _ _ Hn Hd Hu Hv). by eapply IH.
Qed.

Definition pool_ok (pool : list Z) : Prop := NoDup pool /\ Forall usable pool /\ (length pool <= 256)%nat.

Lemma pool_values_ok l pool pool' : pool_ok pool -> foldM_res pool_value pool l = Ok pool' -> pool_ok pool'.
Proof.
  revert pool; induction l as [|v l IH]; intros pool Hp; cbn [foldM_res]; [by intros [= <-]|].
  intros H. inv_res. eapply IH; [|exact H]. unfold pool_value in Hv. inv_res. destruct v1 as [a b]. cbn [fst snd] in *.
  split_if Hv; [done|]. inv_res. split_if Hv; [done|]. inv_res. apply Nat.ltb_ge in E0.
  destruct (host_range_bound _ _ _ Hv0) as [Ha Hb]. destruct Hp as (Hd & Hu & _). unfold pool_ok.
  match goal with |- NoDup ?l /\ _ => enough (NoDup l /\ Forall usable l) by tauto end.
  eapply pool_fold_ok; [|exact Hd | exact Hu | done]. apply Forall_forall. intros x Hx%z_range_elem. unfold is_ip4 in *. lia.
Qed.

(** A port is only rewritten for services with ports. *)
Definition port_ok (svc : list service) (port : option Z) : Prop :=
  forall p, port = Some p -> 1 <= p <= 65535 /\ Forall (fun x => protocol x <> lit "any") svc.

Lemma compile_port_ok s svc port : compile_port s svc = Ok port -> port_ok svc port.
Proof.
  unfold compile_port. destruct (negb _); [by intros [= <-]|]. destruct (existsb _ svc) eqn:Ex; [done|].
  destruct (py_int _) as [n|]; [|done]. destruct (between 1 n 65535) eqn:E; [|done]. intros [= <-] p [= <-].
  apply between_inv in E. split; [lia|]. apply Forall_forall. intros x Hx%list_elem_of_In Hp.
  assert (existsb (fun x => bool_decide (protocol x = lit "any")) svc = true); [|congruence].
  apply existsb_exists. exists x. split; [done|]. by apply bool_decide_eq_true_2.
Qed.

Definition snat_ok (source : list pystr) (sn : snat_t) : Prop :=
  match sn with
  | SnatNone | Masquerade _ => True
  | SnatHost static a => (exists h, a = ip4_text h /\ usable h)
      /\ (static = true -> exists o n, source = [o] /\ ip_network true o = Some n /\ prefixlen n = 32)
  end.
Definition dnat_ok (svc : list service) (dn : dnat_t) : Prop :=
  match dn with
  | DnatHost a port => (exists h, a = ip4_text h /\ usable h) /\ port_ok svc port
  | DnatPool l method port => (exists hosts, l = map ip4_text hosts /\ Sorted (fun a b => (a <=? b) = true) hosts /\ pool_ok hosts /\ hosts <> [])
      /\ method ∈ distributions /\ port_ok svc port
  end.

Lemma compile_snat_ok r s source sn : compile_snat r s source = Ok sn -> snat_ok source sn.
Proof.
  unfold compile_snat. case_bool_decide; [done|]. destruct (negb _); [done|]. case_bool_decide.
  { destruct (_ || _); [done|]. by intros [= <-]. }
  destruct (truthy (sget "source-interface" s)) eqn:Et.
  { destruct (_ || _); [done|]. by intros [= <-]. }
  intros H'. inv_res. destruct v as [|t [|? ?]]; try done. inv_res. apply ipv4_host in Hv0.
  case_bool_decide.
  - destruct source as [|o [|? ?]]; try done. destruct (ip_network true o) as [n|] eqn:En; [|done].
    split_if H'; [|done]. apply ok_inj in H' as <-. zb. split; [done|]. eauto.
  - apply ok_inj in H' as <-. split; done.
Qed.

Lemma compile_dnat_ok r s svc dn :
  let dynamic := bool_decide (stext "destination-type" s = lit "dynamic-ip") in
  (dynamic = true -> stext "session-distribution" s ∈ distributions) ->
  compile_dnat r s dynamic svc = Ok (Some dn) -> dnat_ok svc dn.
Proof.
  intros dynamic Hm. unfold compile_dnat. destruct (negb _); [by destruct (truthy _)|]. intros H. inv_res.
  destruct dynamic.
  - inv_res. destruct (length v0 =? 0)%nat eqn:El; [done|]. inv_res. apply Nat.eqb_neq in El. apply compile_port_ok in Hv1.
    destruct (pool_values_ok v [] v0) as (H1 & H2 & H3); [by split; [constructor | split; [constructor | cbn; lia]] | done |].
    split; [|by split; [apply Hm|]]. exists (py_sorted Z.leb v0). split; [done|].
    split; [apply py_sorted_Sorted; intros a b; destruct (Z.le_ge_cases a b); [left|right]; by apply Z.leb_le|].
    assert (py_sorted Z.leb v0 ≡ₚ v0) as Hp by apply py_sorted_perm.
    split; [|intros E; rewrite E in Hp; by apply Permutation_nil in Hp; subst].
    split; [by rewrite Hp|]. split; [by rewrite Hp|]. by rewrite Hp.
  - destruct v as [|a [|? ?]]; try done. inv_res. apply compile_port_ok in Hv1. apply ipv4_host in Hv0. done.
Qed.

Lemma addresses_NoDup r vs l : addresses r vs = Ok l -> NoDup l.
Proof. unfold addresses. cbn [addresses_rec]. intros H. inv_res. apply NoDup_sorted_set. Qed.

Lemma interfaces_nonempty r zs l : interfaces r zs = Ok l -> l <> [].
Proof.
  unfold interfaces. intros H. inv_res. destruct v as [|x v]; [done|]. cbn [length Nat.eqb] in H. apply ok_inj in H as <-.
  intros E. assert (x ∈ sorted_set (x :: v)) as Hx by (apply elem_sorted_set, list_elem_of_here). rewrite E in Hx. by apply not_elem_of_nil in Hx.
Qed.

Lemma egress_nonempty s l l' : egress_of s l = Ok l' -> l <> [] -> l' <> [].
Proof. unfold egress_of. case_ifs; congruence. Qed.

(** C32. A compiled NAT rule is one the dataplane can install: translations go to usable hosts only, a
    destination pool has one to 256 distinct hosts in order and a method the dataplane has, a port is
    rewritten only to a valid port of TCP or UDP services, the matched networks are sorted without
    repetition, both interface lists are non-empty, and an IPv6 translation excludes an IPv4 one. *)
Theorem compiled_nat_ok root owner spec editable position r :
  compile_rule root owner spec editable position = Ok r ->
  editable = true /\ n_name r = r_name spec /\ n_position r = position /\
  n_ingress r <> [] /\ n_egress r <> [] /\ NoDup (n_destination r) /\
  snat_ok (n_source r) (n_snat r) /\ (forall dn, n_dnat r = Some dn -> dnat_ok (n_services r) dn) /\
  (n_translation r <> None -> n_snat r = SnatNone /\ n_dnat r = None).
Proof.
  unfold compile_rule. intros H. inv_res. zb. destruct v0 as [t|].
  - unfold compile_translation in H. inv_res. cbn [n_name n_position n_ingress n_egress n_destination n_snat n_source n_dnat n_translation n_services].
    repeat split; try done; eauto using interfaces_nonempty, egress_nonempty.
    destruct t.
    + destruct (any_res _ _) as [[]|]; try done. inv_res. cbn [snd]. case_bool_decide; [apply NoDup_singleton|]. by eapply addresses_NoDup.
    + inv_res. by eapply addresses_NoDup.
  - unfold compile_ipv4 in H. inv_res. cbn [n_name n_position n_ingress n_egress n_destination n_snat n_source n_dnat n_translation n_services].
    repeat split; try done; eauto using interfaces_nonempty, egress_nonempty, addresses_NoDup, compile_snat_ok.
    intros dn ->. eapply compile_dnat_ok; [|eassumption]. intros Hd. rewrite Hd in *. cbn [andb] in *. zb.
    match goal with H : str_in _ _ = true |- _ => by apply bool_decide_eq_true_1 in H end.
Qed.

Definition masquerade_spec : rule_spec :=
  {| r_name := lit "out"; r_description := []; r_enabled := true;
     r_settings := [ (lit "from", JList [JStr (lit "trust")]); (lit "to", JList [JStr (lit "untrust")]);
                     (lit "source", JList [JStr (lit "all")]); (lit "destination", any_list); (lit "service", JList [JStr (lit "https")]);
                     (lit "source-type", JStr (lit "dynamic-ip-and-port")); (lit "source-interface", JStr (lit "ethernet1/2"));
                     (lit "destination-type", JStr (lit "dynamic-ip")); (lit "session-distribution", JStr (lit "ip-hash"));
                     (lit "translated-destination", JStr (lit "10.8.0.4/30")); (lit "translated-port", JStr (lit "8443")) ] |}.
Definition compiled_out : nat_rule :=
  {| n_name := lit "out"; n_scope := Some (lit "vsys1"); n_position := 1; n_ingress := [lit "ethernet1/1"];
     n_egress := [lit "ethernet1/2"]; n_source := [lit "10.1.2.0/24"; lit "10.9.0.1-10.9.0.20"; lit "192.0.2.53/32"];
     n_destination := [lit "0.0.0.0/0"];
     n_services := [ {| protocol := lit "tcp"; source_ports := []; destination_ports := [lit "443"; lit "8443-8450"] |} ];
     n_snat := Masquerade (lit "ethernet1/2");
     n_dnat := Some (DnatPool [lit "10.8.0.4"; lit "10.8.0.5"; lit "10.8.0.6"; lit "10.8.0.7"] (lit "ip-hash") (Some 8443));
     n_translation := None |}.

Lemma compiled_nat_ok_witness : compile_rule demo_root demo_owner masquerade_spec true 1 = Ok compiled_out /\
  snat_ok (n_source compiled_out) (n_snat compiled_out) /\ (forall dn, n_dnat compiled_out = Some dn -> dnat_ok (n_services compiled_out) dn).
Proof.
  assert (compile_rule demo_root demo_owner masquerade_spec true 1 = Ok compiled_out) as H by (vm_compute; reflexivity).
  split; [exact H|]. destruct (compiled_nat_ok _ _ _ _ _ _ H) as (_ & _ & _ & _ & _ & _ & H1 & H2 & _).
  split; [exact H1 | exact H2].
Defined.
