(* ===== verification/PolicyPlan.v ===== *)
(** * Policy plans and first-match diagnostics (ffn_policy_plan.py)

    [compile_policy] compiles the enabled rules of one rulebase into matches and
    actions; a rule that does not compile stays in the plan without a match and
    blocks it.  [test_policy] walks the plan for a packet whose context the caller
    supplies.  A match is three-valued: a predicate about a missing field is
    unknown, an unknown rule stops the walk, and only a rule that certainly does not
    match is passed over. *)

From S2P Require Import Prelude PyStr PyDict PyIp PyXml PyIp6 PolicyObjects Ipv6Settings PolicyConfig NatPolicy.

(** ** Applications *)

Definition app_error {A} : result exn A := Err (NatError (lit "Application group cycle or excessive nesting")).
(** The loop over the names; [any] ends the expansion of the whole list. *)
Fixpoint app_loop (r : resolver) (rec : list pystr -> list pystr -> result exn (list pystr)) (stack out values : list pystr)
    : result exn (list pystr) :=
  match values with
  | [] => Ok (sorted_set out)
  | value :: rest =>
      if bool_decide (value = lit "any") then Ok [lit "any"]
      else if str_in value stack || (16 <? length stack)%nat then app_error
      else
        out ← (match resolver_find r (lit "application-group") value with
               | Some group =>
                   let members := findall (xpath "members/member") group in
                   if (length members =? 0)%nat then Err (NatError (lit "Empty application group: " ++ value))
                   else (more ← rec (member_texts members) (stack ++ [value]); Ok (out ++ more))
               | None =>
                   if resolver_find r (lit "application") value then Ok (out ++ [value])
                   else Err (NatError (lit "Application filter or unresolved application requires an App-ID provider: " ++ value))
               end);
        if (256 <? length out)%nat then Err (NatError (lit "Expanded application list exceeds 256 entries"))
        else app_loop r rec stack out rest
  end.
Fixpoint applications_rec (r : resolver) (fuel : nat) (values stack : list pystr) : result exn (list pystr) :=
  match fuel with
  | O => Err OutOfFuel
  | S k => app_loop r (applications_rec r k) stack [] values
  end.
Definition applications (r : resolver) (values : list pystr) : result exn (list pystr) := applications_rec r 18 values [].

(** ** Plans *)

Record match_t := {
  m_from : list pystr; m_to : list pystr; m_source : list pystr; m_destination : list pystr;
  m_services : option (list service);                  (* None for application-default *)
  m_user : list pystr; m_application : list pystr;
  m_egress : option pystr;                              (* NAT *)
  m_security : option (pystr * list pystr * list pystr);   (* rule type, source and destination devices *)
}.
Inductive action_t :=
| ASecurity (type : pystr) (icmp_unreachable : bool) (profile_mode : pystr) (group : option pystr) (individual : list (pystr * pystr))
    (log_start log_end : bool) (forwarding : option pystr)
| ANat (snat : snat_t) (dnat : option dnat_t) (translation : option translation)
| AQos (class : Z)
| APbf (type : pystr) (forward : option (pystr * option pystr))
| ADecryption (type : pystr) (inspection certificate profile : option pystr)
| AImplicit (type : pystr).
Record row := {
  row_name : pystr; row_scope : option pystr; row_position : option Z;
  row_match : option match_t; row_action : option action_t; row_error : option exn;
}.

(** [text or None]. *)
Definition nonempty (s : pystr) : option pystr := match s with [] => None | _ => Some s end.

(** The interfaces a forwarding rule may use: those with addresses or units of their own. *)
Definition routed_names (root : element) : list (option pystr) :=
  match find_first (localhost ++ xpath "network/interface") root with
  | None => []
  | Some parent =>
      concat (map (fun e => match find_first (xpath "layer3") e with
                            | None => []
                            | Some _ => eget (lit "name") e :: named (Some e) (xpath "layer3/units")
                            end) (findall (xpath "ethernet/entry") parent ++ findall (xpath "aggregate-ethernet/entry") parent))
      ++ concat (map (fun g => named (Some parent) (path_of (lit g) ++ xpath "units")) ["vlan"; "loopback"; "tunnel"]%string)
  end.

Definition security_action (s : settings_t) : action_t :=
  ASecurity (stext "action" s) (bool_decide (stext "icmp-unreachable" s = lit "yes")) (stext "profile-mode" s)
    (nonempty (stext "profile-group" s))
    (map (fun k => (lit k, stext k s)) (List.filter (fun k => truthy (sget k s)) profile_keys))
    (bool_decide (stext "log-start" s = lit "yes")) (bool_decide (stext "log-end" s = lit "yes")) (nonempty (stext "log-setting" s)).

Definition pbf_action (root : element) (s : settings_t) : result exn action_t :=
  let type := stext "action" s in
  if negb (bool_decide (type = lit "forward")) then Ok (APbf type None) else
  let name := stext "egress-interface" s in
  if negb (bool_decide (Some name ∈ routed_names root)) then perr (lit "PBF egress must be a configured Layer 3 interface")
  else match nonempty (stext "next-hop" s) with
       | None => Ok (APbf type (Some (name, None)))
       | Some hop => match ip_address hop with
                     | Some (IPv4 _) => Ok (APbf type (Some (name, Some hop)))
                     | Some _ => perr (lit "IPv4 policy requires an IPv4 next hop")
                     | None => Err ValueError
                     end
       end.

(** The JSON form of a described rule, as [validate] reads it. *)
Definition spec_json (sp : rule_spec) : json :=
  JObj [(lit "name", JStr (r_name sp)); (lit "description", JStr (r_description sp)); (lit "enabled", JBool (r_enabled sp));
        (lit "settings", JObj (r_settings sp))].

(** The members of the match that every kind has. *)
Definition base_match (r : resolver) (k : kind) (s : settings_t) (security : option (pystr * list pystr * list pystr)) (egress : option pystr)
    : result exn match_t :=
  svc ← (if bool_decide (k = Security) && bool_decide (slist "service" s = [lit "application-default"]) then Ok None
         else Some <$> services r (slist "service" s));
  src ← addresses r (slist "source" s);
  dst ← addresses r (slist "destination" s);
  app ← applications r (if dmem (lit "application") s then slist "application" s else [lit "any"]);
  Ok {| m_from := slist "from" s; m_to := slist "to" s; m_source := src; m_destination := dst; m_services := svc;
        m_user := if dmem (lit "source-user") s then slist "source-user" s else [lit "any"]; m_application := app;
        m_egress := egress; m_security := security |}.

Definition compile_action (root owner : element) (k : kind) (sp : rule_spec) (position : Z) (m : match_t)
    : result exn (match_t * action_t) :=
  let s := r_settings sp in
  match k with
  | Security => Ok (m, security_action s)
  | Nat =>
      native ← compile_rule root owner sp true position;
      let m' := match n_translation native with
                | None => m
                | Some _ => {| m_from := m_from m; m_to := m_to m; m_source := n_source native; m_destination := n_destination native;
                               m_services := m_services m; m_user := m_user m; m_application := m_application m;
                               m_egress := m_egress m; m_security := m_security m |}
                end in
      Ok (m', ANat (n_snat native) (n_dnat native) (n_translation native))
  | Qos => match py_int (stext "class" s) with Some n => Ok (m, AQos n) | None => Err ValueError end
  | Pbf => a ← pbf_action root s; Ok (m, a)
  | _ => Ok (m, ADecryption (stext "action" s) (if bool_decide (stext "action" s = lit "decrypt") then Some (stext "type" s) else None)
                  (nonempty (stext "certificate" s)) (nonempty (stext "profile" s)))
  end.

Definition compile_entry (root owner : element) (k : kind) (d : described) (position : Z) : result exn (match_t * action_t) :=
  let family := if bool_decide (k = Nat) && str_in (stext "nat-type" (r_settings (d_spec d))) [lit "nat64"; lit "nptv6"] then 6 else 4 in
  let r := {| r_root := root; r_owner := owner; r_family := family |} in
  if negb (d_editable d) then perr (lit "Imported rule contains unsupported XML fields") else
  sp ← validate k (spec_json (d_spec d)) root owner;
  let s := r_settings sp in
  m ← base_match r k s
        (if bool_decide (k = Security) then Some (stext "rule-type" s, slist "source-device" s, slist "destination-device" s) else None)
        (if bool_decide (k = Nat) then Some (match nonempty (stext "to-interface" s) with Some i => i | None => lit "any" end) else None);
  compile_action root owner k sp position m.

Record plan := { rows : list row; blockers : list (pystr * exn); disabled_rules : Z }.
Definition plan_ok (p : plan) : bool := (length (blockers p) =? 0)%nat.

Record cstate := { c_plan : plan; c_names : list pystr }.
Definition compile_row (root owner : element) (k : kind) (scope : option pystr) (c : cstate) (ie : Z * element) : cstate :=
  let '(i, e) := ie in
  let p := c_plan c in
  if bool_decide (findtext (xpath "disabled") e = Some (lit "yes")) then
    {| c_plan := {| rows := rows p; blockers := blockers p; disabled_rules := disabled_rules p + 1 |}; c_names := c_names c |}
  else
    let name := default [] (eget (lit "name") e) in
    let add r b := {| rows := rows p ++ [r]; blockers := blockers p ++ b; disabled_rules := disabled_rules p |} in
    let failed x := add {| row_name := name; row_scope := scope; row_position := Some i; row_match := None; row_action := None;
                           row_error := Some x |} [(name, x)] in
    if str_in name (c_names c) then
      {| c_plan := failed (PolicyError (lit "Duplicate rule identity") 422); c_names := c_names c |}
    else
      {| c_names := c_names c ++ [name];
         c_plan := match compile_entry root owner k (describe k e) i with
                   | Ok (m, a) => add {| row_name := name; row_scope := scope; row_position := Some i; row_match := Some m;
                                         row_action := Some a; row_error := None |} []
                   | Err x => failed x
                   end |}.

Definition plan_kinds : list kind := [Security; Nat; Qos; Pbf; Decryption].
Definition compile_policy (root : element) (k : kind) (scope : option pystr) : result exn plan :=
  if negb (bool_decide (k ∈ plan_kinds)) then
    Err (PolicyError (lit "Policy planning is available for Security, NAT, QoS, PBF and Decryption") 404)
  else match dget scope (owners root) with
  | None => Err (PolicyError (lit "Virtual system not found") 404)
  | Some owner =>
      let entries := findall (xpath "rulebase" ++ [Child (kind_name k)] ++ xpath "rules/entry") owner in
      if (1024 <? length entries)%nat then perr (lit "Policy planning supports at most 1024 rules per rulebase")
      else Ok (c_plan (fold_left (compile_row root owner k scope) (enumerate entries)
                 {| c_plan := {| rows := []; blockers := []; disabled_rules := 0 |}; c_names := [] |}))
  end.

(** ** Packets *)

(** The addresses are kept as numbers; their canonical texts stand for them. *)
Record packet := {
  p_source : ipaddr; p_destination : ipaddr; p_from_zone : pystr; p_to_zone : pystr; p_protocol : pystr;
  p_source_port : option Z; p_destination_port : option Z;
  p_application : option pystr; p_source_user : option pystr; p_source_device : option pystr;
  p_destination_device : option pystr; p_egress : option pystr;
}.
Definition packet_keys : list pystr :=
  map lit ["source"; "destination"; "from_zone"; "to_zone"; "protocol"; "source_port"; "destination_port"; "application";
           "source_user"; "source_device"; "destination_device"; "egress_interface"]%string.

Definition packet_ip (ipv6 : bool) (v : json) : option ipaddr :=
  let number n := if between 0 n (2 ^ 32 - 1) then Some (IPv4 n)
                  else if ipv6 && between 0 n (2 ^ 128 - 1) then Some (IPv6 n None) else None in
  match v with
  | JStr s => if ipv6 then ip_address s else IPv4 <$> ip4_parse s
  | JInt n => number n
  | JBool b => number (if b then 1 else 0)
  | _ => None
  end.
Definition packet_address (ipv6 : bool) (o : list (pystr * json)) (k : string) : result exn ipaddr :=
  match packet_ip ipv6 (jget (lit k) o) with
  | Some a => Ok a
  | None => perr (lit "Packet " ++ lit k ++ lit " must be an " ++ lit (if ipv6 then "IP" else "IPv4") ++ lit " address")
  end.
Definition packet_zone (zones : list (option pystr)) (o : list (pystr * json)) (k : string) : result exn pystr :=
  match jget (lit k) o with
  | JStr z => if bool_decide (Some z ∈ zones) then Ok z else perr (lit "Select a configured " ++ lit k)
  | _ => perr (lit "Select a configured " ++ lit k)
  end.
Definition packet_port (proto : pystr) (o : list (pystr * json)) (k : string) : result exn (option Z) :=
  let refused := perr (utf "Packet ports require TCP/UDP and values 1–65535") in
  match dget (lit k) o with
  | None => Ok None
  | Some (JInt n) => if between 1 n 65535 && str_in proto [lit "tcp"; lit "udp"] then Ok (Some n) else refused
  | Some _ => refused
  end.
Definition packet_text (o : list (pystr * json)) (k : string) : result exn (option pystr) :=
  match dget (lit k) o with
  | None => Ok None
  | Some (JStr s) => if between 1 (blen s) 1024 then Ok (Some s) else perr (lit "Invalid packet " ++ lit k)
  | Some _ => perr (lit "Invalid packet " ++ lit k)
  end.

Definition validate_packet (v : json) (owner : element) (ipv6 : bool) : result exn packet :=
  match v with
  | JObj o =>
      _ ← check (extra_keys packet_keys o) "Unknown packet fields";
      src ← packet_address ipv6 o "source";
      dst ← packet_address ipv6 o "destination";
      _ ← check (negb (version src =? version dst)) "Original packet addresses must have the same family";
      let zones := named (Some owner) (xpath "zone") in
      fz ← packet_zone zones o "from_zone";
      tz ← packet_zone zones o "to_zone";
      let proto := jtext (jget (lit "protocol") o) in
      _ ← check (negb (str_in proto (map lit ["tcp"; "udp"; "icmp"; "other"]%string))) "Packet protocol must be tcp, udp, icmp or other";
      sp ← packet_port proto o "source_port";
      dp ← packet_port proto o "destination_port";
      app ← packet_text o "application";
      user ← packet_text o "source_user";
      sd ← packet_text o "source_device";
      dd ← packet_text o "destination_device";
      eg ← packet_text o "egress_interface";
      Ok {| p_source := src; p_destination := dst; p_from_zone := fz; p_to_zone := tz; p_protocol := proto;
            p_source_port := sp; p_destination_port := dp; p_application := app; p_source_user := user;
            p_source_device := sd; p_destination_device := dd; p_egress := eg |}
  | _ => perr (lit "Unknown packet fields")
  end.

(** ** Three-valued matching *)

Fixpoint port_any (value : Z) (ranges : list pystr) : result exn bool :=
  match ranges with
  | [] => Ok false
  | part :: t =>
      let ends := split_on 45 part in
      match py_int (default [] (head ends)), py_int (default [] (last ends)) with
      | Some lo, Some hi => if between lo value hi then Ok true else port_any value t
      | _, _ => Err ValueError
      end
  end.
Definition port_match (value : option Z) (ranges : list pystr) : result exn (option bool) :=
  match ranges, value with
  | [], _ => Ok (Some true)
  | _, None => Ok None
  | _, Some v => Some <$> port_any v ranges
  end.

Definition all_matches (values : list (option bool)) : option bool :=
  if bool_decide (Some false ∈ values) then Some false else if bool_decide (None ∈ values) then None else Some true.
Definition any_matches (values : list (option bool)) : option bool :=
  if bool_decide (Some true ∈ values) then Some true else if bool_decide (None ∈ values) then None else Some false.

(** A list field against an optional value of the packet. *)
Definition member_match (values : list pystr) (v : option pystr) : option bool :=
  if bool_decide (values = [lit "any"]) then Some true else (fun x => str_in x values) <$> v.

Definition service_match (p : packet) (svc : service) : result exn (option bool) :=
  if bool_decide (protocol svc = lit "any") then Ok (Some true) else
  sp ← port_match (p_source_port p) (source_ports svc);
  dp ← port_match (p_destination_port p) (destination_ports svc);
  Ok (all_matches [Some (bool_decide (protocol svc = p_protocol p)); sp; dp]).

Definition rule_type_match (m : match_t) (p : packet) : list (option bool) :=
  match m_security m with
  | Some (t, _, _) =>
      if str_in t [lit "intrazone"; lit "interzone"]
      then [Some (Bool.eqb (bool_decide (p_from_zone p = p_to_zone p)) (bool_decide (t = lit "intrazone")))] else []
  | None => []
  end.
Definition device_match (m : match_t) (p : packet) : list (option bool) :=
  match m_security m with
  | Some (_, sd, dd) => [member_match sd (p_source_device p); member_match dd (p_destination_device p)]
  | None => []
  end.

Definition match_packet (mo : option match_t) (p : packet) : result exn (option bool) :=
  match mo with
  | None => Ok None
  | Some m =>
      src ← address_match (p_source p) (m_source m);
      dst ← address_match (p_destination p) (m_destination m);
      svc ← (match m_services m with None => Ok [None] | Some l => mapM_res (service_match p) l end);
      Ok (all_matches
        ([member_match (m_from m) (Some (p_from_zone p)); member_match (m_to m) (Some (p_to_zone p));
          member_match (m_user m) (p_source_user p); member_match (m_application m) (p_application p)]
         ++ device_match m p ++ rule_type_match m p ++ [Some src; Some dst]
         ++ [match m_egress m with
             | Some e => if bool_decide (e = lit "any") then Some true else (fun x => bool_decide (x = e)) <$> p_egress p
             | None => Some true
             end]
         ++ [any_matches svc]))
  end.

(** ** The walk *)

Inductive status := NoMatch | Indeterminate | Matched.
Record verdict := { v_status : status; v_selected : option row; v_trace : list (pystr * option bool) }.

Fixpoint walk (p : packet) (l : list row) : result exn verdict :=
  match l with
  | [] => Ok {| v_status := NoMatch; v_selected := None; v_trace := [] |}
  | r :: t =>
      matched ← match_packet (row_match r) p;
      match matched with
      | None => Ok {| v_status := Indeterminate; v_selected := None; v_trace := [(row_name r, None)] |}
      | Some true => Ok {| v_status := Matched; v_selected := Some r; v_trace := [(row_name r, Some true)] |}
      | Some false =>
          v ← walk p t;
          Ok {| v_status := v_status v; v_selected := v_selected v; v_trace := (row_name r, Some false) :: v_trace v |}
      end
  end.

(** The rule every security rulebase ends with. *)
Definition implicit_row (scope : option pystr) (p : packet) : row :=
  let same := bool_decide (p_from_zone p = p_to_zone p) in
  {| row_name := lit (if same then "intrazone-default" else "interzone-default"); row_scope := scope; row_position := None;
     row_match := None; row_action := Some (AImplicit (lit (if same then "allow" else "deny"))); row_error := None |}.

Definition finish (k : kind) (scope : option pystr) (p : packet) (v : verdict) : verdict :=
  match k, v_status v with
  | Security, NoMatch =>
      let r := implicit_row scope p in
      {| v_status := Matched; v_selected := Some r; v_trace := v_trace v ++ [(row_name r, Some true)] |}
  | _, _ => v
  end.

Definition test_policy (root : element) (k : kind) (scope : option pystr) (pkt : json) : result exn verdict :=
  report ← compile_policy root k scope;
  match dget scope (owners root) with
  | None => Err (PolicyError (lit "Virtual system not found") 404)
  | Some owner =>
      p ← validate_packet pkt owner (bool_decide (k = Nat));
      v ← walk p (rows report);
      Ok (finish k scope p v)
  end.

(** ** Supplying missing context *)

(** [b] knows at least what [a] knows. *)
Definition opt_le {A} (a b : option A) : Prop := a = None \/ a = b.

(** [q] is the packet [p] with some of the missing fields supplied. *)
Record completes (p q : packet) : Prop := {
  c_source : p_source p = p_source q;
  c_destination : p_destination p = p_destination q;
  c_from : p_from_zone p = p_from_zone q;
  c_to : p_to_zone p = p_to_zone q;
  c_protocol : p_protocol p = p_protocol q;
  c_sport : opt_le (p_source_port p) (p_source_port q);
  c_dport : opt_le (p_destination_port p) (p_destination_port q);
  c_app : opt_le (p_application p) (p_application q);
  c_user : opt_le (p_source_user p) (p_source_user q);
  c_sdev : opt_le (p_source_device p) (p_source_device q);
  c_ddev : opt_le (p_destination_device p) (p_destination_device q);
  c_egress : opt_le (p_egress p) (p_egress q);
}.

Lemma opt_le_refl {A} (a : option A) : opt_le a a.
Proof. by right. Qed.

Lemma completes_refl p : completes p p.
Proof. constructor; done || apply opt_le_refl. Qed.

Lemma opt_le_fmap {A B} (f : A -> B) a b : opt_le a b -> opt_le (f <$> a) (f <$> b).
Proof. intros [->| ->]; [by left | by right]. Qed.

Section three_valued.
Implicit Types l : list (option bool).

Lemma le_known l l' b : Forall2 opt_le l l' -> Some b ∈ l -> Some b ∈ l'.
Proof.
  induction 1 as [|x y l l' Hxy _ IH]; [by intros ?%not_elem_of_nil|]. rewrite !elem_of_cons.
  intros [<-|H]; [|auto]. destruct Hxy as [?| <-]; [done | auto].
Qed.

Lemma le_complete l l' : Forall2 opt_le l l' -> None ∉ l -> l = l'.
Proof.
  induction 1 as [|x y l l' Hxy _ IH]; [done|]. rewrite not_elem_of_cons. intros [H1 H2].
  f_equal; [|by apply IH]. destruct Hxy as [->|]; done.
Qed.

Lemma all_matches_le l l' : Forall2 opt_le l l' -> opt_le (all_matches l) (all_matches l').
Proof.
  intros H. unfold all_matches. case_bool_decide as E1.
  - right. by rewrite bool_decide_eq_true_2 by (by eapply le_known).
  - case_bool_decide as E2; [by left|]. right. rewrite <- (le_complete _ _ H E2).
    by rewrite !bool_decide_eq_false_2.
Qed.

Lemma any_matches_le l l' : Forall2 opt_le l l' -> opt_le (any_matches l) (any_matches l').
Proof.
  intros H. unfold any_matches. case_bool_decide as E1.
  - right. by rewrite bool_decide_eq_true_2 by (by eapply le_known).
  - case_bool_decide as E2; [by left|]. right. rewrite <- (le_complete _ _ H E2).
    by rewrite !bool_decide_eq_false_2.
Qed.

Lemma all_matches_true l : all_matches l = Some true <-> Forall (fun x => x = Some true) l.
Proof.
  unfold all_matches. rewrite Forall_forall. case_bool_decide as E1; [split; [done|]; intros H; by specialize (H _ E1)|].
  case_bool_decide as E2; [split; [done|]; intros H; by specialize (H _ E2)|].
  split; [|done]. intros _ [[]|] Hx; done.
Qed.

Lemma all_matches_false l : all_matches l = Some false <-> Some false ∈ l.
Proof. unfold all_matches. case_bool_decide as E1; [done|]. case_bool_decide; done. Qed.

End three_valued.

(** [le_list tac]: compare two lists of the same shape entry by entry. *)
Ltac le_list tac := repeat (apply Forall2_cons; split; [tac|]); try solve [constructor].

Lemma member_match_le vs a b : opt_le a b -> opt_le (member_match vs a) (member_match vs b).
Proof. unfold member_match. intros H. case_bool_decide; [apply opt_le_refl | by apply opt_le_fmap]. Qed.

Lemma port_match_le a b ranges x y : opt_le a b ->
  port_match a ranges = Ok x -> port_match b ranges = Ok y -> opt_le x y.
Proof.
  unfold port_match. intros Hab. destruct ranges as [|r rs]; [intros [= <-] [= <-]; apply opt_le_refl|].
  destruct Hab as [->| ->]; [intros [= <-] _; by left|]. intros H1 H2. rewrite H1 in H2. injection H2 as <-. apply opt_le_refl.
Qed.

Lemma service_match_le p q svc x y : completes p q ->
  service_match p svc = Ok x -> service_match q svc = Ok y -> opt_le x y.
Proof.
  intros H. unfold service_match. case_bool_decide; [intros [= <-] [= <-]; apply opt_le_refl|].
  intros H1 H2. inv_res. apply all_matches_le. rewrite (c_protocol _ _ H).
  le_list ltac:(first [apply opt_le_refl | eapply port_match_le; try eassumption; apply H]).
Qed.

Lemma services_match_le p q l xs ys : completes p q ->
  mapM_res (service_match p) l = Ok xs -> mapM_res (service_match q) l = Ok ys -> Forall2 opt_le xs ys.
Proof.
  intros H Hx Hy. apply mapM_res_Forall2 in Hx, Hy. revert ys Hy.
  induction Hx as [|s x l xs Hs _ IH]; intros ys Hy; inversion Hy; subst; [constructor|].
  constructor; [by eapply service_match_le | by apply IH].
Qed.

(** A match that is decided stays decided the same way. *)
Lemma match_packet_le mo p q x y : completes p q ->
  match_packet mo p = Ok x -> match_packet mo q = Ok y -> opt_le x y.
Proof.
  intros Hc. destruct mo as [m|]; cbn [match_packet]; [|intros [= <-] _; by left].
  intros H1 H2. inv_res. rewrite <- (c_source _ _ Hc) in *. rewrite <- (c_destination _ _ Hc) in *.
  match goal with H1 : address_match (p_source p) _ = Ok ?a, H2 : address_match (p_source p) _ = Ok ?b |- _ =>
    assert (a = b) as -> by congruence end.
  match goal with H1 : address_match (p_destination p) _ = Ok ?a, H2 : address_match (p_destination p) _ = Ok ?b |- _ =>
    assert (a = b) as -> by congruence end.
  apply all_matches_le. rewrite <- (c_from _ _ Hc), <- (c_to _ _ Hc).
  cbn [app]. le_list ltac:(first [apply opt_le_refl | apply member_match_le, Hc]).
  apply Forall2_app; [unfold device_match; destruct (m_security m) as [[[t sd] dd]|]; [|by constructor];
    le_list ltac:(apply member_match_le, Hc)|].
  apply Forall2_app; [unfold rule_type_match; rewrite <- (c_from _ _ Hc), <- (c_to _ _ Hc);
    destruct (m_security m) as [[[t sd] dd]|]; [|by constructor]; destruct (str_in _ _); le_list ltac:(apply opt_le_refl)|].
  do 2 (apply Forall2_cons; split; [apply opt_le_refl|]).
  apply Forall2_cons; split; [|apply Forall2_cons; split; [|by constructor]].
  - destruct (m_egress m); [|apply opt_le_refl]. case_bool_decide; [apply opt_le_refl|]. apply opt_le_fmap, Hc.
  - destruct (m_services m) as [l|].
    + by apply any_matches_le; eapply services_match_le.
    + inv_res. apply opt_le_refl.
Qed.

(** ** Compiled matches never raise *)

Definition good_range (part : pystr) : Prop :=
  exists lo hi, py_int (default [] (head (split_on 45 part))) = Some lo /\ py_int (default [] (last (split_on 45 part))) = Some hi.
Definition good_service (s : service) : Prop := Forall good_range (source_ports s) /\ Forall good_range (destination_ports s).

Lemma digit_value_ascii c : between 48 c 57 = true -> digit_value c = Some (c - 48).
Proof. intros H. unfold digit_value, decimal_zeros. cbn [List.find]. change (48 + 9) with 57. by rewrite H. Qed.

Definition digits_fold (acc : option Z) (c : Z) : option Z :=
  match acc, digit_value c with Some n, Some v => Some (10 * n + v) | _, _ => None end.

(** The decimal text of a number: ASCII digits that fold back to it. *)
Lemma nat_text_fuel_spec fuel n : (0 < fuel)%nat -> 0 <= n < 10 ^ Z.of_nat fuel ->
  Forall (fun c => between 48 c 57 = true) (nat_text_fuel fuel n) /\ nat_text_fuel fuel n <> [] /\
  (length (nat_text_fuel fuel n) <= fuel)%nat /\ fold_left digits_fold (nat_text_fuel fuel n) (Some 0) = Some n.
Proof.
  revert n; induction fuel as [|k IH]; intros n Hk Hn; [lia|]. cbn [nat_text_fuel]. destruct (n <? 10) eqn:E.
  - assert (between 48 (48 + n) 57 = true) as Hb by (unfold between; rewrite andb_true_iff, !Z.leb_le; bool_lia).
    split; [by apply Forall_singleton|]. split; [done|]. split; [cbn; lia|]. cbn [fold_left]. unfold digits_fold.
    rewrite digit_value_ascii by done. f_equal. lia.
  - apply Z.ltb_ge in E. pose proof (Z.mod_pos_bound n 10). pose proof (Z.div_mod n 10).
    rewrite Nat2Z.inj_succ, Z.pow_succ_r in Hn by lia.
    destruct (decide (k = O)) as [->|Hk0]; [cbn in Hn; lia|].
    destruct (IH (n / 10)) as (H1 & H2 & H3 & H4); [lia | split; [apply Z.div_pos; lia | apply Z.div_lt_upper_bound; lia]|].
    assert (between 48 (48 + n mod 10) 57 = true) as Hb by (unfold between; rewrite andb_true_iff, !Z.leb_le; lia).
    split; [by apply Forall_app; split; [|apply Forall_singleton]|]. split; [by destruct (nat_text_fuel k (n / 10))|].
    split; [rewrite length_app; cbn; lia|]. rewrite fold_left_app, H4. cbn [fold_left]. unfold digits_fold.
    rewrite digit_value_ascii by done. f_equal. lia.
Qed.

Lemma digits_nospace s : Forall (fun c => between 48 c 57 = true) s -> lstrip s = s.
Proof.
  intros H. destruct H as [|c t Hc _]; [done|]. cbn [lstrip]. apply between_inv in Hc.
  assert (is_space c = false) as ->; [|done]. unfold is_space, between.
  repeat (apply orb_false_iff; split); try (apply andb_false_iff); rewrite ?Z.eqb_neq, ?Z.leb_gt; lia.
Qed.

Lemma digits_strip s : Forall (fun c => between 48 c 57 = true) s -> strip s = s.
Proof.
  intros H. unfold strip. rewrite (digits_nospace s H). rewrite digits_nospace; [apply rev_involutive|].
  apply Forall_rev. done.
Qed.

Lemma digits_avoid x s : between 48 x 57 = false -> Forall (fun c => between 48 c 57 = true) s -> Forall (fun c => c <> x) s.
Proof. intros Hx H. eapply List.Forall_impl; [|exact H]. intros c Hc ->. congruence. Qed.

(** [int] reads a text of ASCII digits. *)
Lemma py_int_digits (s : pystr) n : Forall (fun c => between 48 c 57 = true) s -> s <> [] -> (length s <= 4300)%nat ->
  fold_left digits_fold s (Some 0) = Some n -> py_int s = Some n.
Proof.
  intros Hs Hne Hl Hn. unfold py_int. cbv zeta. rewrite (digits_strip s Hs).
  pose proof (digits_avoid 45 s eq_refl Hs) as H45. pose proof (digits_avoid 43 s eq_refl Hs) as H43.
  assert (match s with 45 :: r | 43 :: r => r | _ => s end = s) as ->.
  { destruct s as [|c t]; [done|]. apply Forall_cons in H45 as [H45 _], H43 as [H43 _].
    destruct c as [|c|c]; try done. do 6 (destruct c as [c|c|]; try done). }
  rewrite split_on_word by (by apply digits_avoid).
  assert (digit_group s = true) as Hg.
  { unfold digit_group. apply andb_true_iff. split; [by destruct s|]. apply List.forallb_forall.
    intros c Hc%list_elem_of_In. rewrite Forall_forall in Hs. by rewrite digit_value_ascii by (by apply Hs). }
  cbn [forallb]. rewrite Hg. cbn [andb].
  cbn [concat]. rewrite app_nil_r. unfold int_of_digits. apply Nat.ltb_ge in Hl. rewrite Hl. fold digits_fold. rewrite Hn. cbn.
  rewrite bool_decide_eq_false_2; [done|]. destruct s as [|c t]; [done|]. intros [= ->]. by apply Forall_cons in H45 as [? _].
Qed.

Lemma port_text n : 1 <= n <= 65535 -> py_int (nat_text n) = Some n /\ Forall (fun c => c <> 45) (nat_text n).
Proof.
  intros Hn. unfold nat_text. assert (0 <= Z.log2 n <= 15) as Hlog.
  { split; [apply Z.log2_nonneg|]. change 15 with (Z.log2 65535). apply Z.log2_le_mono. lia. }
  destruct (nat_text_fuel_spec (S (Z.to_nat (Z.log2 n))) n) as (H1 & H2 & H3 & H4); [lia | |].
  - split; [lia|]. rewrite Nat2Z.inj_succ, Z2Nat.id by lia. destruct (Z.log2_spec n) as [_ Hlt]; [lia|].
    eapply Z.lt_le_trans; [exact Hlt|]. apply Z.pow_le_mono_l. lia.
  - split; [|by apply digits_avoid]. apply py_int_digits; try done. lia.
Qed.

Lemma port_end_bound t x n : port_end t x = Ok n -> 1 <= n <= 65535.
Proof.
  unfold port_end. destruct (negb _); [done|]. destruct (int_of_digits x); [|done].
  destruct (between 1 z 65535) eqn:E; [|done]. intros [= <-]. by apply between_inv in E.
Qed.

Lemma ports_good t l : ports t = Ok l -> Forall good_range l.
Proof.
  unfold ports. intros H. apply mapM_res_Forall2 in H. induction H as [|x y l l' Hx _ IH]; constructor; [|exact IH].
  unfold port_range in Hx. destruct (split_on 45 x) as [|a [|b [|? ?]]]; try done; inv_res.
  - apply port_end_bound, port_text in Hv as [H1 H2]. exists v, v. by rewrite split_on_word.
  - split_if Hx; [done|]. apply ok_inj in Hx as <-. apply port_end_bound, port_text in Hv as [H1 H2].
    apply port_end_bound, port_text in Hv0 as [H3 H4]. exists v, v0. cbn [app]. rewrite split_on_sep, split_on_word by done. done.
Qed.

(** What holds of every port list [ports] returns holds of every expanded service. *)
Section service_ports.
Context (P : pystr -> Prop) (HP : forall t l, ports t = Ok l -> Forall P l).
Definition ports_all (s : service) : Prop := Forall P (source_ports s) /\ Forall P (destination_ports s).

Lemma source_ports_all c l : source_ports_of c = Ok l -> Forall P l.
Proof.
  unfold source_ports_of. destruct (findtext _ c) as [[|x t]|]; [intros [= <-]; constructor | apply HP | intros [= <-]; constructor].
Qed.

Lemma services_rec_all r fuel values stack l : services_rec r fuel values stack = Ok l -> Forall ports_all l.
Proof.
  revert values stack l; induction fuel as [|k IH]; intros values stack l; cbn [services_rec]; [done|].
  assert (forall out, Forall ports_all out -> foldM_res (service_step r (services_rec r k) stack) out values = Ok l ->
          Forall ports_all l) as H; [|intros; by eapply H].
  induction values as [|v vs IHv]; intros out Ho; cbn [foldM_res]; [by intros [= <-]|]. intros H. inv_res.
  eapply IHv; [|exact H]. unfold service_step in Hv. split_if Hv; [done|]. split_if Hv.
  - apply ok_inj in Hv as <-. apply Forall_app. split; [done|]. apply Forall_singleton. split; constructor.
  - inv_res. split_if Hv; [done|]. apply ok_inj in Hv as <-. apply Forall_app. split; [done|]. unfold service_value in Hv0.
    destruct (resolver_find r (lit "service") v) as [e|].
    + destruct (protocol_children e) as [|c [|? ?]]; try done. split_if Hv0; [|done]. inv_res. apply Forall_singleton.
      split; cbn [source_ports destination_ports]; [by eapply source_ports_all | by eapply HP].
    + destruct (resolver_find r (lit "service-group") v); [|done]. split_if Hv0; [done|]. by eapply IH.
Qed.
End service_ports.

Lemma services_rec_good r fuel values stack l : services_rec r fuel values stack = Ok l -> Forall good_service l.
Proof. apply (services_rec_all good_range ports_good). Qed.

Lemma port_any_total v ranges : Forall good_range ranges -> exists b, port_any v ranges = Ok b.
Proof.
  induction 1 as [|x l (lo & hi & H1 & H2) _ IH]; cbn [port_any]; [eauto|]. rewrite H1, H2. destruct (between lo v hi); eauto.
Qed.

Lemma port_match_total v ranges : Forall good_range ranges -> exists x, port_match v ranges = Ok x.
Proof.
  intros H. unfold port_match. destruct ranges as [|r rs]; [eauto|]. destruct v as [v|]; [|eauto].
  destruct (port_any_total v _ H) as (b & ->). cbn. eauto.
Qed.

Lemma service_match_total p s : good_service s -> exists x, service_match p s = Ok x.
Proof.
  intros [H1 H2]. unfold service_match. case_bool_decide; [eauto|].
  destruct (port_match_total (p_source_port p) _ H1) as (a & ->). destruct (port_match_total (p_destination_port p) _ H2) as (b & ->).
  cbn. eauto.
Qed.

Lemma services_match_total p l : Forall good_service l -> exists xs, mapM_res (service_match p) l = Ok xs.
Proof.
  induction 1 as [|s l Hs _ (xs & IH)]; cbn [mapM_res]; [eauto|]. destruct (service_match_total p s Hs) as (x & ->). rewrite IH. cbn. eauto.
Qed.

(** A match that is ready for every IPv4 packet. *)
Definition match_ready (m : match_t) : Prop :=
  Forall matches_v4 (m_source m) /\ Forall matches_v4 (m_destination m) /\ forall l, m_services m = Some l -> Forall good_service l.
Definition ready (mo : option match_t) : Prop := forall m, mo = Some m -> match_ready m.
(** The services of a match can be tested; this holds for every kind of rule and every family. *)
Definition services_ready (m : match_t) : Prop := forall l, m_services m = Some l -> Forall good_service l.
Definition is_v4 (p : packet) : Prop := (exists a, p_source p = IPv4 a) /\ (exists a, p_destination p = IPv4 a).

Lemma match_packet_total mo p : ready mo -> is_v4 p -> exists x, match_packet mo p = Ok x.
Proof.
  intros Hr [(a & Ha) (b & Hb)]. destruct mo as [m|]; cbn [match_packet]; [|eauto].
  destruct (Hr m eq_refl) as (H1 & H2 & H3). rewrite Ha, Hb.
  destruct (address_match_some a _ H1) as (x & -> & _). destruct (address_match_some b _ H2) as (y & -> & _). cbn [mbind result_bind].
  destruct (m_services m) as [l|]; [|cbn; eauto]. destruct (services_match_total p l (H3 l eq_refl)) as (xs & ->). cbn. eauto.
Qed.

(** A match that could be tested for one packet can be tested for every packet with the same addresses. *)
Lemma match_packet_again m p q x : services_ready m -> p_source q = p_source p -> p_destination q = p_destination p ->
  match_packet (Some m) p = Ok x -> exists y, match_packet (Some m) q = Ok y.
Proof.
  intros Hs H1 H2 H. cbn [match_packet] in *. rewrite H1, H2. inv_res. rewrite Hv, Hv0. cbn [mbind result_bind].
  destruct (m_services m) as [l|] eqn:El; [|cbn; eauto]. destruct (services_match_total q l (Hs l El)) as (xs & ->). cbn. eauto.
Qed.

Lemma addresses_v4 r vs l : r_family r = 4 -> addresses r vs = Ok l -> Forall matches_v4 l.
Proof. intros Hf H. by apply (addresses_rec_exact r Hf) in H as [? _]. Qed.

Lemma base_match_ready r k s sec eg m : r_family r = 4 -> base_match r k s sec eg = Ok m -> match_ready m.
Proof.
  intros Hf. unfold base_match. intros H. inv_res. unfold match_ready. cbn [m_source m_destination m_services].
  split; [by eapply addresses_v4|]. split; [by eapply addresses_v4|]. intros l ->.
  destruct (_ && _); [done|]. destruct (services r (slist "service" s)) eqn:Es; cbn in Hv; [|done].
  injection Hv as <-. by eapply services_rec_good.
Qed.

Lemma compile_entry_ready root owner k d i m a : k <> Nat -> compile_entry root owner k d i = Ok (m, a) -> match_ready m.
Proof.
  intros Hk. unfold compile_entry. rewrite (bool_decide_eq_false_2 (k = Nat)) by done. cbn [andb].
  destruct (negb _); [done|]. intros H. inv_res. apply base_match_ready in Hv0; [|done].
  unfold compile_action in H. destruct k; try done; inv_res; try done. destruct (py_int _); [|done]. by inv_res.
Qed.

Lemma base_match_services r k s sec eg m : base_match r k s sec eg = Ok m -> services_ready m.
Proof.
  unfold base_match. intros H. inv_res. unfold services_ready. cbn [m_services]. intros l ->.
  destruct (_ && _); [done|]. destruct (services r (slist "service" s)) eqn:Es; cbn in Hv; [|done].
  injection Hv as <-. by eapply services_rec_good.
Qed.

Lemma compile_entry_services root owner k d i m a : compile_entry root owner k d i = Ok (m, a) -> services_ready m.
Proof.
  unfold compile_entry. destruct (negb _); [done|]. intros H. inv_res. apply base_match_services in Hv0.
  unfold compile_action in H. destruct k; try done; inv_res; try done.
  - by destruct (n_translation v1).
  - destruct (py_int _); [|done]. by inv_res.
Qed.

(** What holds of every compiled match holds of the rows of a plan. *)
Lemma compile_policy_rows (P : match_t -> Prop) root k scope pl :
  (forall owner d i m a, compile_entry root owner k d i = Ok (m, a) -> P m) -> compile_policy root k scope = Ok pl ->
  Forall (fun r => forall m, row_match r = Some m -> P m) (rows pl).
Proof.
  intros HP. unfold compile_policy. destruct (negb _); [done|]. destruct (dget _ _) as [owner|]; [|done].
  destruct (1024 <? _)%nat; [done|]. intros H. apply ok_inj in H as <-.
  generalize (enumerate (findall (xpath "rulebase" ++ [Child (kind_name k)] ++ xpath "rules/entry") owner)).
  intros l. set (c := {| c_plan := {| rows := []; blockers := []; disabled_rules := 0 |}; c_names := [] |}).
  assert (Forall (fun r => forall m, row_match r = Some m -> P m) (rows (c_plan c))) as Hc by constructor. clearbody c. revert c Hc.
  induction l as [|[i e] l IH]; intros c Hc; cbn [fold_left]; [done|]. apply IH. unfold compile_row. case_bool_decide; [done|].
  assert (forall r, (forall m, row_match r = Some m -> P m) ->
          Forall (fun r => forall m, row_match r = Some m -> P m) (rows (c_plan c) ++ [r])) as Hs.
  { intros r Hr. apply Forall_app. by split; [|apply Forall_singleton]. }
  destruct (str_in _ _); cbn [c_plan rows]; [by apply Hs|].
  destruct (compile_entry root owner k (describe k e) i) as [[m a]|x] eqn:E; cbn [rows]; apply Hs; cbn [row_match]; [|done].
  intros m' [= <-]. by eapply HP.
Qed.

Lemma compile_policy_ready root k scope pl : k <> Nat -> compile_policy root k scope = Ok pl ->
  Forall (fun r => ready (row_match r)) (rows pl).
Proof. intros Hk. apply (compile_policy_rows match_ready). intros owner d i m a. by apply compile_entry_ready. Qed.

(** ** The walk *)

(** For packet [q] the first rule that is not passed over is rule [i], and it matches. *)
Definition passed (q : packet) (l : list row) : Prop := Forall (fun r => match_packet (row_match r) q = Ok (Some false)) l.
Definition first_match (q : packet) (l : list row) (i : nat) : Prop :=
  passed q (take i l) /\ exists r, l !! i = Some r /\ match_packet (row_match r) q = Ok (Some true).

(** What a verdict says about every packet that agrees with the context given. *)
Definition decides (p : packet) (l : list row) (v : verdict) : Prop :=
  match v_status v with
  | Matched => exists i r, v_selected v = Some r /\ l !! i = Some r /\ forall q, completes p q -> first_match q l i
  | NoMatch => v_selected v = None /\ forall q, completes p q -> passed q l
  | Indeterminate => v_selected v = None /\ exists i r, l !! i = Some r /\ match_packet (row_match r) p = Ok None
      /\ forall q, completes p q -> passed q (take i l)
  end.

(** A decided match is decided alike for every completion. *)
Lemma decided_stable mo p q b : (forall m, mo = Some m -> services_ready m) -> completes p q ->
  match_packet mo p = Ok (Some b) -> match_packet mo q = Ok (Some b).
Proof.
  intros Hr Hc H. destruct mo as [m|]; [|done].
  destruct (match_packet_again m p q _ (Hr m eq_refl) (eq_sym (c_source _ _ Hc)) (eq_sym (c_destination _ _ Hc)) H) as (y & Hy).
  destruct (match_packet_le _ _ _ _ _ Hc H Hy) as [?|Hle]; [done|]. by rewrite Hy, <- Hle.
Qed.

Lemma walk_decides p l : Forall (fun r => forall m, row_match r = Some m -> services_ready m) l ->
  forall v, walk p l = Ok v -> decides p l v.
Proof.
  induction 1 as [|r l Hr _ IH]; intros v; cbn [walk].
  - intros [= <-]. split; [done|]. constructor.
  - intros H. apply bind_ok_inv in H as (x & Hm & H). destruct x as [[]|].
    + injection H as <-. exists 0%nat, r. split; [done|]. split; [done|]. intros q Hq. split; [constructor|].
      exists r. split; [done|]. by eapply decided_stable.
    + apply bind_ok_inv in H as (v0 & Hw & H). injection H as <-. specialize (IH v0 Hw).
      assert (forall q, completes p q -> match_packet (row_match r) q = Ok (Some false)) as Hf by (intros; by eapply decided_stable).
      unfold decides in *. cbn [v_status v_selected]. destruct (v_status v0).
      * destruct IH as [H1 H2]. split; [done|]. intros q Hq. constructor; [by apply Hf | by apply H2].
      * destruct IH as (H1 & i & r' & H2 & H3 & H4). split; [done|]. exists (S i), r'. split; [done|]. split; [done|].
        intros q Hq. constructor; [by apply Hf | by apply H4].
      * destruct IH as (i & r' & H1 & H2 & H3). exists (S i), r'. split; [done|]. split; [done|]. intros q Hq.
        destruct (H3 q Hq) as [H4 H5]. split; [|done]. constructor; [by apply Hf | done].
    + injection H as <-. split; [done|]. exists 0%nat, r. split; [done|]. split; [done|]. intros q Hq. constructor.
Qed.

Lemma walk_total p l : is_v4 p -> Forall (fun r => ready (row_match r)) l -> exists v, walk p l = Ok v.
Proof.
  intros Hp. induction 1 as [|r l Hr _ (v & Hw)]; cbn [walk]; [eauto|].
  destruct (match_packet_total _ p Hr Hp) as ([[]|] & Hm); rewrite Hm; cbn [mbind result_bind]; [eauto | | eauto]. rewrite Hw. cbn. eauto.
Qed.

Lemma packet_ip_v4 v a : packet_ip false v = Some a -> exists n, a = IPv4 n.
Proof.
  destruct v; cbn [packet_ip]; try done.
  - destruct b; intros [= <-]; eauto.
  - destruct (between 0 n (2 ^ 32 - 1)); [intros [= <-]; eauto | done].
  - destruct (ip4_parse s); cbn; [intros [= <-]; eauto | done].
Qed.

Lemma validate_packet_v4 v owner p : validate_packet v owner false = Ok p -> is_v4 p.
Proof.
  destruct v; try done. cbn [validate_packet]. intros H. inv_res. unfold packet_address in *.
  repeat match goal with H : match packet_ip false ?j with Some _ => _ | None => _ end = Ok _ |- _ =>
    let E := fresh in destruct (packet_ip false j) eqn:E; [|done]; apply packet_ip_v4 in E as [? ->]; apply ok_inj in H as <- end.
  split; cbn; eauto.
Qed.

(** What the diagnostic reports: the walk, and for a security rulebase the implicit rule behind it. *)
Definition reports (k : kind) (scope : option pystr) (p : packet) (l : list row) (v : verdict) : Prop :=
  decides p l v \/
  (k = Security /\ v_status v = Matched /\ v_selected v = Some (implicit_row scope p) /\ forall q, completes p q -> passed q l).


(** *** A rulebase *)

Definition demo_rule (name : string) (fields : list element) : element := entry name fields.
Definition member_list (t : string) (l : list string) : element := el t (map (leaf "member") l).
Definition plan_owner : element :=
  Element (tag demo_owner) (attrib demo_owner) None
    (children demo_owner ++
     [ el "rulebase" [ el "security" [ el "rules"
         [ demo_rule "web" [ member_list "from" ["trust"]; member_list "source" ["any"]; member_list "to" ["untrust"];
                             member_list "destination" ["all"]; member_list "source-user" ["any"]; member_list "application" ["any"];
                             member_list "service" ["https"]; leaf "action" "allow"; leaf "log-end" "no" ];
           demo_rule "rest" [ member_list "from" ["any"]; member_list "source" ["any"]; member_list "to" ["any"];
                              member_list "destination" ["any"]; member_list "source-user" ["any"]; member_list "application" ["any"];
                              member_list "service" ["any"]; leaf "action" "drop"; leaf "log-end" "no" ] ] ] ] ]).
Definition plan_root : element :=
  el "config" [ el "shared" [ el "address" [ entry "dns" [leaf "ip-netmask" "192.0.2.53"] ] ];
                el "devices" [ entry "localhost.localdomain" [ el "vsys" [plan_owner] ] ] ].
Definition query : json :=
  JObj [ (lit "source", JStr (lit "10.0.0.5")); (lit "destination", JStr (lit "10.9.0.7")); (lit "from_zone", JStr (lit "trust"));
         (lit "to_zone", JStr (lit "untrust")); (lit "protocol", JStr (lit "tcp")); (lit "destination_port", JInt 8444) ].
Definition query_packet : packet :=
  {| p_source := IPv4 167772165; p_destination := IPv4 168361991; p_from_zone := lit "trust"; p_to_zone := lit "untrust";
     p_protocol := lit "tcp"; p_source_port := None; p_destination_port := Some 8444; p_application := None; p_source_user := None;
     p_source_device := None; p_destination_device := None; p_egress := None |}.
Definition demo_plan : plan :=
  match compile_policy plan_root Security (Some (lit "vsys1")) with
  | Ok pl => pl
  | Err _ => {| rows := []; blockers := []; disabled_rules := 0 |}
  end.

Lemma demo_plan_compiled : compile_policy plan_root Security (Some (lit "vsys1")) = Ok demo_plan /\ plan_ok demo_plan = true.
Proof. vm_compute. split; reflexivity. Qed.

