(* ===== verification/SecurityNft.v ===== *)
(** * Security rules as an nftables table (ffn_security_nft.py)

    [render] lowers the compiled security plans of all virtual systems to one
    forwarding chain: each rule becomes one line per zone pair, direction and service,
    matching the interfaces by number and the addresses and ports of the original
    direction of the connection; a chain [r<i>] per rule grants or drops.  The lines
    are kept as data next to the text they print as.  How nftables reads an address or
    port element is the interface [NftElements]; the verdict of the chain for a packet
    is [forward].  The refinement theorem relates it to the first match of the plan. *)

From S2P Require Import Prelude PyStr PyDict PyIp PyXml PyIp6 PolicyObjects Ipv6Settings PolicyConfig NatPolicy PolicyPlan.

(** ** Zones *)

Abbreviation zone_id := (option pystr * option pystr)%type (only parsing).

Record zstate := { z_zones : list (zone_id * list Z); z_seen : list Z; z_names : list zone_id }.

Definition ifindex_ok (i : Z) : bool := between 1 i 2147483647.

Definition bind_interface (bindings : list (pystr * Z)) (acc : list Z * list Z) (i : pystr) : result exn (list Z * list Z) :=
  let '(seen, indices) := acc in
  match dget i bindings with
  | Some n =>
      if negb (ifindex_ok n) then Err (NatError (lit "Uncommissioned Security interface: " ++ i))
      else if bool_decide (n ∈ seen) then Err (NatError (lit "An interface belongs to multiple zones or virtual systems"))
      else Ok (seen ++ [n], indices ++ [n])
  | None => Err (NatError (lit "Uncommissioned Security interface: " ++ i))
  end.

(** One zone of a virtual system; a zone without interfaces has no packets. *)
Definition add_zone (r : resolver) (bindings : list (pystr * Z)) (scope : option pystr) (st : zstate) (zone : element) : result exn zstate :=
  let name := eget (lit "name") zone in
  if bool_decide ((scope, name) ∈ z_names st) then Err (NatError (lit "Duplicate zone identity")) else
  let names := z_names st ++ [(scope, name)] in
  if (length (findall (xpath "network/layer3/member") zone) =? 0)%nat then
    Ok {| z_zones := z_zones st; z_seen := z_seen st; z_names := names |}
  else
    ifs ← interfaces r [name];
    si ← foldM_res (bind_interface bindings) (z_seen st, []) ifs;
    Ok {| z_zones := z_zones st ++ [((scope, name), py_sorted Z.leb si.2)]; z_seen := si.1; z_names := names |}.

(** ** Rules *)

Record sec_rule := { sr_scope : option pystr; sr_name : pystr; sr_match : match_t; sr_allow : bool; sr_pairs : list (list Z * list Z) }.

Definition in_list (z : option pystr) (l : list pystr) : bool :=
  bool_decide (l = [lit "any"]) || match z with Some n => str_in n l | None => false end.
(** The rule applies between a source and a destination zone of its virtual system. *)
Definition pair_applies (m : match_t) (source destination : option pystr) : bool :=
  in_list source (m_from m) && in_list destination (m_to m)
  && match m_security m with
     | Some (t, _, _) =>
         negb (bool_decide (t = lit "intrazone") && negb (bool_decide (source = destination)))
         && negb (bool_decide (t = lit "interzone") && bool_decide (source = destination))
     | None => true
     end.
Definition zone_pairs (zones : list (zone_id * list Z)) (scope : option pystr) (m : match_t) : list (list Z * list Z) :=
  concat (map (fun src => if bool_decide (src.1.1 = scope) then
      concat (map (fun dst => if bool_decide (dst.1.1 = scope) && pair_applies m src.1.2 dst.1.2 then [(src.2, dst.2)] else []) zones)
    else []) zones).

Definition nat_err {A} (name : pystr) (m : string) : result exn A := Err (NatError (name ++ lit m)).
Definition any_only (l : list pystr) : bool := bool_decide (l = [lit "any"]).

(** What the table can enforce; everything else needs a provider that is not commissioned. *)
Definition lower_rule (tokens : bool) (zones : list (zone_id * list Z)) (scope : option pystr) (rw : row) : result exn sec_rule :=
  match row_match rw, row_action rw with
  | Some m, Some (ASecurity type icmp pmode _ _ log_start log_end forwarding) =>
      let name := row_name rw in
      let '(sd, dd) := match m_security m with Some (_, sd, dd) => (sd, dd) | None => ([], []) end in
      if negb (any_only (m_application m)) then nat_err name ": application requires an identity/inspection provider"
      else if negb (any_only (m_user m)) then nat_err name ": source-user requires an identity/inspection provider"
      else if negb (any_only sd) then nat_err name ": source-device requires an identity/inspection provider"
      else if negb (any_only dd) then nat_err name ": destination-device requires an identity/inspection provider"
      else match m_services m with
      | None => nat_err name ": application-default requires App-ID service resolution"
      | Some _ =>
          if negb (bool_decide (pmode = lit "none")) then nat_err name ": requested inspection profiles require a commissioned engine"
          else if negb (str_in type [lit "allow"; lit "drop"]) || icmp then nat_err name ": reject/reset action requires a commissioned response provider"
          else if forwarding then nat_err name ": log forwarding requires a commissioned forwarding provider"
          else if (log_start || log_end) && (negb tokens || negb (bool_decide (type = lit "allow")))
          then nat_err name ": session logging requires a commissioned conntrack event collector"
          else
            let pairs := zone_pairs zones scope m in
            if (length pairs =? 0)%nat then nat_err name ": no applicable routed zone pair"
            else Ok {| sr_scope := scope; sr_name := name; sr_match := m; sr_allow := bool_decide (type = lit "allow"); sr_pairs := pairs |}
      end
  | _, _ => Err ValueError
  end.

Record sec_state := { s_zones : zstate; s_rules : list sec_rule }.
Definition join_reasons (l : list (pystr * exn)) : pystr :=
  join (lit "; ") (map (fun b => match b.2 with NatError m | PolicyError m _ => m | _ => [] end) l).
Definition add_scope (root : element) (bindings : list (pystr * Z)) (tokens : bool) (st : sec_state) (so : option pystr * element)
    : result exn sec_state :=
  let '(scope, owner) := so in
  let r := {| r_root := root; r_owner := owner; r_family := 4 |} in
  zs ← foldM_res (add_zone r bindings scope) (s_zones st) (findall (xpath "zone/entry") owner);
  pl ← compile_policy root Security scope;
  if negb (plan_ok pl) then Err (NatError (join_reasons (blockers pl))) else
  rules ← mapM_res (lower_rule tokens (z_zones zs) scope) (rows pl);
  Ok {| s_zones := zs; s_rules := s_rules st ++ rules |}.
Definition empty_state : sec_state := {| s_zones := {| z_zones := []; z_seen := []; z_names := [] |}; s_rules := [] |}.
(** The zones and rules of the whole document. *)
Definition gather (root : element) (bindings : list (pystr * Z)) (tokens : bool) : result exn sec_state :=
  foldM_res (add_scope root bindings tokens) empty_state (owners root).

(** ** The forwarding chain *)

Inductive direction := Original | Reply.
#[global] Instance direction_eq_dec : EqDecision direction.
Proof. solve_decision. Defined.

Record condition := {
  c_dir : direction; c_iif : list Z; c_oif : list Z; c_saddr : list pystr; c_daddr : list pystr; c_service : service;
}.
Inductive line :=
| DropOther                                  (* meta nfproto != ipv4 drop *)
| DropInvalid                                (* ct state invalid drop *)
| DropStray                                  (* ct direction reply ct state != established drop *)
| DropUngranted                              (* ct direction reply ct label & 0 != 0 drop *)
| HostOut (index : Z) (address : pystr)
| HostBack (index : Z) (address : pystr)
| GotoRule (c : condition) (i : nat)
| ImplicitAllow (indices : list Z)
| DropAll.

Definition service_lines (i : nat) (m : match_t) (dir : direction) (src dst : list Z) : list line :=
  map (fun svc => GotoRule {| c_dir := dir; c_iif := src; c_oif := dst; c_saddr := m_source m; c_daddr := m_destination m; c_service := svc |} i)
      (default [] (m_services m)).
Definition pair_lines (i : nat) (m : match_t) (pr : list Z * list Z) : list line :=
  service_lines i m Original pr.1 pr.2 ++ service_lines i m Reply pr.2 pr.1.
Definition rule_lines (ir : nat * sec_rule) : list line :=
  concat (map (pair_lines ir.1 (sr_match ir.2)) (sr_pairs ir.2)).
Definition numbered {A} (l : list A) : list (nat * A) := zip (seq 0 (length l)) l.

Definition forward_lines (st : sec_state) (hosts : list (Z * pystr)) : list line :=
  [DropOther; DropInvalid; DropStray; DropUngranted]
  ++ concat (map (fun h => [HostOut h.1 h.2; HostBack h.1 h.2]) hosts)
  ++ concat (map rule_lines (numbered (s_rules st)))
  ++ map (fun z => ImplicitAllow z.2) (z_zones (s_zones st)) ++ [DropAll].

(** *** Its text *)

Definition elements (l : list pystr) : pystr := lit "{ " ++ join (lit ", ") l ++ lit " }".
Definition numbers (l : list Z) : pystr := elements (map nat_text l).
Definition condition_text (c : condition) : pystr :=
  lit "ct direction " ++ lit (match c_dir c with Original => "original" | Reply => "reply" end)
  ++ lit " iif " ++ numbers (c_iif c) ++ lit " oif " ++ numbers (c_oif c)
  ++ lit " ct original ip saddr " ++ elements (c_saddr c) ++ lit " ct original ip daddr " ++ elements (c_daddr c)
  ++ (if bool_decide (protocol (c_service c) = lit "any") then []
      else lit " meta l4proto " ++ protocol (c_service c)
           ++ (if (length (source_ports (c_service c)) =? 0)%nat then [] else lit " ct original proto-src " ++ elements (source_ports (c_service c)))
           ++ (if (length (destination_ports (c_service c)) =? 0)%nat then [] else lit " ct original proto-dst " ++ elements (destination_ports (c_service c)))).
Definition line_text (l : line) : pystr :=
  match l with
  | DropOther => lit "  meta nfproto != ipv4 drop"
  | DropInvalid => lit "  ct state invalid drop"
  | DropStray => lit "  ct direction reply ct state != established drop"
  | DropUngranted => lit "  ct direction reply ct label & 0 != 0 drop"
  | HostOut i a => lit "  ct direction original iif " ++ nat_text i ++ lit " ip saddr " ++ a ++ lit " goto grant"
  | HostBack i a => lit "  ct direction reply oif " ++ nat_text i ++ lit " ct original ip saddr " ++ a ++ lit " goto grant"
  | GotoRule c i => lit "  " ++ condition_text c ++ lit " goto r" ++ nat_text (Z.of_nat i)
  | ImplicitAllow ix => lit "  iif " ++ numbers ix ++ lit " oif " ++ numbers ix ++ lit " goto implicit_allow"
  | DropAll => lit "  counter drop"
  end.

(** ** Session labels *)

(** The bits the label of a granted connection has: the grant bit and the token above it. *)
Definition label_bits (token : Z) : list Z :=
  0 :: map (fun i => Z.of_nat i + 1) (List.filter (fun i => Z.testbit token (Z.of_nat i)) (seq 0 30)).
Abbreviation token_table := (list ((option pystr * pystr) * Z)) (only parsing).
Definition label (tokens : option token_table) (identity : option pystr * pystr) : result exn pystr :=
  match tokens with
  | None => Ok []
  | Some t =>
      match dget identity t with
      | Some n =>
          if between 1 n 1073741823 then
            Ok (lit "ct direction original ct label & 0 != 0 ct label set " ++ join (lit " | ") (map nat_text (label_bits n)) ++ lit "; ")
          else Err (NatError (lit "Missing or invalid durable Security session token"))
      | None => Err (NatError (lit "Missing or invalid durable Security session token"))
      end
  end.

(** The chain of a rule; the comment is the JSON text of its identity. *)
Definition rule_chain (dumps : pystr -> pystr) (tokens : option token_table) (ir : nat * sec_rule) : result exn pystr :=
  let r := ir.2 in
  decision ← (if sr_allow r then (l ← label tokens (sr_scope r, sr_name r); Ok (l ++ lit "goto grant")) else Ok (lit "drop"));
  match sr_scope r with
  | Some scope => Ok (lit " chain r" ++ nat_text (Z.of_nat ir.1) ++ lit " { counter comment " ++ dumps (scope ++ lit "/" ++ sr_name r)
                      ++ lit "; " ++ decision ++ lit "; }")
  | None => Err ValueError
  end.

Definition host_ok (h : json * json) : result exn (Z * pystr) :=
  match h with
  | (JInt i, JStr a) => if ifindex_ok i then Ok (i, a) else Err (NatError (lit "Invalid service-route link"))
  | _ => Err (NatError (lit "Invalid service-route link"))
  end.

(** [render]: the script.  [digest] is the hash of the plan, [dumps] is [json.dumps] of a text. *)
Definition render (digest : sec_state -> list (Z * pystr) -> pystr) (dumps : pystr -> pystr) (root : element)
    (bindings : list (pystr * Z)) (tokens : option token_table) (links : list (json * json)) : result exn pystr :=
  st ← gather root bindings (if tokens then true else false);
  hosts ← mapM_res host_ok links;
  chains ← mapM_res (rule_chain dumps tokens) (numbered (s_rules st));
  implicit ← label tokens (Some (lit "implicit"), lit "intrazone-default");
  let lines :=
    [lit "table inet ffn_security {"; lit " comment " ++ [34] ++ lit "ffn-security:" ++ digest st hosts ++ [34];
     lit " chain forward { type filter hook forward priority -260; policy drop;"; lit "  meta mark set meta mark & 0x7fffffff"]
    ++ map line_text (forward_lines st hosts) ++ [lit " }"] ++ chains
    ++ [lit " chain implicit_allow { counter; " ++ implicit ++ lit "goto grant; }";
        lit " chain grant { ct direction original ct label set ct label | 0; meta mark set meta mark | 0x80000000; accept; }"; lit "}"] in
  let script := join [10] lines ++ [10] in
  match utf8_encode script with
  | None => Err ValueError
  | Some b => if 65536 <? blen b then Err (NatError (lit "Expanded Security policy exceeds 64 KiB")) else Ok script
  end.

(** ** How the kernel reads the table *)

(** The elements of address and port sets: a network in prefix form, a range, a port, a port range. *)
Class NftElements := {
  addr_elem : pystr -> Z -> bool;
  port_elem : pystr -> Z -> bool;
  addr_prefix b p a : is_ip4 b -> 0 <= p <= 32 -> addr_elem (net_text (Net4 (network_address b p) p)) a = in_network b p a;
  addr_range l h a : is_ip4 l -> is_ip4 h -> addr_elem (ip4_text l ++ [45] ++ ip4_text h) a = between l a h;
  port_one n v : 1 <= n <= 65535 -> port_elem (nat_text n) v = between n v n;
  port_span n m v : 1 <= n <= 65535 -> 1 <= m <= 65535 -> port_elem (nat_text n ++ [45] ++ nat_text m) v = between n v m;
}.

(** A packet at the forwarding hook; addresses, protocol and ports are those of the original direction. *)
Record flow := {
  f_ipv4 : bool; f_invalid : bool; f_established : bool; f_granted : bool; f_dir : direction; f_iif : Z; f_oif : Z;
  f_src : Z; f_dst : Z; f_proto : pystr; f_sport : Z; f_dport : Z;
}.

Inductive outcome := Dropped | HostGrant | AtRule (i : nat) | AtImplicit.

Section kernel.
Context {NE : NftElements}.

Definition ports_hold (l : list pystr) (v : Z) : bool := (length l =? 0)%nat || existsb (fun e => port_elem e v) l.
Definition service_holds (s : service) (f : flow) : bool :=
  bool_decide (protocol s = lit "any")
  || (bool_decide (protocol s = f_proto f) && ports_hold (source_ports s) (f_sport f) && ports_hold (destination_ports s) (f_dport f)).
Definition addrs_hold (l : list pystr) (a : Z) : bool := existsb (fun e => addr_elem e a) l.
Definition condition_holds (c : condition) (f : flow) : bool :=
  bool_decide (c_dir c = f_dir f) && bool_decide (f_iif f ∈ c_iif c) && bool_decide (f_oif f ∈ c_oif c)
  && addrs_hold (c_saddr c) (f_src f) && addrs_hold (c_daddr c) (f_dst f) && service_holds (c_service c) f.

Definition is_reply (f : flow) : bool := bool_decide (f_dir f = Reply).
(** What a line decides about a packet, if anything. *)
Definition line_outcome (l : line) (f : flow) : option outcome :=
  let when (b : bool) o := if b then Some o else None in
  match l with
  | DropOther => when (negb (f_ipv4 f)) Dropped
  | DropInvalid => when (f_invalid f) Dropped
  | DropStray => when (is_reply f && negb (f_established f)) Dropped
  | DropUngranted => when (is_reply f && negb (f_granted f)) Dropped
  | HostOut i a => when (negb (is_reply f) && (f_iif f =? i) && addr_elem a (f_src f)) HostGrant
  | HostBack i a => when (is_reply f && (f_oif f =? i) && addr_elem a (f_src f)) HostGrant
  | GotoRule c i => when (condition_holds c f) (AtRule i)
  | ImplicitAllow ix => when (bool_decide (f_iif f ∈ ix) && bool_decide (f_oif f ∈ ix)) AtImplicit
  | DropAll => Some Dropped
  end.

(** The chain: the first line that decides; the policy is drop. *)
Fixpoint forward (l : list line) (f : flow) : outcome :=
  match l with
  | [] => Dropped
  | x :: t => match line_outcome x f with Some o => o | None => forward t f end
  end.

(** A packet is accepted when it ends in the grant chain. *)
Definition accepted (st : sec_state) (o : outcome) : bool :=
  match o with
  | Dropped => false
  | HostGrant | AtImplicit => true
  | AtRule i => match s_rules st !! i with Some r => sr_allow r | None => false end
  end.

(** *** Canonical elements *)

Definition canonical_addr (u : pystr) : Prop :=
  (exists b p, is_ip4 b /\ 0 <= p <= 32 /\ u = net_text (Net4 (network_address b p) p))
  \/ (exists l h, is_ip4 l /\ is_ip4 h /\ u = ip4_text l ++ [45] ++ ip4_text h).
Definition canonical_port (u : pystr) : Prop :=
  (exists n, 1 <= n <= 65535 /\ u = nat_text n)
  \/ (exists n m, 1 <= n <= 65535 /\ 1 <= m <= 65535 /\ u = nat_text n ++ [45] ++ nat_text m).

Lemma addr_elem_match u a : canonical_addr u -> item_match (IPv4 a) u = Ok (addr_elem u a).
Proof.
  intros [(b & p & Hb & Hp & ->)|(l & h & Hl & Hh & ->)].
  - by rewrite addr_prefix, net_item.
  - by rewrite addr_range, range_item.
Qed.

Lemma addrs_hold_match l a : Forall canonical_addr l -> address_match (IPv4 a) l = Ok (addrs_hold l a).
Proof.
  induction 1 as [|u l Hu _ IH]; cbn [address_match]; [done|]. rewrite (addr_elem_match u a Hu).
  unfold addrs_hold in *. cbn [existsb]. by destruct (addr_elem u a).
Qed.

Lemma port_elem_match u v : canonical_port u ->
  exists lo hi, py_int (default [] (head (split_on 45 u))) = Some lo /\ py_int (default [] (last (split_on 45 u))) = Some hi
    /\ between lo v hi = port_elem u v.
Proof.
  intros [(n & Hn & ->)|(n & m & Hn & Hm & ->)]; destruct (port_text n Hn) as [H1 H2].
  - exists n, n. rewrite split_on_word by done. by rewrite port_one.
  - destruct (port_text m Hm) as [H3 H4]. exists n, m. rewrite port_span by done. cbn [app].
    rewrite split_on_sep, split_on_word by done. done.
Qed.

Lemma ports_hold_match l v : Forall canonical_port l -> port_match (Some v) l = Ok (Some (ports_hold l v)).
Proof.
  intros H. unfold port_match, ports_hold. destruct l as [|u l]; [done|]. cbn [length Nat.eqb orb].
  assert (port_any v (u :: l) = Ok (existsb (fun e => port_elem e v) (u :: l))) as ->; [|done].
  induction H as [|x t Hx _ IH]; cbn [port_any existsb]; [done|].
  destruct (port_elem_match x v Hx) as (lo & hi & -> & -> & ->). destruct (port_elem x v); [done|]. exact IH.
Qed.

End kernel.

(** The element readers as functions. *)
#[export] Instance elements_read : NftElements.
Proof.
  refine {| addr_elem u a := match item_match (IPv4 a) u with Ok b => b | Err _ => false end;
            port_elem u v := match port_any v [u] with Ok b => b | Err _ => false end |}.
  - intros b p a Hb Hp. by rewrite net_item.
  - intros l h a Hl Hh. by rewrite range_item.
  - intros n v Hn. destruct (port_text n Hn) as [H1 H2]. cbn [port_any]. rewrite split_on_word by done. cbn [head last from_option id].
    rewrite H1. by destruct (between n v n).
  - intros n m v Hn Hm. destruct (port_text n Hn) as [H1 H2]. destruct (port_text m Hm) as [H3 H4]. cbn [port_any app].
    rewrite split_on_sep, split_on_word by done. cbn [head last from_option id]. rewrite H1, H3. by destruct (between n v m).
Defined.

(** ** Facts about the gathered state *)

Lemma ipv4_canonical t u : ipv4 t false = Ok u -> canonical_addr u.
Proof.
  unfold ipv4. destruct (bool_decide (45 ∈ t)); cbn [andb negb].
  - destruct (split_on 45 t) as [|x [|y [|? ?]]]; try done. destruct (ip4_parse x) as [l|] eqn:El; [|done].
    destruct (ip4_parse y) as [h|] eqn:Eh; [|done]. destruct (h <? l); [done|]. intros H. apply ok_inj in H as <-.
    right. exists l, h. split; [by eapply ip4_parse_bound|]. split; [by eapply ip4_parse_bound | done].
  - unfold ip_network. destruct (iface_parse t) as [[b p]|] eqn:Ei.
    + destruct (iface_parse_bound _ _ _ Ei) as [Hb Hp]. unfold ip4_network. rewrite Ei. cbn [andb].
      intros H. apply ok_inj in H as <-. left. eauto.
    + destruct (ip6_network false t) as [[]|] eqn:E6; [|done..]. by apply ip6_network_v6 in E6.
Qed.

Lemma any_canonical : canonical_addr (lit "0.0.0.0/0").
Proof. left. exists 0, 0. split; [unfold is_ip4; lia|]. split; [lia|]. vm_compute. reflexivity. Qed.

Lemma addresses_canonical r vs l : r_family r = 4 -> addresses r vs = Ok l -> Forall canonical_addr l.
Proof.
  intros Hf. unfold addresses. generalize 18%nat (@nil pystr). intros fuel stack. revert vs stack l.
  induction fuel as [|k IH]; intros vs stack l; cbn [addresses_rec]; [done|]. intros H. inv_res.
  apply Forall_forall. intros x Hx. rewrite elem_sorted_set in Hx. revert x Hx. apply Forall_forall.
  assert (forall out, Forall canonical_addr out -> foldM_res (address_step r (addresses_rec r k) stack) out vs = Ok v ->
          Forall canonical_addr v) as Hfold; [|by eapply Hfold]. clear Hv.
  induction vs as [|x vs IHv]; intros out Ho; cbn [foldM_res]; [by intros [= <-]|]. intros H. inv_res.
  eapply IHv; [|exact H]. unfold address_step in Hv. split_if Hv; [done|]. rewrite Hf in Hv. split_if Hv.
  - apply ok_inj in Hv as <-. apply Forall_app. split; [done|]. apply Forall_singleton, any_canonical.
  - inv_res. split_if Hv; [done|]. apply ok_inj in Hv as <-. apply Forall_app. split; [done|].
    unfold address_value in Hv0.
    destruct (resolver_find r (lit "address") x) as [e|].
    + destruct (object_child e); [|done]. rewrite (address_text_v4 r Hf) in Hv0. inv_res. apply Forall_singleton. by eapply ipv4_canonical.
    + destruct (resolver_find r (lit "address-group") x); [split_if Hv0; [done|]; by eapply IH|].
      rewrite (address_text_v4 r Hf) in Hv0. inv_res. apply Forall_singleton. by eapply ipv4_canonical.
Qed.

Lemma ports_canonical t l : ports t = Ok l -> Forall canonical_port l.
Proof.
  unfold ports. intros H. apply mapM_res_Forall2 in H. induction H as [|x y l l' Hx _ IH]; constructor; [|exact IH].
  unfold port_range in Hx. destruct (split_on 45 x) as [|a [|b [|? ?]]]; try done; inv_res.
  - left. exists v. split; [by eapply port_end_bound | done].
  - split_if Hx; [done|]. apply ok_inj in Hx as <-. right. exists v, v0. repeat split; try (by eapply port_end_bound).
    all: eapply port_end_bound; eassumption.
Qed.

(** The matches of a security plan: canonical sets, no egress constraint, a rule type and devices. *)
Definition plain_match (m : match_t) : Prop :=
  Forall canonical_addr (m_source m) /\ Forall canonical_addr (m_destination m) /\ m_egress m = None /\
  (forall l, m_services m = Some l -> Forall (ports_all canonical_port) l) /\ exists t sd dd, m_security m = Some (t, sd, dd).

Lemma security_match root owner d i m a : compile_entry root owner Security d i = Ok (m, a) -> plain_match m.
Proof.
  unfold compile_entry. rewrite (bool_decide_eq_false_2 (Security = Nat)) by done. cbn [andb].
  destruct (negb _); [done|]. rewrite (bool_decide_eq_true_2 (Security = Security)) by done. intros H. inv_res.
  unfold compile_action in H. apply ok_inj in H. injection H as <- <-. unfold base_match in Hv0. inv_res. unfold plain_match.
  cbn [m_source m_destination m_egress m_services m_security].
  split; [eapply addresses_canonical; [|eassumption]; done|]. split; [eapply addresses_canonical; [|eassumption]; done|]. split; [done|].
  split; [|by eexists _, _, _]. intros l ->.
  match goal with H : (if ?b then _ else _) = Ok (Some l) |- _ => destruct b; [done|]; rename H into Hs end.
  destruct (services _ _) eqn:Es; cbn in Hs; [|done]. injection Hs as <-. by eapply (services_rec_all _ ports_canonical).
Qed.

Lemma plan_rows_plain root scope pl : compile_policy root Security scope = Ok pl ->
  Forall (fun r => forall m, row_match r = Some m -> plain_match m) (rows pl).
Proof. apply compile_policy_rows. intros owner d i m a. apply security_match. Qed.

(** *** Zones *)

(** No interface is in two zones, and no zone is listed twice. *)
Record zones_ok (z : zstate) : Prop := {
  zo_seen : NoDup (z_seen z);
  zo_index : concat (map snd (z_zones z)) ≡ₚ z_seen z;
  zo_keys : NoDup (z_zones z).*1;
  zo_names : (z_zones z).*1 ⊆ z_names z;
}.

Lemma bind_fold b ifs seen ix seen' ix' : NoDup seen -> foldM_res (bind_interface b) (seen, ix) ifs = Ok (seen', ix') ->
  exists new, seen' = seen ++ new /\ ix' = ix ++ new /\ NoDup seen'.
Proof.
  revert seen ix; induction ifs as [|i ifs IH]; intros seen ix Hd; cbn [foldM_res].
  - intros [= <- <-]. exists []. by rewrite !app_nil_r.
  - intros H. inv_res. unfold bind_interface in Hv. destruct (dget i b) as [n|]; [|done]. split_if Hv; [done|].
    split_if Hv; [done|]. apply ok_inj in Hv as <-. apply bool_decide_eq_false_1 in E0. apply IH in H.
    + destruct H as (new & -> & -> & Hd'). exists (n :: new).
      split; [by rewrite <- app_assoc|]. split; [by rewrite <- app_assoc | done].
    + apply NoDup_app. split; [done|]. split; [|apply NoDup_singleton]. by intros x Hx ->%list_elem_of_singleton.
Qed.

Lemma add_zone_ok r b scope st zone st' : zones_ok st -> add_zone r b scope st zone = Ok st' ->
  zones_ok st' /\ exists extra, z_zones st' = z_zones st ++ extra /\ Forall (fun z => z.1.1 = scope) extra.
Proof.
  intros [H1 H2 H3 H4] H. unfold add_zone in H. split_if H; [done|]. apply bool_decide_eq_false_1 in E. split_if H.
  - apply ok_inj in H as <-. split; [split; cbn [z_zones z_seen z_names]; set_solver|]. exists []. by rewrite app_nil_r.
  - inv_res. destruct v0 as [seen ix]. apply bind_fold in Hv0 as (new & Hs & Hi & Hd); [|done]. cbn [app fst snd] in *. subst ix seen.
    split; [|eexists; split; [done|]; by apply Forall_singleton].
    split; cbn [z_seen z_zones z_names]; [done | | | ].
    + rewrite map_app, concat_app, H2. cbn [map concat snd]. rewrite app_nil_r. by rewrite py_sorted_perm.
    + rewrite fmap_app. apply NoDup_app. split; [done|]. split; [|apply NoDup_singleton].
      intros k Hk ->%list_elem_of_singleton. apply E. by apply H4.
    + rewrite fmap_app. set_solver.
Qed.

Lemma add_zones_ok r b scope l st st' : zones_ok st -> foldM_res (add_zone r b scope) st l = Ok st' ->
  zones_ok st' /\ exists extra, z_zones st' = z_zones st ++ extra /\ Forall (fun z => z.1.1 = scope) extra.
Proof.
  revert st; induction l as [|z l IH]; intros st Hz; cbn [foldM_res].
  - intros [= <-]. split; [done|]. exists []. by rewrite app_nil_r.
  - intros H. inv_res. destruct (add_zone_ok _ _ _ _ _ _ Hz Hv) as [Hz1 (e1 & He1 & Hf1)].
    destruct (IH _ Hz1 H) as [Hz2 (e2 & He2 & Hf2)]. split; [done|]. exists (e1 ++ e2). rewrite He2, He1, app_assoc.
    split; [done|]. by apply Forall_app.
Qed.

(** Zones of other virtual systems do not change the pairs of a rule. *)
Lemma zone_pairs_app zones extra scope m : Forall (fun z => z.1.1 <> scope) extra ->
  zone_pairs (zones ++ extra) scope m = zone_pairs zones scope m.
Proof.
  intros He. unfold zone_pairs.
  assert (forall (f : zone_id * list Z -> list (list Z * list Z)), (forall z, z.1.1 <> scope -> f z = []) ->
          concat (map f (zones ++ extra)) = concat (map f zones)) as Hf.
  { intros f Hn. rewrite map_app, concat_app. assert (concat (map f extra) = []) as ->; [|by rewrite app_nil_r].
    induction He as [|z l Hz _ IH]; cbn; [done|]. by rewrite Hn. }
  rewrite Hf; [|intros z Hz; by rewrite bool_decide_eq_false_2]. f_equal. apply map_ext. intros src.
  destruct (bool_decide (src.1.1 = scope)); [|done]. apply Hf. intros z Hz. by rewrite bool_decide_eq_false_2.
Qed.

(** *** Rules *)

(** A row and the rule it becomes. *)
Record lowered (scope : option pystr) (rw : row) (r : sec_rule) : Prop := {
  l_match : row_match rw = Some (sr_match r);
  l_name : sr_name r = row_name rw;
  l_scope : sr_scope r = scope;
  l_action : exists icmp pm g ind ls le fw,
    row_action rw = Some (ASecurity (lit (if sr_allow r then "allow" else "drop")) icmp pm g ind ls le fw);
  l_app : m_application (sr_match r) = [lit "any"];
  l_user : m_user (sr_match r) = [lit "any"];
  l_dev : forall t sd dd, m_security (sr_match r) = Some (t, sd, dd) -> sd = [lit "any"] /\ dd = [lit "any"];
  l_svc : m_services (sr_match r) <> None;
}.

Lemma lower_rule_spec tokens zones scope rw r : lower_rule tokens zones scope rw = Ok r ->
  lowered scope rw r /\ sr_pairs r = zone_pairs zones scope (sr_match r).
Proof.
  unfold lower_rule. destruct (row_match rw) as [m|] eqn:Em; [|done]. destruct (row_action rw) as [[]|] eqn:Ea; try done.
  destruct (match m_security m with Some _ => _ | None => _ end) as [sd dd] eqn:Es.
  unfold any_only. do 4 (case_bool_decide; cbn [negb]; [|done]).
  destruct (m_services m) as [svc|] eqn:Ev; [|done]. destruct (negb _); [done|].
  destruct (negb (str_in type _) || _) eqn:Et; [done|]. destruct forwarding; [done|]. destruct (_ && _); [done|].
  destruct (length _ =? 0)%nat; [done|]. intros Hr. apply ok_inj in Hr as <-. split; [|done].
  apply orb_false_iff in Et as [Et _]. apply negb_false_iff, bool_decide_eq_true_1 in Et.
  split; cbn [sr_match sr_name sr_scope sr_allow]; try done.
  - rewrite Ea. case_bool_decide as Ety; [subst; by eexists _, _, _, _, _, _, _|].
    apply elem_of_cons in Et as [?|Et%list_elem_of_singleton]; [done|]. subst. by eexists _, _, _, _, _, _, _.
  - intros t sd' dd' Hs. rewrite Hs in Es. injection Es as -> ->. done.
  - by rewrite Ev.
Qed.

(** The state after the virtual systems [done]. *)
Record gathered (root : element) (processed : list (option pystr)) (st : sec_state) : Prop := {
  g_zones : zones_ok (s_zones st);
  g_scopes : Forall (fun z => z.1.1 ∈ processed) (z_zones (s_zones st));
  g_rules : Forall (fun r => sr_scope r ∈ processed /\ sr_pairs r = zone_pairs (z_zones (s_zones st)) (sr_scope r) (sr_match r)) (s_rules st);
  g_plans : forall scope, scope ∈ processed -> exists pl pre rs post,
    compile_policy root Security scope = Ok pl /\ s_rules st = pre ++ rs ++ post /\ Forall2 (lowered scope) (rows pl) rs
    /\ Forall (fun r => sr_scope r <> scope) (pre ++ post);
}.

Lemma lower_rows_spec tokens zones scope rws rs : mapM_res (lower_rule tokens zones scope) rws = Ok rs ->
  Forall2 (lowered scope) rws rs /\ Forall (fun r => sr_scope r = scope /\ sr_pairs r = zone_pairs zones scope (sr_match r)) rs.
Proof.
  intros H. apply mapM_res_Forall2 in H. split.
  - eapply Forall2_impl; [exact H|]. cbn beta. intros rw r Hr. apply lower_rule_spec in Hr. apply Hr.
  - induction H as [|rw r l l' Hr _ IH]; constructor; [|done]. apply lower_rule_spec in Hr as [Hl Hp].
    split; [apply Hl | done].
Qed.

Lemma add_scope_gathered root b tokens processed st so st' : so.1 ∉ processed -> gathered root processed st ->
  add_scope root b tokens st so = Ok st' -> gathered root (processed ++ [so.1]) st'.
Proof.
  intros Hn [G1 G2 G3 G4] H. destruct so as [scope owner]. unfold add_scope in H. cbn [fst] in *. inv_res. split_if H; [done|]. inv_res.
  destruct (add_zones_ok _ _ _ _ _ _ G1 Hv) as [Hz (extra & He & Hes)].
  destruct (lower_rows_spec _ _ _ _ _ Hv1) as [Hl Hr].
  assert (forall s, s ∈ processed -> s <> scope) as Hne by (intros s Hs ->; done).
  assert (forall s m, s ∈ processed -> zone_pairs (z_zones v) s m = zone_pairs (z_zones (s_zones st)) s m) as Hzp.
  { intros s m Hs. rewrite He. apply zone_pairs_app. eapply List.Forall_impl; [|exact Hes]. cbn beta.
    intros z Hz' Heq. apply (Hne s Hs). congruence. }
  split; cbn [s_zones s_rules].
  - done.
  - rewrite He. apply Forall_app. split; [eapply List.Forall_impl; [|exact G2] | eapply List.Forall_impl; [|exact Hes]]; cbn beta; intros z Hz'; set_solver.
  - apply Forall_app. split; [eapply List.Forall_impl; [|exact G3] | eapply List.Forall_impl; [|exact Hr]]; cbn beta.
    + intros r [Hs Hp]. split; [set_solver|]. by rewrite Hzp.
    + intros r [-> Hp]. split; [set_solver | done].
  - intros s Hs. apply elem_of_app in Hs as [Hs|Hs%list_elem_of_singleton].
    + destruct (G4 s Hs) as (pl & pre & rs & post & P1 & P2 & P3 & P4). exists pl, pre, rs, (post ++ v1). rewrite P2.
      split; [done|]. split; [by rewrite <- !app_assoc|]. split; [done|]. rewrite app_assoc. apply Forall_app. split; [done|].
      eapply List.Forall_impl; [|exact Hr]. cbn beta. intros r [Hr' _] Heq. apply (Hne s Hs). congruence.
    + subst s. exists v0, (s_rules st), v1, []. rewrite !app_nil_r. split; [done|]. split; [done|]. split; [done|].
      eapply List.Forall_impl; [|exact G3]. intros r [Hs _]. by apply Hne.
Qed.

Lemma owners_keys root : NoDup (owners root).*1.
Proof.
  unfold owners. set (d := @nil (option pystr * element)). assert (dict_ok d) as Hd by constructor. clearbody d. revert d Hd.
  induction (findall _ root) as [|e l IH]; intros d Hd; cbn [fold_left]; [done|]. apply IH. by apply dict_ok_dset.
Qed.

Lemma gather_gathered root b tokens st : gather root b tokens = Ok st -> gathered root (owners root).*1 st.
Proof.
  unfold gather. intros H. pose proof (owners_keys root) as Hd.
  assert (forall l processed st0, NoDup (processed ++ l.*1) -> gathered root processed st0 ->
          foldM_res (add_scope root b tokens) st0 l = Ok st -> gathered root (processed ++ l.*1) st) as Hl.
  { induction l as [|so l IH]; intros processed st0 Hnd Hg; cbn [foldM_res].
    - intros [= <-]. by rewrite app_nil_r.
    - intros Hf. inv_res. rewrite fmap_cons, cons_middle, app_assoc in *. eapply IH; [done | | exact Hf].
      eapply add_scope_gathered; [|exact Hg | done]. apply NoDup_app in Hnd as [Hnd _]. apply NoDup_app in Hnd as (_ & Hnd & _).
      intros Hin. apply (Hnd _ Hin). by apply list_elem_of_singleton. }
  apply (Hl _ [] empty_state Hd); [|done]. split; [split; [constructor | done | constructor | done] | constructor | constructor|].
  intros scope []%not_elem_of_nil.
Qed.

(** ** The chain refines the first match *)

Section refinement.
Context {NE : NftElements}.

(** The interfaces of the side that opened the connection and of the other side. *)
Definition client_if (f : flow) : Z := if is_reply f then f_oif f else f_iif f.
Definition server_if (f : flow) : Z := if is_reply f then f_iif f else f_oif f.

(** A rule decides a packet when some zone pair, both address sets and a service match. *)
Definition rule_hit (r : sec_rule) (f : flow) : bool :=
  existsb (fun pr => bool_decide (client_if f ∈ pr.1) && bool_decide (server_if f ∈ pr.2)) (sr_pairs r)
  && addrs_hold (m_source (sr_match r)) (f_src f) && addrs_hold (m_destination (sr_match r)) (f_dst f)
  && existsb (fun s => service_holds s f) (default [] (m_services (sr_match r))).

Fixpoint first_outcome (l : list line) (f : flow) : option outcome :=
  match l with
  | [] => None
  | x :: t => match line_outcome x f with Some o => Some o | None => first_outcome t f end
  end.

Lemma forward_first l f : forward l f = default Dropped (first_outcome l f).
Proof. induction l as [|x l IH]; cbn [forward first_outcome]; [done|]. by destruct (line_outcome x f). Qed.

Lemma first_outcome_app l1 l2 f :
  first_outcome (l1 ++ l2) f = match first_outcome l1 f with Some o => Some o | None => first_outcome l2 f end.
Proof. induction l1 as [|x l IH]; cbn [app first_outcome]; [done|]. by destruct (line_outcome x f). Qed.

(** Lines that all lead to one rule. *)
Lemma goto_lines i f l : Forall (fun x => exists c, x = GotoRule c i) l ->
  first_outcome l f = if existsb (fun x => match x with GotoRule c _ => condition_holds c f | _ => false end) l then Some (AtRule i) else None.
Proof.
  induction 1 as [|x l (c & ->) _ IH]; cbn [first_outcome existsb line_outcome]; [done|].
  destruct (condition_holds c f); [done|]. exact IH.
Qed.

Lemma pair_lines_goto i m pr : Forall (fun x => exists c, x = GotoRule c i) (pair_lines i m pr).
Proof.
  unfold pair_lines, service_lines. apply Forall_app. split; apply Forall_forall; intros x Hx%list_elem_of_In;
    apply in_map_iff in Hx as (s & <- & _); by eexists.
Qed.

Lemma service_lines_holds i m dir src dst f :
  existsb (fun x => match x with GotoRule c _ => condition_holds c f | _ => false end) (service_lines i m dir src dst) =
  bool_decide (dir = f_dir f) && bool_decide (f_iif f ∈ src) && bool_decide (f_oif f ∈ dst)
  && addrs_hold (m_source m) (f_src f) && addrs_hold (m_destination m) (f_dst f)
  && existsb (fun s => service_holds s f) (default [] (m_services m)).
Proof.
  unfold service_lines. induction (default [] (m_services m)) as [|s l IH]; cbn [map existsb]; [by rewrite andb_false_r|].
  rewrite IH. unfold condition_holds. cbn [c_dir c_iif c_oif c_saddr c_daddr c_service].
  set (a := bool_decide (dir = f_dir f) && _ && _ && _ && _). by destruct a, (service_holds s f).
Qed.

Lemma pair_lines_holds i m pr f :
  existsb (fun x => match x with GotoRule c _ => condition_holds c f | _ => false end) (pair_lines i m pr) =
  (bool_decide (client_if f ∈ pr.1) && bool_decide (server_if f ∈ pr.2))
  && addrs_hold (m_source m) (f_src f) && addrs_hold (m_destination m) (f_dst f)
  && existsb (fun s => service_holds s f) (default [] (m_services m)).
Proof.
  unfold pair_lines. rewrite existsb_app, !service_lines_holds. unfold client_if, server_if, is_reply.
  destruct (f_dir f); rewrite ?(bool_decide_eq_true_2 (Original = Original)), ?(bool_decide_eq_true_2 (Reply = Reply)),
    ?(bool_decide_eq_false_2 (Original = Reply)), ?(bool_decide_eq_false_2 (Reply = Original)) by done; cbn [andb orb].
  - by rewrite orb_false_r.
  - by rewrite (andb_comm (bool_decide (f_iif f ∈ pr.2))).
Qed.

Lemma orb_factor p q a b c : (p && a && b && c || q && a && b && c) = ((p || q) && a && b && c).
Proof. by destruct p, q, a, b, c. Qed.

Lemma rule_lines_outcome i r f : first_outcome (rule_lines (i, r)) f = if rule_hit r f then Some (AtRule i) else None.
Proof.
  unfold rule_lines, rule_hit. cbn [fst snd]. rewrite (goto_lines i).
  - assert (forall l, existsb (fun x => match x with GotoRule c _ => condition_holds c f | _ => false end)
                        (concat (map (pair_lines i (sr_match r)) l)) =
      existsb (fun pr => bool_decide (client_if f ∈ pr.1) && bool_decide (server_if f ∈ pr.2)) l
      && addrs_hold (m_source (sr_match r)) (f_src f) && addrs_hold (m_destination (sr_match r)) (f_dst f)
      && existsb (fun s => service_holds s f) (default [] (m_services (sr_match r)))) as H.
    { induction l as [|pr l IH]; cbn [map concat existsb]; [done|]. rewrite existsb_app, IH, pair_lines_holds.
      by rewrite orb_factor. }
    by rewrite H.
  - apply Forall_concat, Forall_forall. intros x Hx%list_elem_of_In. apply in_map_iff in Hx as (pr & <- & _). apply pair_lines_goto.
Qed.

(** The rules in order: the first that is hit. *)
Fixpoint first_hit (n : nat) (l : list sec_rule) (f : flow) : option nat :=
  match l with
  | [] => None
  | r :: t => if rule_hit r f then Some n else first_hit (S n) t f
  end.

Lemma rules_outcome l n f : first_outcome (concat (map rule_lines (zip (seq n (length l)) l))) f = AtRule <$> first_hit n l f.
Proof.
  revert n; induction l as [|r l IH]; intros n; cbn [length seq zip zip_with map concat first_hit]; [done|].
  rewrite first_outcome_app, rule_lines_outcome. destruct (rule_hit r f); [done|]. apply IH.
Qed.

Lemma first_hit_app n l1 l2 f :
  first_hit n (l1 ++ l2) f = match first_hit n l1 f with Some i => Some i | None => first_hit (n + length l1) l2 f end.
Proof.
  revert n; induction l1 as [|r l IH]; intros n; cbn [app first_hit length]; [by rewrite Nat.add_0_r|].
  destruct (rule_hit r f); [done|]. rewrite IH. by rewrite Nat.add_succ_r.
Qed.

Lemma first_hit_none n l f : Forall (fun r => rule_hit r f = false) l -> first_hit n l f = None.
Proof. intros H. revert n; induction H as [|r l Hr _ IH]; intros n; cbn [first_hit]; [done|]. by rewrite Hr. Qed.

(** *** Interfaces name zones *)

Lemma zone_unique (l : list (zone_id * list Z)) z1 z2 i : NoDup (concat (map snd l)) -> z1 ∈ l -> z2 ∈ l -> i ∈ z1.2 -> i ∈ z2.2 -> z1 = z2.
Proof.
  induction l as [|z l IH]; [by intros _ ?%not_elem_of_nil|]. cbn [map concat]. intros (_ & Hd & Hl)%NoDup_app.
  assert (forall y, y ∈ l -> i ∈ y.2 -> i ∈ concat (map snd l)) as Hin.
  { intros y Hy Hi. apply list_elem_of_In, in_concat. exists y.2. split; [by apply in_map, list_elem_of_In | by apply list_elem_of_In]. }
  intros [->|H1]%elem_of_cons [->|H2]%elem_of_cons Hi1 Hi2; [done | | | by apply IH].
  - exfalso. eapply Hd; [exact Hi1 | by eapply Hin].
  - exfalso. eapply Hd; [exact Hi2 | by eapply Hin].
Qed.

(** In a zone pair of a rule the packet's zones appear exactly when the rule applies to them. *)
Lemma pairs_zone zones scope m zs zd I1 I2 i o : NoDup (concat (map snd zones)) ->
  ((scope, zs), I1) ∈ zones -> ((scope, zd), I2) ∈ zones -> i ∈ I1 -> o ∈ I2 -> forall scope',
  existsb (fun pr => bool_decide (i ∈ pr.1) && bool_decide (o ∈ pr.2)) (zone_pairs zones scope' m) =
  bool_decide (scope' = scope) && pair_applies m zs zd.
Proof.
  intros Hd H1 H2 Hi Ho scope'. apply eq_true_iff_eq. rewrite existsb_exists, andb_true_iff, bool_decide_eq_true. unfold zone_pairs. split.
  - intros (pr & Hp & Hm). apply andb_true_iff in Hm as [Hm1 Hm2]. apply bool_decide_eq_true_1 in Hm1, Hm2.
    apply in_concat in Hp as (l & Hl & Hp). apply in_map_iff in Hl as (src & <- & Hs). case_bool_decide as Es; [|done].
    apply in_concat in Hp as (l & Hl & Hp). apply in_map_iff in Hl as (dst & <- & Hdst).
    destruct (bool_decide (dst.1.1 = scope') && _) eqn:Ed; [|done]. apply andb_true_iff in Ed as [Ed Ea]. apply bool_decide_eq_true_1 in Ed.
    destruct Hp as [<-|[]]. cbn [fst snd] in *. apply list_elem_of_In in Hs, Hdst.
    assert (src = ((scope, zs), I1)) as -> by (by eapply (zone_unique zones)).
    assert (dst = ((scope, zd), I2)) as -> by (by eapply (zone_unique zones)). done.
  - intros [-> Ha]. exists (I1, I2). split; [|apply andb_true_iff; split; by apply bool_decide_eq_true_2].
    apply in_concat. eexists. split; [apply in_map, list_elem_of_In, H1|]. cbn [fst snd]. rewrite bool_decide_eq_true_2 by done.
    apply in_concat. eexists. split; [apply in_map, list_elem_of_In, H2|]. cbn [fst snd]. rewrite bool_decide_eq_true_2 by done.
    rewrite Ha. by left.
Qed.

(** *** A row against a packet *)

(** The packet of the diagnostic that a flow stands for. *)
Definition packet_of (zs zd : pystr) (f : flow) : packet :=
  {| p_source := IPv4 (f_src f); p_destination := IPv4 (f_dst f); p_from_zone := zs; p_to_zone := zd; p_protocol := f_proto f;
     p_source_port := Some (f_sport f); p_destination_port := Some (f_dport f); p_application := None; p_source_user := None;
     p_source_device := None; p_destination_device := None; p_egress := None |}.

Lemma all_known l : all_matches (map Some l) = Some (forallb id l).
Proof.
  unfold all_matches. induction l as [|b l IH]; [done|]. cbn [map forallb id].
  rewrite (bool_decide_ext (Some false ∈ Some b :: map Some l) (Some false = Some b \/ Some false ∈ map Some l)) by apply elem_of_cons.
  rewrite (bool_decide_ext (None ∈ Some b :: map Some l) (None ∈ map Some l)) by (rewrite elem_of_cons; naive_solver).
  destruct b; cbn [andb].
  - rewrite (bool_decide_ext _ (Some false ∈ map Some l)) by naive_solver. exact IH.
  - by rewrite bool_decide_eq_true_2 by (by left).
Qed.

Lemma any_known l : any_matches (map Some l) = Some (existsb id l).
Proof.
  unfold any_matches. induction l as [|b l IH]; [done|]. cbn [map existsb id].
  rewrite (bool_decide_ext (Some true ∈ Some b :: map Some l) (Some true = Some b \/ Some true ∈ map Some l)) by apply elem_of_cons.
  rewrite (bool_decide_ext (None ∈ Some b :: map Some l) (None ∈ map Some l)) by (rewrite elem_of_cons; naive_solver).
  destruct b; cbn [orb].
  - by rewrite bool_decide_eq_true_2 by (by left).
  - rewrite (bool_decide_ext _ (Some true ∈ map Some l)) by naive_solver. exact IH.
Qed.

Lemma service_match_holds zs zd f s : ports_all canonical_port s -> service_match (packet_of zs zd f) s = Ok (Some (service_holds s f)).
Proof.
  intros [H1 H2]. unfold service_match, service_holds. case_bool_decide; [done|]. cbn [orb packet_of p_source_port p_destination_port p_protocol].
  rewrite !ports_hold_match by done. cbn [mbind result_bind].
  change [Some ?a; Some ?b; Some ?c] with (map Some [a; b; c]). rewrite all_known. cbn [forallb id]. by rewrite andb_true_r, andb_assoc.
Qed.

Lemma services_match_hold zs zd f l : Forall (ports_all canonical_port) l ->
  mapM_res (service_match (packet_of zs zd f)) l = Ok (map Some (map (fun s => service_holds s f) l)).
Proof.
  induction 1 as [|s l Hs _ IH]; cbn [mapM_res map]; [done|]. rewrite service_match_holds by done. by rewrite IH.
Qed.

Lemma rule_type_holds m zs zd f t sd dd : m_security m = Some (t, sd, dd) ->
  exists bs, rule_type_match m (packet_of zs zd f) = map Some bs /\
    forallb id bs = negb (bool_decide (t = lit "intrazone") && negb (bool_decide (Some zs = Some zd)))
                    && negb (bool_decide (t = lit "interzone") && bool_decide (Some zs = Some zd)).
Proof.
  intros Hm. unfold rule_type_match. rewrite Hm. cbn [packet_of p_from_zone p_to_zone].
  rewrite (bool_decide_ext (Some zs = Some zd) (zs = zd)) by naive_solver.
  destruct (str_in t [lit "intrazone"; lit "interzone"]) eqn:E.
  - eexists [_]. split; [done|]. cbn [forallb id]. rewrite andb_true_r. apply bool_decide_eq_true_1 in E.
    apply elem_of_cons in E as [->|E%list_elem_of_singleton].
    + rewrite (bool_decide_eq_true_2 (lit "intrazone" = lit "intrazone")) by done.
      rewrite (bool_decide_eq_false_2 (lit "intrazone" = lit "interzone")) by done. by destruct (bool_decide (zs = zd)).
    + subst t. rewrite (bool_decide_eq_false_2 (lit "interzone" = lit "intrazone")) by done.
      rewrite (bool_decide_eq_true_2 (lit "interzone" = lit "interzone")) by done. by destruct (bool_decide (zs = zd)).
  - exists []. split; [done|]. apply bool_decide_eq_false_1 in E. 
    rewrite (bool_decide_eq_false_2 (t = lit "intrazone")) by (intros ->; set_solver).
    rewrite (bool_decide_eq_false_2 (t = lit "interzone")) by (intros ->; set_solver). done.
Qed.

Lemma match_hit rw r scope zs zd f : lowered scope rw r -> plain_match (sr_match r) ->
  match_packet (row_match rw) (packet_of zs zd f) =
  Ok (Some (pair_applies (sr_match r) (Some zs) (Some zd) && addrs_hold (m_source (sr_match r)) (f_src f)
            && addrs_hold (m_destination (sr_match r)) (f_dst f)
            && existsb (fun s => service_holds s f) (default [] (m_services (sr_match r))))).
Proof.
  intros L (P1 & P2 & P3 & P4 & t & sd & dd & P5). rewrite (l_match _ _ _ L). set (m := sr_match r) in *. cbn [match_packet].
  change (p_source (packet_of zs zd f)) with (IPv4 (f_src f)). change (p_destination (packet_of zs zd f)) with (IPv4 (f_dst f)).
  rewrite !addrs_hold_match by done. cbn [mbind result_bind]. pose proof (l_svc _ _ _ L) as Hs. fold m in Hs.
  destruct (m_services m) as [svc|] eqn:Es; [|done]. rewrite services_match_hold by (by apply P4). cbn [mbind result_bind].
  rewrite any_known, P3. destruct (rule_type_holds m zs zd f t sd dd P5) as (bs & Hbs & Hall). rewrite Hbs.
  unfold device_match. rewrite P5. destruct (l_dev _ _ _ L t sd dd P5) as [-> ->]. fold m.
  pose proof (l_app _ _ _ L) as Ha. pose proof (l_user _ _ _ L) as Hu. fold m in Ha, Hu. rewrite Ha, Hu.
  unfold member_match at 3 4 5 6. rewrite (bool_decide_eq_true_2 ([lit "any"] = [lit "any"])) by done.
  assert (forall l z, member_match l (Some z) = Some (in_list (Some z) l)) as Hmem.
  { intros l z. unfold member_match, in_list. by destruct (bool_decide (l = [lit "any"])). }
  rewrite !Hmem. cbn [p_from_zone p_to_zone packet_of].
  match goal with |- Ok (all_matches ?l) = _ =>
    assert (l = map Some ([in_list (Some zs) (m_from m); in_list (Some zd) (m_to m); true; true; true; true] ++ bs
      ++ [addrs_hold (m_source m) (f_src f); addrs_hold (m_destination m) (f_dst f); true;
          existsb id (map (fun s => service_holds s f) svc)])) as -> by (rewrite !map_app; done) end.
  rewrite all_known. f_equal. f_equal. cbn [app forallb id]. rewrite forallb_app, Hall. cbn [forallb id]. unfold pair_applies. rewrite P5.
  assert (existsb id (map (fun s => service_holds s f) svc) = existsb (fun s => service_holds s f) (default [] (Some svc))) as ->.
  { cbn [from_option id]. clear. induction svc as [|s l IH]; cbn; [done|]. by rewrite IH. }
  by rewrite !andb_assoc, !andb_true_r.
Qed.

(** *** The chain *)

Lemma hit_match zones scope rw r zs zd I1 I2 f : NoDup (concat (map snd zones)) ->
  ((scope, Some zs), I1) ∈ zones -> ((scope, Some zd), I2) ∈ zones -> client_if f ∈ I1 -> server_if f ∈ I2 ->
  lowered scope rw r -> plain_match (sr_match r) -> sr_pairs r = zone_pairs zones scope (sr_match r) ->
  match_packet (row_match rw) (packet_of zs zd f) = Ok (Some (rule_hit r f)).
Proof.
  intros Hd H1 H2 Hc Hs L P Hp. rewrite (match_hit rw r scope zs zd f L P). unfold rule_hit. rewrite Hp.
  rewrite (pairs_zone zones scope (sr_match r) (Some zs) (Some zd) I1 I2 _ _ Hd H1 H2 Hc Hs scope).
  by rewrite (bool_decide_eq_true_2 (scope = scope)).
Qed.

(** The rules of the virtual system decide like the walk over its plan. *)
Lemma walk_first_hit (P : row -> sec_rule -> Prop) p rws rs f n :
  Forall2 (fun rw r => P rw r /\ match_packet (row_match rw) p = Ok (Some (rule_hit r f))) rws rs ->
  exists v, walk p rws = Ok v /\
    match v_status v with
    | Matched => exists i r rw, v_selected v = Some rw /\ first_hit n rs f = Some (n + i)%nat /\ rs !! i = Some r /\ P rw r
    | NoMatch => v_selected v = None /\ first_hit n rs f = None
    | Indeterminate => False
    end.
Proof.
  intros H. revert n. induction H as [|rw r rws rs [Hp Hm] _ IH]; intros n; cbn [walk first_hit].
  - eexists. split; [done|]. done.
  - rewrite Hm. cbn [mbind result_bind]. destruct (rule_hit r f).
    + eexists. split; [done|]. exists 0%nat, r, rw. by rewrite Nat.add_0_r.
    + destruct (IH (S n)) as (v & -> & Hv). eexists. split; [done|]. cbn [v_status v_selected]. destruct (v_status v); try done.
      destruct Hv as (i & r' & rw' & H1 & H2 & H3 & H4). exists (S i), r', rw'. split; [done|]. split; [|done]. rewrite H2. f_equal. lia.
Qed.

Lemma implicit_outcome (zones : list (zone_id * list Z)) scope zs zd I1 I2 f rest : NoDup (concat (map snd zones)) -> NoDup zones.*1 ->
  ((scope, zs), I1) ∈ zones -> ((scope, zd), I2) ∈ zones -> client_if f ∈ I1 -> server_if f ∈ I2 ->
  first_outcome (map (fun z => ImplicitAllow z.2) zones ++ rest) f =
  if bool_decide (zs = zd) then Some AtImplicit else first_outcome rest f.
Proof.
  intros Hd Hk H1 H2 Hc Hs.
  assert (forall z : zone_id * list Z, (bool_decide (f_iif f ∈ z.2) && bool_decide (f_oif f ∈ z.2)) = true <->
            client_if f ∈ z.2 /\ server_if f ∈ z.2) as Hb.
  { intros z. rewrite andb_true_iff, !bool_decide_eq_true. unfold client_if, server_if. destruct (is_reply f); tauto. }
  assert (forall l : list (zone_id * list Z), first_outcome (map (fun z => ImplicitAllow z.2) l) f =
            if existsb (fun z => bool_decide (f_iif f ∈ z.2) && bool_decide (f_oif f ∈ z.2)) l then Some AtImplicit else None) as Hl.
  { induction l as [|z l IH]; cbn [map first_outcome line_outcome existsb]; [done|]. destruct (_ && _); [done|]. exact IH. }
  rewrite first_outcome_app, Hl. case_bool_decide as E.
  - subst zd. rewrite (proj2 (existsb_exists _ _)); [done|]. exists ((scope, zs), I1). split; [by apply list_elem_of_In|].
    apply Hb. split; [done|]. pose proof (In_dget _ _ _ Hk H1) as E1. pose proof (In_dget _ _ _ Hk H2) as E2. by simplify_eq.
  - destruct (existsb _ zones) eqn:Ex; [|done]. exfalso. apply existsb_exists in Ex as (z & Hz%list_elem_of_In & Hzb). apply Hb in Hzb as [Hz1 Hz2].
    pose proof (zone_unique zones z _ (client_if f) Hd Hz H1 Hz1 Hc). pose proof (zone_unique zones z _ (server_if f) Hd Hz H2 Hz2 Hs). congruence.
Qed.

(** A packet of a connection: IPv4, valid, and a reply only of an established connection that was granted. *)
Definition tracked (f : flow) : Prop :=
  f_ipv4 f = true /\ f_invalid f = false /\ (is_reply f = true -> f_established f = true /\ f_granted f = true).

Lemma guards_pass f rest : tracked f -> first_outcome ([DropOther; DropInvalid; DropStray; DropUngranted] ++ rest) f = first_outcome rest f.
Proof.
  intros (H1 & H2 & H3). cbn [app first_outcome line_outcome]. rewrite H1, H2. cbn [negb].
  destruct (is_reply f); cbn [andb]; [|done]. destruct (H3 eq_refl) as [-> ->]. done.
Qed.

Lemma hosts_pass (hosts : list (Z * pystr)) f rest : Forall (fun h => h.1 <> client_if f) hosts ->
  first_outcome (concat (map (fun h => [HostOut h.1 h.2; HostBack h.1 h.2]) hosts) ++ rest) f = first_outcome rest f.
Proof.
  induction 1 as [|h l Hh _ IH]; cbn [map concat app first_outcome line_outcome]; [done|]. unfold client_if in Hh.
  destruct (is_reply f); cbn [negb andb]; rewrite (proj2 (Z.eqb_neq _ _)) by congruence; cbn [andb]; exact IH.
Qed.

End refinement.

(** What the forwarding chain does with a packet between two zones, next to the walk of the diagnostic. *)
Definition agrees (st : sec_state) (hosts : list (Z * pystr)) `{!NftElements} (scope : option pystr) (zs zd : pystr) (f : flow) (v : verdict) : Prop :=
  let o := forward (forward_lines st hosts) f in
  match v_status v with
  | Matched => exists i r rw, v_selected v = Some rw /\ o = AtRule i /\ s_rules st !! i = Some r /\ lowered scope rw r
      /\ accepted st o = sr_allow r
  | NoMatch => o = if bool_decide (zs = zd) then AtImplicit else Dropped
  | Indeterminate => False
  end.

(** C1. The forwarding chain enforces the security policy: between two zones of a virtual system a packet of a
    tracked connection reaches exactly the rule the first-match diagnostic selects for it, is accepted if
    and only if that rule allows it, and without a matching rule it is accepted inside a zone and dropped
    between zones.  Both directions of a connection are decided alike, by the addresses and ports of the
    direction that opened it. *)
Theorem chain_first_match `{!NftElements} root b tokens st hosts scope pl zs zd I1 I2 f :
  gather root b tokens = Ok st -> scope ∈ (owners root).*1 -> compile_policy root Security scope = Ok pl ->
  ((scope, Some zs), I1) ∈ z_zones (s_zones st) -> ((scope, Some zd), I2) ∈ z_zones (s_zones st) ->
  client_if f ∈ I1 -> server_if f ∈ I2 -> tracked f -> Forall (fun h => h.1 <> client_if f) hosts ->
  exists v, walk (packet_of zs zd f) (rows pl) = Ok v /\ agrees st hosts scope zs zd f v.
Proof.
  intros Hg Hsc Hpl H1 H2 Hc Hs Ht Hh. destruct (gather_gathered _ _ _ _ Hg) as [[Z1 Z2 Z3 Z4] G2 G3 G4].
  assert (NoDup (concat (map snd (z_zones (s_zones st))))) as Hd by (by rewrite Z2).
  destruct (G4 scope Hsc) as (pl' & pre & rs & post & P1 & P2 & P3 & P4). assert (pl' = pl) as -> by congruence.
  assert (Forall (fun r => rule_hit r f = false) (pre ++ post)) as Hmiss.
  { rewrite P2 in G3. apply Forall_forall. intros r Hr. rewrite Forall_forall in P4, G3.
    destruct (G3 r) as [_ Hp]; [set_solver|]. unfold rule_hit. rewrite Hp.
    rewrite (pairs_zone _ scope (sr_match r) (Some zs) (Some zd) I1 I2 _ _ Hd H1 H2 Hc Hs).
    by rewrite (bool_decide_eq_false_2 (sr_scope r = scope)) by (by apply P4). }
  apply Forall_app in Hmiss as [Hpre Hpost].
  destruct (walk_first_hit (lowered scope) (packet_of zs zd f) (rows pl) rs f (length pre)) as (v & Hw & Hv).
  { pose proof (plan_rows_plain _ _ _ Hpl) as Hplain. rewrite P2 in G3. apply Forall_app in G3 as [_ G3]. apply Forall_app in G3 as [G3 _].
    clear P2 Hpl P1. induction P3 as [|rw r rws rs L _ IH]; constructor.
    - split; [done|]. apply Forall_cons in Hplain as [Hp _]. apply Forall_cons in G3 as [[_ Hq] _].
      eapply (hit_match _ scope rw r zs zd I1 I2 f Hd); try done; [by apply Hp, (l_match _ _ _ L)|]. by rewrite (l_scope _ _ _ L) in Hq.
    - apply Forall_cons in Hplain as [_ Hp]. apply Forall_cons in G3 as [_ Hq]. by apply IH. }
  exists v. split; [done|]. unfold agrees.
  assert (forward (forward_lines st hosts) f =
          default Dropped (match first_hit (length pre) rs f with
                           | Some i => Some (AtRule i)
                           | None => if bool_decide (zs = zd) then Some AtImplicit else Some Dropped
                           end)) as Ho.
  { rewrite forward_first. f_equal. unfold forward_lines. rewrite guards_pass, hosts_pass by done.
    rewrite first_outcome_app. unfold numbered. rewrite rules_outcome, P2, !first_hit_app, (first_hit_none 0 pre) by done. cbn [Nat.add].
    destruct (first_hit (length pre) rs f) as [i|]; [done|]. rewrite first_hit_none by done. cbn.
    rewrite (implicit_outcome _ scope (Some zs) (Some zd) I1 I2) by done.
    rewrite (bool_decide_ext (Some zs = Some zd) (zs = zd)) by naive_solver. done. }
  rewrite Ho. destruct (v_status v); [|done|].
  - destruct Hv as [_ ->]. by case_bool_decide.
  - destruct Hv as (i & r & rw & V1 & V2 & V3 & V4). rewrite V2. cbn.
    assert (s_rules st !! (length pre + i)%nat = Some r) as Hl.
    { rewrite P2, lookup_app_r by lia. replace (length pre + i - length pre)%nat with i by lia. by apply lookup_app_l_Some. }
    exists (length pre + i)%nat, r, rw. rewrite Hl. done.
Qed.

(** A reply is accepted only for a connection that was granted: without the grant label, outside the
    established state, or when the packet is invalid or not IPv4, the chain drops it whatever the rules say. *)
Theorem reply_needs_grant `{!NftElements} st hosts f :
  is_reply f = true -> accepted st (forward (forward_lines st hosts) f) = true ->
  f_granted f = true /\ f_established f = true /\ f_invalid f = false /\ f_ipv4 f = true.
Proof.
  intros Hr. rewrite forward_first. unfold forward_lines. cbn [app first_outcome line_outcome]. rewrite Hr. cbn [andb].
  destruct (f_ipv4 f), (f_invalid f), (f_established f), (f_granted f); cbn; done.
Qed.

(** *** Labels *)

(** The label value of a list of bits. *)
Definition label_value (bits : list Z) : Z := fold_right (fun b acc => Z.lor (Z.shiftl 1 b) acc) 0 bits.

Lemma label_testbit bits n : 0 <= n -> Forall (fun b => 0 <= b) bits -> Z.testbit (label_value bits) n = bool_decide (n ∈ bits).
Proof.
  intros Hn. induction 1 as [|b l Hb _ IH]; cbn [label_value fold_right].
  - rewrite Z.bits_0, bool_decide_eq_false_2; [done | apply not_elem_of_nil].
  - rewrite Z.lor_spec, Z.shiftl_spec by done. fold (label_value l). rewrite IH.
    rewrite (bool_decide_ext (n ∈ b :: l) (n = b \/ n ∈ l)) by apply elem_of_cons.
    destruct (decide (n = b)) as [->|Hne].
    + rewrite Z.sub_diag. cbn. by rewrite bool_decide_eq_true_2 by (by left).
    + assert (Z.testbit 1 (n - b) = false) as ->.
      { destruct (Z.lt_trichotomy n b) as [Hlt|[?|Hgt]]; [apply Z.testbit_neg_r; lia | done|]. apply (Z.bits_above_log2 1); cbn; lia. }
      cbn [orb]. apply bool_decide_ext. naive_solver.
Qed.

(** The label a rule writes is what the event collector reads: bit 0 set and the token above it. *)
Lemma label_token token : 1 <= token <= 1073741823 -> label_value (label_bits token) = 2 * token + 1.
Proof.
  intros Ht. apply Z.bits_inj'. intros n Hn. rewrite label_testbit; [|done|].
  - unfold label_bits. destruct (decide (n = 0)) as [->|Hne].
    + rewrite Z.testbit_odd_0. apply bool_decide_eq_true_2, list_elem_of_here.
    + assert (Z.testbit (2 * token + 1) n = Z.testbit token (n - 1)) as ->.
      { pose proof (Z.testbit_odd_succ token (n - 1) ltac:(lia)) as Hs. by replace (Z.succ (n - 1)) with n in Hs by lia. }
      apply eq_true_iff_eq. rewrite bool_decide_eq_true, elem_of_cons. split.
      * intros [?|Hin]; [done|]. apply list_elem_of_In, in_map_iff in Hin as (i & Hi & Hin). apply filter_In in Hin as [_ Hb].
        by replace (n - 1) with (Z.of_nat i) by lia.
      * intros Hb. right. apply list_elem_of_In, in_map_iff. exists (Z.to_nat (n - 1)). split; [lia|]. apply filter_In.
        rewrite Z2Nat.id by lia. split; [|done]. apply in_seq. split; [lia|]. destruct (decide (n - 1 < 30)) as [|Hge]; [lia|].
        assert (Z.testbit token (n - 1) = false); [|congruence]. apply Z.bits_above_log2; [lia|].
        apply Z.log2_lt_pow2; [lia|]. assert (2 ^ 30 <= 2 ^ (n - 1)) by (apply Z.pow_le_mono_r; lia). lia.
  - constructor; [lia|]. apply Forall_forall. intros x Hx%list_elem_of_In. apply in_map_iff in Hx as (i & <- & _). lia.
Qed.

(** *** An installed table *)

Definition demo_bindings : list (pystr * Z) := [(lit "ethernet1/1", 7); (lit "ethernet1/2", 9)].
Definition demo_state : sec_state := match gather plan_root demo_bindings false with Ok st => st | Err _ => empty_state end.
(** The reply of a web server to a client in the trusted zone. *)
Definition demo_reply : flow :=
  {| f_ipv4 := true; f_invalid := false; f_established := true; f_granted := true; f_dir := Reply; f_iif := 9; f_oif := 7;
     f_src := 167772165; f_dst := 168361991; f_proto := lit "tcp"; f_sport := 50000; f_dport := 8444 |}.

Lemma chain_first_match_witness :
  exists v, walk (packet_of (lit "trust") (lit "untrust") demo_reply) (rows demo_plan) = Ok v
    /\ agrees demo_state [] (Some (lit "vsys1")) (lit "trust") (lit "untrust") demo_reply v.
Proof.
  apply (chain_first_match plan_root demo_bindings false demo_state [] (Some (lit "vsys1")) demo_plan (lit "trust") (lit "untrust") [7] [9] demo_reply).
  - vm_compute. reflexivity.
  - vm_compute. constructor.
  - apply demo_plan_compiled.
  - vm_compute. constructor.
  - vm_compute. constructor. constructor.
  - vm_compute. constructor.
  - vm_compute. constructor.
  - split; [reflexivity|]. split; [reflexivity|]. intros _. split; reflexivity.
  - constructor.
Defined.

Lemma reply_needs_grant_witness :
  accepted demo_state (forward (forward_lines demo_state []) demo_reply) = true /\ f_granted demo_reply = true.
Proof.
  assert (accepted demo_state (forward (forward_lines demo_state []) demo_reply) = true) as H by (vm_compute; reflexivity).
  split; [exact H|]. apply (reply_needs_grant demo_state [] demo_reply); [vm_compute; reflexivity | exact H].
Defined.
