(* ===== verification/NetlinkEvents.v ===== *)
(** * Conntrack event decoding (opt/ffn_session_events.py)

    [attributes], [tuple_data], [decode] and the per-datagram loop of [snapshot] on
    byte strings, in the byte order the caller gives.  Every raise is a value of
    [ev_err]; a gap ([EventGap]) is told apart because only it can be recovered from a
    snapshot.  The theorems: an attribute list decodes to what was encoded, a datagram
    of several messages decodes message by message, and decoding ends on every input. *)

From S2P Require Import Prelude PyDict.

Inductive ev_err :=
| TruncatedAttribute | BadAttributeLength | DuplicateAttribute | TruncatedAttributePadding
| BadScalar | BadLabel | MissingKey | BadAddress
| TruncatedHeader | BadMessageLength | TruncatedNetlinkError | NetlinkError (code : Z)
| TruncatedNfgen | Malformed (e : ev_err) | TruncatedPadding
| GapOverrun | GapInterrupted | GapFailed | GapCapacity | GapTimeout
| BadSequence | OutOfRounds.

#[global] Instance ev_err_eq_dec : EqDecision ev_err.
Proof. solve_decision. Defined.

(** [isinstance(error, EventGap)]. *)
Definition is_gap (e : ev_err) : bool :=
  match e with GapOverrun | GapInterrupted | GapFailed | GapCapacity | GapTimeout => true | _ => false end.

Definition uint (big : bool) (b : bytes) : Z := if big then be_unpack b else le_unpack b.
(** [int.from_bytes(b, byteorder, signed=True)] on four bytes. *)
Definition sint32 (big : bool) (b : bytes) : Z :=
  let v := uint big b in if v <? 2 ^ 31 then v else v - 2 ^ 32.
(** [(size + 3) & ~3]. *)
Definition align4 (n : Z) : Z := Z.land (n + 3) (Z.lnot 3).

(** The loop of [attributes]; a round advances the offset by at least four. *)
Fixpoint attributes_loop (fuel : nat) (big : bool) (padding : list Z) (raw : bytes) (offset : Z)
    (acc : list (Z * bytes)) : result ev_err (list (Z * bytes)) :=
  if offset <? blen raw then
    match fuel with
    | O => Err OutOfRounds
    | S n =>
        if blen raw - offset <? 4 then Err TruncatedAttribute
        else
          let size := uint big (slice offset (offset + 2) raw) in
          let kind := Z.land (uint big (slice (offset + 2) (offset + 4) raw)) 16383 in
          if (size <? 4) || (blen raw <? offset + size) then Err BadAttributeLength
          else if bool_decide (kind ∈ padding) && (size =? 4) then
            attributes_loop n big padding raw (offset + 4) acc
          else if dmem kind acc then Err DuplicateAttribute
          else attributes_loop n big padding raw (offset + align4 size)
                 (dset kind (slice (offset + 4) (offset + size) raw) acc)
    end
  else if offset =? blen raw then Ok acc else Err TruncatedAttributePadding.

Definition attributes (big : bool) (padding : list Z) (raw : bytes) : result ev_err (list (Z * bytes)) :=
  attributes_loop (length raw) big padding raw 0 [].

Definition integer (raw : bytes) (size : nat) : result ev_err Z :=
  if (length raw =? size)%nat then Ok (be_unpack raw) else Err BadScalar.

(** [d[k]]. *)
Definition key (k : Z) (d : list (Z * bytes)) : result ev_err bytes :=
  match dget k d with Some v => Ok v | None => Err MissingKey end.

Definition opt_integer (k : Z) (size : nat) (d : list (Z * bytes)) : result ev_err (option Z) :=
  match dget k d with Some v => Some <$> integer v size | None => Ok None end.

Record ct_tuple := {
  source : Z; destination : Z; protocol : Z;
  source_port : option Z; destination_port : option Z;
  icmp_id : option Z; icmp_type : option Z; icmp_code : option Z }.

#[global] Instance ct_tuple_eq_dec : EqDecision ct_tuple.
Proof. solve_decision. Defined.

(** [ipaddress.IPv4Address(raw)] on packed bytes. *)
Definition packed_ip (raw : bytes) : result ev_err Z :=
  if (length raw =? 4)%nat then Ok (be_unpack raw) else Err BadAddress.

Definition tuple_data (big : bool) (raw : bytes) : result ev_err ct_tuple :=
  data ← attributes big [] raw;
  ip_raw ← key 1 data;
  ip ← attributes big [] ip_raw;
  proto_raw ← key 2 data;
  proto ← attributes big [] proto_raw;
  s ← (b ← key 1 ip; packed_ip b);
  d ← (b ← key 2 ip; packed_ip b);
  p ← (b ← key 1 proto; integer b 1);
  sp ← opt_integer 2 2 proto;
  dp ← opt_integer 3 2 proto;
  ii ← opt_integer 4 2 proto;
  it ← opt_integer 5 1 proto;
  ic ← opt_integer 6 1 proto;
  Ok {| source := s; destination := d; protocol := p; source_port := sp; destination_port := dp;
        icmp_id := ii; icmp_type := it; icmp_code := ic |}.

Inductive ev_kind := EvStart | EvUpdate | EvEnd.
#[global] Instance ev_kind_eq_dec : EqDecision ev_kind.
Proof. solve_decision. Defined.

Record counter2 := { packets : Z; octets : Z }.

Record ct_event := {
  event : ev_kind; ct_id : Z; token : option Z; original : ct_tuple; reply : ct_tuple;
  count_original : option counter2; count_reply : option counter2;
  status : option Z; timeout : option Z; zone : Z; tcp_state : option Z }.

Definition counters_at (big : bool) (k : Z) (d : list (Z * bytes)) : result ev_err (option counter2) :=
  match dget k d with
  | None => Ok None
  | Some raw =>
      nested ← attributes big [5] raw;
      p ← (b ← key 1 nested; integer b 8);
      o ← (b ← key 2 nested; integer b 8);
      Ok (Some {| packets := p; octets := o |})
  end.

(** The body of the [try] of [decode]. *)
Definition decode_event (big : bool) (kind flags : Z) (body : bytes) : result ev_err ct_event :=
  data ← attributes big [] (drop 4 body);
  let label := default [] (dget 22 data) in
  _ ← raise_if (negb ((length label =? 0)%nat || (length label =? 16)%nat)) BadLabel;
  let labels := uint big label in
  st ← opt_integer 3 4 data;
  to ← opt_integer 7 4 data;
  zn ← opt_integer 18 2 data;
  tcp ← match dget 4 data with
        | None => Ok None
        | Some info_raw =>
            info ← attributes big [] info_raw;
            match dget 1 info with
            | None => Ok None
            | Some tcp_raw => tcp ← attributes big [] tcp_raw; opt_integer 1 1 tcp
            end
        end;
  co ← counters_at big 9 data;
  cr ← counters_at big 10 data;
  id ← (b ← key 12 data; integer b 4);
  orig ← (b ← key 1 data; tuple_data big b);
  rep ← (b ← key 2 data; tuple_data big b);
  Ok {| event := if kind =? 258 then EvEnd else if negb (Z.land flags 1536 =? 0) then EvStart else EvUpdate;
        ct_id := id; token := if Z.odd labels then Some (Z.shiftr labels 1) else None;
        original := orig; reply := rep; count_original := co; count_reply := cr;
        status := st; timeout := to; zone := default 0 zn; tcp_state := tcp |}.

Definition malformed {A} (r : result ev_err A) : result ev_err A :=
  match r with Ok a => Ok a | Err e => Err (Malformed e) end.

(** What one message adds to the result. *)
Definition decode_message (big : bool) (kind flags : Z) (body : bytes) : result ev_err (list ct_event) :=
  if kind =? 4 then Err GapOverrun
  else if kind =? 2 then
    if blen body <? 4 then Err TruncatedNetlinkError
    else let code := sint32 big (slice 0 4 body) in if code =? 0 then Ok [] else Err (NetlinkError code)
  else if negb ((kind =? 256) || (kind =? 258)) then Ok []
  else if blen body <? 4 then Err TruncatedNfgen
  else if negb (byte_at body 0 =? 2) then Ok []
  else (fun e => [e]) <$> malformed (decode_event big kind flags body).

Fixpoint decode_loop (fuel : nat) (big : bool) (raw : bytes) (offset : Z) : result ev_err (list ct_event) :=
  if offset <? blen raw then
    match fuel with
    | O => Err OutOfRounds
    | S n =>
        if blen raw - offset <? 16 then Err TruncatedHeader
        else
          let size := uint big (slice offset (offset + 4) raw) in
          let kind := uint big (slice (offset + 4) (offset + 6) raw) in
          let flags := uint big (slice (offset + 6) (offset + 8) raw) in
          if (size <? 16) || (blen raw <? offset + size) then Err BadMessageLength
          else
            evs ← decode_message big kind flags (slice (offset + 16) (offset + size) raw);
            rest ← decode_loop n big raw (offset + align4 size);
            Ok (evs ++ rest)
    end
  else if offset =? blen raw then Ok [] else Err TruncatedPadding.

Definition decode (big : bool) (raw : bytes) : result ev_err (list ct_event) := decode_loop (length raw) big raw 0.

(** ** Snapshots *)

Record snap := { snap_rows : list ct_event; snap_changes : list ct_event; snap_done : bool }.

(** One message of a snapshot datagram; the padded message is decoded on its own. *)
Definition snapshot_message (big : bool) (sequence : Z) (kind flags seq size : Z) (message : bytes) (st : snap) :
    result ev_err snap :=
  if negb (Z.land flags 16 =? 0) then Err GapInterrupted
  else if seq =? sequence then
    if kind =? 3 then
      if (16 <? size) && ((size <? 20) || negb (sint32 big (slice 16 20 message) =? 0)) then Err GapFailed
      else Ok {| snap_rows := snap_rows st; snap_changes := snap_changes st; snap_done := true |}
    else
      evs ← decode big (message ++ zeros (Z.to_nat (- size mod 4)));
      Ok {| snap_rows := snap_rows st ++ evs; snap_changes := snap_changes st; snap_done := snap_done st |}
  else if seq =? 0 then
    evs ← decode big (message ++ zeros (Z.to_nat (- size mod 4)));
    Ok {| snap_rows := snap_rows st; snap_changes := snap_changes st ++ evs; snap_done := snap_done st |}
  else Err BadSequence.

Fixpoint snapshot_loop (fuel : nat) (big : bool) (sequence : Z) (raw : bytes) (offset : Z) (st : snap) : result ev_err snap :=
  if offset <? blen raw then
    match fuel with
    | O => Err OutOfRounds
    | S n =>
        if blen raw - offset <? 16 then Err TruncatedHeader
        else
          let size := uint big (slice offset (offset + 4) raw) in
          let kind := uint big (slice (offset + 4) (offset + 6) raw) in
          let flags := uint big (slice (offset + 6) (offset + 8) raw) in
          let seq := uint big (slice (offset + 8) (offset + 12) raw) in
          if (size <? 16) || (blen raw <? offset + size) then Err BadMessageLength
          else
            st ← snapshot_message big sequence kind flags seq size (slice offset (offset + size) raw) st;
            snapshot_loop n big sequence raw (offset + align4 size) st
    end
  else if offset =? blen raw then Ok st else Err TruncatedPadding.

(** [snapshot]: [None] in the input is a wait that found nothing to read, the end of
    the input is the deadline. *)
Fixpoint snapshot (big : bool) (sequence capacity : Z) (input : list (option bytes)) (st : snap) :
    result ev_err (list ct_event * list ct_event) :=
  match input with
  | [] => Err GapTimeout
  | None :: t => if snap_done st then Ok (snap_rows st, snap_changes st) else snapshot big sequence capacity t st
  | Some raw :: t =>
      st ← snapshot_loop (length raw) big sequence raw 0 st;
      if capacity <? blen (snap_rows st) + blen (snap_changes st) then Err GapCapacity
      else snapshot big sequence capacity t st
  end.

(** ** Alignment and rounds *)

Lemma align4_spec n : align4 n mod 4 = 0 /\ n <= align4 n < n + 4.
Proof.
  unfold align4. assert (Z.land (n + 3) (Z.lnot 3) = 4 * ((n + 3) / 4)) as ->.
  { change (Z.land (n + 3) (Z.lnot 3)) with (Z.land (n + 3) (Z.lnot (Z.ones 2))).
    rewrite <- Z.ldiff_land, Z.ldiff_ones_r, Z.shiftl_mul_pow2, Z.shiftr_div_pow2 by lia. change (2 ^ 2) with 4. lia. }
  split; [by rewrite Z.mul_comm, Z.mod_mul|]. pose proof (Z.div_mod (n + 3) 4). pose proof (Z.mod_pos_bound (n + 3) 4). lia.
Qed.

Lemma align4_id n : n mod 4 = 0 -> align4 n = n.
Proof.
  intros H. destruct (align4_spec n) as [H1 H2]. apply Z.mod_divide in H as [a Ha], H1 as [b Hb]; lia.
Qed.

Lemma align4_shift a n : a mod 4 = 0 -> align4 (a + n) = a + align4 n.
Proof.
  intros H. destruct (align4_spec n) as [H1 H2], (align4_spec (a + n)) as [H3 H4].
  apply Z.mod_divide in H as [x Hx], H1 as [y Hy], H3 as [z Hz]; lia.
Qed.

Lemma attributes_rounds big padding raw : forall n n' o acc, 0 <= o ->
  (Z.to_nat (blen raw - o) <= n)%nat -> (Z.to_nat (blen raw - o) <= n')%nat ->
  attributes_loop n big padding raw o acc = attributes_loop n' big padding raw o acc.
Proof.
  induction n as [|n IH]; intros n' o acc Ho H1 H2.
  - destruct n'; cbn [attributes_loop]; destruct (o <? blen raw) eqn:E; try done. bool_lia.
  - destruct n' as [|n']; cbn [attributes_loop]; (destruct (o <? blen raw) eqn:E; [|done]); [bool_lia|].
    destruct (_ <? 4); [done|]. set (size := uint _ _). set (kind := Z.land _ _).
    destruct ((size <? 4) || _) eqn:Es; [done|]. apply orb_false_iff in Es as [Es _]. zb. destruct (align4_spec size).
    destruct (_ && _); [apply IH; lia|]. destruct (dmem kind acc); [done|]. apply IH; lia.
Qed.

Lemma decode_rounds big raw : forall n n' o, 0 <= o ->
  (Z.to_nat (blen raw - o) <= n)%nat -> (Z.to_nat (blen raw - o) <= n')%nat ->
  decode_loop n big raw o = decode_loop n' big raw o.
Proof.
  induction n as [|n IH]; intros n' o Ho H1 H2.
  - destruct n'; cbn [decode_loop]; destruct (o <? blen raw) eqn:E; try done. bool_lia.
  - destruct n' as [|n']; cbn [decode_loop]; (destruct (o <? blen raw) eqn:E; [|done]); [bool_lia|].
    destruct (_ <? 16); [done|]. set (size := uint _ (slice o (o + 4) raw)).
    destruct ((size <? 16) || _) eqn:Es; [done|]. apply orb_false_iff in Es as [Es _]. zb. destruct (align4_spec size).
    destruct (decode_message _ _ _ _); cbn [mbind result_bind]; [|done]. rewrite (IH n') by lia. done.
Qed.

(** ** Encoded attributes decode to themselves *)

Definition pack (big : bool) (n : nat) (v : Z) : bytes := if big then be_pack n v else le_pack n v.

Lemma length_pack big n v : length (pack big n v) = n.
Proof. destruct big; [apply length_be_pack | apply length_le_pack]. Qed.

Lemma blen_pack big n v : blen (pack big n v) = Z.of_nat n.
Proof. unfold blen. by rewrite length_pack. Qed.

Lemma uint_pack big n v : 0 <= v < 256 ^ Z.of_nat n -> uint big (pack big n v) = v.
Proof.
  intros H. destruct big; cbn [uint pack]; [rewrite be_unpack_pack | rewrite le_unpack_pack]; by apply Z.mod_small.
Qed.

(** The kernel's layout of one attribute: length, type, value, padding to four bytes. *)
Definition nla (big : bool) (kv : Z * bytes) : bytes :=
  pack big 2 (4 + blen kv.2) ++ pack big 2 kv.1 ++ kv.2 ++ zeros (Z.to_nat (align4 (blen kv.2) - blen kv.2)).
Definition nlas (big : bool) (l : list (Z * bytes)) : bytes := concat (map (nla big) l).

Definition attr_ok (kv : Z * bytes) : Prop := 0 <= kv.1 < 16384 /\ blen kv.2 < 65532.
Definition attrs_ok (l : list (Z * bytes)) : Prop := NoDup l.*1 /\ Forall attr_ok l.

Lemma blen_zeros n : 0 <= n -> blen (zeros (Z.to_nat n)) = n.
Proof. intros. unfold blen, zeros. rewrite length_replicate. lia. Qed.

Lemma blen_nla big kv : blen (nla big kv) = 4 + align4 (blen kv.2).
Proof.
  unfold nla. destruct (align4_spec (blen kv.2)). rewrite !blen_app, !blen_pack, blen_zeros; lia.
Qed.

Lemma attributes_loop_nlas big padding l : Forall (fun kv => kv.1 ∉ padding) l -> forall n pre acc,
  attrs_ok (acc ++ l) -> (length (nlas big l) <= n)%nat ->
  attributes_loop n big padding (pre ++ nlas big l) (blen pre) acc = Ok (acc ++ l).
Proof.
  induction 1 as [|[k v] l Hpad _ IH]; intros n pre acc [Hn Hf] Hl.
  - cbn. rewrite !app_nil_r. destruct n; cbn [attributes_loop]; by rewrite Z.ltb_irrefl, Z.eqb_refl.
  - pose proof Hf as Hk. apply Forall_app in Hk as [_ Hk]. apply Forall_cons in Hk as [[Hk Hv] _]. cbn [fst snd] in *.
    unfold nlas in *. cbn [map concat] in *. set (a := nla big (k, v)) in *. set (rest := concat (map (nla big) l)) in *.
    pose proof (blen_nla big (k, v)) as Ha. fold a in Ha. cbn [snd] in Ha. pose proof (blen_nonneg rest).
    pose proof (blen_nonneg v). pose proof (blen_nonneg pre). destruct (align4_spec (blen v)) as [_ Hal].
    assert (blen (pre ++ a ++ rest) = blen pre + (4 + align4 (blen v)) + blen rest) as Hlen by (rewrite !blen_app; lia).
    destruct n as [|n]; [rewrite length_app in Hl; unfold blen in *; lia|].
    cbn [attributes_loop]. rewrite (proj2 (Z.ltb_lt (blen pre) _)) by lia. rewrite (proj2 (Z.ltb_ge _ 4)) by lia.
    assert (forall i j, 0 <= i -> j <= 4 + blen v -> slice (blen pre + i) (blen pre + j) (pre ++ a ++ rest) =
            slice i j (pack big 2 (4 + blen v) ++ pack big 2 k ++ v)) as Hs.
    { intros i j Hi Hj. rewrite slice_app_r by lia. replace (blen pre + i - blen pre) with i by lia.
      replace (blen pre + j - blen pre) with j by lia. rewrite slice_app_l by lia. unfold a, nla. cbn [fst snd].
      rewrite !app_assoc. rewrite slice_app_l by (rewrite ?(blen_app (_ ++ _)), ?blen_app, ?blen_pack; lia). by rewrite <- app_assoc. }
    assert (uint big (slice (blen pre) (blen pre + 2) (pre ++ a ++ rest)) = 4 + blen v) as Esz.
    { rewrite <- (Z.add_0_r (blen pre)) at 1. rewrite (Hs 0 2) by lia.
      rewrite (slice_head (pack big 2 (4 + blen v))) by (rewrite ?blen_pack; reflexivity).
      apply uint_pack. change (256 ^ Z.of_nat 2) with 65536. lia. }
    rewrite Esz, (Hs 2 4) by lia.
    rewrite (slice_exact (pack big 2 (4 + blen v)) (pack big 2 k) v 2 4) by (rewrite ?blen_pack; reflexivity).
    rewrite !uint_pack by (change (256 ^ Z.of_nat 2) with 65536; lia).
    rewrite (proj2 (Z.ltb_ge (4 + blen v) 4)), (proj2 (Z.ltb_ge (blen (pre ++ a ++ rest)) (blen pre + (4 + blen v)))) by lia. cbn [orb].
    replace (Z.land k 16383) with k by (change 16383 with (Z.ones 14); rewrite Z.land_ones, Z.mod_small; lia).
    rewrite bool_decide_false by exact Hpad. cbn [andb].
    assert (dmem k acc = false) as Hd.
    { unfold dmem. destruct (dget k acc) eqn:E; [|done]. rewrite fmap_app in Hn. apply NoDup_app in Hn as (_ & Hn & _).
      apply dget_In in E. destruct (Hn k); [exact (list_elem_of_fmap_2 fst _ _ E) | apply list_elem_of_here]. }
    rewrite Hd, (Hs 4 (4 + blen v)), dset_new by done || lia.
    replace (slice 4 (4 + blen v) _) with v.
    2:{ rewrite app_assoc. symmetry. replace (_ ++ v) with ((pack big 2 (4 + blen v) ++ pack big 2 k) ++ v ++ []) by (by rewrite app_nil_r).
        apply slice_exact; rewrite blen_app, !blen_pack; lia. }
    rewrite (align4_shift 4) by done. replace (blen pre + (4 + align4 (blen v))) with (blen (pre ++ a)) by (rewrite blen_app; lia).
    rewrite app_assoc. rewrite IH.
    + by rewrite <- app_assoc.
    + by rewrite <- app_assoc.
    + rewrite length_app in Hl. unfold blen in *. lia.
Qed.

Lemma attributes_nlas big l : attrs_ok l -> attributes big [] (nlas big l) = Ok l.
Proof.
  intros H. apply (attributes_loop_nlas big [] l) with (pre := []) (acc := []); [|done | lia].
  apply Forall_forall. intros kv _. apply not_elem_of_nil.
Qed.

Lemma attributes_padding big a b : attrs_ok [(1, a); (2, b)] -> attributes big [5] (nlas big [(1, a); (2, b)]) = Ok [(1, a); (2, b)].
Proof.
  intros H. apply (attributes_loop_nlas big [5] [(1, a); (2, b)]) with (pre := []) (acc := []); [|done | lia].
  apply Forall_cons. split; [|apply Forall_singleton]; cbn; by rewrite list_elem_of_singleton.
Qed.

(** ** Every loop ends *)

Definition ends {A} (r : result ev_err A) : Prop := r <> Err OutOfRounds.

Lemma ends_bind {A B} (m : result ev_err A) (k : A -> result ev_err B) :
  ends m -> (forall a, ends (k a)) -> ends (m ≫= k).
Proof. unfold ends. destruct m; cbn; [auto | congruence]. Qed.

Lemma ends_attributes big padding raw : ends (attributes big padding raw).
Proof.
  assert (forall n o acc, 0 <= o -> (Z.to_nat (blen raw - o) <= n)%nat -> ends (attributes_loop n big padding raw o acc)) as H;
    [|apply H; [lia|]; unfold blen; lia].
  unfold ends. induction n as [|n IH]; intros o acc Ho Hn; cbn [attributes_loop]; destruct (o <? blen raw) eqn:E; try (by case_ifs).
  - bool_lia.
  - destruct (_ <? 4); [done|]. set (size := uint _ _). set (kind := Z.land _ _).
    destruct ((size <? 4) || _) eqn:Es; [done|]. apply orb_false_iff in Es as [Es _]. zb. destruct (align4_spec size).
    destruct (_ && _); [apply IH; lia|]. destruct (dmem kind acc); [done|]. apply IH; lia.
Qed.

Lemma ends_fmap {A B} (f : A -> B) (m : result ev_err A) : ends m -> ends (f <$> m).
Proof. unfold ends. destruct m; cbn; congruence. Qed.

Lemma ends_integer raw n : ends (integer raw n).
Proof. unfold ends, integer. by case_ifs. Qed.

Lemma ends_key k d : ends (key k d).
Proof. unfold ends, key. by destruct (dget k d). Qed.

Lemma ends_opt_integer k n d : ends (opt_integer k n d).
Proof. unfold opt_integer. destruct (dget k d); [apply ends_fmap, ends_integer | done]. Qed.

Lemma ends_packed_ip b : ends (packed_ip b).
Proof. unfold ends, packed_ip. by case_ifs. Qed.

Lemma ends_raise_if b e : e <> OutOfRounds -> ends (raise_if b e).
Proof. unfold ends. destruct b; cbn; congruence. Qed.

Ltac ends_tac := repeat first [ progress intros | apply ends_bind | apply ends_attributes | apply ends_key | apply ends_integer
  | apply ends_opt_integer | apply ends_packed_ip | by apply ends_raise_if | by unfold ends ].

Lemma ends_tuple big raw : ends (tuple_data big raw).
Proof. unfold tuple_data. ends_tac. Qed.

Lemma ends_counters big k d : ends (counters_at big k d).
Proof. unfold counters_at. destruct (dget k d); ends_tac. Qed.

Lemma ends_decode_event big kind flags body : ends (decode_event big kind flags body).
Proof.
  unfold decode_event. repeat first [progress ends_tac | apply ends_tuple | apply ends_counters].
  destruct (dget 4 _); [|by unfold ends]. ends_tac. destruct (dget 1 _); ends_tac.
Qed.

(**  Decoding ends on every datagram: neither the message loop nor any attribute
    loop ever needs more rounds than the datagram has bytes. *)
Theorem decode_terminates big raw : decode big raw <> Err OutOfRounds /\ decode big raw <> Err (Malformed OutOfRounds).
Proof.
  assert (forall n o, 0 <= o -> (Z.to_nat (blen raw - o) <= n)%nat ->
    decode_loop n big raw o <> Err OutOfRounds /\ decode_loop n big raw o <> Err (Malformed OutOfRounds)) as H;
    [|apply H; [lia|]; unfold blen; lia].
  induction n as [|n IH]; intros o Ho Hn; cbn [decode_loop]; (destruct (o <? blen raw) eqn:E; [|by case_ifs]); [bool_lia|].
  destruct (_ <? 16); [done|]. set (size := uint _ (slice o (o + 4) raw)).
  destruct ((size <? 16) || _) eqn:Es; [done|]. apply orb_false_iff in Es as [Es _]. zb. destruct (align4_spec size).
  set (kind := uint _ _). set (flags := uint _ _). set (body := slice _ _ raw).
  assert (decode_message big kind flags body <> Err OutOfRounds /\ decode_message big kind flags body <> Err (Malformed OutOfRounds)) as [H1 H2].
  { unfold decode_message, malformed. pose proof (ends_decode_event big kind flags body) as He. unfold ends in He.
    case_ifs; try done. destruct (decode_event _ _ _ _); cbn; split; congruence. }
  destruct (decode_message big kind flags body); cbn [mbind result_bind]; [|split; congruence].
  destruct (IH (o + align4 size)) as [I1 I2]; [lia | lia|]. destruct (decode_loop n big raw _); cbn; split; congruence.
Qed.

(** ** Datagrams of several messages *)

Lemma decode_loop_shift big r1 r2 : forall n o, 0 <= o ->
  decode_loop n big (r1 ++ r2) (blen r1 + o) = decode_loop n big r2 o.
Proof.
  assert (forall i j, 0 <= i -> slice (blen r1 + i) (blen r1 + j) (r1 ++ r2) = slice i j r2) as Hs.
  { intros i j Hi. rewrite slice_app_r by lia. f_equal; lia. }
  induction n as [|n IH]; intros o Ho; cbn [decode_loop]; rewrite blen_app;
    replace (blen r1 + o <? blen r1 + blen r2) with (o <? blen r2) by (apply Bool.eq_iff_eq_true; rewrite !Z.ltb_lt; lia);
    replace (blen r1 + o =? blen r1 + blen r2) with (o =? blen r2) by (apply Bool.eq_iff_eq_true; rewrite !Z.eqb_eq; lia); [done|].
  destruct (o <? blen r2); [|done].
  replace (blen r1 + blen r2 - (blen r1 + o)) with (blen r2 - o) by lia. destruct (_ <? 16); [done|].
  rewrite <- !Z.add_assoc, !Hs by lia. set (size := uint _ (slice o (o + 4) r2)).
  replace (blen r1 + blen r2 <? blen r1 + (o + size)) with (blen r2 <? o + size)
    by (apply Bool.eq_iff_eq_true; rewrite !Z.ltb_lt; lia).
  destruct ((size <? 16) || _) eqn:Es; [done|]. apply orb_false_iff in Es as [Es _]. zb. destruct (align4_spec size).
  rewrite IH by lia. done.
Qed.

Lemma decode_loop_prefix big r1 r2 : forall n o e1,
  decode_loop n big r1 o = Ok e1 -> 0 <= o ->
  forall n', (Z.to_nat (blen (r1 ++ r2) - o) <= n')%nat ->
  decode_loop n' big (r1 ++ r2) o = (e2 ← decode big r2; Ok (e1 ++ e2)).
Proof.
  assert (forall o n', (Z.to_nat (blen (r1 ++ r2) - o) <= n')%nat -> o = blen r1 ->
    decode_loop n' big (r1 ++ r2) o = (e2 ← decode big r2; Ok ([] ++ e2))) as Hend.
  { intros o n' Hn ->. rewrite <- (Z.add_0_r (blen r1)), decode_loop_shift by lia. unfold decode.
    rewrite (decode_rounds big r2 n' (length r2)) by (unfold blen in *; rewrite ?length_app in *; lia).
    destruct (decode_loop _ _ _ _); done. }
  induction n as [|n IH]; intros o e1 H Ho n' Hn'; cbn [decode_loop] in H.
  - destruct (o <? blen r1) eqn:E; [done|]. destruct (o =? blen r1) eqn:E2; [|done]. inv_res. apply Hend; [done | bool_lia].
  - destruct (o <? blen r1) eqn:E; [|destruct (o =? blen r1) eqn:E2; [|done]; inv_res; apply Hend; [done | bool_lia]].
    destruct (_ <? 16) eqn:E16; [done|]. pose proof (blen_nonneg r2). rewrite blen_app in Hn'. zb.
    destruct n' as [|n']; [lia|]. cbn [decode_loop]. rewrite blen_app.
    rewrite (proj2 (Z.ltb_lt o (blen r1 + blen r2))), (proj2 (Z.ltb_ge (blen r1 + blen r2 - o) 16)) by lia.
    rewrite !(slice_app_l o (o + 4)), !(slice_app_l (o + 4)), !(slice_app_l (o + 6)) by lia.
    set (size := uint _ (slice o (o + 4) r1)) in *.
    destruct ((size <? 16) || _) eqn:Es; [done|]. apply orb_false_iff in Es as [Es Es2]. zb. destruct (align4_spec size).
    rewrite (proj2 (Z.ltb_ge size 16)), (proj2 (Z.ltb_ge (blen r1 + blen r2) (o + size))) by lia. cbn [orb].
    rewrite slice_app_l by lia. apply bind_ok_inv in H as (ev & -> & H). apply bind_ok_inv in H as (rest & Hr & H). inv_res.
    cbn [mbind result_bind]. rewrite (IH _ _ Hr) by (rewrite ?blen_app; lia).
    destruct (decode big r2); cbn; [|done]. by rewrite app_assoc.
Qed.

(**  A datagram that carries several messages decodes to the events of each
    message in order: what one message decodes to does not depend on what follows,
    and a fault in any later part makes the whole datagram fail. *)
Theorem decode_concat big r1 r2 e1 :
  decode big r1 = Ok e1 -> decode big (r1 ++ r2) = (e2 ← decode big r2; Ok (e1 ++ e2)).
Proof.
  intros H. unfold decode at 1. eapply decode_loop_prefix; [exact H | lia|]. unfold blen. lia.
Qed.

(** ** Encoded events decode to themselves *)

Definition opt_attr (k : Z) (v : option bytes) : list (Z * bytes) := match v with Some v => [(k, v)] | None => [] end.

Definition tuple_attrs (big : bool) (t : ct_tuple) : list (Z * bytes) :=
  [(1, nlas big [(1, be_pack 4 (source t)); (2, be_pack 4 (destination t))]);
   (2, nlas big ([(1, be_pack 1 (protocol t))] ++ opt_attr 2 (be_pack 2 <$> source_port t)
        ++ opt_attr 3 (be_pack 2 <$> destination_port t) ++ opt_attr 4 (be_pack 2 <$> icmp_id t)
        ++ opt_attr 5 (be_pack 1 <$> icmp_type t) ++ opt_attr 6 (be_pack 1 <$> icmp_code t)))].

Definition counter_attrs (big : bool) (c : counter2) : bytes := nlas big [(1, be_pack 8 (packets c)); (2, be_pack 8 (octets c))].

Definition event_attrs (big : bool) (e : ct_event) : list (Z * bytes) :=
  [(1, nlas big (tuple_attrs big (original e))); (2, nlas big (tuple_attrs big (reply e)))]
  ++ opt_attr 3 (be_pack 4 <$> status e)
  ++ opt_attr 4 ((fun s => nlas big [(1, nlas big [(1, be_pack 1 s)])]) <$> tcp_state e)
  ++ opt_attr 7 (be_pack 4 <$> timeout e)
  ++ opt_attr 9 (counter_attrs big <$> count_original e) ++ opt_attr 10 (counter_attrs big <$> count_reply e)
  ++ [(12, be_pack 4 (ct_id e)); (18, be_pack 2 (zone e))]
  ++ opt_attr 22 ((fun t => pack big 16 (2 * t + 1)) <$> token e).

(** The kernel's message for an event: NEW with the create flags, NEW without them or DESTROY. *)
Definition encode_event (big : bool) (e : ct_event) : bytes :=
  let body := [2; 0; 0; 0] ++ nlas big (event_attrs big e) in
  pack big 4 (16 + blen body) ++ pack big 2 (match event e with EvEnd => 258 | _ => 256 end)
  ++ pack big 2 (match event e with EvStart => 1536 | _ => 0 end) ++ zeros 8 ++ body.

Definition fits (n : nat) (v : Z) : Prop := 0 <= v < 256 ^ Z.of_nat n.
Definition opt_fits (n : nat) (v : option Z) : Prop := match v with Some v => fits n v | None => True end.

Record tuple_wf (t : ct_tuple) : Prop := {
  tw_src : fits 4 (source t); tw_dst : fits 4 (destination t); tw_proto : fits 1 (protocol t);
  tw_sport : opt_fits 2 (source_port t); tw_dport : opt_fits 2 (destination_port t);
  tw_id : opt_fits 2 (icmp_id t); tw_type : opt_fits 1 (icmp_type t); tw_code : opt_fits 1 (icmp_code t) }.

Definition counter_wf (c : option counter2) : Prop :=
  match c with Some c => fits 8 (packets c) /\ fits 8 (octets c) | None => True end.

Record event_wf (e : ct_event) : Prop := {
  ew_id : fits 4 (ct_id e); ew_orig : tuple_wf (original e); ew_reply : tuple_wf (reply e);
  ew_co : counter_wf (count_original e); ew_cr : counter_wf (count_reply e);
  ew_status : opt_fits 4 (status e); ew_timeout : opt_fits 4 (timeout e);
  ew_zone : fits 2 (zone e); ew_tcp : opt_fits 1 (tcp_state e);
  ew_token : match token e with Some t => 0 <= t < 2 ^ 127 | None => True end }.

Lemma integer_pack n v : fits n v -> integer (be_pack n v) n = Ok v.
Proof. intros H. unfold integer. rewrite length_be_pack, Nat.eqb_refl, be_unpack_pack. by rewrite Z.mod_small. Qed.

Lemma packed_ip_pack v : fits 4 v -> packed_ip (be_pack 4 v) = Ok v.
Proof. intros H. unfold packed_ip. rewrite length_be_pack, be_unpack_pack. by rewrite Z.mod_small. Qed.

Lemma dget_opt_attr k k' v : dget k (opt_attr k' v) = if decide (k = k') then v else None.
Proof. destruct v; cbn; by case_decide. Qed.

Lemma opt_integer_pack k n d v :
  dget k d = be_pack n <$> v -> opt_fits n v -> opt_integer k n d = Ok v.
Proof.
  intros Hg Hf. unfold opt_integer. rewrite Hg. destruct v as [v|]; [|done].
  cbn [fmap option_fmap option_map]. by rewrite integer_pack.
Qed.

Lemma blen_nlas_cons big kv l : blen (nlas big (kv :: l)) = 4 + align4 (blen kv.2) + blen (nlas big l).
Proof. unfold nlas. cbn [map concat]. by rewrite blen_app, blen_nla. Qed.

Lemma blen_nlas_app big l1 l2 : blen (nlas big (l1 ++ l2)) = blen (nlas big l1) + blen (nlas big l2).
Proof. unfold nlas. by rewrite List.map_app, concat_app, blen_app. Qed.

Lemma blen_nlas_le big l n :
  Forall (fun kv => blen kv.2 <= n) l -> blen (nlas big l) <= (8 + n) * Z.of_nat (length l).
Proof.
  induction 1 as [|kv l Hk _ IH]; [change (0 <= (8 + n) * 0); lia|]. rewrite blen_nlas_cons. destruct (align4_spec (blen kv.2)). cbn [length]. lia.
Qed.

Lemma Forall_opt_attr (P : Z * bytes -> Prop) k v : (forall b, v = Some b -> P (k, b)) -> Forall P (opt_attr k v).
Proof. intros H. destruct v; [apply Forall_singleton; by apply H | constructor]. Qed.

Lemma length_opt_attr k v : (length (opt_attr k v) <= 1)%nat.
Proof. destruct v; cbn; lia. Qed.

Lemma Forall_opt_pack (P : Z * bytes -> Prop) k n o : (forall v, P (k, be_pack n v)) -> Forall P (opt_attr k (be_pack n <$> o)).
Proof. intros H. apply Forall_opt_attr. intros b Hb. destruct o; [|done]. injection Hb as <-. apply H. Qed.

Ltac blen_small := cbn [fst snd]; unfold blen; rewrite ?length_be_pack, ?length_pack; lia.

(** The sizes of the nested encodings. *)
Lemma proto_attrs_ok t : attrs_ok ([(1, be_pack 1 (protocol t))] ++ opt_attr 2 (be_pack 2 <$> source_port t)
        ++ opt_attr 3 (be_pack 2 <$> destination_port t) ++ opt_attr 4 (be_pack 2 <$> icmp_id t)
        ++ opt_attr 5 (be_pack 1 <$> icmp_type t) ++ opt_attr 6 (be_pack 1 <$> icmp_code t)).
Proof.
  split.
  - destruct (source_port t), (destination_port t), (icmp_id t), (icmp_type t), (icmp_code t);
      cbn [fmap list_fmap app fst opt_attr option_fmap option_map]; apply (bool_decide_unpack _); reflexivity.
  - rewrite !Forall_app. split_and!; [apply Forall_singleton | | | | |]; try (apply Forall_opt_pack; intros v); split; blen_small.
Qed.

Lemma blen_proto big t : blen (nlas big ([(1, be_pack 1 (protocol t))] ++ opt_attr 2 (be_pack 2 <$> source_port t)
        ++ opt_attr 3 (be_pack 2 <$> destination_port t) ++ opt_attr 4 (be_pack 2 <$> icmp_id t)
        ++ opt_attr 5 (be_pack 1 <$> icmp_type t) ++ opt_attr 6 (be_pack 1 <$> icmp_code t))) <= 60.
Proof.
  etrans; [apply (blen_nlas_le _ _ 2)|].
  - rewrite !Forall_app. split_and!; [apply Forall_singleton | | | | |]; try (apply Forall_opt_pack; intros v); blen_small.
  - rewrite !length_app. cbn [length]. pose proof (length_opt_attr 2 (be_pack 2 <$> source_port t)).
    pose proof (length_opt_attr 3 (be_pack 2 <$> destination_port t)). pose proof (length_opt_attr 4 (be_pack 2 <$> icmp_id t)).
    pose proof (length_opt_attr 5 (be_pack 1 <$> icmp_type t)). pose proof (length_opt_attr 6 (be_pack 1 <$> icmp_code t)). lia.
Qed.

Lemma pair_attrs_ok a b : blen a < 65532 -> blen b < 65532 -> attrs_ok [(1, a); (2, b)].
Proof.
  intros Ha Hb. split; [apply (bool_decide_unpack _); reflexivity|].
  apply Forall_cons. split; [|apply Forall_singleton]; split; cbn [fst snd]; lia.
Qed.

Lemma single_attr_ok a : blen a < 65532 -> attrs_ok [(1, a)].
Proof. intros Ha. split; [apply (bool_decide_unpack _); reflexivity|]. apply Forall_singleton. split; cbn [fst snd]; lia. Qed.

Lemma blen_pair big a b n : blen a <= n -> blen b <= n -> blen (nlas big [(1, a); (2, b)]) <= 16 + 2 * n.
Proof.
  intros Ha Hb. etrans; [apply (blen_nlas_le _ _ n)|]; [|cbn [length]; lia].
  apply Forall_cons. split; [done | by apply Forall_singleton].
Qed.

Lemma blen_be_pack n v : blen (be_pack n v) = Z.of_nat n.
Proof. unfold blen. by rewrite length_be_pack. Qed.

Lemma blen_tuple_attrs big t : blen (nlas big (tuple_attrs big t)) <= 136.
Proof.
  unfold tuple_attrs. apply (blen_pair _ _ _ 60); [|apply blen_proto].
  etrans; [apply (blen_pair _ _ _ 4); rewrite blen_be_pack; lia | lia].
Qed.

Lemma tuple_decodes big t : tuple_wf t -> tuple_data big (nlas big (tuple_attrs big t)) = Ok t.
Proof.
  intros [W1 W2 W3 W4 W5 W6 W7 W8]. unfold tuple_data, tuple_attrs. pose proof (blen_proto big t) as Hp.
  assert (blen (nlas big [(1, be_pack 4 (source t)); (2, be_pack 4 (destination t))]) <= 24) as Hi
    by (etrans; [apply (blen_pair _ _ _ 4); rewrite blen_be_pack; lia | lia]).
  rewrite attributes_nlas by (apply pair_attrs_ok; lia). cbn [mbind result_bind].
  change (key 1 [(1, ?a); (2, ?b)]) with (@Ok ev_err bytes a). change (key 2 [(1, ?a); (2, ?b)]) with (@Ok ev_err bytes b).
  cbn [mbind result_bind].
  rewrite (attributes_nlas big [(1, be_pack 4 (source t)); (2, be_pack 4 (destination t))])
    by (apply pair_attrs_ok; rewrite blen_be_pack; lia). cbn [mbind result_bind].
  rewrite attributes_nlas by apply proto_attrs_ok. cbn [mbind result_bind].
  change (key 1 [(1, ?a); (2, ?b)]) with (@Ok ev_err bytes a). change (key 2 [(1, ?a); (2, ?b)]) with (@Ok ev_err bytes b).
  cbn [mbind result_bind]. rewrite !packed_ip_pack by done. cbn [mbind result_bind].
  set (d := [(1, be_pack 1 (protocol t))] ++ _).
  assert (key 1 d = Ok (be_pack 1 (protocol t))) as -> by reflexivity. cbn [mbind result_bind]. rewrite integer_pack by done.
  cbn [mbind result_bind].
  assert (dget 2 d = be_pack 2 <$> source_port t /\ dget 3 d = be_pack 2 <$> destination_port t /\
    dget 4 d = be_pack 2 <$> icmp_id t /\ dget 5 d = be_pack 1 <$> icmp_type t /\ dget 6 d = be_pack 1 <$> icmp_code t)
    as (D2 & D3 & D4 & D5 & D6).
  { unfold d. destruct (source_port t), (destination_port t), (icmp_id t), (icmp_type t), (icmp_code t); split_and!; reflexivity. }
  rewrite (opt_integer_pack _ _ _ _ D2), (opt_integer_pack _ _ _ _ D3), (opt_integer_pack _ _ _ _ D4),
    (opt_integer_pack _ _ _ _ D5), (opt_integer_pack _ _ _ _ D6) by done. cbn [mbind result_bind]. by destruct t.
Qed.

Lemma blen_opt_le big k v n : (forall b, v = Some b -> blen b <= n) -> blen (nlas big (opt_attr k v)) <= 8 + n \/ v = None.
Proof.
  intros H. destruct v as [b|]; [left | by right]. cbn [opt_attr]. etrans; [apply (blen_nlas_le _ _ n)|]; [|cbn [length]; lia].
  apply Forall_singleton. by apply H.
Qed.

Lemma blen_counter big c : blen (counter_attrs big c) <= 32.
Proof. unfold counter_attrs. etrans; [apply (blen_pair _ _ _ 8); rewrite blen_be_pack; lia | lia]. Qed.

Lemma blen_tcp big s : blen (nlas big [(1, nlas big [(1, be_pack 1 s)])]) <= 17.
Proof.
  etrans; [apply (blen_nlas_le _ _ 9)|]; [|cbn [length]; lia]. apply Forall_singleton. cbn [snd].
  etrans; [apply (blen_nlas_le _ _ 1)|]; [|cbn [length]; lia]. apply Forall_singleton. cbn [snd]. rewrite blen_be_pack. lia.
Qed.

Lemma Forall_opt_map {A} (P : Z * bytes -> Prop) k (f : A -> bytes) o : (forall v, P (k, f v)) -> Forall P (opt_attr k (f <$> o)).
Proof. intros H. apply Forall_opt_attr. intros b Hb. destruct o; [|done]. injection Hb as <-. apply H. Qed.

(** Every attribute of an event is small. *)
Lemma event_attrs_small big e : Forall (fun kv => 0 <= kv.1 < 16384 /\ blen kv.2 <= 136) (event_attrs big e).
Proof.
  unfold event_attrs. rewrite !Forall_app. split_and!.
  - apply Forall_cons. split; [|apply Forall_singleton]; (split; [cbn [fst]; lia | apply blen_tuple_attrs]).
  - apply Forall_opt_map. intros v. split; blen_small.
  - apply Forall_opt_map. intros v. split; [cbn [fst]; lia|]. cbn [snd]. pose proof (blen_tcp big v). lia.
  - apply Forall_opt_map. intros v. split; blen_small.
  - apply Forall_opt_map. intros v. split; [cbn [fst]; lia|]. cbn [snd]. pose proof (blen_counter big v). lia.
  - apply Forall_opt_map. intros v. split; [cbn [fst]; lia|]. cbn [snd]. pose proof (blen_counter big v). lia.
  - apply Forall_cons. split; [|apply Forall_singleton]; split; blen_small.
  - apply Forall_opt_map. intros v. split; blen_small.
Qed.

Lemma event_attrs_ok big e : attrs_ok (event_attrs big e) /\ blen (nlas big (event_attrs big e)) <= 1440.
Proof.
  pose proof (event_attrs_small big e) as Hs. split; [split|].
  - unfold event_attrs. destruct (status e), (tcp_state e), (timeout e), (count_original e), (count_reply e), (token e);
      cbn [fmap list_fmap app fst opt_attr option_fmap option_map]; apply (bool_decide_unpack _); reflexivity.
  - eapply Forall_impl; [exact Hs|]. cbn. unfold attr_ok. lia.
  - etrans; [apply (blen_nlas_le _ _ 136); eapply Forall_impl; [exact Hs | cbn; tauto]|].
    assert (length (event_attrs big e) <= 10)%nat as Hl; [|lia].
    unfold event_attrs. destruct (status e), (tcp_state e), (timeout e), (count_original e), (count_reply e), (token e); cbn; lia.
Qed.

Lemma counters_decode big k d c : dget k d = counter_attrs big <$> c -> counter_wf c -> counters_at big k d = Ok c.
Proof.
  intros Hg Hw. unfold counters_at. rewrite Hg. destruct c as [c|]; [|done]. cbn [fmap option_fmap option_map]. destruct Hw as [W1 W2].
  unfold counter_attrs. rewrite attributes_padding by (apply pair_attrs_ok; rewrite blen_be_pack; lia). cbn [mbind result_bind].
  change (key 1 [(1, ?a); (2, ?b)]) with (@Ok ev_err bytes a). change (key 2 [(1, ?a); (2, ?b)]) with (@Ok ev_err bytes b).
  cbn [mbind result_bind]. rewrite !integer_pack by done. by destruct c.
Qed.

Lemma event_lookup big e :
  let d := event_attrs big e in
  dget 1 d = Some (nlas big (tuple_attrs big (original e))) /\ dget 2 d = Some (nlas big (tuple_attrs big (reply e))) /\
  dget 3 d = be_pack 4 <$> status e /\
  dget 4 d = (fun s => nlas big [(1, nlas big [(1, be_pack 1 s)])]) <$> tcp_state e /\
  dget 7 d = be_pack 4 <$> timeout e /\ dget 9 d = counter_attrs big <$> count_original e /\
  dget 10 d = counter_attrs big <$> count_reply e /\ dget 12 d = Some (be_pack 4 (ct_id e)) /\
  dget 18 d = be_pack 2 <$> Some (zone e) /\ dget 22 d = (fun t => pack big 16 (2 * t + 1)) <$> token e.
Proof.
  unfold event_attrs. cbv zeta. generalize (nlas big (tuple_attrs big (original e))) (nlas big (tuple_attrs big (reply e))).
  intros c d.
  destruct (status e), (tcp_state e), (timeout e), (count_original e), (count_reply e), (token e);
    cbn [fmap option_fmap option_map opt_attr app]; split_and!; reflexivity.
Qed.

Lemma label_decodes big t : (match t with Some t => 0 <= t < 2 ^ 127 | None => True end) ->
  let label := default [] ((fun t => pack big 16 (2 * t + 1)) <$> t) in
  (length label =? 0)%nat || (length label =? 16)%nat = true /\
  (if Z.odd (uint big label) then Some (Z.shiftr (uint big label) 1) else None) = t.
Proof.
  intros Ht. destruct t as [t|]; cbn [fmap option_fmap option_map default from_option].
  - unfold id. rewrite length_pack. split; [reflexivity|].
    rewrite uint_pack by (change (256 ^ Z.of_nat 16) with (2 * 2 ^ 127); lia).
    replace (Z.odd (2 * t + 1)) with true by (by rewrite Z.add_comm, Z.odd_add_mul_2).
    rewrite Z.shiftr_div_pow2 by lia. change (2 ^ 1) with 2. f_equal. rewrite Z.mul_comm, Z.div_add_l by lia. change (1 / 2) with 0. lia.
  - destruct big; split; reflexivity.
Qed.

Definition ev_code (k : ev_kind) : Z := match k with EvEnd => 258 | _ => 256 end.
Definition ev_flags (k : ev_kind) : Z := match k with EvStart => 1536 | _ => 0 end.

Lemma decode_event_attrs big e : event_wf e ->
  decode_event big (ev_code (event e)) (ev_flags (event e)) ([2; 0; 0; 0] ++ nlas big (event_attrs big e)) = Ok e.
Proof.
  intros [W1 W2 W3 W4 W5 W6 W7 W8 W9 W10]. unfold decode_event.
  change (drop 4 ([2; 0; 0; 0] ++ ?l)) with l. destruct (event_attrs_ok big e) as [Ha _].
  rewrite attributes_nlas by done. cbn [mbind result_bind].
  destruct (event_lookup big e) as (D1 & D2 & D3 & D4 & D7 & D9 & D10 & D12 & D18 & D22). cbv zeta in *.
  rewrite D22, D4. destruct (label_decodes big (token e) W10) as [-> L2]. cbv zeta in L2. rewrite L2. cbn [negb raise_if mbind result_bind].
  rewrite (opt_integer_pack _ _ _ _ D3), (opt_integer_pack _ _ _ _ D7), (opt_integer_pack _ _ _ _ D18) by done.
  cbn [mbind result_bind].
  assert (match (fun s => nlas big [(1, nlas big [(1, be_pack 1 s)])]) <$> tcp_state e with
          | None => Ok None
          | Some info_raw => info ← attributes big [] info_raw;
              match dget 1 info with None => Ok None | Some tcp_raw => tcp ← attributes big [] tcp_raw; opt_integer 1 1 tcp end
          end = Ok (tcp_state e)) as ->.
  { destruct (tcp_state e) as [s|]; [|done]. cbn [fmap option_fmap option_map].
    assert (blen (nlas big [(1, be_pack 1 s)]) <= 9) as Hb
      by (etrans; [apply (blen_nlas_le _ _ 1); apply Forall_singleton; cbn [snd]; by rewrite blen_be_pack | cbn [length]; lia]).
    rewrite attributes_nlas by (apply single_attr_ok; lia). cbn [mbind result_bind].
    change (dget 1 [(1, ?a)]) with (Some a). cbv iota.
    rewrite attributes_nlas by (apply single_attr_ok; rewrite blen_be_pack; lia). cbn [mbind result_bind].
    by apply (opt_integer_pack 1 1 _ (Some s)). }
  cbn [mbind result_bind]. rewrite (counters_decode _ _ _ _ D9), (counters_decode _ _ _ _ D10) by done. cbn [mbind result_bind].
  unfold key. rewrite D12. cbn [mbind result_bind]. rewrite integer_pack by done. cbn [mbind result_bind].
  rewrite D1, D2. cbn [mbind result_bind]. rewrite !tuple_decodes by done. cbn [mbind result_bind default from_option].
  unfold id. destruct e as [[| |] ? ? ? ? ? ? ? ? ? ?]; reflexivity.
Qed.

Lemma nlas_aligned big l : blen (nlas big l) mod 4 = 0.
Proof.
  induction l as [|kv l IH]; [done|]. rewrite blen_nlas_cons. destruct (align4_spec (blen kv.2)) as [H _].
  rewrite Zplus_mod, IH, (Zplus_mod 4), H. reflexivity.
Qed.

(**  A conntrack message decodes to exactly the event it was built from, in
    either byte order: identifiers, both tuples with ports or ICMP fields, counters,
    status, timeout, zone, TCP state and the 127-bit token in the label. *)
Theorem event_roundtrip big e : event_wf e -> decode big (encode_event big e) = Ok [e].
Proof.
  intros Hw. destruct (event_attrs_ok big e) as [_ Hb].
  set (body := [2; 0; 0; 0] ++ nlas big (event_attrs big e)).
  assert (20 <= 16 + blen body < 2000 /\ (16 + blen body) mod 4 = 0) as [Hl Hm].
  { unfold body. rewrite blen_app. change (blen [2; 0; 0; 0]) with 4. pose proof (blen_nonneg (nlas big (event_attrs big e))).
    split; [lia|]. rewrite (Z.add_assoc 16 4), <- Zplus_mod_idemp_l. change ((16 + 4) mod 4) with 0. rewrite Z.add_0_l. apply nlas_aligned. }
  set (h := pack big 4 (16 + blen body) ++ pack big 2 (ev_code (event e)) ++ pack big 2 (ev_flags (event e)) ++ zeros 8).
  assert (encode_event big e = h ++ body) as Ee by (unfold encode_event, h, ev_code, ev_flags, body; by rewrite <- !app_assoc).
  assert (blen h = 16) as Hh by (unfold h; rewrite !blen_app, !blen_pack; reflexivity).
  rewrite Ee. unfold decode. destruct (length (h ++ body)) as [|n] eqn:El; [unfold blen in Hh; rewrite length_app in El; lia|].
  cbn [decode_loop]. rewrite blen_app, Hh. rewrite (proj2 (Z.ltb_lt 0 _)), (proj2 (Z.ltb_ge _ 16)) by lia.
  change (0 + 4) with 4. change (0 + 6) with 6. change (0 + 8) with 8. change (0 + 16) with 16. change (4 + 2) with 6. change (6 + 2) with 8.
  rewrite !(slice_app_l _ _ h body) by lia.
  assert (slice 0 4 h = pack big 4 (16 + blen body) /\ slice 4 6 h = pack big 2 (ev_code (event e)) /\ slice 6 8 h = pack big 2 (ev_flags (event e)))
    as (-> & -> & ->).
  { unfold h. split_and!.
    - apply slice_head; rewrite ?blen_pack; done.
    - apply slice_exact; rewrite ?blen_pack; done.
    - rewrite app_assoc. apply slice_exact; rewrite ?blen_app, ?blen_pack; done. }
  rewrite !uint_pack by (unfold ev_code, ev_flags; change (256 ^ Z.of_nat 4) with 4294967296; change (256 ^ Z.of_nat 2) with 65536; destruct (event e); lia).
  rewrite (proj2 (Z.ltb_ge (16 + blen body) 16)), (proj2 (Z.ltb_ge _ (0 + (16 + blen body)))) by lia. cbn [orb].
  replace (slice 16 (0 + (16 + blen body)) (h ++ body)) with body.
  2:{ symmetry. replace (h ++ body) with (h ++ body ++ []) by (by rewrite app_nil_r). apply slice_exact; lia. }
  rewrite (align4_id _ Hm), Z.add_0_l.
  assert (decode_message big (ev_code (event e)) (ev_flags (event e)) body = Ok [e]) as ->.
  { unfold decode_message. pose proof (decode_event_attrs big e Hw) as He. fold body in He.
    rewrite (proj2 (Z.ltb_ge (blen body) 4)) by lia. change (byte_at body 0) with 2. rewrite He.
    destruct (event e); reflexivity. }
  cbn [mbind result_bind].
  assert (decode_loop n big (h ++ body) (16 + blen body) = Ok []) as ->; [|done].
  destruct n; cbn [decode_loop]; by rewrite blen_app, Hh, Z.ltb_irrefl, Z.eqb_refl.
Qed.

Definition sample_event : ct_event :=
  {| event := EvEnd; ct_id := 3735928559; token := Some 4660;
     original := {| source := 3232253284; destination := 167772161; protocol := 6; source_port := Some 443; destination_port := Some 51000;
                    icmp_id := None; icmp_type := None; icmp_code := None |};
     reply := {| source := 167772161; destination := 3232253284; protocol := 6; source_port := Some 51000; destination_port := Some 443;
                 icmp_id := None; icmp_type := None; icmp_code := None |};
     count_original := Some {| packets := 10; octets := 4000 |}; count_reply := Some {| packets := 9; octets := 123456 |};
     status := Some 14; timeout := None; zone := 3; tcp_state := Some 7 |}.

Lemma sample_event_wf : event_wf sample_event.
Proof. split; cbn; unfold fits; try lia; split; cbn; unfold fits; lia. Qed.

Lemma event_roundtrip_witness : decode true (encode_event true sample_event) = Ok [sample_event].
Proof. apply event_roundtrip. exact sample_event_wf. Defined.

Lemma decode_concat_witness :
  decode false (encode_event false sample_event ++ [1; 2; 3]) = (e2 ← decode false [1; 2; 3]; Ok ([sample_event] ++ e2)) /\
  decode false [1; 2; 3] = Err TruncatedHeader.
Proof.
  split; [|reflexivity]. apply decode_concat. vm_compute. reflexivity.
Defined.
