(* ===== verification/SessionJournal.v ===== *)
(** * The session journal and its collector (opt/ffn_session_events.py)

    [Journal] keeps the rule generations, the open sessions and the accounting events
    in SQLite; every public operation is one transaction, so it either returns the new
    database or leaves the old one.  A session's identity is the boot, the conntrack id
    and the original tuple (the code stores their JSON text).  [Collector.run] drives
    it: [collect] is one round of its loop on what the gate, the snapshot and the
    socket returned.  Times are integers. *)

From S2P Require Import Prelude PyStr PyDict NetlinkEvents.

Record rule := { log_start : bool; log_end : bool; meta : pystr }.
#[global] Instance rule_eq_dec : EqDecision rule.
Proof. solve_decision. Defined.

Abbreviation identity := (pystr * Z * ct_tuple)%type (only parsing).

Inductive label := LStart | LUpdate | LEnd | LInterrupted | LRecovered.
#[global] Instance label_eq_dec : EqDecision label.
Proof. solve_decision. Defined.

(** The dictionary stored in [data]. *)
Record record_t := {
  r_label : label; r_row : ct_event; r_boot : pystr; r_rule : rule;
  r_started : option Z; r_ended : option Z; r_duration : option Z;
  r_gap : bool; r_reason : option pystr; r_complete : bool }.

Record session := { s_token : Z; s_started : option Z; s_updated : Z; s_data : record_t }.
Record ev_row := { ev_observed : Z; ev_label : label; ev_token : Z; ev_data : record_t }.

Record db := {
  rules : list (Z * rule);
  sessions : list (identity * session);
  events : list ev_row;
  health : option pystr }.

Inductive jerr :=
| TokenReused | NoRule | IdentityChanged | CountersMissing
| SnapshotToken | SnapshotNoRule | SnapshotIdentity.

Definition empty_db : db := {| rules := []; sessions := []; events := []; health := None |}.

Definition with_sessions (d : db) (s : list (identity * session)) : db :=
  {| rules := rules d; sessions := s; events := events d; health := health d |}.
Definition with_health (d : db) (h : option pystr) : db :=
  {| rules := rules d; sessions := sessions d; events := events d; health := h |}.
(** [INSERT INTO events]. *)
Definition log (now : Z) (l : label) (tok : Z) (r : record_t) (d : db) : db :=
  {| rules := rules d; sessions := sessions d;
     events := events d ++ [{| ev_observed := now; ev_label := l; ev_token := tok; ev_data := r |}]; health := health d |}.
(** [INSERT OR REPLACE INTO sessions]: the old row goes, the new one is last. *)
Definition put_session (k : identity) (s : session) (d : db) : db := with_sessions d (ddel k (sessions d) ++ [(k, s)]).

(** A statement sequence under [with self.db]: an exception rolls back. *)
Definition transact (f : db -> result jerr db) (d : db) : db * option jerr :=
  match f d with Ok d' => (d', None) | Err e => (d, Some e) end.

(** ** Journal *)

(** One rule of [register]. *)
Definition register_one (d : db) (tr : Z * rule) : result jerr db :=
  match dget tr.1 (rules d) with
  | Some old => if decide (old = tr.2) then Ok d else Err TokenReused
  | None => Ok {| rules := rules d ++ [tr]; sessions := sessions d; events := events d; health := health d |}
  end.
Definition register (new : list (Z * rule)) (d : db) : db * option jerr := transact (fun d => foldM_res register_one d new) d.

Definition identity_of (boot : pystr) (row : ct_event) : identity := (boot, ct_id row, original row).
Definition row_label (k : ev_kind) : label := match k with EvStart => LStart | EvUpdate => LUpdate | EvEnd => LEnd end.
Definition with_token (row : ct_event) (t : Z) : ct_event :=
  {| event := event row; ct_id := ct_id row; token := Some t; original := original row; reply := reply row;
     count_original := count_original row; count_reply := count_reply row; status := status row;
     timeout := timeout row; zone := zone row; tcp_state := tcp_state row |}.
Definition both_counters (row : ct_event) : bool :=
  match count_original row, count_reply row with Some _, Some _ => true | _, _ => false end.

(** [Journal._record] once the row's token is known. *)
Definition record_known (boot : pystr) (now : Z) (row : ct_event) (tok : Z) (old : option session) (d : db) : result jerr db :=
  match dget tok (rules d) with
  | None => Err NoRule
  | Some rl =>
      _ ← raise_if (match old with Some o => negb (s_token o =? tok) | None => false end) IdentityChanged;
      let ending := bool_decide (event row = EvEnd) in
      let first := match old with Some _ => false | None => negb ending end in
      let started := match old with Some o => s_started o | None => if first then Some now else None end in
      let gap := match old with Some o => r_gap (s_data o) | None => false end in
      let ev := {| r_label := row_label (event row); r_row := row; r_boot := boot; r_rule := rl; r_started := started;
                   r_ended := if ending then Some now else None;
                   r_duration := match started with Some t => if ending then Some (Z.max 0 (now - t)) else None | None => None end;
                   r_gap := gap; r_reason := None; r_complete := true |} in
      let k := identity_of boot row in
      d ← (if ending then
             _ ← raise_if (log_end rl && negb (both_counters row)) CountersMissing;
             Ok (with_sessions d (ddel k (sessions d)))
           else Ok (put_session k {| s_token := tok; s_started := started; s_updated := now; s_data := ev |} d));
      if (ending && log_end rl) || (first && log_start rl) then
        let ev' := if first
                   then {| r_label := LStart; r_row := row; r_boot := boot; r_rule := rl; r_started := started;
                           r_ended := r_ended ev; r_duration := r_duration ev; r_gap := gap; r_reason := None; r_complete := true |}
                   else ev in
        Ok (log now (r_label ev') tok ev' d)
      else Ok d
  end.

(** [Journal._record]. *)
Definition _record (boot : pystr) (d : db) (nr : Z * ct_event) : result jerr db :=
  let '(now, row) := nr in
  let old := dget (identity_of boot row) (sessions d) in
  match token row with
  | Some t => record_known boot now row t old d
  | None =>
      match old with
      | None => Ok d
      | Some o => record_known boot now (with_token row (s_token o)) (s_token o) old d
      end
  end.

(** [Journal.record_batch]; [Journal.record] is a batch of one. *)
Definition record_batch (boot : pystr) (rows : list (Z * ct_event)) (d : db) : db * option jerr :=
  transact (fun d => foldM_res (_record boot) d rows) d.

(** ** Reconciliation with a kernel snapshot *)

Definition max_counter (old new : option counter2) : option counter2 :=
  match old, new with
  | Some o, Some n => Some {| packets := Z.max (packets o) (packets n); octets := Z.max (octets o) (octets n) |}
  | Some o, None => Some {| packets := Z.max (packets o) 0; octets := Z.max (octets o) 0 |}
  | None, n => n
  end.
Definition with_counters (row : ct_event) (co cr : option counter2) : ct_event :=
  {| event := event row; ct_id := ct_id row; token := token row; original := original row; reply := reply row;
     count_original := co; count_reply := cr; status := status row; timeout := timeout row; zone := zone row;
     tcp_state := tcp_state row |}.

(** The live sessions of the dump. *)
Definition live_rows (boot : pystr) (rows : list ct_event) : list (identity * ct_event) :=
  fold_left (fun live row => match token row with Some _ => dset (identity_of boot row) row live | None => live end) rows [].

(** One interleaved change. *)
Definition apply_change (boot : pystr) (live : list (identity * ct_event)) (row : ct_event) :
    result jerr (list (identity * ct_event)) :=
  let k := identity_of boot row in
  if decide (event row = EvEnd) then Ok (ddel k live)
  else match token row with
       | None => Ok live
       | Some _ =>
           match dget k live with
           | None => Ok (dset k row live)
           | Some old =>
               if decide (token old = token row)
               then Ok (dset k (with_counters row (max_counter (count_original old) (count_original row))
                                                   (max_counter (count_reply old) (count_reply row))) live)
               else Err SnapshotToken
           end
       end.

Definition interrupted (reason : pystr) (r : record_t) : record_t :=
  {| r_label := LInterrupted; r_row := r_row r; r_boot := r_boot r; r_rule := r_rule r; r_started := r_started r;
     r_ended := None; r_duration := None; r_gap := r_gap r; r_reason := Some reason; r_complete := false |}.

(** An open session that the kernel no longer has. *)
Definition interrupt (now : Z) (reason : pystr) (d : db) (s : session) : db :=
  let r := interrupted reason (s_data s) in
  if log_end (r_rule r) then log now LInterrupted (s_token s) r d else d.

(** A session the kernel has. *)
Definition restore (boot : pystr) (now : Z) (previous : list (identity * session)) (d : db) (kr : identity * ct_event) : result jerr db :=
  let '(k, row) := kr in
  let tok := default 0 (token row) in
  match dget tok (rules d) with
  | None => Err SnapshotNoRule
  | Some rl =>
      let old := dget k previous in
      _ ← raise_if (match old with Some o => negb (s_token o =? tok) | None => false end) SnapshotIdentity;
      let r := {| r_label := LRecovered; r_row := row; r_boot := boot; r_rule := rl;
                  r_started := match old with Some o => s_started o | None => None end;
                  r_ended := None; r_duration := None; r_gap := true; r_reason := None; r_complete := true |} in
      let d := with_sessions d (sessions d ++ [(k, {| s_token := tok; s_started := r_started r; s_updated := now; s_data := r |})]) in
      match old with
      | Some _ => Ok d
      | None => if log_start rl then Ok (log now LRecovered tok r d) else Ok d
      end
  end.

Definition live_of (boot : pystr) (rows changes : list ct_event) : result jerr (list (identity * ct_event)) :=
  foldM_res (apply_change boot) (live_rows boot rows) changes.

Definition reconcile_body (boot : pystr) (now : Z) (reason : pystr) (live : list (identity * ct_event)) (d : db) : result jerr db :=
  let previous := sessions d in
  let gone := filter (fun ks => dmem ks.1 live = false) previous in
  let d := fold_left (fun d ks => interrupt now reason d ks.2) gone d in
  let d := with_sessions d [] in
  d ← foldM_res (restore boot now previous) d live;
  Ok (with_health d None).

Definition reconcile (boot : pystr) (now : Z) (rows changes : list ct_event) (reason : pystr) (d : db) : db * option jerr :=
  match live_of boot rows changes with
  | Err e => (d, Some e)
  | Ok live => transact (reconcile_body boot now reason live) d
  end.

Definition fault (reason : pystr) (d : db) : db := with_health d (Some reason).
Definition fault_reason (d : db) : option pystr := health d.

(** [Journal.recover_boot]: the sessions of an earlier kernel. *)
Definition recover_boot (boot : pystr) (now : Z) (d : db) : db :=
  fold_left (fun d ks =>
      let d := interrupt now (lit "dataplane-boot-changed") d ks.2 in
      with_sessions d (ddel ks.1 (sessions d)))
    (filter (fun ks => ks.1.1.1 <> boot) (sessions d)) d.

Definition recent (limit : Z) (d : db) : list record_t :=
  take (Z.to_nat (Z.min 100 (Z.max 1 limit))) (rev (map ev_data (events d))).

(** ** Invariant and history *)

Definition session_ok (d : db) (ks : identity * session) : Prop :=
  dget (s_token ks.2) (rules d) = Some (r_rule (s_data ks.2)).
Definition journal_ok (d : db) : Prop :=
  dict_ok (rules d) /\ dict_ok (sessions d) /\ Forall (session_ok d) (sessions d).

(** Nothing recorded is ever lost or changed: rules stay, events are only appended. *)
Definition extends (d d' : db) : Prop :=
  (forall t r, dget t (rules d) = Some r -> dget t (rules d') = Some r) /\ exists new, events d' = events d ++ new.

Lemma extends_refl d : extends d d.
Proof. split; [done|]. exists []. by rewrite app_nil_r. Qed.

Lemma extends_trans d1 d2 d3 : extends d1 d2 -> extends d2 d3 -> extends d1 d3.
Proof.
  intros [H1 [n1 E1]] [H2 [n2 E2]]. split; [auto|]. exists (n1 ++ n2). by rewrite E2, E1, app_assoc.
Qed.

#[local] Hint Resolve extends_refl extends_trans : journal.

Lemma extends_log now l t r d : extends d (log now l t r d).
Proof. split; [done|]. cbn. eauto. Qed.

Lemma extends_sessions d s : extends d (with_sessions d s).
Proof. split; [done|]. exists []. cbn. by rewrite app_nil_r. Qed.

Lemma extends_health d h : extends d (with_health d h).
Proof. split; [done|]. exists []. cbn. by rewrite app_nil_r. Qed.
#[local] Hint Resolve extends_log extends_sessions extends_health : journal.

Lemma journal_ok_log now l t r d : journal_ok d -> journal_ok (log now l t r d).
Proof. done. Qed.

Lemma journal_ok_health h d : journal_ok d -> journal_ok (with_health d h).
Proof. done. Qed.

Lemma journal_ok_ddel k d : journal_ok d -> journal_ok (with_sessions d (ddel k (sessions d))).
Proof.
  intros (H1 & H2 & H3). split; [done|]. split; [by apply dict_ok_ddel|].
  apply Forall_forall. intros ks Hi. apply elem_ddel in Hi. rewrite Forall_forall in H3. exact (H3 _ Hi).
Qed.

Lemma ddel_keys {V} (k : identity) (l : list (identity * V)) : k ∉ (ddel k l).*1.
Proof. apply dget_None_keys. rewrite dget_ddel. by rewrite decide_True. Qed.

Lemma dict_ok_snoc {V} (k : identity) (v : V) l : dict_ok l -> k ∉ l.*1 -> dict_ok (l ++ [(k, v)]).
Proof.
  unfold dict_ok. intros H Hk. rewrite fmap_app. apply NoDup_app. split; [done|]. split; [|apply NoDup_singleton].
  intros x Hx Hy. apply list_elem_of_singleton in Hy as ->. done.
Qed.

Lemma journal_ok_put k s d :
  journal_ok d -> dget (s_token s) (rules d) = Some (r_rule (s_data s)) -> journal_ok (put_session k s d).
Proof.
  intros Hj Hs. destruct (journal_ok_ddel k d Hj) as (H1 & H2 & H3). split; [done|]. cbn in *. split.
  - apply dict_ok_snoc; [done | apply ddel_keys].
  - apply Forall_app. split; [done | by apply Forall_singleton].
Qed.

Lemma register_one_ok d tr d' : register_one d tr = Ok d' -> journal_ok d -> journal_ok d' /\ extends d d'.
Proof.
  unfold register_one. destruct (dget tr.1 (rules d)) as [old|] eqn:E.
  - destruct (decide (old = tr.2)); [|done]. intros [= <-] Hj. auto with journal.
  - intros [= <-] (H1 & H2 & H3). destruct tr as [t r]. cbn [fst] in E.
    assert (forall t' r', dget t' (rules d) = Some r' -> dget t' (rules d ++ [(t, r)]) = Some r') as Hm
      by (intros t' r' H; rewrite dget_app; by rewrite H).
    split; [split; [|split]|].
    + unfold dict_ok in *. cbn. rewrite fmap_app. apply NoDup_app. split; [done|]. split; [|apply NoDup_singleton].
      intros x Hx Hy. apply list_elem_of_singleton in Hy as ->. apply dget_None_keys in E. done.
    + done.
    + eapply Forall_impl; [exact H3|]. intros ks. unfold session_ok. cbn. apply Hm.
    + split; [exact Hm|]. exists []. cbn. by rewrite app_nil_r.
Qed.

Lemma record_known_ok boot now row tok old d d' :
  record_known boot now row tok old d = Ok d' -> journal_ok d -> journal_ok d' /\ extends d d'.
Proof.
  unfold record_known. destruct (dget tok (rules d)) as [rl|] eqn:Er; [|done]. intros H Hj.
  apply bind_ok_inv in H as (u & _ & H). cbv zeta in H. apply bind_ok_inv in H as (d1 & Hd1 & H).
  assert (journal_ok d1 /\ extends d d1) as [J1 X1].
  { case_bool_decide.
    - apply bind_ok_inv in Hd1 as (? & _ & Hd1). inv_res. split; [by apply journal_ok_ddel | auto with journal].
    - inv_res. split; [by apply journal_ok_put | apply extends_sessions]. }
  split_if H; inv_res; [|done]. split; [by apply journal_ok_log | eauto with journal].
Qed.

Lemma _record_ok boot d nr d' : _record boot d nr = Ok d' -> journal_ok d -> journal_ok d' /\ extends d d'.
Proof.
  destruct nr as [now row]. unfold _record. intros H Hj. destruct (token row).
  - by eapply record_known_ok.
  - destruct (dget _ (sessions d)); [by eapply record_known_ok | inv_res; auto with journal].
Qed.

Lemma foldM_ok {A} (f : db -> A -> result jerr db) l :
  (forall d x d', f d x = Ok d' -> journal_ok d -> journal_ok d' /\ extends d d') ->
  forall d d', foldM_res f d l = Ok d' -> journal_ok d -> journal_ok d' /\ extends d d'.
Proof.
  intros Hf. induction l as [|x l IH]; intros d d' H Hj; cbn [foldM_res] in H; [inv_res; auto with journal|].
  apply bind_ok_inv in H as (d1 & H1 & H). apply Hf in H1 as [J1 X1]; [|done]. apply IH in H as [J2 X2]; eauto with journal.
Qed.

Lemma interrupt_eq now reason d s : rules (interrupt now reason d s) = rules d /\
  sessions (interrupt now reason d s) = sessions d /\ health (interrupt now reason d s) = health d /\
  events (interrupt now reason d s) = events d ++
    (if log_end (r_rule (s_data s)) then [{| ev_observed := now; ev_label := LInterrupted; ev_token := s_token s;
                                            ev_data := interrupted reason (s_data s) |}] else []).
Proof. unfold interrupt. cbn. destruct (log_end _); cbn; rewrite ?app_nil_r; done. Qed.

Lemma interrupts_eq now reason l : forall d,
  let d' := fold_left (fun d (ks : identity * session) => interrupt now reason d ks.2) l d in
  rules d' = rules d /\ sessions d' = sessions d /\ health d' = health d /\
  events d' = events d ++ map (fun ks => {| ev_observed := now; ev_label := LInterrupted; ev_token := s_token ks.2;
                                            ev_data := interrupted reason (s_data ks.2) |})
                            (filter (fun ks => log_end (r_rule (s_data ks.2)) = true) l).
Proof.
  induction l as [|ks l IH]; intros d; cbn [fold_left]; [cbn; by rewrite app_nil_r|].
  destruct (interrupt_eq now reason d ks.2) as (E1 & E2 & E3 & E4).
  destruct (IH (interrupt now reason d ks.2)) as (I1 & I2 & I3 & I4). cbv zeta in *.
  rewrite I1, I2, I3, I4, E1, E2, E3, E4. split_and!; try done. rewrite filter_cons, <- app_assoc. f_equal.
  destruct (log_end (r_rule (s_data ks.2))); [by rewrite decide_True | by rewrite decide_False].
Qed.

(** The effect of restoring the live sessions one by one. *)
Lemma restores_eq boot now previous live : forall d d',
  foldM_res (restore boot now previous) d live = Ok d' ->
  rules d' = rules d /\ health d' = health d /\
  (exists new, sessions d' = sessions d ++ new /\ new.*1 = live.*1 /\ Forall (session_ok d) new /\
     Forall (fun ks => r_label (s_data ks.2) = LRecovered /\ r_gap (s_data ks.2) = true) new) /\
  (exists evs, events d' = events d ++ evs /\
     Forall (fun e => ev_label e = LRecovered /\ exists k, k ∈ live.*1 /\ k ∉ previous.*1) evs).
Proof.
  induction live as [|[k row] live IH]; intros d d' H; cbn [foldM_res] in H.
  - inv_res. split_and!; try done; exists []; rewrite app_nil_r; auto using Forall_nil_2.
  - apply bind_ok_inv in H as (d1 & H1 & H). apply IH in H as (I1 & I2 & (new & I3 & I4 & I5 & I6) & (evs & I7 & I8)).
    unfold restore in H1. destruct (dget (default 0 (token row)) (rules d)) as [rl|] eqn:Er; [|done].
    apply bind_ok_inv in H1 as (u & _ & H1). cbv zeta in H1.
    set (ks := (k, {| s_token := default 0 (token row); s_started := _; s_updated := now; s_data := _ |})) in H1.
    assert (exists ev1, d1 = {| rules := rules d; sessions := sessions d ++ [ks]; events := events d ++ ev1; health := health d |} /\
      Forall (fun e => ev_label e = LRecovered /\ exists k', k' ∈ ((k, row) :: live).*1 /\ k' ∉ previous.*1) ev1) as (ev1 & -> & Hev).
    { destruct (dget k previous) eqn:Ek.
      - inv_res. exists []. unfold with_sessions. by rewrite app_nil_r.
      - destruct (log_start rl); inv_res.
        + eexists [_]. split; [reflexivity|]. apply Forall_singleton. split; [done|]. exists k.
          split; [apply list_elem_of_here | by apply dget_None_keys].
        + exists []. unfold with_sessions. by rewrite app_nil_r. }
    cbn [rules sessions events health] in *. split_and!; [done | done | |].
    + exists (ks :: new). rewrite I3, <- app_assoc. split; [done|]. cbn. rewrite I4. split; [done|].
      split; [constructor; [exact Er | exact I5] | by constructor].
    + exists (ev1 ++ evs). rewrite I7, app_assoc. split; [done|]. apply Forall_app. split; [done|].
      eapply Forall_impl; [exact I8|]. cbv beta. intros e (He & k' & Hk1 & Hk2). split; [done|]. exists k'.
      split; [by apply list_elem_of_further | done].
Qed.

Lemma dict_ok_live boot rows : dict_ok (live_rows boot rows).
Proof.
  unfold live_rows. assert (forall acc, dict_ok acc -> dict_ok (fold_left (fun (live : list (identity * ct_event)) row =>
    match token row with Some _ => dset (identity_of boot row) row live | None => live end) rows acc)) as H; [|apply H; apply NoDup_nil_2].
  induction rows as [|row rows IH]; intros acc Ha; cbn [fold_left]; [done|]. apply IH.
  destruct (token row); [by apply dict_ok_dset | done].
Qed.

Lemma dict_ok_change boot live row live' : apply_change boot live row = Ok live' -> dict_ok live -> dict_ok live'.
Proof.
  unfold apply_change. intros H Hl. case_decide; [inv_res; by apply dict_ok_ddel|].
  destruct (token row); [|by inv_res]. destruct (dget _ live); [|inv_res; by apply dict_ok_dset].
  case_decide; [inv_res; by apply dict_ok_dset | done].
Qed.

Lemma live_of_ok boot rows changes live : live_of boot rows changes = Ok live -> dict_ok live.
Proof.
  unfold live_of. generalize (dict_ok_live boot rows). generalize (live_rows boot rows).
  induction changes as [|c cs IH]; intros l Hl H; cbn [foldM_res] in H; [by inv_res|].
  apply bind_ok_inv in H as (l1 & H1 & H). eapply IH; [|exact H]. by eapply dict_ok_change.
Qed.

Lemma reconcile_body_eq boot now reason live d d' :
  reconcile_body boot now reason live d = Ok d' -> dict_ok live -> journal_ok d ->
  journal_ok d' /\ (sessions d').*1 = live.*1 /\ health d' = None /\ rules d' = rules d /\
  exists evs, events d' = events d
    ++ map (fun ks => {| ev_observed := now; ev_label := LInterrupted; ev_token := s_token ks.2; ev_data := interrupted reason (s_data ks.2) |})
         (filter (fun ks => log_end (r_rule (s_data ks.2)) = true) (filter (fun ks => dmem ks.1 live = false) (sessions d)))
    ++ evs /\ Forall (fun e => ev_label e = LRecovered) evs.
Proof.
  unfold reconcile_body. intros H Hl (J1 & J2 & J3). apply bind_ok_inv in H as (d2 & Hr & H). inv_res.
  destruct (interrupts_eq now reason (filter (fun ks => dmem ks.1 live = false) (sessions d)) d) as (E1 & E2 & E3 & E4).
  cbv zeta in *. set (d1 := fold_left _ _ d) in *.
  apply restores_eq in Hr as (R1 & R2 & (new & R3 & R4 & R5 & _) & (evs & R6 & R7)). cbn [rules sessions events health with_sessions app] in *.
  assert (rules d2 = rules d) as Hrules by (by rewrite R1, E1).
  split; [|split_and!].
  - split; [cbn; by rewrite Hrules|]. cbn. rewrite R3. split; [unfold dict_ok in *; by rewrite R4|].
    eapply Forall_impl; [exact R5|]. intros ks. unfold session_ok. cbn. by rewrite R1.
  - cbn. by rewrite R3.
  - done.
  - done.
  - exists evs. cbn. rewrite R6, E4, <- app_assoc. split; [done|]. eapply Forall_impl; [exact R7|]. cbv beta. tauto.
Qed.

(**  Reconciliation restores exactly the live sessions: afterwards the open
    sessions are those the kernel snapshot (with the changes received meanwhile) has,
    the fault is cleared, every session that vanished is reported once as interrupted
    when its rule logs session ends, and no start or end is invented. *)
Theorem reconcile_exact boot now rows changes reason d d' live :
  journal_ok d -> live_of boot rows changes = Ok live -> reconcile boot now rows changes reason d = (d', None) ->
  (sessions d').*1 = live.*1 /\ health d' = None /\ rules d' = rules d /\
  exists evs, events d' = events d
    ++ map (fun ks => {| ev_observed := now; ev_label := LInterrupted; ev_token := s_token ks.2; ev_data := interrupted reason (s_data ks.2) |})
         (filter (fun ks => log_end (r_rule (s_data ks.2)) = true) (filter (fun ks => dmem ks.1 live = false) (sessions d)))
    ++ evs /\ Forall (fun e => ev_label e = LRecovered) evs.
Proof.
  intros Hj Hl. unfold reconcile. rewrite Hl. unfold transact.
  destruct (reconcile_body boot now reason live d) eqn:E; [|done]. intros [= <-].
  by apply reconcile_body_eq in E as (_ & ? & ? & ? & ?); [|by eapply live_of_ok|].
Qed.

(** The operations of the journal. *)
Inductive op :=
| ORegister (new : list (Z * rule))
| ORecord (rows : list (Z * ct_event))
| OReconcile (now : Z) (rows changes : list ct_event) (reason : pystr)
| OFault (reason : pystr)
| ORecoverBoot (now : Z).

Definition apply_op (boot : pystr) (d : db) (o : op) : db :=
  match o with
  | ORegister new => (register new d).1
  | ORecord rows => (record_batch boot rows d).1
  | OReconcile now rows changes reason => (reconcile boot now rows changes reason d).1
  | OFault reason => fault reason d
  | ORecoverBoot now => recover_boot boot now d
  end.

Lemma recover_boot_ok boot now d : journal_ok d -> journal_ok (recover_boot boot now d) /\ extends d (recover_boot boot now d).
Proof.
  unfold recover_boot. generalize (filter (fun ks : identity * session => ks.1.1.1 <> boot) (sessions d)). intros l. revert d.
  induction l as [|ks l IH]; intros d Hj; cbn [fold_left]; [auto with journal|].
  set (d1 := with_sessions _ _). assert (journal_ok d1 /\ extends d d1) as [J1 X1].
  { unfold d1. set (d0 := interrupt _ _ d ks.2). assert (journal_ok d0 /\ extends d d0) as [J0 X0].
    { unfold d0, interrupt. cbn. destruct (log_end _); auto with journal. }
    split; [by apply journal_ok_ddel | eauto with journal]. }
  destruct (IH d1 J1) as [J2 X2]. split; [done | eauto with journal].
Qed.

Lemma apply_op_ok boot d o : journal_ok d -> journal_ok (apply_op boot d o) /\ extends d (apply_op boot d o).
Proof.
  intros Hj. destruct o as [new|rows|now rows changes reason|reason|now]; cbn [apply_op].
  - unfold register, transact. destruct (foldM_res _ d new) eqn:E; cbn [fst]; [|auto with journal].
    eapply foldM_ok; [|exact E | done]. intros; by eapply register_one_ok.
  - unfold record_batch, transact. destruct (foldM_res _ d rows) eqn:E; cbn [fst]; [|auto with journal].
    eapply foldM_ok; [|exact E | done]. intros; by eapply _record_ok.
  - unfold reconcile. destruct (live_of boot rows changes) eqn:El; cbn [fst]; [|auto with journal].
    unfold transact. destruct (reconcile_body _ _ _ _ d) eqn:E; cbn [fst]; [|auto with journal].
    apply reconcile_body_eq in E as (J & _ & _ & Hr & evs & He & _); [|by eapply live_of_ok | done].
    split; [done|]. split; [by rewrite Hr | eauto].
  - split; [by apply journal_ok_health | apply extends_health].
  - by apply recover_boot_ok.
Qed.

(** C18.  The journal is durable and consistent under every sequence of operations,
    whichever of them fail: a registered rule generation never changes, no accounting
    event is dropped or altered, and every open session belongs to a registered rule. *)
Theorem journal_history boot ops : forall d, journal_ok d ->
  journal_ok (fold_left (apply_op boot) ops d) /\ extends d (fold_left (apply_op boot) ops d).
Proof.
  induction ops as [|o ops IH]; intros d Hj; cbn [fold_left]; [auto with journal|].
  destruct (apply_op_ok boot d o Hj) as [J1 X1]. destruct (IH _ J1) as [J2 X2]. split; [done | eauto with journal].
Qed.

(** ** Accounting of one session *)

Definition same_session (row row0 : ct_event) (tok : Z) : Prop :=
  ct_id row = ct_id row0 /\ original row = original row0 /\ (token row = Some tok \/ token row = None).

(** Updates of an open session keep its start and its token and log nothing. *)
Lemma updates_keep boot tok rl k t0 ups : forall d s,
  dget tok (rules d) = Some rl -> dget k (sessions d) = Some s -> s_token s = tok -> s_started s = Some t0 ->
  Forall (fun nr => identity_of boot nr.2 = k /\ event nr.2 <> EvEnd /\ (token nr.2 = Some tok \/ token nr.2 = None)) ups ->
  exists d' s', foldM_res (_record boot) d ups = Ok d' /\ rules d' = rules d /\ events d' = events d /\
    dget k (sessions d') = Some s' /\ s_token s' = tok /\ s_started s' = Some t0.
Proof.
  induction ups as [|[now row] ups IH]; intros d s Hr Hs Ht H0 Hu; [by exists d, s|].
  apply Forall_cons in Hu as [(Hk & He & Htk) Hu]. cbn [snd] in *.
  assert (exists row', identity_of boot row' = k /\ event row' = event row /\ _record boot d (now, row) = record_known boot now row' tok (Some s) d)
    as (row' & Hk' & He' & Hrec).
  { unfold _record. rewrite Hk, Hs. destruct Htk as [->| ->]; [by exists row|]. rewrite Ht. by exists (with_token row tok). }
  cbn [foldM_res]. rewrite Hrec. unfold record_known. rewrite Hr, Ht, Z.eqb_refl. cbn [negb raise_if mbind result_bind].
  rewrite bool_decide_false by (by rewrite He'). cbn [mbind result_bind andb orb]. rewrite Hk', H0.
  match goal with |- context [foldM_res _ (put_session k ?s1 d) ups] =>
    destruct (IH (put_session k s1 d) s1) as (d' & s' & F1 & F2 & F3 & F4) end; try done.
  - cbn. rewrite dget_app, dget_ddel, decide_True by done. cbn [dget]. by rewrite decide_True.
  - exists d', s'. rewrite F1. done.
Qed.

(**  A session is accounted once: when its rule logs both ends, the start, any
    updates and the end of a conntrack (the later ones may lack the token) add exactly
    a start record at its first packet and an end record with the time between them,
    and the session is closed. *)
Theorem session_accounted boot tok rl t0 row0 ups t1 row1 d :
  let k := identity_of boot row0 in
  dget tok (rules d) = Some rl -> log_start rl = true -> log_end rl = true -> dget k (sessions d) = None ->
  token row0 = Some tok -> event row0 <> EvEnd ->
  Forall (fun nr => identity_of boot nr.2 = k /\ event nr.2 <> EvEnd /\ (token nr.2 = Some tok \/ token nr.2 = None)) ups ->
  identity_of boot row1 = k -> event row1 = EvEnd -> (token row1 = Some tok \/ token row1 = None) -> both_counters row1 = true ->
  exists d' first last, record_batch boot ((t0, row0) :: ups ++ [(t1, row1)]) d = (d', None) /\
    events d' = events d ++ [{| ev_observed := t0; ev_label := LStart; ev_token := tok; ev_data := first |};
                             {| ev_observed := t1; ev_label := LEnd; ev_token := tok; ev_data := last |}] /\
    dget k (sessions d') = None /\ r_row first = row0 /\ r_started last = Some t0 /\ r_ended last = Some t1 /\
    r_duration last = Some (Z.max 0 (t1 - t0)).
Proof.
  intros k Hr Hls Hle Hn Ht0 He0 Hu Hk1 He1 Ht1 Hc1. unfold record_batch, transact.
  change ((t0, row0) :: ups ++ [(t1, row1)]) with ([(t0, row0)] ++ ups ++ [(t1, row1)]). rewrite foldM_res_app.
  assert (_record boot d (t0, row0) = record_known boot t0 row0 tok None d) as E0 by (unfold _record; fold k; by rewrite Hn, Ht0).
  cbn [foldM_res]. rewrite E0. unfold record_known. rewrite Hr. cbn [raise_if mbind result_bind].
  rewrite bool_decide_false by done. cbn [negb mbind result_bind andb orb]. rewrite Hls. cbn [mbind result_bind].
  set (s0 := {| s_token := tok; s_started := _; s_updated := t0; s_data := _ |}). set (first := {| r_label := LStart; r_row := row0; r_boot := _; r_rule := _; r_started := _; r_ended := _; r_duration := _; r_gap := _; r_reason := _; r_complete := _ |}).
  set (d1 := log t0 _ tok first _). fold k in d1. rewrite foldM_res_app.
  destruct (updates_keep boot tok rl k t0 ups d1 s0) as (d2 & s2 & -> & U2 & U3 & U4 & U5 & U6); [done | | done | done | done |].
  { cbn. rewrite dget_app, dget_ddel, decide_True by done. cbn [dget]. by rewrite decide_True. }
  cbn [mbind result_bind foldM_res]. unfold _record. rewrite Hk1, U4.
  assert (exists row', identity_of boot row' = k /\ event row' = EvEnd /\ both_counters row' = true /\
    match token row1 with Some t => record_known boot t1 row1 t (Some s2) d2
    | None => record_known boot t1 (with_token row1 (s_token s2)) (s_token s2) (Some s2) d2 end = record_known boot t1 row' tok (Some s2) d2)
    as (row' & Hk' & He' & Hc' & ->).
  { destruct Ht1 as [->| ->]; [by exists row1|]. rewrite U5. by exists (with_token row1 tok). }
  unfold record_known. rewrite U2. change (rules d1) with (rules d). rewrite Hr, U5, Z.eqb_refl. cbn [negb raise_if mbind result_bind].
  rewrite bool_decide_true by done. cbn [negb mbind result_bind andb orb]. rewrite Hle, Hc'. cbn [andb negb raise_if mbind result_bind orb].
  eexists _, first, _. split; [reflexivity|]. cbn [events log with_sessions ev_data ev_label].
  rewrite U3. cbn [events d1 log]. rewrite <- app_assoc. cbn [app]. split; [rewrite He'; reflexivity|].
  split; [cbn; rewrite Hk', dget_ddel; by rewrite decide_True|]. cbn. rewrite U6. done.
Qed.

(** ** The collector *)

Fixpoint starts_with (p s : pystr) : bool :=
  match p, s with
  | [], _ => true
  | c :: p', d :: s' => (c =? d) && starts_with p' s'
  | _ :: _, [] => false
  end.

Definition gap_prefix : pystr := lit "Session event gap:".
Definition gate_prefix : pystr := lit "Policy gate close failed:".
Definition restart_text : pystr :=
  lit "Collector restarted with active sessions; event-gap reconciliation is required".

(** [Collector.recoverable]; [enobufs] is the text of [OSError(errno.ENOBUFS, ...)],
    whose number depends on the platform. *)
Definition recoverable (enobufs : pystr) (reason : option pystr) : bool :=
  match reason with
  | None => true
  | Some r => bool_decide (r = []) || starts_with gap_prefix r || starts_with gate_prefix r
              || bool_decide (r = restart_text) || bool_decide (r = enobufs)
  end.

(** What a call raised: an event gap or a full socket buffer, which the collector
    recovers from, or anything else. *)
Inductive exn := Recoverable (msg : pystr) | Fatal (msg : pystr).

(** What the environment does in one round of the loop. *)
Record round := {
  in_now : Z;
  in_gate : option pystr;                                    (* the error of the first gate close *)
  in_snapshot : exn + (list ct_event * list ct_event);
  in_batch : exn + list (Z * ct_event);
  in_gate_gap : option pystr }.                              (* the error of the gate close after a gap *)

Record collector := {
  c_db : db; c_running : bool; c_stream : bool; c_reason : option pystr;
  c_ready : bool; c_error : option pystr; c_recoveries : Z; c_closes : Z }.

Definition jerr_text (e : jerr) : pystr :=
  match e with
  | TokenReused => lit "A Security session token cannot be reused"
  | NoRule => lit "No durable rule generation for owned conntrack event"
  | IdentityChanged => lit "Session changed its Security rule identity"
  | CountersMissing => lit "Session-end accounting counters are missing"
  | SnapshotToken => lit "Snapshot token changed"
  | SnapshotNoRule => lit "No durable rule generation for snapshot session"
  | SnapshotIdentity => lit "Snapshot changed durable session identity"
  end.

(** The outer [except BaseException] and [finally]. *)
Definition stop_fatal (msg : pystr) (c : collector) : collector :=
  {| c_db := fault msg (c_db c); c_running := false; c_stream := false; c_reason := c_reason c;
     c_ready := false; c_error := Some msg; c_recoveries := c_recoveries c; c_closes := c_closes c + 1 |}.

(** A recoverable fault: the reason is recorded and the stream is closed. *)
Definition lose_stream (reason : pystr) (c : collector) : collector :=
  {| c_db := fault reason (c_db c); c_running := true; c_stream := false; c_reason := Some reason;
     c_ready := false; c_error := Some reason; c_recoveries := c_recoveries c; c_closes := c_closes c |}.
Definition closed_gate (c : collector) : collector :=
  {| c_db := c_db c; c_running := c_running c; c_stream := c_stream c; c_reason := c_reason c;
     c_ready := c_ready c; c_error := c_error c; c_recoveries := c_recoveries c; c_closes := c_closes c + 1 |}.
Definition ready_with (d : db) (recovered : Z) (c : collector) : collector :=
  {| c_db := d; c_running := true; c_stream := true; c_reason := c_reason c;
     c_ready := true; c_error := None; c_recoveries := c_recoveries c + recovered; c_closes := c_closes c |}.

(** The first half of a round: without a stream, close the gate, subscribe and
    reconcile. *)
Definition resubscribe (boot : pystr) (r : round) (c : collector) : collector :=
  match in_gate r with
  | Some e => lose_stream (gate_prefix ++ lit " " ++ e) c
  | None =>
      let c := closed_gate c in
      match in_snapshot r with
      | inl (Recoverable msg) => lose_stream (gap_prefix ++ lit " " ++ msg) c
      | inl (Fatal msg) => stop_fatal msg c
      | inr (rows, changes) =>
          let reason := match c_reason c with Some [] | None => lit "collector-restart" | Some t => t end in
          match reconcile boot (in_now r) rows changes reason (c_db c) with
          | (d, None) => ready_with d 1 c
          | (_, Some e) => stop_fatal (jerr_text e) c
          end
      end
  end.

(** The second half: record what the stream delivered. *)
Definition drain_batch (boot : pystr) (r : round) (c : collector) : collector :=
  match in_batch r with
  | inr [] => ready_with (c_db c) 0 c
  | inr rows =>
      match record_batch boot rows (c_db c) with
      | (d, None) => ready_with d 0 c
      | (_, Some e) => stop_fatal (jerr_text e) c
      end
  | inl (Fatal msg) => stop_fatal msg c
  | inl (Recoverable msg) =>
      match in_gate_gap r with
      | Some e => stop_fatal e c
      | None => lose_stream (gap_prefix ++ lit " " ++ msg) (closed_gate c)
      end
  end.

(** One round of the loop of [Collector.run]. *)
Definition collect (boot : pystr) (c : collector) (r : round) : collector :=
  if negb (c_running c) then c
  else
    let c := if c_stream c then c else resubscribe boot r c in
    if c_stream c then drain_batch boot r c else c.

(** [Collector.run] up to its loop. *)
Definition collector_start (boot enobufs : pystr) (now : Z) (d : db) : collector :=
  let d := recover_boot boot now d in
  let c := {| c_db := d; c_running := true; c_stream := false; c_reason := fault_reason d;
              c_ready := false; c_error := Some (lit "Collector starting"); c_recoveries := 0; c_closes := 0 |} in
  if recoverable enobufs (fault_reason d) then c else stop_fatal (default [] (fault_reason d)) c.

Lemma recover_boot_health boot now d : health (recover_boot boot now d) = health d.
Proof.
  unfold recover_boot. generalize (filter (fun ks : identity * session => ks.1.1.1 <> boot) (sessions d)). intros l. revert d.
  induction l as [|ks l IH]; intros d; cbn [fold_left]; [done|]. rewrite IH. cbn.
  exact (proj1 (proj2 (proj2 (interrupt_eq now _ d ks.2)))).
Qed.

Lemma record_batch_health boot rows : forall d d', foldM_res (_record boot) d rows = Ok d' -> health d' = health d.
Proof.
  induction rows as [|[now row] rows IH]; intros d d' H; cbn [foldM_res] in H; [by inv_res|].
  apply bind_ok_inv in H as (d1 & H1 & H). rewrite (IH _ _ H). clear -H1.
  assert (forall row' t o, record_known boot now row' t o d = Ok d1 -> health d1 = health d) as Hk.
  { intros row' t o Hr. unfold record_known in Hr. destruct (dget t (rules d)); [|done].
    apply bind_ok_inv in Hr as (u & _ & Hr). cbv zeta in Hr. apply bind_ok_inv in Hr as (d2 & Hd2 & Hr).
    assert (health d2 = health d) as <-.
    { case_bool_decide; [apply bind_ok_inv in Hd2 as (? & _ & Hd2)|]; by inv_res. }
    split_if Hr; by inv_res. }
  unfold _record in H1. destruct (token row); [by eapply Hk|]. destruct (dget _ _); [by eapply Hk | by inv_res].
Qed.

(** Ready means serving: a stream is open and no fault stands; a stopped collector
    has recorded why. *)
Definition collector_ok (c : collector) : Prop :=
  (c_ready c = true -> c_running c = true /\ c_stream c = true /\ health (c_db c) = None) /\
  (c_running c = false -> c_ready c = false /\ health (c_db c) <> None) /\
  (c_stream c = true -> health (c_db c) = None).

Lemma stop_fatal_ok msg c : collector_ok (stop_fatal msg c).
Proof. unfold collector_ok. cbn. naive_solver. Qed.

Lemma lose_stream_ok msg c : collector_ok (lose_stream msg c).
Proof. unfold collector_ok. cbn. naive_solver. Qed.

Lemma ready_with_ok d n c : health d = None -> collector_ok (ready_with d n c).
Proof. unfold collector_ok. cbn. naive_solver. Qed.

Lemma resubscribe_ok boot r c : collector_ok (resubscribe boot r c).
Proof.
  unfold resubscribe. destruct (in_gate r); [apply lose_stream_ok|].
  destruct (in_snapshot r) as [[msg|msg]|[rows changes]]; [apply lose_stream_ok | apply stop_fatal_ok|].
  destruct (reconcile _ _ _ _ _ _) as [d [e|]] eqn:E; [apply stop_fatal_ok|]. apply ready_with_ok.
  unfold reconcile in E. destruct (live_of _ _ _) as [live|]; [|done]. unfold transact in E.
  destruct (reconcile_body _ _ _ _ _) as [d1|] eqn:Eb; [|done]. injection E as <-.
  unfold reconcile_body in Eb. apply bind_ok_inv in Eb as (d2 & _ & Eb). by inv_res.
Qed.

Lemma drain_batch_ok boot r c : health (c_db c) = None -> collector_ok (drain_batch boot r c).
Proof.
  intros Hh. unfold drain_batch. destruct (in_batch r) as [[msg|msg]|rows].
  - destruct (in_gate_gap r); [apply stop_fatal_ok | apply lose_stream_ok].
  - apply stop_fatal_ok.
  - destruct rows as [|x rows]; [by apply ready_with_ok|].
    unfold record_batch, transact. destruct (foldM_res _ _ _) as [d|e] eqn:E; [|apply stop_fatal_ok].
    apply ready_with_ok. by rewrite (record_batch_health _ _ _ _ E).
Qed.

Lemma collect_ok boot c r : collector_ok c -> collector_ok (collect boot c r).
Proof.
  intros Hc. unfold collect. destruct (c_running c); cbn [negb]; [|done].
  destruct (c_stream c) eqn:Es; [|pose proof (resubscribe_ok boot r c) as Hr; clear Hc; rename Hr into Hc].
  - rewrite Es. apply drain_batch_ok. by apply Hc.
  - destruct (c_stream (resubscribe boot r c)) eqn:Es'; [|done]. apply drain_batch_ok. by apply Hc.
Qed.

Lemma collector_start_ok boot enobufs now d : collector_ok (collector_start boot enobufs now d).
Proof.
  unfold collector_start. destruct (recoverable _ _); [|apply stop_fatal_ok]. unfold collector_ok. cbn. naive_solver.
Qed.

(**  The collector reports ready only while it serves: whatever the gate, the
    snapshots and the socket do, when it is ready it has a subscribed stream that was
    reconciled and no recorded fault, and when it has stopped it has recorded a fault
    and is not ready. *)
Theorem collector_ready_safe boot enobufs now d rounds :
  let c := fold_left (collect boot) rounds (collector_start boot enobufs now d) in
  (c_ready c = true -> c_running c = true /\ c_stream c = true /\ health (c_db c) = None) /\
  (c_running c = false -> c_ready c = false /\ health (c_db c) <> None).
Proof.
  assert (forall c0, collector_ok c0 -> collector_ok (fold_left (collect boot) rounds c0)) as H.
  { induction rounds as [|r rounds IH]; intros c0 Hc; cbn [fold_left]; [done|]. apply IH. by apply collect_ok. }
  destruct (H _ (collector_start_ok boot enobufs now d)) as (H1 & H2 & _). done.
Qed.

(**  A fault the collector cannot repair stays: a start that finds one stops at
    once, and neither it nor any later round serves or clears the fault. *)
Theorem fatal_fault_sticks boot enobufs now d r rounds :
  health d = Some r -> recoverable enobufs (Some r) = false ->
  let c := fold_left (collect boot) rounds (collector_start boot enobufs now d) in
  c_running c = false /\ c_ready c = false /\ health (c_db c) = Some r.
Proof.
  intros Hh Hr. assert (collector_start boot enobufs now d = stop_fatal r
    {| c_db := recover_boot boot now d; c_running := true; c_stream := false; c_reason := Some r;
       c_ready := false; c_error := Some (lit "Collector starting"); c_recoveries := 0; c_closes := 0 |}) as ->.
  { unfold collector_start, fault_reason. rewrite recover_boot_health, Hh. by rewrite Hr. }
  cbv zeta. set (c := stop_fatal r _). assert (fold_left (collect boot) rounds c = c) as ->; [|done].
  induction rounds as [|x rounds IH]; cbn [fold_left]; [done|]. exact IH.
Qed.

(** ** Examples *)

Lemma empty_ok : journal_ok empty_db.
Proof. split; [apply NoDup_nil_2|]. split; [apply NoDup_nil_2 | constructor]. Qed.

Definition sample_rule : rule := {| log_start := true; log_end := true; meta := lit "allow-web" |}.
Definition at_event (k : ev_kind) (tok : option Z) : ct_event :=
  {| event := k; ct_id := ct_id sample_event; token := tok; original := original sample_event; reply := reply sample_event;
     count_original := count_original sample_event; count_reply := count_reply sample_event;
     status := None; timeout := Some 30; zone := 0; tcp_state := None |}.
Definition sample_db : db := (register [(4660, sample_rule)] empty_db).1.
Definition boot0 : pystr := lit "boot-1".

Lemma journal_history_witness :
  let ops := [ORegister [(4660, sample_rule)]; ORecord [(10, at_event EvStart (Some 4660))];
              ORegister [(4660, {| log_start := false; log_end := false; meta := [] |})]; ORecoverBoot 12] in
  journal_ok (fold_left (apply_op boot0) ops empty_db) /\
  dget 4660 (rules (fold_left (apply_op boot0) ops empty_db)) = Some sample_rule.
Proof.
  cbv zeta. split; [|vm_compute; reflexivity].
  refine (proj1 (journal_history boot0 _ empty_db empty_ok)).
Defined.

Lemma session_accounted_witness :
  exists d' first last,
    record_batch boot0 ((10, at_event EvStart (Some 4660)) :: [(20, at_event EvUpdate None)] ++ [(75, at_event EvEnd None)]) sample_db = (d', None) /\
    events d' = events sample_db ++
      [{| ev_observed := 10; ev_label := LStart; ev_token := 4660; ev_data := first |};
       {| ev_observed := 75; ev_label := LEnd; ev_token := 4660; ev_data := last |}] /\
    r_duration last = Some 65.
Proof.
  destruct (session_accounted boot0 4660 sample_rule 10 (at_event EvStart (Some 4660)) [(20, at_event EvUpdate None)] 75
    (at_event EvEnd None) sample_db) as (d' & first & last & H1 & H2 & _ & _ & _ & _ & H3); try reflexivity; try discriminate.
  - apply Forall_singleton. split; [reflexivity|]. split; [discriminate | by right].
  - by right.
  - exists d', first, last. split; [exact H1|]. split; [exact H2 | exact H3].
Defined.

Definition busy_db : db := (record_batch boot0 [(10, at_event EvStart (Some 4660))] sample_db).1.

Lemma busy_ok : journal_ok busy_db.
Proof.
  unfold busy_db, sample_db. exact (proj1 (apply_op_ok boot0 _ (ORecord [(10, at_event EvStart (Some 4660))])
    (proj1 (apply_op_ok boot0 empty_db (ORegister [(4660, sample_rule)]) empty_ok)))).
Qed.

Lemma reconcile_exact_witness :
  exists d', reconcile boot0 50 [] [] (lit "collector-restart") busy_db = (d', None) /\ length (events d') = 2%nat /\
    (sessions d').*1 = [] /\ health d' = None.
Proof.
  assert (match reconcile boot0 50 [] [] (lit "collector-restart") busy_db with (d', None) => length (events d') = 2%nat | _ => False end) as H
    by (vm_compute; reflexivity).
  destruct (reconcile boot0 50 [] [] (lit "collector-restart") busy_db) as [d' [e|]] eqn:E; [contradiction|].
  destruct (reconcile_exact boot0 50 [] [] (lit "collector-restart") busy_db d' [] busy_ok eq_refl E) as (H1 & H2 & _).
  exists d'. split; [reflexivity|]. split; [exact H|]. split; [exact H1 | exact H2].
Defined.

Lemma fatal_fault_sticks_witness :
  let d := fault (jerr_text NoRule) empty_db in
  let c := fold_left (collect boot0) [] (collector_start boot0 (lit "[Errno 105] No buffer space available") 5 d) in
  c_running c = false /\ c_ready c = false /\ health (c_db c) = Some (jerr_text NoRule).
Proof. apply fatal_fault_sticks; vm_compute; reflexivity. Defined.
