(* ===== verification/PyTime.v ===== *)
(** * Clock readings

    [time.time] and [time.monotonic] return floats; readings of one epoch are within a factor of two of each other,
    so their differences are exact and rationals stand for them. *)

From S2P Require Import Prelude.
From Stdlib Require Export QArith Qminmax.

#[local] Open Scope Q_scope.

(** [a > b]. *)
Definition gtb (a b : Q) : bool := negb (Qle_bool a b).
(** [int(q)]. *)
Definition q_int (q : Q) : Z := Z.quot (Qnum q) (Zpos (Qden q)).

Lemma gtb_lt a b : gtb a b = true <-> b < a.
Proof.
  unfold gtb. rewrite negb_true_iff. split.
  - intros H. apply Qnot_le_lt. intros Hx. apply Qle_bool_iff in Hx. congruence.
  - intros H. destruct (Qle_bool a b) eqn:E; [|done]. apply Qle_bool_iff in E. by apply Qle_not_lt in E.
Qed.

Lemma gtb_le a b : gtb a b = false <-> a <= b.
Proof. unfold gtb. by rewrite negb_false_iff, Qle_bool_iff. Qed.
