(* ===== verification/CommitLock.v ===== *)
(** * The configuration lock ([ffn_config_lock.py])

    One administrator at a time edits the candidate configuration.  The lock is a row of an SQLite table that
    every process opens for itself: [CHECK(id=1)] on the primary key leaves at most one row, so the table is an
    [option].  [BEGIN IMMEDIATE] admits one writer at a time, so a history of the lock is a sequence of whole
    transactions, each with the clock reading it took; the clock is free to jump back.  Instants are rationals
    (the difference of two time stamps of one epoch is exact in floating point); the local-time text of
    [acquired_at] is left as the instant it shows.  [None] as a user or a reason is Python's [None]. *)

From S2P Require Import Prelude PyStr PyTime.

#[local] Open Scope Q_scope.

Record lock_row := { holder : pystr; acquired : Q; lock_reason : pystr }.
Abbreviation lock_db := (option lock_row) (only parsing).

Inductive lock_fault := NoOwner | IntegrityError.

(** [DELETE FROM config_lock WHERE ? - acquired > ?]. *)
Definition expire (timeout now : Q) (d : lock_db) : lock_db :=
  match d with
  | Some r => if gtb (now - acquired r) timeout then None else Some r
  | None => None
  end.

(** The body sees the table without an expired row; an exception rolls everything back. *)
Definition transaction {A} (timeout now : Q) (body : lock_db -> result lock_fault A * lock_db) (d : lock_db)
    : result lock_fault A * lock_db :=
  match body (expire timeout now d) with
  | (Ok a, d') => (Ok a, d')
  | (Err e, _) => (Err e, d)
  end.

Record lock_status := { ls_holder : pystr; acquired_at : Q; age_seconds : Z; expires_in : Z; ls_reason : pystr }.

Definition status (timeout now : Q) : lock_db -> result lock_fault (option lock_status) * lock_db :=
  transaction timeout now (fun d =>
    (Ok (r ← d;
         let age := Qmax 0 (now - acquired r) in
         Some {| ls_holder := holder r; acquired_at := acquired r; age_seconds := q_int age;
                 expires_in := Z.max 0 (q_int (timeout - age)); ls_reason := lock_reason r |}), d)).

Definition acquire (timeout now : Q) (user reason : option pystr) (d : lock_db) : result lock_fault bool * lock_db :=
  match user with
  | None | Some [] => (Err NoOwner, d)
  | Some u =>
      transaction timeout now (fun d =>
        if (match d with Some r => bool_decide (holder r <> u) | None => false end) then (Ok false, d) else
        match reason with
        | Some w => (Ok true, Some {| holder := u; acquired := now; lock_reason := w |})
        | None => (Err IntegrityError, d)
        end) d
  end.

Definition release (timeout now : Q) (user : option pystr) : lock_db -> result lock_fault bool * lock_db :=
  transaction timeout now (fun d =>
    match d with
    | Some r => if bool_decide (user = Some (holder r)) then (Ok true, None) else (Ok false, d)
    | None => (Ok false, d)
    end).

Definition override (timeout now : Q) : lock_db -> result lock_fault (option pystr) * lock_db :=
  transaction timeout now (fun d => (Ok (holder <$> d), None)).

(** ** Histories *)

Inductive lock_op :=
| Status
| Acquire (user reason : option pystr)
| Release (user : option pystr)
| Override.

Inductive answer :=
| AStatus (s : option lock_status)
| AGranted (b : bool)
| AReleased (b : bool)
| AOverride (h : option pystr).

Definition answered {A} (f : A -> answer) (p : result lock_fault A * lock_db) : result lock_fault answer * lock_db :=
  (f <$> p.1, p.2).

Definition lock_step (timeout : Q) (e : lock_op * Q) (d : lock_db) : result lock_fault answer * lock_db :=
  match e.1 with
  | Status => answered AStatus (status timeout e.2 d)
  | Acquire u w => answered AGranted (acquire timeout e.2 u w d)
  | Release u => answered AReleased (release timeout e.2 u d)
  | Override => answered AOverride (override timeout e.2 d)
  end.

Fixpoint lock_run (timeout : Q) (h : list (lock_op * Q)) (d : lock_db) : list (result lock_fault answer) * lock_db :=
  match h with
  | [] => ([], d)
  | e :: t => let '(a, d1) := lock_step timeout e d in let '(l, d2) := lock_run timeout t d1 in (a :: l, d2)
  end.

(** The latest instant [u] was granted the lock, and whether the history [h] leaves [u] its lease: no clock reading
    is more than the timeout past that instant and neither [u] releases the lock nor an administrator overrides it. *)
Fixpoint lease_after (timeout : Q) (u : pystr) (a : Q) (h : list (lock_op * Q)) : option Q :=
  match h with
  | [] => Some a
  | (o, now) :: t =>
      if gtb (now - a) timeout then None else
      match o with
      | Status => lease_after timeout u a t
      | Acquire v w => lease_after timeout u (if bool_decide (v = Some u) && bool_decide (is_Some w) then now else a) t
      | Release v => if bool_decide (v = Some u) then None else lease_after timeout u a t
      | Override => None
      end
  end.

(** Another user's request in [h], and no answer to it is a grant. *)
Definition refused (u : pystr) (e : lock_op * Q) (a : result lock_fault answer) : Prop :=
  match e.1 with
  | Acquire (Some v) _ => v <> u -> v <> [] -> a = Ok (AGranted false)
  | _ => True
  end.

(** ** Who gets the lock *)

Lemma expire_held timeout now u a w : gtb (now - a) timeout = false ->
  expire timeout now (Some {| holder := u; acquired := a; lock_reason := w |}) =
  Some {| holder := u; acquired := a; lock_reason := w |}.
Proof. cbn. by intros ->. Qed.

(** One step under a lease of [u]: the lease goes on as [lease_after] says and nobody else is granted the lock. *)
Lemma step_held timeout u a w e d1 a' :
  u <> [] -> d1 = Some {| holder := u; acquired := a; lock_reason := w |} ->
  lease_after timeout u a [e] = Some a' ->
  refused u e (lock_step timeout e d1).1
  /\ exists w', (lock_step timeout e d1).2 = Some {| holder := u; acquired := a'; lock_reason := w' |}.
Proof.
  intros Hu -> H. destruct e as [o now]. cbn [lease_after] in H. destruct (gtb _ _) eqn:Eg; [done|].
  destruct o as [|v r|v|]; cbn in H; unfold lock_step, answered, refused; cbn [fst snd].
  - injection H as <-. unfold status, transaction. rewrite expire_held by done. by split; [|eexists].
  - destruct v as [[|c v]|]; cbn [acquire fst snd].
    1, 3: rewrite bool_decide_eq_false_2 in H by congruence; injection H as <-; split; [done|by eexists].
    unfold transaction. rewrite expire_held by done. cbn [holder].
    destruct (decide (u = c :: v)) as [->|Hn].
    + rewrite bool_decide_eq_false_2 by (intros Hx; by apply Hx). rewrite bool_decide_eq_true_2 in H by done.
      destruct r; cbn in H |- *; injection H as <-; split; try done; by eexists.
    + rewrite bool_decide_eq_true_2 by done. rewrite bool_decide_eq_false_2 in H by congruence.
      cbn in H |- *. injection H as <-. split; [done|by eexists].
  - case_bool_decide; [done|]. injection H as <-. unfold release, transaction. rewrite expire_held by done. cbn [holder].
    rewrite bool_decide_eq_false_2 by done. split; [done|by eexists].
  - done.
Qed.

Lemma lease_after_cons timeout u a e h a' :
  lease_after timeout u a (e :: h) = Some a' ->
  exists b, lease_after timeout u a [e] = Some b /\ lease_after timeout u b h = Some a'.
Proof.
  destruct e as [o now]. cbn [lease_after]. destruct (gtb _ _); [done|].
  destruct o as [|v r|v|]; [| |case_bool_decide; [done|]|done]; intros Hx; eexists; (split; [reflexivity|exact Hx]).
Qed.

Lemma run_held timeout u h : forall a w a',
  u <> [] -> lease_after timeout u a h = Some a' ->
  Forall2 (refused u) h (lock_run timeout h (Some {| holder := u; acquired := a; lock_reason := w |})).1
  /\ exists w', (lock_run timeout h (Some {| holder := u; acquired := a; lock_reason := w |})).2
       = Some {| holder := u; acquired := a'; lock_reason := w' |}.
Proof.
  induction h as [|e h IH]; intros a w a' Hu H.
  - injection H as <-. split; [constructor|by eexists].
  - apply lease_after_cons in H as (b & Hb & H).
    destruct (step_held timeout u a w e _ b Hu eq_refl Hb) as (Hr & w1 & Hs). cbn [lock_run].
    destruct (lock_step timeout e _) as [r d1]. cbn [fst snd] in Hr, Hs. subst d1.
    destruct (IH b w1 a' Hu H) as (Hf & w2 & H2). destruct (lock_run timeout h _) as [l d2]. cbn [fst snd] in *.
    split; [by constructor|by eexists].
Qed.

(** When a named user with a reason is granted the lock. *)
Lemma acquire_granted timeout now u w d : u <> [] ->
  acquire timeout now (Some u) (Some w) d =
    match expire timeout now d with
    | Some r => if bool_decide (holder r <> u) then (Ok false, Some r)
                else (Ok true, Some {| holder := u; acquired := now; lock_reason := w |})
    | None => (Ok true, Some {| holder := u; acquired := now; lock_reason := w |})
    end.
Proof.
  intros Hu. destruct u as [|c u]; [done|]. cbn [acquire]. unfold transaction.
  destruct (expire timeout now d) as [r|]; [|done]. by case_bool_decide.
Qed.

Lemma acquire_true_inv timeout now u w d d1 :
  acquire timeout now (Some u) w d = (Ok true, d1) ->
  u <> [] /\ exists r, d1 = Some {| holder := u; acquired := now; lock_reason := r |}.
Proof.
  destruct u as [|c u]; [done|]. intros H. split; [done|]. destruct w as [w|].
  - rewrite acquire_granted in H by done. destruct (expire _ _ _); [case_bool_decide|]; simplify_eq; by eexists.
  - cbn in H. unfold transaction in H. destruct (expire _ _ _); [case_bool_decide|]; simplify_eq.
Qed.

(** C23. Mutual exclusion of editors.  Once a user has been granted the configuration lock, then along every sequence
    of lock transactions of any processes in which the lease of that user lasts (no clock reading is more than the
    timeout past the user's latest grant, readings that jump back included, the user does not release the lock and
    no override happens), every other user's request is refused, the table keeps naming the user with the instant of
    the latest grant, and the status names the user as holder. *)
Theorem lock_exclusive timeout d0 d1 u w t h a now v w' :
  acquire timeout t (Some u) w d0 = (Ok true, d1) ->
  lease_after timeout u t h = Some a -> gtb (now - a) timeout = false ->
  v <> u -> v <> [] ->
  let d2 := (lock_run timeout h d1).2 in
  Forall2 (refused u) h (lock_run timeout h d1).1
  /\ (exists r, d2 = Some {| holder := u; acquired := a; lock_reason := r |})
  /\ acquire timeout now (Some v) (Some w') d2 = (Ok false, d2)
  /\ (exists s, status timeout now d2 = (Ok (Some s), d2) /\ ls_holder s = u /\ acquired_at s = a).
Proof.
  intros Ha Hl Hn Hv Hv0 d2. apply acquire_true_inv in Ha as (Hu & r & ->).
  destruct (run_held timeout u h t r a Hu Hl) as (Hf & w2 & H2). subst d2. rewrite H2.
  split; [exact Hf|]. split; [by eexists|]. split.
  - rewrite acquire_granted, expire_held by done. cbn [holder]. by rewrite bool_decide_eq_true_2.
  - unfold status, transaction. rewrite expire_held by done. cbn. eexists. split; [reflexivity|done].
Qed.

Lemma lock_exclusive_witness :
  let h := [(Acquire (Some (lit "bob")) (Some (lit "edit")), 10); (Acquire (Some (lit "eve")) (Some (lit "edit")), 5);
            (Acquire (Some (lit "bob")) (Some (lit "edit")), 90); (Release (Some (lit "eve")), 100)] in
  acquire 100 0 (Some (lit "bob")) (Some (lit "edit")) None
    = (Ok true, Some {| holder := lit "bob"; acquired := 0; lock_reason := lit "edit" |})
  /\ lease_after 100 (lit "bob") 0 h = Some 90
  /\ (acquire 100 190 (Some (lit "eve")) (Some (lit "edit"))
       (lock_run 100 h (Some {| holder := lit "bob"; acquired := 0; lock_reason := lit "edit" |})).2).1 = Ok false.
Proof.
  split; [reflexivity|]. split; [vm_compute; reflexivity|].
  rewrite (proj1 (proj2 (proj2 (lock_exclusive 100 None (Some {| holder := lit "bob"; acquired := 0; lock_reason := lit "edit" |})
    (lit "bob") (Some (lit "edit")) 0
    [(Acquire (Some (lit "bob")) (Some (lit "edit")), 10); (Acquire (Some (lit "eve")) (Some (lit "edit")), 5);
     (Acquire (Some (lit "bob")) (Some (lit "edit")), 90); (Release (Some (lit "eve")), 100)]
    90 190 (lit "eve") (lit "edit") eq_refl ltac:(vm_compute; reflexivity) eq_refl ltac:(done) ltac:(done))))).
  reflexivity.
Defined.

(** C36. The lock is never stuck: whatever the table says, a user is granted it as soon as nobody else holds an unexpired
    lease, after a release by the holder and after an override, and a refused request leaves the holder's row alone. *)
Theorem lock_available timeout now u w d : u <> [] ->
  ((acquire timeout now (Some u) (Some w) d).1 = Ok true
   <-> match d with Some r => holder r = u \/ timeout < now - acquired r | None => True end)
  /\ (acquire timeout now (Some u) (Some w) (override timeout now d).2).1 = Ok true
  /\ (forall r, d = Some r ->
        (acquire timeout now (Some u) (Some w) (release timeout now (Some (holder r)) d).2).1 = Ok true).
Proof.
  intros Hu. rewrite !acquire_granted by done.
  split; [|split].
  - destruct d as [r|]; [|done]. cbn [expire]. destruct (gtb (now - acquired r) timeout) eqn:E.
    + apply gtb_lt in E. split; [intros _; by right|done].
    + destruct (decide (holder r = u)) as [Hh|Hh].
      * rewrite bool_decide_eq_false_2 by (intros Hx; by apply Hx). split; [intros _; left; exact Hh|reflexivity].
      * rewrite bool_decide_eq_true_2 by done. cbn. split; [discriminate|]. intros [Hx|Hx]; [by destruct Hh|]. apply gtb_lt in Hx. congruence.
  - unfold override, transaction. cbn. done.
  - intros r ->. rewrite acquire_granted by done. unfold release, transaction. cbn [expire].
    destruct (gtb _ _); [done|]. by rewrite bool_decide_eq_true_2.
Qed.

Lemma lock_available_witness :
  (acquire 100 101 (Some (lit "eve")) (Some (lit "edit"))
     (Some {| holder := lit "bob"; acquired := 0; lock_reason := lit "edit" |})).1 = Ok true.
Proof.
  apply (proj1 (lock_available 100 101 (lit "eve") (lit "edit")
    (Some {| holder := lit "bob"; acquired := 0; lock_reason := lit "edit" |}) ltac:(done))).
  right. reflexivity.
Defined.
