(* ===== verification/CommitApply.v ===== *)
(** * Applying a committed configuration ([ffn_commit_apply.py])

    [ordered_paths] orders the changed paths of a commit, [ApplyCycle] drives the stages of one generation and
    writes its checkpoint, [request_apply] and [await_apply] are the caller's side.  The running configuration, the
    status file and the lists of errors belong to other processes as well: a history interleaves their changes with
    the calls, and every read of a loop or of [checkpoint] sees its own value.  SHA-256 is a function of the bytes;
    nothing here depends on which. *)

From S2P Require Import Prelude PyStr PyDict PyTime.

#[local] Open Scope Z_scope.

(** ** The order of changes *)

(** The lower-case expansion of one code point: besides A-Z only the Kelvin sign and the dotted capital I have ASCII
    letters in their lower case; every other code point stands for itself. *)
Definition lower1 (c : Z) : pystr :=
  if between 65 c 90 then [c + 32] else if c =? 8490 then [107] else if c =? 304 then [105; 775] else [c].
Definition lower (s : pystr) : pystr := concat (map lower1 s).

(** [pattern in s]. *)
Fixpoint starts_with (p s : pystr) : bool :=
  match p, s with
  | [], _ => true
  | x :: p', y :: s' => (x =? y) && starts_with p' s'
  | _, [] => false
  end.
Fixpoint contains (p s : pystr) : bool :=
  starts_with p s || match s with [] => false | _ :: t => contains p t end.

(** [path.replace('/','.')]. *)
Definition dotted (s : pystr) : pystr := map (fun c => if c =? 47 then 46 else c) s.

Definition dependency (path : pystr) : Z :=
  let p := lower (dotted path) in
  let has k := contains (lit k) p in
  if has ".profiles."%string
     || existsb (fun k => contains (lit "." ++ lit k ++ lit ".") p)
          ["address"; "address-group"; "service"; "service-group"]%string then 0
  else if has ".interface."%string then
    if has ".units."%string then 3
    else if has ".aggregate-group"%string then 2
    else if has ".aggregate-ethernet."%string then 1
    else 2
  else if has ".zone."%string then 4
  else if has ".virtual-router."%string then 5
  else if has ".rulebase."%string then 7
  else 6.

(** [p.count('.')]. *)
Definition depth (p : pystr) : Z := blen (List.filter (fun c => c =? 46) p).

Definition removed (row : list (pystr * json)) : bool :=
  match jget (lit "kind") row with JStr k => bool_decide (k = lit "removed") | _ => false end.

Abbreviation change := (pystr * list (pystr * json))%type (only parsing).

Definition sort_key (c : change) : Z * Z * Z * pystr :=
  if removed c.2 then (0, - dependency c.1, - depth c.1, c.1) else (1, dependency c.1, depth c.1, c.1).

(** The order of tuples of three integers and a string. *)
Definition key_leb (a b : Z * Z * Z * pystr) : bool :=
  let '(a1, a2, a3, a4) := a in
  let '(b1, b2, b3, b4) := b in
  (a1 <? b1) || (a1 =? b1) && ((a2 <? b2) || (a2 =? b2) && ((a3 <? b3) || (a3 =? b3) && str_le a4 b4)).

Definition change_leb (a b : change) : bool := key_leb (sort_key a) (sort_key b).

Definition ordered_paths (changes : list change) : list pystr := (py_sorted change_leb changes).*1.

Lemma str_le_trans a b c : str_le a b = true -> str_le b c = true -> str_le a c = true.
Proof.
  revert b c. induction a as [|x a IH]; intros [|y b] [|z c]; cbn; try done.
  rewrite !orb_true_iff, !andb_true_iff, !Z.ltb_lt, !Z.eqb_eq. intros [H|[-> H]] [K|[-> K]]; try (left; lia).
  right. split; [done|]. by eapply IH.
Qed.

Lemma key_leb_total a b : key_leb a b = true \/ key_leb b a = true.
Proof.
  destruct a as [[[a1 a2] a3] a4], b as [[[b1 b2] b3] b4]. cbn.
  rewrite !orb_true_iff, !andb_true_iff, !orb_true_iff, !andb_true_iff, !orb_true_iff, !andb_true_iff, !Z.ltb_lt, !Z.eqb_eq.
  destruct (Z.lt_trichotomy a1 b1) as [?|[?|?]], (Z.lt_trichotomy a2 b2) as [?|[?|?]],
    (Z.lt_trichotomy a3 b3) as [?|[?|?]], (str_le_total a4 b4); auto 10.
Qed.

Lemma key_leb_trans a b c : key_leb a b = true -> key_leb b c = true -> key_leb a c = true.
Proof.
  destruct a as [[[a1 a2] a3] a4], b as [[[b1 b2] b3] b4], c as [[[c1 c2] c3] c4]. cbn.
  rewrite !orb_true_iff, !andb_true_iff, !orb_true_iff, !andb_true_iff, !orb_true_iff, !andb_true_iff, !Z.ltb_lt, !Z.eqb_eq.
  pose proof (str_le_trans a4 b4 c4). intros [?|[? [?|[? [?|[? ?]]]]]] [?|[? [?|[? [?|[? ?]]]]]]; subst; auto 10;
    repeat (first [left; lia | right; split; [lia|]]); auto.
Qed.

Lemma changes_sorted l : StronglySorted (fun a b => change_leb a b = true) (py_sorted change_leb l).
Proof.
  apply Sorted_StronglySorted.
  - intros a b c. apply key_leb_trans.
  - apply py_sorted_Sorted. intros a b. apply key_leb_total.
Qed.

(** What the keys say of two changes in order. *)
Definition before (a b : change) : Prop :=
  match removed a.2, removed b.2 with
  | true, false => True
  | false, true => False
  | true, true => dependency b.1 < dependency a.1 \/ dependency b.1 = dependency a.1 /\ depth b.1 <= depth a.1
  | false, false => dependency a.1 < dependency b.1 \/ dependency a.1 = dependency b.1 /\ depth a.1 <= depth b.1
  end.

Lemma change_leb_before a b : change_leb a b = true -> before a b.
Proof.
  unfold change_leb, sort_key, before. destruct (removed a.2), (removed b.2); cbn; try done;
    rewrite !orb_true_iff, !andb_true_iff, !orb_true_iff, !andb_true_iff, !Z.ltb_lt, !Z.eqb_eq; lia.
Qed.

(** The order of application.  [ordered_paths] lists every changed path exactly once; all removals come first,
    the removals of consumers before those of what they use (dependency rank, then depth, descending), and the other
    changes follow with definitions before their consumers and parents before their children (both ascending). *)
Theorem ordered_paths_order changes :
  exists l, l ≡ₚ changes /\ ordered_paths changes = l.*1 /\ StronglySorted before l.
Proof.
  exists (py_sorted change_leb changes). split; [apply py_sorted_perm|]. split; [done|].
  generalize (changes_sorted changes). induction 1 as [|a l _ IH Ha]; constructor; [exact IH|].
  eapply Forall_impl; [exact Ha|]. intros b. apply change_leb_before.
Qed.

(** ** One apply cycle *)

Definition STAGES : list pystr :=
  map lit ["validation"; "interfaces-and-routes"; "system-settings"; "security-and-nat"; "checkpoint"]%string.

Inductive step_state := Applying | Verified | Failed | Incomplete.
Record apply_step := { st_name : pystr; st_state : step_state; st_started : Q; st_finished : option Q }.

Inductive apply_fault := ChangedDuringApply | WrongOrder | EarlierFailed | FileError | NotADict.

(** What other processes and the providers write: the running file, the errors of the status, and the checkpoint. *)
Record world := {
  running : option bytes; errors : list pystr; validation_errors : list pystr;
  destination : option bytes; published : option (list apply_step) }.

(** [steps] is the list the status shows as [commit_phases]. *)
Record cycle := { snapshot : bytes; digest : pystr; steps : list apply_step; position : Z }.

Section apply.
Context (sha256 : bytes -> pystr).

Definition apply_cycle (path : option bytes) : result apply_fault cycle :=
  match path with
  | Some b => Ok {| snapshot := b; digest := sha256 b; steps := []; position := -1 |}
  | None => Err FileError
  end.

Definition current (path : option bytes) (c : cycle) : result apply_fault unit :=
  match path with
  | None => Err FileError
  | Some b => raise_if (negb (bool_decide (b = snapshot c))) ChangedDuringApply
  end.

(** [STAGES.index(name)] when [name] is a stage. *)
Definition stage_index (name : pystr) : option Z := (fun p => Z.of_nat p.1) <$> list_find (eq name) STAGES.

Definition failed (w : world) : bool :=
  negb (length (errors w) =? 0)%nat || negb (length (validation_errors w) =? 0)%nat.

(** [steps[-1].update(state=..., finished=...)]. *)
Definition update_last (s : step_state) (now : Q) (l : list apply_step) : list apply_step :=
  match last l with
  | Some x => take (length l - 1) l
              ++ [{| st_name := st_name x; st_state := s; st_started := st_started x; st_finished := Some now |}]
  | None => l
  end.

Definition advance (name : pystr) (now now' : Q) (w : world) (c : cycle) : result apply_fault cycle :=
  _ ← raise_if (negb (bool_decide (stage_index name = Some (position c + 1)))) WrongOrder;
  _ ← current (running w) c;
  _ ← raise_if (failed w) EarlierFailed;
  Ok {| snapshot := snapshot c; digest := digest c; position := position c + 1;
        steps := update_last Verified now (steps c)
                 ++ [{| st_name := name; st_state := Applying; st_started := now'; st_finished := None |}] |}.

Definition finish (now : Q) (w : world) (c : cycle) : cycle :=
  {| snapshot := snapshot c; digest := digest c; position := position c;
     steps := update_last (if failed w then Failed else if position c =? 4 then Verified else Incomplete) now (steps c) |}.

(** What the file system does during [checkpoint]: writing the temporary file, the second read of the running
    configuration, the rename and the directory sync.  The temporary file is unlinked on every path. *)
Record checkpoint_io := { io_write : bool; io_running : option bytes; io_replace : bool; io_sync : bool }.

Definition publish (has_write : bool) (c : cycle) (w : world) : world :=
  {| running := running w; errors := errors w; validation_errors := validation_errors w; destination := destination w;
     published := if has_write then Some (steps c) else published w |}.

Definition put_destination (b : bytes) (w : world) : world :=
  {| running := running w; errors := errors w; validation_errors := validation_errors w; destination := Some b;
     published := published w |}.

Definition checkpoint (io : checkpoint_io) (has_write : bool) (now now' : Q) (w : world) (c : cycle)
    : result apply_fault unit * (world * cycle) :=
  match advance (lit "checkpoint") now now' w c with
  | Err e => (Err e, (w, c))
  | Ok c1 =>
      let w1 := publish has_write c1 w in
      if negb (io_write io) then (Err FileError, (w1, c1)) else
      match current (io_running io) c1 with
      | Err e => (Err e, (w1, c1))
      | Ok _ =>
          if negb (io_replace io) then (Err FileError, (w1, c1)) else
          (if io_sync io then Ok tt else Err FileError, (put_destination (snapshot c1) w1, c1))
      end
  end.

(** ** Histories of a cycle *)

Inductive event :=
| Others (path : option bytes) (errs verrs : list pystr)      (* other processes and the providers *)
| Advance (name : pystr) (now now' : Q)
| Finish (now : Q)
| Checkpoint (io : checkpoint_io) (now now' : Q).

Definition apply_event (has_write : bool) (s : world * cycle) (e : event) : world * cycle :=
  let '(w, c) := s in
  match e with
  | Others path errs verrs =>
      ({| running := path; errors := errs; validation_errors := verrs; destination := destination w; published := published w |}, c)
  | Advance name now now' =>
      match advance name now now' w c with Ok c1 => (publish has_write c1 w, c1) | Err _ => s end
  | Finish now => (w, finish now w c)
  | Checkpoint io now now' => (checkpoint io has_write now now' w c).2
  end.

Definition apply_history (has_write : bool) (s : world * cycle) (h : list event) : world * cycle :=
  fold_left (apply_event has_write) h s.

(** ** The invariant of a cycle *)

Definition step_done (s : apply_step) : Prop := st_state s = Verified /\ is_Some (st_finished s).

Record cycle_ok (b : bytes) (c : cycle) : Prop := {
  ok_snapshot : snapshot c = b;
  ok_position : -1 <= position c <= 4;
  ok_names : st_name <$> steps c = take (Z.to_nat (position c + 1)) STAGES;
  ok_done : Forall step_done (take (length (steps c) - 1) (steps c)) }.

Lemma update_last_snoc s now l x :
  update_last s now (l ++ [x]) =
    l ++ [{| st_name := st_name x; st_state := s; st_started := st_started x; st_finished := Some now |}].
Proof. unfold update_last. rewrite last_snoc, length_app. cbn [length]. by rewrite take_app_length' by lia. Qed.

Lemma list_snoc {A} (l : list A) : l = [] \/ exists l' x, l = l' ++ [x].
Proof. induction l as [|x l _] using rev_ind; [by left|right; by eexists _, _]. Qed.

Lemma update_last_names s now l : st_name <$> update_last s now l = st_name <$> l.
Proof. destruct (list_snoc l) as [->|(l' & x & ->)]; [done|]. by rewrite update_last_snoc, !fmap_app. Qed.

Lemma take_snoc {A} (l : list A) x : take (length (l ++ [x]) - 1) (l ++ [x]) = l.
Proof. rewrite length_app. cbn [length]. by rewrite take_app_length' by lia. Qed.

Lemma update_last_done s now l : Forall step_done (take (length l - 1) l) ->
  Forall step_done (take (length (update_last s now l) - 1) (update_last s now l))
  /\ (s = Verified -> Forall step_done (update_last s now l)).
Proof.
  destruct (list_snoc l) as [->|(l' & x & ->)]; [done|]. rewrite take_snoc, update_last_snoc, take_snoc.
  intros H. split; [done|]. intros ->. apply Forall_app. split; [done|]. by repeat constructor.
Qed.

Lemma stage_index_lookup name i : stage_index name = Some i -> 0 <= i <= 4 /\ STAGES !! Z.to_nat i = Some name.
Proof.
  unfold stage_index. intros H. apply fmap_Some in H as ([k y] & Hf & ->). apply list_find_Some in Hf as (Hk & -> & _).
  pose proof (lookup_lt_Some _ _ _ Hk) as Hl. change (length STAGES) with 5%nat in Hl. cbn [fst]. rewrite Nat2Z.id. split; [lia|done].
Qed.

Lemma advance_ok_inv name now now' w c c1 : advance name now now' w c = Ok c1 ->
  stage_index name = Some (position c + 1) /\ running w = Some (snapshot c) /\ errors w = [] /\ validation_errors w = []
  /\ snapshot c1 = snapshot c /\ position c1 = position c + 1
  /\ steps c1 = update_last Verified now (steps c)
                ++ [{| st_name := name; st_state := Applying; st_started := now'; st_finished := None |}].
Proof.
  unfold advance, current, failed. intros H. inv_res. cbn. zb.
  destruct (running w) as [b|]; [|done]. inv_res. zb.
  repeat match goal with H : bool_decide _ = true |- _ => apply bool_decide_eq_true in H end. subst.
  destruct (errors w); [|done]. destruct (validation_errors w); done.
Qed.

Lemma advance_cycle_ok b name now now' w c c1 : cycle_ok b c -> advance name now now' w c = Ok c1 -> cycle_ok b c1.
Proof.
  intros [Hs Hp Hn Hd] H. apply advance_ok_inv in H as (Hi & _ & _ & _ & Hs1 & Hp1 & He).
  apply stage_index_lookup in Hi as [Hr Hl]. split.
  - congruence.
  - lia.
  - rewrite He, Hp1, fmap_app, update_last_names, Hn. cbn.
    replace (Z.to_nat (position c + 1 + 1)) with (S (Z.to_nat (position c + 1))) by lia. symmetry. by apply take_S_r.
  - rewrite He, take_snoc. by apply (update_last_done Verified now) in Hd as [_ ?]; auto.
Qed.

Lemma finish_cycle_ok b now w c : cycle_ok b c -> cycle_ok b (finish now w c).
Proof.
  intros [Hs Hp Hn Hd]. split; cbn; try done.
  - by rewrite update_last_names.
  - by apply update_last_done.
Qed.

(** Either a checkpoint attempt leaves the checkpoint file alone, or every condition of an acknowledgement held. *)
Lemma checkpoint_cases io has_write now now' w c r w1 c1 :
  checkpoint io has_write now now' w c = (r, (w1, c1)) ->
  (c1 = c \/ advance (lit "checkpoint") now now' w c = Ok c1)
  /\ (destination w1 = destination w
      \/ destination w1 = Some (snapshot c) /\ advance (lit "checkpoint") now now' w c = Ok c1
         /\ io_running io = Some (snapshot c)).
Proof.
  unfold checkpoint. destruct (advance _ _ _ _ _) as [c2|e] eqn:E; [|intros [= _ <- <-]; auto].
  assert (snapshot c2 = snapshot c) as Hs by (by apply advance_ok_inv in E as (_ & _ & _ & _ & ? & _)).
  destruct (io_write io); cbn; [|intros [= _ <- <-]; auto].
  destruct (current (io_running io) c2) as [u|e] eqn:Ec; [|intros [= _ <- <-]; auto].
  destruct (io_replace io); cbn; [|intros [= _ <- <-]; auto]. intros [= _ <- <-]. split; [auto|]. right. cbn.
  rewrite Hs. split; [done|]. split; [done|]. revert Ec. unfold current. destruct (io_running io) as [b|]; [|done].
  intros H. inv_res. zb. apply bool_decide_eq_true in H. congruence.
Qed.

Lemma event_cycle_ok b has_write w c e : cycle_ok b c -> cycle_ok b (apply_event has_write (w, c) e).2.
Proof.
  intros Hc. destruct e as [path errs verrs|name now now'|now|io now now']; cbn [apply_event].
  - done.
  - destruct (advance _ _ _ _ _) eqn:E; [|done]. by eapply advance_cycle_ok.
  - by apply finish_cycle_ok.
  - destruct (checkpoint _ _ _ _ _ _) as [r [w1 c1]] eqn:E. apply checkpoint_cases in E as [[->|H] _]; [done|].
    by eapply advance_cycle_ok.
Qed.

Lemma history_cycle_ok b has_write h : forall s, cycle_ok b s.2 -> cycle_ok b (apply_history has_write s h).2.
Proof.
  induction h as [|e h IH]; intros [w c] Hc; [done|]. apply (IH (apply_event has_write (w, c) e)).
  by apply event_cycle_ok.
Qed.

(** The conditions under which a checkpoint call acknowledges the snapshot. *)
Record acknowledges (b : bytes) (s : world * cycle) (io : checkpoint_io) : Prop := {
  ack_stages : st_name <$> steps s.2 = take 4 STAGES;
  ack_first_read : running s.1 = Some b;
  ack_second_read : io_running io = Some b;
  ack_errors : errors s.1 = [] /\ validation_errors s.1 = [] }.

Lemma event_destination b has_write w c e : cycle_ok b c ->
  let s' := apply_event has_write (w, c) e in
  destination s'.1 = destination w
  \/ destination s'.1 = Some b /\ exists io now now', e = Checkpoint io now now' /\ acknowledges b (w, c) io.
Proof.
  intros Hc. destruct e as [path errs verrs|name now now'|now|io now now']; cbn [apply_event].
  - by left.
  - left. by destruct (advance _ _ _ _ _).
  - by left.
  - destruct (checkpoint _ _ _ _ _ _) as [r [w1 c1]] eqn:E. apply checkpoint_cases in E as [_ [H|(Hd & Ha & Hr)]]; [by left|].
    right. destruct Hc as [Hs Hp Hn _]. rewrite Hs in *. split; [done|]. exists io, now, now'. split; [done|].
    apply advance_ok_inv in Ha as (Hi & Hrun & He & Hv & _). rewrite Hs in *.
    assert (position c = 3) as Hpc by (assert (stage_index (lit "checkpoint") = Some 4) as Hk by reflexivity; rewrite Hk in Hi; injection Hi; lia).
    split; cbn; [by rewrite Hn, Hpc|done|done|done].
Qed.

(** C22. Only a fully applied generation is acknowledged.  Along every history of one apply cycle, with any changes of
    the running file and of the errors by other processes in between, the checkpoint file either keeps the content it
    had, or it holds exactly the snapshot the cycle was started with and some checkpoint call was made after the four
    earlier stages had been entered in order, with no error reported and with the running configuration read equal to
    the snapshot both before and after the copy was written; all stages before the last one entered are verified. *)
Theorem checkpoint_acknowledged has_write w c h :
  apply_cycle (running w) = Ok c ->
  let s := apply_history has_write (w, c) h in
  let b := snapshot c in
  cycle_ok b s.2
  /\ (destination s.1 = destination w
      \/ destination s.1 = Some b
         /\ exists pre io now now' post, h = pre ++ Checkpoint io now now' :: post
              /\ acknowledges b (apply_history has_write (w, c) pre) io).
Proof.
  intros Hi s b. assert (cycle_ok b c) as Hc.
  { unfold apply_cycle in Hi. destruct (running w); [|done]. apply ok_inj in Hi. subst c. split; cbn; try done; lia. }
  split; [by apply history_cycle_ok|]. subst s. clearbody b. clear Hi.
  induction h as [|e h IH] using rev_ind; [by left|]. unfold apply_history in *. rewrite fold_left_app. cbn [fold_left].
  pose proof (history_cycle_ok b has_write h (w, c) Hc) as Hk. unfold apply_history in Hk.
  destruct (fold_left (apply_event has_write) h (w, c)) as [w1 c1] eqn:E. cbn [fst snd] in *.
  destruct (event_destination b has_write w1 c1 e Hk) as [Hd|(Hd & io & now & now' & -> & Ha)].
  - rewrite Hd. destruct IH as [IH|(IH & pre & io & now & now' & post & -> & Ha)]; [by left|]. right. split; [done|].
    exists pre, io, now, now', (post ++ [e]). split; [by rewrite <- app_assoc|done].
  - right. split; [done|]. exists h, io, now, now', []. split; [done|]. by rewrite E.
Qed.

(** ** Waiting for the apply *)

Record apply_request := { rq_generation : pystr; rq_requested : Z }.

(** The generation of the running configuration, the age of the status file and the request that is left. *)
Definition request_apply (path : option bytes) (status_mtime : option Z) (now : Z)
    : result apply_fault (pystr * Z * apply_request) :=
  match path with
  | None => Err FileError
  | Some b => let g := sha256 b in Ok (g, default 0 status_mtime, {| rq_generation := g; rq_requested := now |})
  end.

(** What one turn of the loop reads: the clock, the running file, and the status file, which may be missing; its
    content is [None] when it cannot be read or is not JSON. *)
Record poll := { p_clock : Q; p_running : option bytes; p_status : option (Z * option json) }.

Inductive report :=
| Superseded (generation : pystr)
| Finished (row : list (pystr * json))
| Pending (generation : pystr) (in_progress : bool) (phases : json).

Definition str_is (v : json) (s : pystr) : bool := match v with JStr t => bool_decide (t = s) | _ => false end.
Definition final_row (row : list (pystr * json)) : bool :=
  truthy (jget (lit "finished_at") row)
  && existsb (fun k => str_is (jget (lit "overall") row) (lit k)) ["applied"; "partial-failure"; "validation-failed"]%string.

Fixpoint await_loop (generation : pystr) (since : Z) (deadline : Q) (latest : option (list (pystr * json))) (l : list poll)
    : option (result apply_fault report) :=
  match l with
  | [] => None
  | p :: t =>
      if Qle_bool deadline (p_clock p) then
        Some (Ok (Pending generation (if latest then true else false) (jget_default (lit "phases") (JList []) (default [] latest))))
      else
      match p_running p with
      | None => Some (Err FileError)
      | Some b =>
          if negb (bool_decide (sha256 b = generation)) then Some (Ok (Superseded generation)) else
          match p_status p with
          | Some (mtime, content) =>
              if since <? mtime then
                match content with
                | None => await_loop generation since deadline latest t
                | Some (JObj row) =>
                    if str_is (jget (lit "commit_generation") row) generation then
                      if final_row row then Some (Ok (Finished row)) else await_loop generation since deadline (Some row) t
                    else await_loop generation since deadline latest t
                | Some _ => Some (Err NotADict)
                end
              else await_loop generation since deadline latest t
          | None => await_loop generation since deadline latest t
          end
      end
  end.

Definition await_apply (generation : pystr) (since : Z) (timeout start : Q) (l : list poll) : option (result apply_fault report) :=
  await_loop generation since (start + timeout) None l.

(** The evidence behind a finished report. *)
Definition evidence (generation : pystr) (since : Z) (row : list (pystr * json)) (p : poll) : Prop :=
  (exists b, p_running p = Some b /\ sha256 b = generation)
  /\ (exists mtime, p_status p = Some (mtime, Some (JObj row)) /\ since < mtime)
  /\ jget (lit "commit_generation") row = JStr generation /\ final_row row = true.

Lemma str_is_eq v s : str_is v s = true -> v = JStr s.
Proof. destruct v; cbn; try done. by intros ->%bool_decide_eq_true. Qed.

Lemma await_loop_sound generation since deadline l : forall latest r,
  await_loop generation since deadline latest l = Some (Ok r) ->
  match r with
  | Finished row => exists p, p ∈ l /\ evidence generation since row p
  | Superseded g => g = generation /\ exists p b, p ∈ l /\ p_running p = Some b /\ sha256 b <> generation
  | Pending g _ _ => g = generation /\ exists p, p ∈ l /\ Qle deadline (p_clock p)
  end.
Proof.
  induction l as [|p l IH]; intros latest r; [done|]. cbn [await_loop].
  assert (forall latest, await_loop generation since deadline latest l = Some (Ok r) ->
    match r with
    | Finished row => exists q, q ∈ p :: l /\ evidence generation since row q
    | Superseded g => g = generation /\ exists q b, q ∈ p :: l /\ p_running q = Some b /\ sha256 b <> generation
    | Pending g _ _ => g = generation /\ exists q, q ∈ p :: l /\ Qle deadline (p_clock q)
    end) as Hrec.
  { intros lt Hx. apply IH in Hx. destruct r; [destruct Hx as (? & q & b & ? & ?); split; [done|]; exists q, b
      |destruct Hx as (q & ? & ?); exists q|destruct Hx as (? & q & ? & ?); split; [done|]; exists q]; set_solver. }
  destruct (Qle_bool deadline (p_clock p)) eqn:Eq.
  { intros [= <-]. split; [done|]. exists p. split; [set_solver|]. by apply Qle_bool_iff. }
  destruct (p_running p) as [b|] eqn:Eb; [|done]. case_bool_decide as Hg; cbn [negb].
  2: { intros [= <-]. split; [done|]. exists p, b. split; [set_solver|done]. }
  destruct (p_status p) as [[mtime content]|] eqn:Es; [|by apply Hrec]. destruct (since <? mtime) eqn:Em; [|by apply Hrec].
  destruct content as [[| | | | | |row]|]; try done; [|by apply Hrec].
  destruct (str_is _ _) eqn:Ec; [|by apply Hrec]. destruct (final_row row) eqn:Ef; [|by apply Hrec].
  intros [= <-]. exists p. split; [set_solver|]. split; [by exists b|]. split; [exists mtime; split; [done|lia]|].
  by apply str_is_eq in Ec.
Qed.

Lemma await_loop_ends generation since deadline l : forall latest,
  Exists (fun p => Qle deadline (p_clock p)) l -> await_loop generation since deadline latest l <> None.
Proof.
  intros latest H. revert latest. induction H as [p l H|p l _ IH]; intros latest; cbn [await_loop].
  - apply Qle_bool_iff in H. by rewrite H.
  - case_ifs; try done; repeat case_match; try done; apply IH.
Qed.

(** A caller that asks for an apply and waits is told the truth.  The wait ends when the clock passes the deadline;
    a finished report is the status row of exactly the generation that was requested, written after the request, read
    while the running configuration still was that generation; a superseded report means the running configuration
    was seen with another digest; and a pending report only comes after the deadline. *)
Theorem await_apply_sound b mtime now generation since rq timeout start l :
  request_apply (Some b) mtime now = Ok (generation, since, rq) ->
  generation = sha256 b /\ rq_generation rq = sha256 b
  /\ (Exists (fun p => Qle (start + timeout) (p_clock p)) l -> await_apply generation since timeout start l <> None)
  /\ (forall r, await_apply generation since timeout start l = Some (Ok r) ->
      match r with
      | Finished row => exists p, p ∈ l /\ evidence (sha256 b) (default 0 mtime) row p
      | Superseded g => g = sha256 b /\ exists p b', p ∈ l /\ p_running p = Some b' /\ sha256 b' <> sha256 b
      | Pending g _ _ => g = sha256 b /\ exists p, p ∈ l /\ Qle (start + timeout) (p_clock p)
      end).
Proof.
  intros [= <- <- <-]. split; [done|]. split; [done|]. split; [apply await_loop_ends|]. intros r. apply await_loop_sound.
Qed.

End apply.

(** ** Witnesses *)

(** A cycle that nobody disturbs, and one whose running file changes before the second read. *)
Definition quiet_world : world :=
  {| running := Some [60; 62]; errors := []; validation_errors := []; destination := None; published := None |}.
Definition quiet_history (second : bytes) : list event :=
  map (fun n => Advance n 1%Q 1%Q) (take 4 STAGES)
  ++ [Checkpoint {| io_write := true; io_running := Some second; io_replace := true; io_sync := true |} 2%Q 2%Q; Finish 3%Q].
Definition demo_hash (b : bytes) : pystr := hex b.
Definition quiet_cycle : cycle := {| snapshot := [60; 62]; digest := demo_hash [60; 62]; steps := []; position := -1 |}.

Lemma checkpoint_acknowledged_witness :
  let s := apply_history true (quiet_world, quiet_cycle) (quiet_history [60; 62]) in
  cycle_ok [60; 62] s.2 /\ destination s.1 = Some [60; 62] /\ st_state <$> steps s.2 = replicate 5 Verified
  /\ destination (apply_history true (quiet_world, quiet_cycle) (quiet_history [60])).1 = None.
Proof.
  split; [exact (proj1 (checkpoint_acknowledged demo_hash true quiet_world quiet_cycle (quiet_history [60; 62]) eq_refl))|].
  repeat split; vm_compute; reflexivity.
Defined.

Definition demo_row : list (pystr * json) :=
  [(lit "commit_generation", JStr (demo_hash [60])); (lit "finished_at", JInt 5); (lit "overall", JStr (lit "applied"))].
Definition demo_poll : poll := {| p_clock := 1%Q; p_running := Some [60]; p_status := Some (7, Some (JObj demo_row)) |}.

Lemma await_apply_sound_witness :
  await_apply demo_hash (demo_hash [60]) 3 120%Q 0%Q [demo_poll] = Some (Ok (Finished demo_row))
  /\ evidence demo_hash (demo_hash [60]) 3 demo_row demo_poll.
Proof.
  split; [vm_compute; reflexivity|].
  destruct (proj2 (proj2 (proj2 (await_apply_sound demo_hash [60] (Some 3) 0 (demo_hash [60]) 3
    {| rq_generation := demo_hash [60]; rq_requested := 0 |} 120%Q 0%Q [demo_poll] eq_refl))) (Finished demo_row))
    as (p & Hp & He); [vm_compute; reflexivity|]. apply list_elem_of_singleton in Hp. by subst p.
Defined.
