(* ===== verification/SecurityTokens.v ===== *)
(** * Session tokens of the security rules ([ffn_security_runtime.tokens_for], [prepare])

    Every allow rule of a generation gets a number, its token.  The token is written into the connection label by the
    rule's chain ([SecurityNft]), comes back in the conntrack events ([NetlinkEvents]) and names the rule in the
    journal ([SessionJournal]).  This file composes the three: whatever was registered before, the tokens of a new
    generation are fresh, and each leads back to exactly its rule. *)

From S2P Require Import Prelude PyStr PyDict NetlinkEvents SessionJournal.
From S2P Require Import PyIp PyXml PyIp6 PolicyObjects Ipv6Settings PolicyConfig NatPolicy PolicyPlan SecurityNft.

(** The dictionary [metadata[token]]; the implicit rule has no [forwarding_profile]. *)
Record rule_meta := {
  tm_scope : option pystr; tm_name : pystr; tm_revision : Z; tm_start : bool; tm_end : bool; tm_forwarding : option (option pystr) }.

Record tstate := { t_counter : Z; t_tokens : list ((option pystr * pystr) * Z); t_metadata : list (Z * rule_meta) }.

(** One rule of the plan. *)
Definition token_row (revision : Z) (scope : option pystr) (st : tstate) (rw : row) : result PolicyObjects.exn tstate :=
  match row_action rw with
  | Some (ASecurity type _ _ _ _ log_start log_end forwarding) =>
      if negb (bool_decide (type = lit "allow")) then Ok st else
      let counter := t_counter st + 1 in
      let token := revision * 2048 + counter in
      Ok {| t_counter := counter;
            t_tokens := dset (scope, row_name rw) token (t_tokens st);
            t_metadata := dset token {| tm_scope := scope; tm_name := row_name rw; tm_revision := revision; tm_start := log_start;
                                        tm_end := log_end; tm_forwarding := Some forwarding |} (t_metadata st) |}
  | _ => Err PolicyObjects.ValueError
  end.

(** The text of [str(report['blockers'])]. *)
Definition token_scope (repr : list (pystr * PolicyObjects.exn) -> pystr) (root : element) (revision : Z) (st : tstate)
    (so : option pystr * element) : result PolicyObjects.exn tstate :=
  pl ← compile_policy root Security so.1;
  if negb (plan_ok pl) then Err (NatError (repr (blockers pl))) else
  foldM_res (token_row revision so.1) st (rows pl).

Definition implicit_id : option pystr * pystr := (Some (lit "implicit"), lit "intrazone-default").

Definition tokens_for (repr : list (pystr * PolicyObjects.exn) -> pystr) (root : element) (revision : Z)
    : result PolicyObjects.exn (list ((option pystr * pystr) * Z) * list (Z * rule_meta)) :=
  st ← foldM_res (token_scope repr root revision) {| t_counter := 0; t_tokens := []; t_metadata := [] |} (owners root);
  if (2047 <=? t_counter st) || negb ((1 <=? revision) && (revision <? 524287))
  then Err (NatError (lit "Security generation capacity exhausted")) else
  let token := revision * 2048 + 2047 in
  Ok (dset implicit_id token (t_tokens st),
      dset token {| tm_scope := implicit_id.1; tm_name := implicit_id.2; tm_revision := revision; tm_start := false;
                    tm_end := false; tm_forwarding := None |} (t_metadata st)).

(** [SELECT coalesce(max(token),0) FROM rules]. *)
Definition max_token (d : db) : Z := match (rules d).*1 with [] => 0 | t :: l => fold_left Z.max l t end.
Definition next_generation (d : db) : Z := max_token d / 2048 + 1.

(** The row [register] stores for a rule: the JSON text of its dictionary, of which the journal reads the two flags. *)
Definition stored_rule (dumps : rule_meta -> pystr) (m : rule_meta) : rule :=
  {| log_start := tm_start m; log_end := tm_end m; meta := dumps m |}.

(** ** The loop *)

Definition names (m : rule_meta) (id : option pystr * pystr) : Prop := tm_scope m = id.1 /\ tm_name m = id.2.

Record tokens_inv (revision : Z) (st : tstate) : Prop := {
  ti_counter : 0 <= t_counter st;
  ti_range : Forall (fun kv => revision * 2048 < kv.1 <= revision * 2048 + t_counter st) (t_metadata st);
  ti_dict : dict_ok (t_metadata st);
  ti_names : forall id n, dget id (t_tokens st) = Some n ->
    exists m, dget n (t_metadata st) = Some m /\ names m id /\ tm_revision m = revision }.

Definition allows (rw : row) : Prop :=
  exists icmp pm g ind ls le fw, row_action rw = Some (ASecurity (lit "allow") icmp pm g ind ls le fw).

Lemma token_row_inv revision scope st rw st' : tokens_inv revision st -> token_row revision scope st rw = Ok st' ->
  tokens_inv revision st' /\ (forall id, is_Some (dget id (t_tokens st)) -> is_Some (dget id (t_tokens st')))
  /\ (allows rw -> is_Some (dget (scope, row_name rw) (t_tokens st'))).
Proof.
  intros [C R D N] H. unfold token_row in H. destruct (row_action rw) as [[type ? ? ? ? ls le fw| | | | |]|] eqn:Ea; try done.
  case_bool_decide as Ht; cbn [negb] in H.
  2: { apply ok_inj in H as <-. split; [done|]. split; [done|]. intros (? & ? & ? & ? & ? & ? & ? & Hx). congruence. }
  apply ok_inj in H as <-. cbn [t_counter t_tokens t_metadata]. split; [|split].
  - split; cbn [t_counter t_tokens t_metadata]; [lia| |by apply dict_ok_dset|].
    + apply Forall_forall. intros kv Hkv. apply elem_dset in Hkv as [->|Hkv]; cbn [fst]; [lia|].
      rewrite Forall_forall in R. apply R in Hkv. lia.
    + intros id n. rewrite dget_dset. destruct (decide (id = _)) as [->|Hne].
      * intros [= <-]. rewrite dget_dset_eq. eexists. split; [done|]. done.
      * intros Hd. destruct (N id n Hd) as (m & Hm & Hn). exists m. rewrite dget_dset_ne; [done|].
        intros ->. apply dget_In in Hm. rewrite Forall_forall in R. apply R in Hm. cbn in Hm. lia.
  - intros id Hid. rewrite dget_dset. by destruct (decide _).
  - intros _. rewrite dget_dset_eq. by eexists.
Qed.

Lemma token_rows_inv revision scope rws : forall st st', tokens_inv revision st ->
  foldM_res (token_row revision scope) st rws = Ok st' ->
  tokens_inv revision st' /\ (forall id, is_Some (dget id (t_tokens st)) -> is_Some (dget id (t_tokens st')))
  /\ (forall rw, rw ∈ rws -> allows rw -> is_Some (dget (scope, row_name rw) (t_tokens st'))).
Proof.
  induction rws as [|rw rws IH]; intros st st' Hi H; cbn [foldM_res] in H.
  - apply ok_inj in H as <-. split; [done|]. split; [done|]. intros rw []%not_elem_of_nil.
  - apply bind_ok_inv in H as (st1 & H1 & H). destruct (token_row_inv _ _ _ _ _ Hi H1) as (I1 & M1 & A1).
    destruct (IH _ _ I1 H) as (I2 & M2 & A2). split; [done|]. split; [auto|].
    intros rw' [->|Hin]%elem_of_cons; auto.
Qed.

Lemma token_scopes_inv repr root revision os : forall st st', tokens_inv revision st ->
  foldM_res (token_scope repr root revision) st os = Ok st' ->
  tokens_inv revision st' /\ (forall id, is_Some (dget id (t_tokens st)) -> is_Some (dget id (t_tokens st')))
  /\ (forall scope pl rw, scope ∈ os.*1 -> compile_policy root Security scope = Ok pl -> rw ∈ rows pl -> allows rw ->
        is_Some (dget (scope, row_name rw) (t_tokens st'))).
Proof.
  induction os as [|so os IH]; intros st st' Hi H; cbn [foldM_res] in H.
  - apply ok_inj in H as <-. split; [done|]. split; [done|]. intros scope pl rw []%not_elem_of_nil.
  - apply bind_ok_inv in H as (st1 & H1 & H). unfold token_scope in H1. apply bind_ok_inv in H1 as (pl & Hpl & H1).
    destruct (negb (plan_ok pl)); [done|]. destruct (token_rows_inv _ _ _ _ _ Hi H1) as (I1 & M1 & A1).
    destruct (IH _ _ I1 H) as (I2 & M2 & A2). split; [done|]. split; [auto|].
    intros scope pl' rw. rewrite fmap_cons. intros [->|Hin]%elem_of_cons; [|by apply A2].
    intros Hpl' Hrw Ha. apply M2, A1; [|done]. congruence.
Qed.

(** What [tokens_for] promises. *)
Record tokens_ok (root : element) (revision : Z) (t : list ((option pystr * pystr) * Z)) (md : list (Z * rule_meta)) : Prop := {
  tk_revision : 1 <= revision < 524287;
  tk_dict : dict_ok md;
  tk_range : Forall (fun kv => revision * 2048 < kv.1 < (revision + 1) * 2048) md;
  tk_names : forall id n, dget id t = Some n -> exists m, dget n md = Some m /\ names m id /\ tm_revision m = revision;
  tk_rules : forall scope pl rw, scope ∈ (owners root).*1 -> compile_policy root Security scope = Ok pl -> rw ∈ rows pl ->
    allows rw -> is_Some (dget (scope, row_name rw) t);
  tk_implicit : is_Some (dget implicit_id t) }.

Lemma tokens_for_ok repr root revision t md : tokens_for repr root revision = Ok (t, md) -> tokens_ok root revision t md.
Proof.
  unfold tokens_for. intros H. apply bind_ok_inv in H as (st & Hst & H).
  destruct ((2047 <=? t_counter st) || _) eqn:E; [done|]. apply ok_inj in H. injection H as <- <-.
  apply orb_false_iff in E as [Ec Er]. apply Z.leb_gt in Ec. zb.
  destruct (token_scopes_inv repr root revision (owners root) {| t_counter := 0; t_tokens := []; t_metadata := [] |} st) as ([C R D N] & _ & A).
  { split; cbn; [lia | constructor | apply NoDup_nil_2 | done]. }
  { exact Hst. }
  split.
  - lia.
  - by apply dict_ok_dset.
  - apply Forall_forall. intros kv Hkv. apply elem_dset in Hkv as [->|Hkv]; cbn [fst]; [lia|].
    rewrite Forall_forall in R. apply R in Hkv. lia.
  - intros id n. rewrite dget_dset. destruct (decide (id = implicit_id)) as [->|Hne].
    + intros [= <-]. rewrite dget_dset_eq. eexists. split; [done|]. done.
    + intros Hd. destruct (N id n Hd) as (m & Hm & Hn). exists m. rewrite dget_dset_ne; [done|].
      intros ->. apply dget_In in Hm. rewrite Forall_forall in R. apply R in Hm. cbn in Hm. lia.
  - intros scope pl rw Hs Hpl Hrw Ha. rewrite dget_dset. destruct (decide _); [done|]. by eapply A.
  - rewrite dget_dset_eq. by eexists.
Qed.

(** ** Registration in the journal *)

Lemma fold_max_le l : forall a, a <= fold_left Z.max l a /\ Forall (fun x => x <= fold_left Z.max l a) l.
Proof.
  induction l as [|x l IH]; intros a; cbn [fold_left]; [split; [lia|constructor]|].
  destruct (IH (Z.max a x)) as [H1 H2]. split; [lia|]. constructor; [lia|done].
Qed.

Lemma max_token_bound d n r : dget n (rules d) = Some r -> n <= max_token d.
Proof.
  intros H. apply dget_In, (list_elem_of_fmap_2 fst) in H. unfold max_token. cbn [fst] in H. destruct ((rules d).*1) as [|t l].
  - by apply not_elem_of_nil in H.
  - destruct (fold_max_le l t) as [H1 H2]. apply elem_of_cons in H as [->|H]; [done|]. rewrite Forall_forall in H2. by apply H2.
Qed.

Lemma register_fresh (new : list (Z * rule)) : forall d, dict_ok new ->
  Forall (fun kv => dget kv.1 (rules d) = None) new ->
  foldM_res register_one d new =
    Ok {| rules := rules d ++ new; sessions := sessions d; events := events d; health := health d |}.
Proof.
  induction new as [|kv new IH]; intros d Hd Hf; cbn [foldM_res].
  - rewrite app_nil_r. by destruct d.
  - apply Forall_cons in Hf as [Hk Hf]. assert (register_one d kv = Ok {| rules := rules d ++ [kv]; sessions := sessions d; events := events d; health := health d |}) as ->
      by (unfold register_one; by rewrite Hk).
    cbn [mbind result_bind].
    unfold dict_ok in Hd. rewrite fmap_cons in Hd. apply NoDup_cons in Hd as [Hn Hd]. rewrite IH; [|done|].
    + cbn. by rewrite <- app_assoc.
    + cbn [rules]. apply Forall_forall. intros kv' Hin. rewrite Forall_forall in Hf. rewrite dget_app, (Hf _ Hin).
      destruct kv as [k r]. cbn. destruct (decide (kv'.1 = k)) as [Heq|]; [|done].
      exfalso. apply Hn. cbn. rewrite <- Heq. by apply (list_elem_of_fmap_2 fst).
Qed.

Lemma dget_stored dumps n m (md : list (Z * rule_meta)) : dget n md = Some m ->
  dget n (map (fun kv => (kv.1, stored_rule dumps kv.2)) md) = Some (stored_rule dumps m).
Proof.
  induction md as [|[k x] md IH]; [done|]. cbn. destruct (decide (n = k)); [by intros [= ->]|done].
Qed.

Lemma keys_stored dumps (md : list (Z * rule_meta)) : (map (fun kv => (kv.1, stored_rule dumps kv.2)) md).*1 = md.*1.
Proof. induction md as [|[k x] md IH]; [done|]. cbn. f_equal. exact IH. Qed.

(** ** The composition *)

(** Every allow rule the table is built from has a token. *)
Lemma gathered_tokens root revision t md b tokens st r : tokens_ok root revision t md -> gather root b tokens = Ok st ->
  r ∈ s_rules st -> sr_allow r = true -> is_Some (dget (sr_scope r, sr_name r) t).
Proof.
  intros Ht Hg Hr Ha. destruct (gather_gathered _ _ _ _ Hg) as [_ _ G3 G4].
  rewrite Forall_forall in G3. destruct (G3 r Hr) as [Hsc _].
  destruct (G4 _ Hsc) as (pl & pre & rs & post & Hpl & Hs & Hl & Hn).
  assert (r ∈ rs) as Hin.
  { rewrite Hs in Hr. rewrite Forall_forall in Hn. apply elem_of_app in Hr as [Hr|Hr];
      [|apply elem_of_app in Hr as [Hr|Hr]; [done|]]; (exfalso; apply (Hn r); [set_solver|done]). }
  apply list_elem_of_lookup_1 in Hin as (i & Hi). destruct (Forall2_lookup_r _ _ _ _ _ Hl Hi) as (rw & Hrw & L).
  rewrite (l_name _ _ _ L). eapply (tk_rules _ _ _ _ Ht); [done | exact Hpl | by eapply list_elem_of_lookup_2 |].
  destruct (l_action _ _ _ L) as (icmp & pm & g & ind & ls & le & fw & Hact). rewrite Ha in Hact.
  by exists icmp, pm, g, ind, ls, le, fw.
Qed.

(** C12. Attribution of sessions to rules.  With the generation number the runtime chooses, the tokens of a new policy
    are never in the journal yet, so registering them always succeeds and keeps every older entry; every allow rule of
    the table and the implicit rule have a token, different rules have different tokens, each token fits the label
    and is what the event decoder reads back from it, and in the journal it names exactly the rule it was made for. *)
Theorem tokens_durable repr dumps root d t md :
  tokens_for repr root (next_generation d) = Ok (t, md) ->
  let new := map (fun kv => (kv.1, stored_rule dumps kv.2)) md in
  exists d', register new d = (d', None)
  /\ (forall n r, dget n (rules d) = Some r -> dget n (rules d') = Some r)
  /\ (forall id n, dget id t = Some n ->
        dget n (rules d) = None
        /\ between 1 n 1073741823 = true
        /\ (let labels := label_value (label_bits n) in Z.odd labels = true /\ Z.shiftr labels 1 = n)
        /\ exists m, dget n (rules d') = Some (stored_rule dumps m) /\ names m id /\ tm_revision m = next_generation d)
  /\ (forall id id' n, dget id t = Some n -> dget id' t = Some n -> id = id')
  /\ (forall b st r, gather root b true = Ok st -> r ∈ s_rules st -> sr_allow r = true ->
        is_Some (dget (sr_scope r, sr_name r) t))
  /\ is_Some (dget implicit_id t).
Proof.
  intros H new. apply tokens_for_ok in H as Ht. destruct Ht as [Hr Hd Hrange Hn Hrules Himp].
  assert (forall kv, kv ∈ md -> dget kv.1 (rules d) = None) as Hfresh.
  { intros kv Hkv. destruct (dget kv.1 (rules d)) eqn:E; [|done]. apply max_token_bound in E.
    rewrite Forall_forall in Hrange. apply Hrange in Hkv. unfold next_generation in Hkv. pose proof (Z.mod_pos_bound (max_token d) 2048).
    pose proof (Z.div_mod (max_token d) 2048). lia. }
  eexists. split; [|split; [|split; [|split; [|split]]]].
  - unfold register, transact. rewrite register_fresh; [reflexivity| |].
    + unfold dict_ok, new. by rewrite keys_stored.
    + apply Forall_forall. intros kv Hkv. unfold new in Hkv. apply list_elem_of_In, in_map_iff in Hkv as (kv0 & <- & Hin). cbn [fst].
      by apply Hfresh, list_elem_of_In.
  - intros n r Hnr. cbn [rules]. by rewrite dget_app, Hnr.
  - intros id n Hid. destruct (Hn id n Hid) as (m & Hm & Hnames). pose proof (dget_In _ _ _ Hm) as Hin.
    pose proof (Hfresh _ Hin) as Hf. rewrite Forall_forall in Hrange. apply Hrange in Hin as Hb. cbn [fst] in Hb, Hf.
    assert (1 <= n <= 1073741823) as Hb' by lia. split; [done|]. split; [apply between_true; lia|]. split.
    + cbv zeta. rewrite (label_token n Hb'). split; [by rewrite Z.add_comm, Z.odd_add_mul_2|].
      rewrite Z.shiftr_div_pow2 by lia. change (2 ^ 1) with 2. symmetry. apply (Z.div_unique _ 2 n 1); lia.
    + exists m. cbn [rules]. rewrite dget_app, Hf. split; [by apply dget_stored|done].
  - intros id id' n H1 H2. destruct (Hn _ _ H1) as (m & Hm & [N1 N2] & _), (Hn _ _ H2) as (m' & Hm' & [N1' N2'] & _).
    rewrite Hm in Hm'. injection Hm' as <-. rewrite (surjective_pairing id), (surjective_pairing id'). congruence.
  - intros b st r. eapply gathered_tokens. split; eassumption.
  - done.
Qed.

(** ** A generation of the sample policy *)

Definition sample_repr (l : list (pystr * PolicyObjects.exn)) : pystr := join_reasons l.
Definition sample_dumps (m : rule_meta) : pystr := default [] (tm_scope m) ++ lit "/" ++ tm_name m.
Definition sample_db : db :=
  {| rules := [(2049, {| log_start := true; log_end := true; meta := lit "vsys1/old" |})]; sessions := []; events := []; health := None |}.
Definition sample_tokens : list ((option pystr * pystr) * Z) * list (Z * rule_meta) :=
  match tokens_for sample_repr plan_root (next_generation sample_db) with Ok x => x | Err _ => ([], []) end.

Lemma tokens_durable_witness :
  tokens_for sample_repr plan_root (next_generation sample_db) = Ok sample_tokens
  /\ (length sample_tokens.1 > 1)%nat
  /\ exists d', register (map (fun kv => (kv.1, stored_rule sample_dumps kv.2)) sample_tokens.2) sample_db = (d', None).
Proof.
  assert (tokens_for sample_repr plan_root (next_generation sample_db) = Ok sample_tokens) as H by (vm_compute; reflexivity).
  split; [exact H|]. split; [vm_compute; lia|].
  destruct (tokens_durable sample_repr sample_dumps plan_root sample_db sample_tokens.1 sample_tokens.2) as (d' & Hd & _).
  - rewrite H. apply f_equal, surjective_pairing.
  - by exists d'.
Defined.

(** ** Tokens belong to allow rules *)

(** Where a token comes from: an allow rule of that name in a valid plan of that scope. *)
Definition granted_by (root : element) (id : option pystr * pystr) : Prop :=
  exists pl rw, compile_policy root Security id.1 = Ok pl /\ plan_ok pl = true /\ rw ∈ rows pl /\ row_name rw = id.2 /\ allows rw.
Definition tokens_from (root : element) (t : list ((option pystr * pystr) * Z)) : Prop := forall id n, dget id t = Some n -> granted_by root id.

Lemma token_rows_from root revision scope pl rws : forall st st',
  compile_policy root Security scope = Ok pl -> plan_ok pl = true -> (forall rw, rw ∈ rws -> rw ∈ rows pl) -> tokens_from root (t_tokens st) ->
  foldM_res (token_row revision scope) st rws = Ok st' -> tokens_from root (t_tokens st').
Proof.
  induction rws as [|rw rws IH]; intros st st' Hpl Hok Hsub Hf H; cbn [foldM_res] in H; [by apply ok_inj in H as <-|].
  apply bind_ok_inv in H as (st1 & H1 & H). eapply IH; [done|done|by intros; apply Hsub; right| |exact H].
  unfold token_row in H1. destruct (row_action rw) as [[type ? ? ? ? ls le fw| | | | |]|] eqn:Ea; try done.
  case_bool_decide as Ht; cbn [negb] in H1; apply ok_inj in H1 as <-; [|done]. cbn [t_tokens]. intros id n. rewrite dget_dset.
  destruct (decide (id = _)) as [->|]; [|apply Hf]. intros _. exists pl, rw. split; [done|]. split; [done|]. split; [apply Hsub; left|].
  split; [done|]. subst type. unfold allows. eauto 10.
Qed.

Lemma tokens_for_from repr root revision t md id n :
  tokens_for repr root revision = Ok (t, md) -> dget id t = Some n -> id = implicit_id \/ granted_by root id.
Proof.
  unfold tokens_for. intros H. apply bind_ok_inv in H as (st & Hst & H). destruct (_ || _); [done|]. apply ok_inj in H. injection H as <- _.
  assert (Hs : forall os st st', tokens_from root (t_tokens st) -> foldM_res (token_scope repr root revision) st os = Ok st' ->
    tokens_from root (t_tokens st')).
  { induction os as [|so os IH]; intros st0 st' Hf Ho; cbn [foldM_res] in Ho; [by apply ok_inj in Ho as <-|].
    apply bind_ok_inv in Ho as (st1 & H1 & Ho). eapply IH; [|exact Ho]. unfold token_scope in H1. apply bind_ok_inv in H1 as (pl & Hpl & H1).
    destruct (plan_ok pl) eqn:Ep; [|done]. cbn [negb] in H1. by eapply token_rows_from. }
  rewrite dget_dset. destruct (decide (id = implicit_id)) as [->|]; [by left|]. intros Hd. right.
  refine (Hs _ _ _ _ Hst id n Hd). done.
Qed.

(** The names of a valid plan are distinct. *)
Lemma plan_names root k scope pl : compile_policy root k scope = Ok pl -> plan_ok pl = true -> NoDup (map row_name (rows pl)).
Proof.
  unfold compile_policy. destruct (negb _); [done|]. destruct (dget scope (owners root)) as [owner|]; [|done]. destruct (_ <? _)%nat; [done|].
  intros [= <-]. set (I := fun c => blockers (c_plan c) = [] -> map row_name (rows (c_plan c)) = c_names c /\ NoDup (c_names c)).
  assert (Hstep : forall ie c, I c -> I (compile_row root owner k scope c ie)).
  { intros [i e] c Hc. unfold compile_row. case_bool_decide; [exact Hc|]. destruct (str_in _ (c_names c)) eqn:Es.
    { intros Hb. cbn in Hb. by apply app_nil in Hb as [_ ?]. }
    destruct (compile_entry _ _ _ _ _) as [[m a]|x]; intros Hb; cbn [c_plan blockers] in Hb; [|by apply app_nil in Hb as [_ ?]].
    rewrite app_nil_r in Hb. destruct (Hc Hb) as [Hn Hd]. cbn [c_plan rows c_names]. rewrite map_app, Hn. cbn [map]. split; [done|].
    apply NoDup_app. split; [done|]. split; [|apply NoDup_singleton]. intros x Hx Hx2. apply list_elem_of_singleton in Hx2. subst x.
    unfold str_in in Es. apply bool_decide_eq_false in Es. by apply Es. }
  intros Hok. unfold plan_ok in Hok. apply Nat.eqb_eq, length_zero_iff_nil in Hok. revert Hok.
  assert (Hall : forall es c, I c -> I (fold_left (compile_row root owner k scope) es c)).
  { induction es as [|ie es IH]; intros c Hc; [done|]. cbn. apply IH, Hstep, Hc. }
  intros Hok. match type of Hok with blockers (c_plan ?c) = [] => assert (Hc : I c) end.
  { apply Hall. intros _. split; [done|apply NoDup_nil_2]. }
  destruct (Hc Hok) as [Hn Hd]. cbn in Hn |- *. by rewrite Hn.
Qed.

(** A rule of a valid plan that has a token is an allow rule, the reserved identity of the implicit rule apart. *)
Lemma token_allows repr root revision t md scope pl rw n :
  tokens_for repr root revision = Ok (t, md) -> compile_policy root Security scope = Ok pl -> rw ∈ rows pl ->
  dget (scope, row_name rw) t = Some n -> (scope, row_name rw) = implicit_id \/ allows rw.
Proof.
  intros Ht Hpl Hrw Hn. destruct (tokens_for_from _ _ _ _ _ _ _ Ht Hn) as [?|(pl' & rw' & Hpl' & Hok & Hrw' & Hname & Ha)]; [by left|right].
  cbn in Hpl', Hname. assert (pl' = pl) as -> by congruence. pose proof (plan_names _ _ _ _ Hpl Hok) as Hnd.
  assert (rw = rw') as ->; [|done]. revert Hnd Hrw Hrw' Hname. generalize (rows pl). clear. induction l as [|a l IH]; [by intros _ ?%elem_of_nil|].
  cbn. rewrite NoDup_cons. intros [Ha Hn] Hrw Hrw' He. apply elem_of_cons in Hrw as [->|Hrw]; apply elem_of_cons in Hrw' as [->|Hrw']; auto.
  - destruct Ha. rewrite <- He. by apply list_elem_of_fmap_2.
  - destruct Ha. rewrite He. by apply list_elem_of_fmap_2.
Qed.
