(* ===== verification/SecurityLease.v ===== *)
(** * The lease that keeps transit open ([ffn_security_runtime.drift], [serve])

    Forwarding passes a gate whose kernel set entry lives eight seconds; the supervisor loop renews it once a second
    while the session collector is current and the kernel holds the stored policy generation.  The file models what
    the supervisor reads, [fingerprint] and [drift] on it, and one turn of the loop with the outcome of every call it
    makes.  An exception is [Caught] (one of [NatError], [OSError], [ValueError], and for the early renewal a
    subprocess error) or [Uncaught]; instants are rationals.  [digest] hashes a JSON value. *)

From S2P Require Import Prelude PyStr PyDict PyTime.

#[local] Open Scope Z_scope.

(** ** What the kernel holds *)

Definition volatile_keys : list pystr := map lit ["handle"; "packets"; "bytes"; "index"; "expires"]%string.

Definition kept (kx : pystr * json) : bool := negb (bool_decide (kx.1 ∈ volatile_keys)).
Fixpoint clean (v : json) : json :=
  match v with
  | JObj l => JObj (List.filter kept (map (fun kx => (kx.1, clean kx.2)) l))
  | JList l => JList (map clean l)
  | _ => v
  end.

Definition GATE : pystr := lit "ffn_policy_gate".
Abbreviation table_key := (pystr * pystr)%type (only parsing).
Definition gate_key : table_key := (lit "inet", GATE).

(** [(row.get('family'), row.get('name') if kind=='table' else row.get('table'))]; nftables writes strings there. *)
Definition row_key (kind : pystr) (row : list (pystr * json)) : option table_key :=
  match jget (lit "family") row, jget (if bool_decide (kind = lit "table") then lit "name" else lit "table") row with
  | JStr f, JStr n => Some (f, n)
  | _, _ => None
  end.

(** What one entry of an item adds to the rows that are hashed. *)
Definition fingerprint_row (tables : list table_key) (kr : pystr * json) : list json :=
  let '(kind, v) := kr in
  match v with
  | JObj row =>
      match row_key kind row with
      | None => []
      | Some key =>
          if negb (bool_decide (key ∈ tables)) then [] else
          if bool_decide (kind = lit "element") && bool_decide (key = gate_key) then [] else
          let value := match clean v with
                       | JObj o => if bool_decide (kind = lit "set") && bool_decide (key = gate_key)
                                   then JObj (ddel (lit "elem") o) else JObj o
                       | x => x
                       end in
          [JObj [(kind, value)]]
      end
  | _ => []
  end.

Definition inventory_t := list (list (pystr * json)).       (* data['nftables'] *)
Definition fingerprint (digest : json -> pystr) (data : inventory_t) (tables : list table_key) : pystr :=
  digest (JList (concat (map (fingerprint_row tables) (concat data)))).

(** ** Drift *)

Inductive failure := Caught (msg : pystr) | Uncaught (msg : pystr).

Record binding := { b_device : pystr; b_index : Z; b_alias : pystr }.
#[global] Instance binding_eq_dec : EqDecision binding.
Proof. solve_decision. Defined.
Definition bindings_t := gmap pystr binding.

Record saved_state := {
  s_revision : Z; s_boot : pystr; s_links : list (Z * pystr); s_bindings : bindings_t;
  s_tables : list table_key; s_kernel : pystr }.

Inductive reason :=
| BootChanged
| LinksChanged
| BindingsDiffer (gone new changed : list pystr)
| RulesetDiffers.

Definition sorted_keys (m : gset pystr) : list pystr := py_sorted str_le (elements m).
Definition bindings_reason (current stored : bindings_t) : reason :=
  BindingsDiffer (sorted_keys (dom stored ∖ dom current)) (sorted_keys (dom current ∖ dom stored))
    (py_sorted str_le (filter (fun k => current !! k <> stored !! k) (elements (dom current ∩ dom stored)))).

(** What [drift] reads: the boot identity, the service-route link, and at each attempt the bindings and the ruleset. *)
Record observation := {
  o_boot : result failure pystr; o_links : result failure (list (Z * pystr));
  o_read : nat -> result failure bindings_t * result failure inventory_t }.
(** The default of [reads], which the supervisor does not override. *)
Definition DRIFT_READS : nat := 3.
Definition o_reads (o : observation) : list (result failure bindings_t * result failure inventory_t) := map (o_read o) (seq 0 DRIFT_READS).

Section supervisor.
Context (digest : json -> pystr).

Fixpoint drift_loop (state : saved_state) (why : option reason) (reads : list (result failure bindings_t * result failure inventory_t))
    : result failure (option reason) :=
  match reads with
  | [] => Ok why
  | (rb, ri) :: t =>
      current ← rb;
      if negb (bool_decide (current = s_bindings state)) then drift_loop state (Some (bindings_reason current (s_bindings state))) t else
      data ← ri;
      if negb (bool_decide (fingerprint digest data (s_tables state) = s_kernel state)) then drift_loop state (Some RulesetDiffers) t
      else Ok None
  end.

Definition drift (state : saved_state) (o : observation) : result failure (option reason) :=
  boot ← o_boot o;
  if negb (bool_decide (s_boot state = boot)) then Ok (Some BootChanged) else
  links ← o_links o;
  if negb (bool_decide (links = s_links state)) then Ok (Some LinksChanged) else
  drift_loop state None (o_reads o).

(** ** The loop *)

Record collector_report := { e_ready : bool; e_monotonic : Q; e_error : option pystr }.

Definition lease_current (now : Q) (e : collector_report) : bool :=
  e_ready e && Qle_bool 0 (now - e_monotonic e) && Qle_bool (now - e_monotonic e) 3.

Definition stale (now : Q) (e : collector_report) : bool := negb (e_ready e) || gtb (now - e_monotonic e) 3.

(** [a or b] on texts that may be missing. *)
Definition or_text (a : option pystr) (b : pystr) : pystr := match a with None | Some [] => b | Some t => t end.
Definition not_current (e : collector_report) : pystr := or_text (e_error e) (lit "Session collector is not current").

(** What the gate is told; [ok] is false when nft refused or stalled. *)
Inductive gate_action := Close (ok : bool) | Renew (at_ : Q) (ok : bool).

Record health_t := { h_ready : bool; h_revision : option Z; h_error : option pystr }.
Record supervisor := { last_forwarding : option Z; last_error : option pystr; published : list health_t }.

(** The outcome of every call of one turn, in the order they are made. *)
Record turn := {
  i_updated : bool;                                        (* check_generation finds new code *)
  i_events : collector_report; i_fault : option pystr; i_now : Q;
  i_close_fault : option pystr;                            (* gate_close_problem of the fault path *)
  i_now_lease : Q; i_renew_at : Q; i_renew : result failure unit;
  i_lock : result failure unit; i_saved : result failure (option saved_state); i_observed : observation;
  i_close_replay : result failure unit; i_apply : result failure (option saved_state);
  i_events2 : collector_report; i_now2 : Q; i_renew2_at : Q; i_renew2 : result failure unit;
  i_close_error : option pystr }.

Definition turn_fault (i : turn) : option pystr :=
  match i_fault i with
  | Some (c :: t) => Some (c :: t)
  | _ => if stale (i_now i) (i_events i) then Some (not_current (i_events i)) else None
  end.

Definition closed (problem : option pystr) : gate_action := Close (if problem then false else true).
Definition succeeded (r : result failure unit) : bool := is_ok r.

(** The block under [with lock()]: [Ok None] is [continue], [Ok (Some rev)] a renewal for [rev]. *)
Definition locked_part (i : turn) : list gate_action * result failure (option Z) :=
  let finish acts (state : saved_state) :=
    if stale (i_now2 i) (i_events2 i) then (acts, Err (Caught (not_current (i_events2 i)))) else
    match i_renew2 i with
    | Ok _ => (acts ++ [Renew (i_renew2_at i) true], Ok (Some (s_revision state)))
    | Err e => (acts ++ [Renew (i_renew2_at i) false], Err e)
    end in
  match i_lock i with
  | Err e => ([], Err e)
  | Ok _ =>
      match i_saved i with
      | Err e => ([], Err e)
      | Ok None => ([], Ok None)
      | Ok (Some state) =>
          match drift state (i_observed i) with
          | Err e => ([], Err e)
          | Ok None => finish [] state
          | Ok (Some _) =>
              match i_close_replay i with
              | Err e => ([Close false], Err e)
              | Ok _ =>
                  match i_apply i with
                  | Err e => ([Close true], Err e)
                  | Ok None => ([Close true], Err (Uncaught (lit "NoneType")))
                  | Ok (Some state') => finish [Close true] state'
                  end
              end
          end
      end
  end.

Definition publish (ready : bool) (rev : option Z) (err : option pystr) (s : supervisor) : supervisor :=
  {| last_forwarding := last_forwarding s; last_error := last_error s;
     published := published s ++ [{| h_ready := ready; h_revision := rev; h_error := err |}] |}.
Definition set_forwarding (rev : option Z) (err : option pystr) (s : supervisor) : supervisor :=
  {| last_forwarding := rev; last_error := err; published := published s |}.

(** The locked part of a turn and what the loop makes of its outcome; [None] is the end of the process, whose last
    action closes the gate. *)
Definition turn_end (i : turn) (s : supervisor) (acts : list gate_action) : list gate_action * option supervisor :=
  let '(acts2, r) := locked_part i in
  match r with
  | Ok None => (acts ++ acts2, Some s)
  | Ok (Some rev) => (acts ++ acts2, Some (publish true (Some rev) None (set_forwarding (Some rev) None s)))
  | Err (Caught msg) =>
      let err := or_text (i_close_error i) msg in
      (acts ++ acts2 ++ [closed (i_close_error i)], Some (publish true None (Some err) (set_forwarding None (Some err) s)))
  | Err (Uncaught _) => (acts ++ acts2, None)
  end.

(** A verified generation is renewed before the lock is waited for. *)
Definition renews_early (s : supervisor) (i : turn) : bool :=
  match last_forwarding s with Some _ => lease_current (i_now_lease i) (i_events i) | None => false end.

Definition serve_turn (s : supervisor) (i : turn) : list gate_action * option supervisor :=
  if i_updated i then ([], None) else
  match turn_fault i with
  | Some fault =>
      ([closed (i_close_fault i)],
       Some (publish false None (Some (or_text (i_close_fault i) fault)) (set_forwarding None (last_error s) s)))
  | None =>
      let s1 := publish true (last_forwarding s) (last_error s) s in
      if renews_early s i then
        let acts := [Renew (i_renew_at i) (succeeded (i_renew i))] in
        match i_renew i with
        | Err (Uncaught _) => (acts, None)
        | _ => turn_end i s1 acts
        end
      else turn_end i s1 []
  end.

Fixpoint serve_loop (s : supervisor) (h : list turn) : list gate_action * option supervisor :=
  match h with
  | [] => ([], Some s)
  | i :: t =>
      let '(a, o) := serve_turn s i in
      match o with
      | None => (a, None)
      | Some s' => let '(b, o') := serve_loop s' t in (a ++ b, o')
      end
  end.

Definition supervisor_start : supervisor := {| last_forwarding := None; last_error := None; published := [] |}.

(** ** What drift means *)

(** One read that found the stored generation in place. *)
Definition read_agrees (state : saved_state) (rd : result failure bindings_t * result failure inventory_t) : Prop :=
  rd.1 = Ok (s_bindings state) /\ exists data, rd.2 = Ok data /\ fingerprint digest data (s_tables state) = s_kernel state.

Definition in_place (state : saved_state) (o : observation) : Prop :=
  o_boot o = Ok (s_boot state) /\ o_links o = Ok (s_links state) /\ Exists (read_agrees state) (o_reads o).

Definition displaced (state : saved_state) (o : observation) : Prop :=
  o_boot o <> Ok (s_boot state) \/ o_links o <> Ok (s_links state) \/ Forall (fun rd => ~ read_agrees state rd) (o_reads o).

Lemma drift_loop_exact state reads : forall why r, drift_loop state why reads = Ok r ->
  match r with
  | None => why = None /\ reads = [] \/ Exists (read_agrees state) reads
  | Some _ => Forall (fun rd => ~ read_agrees state rd) reads
  end.
Proof.
  induction reads as [|[rb ri] reads IH]; intros why r H; cbn [drift_loop] in H.
  - apply ok_inj in H as <-. destruct why; [constructor|by left].
  - apply bind_ok_inv in H as (current & -> & H). case_bool_decide as Hb; cbn [negb] in H.
    + apply bind_ok_inv in H as (data & -> & H). case_bool_decide as Hf; cbn [negb] in H.
      * apply ok_inj in H as <-. right. left. unfold read_agrees. cbn. subst. eauto.
      * apply IH in H. destruct r as [r|]; [|destruct H as [[? ?]|H]; [done|right; by right]].
        constructor; [|done]. intros (_ & d & Hd & Hx). cbn in Hd. congruence.
    + apply IH in H. destruct r as [r|]; [|destruct H as [[? ?]|H]; [done|right; by right]].
      constructor; [|done]. intros (Hx & _). cbn in Hx. congruence.
Qed.

Lemma drift_cases state o r : drift state o = Ok r ->
  match r with None => in_place state o | Some _ => displaced state o end.
Proof.
  unfold drift, in_place, displaced. intros H. apply bind_ok_inv in H as (boot & Hb & H). rewrite Hb.
  case_bool_decide as Eb; cbn [negb] in H.
  2: { apply ok_inj in H as <-. left. congruence. }
  apply bind_ok_inv in H as (links & Hl & H). rewrite Hl. case_bool_decide as El; cbn [negb] in H.
  2: { apply ok_inj in H as <-. right. left. congruence. }
  apply drift_loop_exact in H. subst. destruct r; [auto|]. split; [done|]. split; [done|]. by destruct H as [[_ H]|H].
Qed.

Lemma clean_snoc (l : list (pystr * json)) x :
  exists l', clean (JObj (l ++ [(lit "elem", x)])) = JObj (l' ++ [(lit "elem", clean x)]) /\ clean (JObj l) = JObj l'.
Proof. eexists. split; [|reflexivity]. cbn [clean]. by rewrite map_app, List.filter_app. Qed.

Lemma row_key_elem kind row e : jget (lit "family") row <> JNull -> jget (lit "table") row <> JNull -> kind <> lit "table" ->
  row_key kind (row ++ [(lit "elem", e)]) = row_key kind row.
Proof.
  unfold row_key, jget. intros Hf Ht Hk. rewrite bool_decide_eq_false_2 by done. rewrite !dget_app.
  destruct (dget (lit "family") row); [|done]. destruct (dget (lit "table") row); done.
Qed.

Lemma ddel_elem (l : list (pystr * json)) e : ddel (lit "elem") (l ++ [(lit "elem", e)]) = ddel (lit "elem") l.
Proof.
  unfold ddel. rewrite filter_app. rewrite (filter_cons_False _ (lit "elem", e)) by (intros H; by apply H).
  by rewrite filter_nil, app_nil_r.
Qed.

(** Renewing the lease changes the elements of the gate's set and nothing the fingerprint sees. *)
Lemma renewal_invisible tables row e e' :
  row_key (lit "set") row = Some gate_key ->
  fingerprint_row tables (lit "set", JObj (row ++ [(lit "elem", e)])) = fingerprint_row tables (lit "set", JObj (row ++ [(lit "elem", e')])).
Proof.
  intros Hk. assert (jget (lit "family") row <> JNull /\ jget (lit "table") row <> JNull) as [Hf Ht].
  { unfold row_key in Hk. rewrite bool_decide_eq_false_2 in Hk by done. destruct (jget (lit "family") row), (jget (lit "table") row); done. }
  unfold fingerprint_row. rewrite !row_key_elem, Hk by done. case_bool_decide; [|done]. cbn [negb].
  rewrite (bool_decide_eq_false_2 (lit "set" = lit "element")) by done. cbn [andb].
  rewrite !(bool_decide_eq_true_2 (lit "set" = lit "set")), (bool_decide_eq_true_2 (gate_key = gate_key)) by done. cbn [andb].
  destruct (clean_snoc row e) as (l & -> & Hl), (clean_snoc row e') as (l' & -> & Hl').
  rewrite !ddel_elem. congruence.
Qed.

(** ** Every renewal is justified *)

(** The turn verified generation [rev]: the kernel held it, or it was replayed after the gate was closed. *)
Inductive verified (i : turn) : Z -> Prop :=
| verified_in_place state : i_saved i = Ok (Some state) -> in_place state (i_observed i) -> verified i (s_revision state)
| verified_replayed state state' : i_saved i = Ok (Some state) -> displaced state (i_observed i) ->
    i_close_replay i = Ok tt -> i_apply i = Ok (Some state') -> verified i (s_revision state').

(** The last turn that found a stored generation verified it. *)
Inductive standing : list turn -> Z -> Prop :=
| standing_now h i rev : verified i rev -> standing (h ++ [i]) rev
| standing_absent h i rev : standing h rev -> i_saved i = Ok None -> standing (h ++ [i]) rev.

(** The collector evidence a renewal rests on. *)
Definition collector_live (now : Q) (e : collector_report) : Prop := e_ready e = true /\ (now - e_monotonic e <= 3)%Q.

Lemma stale_live now e : stale now e = false -> collector_live now e.
Proof. unfold stale. intros H. apply orb_false_iff in H as [H1 H2]. apply negb_false_iff in H1. by apply gtb_le in H2. Qed.

Definition part_ok (i : turn) (acts : list gate_action) (r : result failure (option Z)) : Prop :=
  (forall t ok, Renew t ok ∈ acts -> collector_live (i_now2 i) (i_events2 i) /\ t = i_renew2_at i /\ exists rev, verified i rev)
  /\ (r = Ok None -> i_saved i = Ok None /\ acts = [])
  /\ (forall rev, r = Ok (Some rev) -> verified i rev).

Lemma part_ok_stop i acts e : (forall t ok, Renew t ok ∉ acts) -> part_ok i acts (Err e).
Proof. intros H. split; [intros t ok Hx; by apply H in Hx|done]. Qed.

Lemma no_renew_nil t ok : Renew t ok ∉ [].
Proof. apply not_elem_of_nil. Qed.
Lemma no_renew_close b t ok : Renew t ok ∉ [Close b].
Proof. set_solver. Qed.
#[local] Hint Resolve part_ok_stop no_renew_nil no_renew_close : lease.

Lemma locked_part_spec i : part_ok i (locked_part i).1 (locked_part i).2.
Proof.
  unfold locked_part.
  assert (forall pre state, (forall t ok, Renew t ok ∉ pre) -> verified i (s_revision state) ->
    let p := (if stale (i_now2 i) (i_events2 i) then (pre, Err (Caught (not_current (i_events2 i)))) else
     match i_renew2 i with
     | Ok _ => (pre ++ [Renew (i_renew2_at i) true], Ok (Some (s_revision state)))
     | Err e => (pre ++ [Renew (i_renew2_at i) false], Err e)
     end) in part_ok i p.1 p.2) as Hfin.
  { intros pre state Hpre Hv. destruct (stale _ _) eqn:Es; cbn; [auto with lease|]. apply stale_live in Es.
    destruct (i_renew2 i); cbn; (split; [|split; [done|intros rev; naive_solver]]);
      intros t ok [Hin|Hin]%elem_of_app; try (by apply Hpre in Hin); apply list_elem_of_singleton in Hin; naive_solver. }
  destruct (i_lock i); cbn [fst snd]; [|auto with lease].
  destruct (i_saved i) as [[state|]|] eqn:Es; cbn [fst snd]; [| |auto with lease].
  2: { split; [intros t ok Hx; by apply no_renew_nil in Hx|done]. }
  destruct (drift state (i_observed i)) as [[why|]|] eqn:Ed; [| |cbn; auto with lease]; apply drift_cases in Ed.
  - destruct (i_close_replay i) as [[]|] eqn:Ec; cbn [fst snd]; [|auto with lease].
    destruct (i_apply i) as [[state'|]|] eqn:Ea; cbn [fst snd]; [|auto with lease|auto with lease].
    apply Hfin; [auto with lease|]. by eapply verified_replayed.
  - apply Hfin; [auto with lease|]. by apply verified_in_place.
Qed.

Lemma turn_end_spec i s acts :
  let p := turn_end i s acts in
  (forall t ok, Renew t ok ∈ p.1 ->
     Renew t ok ∈ acts \/ t = i_renew2_at i /\ collector_live (i_now2 i) (i_events2 i) /\ exists rev, verified i rev)
  /\ (forall s' rev, p.2 = Some s' -> last_forwarding s' = Some rev ->
        verified i rev \/ i_saved i = Ok None /\ last_forwarding s = Some rev).
Proof.
  unfold turn_end. destruct (locked_part_spec i) as (P1 & P2 & P3). destruct (locked_part i) as [acts2 r]. cbn [fst snd] in *.
  assert (forall t ok, Renew t ok ∈ acts ++ acts2 -> Renew t ok ∈ acts
    \/ t = i_renew2_at i /\ collector_live (i_now2 i) (i_events2 i) /\ exists rev, verified i rev) as Hr.
  { intros t ok [Hin|Hin]%elem_of_app; [by left|]. right. apply P1 in Hin. naive_solver. }
  destruct r as [[rev|]|[msg|msg]]; cbn [fst snd].
  - split; [exact Hr|]. intros s' rev' [= <-] [= <-]. left. by apply P3.
  - split; [exact Hr|]. intros s' rev' [= <-]. right. split; [by apply P2|done].
  - split; [|by intros s' rev' [= <-]]. intros t ok. rewrite app_assoc. intros [Hin|Hin]%elem_of_app; [by apply Hr in Hin|].
    by apply no_renew_close in Hin.
  - split; [exact Hr|done].
Qed.

(** Why the turn may renew at [t]. *)
Definition justified (s : supervisor) (i : turn) (t : Q) : Prop :=
  turn_fault i = None
  /\ (t = i_renew_at i /\ is_Some (last_forwarding s) /\ collector_live (i_now_lease i) (i_events i)
      \/ t = i_renew2_at i /\ collector_live (i_now2 i) (i_events2 i) /\ exists rev, verified i rev).

Lemma serve_turn_spec s i :
  let p := serve_turn s i in
  (forall t ok, Renew t ok ∈ p.1 -> justified s i t)
  /\ (forall s' rev, p.2 = Some s' -> last_forwarding s' = Some rev ->
        verified i rev \/ i_saved i = Ok None /\ last_forwarding s = Some rev)
  /\ (forall f, i_updated i = false -> turn_fault i = Some f ->
        p.1 = [closed (i_close_fault i)] /\ exists s', p.2 = Some s' /\ last_forwarding s' = None).
Proof.
  unfold serve_turn, justified. destruct (i_updated i). { split; [intros t ok Hx; by apply no_renew_nil in Hx|done]. }
  destruct (turn_fault i) as [f|]; cbn [fst snd].
  { split; [intros t ok Hx; by apply no_renew_close in Hx|]. split; [by intros s' rev [= <-]|]. intros; eauto. }
  set (s1 := publish true (last_forwarding s) (last_error s) s).
  assert (last_forwarding s1 = last_forwarding s) as Hs1 by done. clearbody s1.
  unfold renews_early. destruct (last_forwarding s) as [rev|] eqn:El; [destruct (lease_current _ _) eqn:Ec|].
  - assert (collector_live (i_now_lease i) (i_events i)) as Hl.
    { unfold lease_current in Ec. apply andb_true_iff in Ec as [Ec H3]. apply andb_true_iff in Ec as [H1 _]. by apply Qle_bool_iff in H3. }
    set (acts := [Renew _ _]). destruct (turn_end_spec i s1 acts) as (T1 & T2). rewrite Hs1 in T2.
    assert (forall t ok, Renew t ok ∈ acts -> t = i_renew_at i) as Ha by (intros t ok Hx%list_elem_of_singleton; congruence).
    assert (forall t ok, Renew t ok ∈ (turn_end i s1 acts).1 -> @None pystr = None /\ (t = i_renew_at i /\ is_Some (Some rev)
      /\ collector_live (i_now_lease i) (i_events i) \/ t = i_renew2_at i /\ collector_live (i_now2 i) (i_events2 i) /\ exists rev, verified i rev)) as Hr.
    { intros t ok Hx. split; [done|]. apply T1 in Hx as [Hx|Hx]; [left|by right]. split; [by eapply Ha|]. split; [by eexists|done]. }
    destruct (i_renew i) as [|[|]]; cbn [fst snd]; [split; [exact Hr|split; [exact T2|done]]|split; [exact Hr|split; [exact T2|done]]|].
    split; [|done]. intros t ok Hx. split; [done|]. left. split; [by eapply Ha|]. split; [by eexists|done].
  - destruct (turn_end_spec i s1 []) as (T1 & T2). rewrite Hs1 in T2. split; [|split; [exact T2|done]]. intros t ok Hx. split; [done|]. right.
    apply T1 in Hx as [Hx|Hx]; [by apply no_renew_nil in Hx|done].
  - destruct (turn_end_spec i s1 []) as (T1 & T2). rewrite Hs1 in T2. split; [|split; [exact T2|done]]. intros t ok Hx. split; [done|]. right.
    apply T1 in Hx as [Hx|Hx]; [by apply no_renew_nil in Hx|done].
Qed.

Lemma serve_loop_snoc s h i : serve_loop s (h ++ [i]) =
  match serve_loop s h with
  | (a, Some s') => let '(b, o) := serve_turn s' i in (a ++ b, o)
  | (a, None) => (a, None)
  end.
Proof.
  revert s. induction h as [|j h IH]; intros s; cbn [app serve_loop].
  - destruct (serve_turn s i) as [b [s'|]]; cbn; by rewrite ?app_nil_r.
  - destruct (serve_turn s j) as [a [s'|]]; [|done]. rewrite IH. destruct (serve_loop s' h) as [b [s''|]]; [|done].
    destruct (serve_turn s'' i) as [c o]. by rewrite app_assoc.
Qed.

Lemma standing_kept h : forall s rev, (serve_loop supervisor_start h).2 = Some s -> last_forwarding s = Some rev -> standing h rev.
Proof.
  induction h as [|i h IH] using rev_ind; intros s rev.
  - intros [= <-]. done.
  - rewrite serve_loop_snoc. destruct (serve_loop supervisor_start h) as [a [s1|]] eqn:E; [|done].
    destruct (serve_turn_spec s1 i) as (_ & H2 & _). destruct (serve_turn s1 i) as [b o]. cbn [snd] in *. intros Ho Hf.
    destruct (H2 _ _ Ho Hf) as [Hv|[Hs Hl]]; [by apply standing_now|]. apply standing_absent; [|done]. by eapply IH.
Qed.

(** C3. Transit stays open only on evidence.  Along every run of the supervisor, whatever its calls return, a turn that
    renews the gate's lease found no recorded fault; the collector was ready and had reported within three seconds of
    the check; and the generation is verified: this turn found the kernel in agreement with the stored state (boot,
    service links, and bindings and ruleset in one of its reads) or replayed it behind a closed gate, or the last turn
    that found a stored generation did.  A turn with a fault only closes the gate and forgets the generation. *)
Theorem lease_justified h s i :
  (serve_loop supervisor_start h).2 = Some s ->
  (forall t ok, Renew t ok ∈ (serve_turn s i).1 ->
     turn_fault i = None
     /\ (collector_live (i_now_lease i) (i_events i) /\ (exists rev, last_forwarding s = Some rev /\ standing h rev)
         \/ collector_live (i_now2 i) (i_events2 i) /\ exists rev, verified i rev))
  /\ (forall f, i_updated i = false -> turn_fault i = Some f ->
        (serve_turn s i).1 = [closed (i_close_fault i)] /\ exists s', (serve_turn s i).2 = Some s' /\ last_forwarding s' = None).
Proof.
  intros Hs. destruct (serve_turn_spec s i) as (H1 & _ & H3). split; [|exact H3]. intros t ok Hin.
  destruct (H1 t ok Hin) as (Hf & [(_ & [rev Hr] & Hl)|(_ & Hl & Hv)]); (split; [done|]); [left|by right].
  split; [done|]. exists rev. split; [done|]. by eapply standing_kept.
Qed.

(** When the policy is replayed.  If [drift] finds no reason, the boot identity and the service links are those of
    the stored generation and at least one of its reads saw exactly the stored bindings and the stored ruleset; it
    gives a reason only when the boot or the links differ or no read agreed, so one transient bad read never replays
    the policy, and the lease elements and counters of the gate never count as a difference. *)
Theorem drift_exact state o r tables row e e' :
  drift state o = Ok r -> row_key (lit "set") row = Some gate_key ->
  match r with None => in_place state o | Some _ => displaced state o end
  /\ fingerprint_row tables (lit "set", JObj (row ++ [(lit "elem", e)]))
     = fingerprint_row tables (lit "set", JObj (row ++ [(lit "elem", e')])).
Proof. intros H Hk. split; [by apply drift_cases|by apply renewal_invisible]. Qed.

End supervisor.

(** ** A supervisor that renews, meets a fault and recovers *)

Definition live_report (t : Q) : collector_report := {| e_ready := true; e_monotonic := t; e_error := None |}.
Definition sample_saved : saved_state :=
  {| s_revision := 4; s_boot := lit "b1"; s_links := []; s_bindings := ∅; s_tables := []; s_kernel := lit "d" |}.
Definition const_digest (_ : json) : pystr := lit "d".
Definition sample_turn (t : Q) (fault : option pystr) (reads : nat -> result failure bindings_t * result failure inventory_t) : turn :=
  {| i_updated := false; i_events := live_report t; i_fault := fault; i_now := t; i_close_fault := None; i_now_lease := t;
     i_renew_at := t; i_renew := Ok tt; i_lock := Ok tt; i_saved := Ok (Some sample_saved);
     i_observed := {| o_boot := Ok (lit "b1"); o_links := Ok []; o_read := reads |};
     i_close_replay := Ok tt; i_apply := Err (Caught (lit "owner missing")); i_events2 := live_report t; i_now2 := t; i_renew2_at := t;
     i_renew2 := Ok tt; i_close_error := None |}.
Definition good_reads (attempt : nat) : result failure bindings_t * result failure inventory_t :=
  match attempt with
  | O => (Ok {[lit "eth1" := {| b_device := lit "e"; b_index := 3; b_alias := [] |}]}, Ok [])
  | _ => (Ok ∅, Ok [])
  end.

Lemma lease_justified_witness :
  let h := [sample_turn 1 None good_reads] in
  exists s, (serve_loop const_digest supervisor_start h).2 = Some s /\ last_forwarding s = Some 4
    /\ (serve_turn const_digest s (sample_turn 2 None good_reads)).1 = [Renew 2 true; Renew 2 true]
    /\ (serve_turn const_digest s (sample_turn 2 (Some (lit "gap")) good_reads)).1 = [Close true].
Proof.
  eexists. split; [vm_compute; reflexivity|]. split; [reflexivity|]. split; [vm_compute; reflexivity|].
  refine (proj1 (proj2 (lease_justified const_digest [sample_turn 1 None good_reads] _ (sample_turn 2 (Some (lit "gap")) good_reads) _)
    (lit "gap") _ _)); vm_compute; reflexivity.
Defined.

Lemma drift_exact_witness :
  in_place const_digest sample_saved {| o_boot := Ok (lit "b1"); o_links := Ok []; o_read := good_reads |}.
Proof.
  refine (proj1 (drift_exact const_digest sample_saved {| o_boot := Ok (lit "b1"); o_links := Ok []; o_read := good_reads |} None []
    [(lit "family", JStr (lit "inet")); (lit "table", JStr GATE)] JNull (JInt 1) _ _)); vm_compute; reflexivity.
Defined.
