(* ===== verification/SecurityApply.v ===== *)
(** * Applying a Security generation ([ffn_security_runtime.apply])

    [apply] registers the tokens, closes the transit gate, loads one nftables batch, reads it back and writes the
    state file; when anything fails it loads the old tables again and restores the file.  The model keeps the kernel's
    tables, the gate's lease, the state file and the journal as one world, and takes the outcome of every call from
    the environment.  nftables is an interface: a batch is atomic, and the listing of a table loads back as that
    table.  The network lock excludes other appliers; [prepare] (compilation and checks) is an input. *)

From S2P Require Import Prelude PyStr PyDict PyTime PolicyObjects NetlinkEvents SessionJournal SecurityLease.

#[local] Open Scope Z_scope.

(** What the runtime relies on from nft. *)
Class NftTables := {
  table : Type;
  load : pystr -> table;
  listing : table -> pystr;
  inventory_of : gmap table_key table -> inventory_t;
  load_listing t : load (listing t) = t;
}.

(** The gate: forwarding is dropped unless the family has a live element, which lasts as long as the lease. *)
Definition LEASE_SECONDS : Z := 8.
Definition gate : pystr :=
  lit "table inet " ++ GATE ++ lit " {" ++ [10]
  ++ lit " set live { type nf_proto; flags timeout; timeout " ++ nat_text LEASE_SECONDS ++ lit "s; }" ++ [10]
  ++ lit " chain forward { type filter hook forward priority -270; policy drop;" ++ [10]
  ++ lit "  meta mark set meta mark & 0x7fffffff" ++ [10]
  ++ lit "  meta nfproto @live accept" ++ [10] ++ lit " }" ++ [10] ++ lit "}" ++ [10].

Section apply.
Context {NT : NftTables} (digest : json -> pystr).

Record stored := { st_saved : saved_state; st_xml : pystr }.
#[local] Instance saved_state_eq_dec : EqDecision saved_state.
Proof. solve_decision. Defined.
#[local] Instance stored_eq_dec : EqDecision stored.
Proof. solve_decision. Defined.

Record world := {
  w_tables : gmap table_key table; w_live : bool; w_state : option stored; w_journal : db }.

Definition with_tables (w : world) (t : gmap table_key table) (live : bool) : world :=
  {| w_tables := t; w_live := live; w_state := w_state w; w_journal := w_journal w |}.
Definition with_state (w : world) (s : option stored) : world :=
  {| w_tables := w_tables w; w_live := w_live w; w_state := s; w_journal := w_journal w |}.
Definition with_journal (w : world) (j : db) : world :=
  {| w_tables := w_tables w; w_live := w_live w; w_state := w_state w; w_journal := j |}.

(** What [prepare] returns; the digest of the kernel is not known yet. *)
Record prepared := {
  p_old : option stored; p_xml : pystr; p_revision : Z; p_boot : pystr; p_links : list (Z * pystr); p_bindings : bindings_t;
  p_scripts : list (table_key * pystr); p_metadata : list (Z * rule) }.

(** [atomic(STATE, state)] can fail before or after the rename. *)
Inductive atomic_outcome := Written | NotWritten (e : failure) | WrittenThenFailed (e : failure).

Record apply_env := {
  a_boot : pystr;                                          (* boot() of the shortcut *)
  a_before : result failure unit;                          (* the inventory and the listings *)
  a_close : result failure unit;
  a_batch : result failure unit;
  a_read : result failure unit;                            (* the readback *)
  a_after : result failure bindings_t;
  a_atomic : atomic_outcome;
  a_close_failed : result failure unit;
  a_rollback : result failure unit;                        (* the inventory and the rollback batch *)
  a_restore : result failure unit;
  a_boot_failed : result failure unit;                     (* boot() and the opening of the journal in the handler *)
  a_record : result failure unit }.                        (* the write of the fault *)

(** Loading the scripts of a batch, each behind the deletion of its table; the gate starts closed. *)
Definition load_batch (scripts : list (table_key * pystr)) (t : gmap table_key table) : gmap table_key table :=
  fold_left (fun t ks => <[ks.1 := load ks.2]> t) scripts t.

(** The rollback batch: every table of the generation goes, the gate is set up anew and closed, and the tables that
    were there come back from their listing. *)
Definition rollback_one (before : gmap table_key table) (t : gmap table_key table) (key : table_key) : gmap table_key table :=
  if bool_decide (key = gate_key) then <[key := load gate]> t
  else match before !! key with
       | Some x => <[key := load (listing x)]> t
       | None => delete key t
       end.
Definition rollback_tables (keys : list table_key) (before now : gmap table_key table) : gmap table_key table :=
  fold_left (rollback_one before) keys now.

(** [close_gate()]: the set is flushed, or the gate is set up when it is missing. *)
Definition close_gate (w : world) : world :=
  with_tables w (match w_tables w !! gate_key with Some _ => w_tables w | None => <[gate_key := load gate]> (w_tables w) end) false.

Definition fail_text (f : failure) : pystr := match f with Caught m | Uncaught m => m end.

Inductive apply_result := Unchanged (rev : Z) | Applied (rev : Z).

Definition same_policy (p : prepared) (replay : bool) (boot : pystr) : option Z :=
  match p_old p with
  | Some o => if negb replay && bool_decide (st_xml o = p_xml p) && bool_decide (s_bindings (st_saved o) = p_bindings p)
                 && bool_decide (s_boot (st_saved o) = boot)
              then Some (s_revision (st_saved o)) else None
  | None => None
  end.

Definition keys_of (p : prepared) : list table_key := (p_scripts p).*1.

Definition new_state (p : prepared) (t : gmap table_key table) : stored :=
  {| st_saved := {| s_revision := p_revision p; s_boot := p_boot p; s_links := p_links p; s_bindings := p_bindings p;
                    s_tables := keys_of p; s_kernel := fingerprint digest (inventory_of t) (keys_of p) |};
     st_xml := p_xml p |}.

(** The [try] block; the gate is closed when it starts. *)
Definition try_apply (env : apply_env) (p : prepared) (w : world) : result failure unit * world :=
  match a_batch env with
  | Err e => (Err e, w)
  | Ok _ =>
      let w1 := with_tables w (load_batch (p_scripts p) (w_tables w)) false in
      match a_read env with
      | Err e => (Err e, w1)
      | Ok _ =>
          if negb (bool_decide (Forall (fun k => is_Some (w_tables w1 !! k)) (keys_of p)))
          then (Err (Caught (lit "Coordinated policy readback is incomplete")), w1) else
          match a_after env with
          | Err e => (Err e, w1)
          | Ok after =>
              if negb (bool_decide (after = p_bindings p))
              then (Err (Caught (lit "Interface ownership changed during Security apply")), w1) else
              let s := new_state p (w_tables w1) in
              match a_atomic env with
              | Written => (Ok tt, with_state w1 (Some s))
              | NotWritten e => (Err e, w1)
              | WrittenThenFailed e => (Err e, with_state w1 (Some s))
              end
          end
      end
  end.

(** The rollback failed: the journal is opened and the fault recorded.  Either can fail too, and its own exception then
    leaves [apply]. *)
Definition unconfirmed (env : apply_env) (f : failure) (w : world) : failure * world :=
  match a_boot_failed env, a_record env with
  | Err e', _ | Ok _, Err e' => (e', w)
  | Ok _, Ok _ => (Caught (lit "Policy apply failed; rollback unconfirmed: " ++ fail_text f),
                   with_journal w (fault (lit "Policy rollback unconfirmed: " ++ fail_text f) (w_journal w)))
  end.
(** The handler: close again, put the old tables and the old file back, or record that this failed. *)
Definition undo (env : apply_env) (p : prepared) (before : world) (e : failure) (w : world) : failure * world :=
  match a_close_failed env with
  | Err e' => (e', w)
  | Ok _ =>
      let w1 := close_gate w in
      match a_rollback env with
      | Err f => unconfirmed env f w1
      | Ok _ =>
          let w2 := with_tables w1 (rollback_tables (keys_of p) (w_tables before) (w_tables w1)) false in
          if bool_decide (w_state w2 = w_state before) then (e, w2) else
          match a_restore env with
          | Ok _ => (e, with_state w2 (p_old p))
          | Err f => unconfirmed env f w2
          end
      end
  end.

Definition apply (env : apply_env) (p : prepared) (replay : bool) (w : world) : result failure apply_result * world :=
  match same_policy p replay (a_boot env) with
  | Some rev => (Ok (Unchanged rev), w)
  | None =>
      match fault_reason (w_journal w) with
      | Some (c :: r) => (Err (Caught (c :: r)), w)
      | _ =>
          match register (p_metadata p) (w_journal w) with
          | (_, Some _) => (Err (Caught (lit "A Security session token cannot be reused")), w)
          | (j, None) =>
              let w0 := with_journal w j in
              match a_before env, a_close env with
              | Err e, _ | _, Err e => (Err e, w0)
              | Ok _, Ok _ =>
                  match try_apply env p (close_gate w0) with
                  | (Ok _, w2) => (Ok (Applied (p_revision p)), w2)
                  | (Err e, w2) => let '(e', w3) := undo env p w0 e w2 in (Err e', w3)
                  end
              end
          end
      end
  end.

(** ** The tables *)

Lemma load_batch_other scripts t k : k ∉ scripts.*1 -> load_batch scripts t !! k = t !! k.
Proof.
  unfold load_batch. revert t. induction scripts as [|[k' s] scripts IH]; intros t Hk; cbn [fold_left]; [done|].
  rewrite fmap_cons in Hk. rewrite IH by set_solver. cbn. rewrite lookup_insert_ne; [done|]. set_solver.
Qed.

Lemma load_batch_present scripts t k : k ∈ scripts.*1 -> is_Some (load_batch scripts t !! k).
Proof.
  unfold load_batch. revert t. induction scripts as [|[k' s] scripts IH]; intros t Hk; [by apply not_elem_of_nil in Hk|]. cbn [fold_left].
  destruct (decide (k ∈ scripts.*1)) as [Hin|Hn]; [by apply IH|]. rewrite fmap_cons in Hk. apply elem_of_cons in Hk as [->|Hk]; [|done].
  pose proof (load_batch_other scripts (<[k' := load s]> t) k' Hn) as Hl. unfold load_batch in Hl. cbn [fst snd]. rewrite Hl, lookup_insert_eq. by eexists.
Qed.

Lemma rollback_one_lookup before t key k : k <> gate_key ->
  rollback_one before t key !! k = if decide (k = key) then before !! k else t !! k.
Proof.
  intros Hk. unfold rollback_one. case_bool_decide as Hg.
  - subst key. rewrite lookup_insert_ne by congruence. by rewrite decide_False.
  - destruct (decide (k = key)) as [->|Hne].
    + destruct (before !! key) as [x|]; [by rewrite lookup_insert_eq, load_listing|by rewrite lookup_delete_eq].
    + destruct (before !! key); [by rewrite lookup_insert_ne|by rewrite lookup_delete_ne].
Qed.

Lemma rollback_lookup before keys k : k <> gate_key -> forall now,
  rollback_tables keys before now !! k = if decide (k ∈ keys) then before !! k else now !! k.
Proof.
  intros Hk. unfold rollback_tables. induction keys as [|key keys IH]; intros now; cbn [fold_left].
  - by rewrite decide_False by apply not_elem_of_nil.
  - rewrite IH, rollback_one_lookup by done. destruct (decide (k ∈ keys)) as [Hin|Hn].
    + by rewrite decide_True by set_solver.
    + destruct (decide (k = key)) as [->|Hne]; [by rewrite decide_True by set_solver|by rewrite decide_False by set_solver].
Qed.

Lemma close_gate_other w k : k <> gate_key -> w_tables (close_gate w) !! k = w_tables w !! k.
Proof. intros Hk. unfold close_gate. destruct (w_tables w !! gate_key); cbn; [done|]. by rewrite lookup_insert_ne. Qed.

(** Every table but the gate is as before. *)
Definition same_tables (w w' : world) : Prop := forall k, k <> gate_key -> w_tables w' !! k = w_tables w !! k.

(** Only tables of the generation and the gate change. *)
Definition confined (p : prepared) (w w' : world) : Prop :=
  forall k, k <> gate_key -> k ∉ keys_of p -> w_tables w' !! k = w_tables w !! k.

(** What the [try] block leaves behind on a closed gate. *)
Lemma try_apply_spec env p w r w' : try_apply env p w = (r, w') -> w_live w = false ->
  w_live w' = false /\ w_journal w' = w_journal w /\ confined p w w'
  /\ (r = Ok tt -> w_tables w' = load_batch (p_scripts p) (w_tables w) /\ w_state w' = Some (new_state p (w_tables w'))).
Proof.
  unfold try_apply, confined. intros H Hl. destruct (a_batch env).
  2: { injection H as <- <-. split_and!; try done. }
  set (w1 := with_tables w _ _) in H.
  assert (forall k, k <> gate_key -> k ∉ keys_of p -> w_tables w1 !! k = w_tables w !! k) as Hc.
  { intros k _ Hk. cbn. by apply load_batch_other. }
  destruct (a_read env). 2: { injection H as <- <-. split_and!; try done. }
  destruct (negb (bool_decide (Forall _ _))). { injection H as <- <-. split_and!; try done. }
  destruct (a_after env) as [after|e]. 2: { injection H as <- <-. split_and!; try done. }
  destruct (negb (bool_decide (after = _))). { injection H as <- <-. split_and!; try done. }
  destruct (a_atomic env); injection H as <- <-; split_and!; try done.
Qed.

(** The ways a failed [apply] can leave changes behind without a fault on record: closing the gate again failed, which
    ends the handler; or the rollback failed and so did the recording of that. *)
Definition failed {A} (r : result failure A) : Prop := exists f, r = Err f.
Definition unrecorded (env : apply_env) : Prop :=
  failed (a_close_failed env)
  \/ (failed (a_rollback env) \/ failed (a_restore env)) /\ (failed (a_boot_failed env) \/ failed (a_record env)).

(** The handler either restores everything, or the journal holds the fault, or neither and one of the two cases above. *)
Lemma undo_spec env p w0 e w e' w' : undo env p w0 e w = (e', w') -> w_live w = false -> confined p w0 w -> p_old p = w_state w0 ->
  w_live w' = false /\ confined p w0 w'
  /\ (same_tables w0 w' /\ w_state w' = w_state w0 /\ w_journal w' = w_journal w
      \/ health (w_journal w') <> None
      \/ unrecorded env).
Proof.
  unfold undo, unrecorded, failed. intros H Hl Hc Ho. destruct (a_close_failed env) as [u|f].
  2: { injection H as <- <-. split; [done|]. split; [done|]. right. right. eauto. }
  assert (Hu : forall f w1, unconfirmed env f w1 = (e', w') -> w_live w1 = false -> confined p w0 w1 -> failed (a_rollback env) \/ failed (a_restore env) ->
    w_live w' = false /\ confined p w0 w' /\ (health (w_journal w') <> None
      \/ (failed (a_rollback env) \/ failed (a_restore env)) /\ (failed (a_boot_failed env) \/ failed (a_record env)))).
  { intros f w1 Hw L C F. unfold unconfirmed in Hw. destruct (a_boot_failed env) as [?|x]; [destruct (a_record env) as [?|x]|]; injection Hw as <- <-;
      (split; [done|]); (split; [done|]); [by left | right; split; [done|]; right; by exists x | right; split; [done|]; left; by exists x]. }
  destruct (a_rollback env) as [?|f].
  2: { apply Hu in H as (L & C & D); [|done| |by left; exists f]; [tauto|]. intros k Hk Hn. rewrite <- (Hc k Hk Hn). by apply close_gate_other. }
  set (w2 := with_tables _ _ _) in H.
  assert (same_tables w0 w2) as Hs.
  { intros k Hk. cbn [w2 w_tables with_tables]. rewrite rollback_lookup by done. destruct (decide (k ∈ keys_of p)); [done|].
    rewrite close_gate_other by done. by apply Hc. }
  assert (confined p w0 w2) as Hc2 by (intros k Hk _; by apply Hs).
  case_bool_decide as Hst.
  { injection H as <- <-. split; [done|]. split; [done|]. left. split; [done|]. split; [exact Hst|done]. }
  destruct (a_restore env) as [?|f].
  - injection H as <- <-. split; [done|]. split; [exact Hc2|]. left. split; [exact Hs|]. split; [exact Ho|done].
  - apply Hu in H as (L & C & D); [tauto|done|done|]. right. by exists f.
Qed.

(** What the supervisor reads of a world nobody touched since. *)
Definition untouched (p : prepared) (w : world) : observation :=
  {| o_boot := Ok (p_boot p); o_links := Ok (p_links p); o_read := fun _ => (Ok (p_bindings p), Ok (inventory_of (w_tables w))) |}.

(** What an answer of [apply] says about the world. *)
Definition outcome_ok (env : apply_env) (p : prepared) (w : world) (r : result failure apply_result) (w' : world) : Prop :=
  match r with
  | Ok (Unchanged _) => w' = w
  | Ok (Applied rev) =>
      rev = p_revision p /\ w_live w' = false /\ w_tables w' = load_batch (p_scripts p) (w_tables (close_gate w))
      /\ register (p_metadata p) (w_journal w) = (w_journal w', None)
      /\ exists s, w_state w' = Some s /\ st_xml s = p_xml p /\ drift digest (st_saved s) (untouched p w') = Ok None
  | Err _ =>
      same_tables w w' /\ w_state w' = w_state w
      \/ health (w_journal w') <> None
      \/ unrecorded env
  end.

Lemma stopped_early env p w w0 e : same_tables w w0 -> w_state w0 = w_state w ->
  outcome_ok env p w (Err e) w0 /\ (same_tables w w0 \/ w_live w0 = false) /\ confined p w w0.
Proof. intros Hs Hst. split; [by left|]. split; [by left|]. intros k Hk _. by apply Hs. Qed.

Lemma new_state_in_place p w : drift digest (st_saved (new_state p (w_tables w))) (untouched p w) = Ok None.
Proof.
  unfold drift, untouched. cbn [o_boot o_links mbind result_bind new_state st_saved s_boot s_links].
  rewrite !bool_decide_eq_true_2 by done. cbn [negb o_reads o_read map seq DRIFT_READS drift_loop mbind result_bind s_bindings s_tables s_kernel].
  by rewrite !bool_decide_eq_true_2.
Qed.

(** C4. Applying a Security generation is all or nothing behind a closed gate.  On success the kernel has exactly the
    tables of the batch, the state file describes them so that the supervisor's drift check agrees with it, and the
    tokens are in the journal; an unchanged policy changes nothing.  On failure the old tables and the old state file
    are back, or the journal holds a fault that stops the supervisor, or the handler itself failed without a record:
    it could not close the gate again, or neither the rollback nor the recording of its failure succeeded.  In every
    case, whenever any table other than the gate differs from before the gate is closed, and tables of other owners
    never change. *)
Theorem apply_all_or_nothing env p replay w r w' :
  p_old p = w_state w -> apply env p replay w = (r, w') ->
  outcome_ok env p w r w' /\ (same_tables w w' \/ w_live w' = false) /\ confined p w w'.
Proof.
  intros Ho H. unfold apply in H. destruct (same_policy p replay (a_boot env)) as [rev|].
  { injection H as <- <-. split; [done|]. split; [by left|done]. }
  assert (forall f, (Err (Caught f), w) = (r, w') -> outcome_ok env p w r w' /\ (same_tables w w' \/ w_live w' = false) /\ confined p w w') as Hstop.
  { intros f [= <- <-]. by apply stopped_early. }
  destruct (register (p_metadata p) (w_journal w)) as [j [je|]] eqn:Er.
  { destruct (fault_reason (w_journal w)) as [[|c fr]|]; by eapply Hstop. }
  enough (match a_before env, a_close env with
          | Err e, _ | _, Err e => (Err e, with_journal w j)
          | Ok _, Ok _ =>
              match try_apply env p (close_gate (with_journal w j)) with
              | (Ok _, w2) => (Ok (Applied (p_revision p)), w2)
              | (Err e, w2) => let '(e', w3) := undo env p (with_journal w j) e w2 in (Err e', w3)
              end
          end = (r, w') -> outcome_ok env p w r w' /\ (same_tables w w' \/ w_live w' = false) /\ confined p w w') as Hgo.
  { destruct (fault_reason (w_journal w)) as [[|c fr]|]; [by apply Hgo|by eapply Hstop|by apply Hgo]. }
  clear H. intros H. destruct (a_before env). 2: { injection H as <- <-. by apply stopped_early. }
  destruct (a_close env). 2: { injection H as <- <-. by apply stopped_early. }
  destruct (try_apply env p (close_gate (with_journal w j))) as [[[]|e] w2] eqn:Et;
    apply try_apply_spec in Et as (L & J & C & S); try done.
  - injection H as <- <-. destruct (S eq_refl) as [Ht Hs]. split; [|split; [by right|]].
    + split; [done|]. split; [done|]. split; [exact Ht|]. split; [rewrite J; exact Er|]. eexists. split; [exact Hs|]. split; [done|].
      apply new_state_in_place.
    + intros k Hk Hn. rewrite (C k Hk Hn). exact (close_gate_other (with_journal w j) k Hk).
  - assert (confined p (with_journal w j) w2) as Hc.
    { intros k Hk Hn. rewrite (C k Hk Hn). exact (close_gate_other (with_journal w j) k Hk). }
    destruct (undo env p (with_journal w j) e w2) as [e' w3] eqn:Eu. injection H as <- <-.
    apply undo_spec in Eu as (L3 & C3 & Hu); try done. split; [|split; [by right|exact C3]].
    destruct Hu as [(Hs & Hst & _)|[Hf|Hf]]; [left|right; left|right; right]; done.
Qed.

End apply.

(** The gate [apply] closed can be reopened before anything was checked.  The supervisor renews a generation it has
    verified earlier before it waits for the lock that [apply] holds: whatever the kernel, the state file and the
    bindings are by then, its next turn opens the gate as long as the collector is current. *)
Theorem early_renewal_reopens digest s i rev :
  last_forwarding s = Some rev -> i_updated i = false -> turn_fault i = None -> lease_current (i_now_lease i) (i_events i) = true ->
  i_renew i = Ok tt ->
  exists rest, (serve_turn digest s i).1 = Renew (i_renew_at i) true :: rest.
Proof.
  intros Hl Hu Hf Hc Hr. unfold serve_turn, renews_early. rewrite Hu, Hf, Hl, Hc, Hr. unfold turn_end.
  destruct (locked_part digest i) as [acts [[x|]|[m|m]]]; cbn; by eexists.
Qed.

(** ** Witnesses *)

(** Tables as the text they were loaded from. *)
#[local] Instance text_tables : NftTables := {|
  table := pystr; load := fun s => s; listing := fun t => t; inventory_of := fun _ => []; load_listing := fun t => eq_refl |}.

Definition sec_key : table_key := (lit "inet", lit "ffn_security").
Definition old_stored : stored :=
  {| st_saved := {| s_revision := 4; s_boot := lit "b1"; s_links := []; s_bindings := ∅; s_tables := [gate_key; sec_key]; s_kernel := lit "d" |};
     st_xml := lit "<old/>" |}.
Definition demo_world : @world text_tables :=
  {| w_tables := {[gate_key := gate; sec_key := lit "old rules"]}; w_live := true; w_state := Some old_stored;
     w_journal := empty_db |}.
Definition demo_prepared : prepared :=
  {| p_old := Some old_stored; p_xml := lit "<new/>"; p_revision := 5; p_boot := lit "b1"; p_links := []; p_bindings := ∅;
     p_scripts := [(gate_key, gate); (sec_key, lit "new rules")]; p_metadata := [] |}.
Definition demo_env (atomic : atomic_outcome) : apply_env :=
  {| a_boot := lit "b1"; a_before := Ok tt; a_close := Ok tt; a_batch := Ok tt; a_read := Ok tt; a_after := Ok ∅; a_atomic := atomic;
     a_close_failed := Ok tt; a_rollback := Ok tt; a_restore := Ok tt; a_boot_failed := Ok tt; a_record := Ok tt |}.

Lemma apply_all_or_nothing_witness :
  let good := apply const_digest (demo_env Written) demo_prepared false demo_world in
  let bad := apply const_digest (demo_env (WrittenThenFailed (Caught (lit "fsync")))) demo_prepared false demo_world in
  good.1 = Ok (Applied 5) /\ w_tables good.2 !! sec_key = Some (lit "new rules")
  /\ bad.1 = Err (Caught (lit "fsync")) /\ w_tables bad.2 !! sec_key = Some (lit "old rules") /\ w_state bad.2 = Some old_stored
  /\ (same_tables demo_world bad.2 \/ w_live bad.2 = false).
Proof.
  split; [vm_compute; reflexivity|]. split; [vm_compute; reflexivity|]. split; [vm_compute; reflexivity|].
  split; [vm_compute; reflexivity|]. split; [vm_compute; reflexivity|].
  apply (apply_all_or_nothing const_digest (demo_env (WrittenThenFailed (Caught (lit "fsync")))) demo_prepared false demo_world
    _ _ eq_refl (surjective_pairing _)).
Defined.

Lemma early_renewal_reopens_witness :
  exists rest, (serve_turn const_digest {| last_forwarding := Some 4; last_error := None; published := [] |}
    (sample_turn 2 None good_reads)).1 = Renew 2 true :: rest.
Proof.
  apply (early_renewal_reopens const_digest {| last_forwarding := Some 4; last_error := None; published := [] |} (sample_turn 2 None good_reads) 4);
    vm_compute; reflexivity.
Defined.
