(* ===== verification/CpuPlanes.v ===== *)
(** * Splitting the CPUs into planes ([ffn_cpu_planes.py], [ffn_cpuisol.physical_cores])

    [physical_cores] groups the logical CPUs by their sibling lists with a union-find whose [owner] halves paths;
    [balanced_plan] deals whole groups to the management, control and data planes.  The iteration order of the set
    [set(sibs.get(c, [])) & available] is not specified: the model follows the order of the list, and the theorems
    hold for every list. *)

From S2P Require Import Prelude PyStr PyDict.

(** ** Union-find *)

Fixpoint owner (fuel : nat) (parent : gmap Z Z) (c : Z) : option (Z * gmap Z Z) :=
  match fuel with
  | O => None
  | S k =>
      p ← parent !! c;
      if decide (p = c) then Some (c, parent) else
      g ← parent !! p;
      owner k (<[c := g]> parent) g
  end.

(** [parent[owner(sibling)] = owner(c)]: the right side is evaluated first. *)
Definition unite (fuel : nat) (parent : gmap Z Z) (cs : Z * Z) : option (gmap Z Z) :=
  '(rc, p1) ← owner fuel parent cs.1;
  '(rs, p2) ← owner fuel p1 cs.2;
  Some (<[rs := rc]> p2).

Fixpoint unite_all (fuel : nat) (parent : gmap Z Z) (l : list (Z * Z)) : option (gmap Z Z) :=
  match l with
  | [] => Some parent
  | cs :: t => p ← unite fuel parent cs; unite_all fuel p t
  end.

(** [for c in sorted(available): for sibling in set(sibs.get(c, [])) & available]. *)
Definition sibling_pairs (ids : list Z) (sibs : list (Z * list Z)) : list (Z * Z) :=
  concat (map (fun c => map (pair c) (remove_dups (filter (fun s => s ∈ ids) (default [] (dget c sibs))))) ids).

(** [grouped.setdefault(owner(c), []).append(c)]. *)
Fixpoint group_all (fuel : nat) (parent : gmap Z Z) (grouped : list (Z * list Z)) (l : list Z) : option (list (Z * list Z)) :=
  match l with
  | [] => Some grouped
  | c :: t =>
      '(r, p) ← owner fuel parent c;
      group_all fuel p (dset r (default [] (dget r grouped) ++ [c]) grouped) t
  end.

Definition group_le (a b : list Z) : bool := (default 0 (head a) <=? default 0 (head b)).

(** [sorted(set(l))]. *)
Definition sorted_set (l : list Z) : list Z := py_sorted Z.leb (remove_dups l).

(** [None] would be a lookup of a CPU that is not available or an endless [owner]; [physical_cores_spec] excludes both. *)
Definition physical_cores (sibs : list (Z * list Z)) (cpu_ids : list Z) : option (list (list Z)) :=
  let ids := sorted_set cpu_ids in
  let fuel := length ids in
  let parent := list_to_map (map (fun c => (c, c)) ids) in
  p ← unite_all fuel parent (sibling_pairs ids sibs);
  grouped ← group_all fuel p [] ids;
  Some (py_sorted group_le grouped.*2).

Record planes := { mgmt : list Z; ctrl : list Z; data : list Z }.

Definition balanced_plan (cpu_ids : list Z) (sibs : list (Z * list Z)) : option planes :=
  let ids := sorted_set cpu_ids in
  groups ← physical_cores sibs ids;
  if (length groups <? 4)%nat then Some {| mgmt := ids; ctrl := ids; data := ids |} else
  let reserve := Nat.max 1 (length groups / 8) in
  let flat l := py_sorted Z.leb (concat l) in
  Some {| mgmt := flat (take reserve groups); ctrl := flat (drop reserve (take (2 * reserve) groups));
          data := flat (drop (2 * reserve) groups) |}.

(** ** Forests *)

(** [leads p n c r]: [c] reaches the root [r] in [n] steps. *)
Inductive leads (p : gmap Z Z) : nat -> Z -> Z -> Prop :=
| leads_root r : p !! r = Some r -> leads p 0 r r
| leads_step n c d r : p !! c = Some d -> d <> c -> leads p n d r -> leads p (S n) c r.

(** A forest on the CPUs [A] in which the root of [x] is [R x]. *)
Definition forest (A : gset Z) (R : Z -> Z) (p : gmap Z Z) : Prop :=
  dom p = A /\ forall x, x ∈ A -> exists n, leads p n x (R x).

Lemma leads_det p n c r : leads p n c r -> forall m s, leads p m c s -> n = m /\ r = s.
Proof.
  induction 1 as [r Hr|n c d r Hc Hne _ IH]; intros m s Hm; inversion Hm; subst; try congruence; [done|].
  assert (d0 = d) as -> by congruence. edestruct IH as [-> ->]; eauto.
Qed.

Lemma leads_end p n c r : leads p n c r -> p !! r = Some r.
Proof. by induction 1. Qed.

Lemma leads_chain p n c r : leads p n c r ->
  exists l, length l = S n /\ NoDup l /\ (forall x, x ∈ l -> x ∈ dom p /\ exists m, (m <= n)%nat /\ leads p m x r).
Proof.
  induction 1 as [r Hr|n c d r Hc Hne Hd (l & Hl & Hn & Hx)].
  - exists [r]. split; [done|]. split; [apply NoDup_singleton|]. intros x ->%list_elem_of_singleton.
    split; [by eapply elem_of_dom_2|]. exists 0%nat. split; [lia|by constructor].
  - assert (leads p (S n) c r) as Hcl by (by eapply leads_step). exists (c :: l). split; [cbn; lia|]. split.
    + constructor; [|done]. intros Hin. destruct (Hx c Hin) as (_ & m & Hm & Hlm). destruct (leads_det _ _ _ _ Hcl _ _ Hlm). lia.
    + intros x [->|Hin]%elem_of_cons; [split; [by eapply elem_of_dom_2|by exists (S n)]|].
      destruct (Hx x Hin) as (? & m & ? & ?). split; [done|]. exists m. split; [lia|done].
Qed.

Lemma leads_bound p n c r : leads p n c r -> (n < size (dom p))%nat.
Proof.
  intros H. destruct (leads_chain _ _ _ _ H) as (l & Hl & Hn & Hx).
  enough (length l <= size (dom p))%nat by lia. rewrite <- (size_list_to_set (C := gset Z) l Hn). apply subseteq_size.
  intros x Hin. apply elem_of_list_to_set in Hin. by apply Hx.
Qed.

(** Halving a path moves nothing to another root and lengthens no path. *)
Lemma leads_halve p c d g : p !! c = Some d -> d <> c -> p !! d = Some g -> forall n x r, leads p n x r ->
  exists m, (m <= n)%nat /\ leads (<[c := g]> p) m x r /\ (x = c -> g <> d -> (m < n)%nat).
Proof.
  intros Hc Hne Hd n. induction (lt_wf n) as [n _ IH]. intros x r H.
  destruct (decide (x = c)) as [->|Hx].
  - inversion H as [|n1 ? d' ? Hc' _ H1]; subst; [congruence|]. assert (d' = d) as -> by congruence.
    destruct (decide (g = d)) as [->|Hgd].
    { exists (S n1). split; [lia|]. split; [|done]. by rewrite insert_id. }
    inversion H1 as [|n2 ? g' ? Hd' _ H2]; subst; [congruence|]. assert (g' = g) as -> by congruence.
    assert (g <> c) as Hgc by (intros ->; destruct (leads_det _ _ _ _ H _ _ H2); lia).
    destruct (IH n2 ltac:(lia) g r H2) as (m & Hm & Hl & _). exists (S m). split; [lia|]. split; [|lia].
    eapply leads_step; [by rewrite lookup_insert_eq|done|exact Hl].
  - inversion H as [? Hr|n1 ? d' ? Hc' Hd' H1]; subst.
    + exists 0%nat. split; [lia|]. split; [|done]. constructor. by rewrite lookup_insert_ne.
    + destruct (IH n1 ltac:(lia) d' r H1) as (m & Hm & Hl & _). exists (S m). split; [lia|]. split; [|done].
      eapply leads_step; [by rewrite lookup_insert_ne|done|exact Hl].
Qed.

Lemma forest_halve A R p c d g : forest A R p -> p !! c = Some d -> d <> c -> p !! d = Some g -> forest A R (<[c := g]> p).
Proof.
  intros [Hd Hx] Hc Hne Hg. split; [|intros x Hin].
  - rewrite dom_insert_lookup_L; [done|by eexists].
  - destruct (Hx x Hin) as (n & Hn). destruct (leads_halve _ _ _ _ Hc Hne Hg _ _ _ Hn) as (m & _ & Hm & _). by exists m.
Qed.

Lemma owner_leads A R fuel : forall p c n, forest A R p -> leads p n c (R c) -> (n < fuel)%nat ->
  exists p', owner fuel p c = Some (R c, p') /\ forest A R p'.
Proof.
  induction fuel as [|k IH]; intros p c n Hf Hn Hk; [lia|]. cbn [owner].
  inversion Hn as [? Hr|n1 ? d ? Hc Hne H1]; subst.
  - rewrite Hr. cbn. rewrite decide_True by done. exists p. split; [congruence|done].
  - rewrite Hc. cbn. rewrite decide_False by done.
    assert (exists g, p !! d = Some g) as [g Hg] by (inversion H1; eauto). rewrite Hg. cbn.
    pose proof (forest_halve _ _ _ _ _ _ Hf Hc Hne Hg) as Hf'.
    assert (exists m, (m < n1 + 1)%nat /\ leads (<[c:=g]> p) m g (R c)) as (m & Hm & Hl).
    { inversion H1 as [? Hr|n2 ? g' ? Hd' _ H2]; subst.
      - assert (g = R c) as -> by congruence. exists 0%nat. split; [lia|]. constructor. rewrite lookup_insert_ne by done. done.
      - assert (g' = g) as -> by congruence. destruct (leads_halve _ _ _ _ Hc Hne Hg _ _ _ H2) as (m & ? & ? & _).
        exists m. split; [lia|done]. }
    assert (R g = R c) as Hrg.
    { destruct Hf' as [Hd Hx]. destruct (Hx g) as (n' & Hn').
      - rewrite <- Hd. inversion Hl; subst; by eapply elem_of_dom_2.
      - by destruct (leads_det _ _ _ _ Hl _ _ Hn') as [_ <-]. }
    rewrite <- Hrg in Hl |- *. apply (IH _ _ m); [done|done|lia].
Qed.

Lemma owner_spec A R p c : forest A R p -> c ∈ A -> exists p', owner (size A) p c = Some (R c, p') /\ forest A R p'.
Proof.
  intros Hf Hc. pose proof Hf as [Hd Hx]. destruct (Hx c Hc) as (n & Hn). apply (owner_leads A R _ p c n Hf Hn).
  rewrite <- Hd. by eapply leads_bound.
Qed.

(** ** Union *)

Definition merged (R : Z -> Z) (c s : Z) : Z -> Z := fun x => if decide (R x = R s) then R c else R x.

Lemma leads_link p rs rc : p !! rs = Some rs -> p !! rc = Some rc -> rs <> rc -> forall n x r, leads p n x r ->
  exists m, leads (<[rs := rc]> p) m x (if decide (r = rs) then rc else r).
Proof.
  intros Hs Hc Hne n x r. induction 1 as [r Hr|n c d r Hcd Hd _ [m IH]].
  - destruct (decide (r = rs)) as [->|Hr'].
    + exists 1%nat. eapply leads_step; [by rewrite lookup_insert_eq|done|]. constructor. by rewrite lookup_insert_ne.
    + exists 0%nat. constructor. by rewrite lookup_insert_ne.
  - exists (S m). eapply leads_step; [|exact Hd|exact IH]. rewrite lookup_insert_ne; [done|]. congruence.
Qed.

Lemma forest_root A R p x : forest A R p -> x ∈ A -> p !! R x = Some (R x) /\ R x ∈ A /\ R (R x) = R x.
Proof.
  intros [Hd Hx] Hin. destruct (Hx x Hin) as (n & Hn). apply leads_end in Hn as Hr.
  assert (R x ∈ A) as Hra by (rewrite <- Hd; by eapply elem_of_dom_2). split; [done|]. split; [done|].
  destruct (Hx _ Hra) as (m & Hm). by destruct (leads_det _ _ _ _ (leads_root p _ Hr) _ _ Hm).
Qed.

Lemma unite_spec A R p cs : forest A R p -> cs.1 ∈ A -> cs.2 ∈ A ->
  exists p', unite (size A) p cs = Some p' /\ forest A (merged R cs.1 cs.2) p'.
Proof.
  intros Hf H1 H2. destruct cs as [c s]. cbn [fst snd] in *. unfold unite. cbn [fst snd].
  destruct (owner_spec _ _ _ c Hf H1) as (p1 & -> & Hf1). cbn. destruct (owner_spec _ _ _ s Hf1 H2) as (p2 & -> & Hf2). cbn.
  eexists. split; [done|]. destruct (forest_root _ _ _ c Hf2 H1) as (Hc & Hca & _), (forest_root _ _ _ s Hf2 H2) as (Hs & Hsa & _).
  destruct Hf2 as [Hd Hx]. split.
  - rewrite dom_insert_lookup_L; [done|by eexists].
  - intros x Hin. destruct (Hx x Hin) as (n & Hn). unfold merged. destruct (decide (R s = R c)) as [He|Hne].
    + rewrite <- He. exists n. rewrite insert_id by done. by destruct (decide (R x = R s)) as [<-|].
    + exact (leads_link _ _ _ Hs Hc Hne _ _ _ Hn).
Qed.

(** Equal roots mean connected by the pairs united so far. *)
Definition linked (l : list (Z * Z)) : Z -> Z -> Prop := rtsc (fun a b => (a, b) ∈ l).
Definition connects (A : gset Z) (l : list (Z * Z)) (R : Z -> Z) : Prop :=
  forall x y, x ∈ A -> y ∈ A -> (R x = R y <-> linked l x y).

Lemma linked_mono l l' x y : (forall e, e ∈ l -> e ∈ l') -> linked l x y -> linked l' x y.
Proof.
  intros H. unfold linked, rtsc. induction 1 as [x|x y z Hxy _ IH]; [apply rtc_refl|]. eapply rtc_l; [|exact IH].
  destruct Hxy as [Hxy|Hxy]; [left|right]; auto.
Qed.

Lemma linked_edge l a b : (a, b) ∈ l -> linked l a b.
Proof. intros H. apply rtc_once. by left. Qed.

Lemma linked_sym l a b : linked l a b -> linked l b a.
Proof. intros H. unfold linked in *. by symmetry. Qed.

Lemma linked_trans l a b c : linked l a b -> linked l b c -> linked l a c.
Proof. intros H1 H2. unfold linked in *. by etrans. Qed.

Lemma connects_merge A l R c s : connects A l R -> c ∈ A -> s ∈ A -> (forall e, e ∈ l -> e.1 ∈ A /\ e.2 ∈ A) ->
  connects A (l ++ [(c, s)]) (merged R c s).
Proof.
  intros Hc Hca Hsa Hl x y Hx Hy. split.
  - assert (forall a b, linked l a b -> linked (l ++ [(c, s)]) a b) as Hm by (intros a b; apply linked_mono; set_solver).
    assert (forall a b, a ∈ A -> b ∈ A -> R a = R b -> linked (l ++ [(c, s)]) a b) as Hr by (intros a b ? ? ?; apply Hm; by apply Hc).
    assert (linked (l ++ [(c, s)]) c s) as Hcs by (apply linked_edge; set_solver).
    unfold merged. destruct (decide (R x = R s)) as [Ex|Ex], (decide (R y = R s)) as [Ey|Ey]; intros Heq.
    + apply Hr; [done|done|congruence].
    + eapply linked_trans; [by apply (Hr x s)|]. eapply linked_trans; [by apply linked_sym|by apply Hr].
    + eapply linked_trans; [by apply (Hr x c)|]. eapply linked_trans; [exact Hcs|by apply Hr].
    + by apply Hr.
  - assert (forall a b, (a, b) ∈ l ++ [(c, s)] -> merged R c s a = merged R c s b) as Hedge.
    { intros a b [Hin|Hin]%elem_of_app.
      - destruct (Hl _ Hin) as [Ha Hb]. cbn in Ha, Hb.
        assert (R a = R b) as He by (apply Hc; [done|done|by apply linked_edge]). unfold merged. by rewrite He.
      - apply list_elem_of_singleton in Hin. injection Hin as -> ->. unfold merged.
        rewrite (decide_True (P := R s = R s)) by done. by destruct (decide (R c = R s)). }
    unfold linked, rtsc. clear Hx Hy. induction 1 as [|x z y [H|H] _ IH]; [done|rewrite <- IH; by apply Hedge|].
    rewrite <- IH. symmetry. by apply Hedge.
Qed.

Lemma unite_all_spec A l : forall done R p, forest A R p -> connects A done R ->
  (forall e, e ∈ done ++ l -> e.1 ∈ A /\ e.2 ∈ A) ->
  exists p' R', unite_all (size A) p l = Some p' /\ forest A R' p' /\ connects A (done ++ l) R'.
Proof.
  induction l as [|[c s] l IH]; intros dn R p Hf Hc Hl; cbn [unite_all].
  - exists p, R. by rewrite app_nil_r.
  - destruct (Hl (c, s)) as [Hca Hsa]; [set_solver|]. destruct (unite_spec A R p (c, s) Hf Hca Hsa) as (p1 & -> & Hf1). cbn.
    rewrite (cons_middle (c, s)), app_assoc in Hl |- *. eapply IH; [exact Hf1| |exact Hl].
    apply connects_merge; [done|done|done|]. intros e He. apply Hl. set_solver.
Qed.

(** ** Grouping *)

(** The dictionary has, per root, the CPUs seen so far with that root, in order. *)
Definition grouped_ok (R : Z -> Z) (seen : list Z) (g : list (Z * list Z)) : Prop :=
  dict_ok g /\ concat g.*2 ≡ₚ seen /\ forall r l, (r, l) ∈ g -> l <> [] /\ l = filter (fun x => R x = r) seen.

Lemma concat_dset (r c : Z) (g : list (Z * list Z)) : dict_ok g -> concat (dset r (default [] (dget r g) ++ [c]) g).*2 ≡ₚ concat g.*2 ++ [c].
Proof.
  intros Hd. induction g as [|[k l] g IH]; [done|]. unfold dict_ok in Hd. rewrite fmap_cons in Hd. apply NoDup_cons in Hd as [Hn Hd].
  cbn [dset dget]. destruct (decide (r = k)) as [->|Hne]; cbn.
  - rewrite <- !app_assoc. apply Permutation_app_head. apply Permutation_app_comm.
  - rewrite <- app_assoc. apply Permutation_app_head. by apply IH.
Qed.

Lemma grouped_step (R : Z -> Z) seen g c : grouped_ok R seen g -> grouped_ok R (seen ++ [c]) (dset (R c) (default [] (dget (R c) g) ++ [c]) g).
Proof.
  intros (Hd & Hp & Hg). split; [by apply dict_ok_dset|]. split.
  - rewrite concat_dset by done. by rewrite Hp.
  - assert (default [] (dget (R c) g) = filter (fun x => R x = R c) seen) as Hc.
    { destruct (dget (R c) g) as [l|] eqn:E; cbn; [by apply Hg, dget_In|]. symmetry.
      apply dget_None_keys in E. destruct (filter (fun x => R x = R c) seen) as [|x l] eqn:Ef; [done|]. exfalso.
      assert (x ∈ filter (fun x => R x = R c) seen) as Hx by (rewrite Ef; apply list_elem_of_here).
      apply list_elem_of_filter in Hx as [Hx Hin]. rewrite <- Hp in Hin.
      apply list_elem_of_In, in_concat in Hin as (l' & Hl' & Hin). apply list_elem_of_In, list_elem_of_fmap in Hl' as ([k l''] & -> & Hkl).
      destruct (Hg _ _ Hkl) as [_ Hl]. cbn in Hin. apply list_elem_of_In in Hin. rewrite Hl in Hin. apply list_elem_of_filter in Hin as [Hk _].
      apply E. rewrite <- Hx, Hk. by apply (list_elem_of_fmap_2 fst) in Hkl. }
    intros r l Hin. rewrite Hc in *. destruct (decide (r = R c)) as [->|Hne].
    + apply In_dget in Hin; [|by apply dict_ok_dset]. rewrite dget_dset_eq in Hin. injection Hin as <-.
      split; [by destruct (filter _ seen)|]. rewrite filter_app. f_equal. by rewrite filter_cons_True, filter_nil.
    + apply elem_dset in Hin as [Hin|Hin]; [congruence|]. destruct (Hg _ _ Hin) as [Hl ->]. split; [done|].
      rewrite filter_app, (filter_cons_False _ c) by congruence. by rewrite filter_nil, app_nil_r.
Qed.

Lemma group_all_spec A R l : forall p seen g, forest A R p -> (forall c, c ∈ l -> c ∈ A) -> grouped_ok R seen g ->
  exists g', group_all (size A) p g l = Some g' /\ grouped_ok R (seen ++ l) g'.
Proof.
  induction l as [|c l IH]; intros p seen g Hf Hl Hg; cbn [group_all].
  - exists g. by rewrite app_nil_r.
  - destruct (owner_spec _ _ _ c Hf) as (p1 & -> & Hf1); [apply Hl; set_solver|]. cbn.
    destruct (IH p1 (seen ++ [c]) _ Hf1 ltac:(intros; apply Hl; set_solver) (grouped_step _ _ _ c Hg)) as (g' & H1 & H2).
    exists g'. by rewrite <- app_assoc in H2.
Qed.

(** ** Groups and planes *)

Lemma elem_sorted_cpus x l : x ∈ sorted_set l <-> x ∈ l.
Proof. unfold sorted_set. rewrite py_sorted_perm. apply elem_of_remove_dups. Qed.

Lemma sorted_set_NoDup l : NoDup (sorted_set l).
Proof. unfold sorted_set. rewrite py_sorted_perm. apply NoDup_remove_dups. Qed.

Lemma concat_perm {A} (l l' : list (list A)) : l ≡ₚ l' -> concat l ≡ₚ concat l'.
Proof.
  induction 1 as [|x l l' _ IH|x y l|l l' l'' _ IH1 _ IH2]; cbn; [done|by rewrite IH| |by rewrite IH1].
  rewrite !app_assoc. apply Permutation_app_tail, Permutation_app_comm.
Qed.

Lemma sorted_Z (l : list Z) : StronglySorted Z.le (py_sorted Z.leb l).
Proof.
  assert (Sorted (fun a b => (a <=? b) = true) (py_sorted Z.leb l)) as H.
  { apply py_sorted_Sorted. intros a b. destruct (Z.leb_spec a b); [by left|right; apply Z.leb_le; lia]. }
  apply Sorted_StronglySorted; [intros a b c; apply Z.le_trans|]. induction H as [|a t _ IH Ha]; constructor; [exact IH|].
  destruct Ha; constructor. by apply Z.leb_le.
Qed.

Lemma head_min (l : list Z) x : StronglySorted Z.le l -> x ∈ l -> default 0 (head l) <= x.
Proof. destruct l as [|y l]; [by intros _ ?%not_elem_of_nil|]. intros H [->|Hx]%elem_of_cons; cbn; [lia|]. inversion H; subst.
  by eapply (proj1 (Forall_forall _ _)) in Hx. Qed.

Lemma initial_forest ids : forest (list_to_set ids) id (list_to_map (map (fun c => (c, c)) ids)).
Proof.
  assert (forall x : Z, x ∈ ids -> (list_to_map (map (fun c => (c, c)) ids) : gmap Z Z) !! x = Some x) as Hm.
  { intros x. induction ids as [|y ids IH]; [by intros ?%not_elem_of_nil|]. cbn. destruct (decide (x = y)) as [->|Hne].
    - by rewrite lookup_insert_eq.
    - rewrite lookup_insert_ne by done. intros [?|?]%elem_of_cons; [done|auto]. }
  split.
  - rewrite dom_list_to_map_L. f_equal. induction ids as [|y ids IH]; [done|]. cbn. f_equal. apply IH. intros x Hx.
    specialize (Hm x ltac:(set_solver)). cbn in Hm. destruct (decide (x = y)) as [->|Hne].
    + clear -Hx. induction ids as [|z ids IH]; [by apply not_elem_of_nil in Hx|]. cbn. destruct (decide (y = z)) as [->|].
      * by rewrite lookup_insert_eq.
      * rewrite lookup_insert_ne by done. apply IH. set_solver.
    + by rewrite lookup_insert_ne in Hm by done.
  - intros x Hx. exists 0%nat. constructor. apply Hm. set_solver.
Qed.

Lemma initial_connects A : connects A [] id.
Proof.
  intros x y _ _. split; [intros H; cbn in H; subst; apply rtc_refl|]. unfold linked, rtsc. induction 1 as [|x z y [H|H] _ _]; [done| |];
    by apply not_elem_of_nil in H.
Qed.

Lemma sibling_pairs_elem ids sibs a b : (a, b) ∈ sibling_pairs ids sibs <-> a ∈ ids /\ b ∈ ids /\ b ∈ default [] (dget a sibs).
Proof.
  unfold sibling_pairs. rewrite list_elem_of_In, in_concat. split.
  - intros (l & Hl & Hin). apply in_map_iff in Hl as (c & <- & Hc). apply in_map_iff in Hin as (s & [= <- <-] & Hs).
    apply list_elem_of_In in Hs, Hc. apply elem_of_remove_dups, list_elem_of_filter in Hs as [? ?]. done.
  - intros (Ha & Hb & Hs). eexists. split; [apply in_map_iff; exists a; split; [reflexivity|by apply list_elem_of_In]|].
    apply in_map_iff. exists b. split; [done|]. apply list_elem_of_In, elem_of_remove_dups, list_elem_of_filter. done.
Qed.

(** Two available CPUs share a physical core when a chain of sibling lists connects them. *)
Definition same_core (sibs : list (Z * list Z)) (ids : list Z) : Z -> Z -> Prop := linked (sibling_pairs (sorted_set ids) sibs).

Record cores_ok (sibs : list (Z * list Z)) (ids : list Z) (groups : list (list Z)) : Prop := {
  co_partition : concat groups ≡ₚ sorted_set ids;
  co_nonempty : Forall (fun g => g <> []) groups;
  co_core : forall g x y, g ∈ groups -> x ∈ g -> y ∈ ids -> (y ∈ g <-> same_core sibs ids x y);
  co_least : forall g x, head groups = Some g -> x ∈ ids -> exists y, y ∈ g /\ y <= x }.

Lemma physical_cores_spec sibs ids : exists groups, physical_cores sibs ids = Some groups /\ cores_ok sibs ids groups.
Proof.
  unfold physical_cores. set (s := sorted_set ids). pose proof (sorted_set_NoDup ids) as Hnd. fold s in Hnd.
  set (A := list_to_set s : gset Z). assert (length s = size A) as Hsz by (symmetry; by apply size_list_to_set). rewrite Hsz.
  destruct (unite_all_spec A (sibling_pairs s sibs) [] id _ (initial_forest s) (initial_connects A)) as (p & R & -> & Hf & Hc).
  { intros [a b] Hin. apply sibling_pairs_elem in Hin as (? & ? & _). set_solver. }
  cbn. destruct (group_all_spec A R s p [] [] Hf) as (g & -> & Hd & Hp & Hg).
  { intros c Hin. set_solver. }
  { split; [apply NoDup_nil_2|]. split; [done|]. by intros r l ?%not_elem_of_nil. }
  cbn [app] in *. cbn. eexists. split; [done|].
  assert (forall l, l ∈ py_sorted group_le g.*2 -> exists r, l <> [] /\ l = filter (fun x => R x = r) s) as Hl.
  { intros l Hin. rewrite py_sorted_perm in Hin. apply list_elem_of_fmap in Hin as ([r l'] & -> & Hin). exists r. by apply Hg. }
  assert (concat (py_sorted group_le g.*2) ≡ₚ s) as Hperm.
  { rewrite <- Hp. apply concat_perm, py_sorted_perm. }
  split.
  - done.
  - apply Forall_forall. intros l Hin. by destruct (Hl l Hin) as (r & ? & _).
  - intros l x y Hin Hx Hy. destruct (Hl l Hin) as (r & _ & ->). apply list_elem_of_filter in Hx as [<- Hx].
    apply (elem_sorted_cpus y ids) in Hy. rewrite list_elem_of_filter. unfold same_core. fold s.
    rewrite <- (Hc x y) by set_solver. naive_solver.
  - intros l x Hh Hx. apply (elem_sorted_cpus x ids) in Hx. fold s in Hx. rewrite <- Hperm in Hx.
    apply list_elem_of_In, in_concat in Hx as (l' & Hl' & Hx). apply list_elem_of_In in Hl', Hx.
    destruct (py_sorted group_le g.*2) as [|l0 rest] eqn:E; [done|]. injection Hh as ->.
    assert (default 0 (head l) <= default 0 (head l')) as Hle.
    { assert (StronglySorted (fun a b => group_le a b = true) (l :: rest)) as Hs.
      { rewrite <- E. apply Sorted_StronglySorted; [intros a b c; unfold group_le; lia|]. apply py_sorted_Sorted. intros a b. unfold group_le. lia. }
      apply elem_of_cons in Hl' as [->|Hl']; [lia|]. inversion Hs; subst.
      match goal with H : Forall _ rest |- _ => apply (proj1 (Forall_forall _ _) H) in Hl' end. unfold group_le in Hl'. lia. }
    destruct (Hl l ltac:(set_solver)) as (r & Hne & Hlr), (Hl l') as (r' & _ & Hlr'); [set_solver|].
    assert (default 0 (head l') <= x).
    { apply head_min; [|done]. rewrite Hlr'. unfold s, sorted_set. clear. induction (sorted_Z (remove_dups ids)) as [|a l _ IH Ha]; [constructor|].
      rewrite filter_cons. case_decide; [|done]. constructor; [done|]. apply Forall_forall. intros b Hb. apply list_elem_of_filter in Hb as [_ Hb].
      by apply (proj1 (Forall_forall _ _) Ha). }
    destruct l as [|z l]; [done|]. exists z. split; [apply list_elem_of_here|]. cbn in Hle. lia.
Qed.

Lemma elem_of_subseteq_take {A} (x : A) n l : x ∈ take n l -> x ∈ l.
Proof. intros H. rewrite <- (take_drop n l). apply elem_of_app. by left. Qed.
Lemma elem_of_subseteq_drop {A} (x : A) n l : x ∈ drop n l -> x ∈ l.
Proof. intros H. rewrite <- (take_drop n l). apply elem_of_app. by right. Qed.

Definition plane_whole (sibs : list (Z * list Z)) (ids : list Z) (l : list Z) : Prop :=
  forall x y, x ∈ l -> y ∈ ids -> same_core sibs ids x y -> y ∈ l.

Lemma whole_groups sibs ids groups part : cores_ok sibs ids groups -> (forall g, g ∈ part -> g ∈ groups) ->
  plane_whole sibs ids (py_sorted Z.leb (concat part)).
Proof.
  intros H Hp x y Hx Hy Hs. rewrite py_sorted_perm in *. apply list_elem_of_In, in_concat in Hx as (g & Hg & Hx).
  apply list_elem_of_In in Hg, Hx. apply list_elem_of_In, in_concat. exists g. split; [by apply list_elem_of_In|].
  apply list_elem_of_In. by apply (co_core _ _ _ H g x y (Hp _ Hg) Hx Hy).
Qed.

Lemma plane_nonempty sibs ids groups (part : list (list Z)) : cores_ok sibs ids groups -> (forall g, g ∈ part -> g ∈ groups) -> part <> [] ->
  py_sorted Z.leb (concat part) <> [].
Proof.
  intros H Hp Hne Hx. destruct part as [|g part]; [done|].
  pose proof (proj1 (Forall_forall _ _) (co_nonempty _ _ _ H) g (Hp g (list_elem_of_here _ _))) as Hg.
  pose proof (py_sorted_perm Z.leb (concat (g :: part))) as Hperm. rewrite Hx in Hperm. apply Permutation_nil in Hperm.
  cbn in Hperm. by apply app_nil in Hperm as [-> _].
Qed.

Lemma split_three {A} (l : list A) r : (r <= 2 * r)%nat -> take r l ++ drop r (take (2 * r) l) ++ drop (2 * r) l = l.
Proof.
  intros H. rewrite app_assoc.
  assert (take r l = take r (take (2 * r) l)) as -> by (by rewrite take_take, Nat.min_l). rewrite take_drop. apply take_drop.
Qed.

(** The planes partition the machine.  For every set of CPUs and every sibling table the grouping ends and puts two
    CPUs into one group exactly when sibling lists connect them.  With at least four physical cores the plan splits
    the CPUs into three disjoint, non-empty planes that together have every CPU, no physical core is shared between
    planes, and the lowest CPU is in the management plane; with fewer, every plane has all CPUs. *)
Theorem plan_partition cpu_ids sibs :
  let ids := sorted_set cpu_ids in
  exists pl groups, balanced_plan cpu_ids sibs = Some pl /\ physical_cores sibs ids = Some groups /\ cores_ok sibs ids groups
  /\ ((length groups < 4)%nat -> pl = {| mgmt := ids; ctrl := ids; data := ids |})
  /\ ((4 <= length groups)%nat ->
        mgmt pl ++ ctrl pl ++ data pl ≡ₚ ids /\ NoDup ids
        /\ Forall (fun l => l <> [] /\ plane_whole sibs ids l) [mgmt pl; ctrl pl; data pl]
        /\ forall x, x ∈ ids -> Forall (Z.le x) ids -> x ∈ mgmt pl).
Proof.
  intros ids. destruct (physical_cores_spec sibs ids) as (groups & Hg & H). unfold balanced_plan. fold ids. rewrite Hg.
  cbn [mbind option_bind]. destruct (length groups <? 4)%nat eqn:E; [apply Nat.ltb_lt in E|apply Nat.ltb_ge in E];
    eexists _, groups; (split; [reflexivity|]); (split; [done|]); (split; [done|]).
  { split; [done|lia]. }
  split; [lia|]. intros _. cbn [mgmt ctrl data]. set (r := Nat.max 1 _).
  assert (1 <= r /\ 2 * r < length groups)%nat as [Hr1 Hr2].
  { unfold r. pose proof (Nat.div_mod_eq (length groups) 8). pose proof (Nat.mod_upper_bound (length groups) 8). lia. }
  clearbody r.
  assert (forall n g, g ∈ take n groups -> g ∈ groups) as Ht by (intros n g; apply elem_of_subseteq_take).
  assert (forall n g, g ∈ drop n groups -> g ∈ groups) as Hd by (intros n g; apply elem_of_subseteq_drop).
  assert (forall n g, g ∈ drop n (take (2 * r) groups) -> g ∈ groups) as Htd by (intros n g Hin; by eapply Ht, elem_of_subseteq_drop).
  split; [|split; [|split]].
  - rewrite !py_sorted_perm, <- !concat_app, split_three by lia. rewrite (co_partition _ _ _ H).
    apply NoDup_Permutation; [apply sorted_set_NoDup|apply sorted_set_NoDup|]. intros x. apply elem_sorted_cpus.
  - apply sorted_set_NoDup.
  - assert (forall (l : list (list Z)), length l <> 0%nat -> l <> []) as Hl by (by intros [|]).
    repeat apply Forall_cons_2; [| | |constructor]; (split; [|by eapply whole_groups; eauto]); (eapply plane_nonempty; eauto);
      apply Hl; rewrite ?length_drop, ?length_take; lia.
  - intros x Hx Hleast. destruct groups as [|g groups]; [cbn in Hr2; lia|]. destruct (co_least _ _ _ H g x eq_refl Hx) as (y & Hy & Hyx).
    assert (y ∈ ids) as Hyi.
    { rewrite <- (elem_sorted_cpus y ids), <- (co_partition _ _ _ H). cbn. apply elem_of_app. by left. }
    assert (y = x) as -> by (pose proof (proj1 (Forall_forall _ _) Hleast y Hyi); lia). rewrite py_sorted_perm.
    destruct r as [|r]; [lia|]. cbn. apply elem_of_app. by left.
Qed.

(** A machine of eight CPUs with two threads per core, and one without topology. *)
Example plan_smt : balanced_plan [0; 1; 2; 3; 4; 5; 6; 7] [(0, [0; 4]); (1, [1; 5]); (2, [2; 6]); (3, [3; 7])]
  = Some {| mgmt := [0; 4]; ctrl := [1; 5]; data := [2; 3; 6; 7] |}.
Proof. vm_compute. reflexivity. Qed.

Example plan_small : balanced_plan [2; 0; 1] [] = Some {| mgmt := [0; 1; 2]; ctrl := [0; 1; 2]; data := [0; 1; 2] |}.
Proof. vm_compute. reflexivity. Qed.
