(* ===== verification/CpuLists.v ===== *)
(** * CPU lists and the plane configuration as text ([ffn_cpu_planes.py])

    The plane map is stored as a shell file and as kernel arguments; both hold compressed CPU lists such as
    [0,2-5,8].  The file models the list codec, the two writers and the parsers, and shows that what is written is
    what is read back. *)

From stdpp Require Import sorting.
From S2P Require Import Prelude PyStr PyDict PyIp PyIp6 PolicyObjects NatPolicy PolicyPlan CpuPlanes.

(** [s.partition(sep)] and [s.split(sep, 1)] for one character; [None] when it does not occur. *)
Fixpoint cut (sep : Z) (s : pystr) : option (pystr * pystr) :=
  match s with
  | [] => None
  | c :: t => if c =? sep then Some ([], t) else (fun p => (c :: p.1, p.2)) <$> cut sep t
  end.

(** [list(range(a, b + 1))]. *)
Definition range (a b : Z) : list Z := map (fun i => a + Z.of_nat i) (seq 0 (Z.to_nat (b + 1 - a))).

Definition expand_part (part : pystr) : list Z :=
  let p := strip part in
  match p with
  | [] => []
  | _ =>
      match cut 45 p with
      | Some (a, b) => match py_int a, py_int b with Some x, Some y => range x y | _, _ => [] end
      | None => match py_int p with Some x => [x] | None => [] end
      end
  end.

Definition expand_cpu_list (spec : pystr) : list Z := sorted_set (concat (map expand_part (split_on 44 spec))).

(** [str(n)]. *)
Definition int_text (n : Z) : pystr := if n <? 0 then 45 :: nat_text (- n) else nat_text n.

(** The loop over [cs[1:]] with the open range [start..prev]. *)
Fixpoint ranges (start prev : Z) (cs : list Z) : list (Z * Z) :=
  match cs with
  | [] => [(start, prev)]
  | c :: t => if c =? prev + 1 then ranges start c t else (start, prev) :: ranges c c t
  end.

Definition range_text (r : Z * Z) : pystr :=
  if r.1 =? r.2 then int_text r.1 else int_text r.1 ++ [45] ++ int_text r.2.

Definition format_cpu_list (cores : list Z) : pystr :=
  match sorted_set cores with
  | [] => []
  | c :: t => join [44] (map range_text (ranges c c t))
  end.

(** ** The configuration file *)

Definition is_break (c : Z) : bool :=
  between 10 c 13 || between 28 c 30 || (c =? 133) || (c =? 8232) || (c =? 8233).
(** [s.splitlines()]: [cur] is the line so far, reversed. *)
Fixpoint splitlines_from (cur : pystr) (s : pystr) : list pystr :=
  match s with
  | [] => match cur with [] => [] | _ => [rev cur] end
  | 13 :: 10 :: t => rev cur :: splitlines_from [] t
  | c :: t => if is_break c then rev cur :: splitlines_from [] t else splitlines_from (c :: cur) t
  end.
Definition splitlines : pystr -> list pystr := splitlines_from [].

(** [s.strip] of double quotes. *)
Fixpoint lquotes (s : pystr) : pystr := match s with 34 :: t => lquotes t | _ => s end.
Definition unquote (s : pystr) : pystr := rev (lquotes (rev (lquotes s))).

Inductive plane := Mgmt | Ctrl | Data.
#[global] Instance plane_eq_dec : EqDecision plane.
Proof. solve_decision. Defined.

Definition conf_key (p : plane) : pystr :=
  lit (match p with Mgmt => "FFN_MGMT_CORES" | Ctrl => "FFN_CTRL_CORES" | Data => "FFN_DPDK_CORES" end).
Definition plane_of_key (k : pystr) : option plane :=
  if bool_decide (k = conf_key Mgmt) then Some Mgmt
  else if bool_decide (k = conf_key Ctrl) then Some Ctrl
  else if bool_decide (k = conf_key Data) then Some Data
  else if existsb (fun a => bool_decide (k = lit a)) ["FFN_DP_CORES"; "FFN_DATA_CORES"; "FFN_DATAPLANE_CORES"]%string then Some Data
  else None.

Definition parse_conf_line (d : list (plane * list Z)) (line : pystr) : list (plane * list Z) :=
  let l := strip line in
  match l with
  | [] | 35 :: _ => d
  | _ =>
      match cut 61 l with
      | None => d
      | Some (k, v) => match plane_of_key (strip k) with
                       | Some p => dset p (expand_cpu_list (unquote (strip v))) d
                       | None => d
                       end
      end
  end.
Definition parse_conf (text : pystr) : list (plane * list Z) := fold_left parse_conf_line (splitlines text) [].

Definition conf_line (p : plane) (cores : list Z) : pystr := conf_key p ++ [61; 34] ++ format_cpu_list cores ++ [34].
Definition render_conf (pl : planes) : pystr :=
  join [10] [ lit "# /etc/ffn-ngfw/cpu-planes.conf -- generated by ffn_cpu_planes";
              lit "# FFN NGFW CPU plane split (mgmt/ctrl/data).";
              conf_line Mgmt (mgmt pl); conf_line Ctrl (ctrl pl); conf_line Data (data pl) ] ++ [10].

(** ** Kernel arguments *)

(** [s.split()]: words between white space. *)
Fixpoint words_from (cur : pystr) (s : pystr) : list pystr :=
  match s with
  | [] => match cur with [] => [] | _ => [rev cur] end
  | c :: t => if is_space c then match cur with [] => words_from [] t | _ => rev cur :: words_from [] t end
              else words_from (c :: cur) t
  end.
Definition words : pystr -> list pystr := words_from [].

(** [tok.startswith(p)], with the rest. *)
Fixpoint after_prefix (p s : pystr) : option pystr :=
  match p, s with
  | [], _ => Some s
  | x :: p', y :: s' => if x =? y then after_prefix p' s' else None
  | _, [] => None
  end.

Definition _ISOLCPUS_FLAGS : list pystr := map lit ["managed_irq"; "domain"; "nohz"; "rcu"]%string.
Definition isolcpus_spec (spec : pystr) : list Z :=
  expand_cpu_list (join [44] (List.filter (fun p => negb (bool_decide (p ∈ _ISOLCPUS_FLAGS))) (split_on 44 spec))).

(** The first token with the prefix decides. *)
Fixpoint first_token (p : pystr) (f : pystr -> list Z) (l : list pystr) : list Z :=
  match l with
  | [] => []
  | t :: rest => match after_prefix p t with Some spec => f spec | None => first_token p f rest end
  end.
Definition parse_isolcpus (cmdline : pystr) : list Z := first_token (lit "isolcpus=") isolcpus_spec (words cmdline).
Definition parse_nohz_full (cmdline : pystr) : list Z := first_token (lit "nohz_full=") expand_cpu_list (words cmdline).

Definition grub_isolcpus (pl : planes) : pystr :=
  let cl := format_cpu_list (data pl) in
  match cl with
  | [] => []
  | _ => if existsb (fun c => bool_decide (c ∈ mgmt pl) || bool_decide (c ∈ ctrl pl)) (data pl) then []
         else lit "isolcpus=managed_irq,domain," ++ cl ++ lit " nohz_full=" ++ cl ++ lit " rcu_nocbs=" ++ cl
  end.

(** ** The list codec *)

(** The text of a CPU number. *)
Definition small (n : Z) : Prop := 0 <= n < 2 ^ 4000.
Definition digits (s : pystr) : Prop := Forall (fun c => between 48 c 57 = true) s.

Lemma nat_text_spec n : small n -> digits (nat_text n) /\ nat_text n <> [] /\ py_int (nat_text n) = Some n.
Proof.
  intros [H0 Hn]. unfold nat_text. assert (0 <= Z.log2 n < 4000) as Hlog.
  { split; [apply Z.log2_nonneg|]. destruct (decide (n = 0)) as [->|Hne]; [done|]. apply Z.log2_lt_pow2; lia. }
  destruct (nat_text_fuel_spec (S (Z.to_nat (Z.log2 n))) n) as (H1 & H2 & H3 & H4); [lia | |].
  - split; [lia|]. rewrite Nat2Z.inj_succ, Z2Nat.id by lia. destruct (decide (n = 0)) as [->|Hne]; [done|].
    destruct (Z.log2_spec n) as [_ Hlt]; [lia|]. eapply Z.lt_le_trans; [exact Hlt|]. apply Z.pow_le_mono_l. lia.
  - split; [done|]. split; [done|]. apply py_int_digits; try done. lia.
Qed.

Lemma int_text_small n : small n -> int_text n = nat_text n.
Proof. intros [H _]. unfold int_text. destruct (Z.ltb_spec n 0); [lia|done]. Qed.

(** The characters of a compressed list. *)
Definition list_char (c : Z) : bool := between 44 c 45 || between 48 c 57.

Lemma list_char_space c : list_char c = true -> is_space c = false /\ is_break c = false /\ c <> 34 /\ c <> 61.
Proof.
  intros H. assert (44 <= c <= 57) as Hc by (apply orb_true_iff in H as [H|H]; apply between_inv in H; lia).
  split; [|split; [|lia]]; unfold is_space, is_break, between;
    repeat (apply orb_false_iff; split); try (apply andb_false_iff); rewrite ?Z.eqb_neq, ?Z.leb_gt; lia.
Qed.

Lemma lstrip_nospace s : Forall (fun c => is_space c = false) s -> lstrip s = s.
Proof. destruct 1 as [|c s Hc _]; [done|]. cbn. by rewrite Hc. Qed.
Lemma strip_nospace s : Forall (fun c => is_space c = false) s -> strip s = s.
Proof. intros H. unfold strip. rewrite (lstrip_nospace s) by done. rewrite lstrip_nospace by (by apply Forall_rev). apply rev_involutive. Qed.

Lemma cut_app sep a b : Forall (fun c => c <> sep) a -> cut sep (a ++ sep :: b) = Some (a, b).
Proof.
  induction 1 as [|c a Hc _ IH]; cbn; [by rewrite Z.eqb_refl|]. apply Z.eqb_neq in Hc. rewrite Hc, IH. done.
Qed.
Lemma cut_none sep a : Forall (fun c => c <> sep) a -> cut sep a = None.
Proof. induction 1 as [|c a Hc _ IH]; cbn; [done|]. apply Z.eqb_neq in Hc. by rewrite Hc, IH. Qed.

Lemma digits_list s : digits s -> Forall (fun c => list_char c = true /\ c <> 44) s.
Proof. intros H. eapply Forall_impl; [exact H|]. intros c Hc. unfold list_char. rewrite Hc, orb_true_r. apply between_inv in Hc. split; [done|lia]. Qed.

Definition small_range (r : Z * Z) : Prop := small r.1 /\ small r.2 /\ r.1 <= r.2.

Lemma range_text_chars r : small_range r -> Forall (fun c => list_char c = true /\ c <> 44) (range_text r) /\ range_text r <> [].
Proof.
  intros (H1 & H2 & _). unfold range_text. rewrite !int_text_small by done.
  destruct (nat_text_spec _ H1) as (D1 & N1 & _), (nat_text_spec _ H2) as (D2 & _ & _).
  destruct (r.1 =? r.2); [split; [by apply digits_list|done]|]. split; [|by destruct (nat_text r.1)].
  apply Forall_app. split; [by apply digits_list|]. cbn. constructor; [done|by apply digits_list].
Qed.

Lemma range_one a : range a a = [a].
Proof. unfold range. replace (Z.to_nat (a + 1 - a)) with 1%nat by lia. cbn. f_equal. lia. Qed.

Lemma expand_range_text r : small_range r -> expand_part (range_text r) = range r.1 r.2.
Proof.
  intros Hr. destruct (range_text_chars r Hr) as [Hc Hne]. unfold expand_part. rewrite strip_nospace.
  2: { eapply Forall_impl; [exact Hc|]. intros c [H _]. by apply list_char_space. }
  destruct (range_text r) as [|x s] eqn:E; [done|]. rewrite <- E. clear Hc Hne E. destruct Hr as (H1 & H2 & _). unfold range_text.
  rewrite !int_text_small by done. destruct (nat_text_spec _ H1) as (D1 & _ & P1), (nat_text_spec _ H2) as (D2 & _ & P2).
  destruct (Z.eqb_spec r.1 r.2) as [He|_].
  - rewrite cut_none by (by apply (digits_avoid 45)). by rewrite P1, <- He, range_one.
  - cbn [app]. rewrite cut_app by (by apply (digits_avoid 45)). by rewrite P1, P2.
Qed.

Lemma elem_range x a b : x ∈ range a b <-> a <= x <= b.
Proof.
  unfold range. rewrite list_elem_of_In, in_map_iff. split.
  - intros (i & <- & Hi%in_seq). lia.
  - intros H. exists (Z.to_nat (x - a)). split; [lia|]. apply in_seq. lia.
Qed.

Lemma ranges_elem cs : forall start prev, start <= prev ->
  forall x, x ∈ concat (map (fun r => range r.1 r.2) (ranges start prev cs)) <-> start <= x <= prev \/ x ∈ cs.
Proof.
  induction cs as [|c cs IH]; intros start prev Hle x; cbn [ranges].
  - cbn [map concat fst snd]. rewrite app_nil_r, elem_range, elem_of_nil. tauto.
  - destruct (Z.eqb_spec c (prev + 1)) as [->|Hne].
    + rewrite IH by lia. rewrite elem_of_cons. intuition lia.
    + cbn [map concat fst snd]. rewrite elem_of_app, elem_range, IH by lia. rewrite elem_of_cons. intuition lia.
Qed.

Lemma ranges_small cs : forall start prev, small start -> small prev -> start <= prev -> Forall small cs ->
  StronglySorted Z.le cs -> Forall small_range (ranges start prev cs) /\ ranges start prev cs <> [].
Proof.
  induction cs as [|c cs IH]; intros start prev H1 H2 Hle Hc Hs; cbn [ranges].
  - split; [|done]. apply Forall_singleton. by split.
  - apply Forall_cons in Hc as [Hc0 Hc]. inversion Hs; subst. destruct (Z.eqb_spec c (prev + 1)) as [->|Hne].
    + apply IH; try done. lia.
    + destruct (IH c c) as [Hf _]; try done. split; [|done]. constructor; [by split|done].
Qed.

Lemma split_join (l : list pystr) : l <> [] -> Forall (Forall (fun c => c <> 44)) l -> split_on 44 (join [44] l) = l.
Proof.
  intros Hne H. induction H as [|w l Hw Hl IH]; [done|]. destruct l as [|w' l].
  - cbn. rewrite ?app_nil_r. by apply split_on_word.
  - specialize (IH ltac:(done)). change (join [44] (w :: w' :: l)) with (w ++ [44] ++ join [44] (w' :: l)).
    cbn [app]. by rewrite split_on_sep, IH.
Qed.

Lemma sorted_set_ext l l' : (forall x, x ∈ l <-> x ∈ l') -> sorted_set l = sorted_set l'.
Proof.
  intros H. apply (StronglySorted_unique Z.le); [apply sorted_Z|apply sorted_Z|].
  apply NoDup_Permutation; [apply sorted_set_NoDup|apply sorted_set_NoDup|]. intros x. by rewrite !elem_sorted_cpus.
Qed.

Lemma map_expand l : Forall small_range l -> map expand_part (map range_text l) = map (fun r => range r.1 r.2) l.
Proof. induction 1 as [|r l Hr _ IH]; [done|]. cbn. by rewrite expand_range_text, IH. Qed.

Lemma format_shape cores : Forall small cores ->
  exists l, Forall small_range l /\ (l <> [] \/ sorted_set cores = []) /\ format_cpu_list cores = join [44] (map range_text l)
    /\ forall x, x ∈ concat (map (fun r => range r.1 r.2) l) <-> x ∈ cores.
Proof.
  intros H. unfold format_cpu_list. assert (Forall small (sorted_set cores)) as Hs.
  { apply Forall_forall. intros x Hx. apply (elem_sorted_cpus x cores) in Hx. rewrite Forall_forall in H. exact (H x Hx). }
  pose proof (sorted_Z (remove_dups cores)) as Hst. fold (sorted_set cores) in Hst.
  assert (forall x, x ∈ sorted_set cores <-> x ∈ cores) as He by (intros x; apply elem_sorted_cpus).
  destruct (sorted_set cores) as [|c t]; [exists []; split; [constructor|]; split; [by right|]; split; [done|exact He]|].
  apply Forall_cons in Hs as [Hc Ht]. inversion Hst; subst. destruct (ranges_small t c c) as [Hr Hne]; try done.
  exists (ranges c c t). split; [done|]. split; [by left|]. split; [done|]. intros x. rewrite ranges_elem by lia. rewrite <- He, elem_of_cons.
  intuition lia.
Qed.

Lemma expand_format cores : Forall small cores -> expand_cpu_list (format_cpu_list cores) = sorted_set cores.
Proof.
  intros H. destruct (format_shape cores H) as (l & Hl & [Hne|Hnil] & -> & He).
  - unfold expand_cpu_list. rewrite split_join.
    + rewrite map_expand by done. by apply sorted_set_ext.
    + by destruct l.
    + apply Forall_map. eapply Forall_impl; [exact Hl|]. intros r Hr. destruct (range_text_chars r Hr) as [Hc _].
      eapply Forall_impl; [exact Hc|]. by intros c [_ ?].
  - assert (l = []) as ->.
    { destruct l as [|r l]; [done|]. exfalso. apply Forall_cons in Hl as [(_ & _ & Hr) _].
      assert (r.1 ∈ cores) as Hin by (apply He; cbn; apply elem_of_app; left; apply elem_range; lia).
      apply elem_sorted_cpus in Hin. rewrite Hnil in Hin. by apply not_elem_of_nil in Hin. }
    rewrite Hnil. reflexivity.
Qed.

(** ** The file and the kernel arguments *)

Lemma format_chars cores : Forall small cores -> Forall (fun c => list_char c = true) (format_cpu_list cores).
Proof.
  intros H. destruct (format_shape cores H) as (l & Hl & _ & -> & _). unfold join. destruct Hl as [|r l Hr Hl]; [constructor|]. cbn [map].
  assert (forall r, small_range r -> Forall (fun c => list_char c = true) (range_text r)) as Hc.
  { intros r' Hr'. destruct (range_text_chars r' Hr') as [Hx _]. eapply Forall_impl; [exact Hx|]. by intros c [? _]. }
  apply Forall_app. split; [by apply Hc|]. induction Hl as [|r' l Hr' _ IH]; cbn; [constructor|]. constructor; [done|].
  apply Forall_app. split; [by apply Hc|exact IH].
Qed.

Lemma splitlines_line w t cur : Forall (fun c => is_break c = false) w ->
  splitlines_from cur (w ++ 10 :: t) = (rev cur ++ w) :: splitlines_from [] t.
Proof.
  intros H. revert cur. induction H as [|c w Hc _ IH]; intros cur.
  - by rewrite app_nil_r.
  - cbn [app]. assert (splitlines_from cur (c :: w ++ 10 :: t) = splitlines_from (c :: cur) (w ++ 10 :: t)) as ->.
    { assert (c <> 13) as Hne by (by intros ->). cbn [splitlines_from]. rewrite Hc.
      destruct c as [|c|c]; try done. do 4 (destruct c as [c|c|]; try done). }
    rewrite IH. cbn [rev]. by rewrite <- app_assoc.
Qed.

Lemma conf_key_chars p : Forall (fun c => is_space c = false /\ is_break c = false /\ c <> 61) (conf_key p).
Proof. destruct p; repeat constructor; done. Qed.

Lemma conf_line_chars p cores : Forall small cores -> Forall (fun c => is_space c = false /\ is_break c = false) (conf_line p cores).
Proof.
  intros H. unfold conf_line. apply Forall_app. split.
  - eapply Forall_impl; [apply conf_key_chars|]. naive_solver.
  - repeat (apply Forall_cons_2; [done|]). apply Forall_app. split; [|by apply Forall_singleton].
    eapply Forall_impl; [by apply format_chars|]. intros c Hc. apply list_char_space in Hc. naive_solver.
Qed.

Lemma lquotes_list s t : Forall (fun c => list_char c = true) s -> s <> [] -> lquotes (s ++ t) = s ++ t.
Proof.
  destruct 1 as [|c s Hc _]; [done|]. intros _. apply list_char_space in Hc as (_ & _ & Hc & _). cbn.
  destruct c as [|c|c]; try done. do 6 (destruct c as [c|c|]; try done).
Qed.

Lemma unquote_list s : Forall (fun c => list_char c = true) s -> unquote ([34] ++ s ++ [34]) = s.
Proof.
  intros H. unfold unquote. cbn [app lquotes]. destruct s as [|c s]; [done|]. rewrite lquotes_list by done.
  rewrite rev_app_distr. cbn [rev app lquotes]. fold (rev (c :: s)).
  rewrite <- (app_nil_r (rev s ++ [c])), lquotes_list, app_nil_r.
  - change (rev s ++ [c]) with (rev (c :: s)). apply rev_involutive.
  - change (rev s ++ [c]) with (rev (c :: s)). by apply Forall_rev.
  - by destruct (rev s).
Qed.

Lemma parse_rendered_line d p cores : Forall small cores -> parse_conf_line d (conf_line p cores) = dset p (sorted_set cores) d.
Proof.
  intros H. unfold parse_conf_line. rewrite strip_nospace.
  2: { eapply Forall_impl; [by apply conf_line_chars|]. naive_solver. }
  assert (cut 61 (conf_line p cores) = Some (conf_key p, [34] ++ format_cpu_list cores ++ [34])) as Hcut.
  { unfold conf_line. apply (cut_app 61 (conf_key p)). eapply Forall_impl; [apply conf_key_chars|]. naive_solver. }
  assert (plane_of_key (strip (conf_key p)) = Some p) as Hk by (destruct p; reflexivity).
  assert (strip ([34] ++ format_cpu_list cores ++ [34]) = [34] ++ format_cpu_list cores ++ [34]) as Hst.
  { apply strip_nospace. cbn [app]. constructor; [done|]. apply Forall_app. split; [|by apply Forall_singleton].
    eapply Forall_impl; [by apply format_chars|]. intros c Hc. by apply list_char_space in Hc as [? _]. }
  rewrite Hcut, Hk, Hst, unquote_list, expand_format by (try apply format_chars; done).
  unfold conf_line. destruct p; reflexivity.
Qed.

Lemma words_word w t cur : Forall (fun c => is_space c = false) w -> rev cur ++ w <> [] ->
  words_from cur (w ++ 32 :: t) = (rev cur ++ w) :: words_from [] t.
Proof.
  intros H. revert cur. induction H as [|c w Hc _ IH]; intros cur Hne; cbn.
  - rewrite app_nil_r in *. by destruct cur.
  - rewrite Hc. rewrite IH; cbn; rewrite <- app_assoc; done.
Qed.

Lemma words_last w cur : Forall (fun c => is_space c = false) w -> rev cur ++ w <> [] -> words_from cur w = [rev cur ++ w].
Proof.
  intros H. revert cur. induction H as [|c w Hc _ IH]; intros cur Hne; cbn.
  - rewrite app_nil_r in *. by destruct cur.
  - rewrite Hc. rewrite IH; cbn; rewrite <- app_assoc; done.
Qed.

Lemma after_prefix_app p s : after_prefix p (p ++ s) = Some s.
Proof. induction p as [|c p IH]; [done|]. cbn. by rewrite Z.eqb_refl. Qed.

(** Flag tokens are dropped; the rest of a formatted list is kept. *)
Lemma isolcpus_flags cores : Forall small cores -> format_cpu_list cores <> [] ->
  isolcpus_spec (lit "managed_irq,domain," ++ format_cpu_list cores) = sorted_set cores.
Proof.
  intros H Hne. unfold isolcpus_spec. destruct (format_shape cores H) as (l & Hl & _ & Hf & _).
  assert (l <> []) as Hnl by (intros ->; by rewrite Hf in Hne).
  assert (Forall (Forall (fun c => list_char c = true /\ c <> 44)) (map range_text l)) as Hw.
  { apply Forall_map. eapply Forall_impl; [exact Hl|]. intros r Hr. by apply range_text_chars. }
  assert (split_on 44 (lit "managed_irq,domain," ++ format_cpu_list cores) = [lit "managed_irq"; lit "domain"] ++ map range_text l) as ->.
  { rewrite <- (split_join (map range_text l)).
    - rewrite <- Hf. change (lit "managed_irq,domain," ++ format_cpu_list cores)
        with (lit "managed_irq" ++ 44 :: (lit "domain" ++ 44 :: format_cpu_list cores)).
      rewrite !split_on_sep by (repeat constructor; done). done.
    - by destruct l.
    - eapply Forall_impl; [exact Hw|]. intros w Hx. eapply Forall_impl; [exact Hx|]. by intros c [_ ?]. }
  rewrite List.filter_app. cbn [List.filter app]. rewrite !bool_decide_eq_true_2 by (unfold _ISOLCPUS_FLAGS; cbn; set_solver). cbn [negb app].
  assert (List.filter (fun p => negb (bool_decide (p ∈ _ISOLCPUS_FLAGS))) (map range_text l) = map range_text l) as ->.
  { clear Hf Hnl Hne. induction Hl as [|r l Hr _ IH]; [done|]. cbn [map] in *. apply Forall_cons in Hw as [Hw1 Hw2]. cbn [List.filter].
    rewrite bool_decide_eq_false_2; [cbn [negb]; by rewrite IH|]. intros Hin. apply range_text_chars in Hr as [_ Hn].
    destruct (range_text r) as [|c s]; [done|]. apply Forall_cons in Hw1 as [[Hc _] _].
    assert (44 <= c <= 57) by (apply orb_true_iff in Hc as [Hc|Hc]; apply between_inv in Hc; lia).
    unfold _ISOLCPUS_FLAGS in Hin. repeat (apply elem_of_cons in Hin as [Hin|Hin]; [injection Hin as Hin _; lia|]). by apply not_elem_of_nil in Hin. }
  rewrite <- Hf. by apply expand_format.
Qed.

(** The plane configuration survives its text.  For every plane map with CPU numbers below 2^4000 the written
    configuration file parses to the three planes, each sorted and without repetition; and the kernel arguments, when
    the data plane is isolated, are read back as exactly the data CPUs, as isolated and as tick-free CPUs, although
    the flag tokens stand in the same list.  No arguments are written when the data plane overlaps another plane. *)
Theorem conf_roundtrip pl :
  Forall small (mgmt pl) -> Forall small (ctrl pl) -> Forall small (data pl) ->
  parse_conf (render_conf pl) = [(Mgmt, sorted_set (mgmt pl)); (Ctrl, sorted_set (ctrl pl)); (Data, sorted_set (data pl))]
  /\ (grub_isolcpus pl <> [] ->
        parse_isolcpus (grub_isolcpus pl) = sorted_set (data pl) /\ parse_nohz_full (grub_isolcpus pl) = sorted_set (data pl)
        /\ Forall (fun c => c ∉ mgmt pl /\ c ∉ ctrl pl) (data pl)).
Proof.
  intros Hm Hc Hd. split.
  - unfold parse_conf, render_conf, splitlines.
    set (l1 := conf_line Mgmt _). set (l2 := conf_line Ctrl _). set (l3 := conf_line Data _).
    assert (forall p cores, Forall small cores -> Forall (fun c => is_break c = false) (conf_line p cores)) as Hb.
    { intros p cores H. eapply Forall_impl; [by apply conf_line_chars|]. naive_solver. }
    match goal with |- context [join [10] [?a; ?b; l1; l2; l3]] => set (a1 := a); set (b1 := b) end.
    assert (join [10] [a1; b1; l1; l2; l3] ++ [10] = a1 ++ 10 :: (b1 ++ 10 :: (l1 ++ 10 :: (l2 ++ 10 :: (l3 ++ 10 :: []))))) as ->.
    { unfold join. cbn [map concat]. rewrite app_nil_r. by rewrite <- !app_assoc. }
    rewrite !splitlines_line; try (by apply Hb); try (apply forallb_True || (repeat constructor; done)).
    cbn [rev app splitlines_from fold_left].
    assert (parse_conf_line [] a1 = []) as -> by reflexivity. assert (parse_conf_line [] b1 = []) as -> by reflexivity.
    unfold l1, l2, l3. rewrite !parse_rendered_line by done. reflexivity.
  - unfold grub_isolcpus. set (cl := format_cpu_list (data pl)). intros Hne.
    assert (Forall (fun c => is_space c = false) cl) as Hsp.
    { eapply Forall_impl; [by apply format_chars|]. intros c Hx. by apply list_char_space in Hx as [? _]. }
    destruct cl as [|x s] eqn:Ecl; [done|]. rewrite <- Ecl in *. destruct (existsb _ (data pl)) eqn:Ex; [done|].
    assert (words (lit "isolcpus=managed_irq,domain," ++ cl ++ lit " nohz_full=" ++ cl ++ lit " rcu_nocbs=" ++ cl)
      = [lit "isolcpus=managed_irq,domain," ++ cl; lit "nohz_full=" ++ cl; lit "rcu_nocbs=" ++ cl]) as Hw.
    { unfold words. rewrite (app_assoc (lit "isolcpus=managed_irq,domain,")).
      change (lit " nohz_full=" ++ cl ++ lit " rcu_nocbs=" ++ cl) with (32 :: (lit "nohz_full=" ++ cl ++ 32 :: (lit "rcu_nocbs=" ++ cl))).
      rewrite words_word; [|apply Forall_app; split; [repeat constructor; done|done]|done].
      rewrite (app_assoc (lit "nohz_full=")). rewrite words_word; [|apply Forall_app; split; [repeat constructor; done|done]|done].
      rewrite words_last; [done|apply Forall_app; split; [repeat constructor; done|done]|done]. }
    unfold parse_isolcpus, parse_nohz_full. rewrite Hw.
    change (lit "isolcpus=managed_irq,domain," ++ cl) with (lit "isolcpus=" ++ (lit "managed_irq,domain," ++ cl)).
    cbn [first_token]. rewrite after_prefix_app. split; [|split].
    + unfold cl. apply isolcpus_flags; [done|]. fold cl. by rewrite Ecl.
    + replace (after_prefix (lit "nohz_full=") (lit "isolcpus=" ++ lit "managed_irq,domain," ++ cl)) with (@None pystr) by reflexivity.
      rewrite after_prefix_app. by apply expand_format.
    + apply Forall_forall. intros c Hin. rewrite <- not_true_iff_false in Ex. rewrite List.existsb_exists in Ex.
      split; intros Hx; apply Ex; exists c; (split; [by apply list_elem_of_In|]); rewrite orb_true_iff, !bool_decide_eq_true; auto.
Qed.

Definition demo_planes : planes := {| mgmt := [0; 4]; ctrl := [1; 5]; data := [2; 3; 6; 7] |}.

Lemma conf_roundtrip_witness :
  format_cpu_list (data demo_planes) = lit "2-3,6-7"
  /\ parse_conf (render_conf demo_planes) = [(Mgmt, [0; 4]); (Ctrl, [1; 5]); (Data, [2; 3; 6; 7])]
  /\ parse_isolcpus (grub_isolcpus demo_planes) = [2; 3; 6; 7].
Proof.
  assert (forall l, Forall (fun x => 0 <= x < 8) l -> Forall small l) as Hs.
  { intros l Hl. eapply Forall_impl; [exact Hl|]. intros x [? ?]. split; [done|]. apply (Z.lt_le_trans _ (2 ^ 3)); [done|]. apply Z.pow_le_mono_r; lia. }
  destruct (conf_roundtrip demo_planes) as [H1 H2]; try (apply Hs; cbn; repeat constructor; lia).
  split; [vm_compute; reflexivity|]. split; [rewrite H1; vm_compute; reflexivity|].
  destruct H2 as [H2 _]; [vm_compute; discriminate|]. rewrite H2. vm_compute. reflexivity.
Defined.
