(* ===== verification/PyJson.v ===== *)
(** * Equality and container tests of JSON values

    [==], [in] and [set(...)] as Python has them on the values [json.loads] returns: booleans are the numbers 0 and 1,
    an integer equals a float of the same value, dictionaries compare without order, and a list or dictionary cannot
    be a member of a set. *)

From S2P Require Import Prelude PyStr PyDict.

(** The number [m * 2 ^ e] a value stands for. *)
Definition jnum (v : json) : option (Z * Z) :=
  match v with
  | JInt n => Some (n, 0)
  | JBool b => Some (if b then 1 else 0, 0)
  | JFloat m e => Some (m, e)
  | _ => None
  end.
Definition num_eqb (a b : Z * Z) : bool :=
  let k := Z.min a.2 b.2 in a.1 * 2 ^ (a.2 - k) =? b.1 * 2 ^ (b.2 - k).

(** [a == b]. *)
Fixpoint jeq (a b : json) : bool :=
  match jnum a, jnum b with
  | Some x, Some y => num_eqb x y
  | None, None =>
      match a, b with
      | JNull, JNull => true
      | JStr s, JStr t => bool_decide (s = t)
      | JList l, JList m =>
          (fix go (l m : list json) {struct l} : bool :=
             match l, m with
             | [], [] => true
             | x :: l', y :: m' => jeq x y && go l' m'
             | _, _ => false
             end) l m
      | JObj l, JObj m =>
          (length l =? length m)%nat
          && forallb (fun kv => match dget kv.1 m with Some y => jeq kv.2 y | None => false end) l
      | _, _ => false
      end
  | _, _ => false
  end.

Lemma num_eqb_int n m : num_eqb (n, 0) (m, 0) = (n =? m).
Proof. unfold num_eqb. cbn. by rewrite !Z.mul_1_r. Qed.

Lemma jeq_str v s : jeq v (JStr s) = true <-> v = JStr s.
Proof.
  destruct v; cbn; (split; [try done|by intros [= ->]; try apply bool_decide_eq_true]); [].
  by intros ->%bool_decide_eq_true.
Qed.

Lemma jeq_strs s t : jeq (JStr s) (JStr t) = bool_decide (s = t).
Proof. reflexivity. Qed.

(** [v] as text, where the code has checked that it is one. *)
Definition jstr (v : json) : option pystr := match v with JStr s => Some s | _ => None end.

Definition hashable (v : json) : bool := match v with JList _ | JObj _ => false | _ => true end.

(** The items of [for x in v]; [None] where it raises [TypeError]. *)
Definition iter_json (v : json) : option (list json) :=
  match v with
  | JList l => Some l
  | JStr s => Some (map (fun c => JStr [c]) s)
  | JObj o => Some (map (fun kv => JStr kv.1) o)
  | _ => None
  end.
(** The members of [set(v)]; [None] where it raises [TypeError]. *)
Definition to_set (v : json) : option (list json) :=
  match iter_json v with
  | Some l => if forallb hashable l then Some l else None
  | None => None
  end.
(** [x in s] for such a set. *)
Definition jmem (x : json) (l : list json) : bool := existsb (jeq x) l.

(** [k in o]. *)
Definition has_key (k : pystr) (o : list (pystr * json)) : bool := dmem k o.

(** [t in s] for texts. *)
Fixpoint contains (t s : pystr) : bool :=
  bool_decide (t `prefix_of` s) || match s with [] => false | _ :: s' => contains t s' end.

Lemma lit_inj a b : lit a = lit b -> a = b.
Proof.
  unfold lit. intros H. rewrite <- (String.string_of_list_ascii_of_string a), <- (String.string_of_list_ascii_of_string b).
  f_equal. revert H.
  generalize (String.list_ascii_of_string a), (String.list_ascii_of_string b).
  induction l as [|x t IH]; intros [|y u]; try done. cbn [map]. intros [= Hx Ht]. f_equal; [|by apply IH].
  rewrite <- (Ascii.ascii_N_embedding x), <- (Ascii.ascii_N_embedding y). f_equal. lia.
Qed.

(** ** Access that can fail

    A [ValueError] carries its text and the values put into it; a missing key, an operand of the wrong type and a
    method of a value that lacks it are separate, because callers catch them separately. *)

Inductive fault :=
| Refused (what : string) (args : list json)
| KeyMissing (k : string)
| BadType
| NoAttribute.

Abbreviation obj := (list (pystr * json)) (only parsing).

(** [o[k]], [o.get(k)], [o.get(k, d)], [k in o]. *)
Definition item (o : obj) (k : string) : result fault json :=
  match dget (lit k) o with Some v => Ok v | None => Err (KeyMissing k) end.
Definition get (o : obj) (k : string) : json := jget (lit k) o.
Definition get_or (o : obj) (k : string) (d : json) : json := jget_default (lit k) d o.
Definition has (o : obj) (k : string) : bool := dmem (lit k) o.
Definition J (s : string) : json := JStr (lit s).

(** The receiver of a [.get] and the argument of [set(...)]. *)
Definition as_dict (v : json) : result fault obj := match v with JObj o => Ok o | _ => Err NoAttribute end.
Definition as_set (v : json) : result fault (list json) :=
  match to_set v with Some l => Ok l | None => Err BadType end.

Definition iterate (v : json) : result fault (list json) :=
  match iter_json v with Some l => Ok l | None => Err BadType end.
