(* ===== verification/L3Offload.v ===== *)
(** * Next-hop planning for hardware offload

    [ffn_l3_offload.py]: from a snapshot of the links, addresses, routes, policy rules and neighbours of the data-plane
    namespace (rows of [ip -j], here JSON objects) and an observed session, decide the egress, next hop and Ethernet
    rewrite of both directions, or say why the session stays on the software path.

    [plan] reports a [ValueError], [KeyError] or [TypeError] as a blocker and lets an [AttributeError] through, so the
    four faults of [PyJson] are kept apart. *)

From S2P Require Import Prelude PyStr PyDict PyIp PyJson.

(** ** Projections of the snapshot *)

Definition NUD_VALID : list json := map J ["PERMANENT"; "NOARP"; "REACHABLE"; "PROBE"; "STALE"; "DELAY"]%string.

Definition neighbor_valid (n : obj) : result fault bool :=
  if has n "valid" then Ok (match get n "valid" with JBool b => b | _ => false end)
  else
    s ← as_set (get_or n "state" (JList []));
    Ok (existsb (fun x => jmem x NUD_VALID) s && truthy (get n "lladdr")).

(** [{k: row[k] for k in keys if k in row}]. *)
Definition keep (keys : list string) (o : obj) : obj :=
  omap (fun k => (fun v => (lit k, v)) <$> dget (lit k) o) keys.

Definition project_neighbor (row : obj) : result fault obj :=
  v ← neighbor_valid row;
  Ok (keep ["dst"; "dev"; "lladdr"]%string row ++ [(lit "valid", JBool v)]).

Definition project_linkinfo (info : obj) : obj :=
  keep ["info_kind"; "info_slave_kind"]%string info ++
  match get info "info_data" with
  | JObj data => [(lit "info_data", JObj (keep ["id"; "protocol"]%string data))]
  | _ => []
  end.

Definition project_link (row : obj) : obj :=
  let row := keep ["ifindex"; "ifname"; "ifalias"; "address"; "mtu"; "flags"; "link"; "link_index"; "master"; "linkinfo"]%string row in
  match get row "linkinfo" with
  | JObj info => dset (lit "linkinfo") (JObj (project_linkinfo info)) row
  | _ => row
  end.

(** [{k: a[k] for k in keys if k in a}] for any value [a]: a list or text has members and no items. *)
Definition keep_any (keys : list string) (a : json) : result fault json :=
  match a with
  | JObj o => Ok (JObj (keep keys o))
  | JList l => if existsb (fun k => jmem (J k) l) keys then Err BadType else Ok (JObj [])
  | JStr s => if existsb (fun k => contains (lit k) s) keys then Err BadType else Ok (JObj [])
  | _ => Err BadType
  end.

Definition project_address (row : obj) : result fault obj :=
  let row := keep ["ifindex"; "ifname"; "addr_info"]%string row in
  l ← iterate (get_or row "addr_info" (JList []));
  infos ← mapM_res (keep_any ["family"; "local"; "prefixlen"]%string) l;
  Ok (dset (lit "addr_info") (JList infos) row).

Record l3_state := {
  links : list obj;
  addresses : list obj;
  routes : list obj;
  rules : list obj;
  neighbors : list obj;
}.

(** What [snapshot] makes of the five listings. [sort] orders rows by their JSON text. *)
Definition project (sort : list obj -> list obj) (raw : l3_state) : result fault l3_state :=
  addresses ← mapM_res project_address (addresses raw);
  neighbors ← mapM_res project_neighbor (neighbors raw);
  Ok {| links := sort (map project_link (links raw)); addresses := sort addresses; routes := sort (routes raw);
        rules := sort (rules raw); neighbors := sort neighbors |}.

(** ** Ethernet addresses *)

Definition is_hex (c : Z) : bool := between 48 c 57 || between 65 c 70 || between 97 c 102.
Definition hex_value (c : Z) : Z := if c <=? 57 then c - 48 else if c <=? 70 then c - 55 else c - 87.

(** The bytes of a text that matches [(?:[0-9a-fA-F]{2}:){5}[0-9a-fA-F]{2}]. *)
Fixpoint mac_bytes (n : nat) (s : pystr) : option bytes :=
  match s with
  | a :: b :: t =>
      if is_hex a && is_hex b then
        match n, t with
        | 1%nat, [] => Some [16 * hex_value a + hex_value b]
        | S n', c :: t' => if c =? 58 then cons (16 * hex_value a + hex_value b) <$> mac_bytes n' t' else None
        | _, _ => None
        end
      else None
  | _ => None
  end.

Definition hex_lower (c : Z) : Z := if between 65 c 70 then c + 32 else c.

Definition unicast_mac (v : json) : result fault pystr :=
  match v with
  | JStr s =>
      match mac_bytes 6 s with
      | Some raw =>
          if negb (existsb (fun b => negb (b =? 0)) raw) || negb (Z.land (byte_at raw 0) 1 =? 0)
          then Err (Refused "Unicast Ethernet MAC address required" [])
          else Ok (map hex_lower s)
      | None => Err (Refused "Unresolved Ethernet MAC address" [])
      end
  | _ => Err (Refused "Unresolved Ethernet MAC address" [])
  end.

(** ** Policy routing *)

Definition qualified : fault := Refused "Policy routing requires a qualified hardware route resolver" [].

(** [tables.get(v, v)]. *)
Definition table_name (v : json) : json :=
  if jeq v (JInt 253) then J "default" else if jeq v (JInt 254) then J "main" else if jeq v (JInt 255) then J "local" else v.

Definition expected_rules : list (json * json) :=
  [(JInt 0, J "local"); (JInt 32766, J "main"); (JInt 32767, J "default")].

Definition rule_key (rule : obj) : result fault (json * json) :=
  if extra_keys (map lit ["priority"; "src"; "table"; "protocol"]%string) rule || negb (jeq (get rule "src") (J "all"))
  then Err qualified
  else if negb (hashable (get rule "table")) || negb (hashable (get rule "priority")) then Err BadType
  else Ok (get rule "priority", table_name (get rule "table")).

Definition pair_eq (a b : json * json) : bool := jeq a.1 b.1 && jeq a.2 b.2.

Definition main_table_only (st : l3_state) : result fault unit :=
  actual ← mapM_res rule_key (rules st);
  raise_if (negb (forallb (fun a => existsb (pair_eq a) expected_rules) actual
                  && forallb (fun a => existsb (pair_eq a) actual) expected_rules)
            || negb (length (rules st) =? 3)%nat) qualified.

(** ** Attachments *)

Record target := {
  interface : pystr;
  device : json;
  index : json;
  alias : json;
  source_mac : pystr;
  mtu : json;
  vlan : option Z;
  parent : option obj;
}.

(** [[x for x in l if f(x)]]. *)
Fixpoint filterM {A} (f : A -> result fault bool) (l : list A) : result fault (list A) :=
  match l with
  | [] => Ok []
  | x :: t => f x ≫= fun b : bool => r ← filterM f t; Ok (if b then x :: r else r)
  end.

(** [{'UP', 'LOWER_UP'} <= set(row.get('flags', []))]. *)
Definition carrier (row : obj) : result fault bool :=
  s ← as_set (get_or row "flags" (JList []));
  Ok (jmem (J "UP") s && jmem (J "LOWER_UP") s).

(** [row.get('linkinfo', {}).get('info_kind')]. *)
Definition info_kind (row : obj) : result fault json :=
  info ← as_dict (get_or row "linkinfo" (JObj []));
  Ok (get info "info_kind").

(** The branch [kind == 'vlan']: the tag and the parent. *)
Definition vlan_attachment (link : obj) (st : l3_state) : result fault (Z * obj) :=
  info ← item link "linkinfo";
  (* [kind] was read from this object *)
  info ← as_dict info;
  data ← item info "info_data";
  data ← as_dict data;
  let unsupported := Refused "Unsupported VLAN attachment" [] in
  _ ← raise_if (negb (jeq (get_or data "protocol" (J "802.1Q")) (J "802.1Q"))) unsupported;
  match get data "id" with
  | JInt tag =>
      _ ← raise_if (negb ((1 <=? tag) && (tag <=? 4094))) unsupported;
      parents ← filterM (fun p => i ← item p "ifindex";
                                  if jeq i (get link "link_index") then Ok true
                                  else n ← item p "ifname"; Ok (jeq n (get link "link"))) (links st);
      let missing := Refused "Missing or stacked VLAN parent" [] in
      match parents with
      | [parent] =>
          k ← info_kind parent;
          _ ← raise_if (jeq k (J "vlan")) missing;
          c ← carrier parent;
          _ ← raise_if (negb c || truthy (get parent "master"))
                (Refused "VLAN parent is not an operational standalone attachment" []);
          Ok (tag, map (fun k => (lit k, get parent k)) ["ifname"; "ifindex"; "ifalias"]%string)
      | _ => Err missing
      end
  | _ => Err unsupported
  end.

Definition attachment (name : pystr) (bindings : obj) (st : l3_state) : result fault target :=
  match jget name bindings with
  | JObj binding =>
      ls ← filterM (fun row => n ← item row "ifname"; Ok (jeq n (get binding "device"))) (links st);
      match ls with
      | [link] =>
          i ← item link "ifindex";
          _ ← raise_if (negb (jeq i (get binding "index")) || negb (jeq (get_or link "ifalias" (J "")) (get binding "alias")))
                (Refused "Interface ownership changed: " [JStr name]);
          c ← carrier link;
          _ ← raise_if (negb c) (Refused "Interface has no operational carrier: " [JStr name]);
          _ ← raise_if (truthy (get link "master"))
                (Refused "Bridged or VRF attachment requires hardware qualification: " [JStr name]);
          kind ← info_kind link;
          n ← item link "ifname";
          mac ← unicast_mac (get link "address");
          m ← item link "mtu";
          let build v p := {| interface := name; device := n; index := i; alias := get_or link "ifalias" (J "");
                              source_mac := mac; mtu := m; vlan := v; parent := p |} in
          if jeq kind (J "vlan") then
            vp ← vlan_attachment link st;
            Ok (build (Some vp.1) (Some vp.2))
          else if jeq kind JNull || jeq kind (J "tun") then Ok (build None None)
          else Err (Refused "Unsupported hardware attachment kind: " [kind])
      | _ => Err (Refused "Bound interface is missing: " [JStr name])
      end
  | _ => Err (Refused "No acknowledged binding for " [JStr name])
  end.

(** ** Routes *)

(** [IPv4Address(v)]. *)
Definition ip4_address (v : json) : result fault Z :=
  match ip4_of_json v with Some a => Ok a | None => Err (Refused "IPv4Address" [v]) end.
(** [IPv4Network(v)]: host bits must be zero. *)
Definition ip4_net (v : json) : result fault (Z * Z) :=
  match iface_of_json v with
  | Some (a, p) => if network_address a p =? a then Ok (a, p) else Err (Refused "IPv4Network" [v])
  | None => Err (Refused "IPv4Network" [v])
  end.
Definition is_link_local (a : Z) : bool := between 2851995648 a 2852061183.

(** [any(a.get('local') == text for row in state['addresses'] for a in row.get('addr_info', []))]. *)
Fixpoint any_local (text : pystr) (infos : list json) : result fault bool :=
  match infos with
  | [] => Ok false
  | a :: t => o ← as_dict a; if jeq (get o "local") (JStr text) then Ok true else any_local text t
  end.
Fixpoint local_address (text : pystr) (rows : list obj) : result fault bool :=
  match rows with
  | [] => Ok false
  | row :: t =>
      infos ← iterate (get_or row "addr_info" (JList []));
      any_local text infos ≫= fun b : bool => if b then Ok true else local_address text t
  end.

(** The network a row of the table covers. *)
Definition route_net (route : obj) : result fault (Z * Z) :=
  ip4_net (if jeq (get_or route "dst" (J "default")) (J "default") then J "0.0.0.0/0" else get route "dst").

(** The loop over [state['routes']]: prefix length, negated metric and row of the routes that cover [a]. *)
Fixpoint choices (a : Z) (rows : list obj) : result fault (list (Z * Z * obj)) :=
  match rows with
  | [] => Ok []
  | route :: t =>
      net ← route_net route;
      if in_network net.1 net.2 a then
        match get_or route "metric" (JInt 0) with
        | JInt metric => r ← choices a t; Ok ((net.2, - metric, route) :: r)
        | _ => Err (Refused "Unsupported route metric" [])
        end
      else choices a t
  end.

(** Python's order on pairs of integers. *)
Definition pair_lt (a b : Z * Z) : bool := (a.1 <? b.1) || ((a.1 =? b.1) && (a.2 <? b.2)).
Definition max_rank (l : list (Z * Z * obj)) : option (Z * Z) :=
  match l with
  | [] => None
  | c :: t => Some (fold_left (fun m c => if pair_lt m c.1 then c.1 else m) t c.1)
  end.

(** The condition of the last [raise]: nothing but a plain unicast route of the main table. *)
Definition exceptional (route : obj) : result fault bool :=
  if negb (jeq (get_or route "type" (J "unicast")) (J "unicast")) then Ok true
  else if existsb (has route) ["nexthops"; "nhid"; "encap"; "via"; "expires"]%string then Ok true
  else if negb (jmem (get_or route "tos" (JInt 0)) [JInt 0; J "0x00"]) then Ok true
  else
    flags ← (if truthy (get route "flags") then as_set (get route "flags") else Ok []);
    if existsb (fun f => negb (jeq f (J "onlink"))) flags then Ok true
    else Ok (negb (jmem (get_or route "table" (J "main")) [J "main"; JInt 254])).

Definition route_for (destination : pystr) (st : l3_state) : result fault obj :=
  a ← ip4_address (JStr destination);
  _ ← raise_if (is_unspecified a || is_multicast a || is_loopback a || is_link_local a)
        (Refused "Destination requires the software exception path" []);
  loc ← local_address (ip4_text a) (addresses st);
  _ ← raise_if loc (Refused "Firewall-local destination must remain on the management-profile path" []);
  cs ← choices a (routes st);
  match max_rank cs with
  | None => Err (Refused "No route to " [JStr destination])
  | Some rank =>
      match filter (fun c => c.1 = rank) cs with
      | [(_, route)] =>
          ex ← exceptional route;
          _ ← raise_if ex (Refused "Selected route requires the software exception path" []);
          Ok route
      | _ => Err (Refused "Ambiguous or multipath route" [])
      end
  end.

(** ** The pair, the next hop, the plan *)

(** [(bindings.get(name) or {}).get('device')]. *)
Definition bound_device (name : pystr) (bindings : obj) : result fault json :=
  let b := jget name bindings in
  if truthy b then o ← as_dict b; Ok (get o "device") else Ok JNull.

Definition select_pair (pairs : list (pystr * pystr)) (forward reverse : pystr) (bindings : obj) (st : l3_state) :
  result fault (pystr * pystr) :=
  match pairs with
  | [] => Err (Refused "No interface pair is authorised for this session" [])
  | [p] => Ok p
  | _ =>
      fr ← route_for forward st;
      rr ← route_for reverse st;
      let fd := get fr "dev" in
      let rd := get rr "dev" in
      matches ← filterM (fun p => d ← bound_device p.1 bindings;
                                  if jeq d rd then d' ← bound_device p.2 bindings; Ok (jeq d' fd) else Ok false) pairs;
      match matches with
      | [p] => Ok p
      | _ => Err (Refused "Routes select %s to %s, which the rule does not authorise as an interface pair" [rd; fd])
      end
  end.

Record direction := {
  egress : target;
  destination : pystr;
  next_hop : pystr;
  destination_mac : pystr;
  route : obj;
  decrement_ttl : bool;
  exceptions : list string;
}.

Definition resolve (dest outgoing : pystr) (bindings : obj) (st : l3_state) : result fault direction :=
  r ← route_for dest st;
  t ← attachment outgoing bindings st;
  _ ← raise_if (negb (jeq (get r "dev") (device t))) (Refused "Route egress disagrees with the authorized interface pair" []);
  hop ← ip4_address (get_or r "gateway" (JStr dest));
  let hop := ip4_text hop in
  match filter (fun n => jeq (get n "dev") (device t) && jeq (get n "dst") (JStr hop)) (neighbors st) with
  | [n] =>
      ok ← neighbor_valid n;
      _ ← raise_if (negb ok) (Refused "Next-hop neighbor is not valid for forwarding: " [JStr hop]);
      _ ← raise_if (truthy (get_or r "metrics" (JList []))) (Refused "Route metrics require hardware qualification" []);
      mac ← unicast_mac (get n "lladdr");
      Ok {| egress := t; destination := dest; next_hop := hop; destination_mac := mac; route := r;
            decrement_ttl := true; exceptions := ["ttl-expired"; "mtu-exceeded"; "ipv4-fragments"]%string |}
  | _ => Err (Refused "Next-hop neighbor is unresolved: " [JStr hop])
  end.

(** What [plan] reads of an observed session. *)
Record session_row := {
  software_candidate : bool;
  interface_pairs : list (pystr * pystr);
  original_source : pystr;
  translated_destination : pystr;
}.

Record l3_plan := {
  available : bool;
  hardware_admission : bool;
  blockers : list fault;
  directions : list direction;
  pair : option (pystr * pystr);
  snapshot_digest : pystr;
}.

Section Plan.
(** [fingerprint]: the hash of the snapshot's canonical JSON text. *)
Context (fingerprint : l3_state -> pystr).

Definition plan_try (row : session_row) (bindings : obj) (st : l3_state) :
  result fault (direction * direction * (pystr * pystr)) :=
  _ ← main_table_only st;
  p ← select_pair (interface_pairs row) (translated_destination row) (original_source row) bindings st;
  _ ← attachment p.1 bindings st;
  forward ← resolve (translated_destination row) p.2 bindings st;
  reverse ← resolve (original_source row) p.1 bindings st;
  Ok (forward, reverse, p).

(** Only an [AttributeError] escapes. *)
Definition plan (row : session_row) (bindings : obj) (st : l3_state) : result fault l3_plan :=
  let blocked b := {| available := false; hardware_admission := false; blockers := [b]; directions := [];
                      pair := None; snapshot_digest := fingerprint st |} in
  if negb (software_candidate row) then
    Ok (blocked (Refused "Session is not an acknowledged software candidate" []))
  else
    match plan_try row bindings st with
    | Ok (forward, reverse, p) =>
        Ok {| available := true; hardware_admission := false; blockers := []; directions := [forward; reverse];
              pair := Some p; snapshot_digest := fingerprint st |}
    | Err NoAttribute => Err NoAttribute
    | Err e => Ok (blocked e)
    end.
End Plan.

(** ** Route selection is longest prefix, then lowest metric *)

(** The rank of a row for an address: prefix length and negated metric; [None] when the row does not cover it. *)
Definition rank (a : Z) (r : obj) : option (Z * Z) :=
  match route_net r with
  | Ok net => if in_network net.1 net.2 a then
                match get_or r "metric" (JInt 0) with JInt m => Some (net.2, - m) | _ => None end
              else None
  | Err _ => None
  end.

(** [r] is the one row of the table that outranks every other row covering [a]. *)
Definition best (a : Z) (rows : list obj) (r : obj) : Prop :=
  exists pre post k, rows = pre ++ r :: post /\ rank a r = Some k
    /\ forall r' k', r' ∈ pre ++ post -> rank a r' = Some k' -> pair_lt k' k = true.

(** Every row has a network, and a covering one an integer metric. *)
Definition table_ok (a : Z) (rows : list obj) : Prop :=
  Forall (fun r => exists net, route_net r = Ok net /\
                   (in_network net.1 net.2 a = true -> exists m, get_or r "metric" (JInt 0) = JInt m)) rows.

Definition ranked (a : Z) (rows : list obj) : list (Z * Z * obj) := omap (fun r => (fun k => (k, r)) <$> rank a r) rows.

Lemma choices_ranked a rows cs : choices a rows = Ok cs -> cs = ranked a rows.
Proof.
  revert cs; induction rows as [|r t IH]; intros cs; cbn [choices]; [by intros [= <-]|].
  intros H. inv_res. unfold ranked. cbn [omap list_omap]. unfold rank at 1. rewrite Hv.
  destruct (in_network _ _ _); [|by apply IH].
  destruct (get_or r "metric" _); try done. inv_res. cbn. f_equal. by apply IH.
Qed.

Lemma choices_total a rows : table_ok a rows -> choices a rows = Ok (ranked a rows).
Proof.
  induction 1 as [|r t (net & Hn & Hm) _ IH]; [done|]. cbn [choices]. unfold ranked. cbn [omap list_omap].
  unfold rank at 1. rewrite Hn. cbn [mbind result_bind]. destruct (in_network _ _ _); [|exact IH].
  destruct (Hm eq_refl) as [m ->]. by rewrite IH.
Qed.

Lemma pair_lt_irrefl k : pair_lt k k = false.
Proof. unfold pair_lt. rewrite !Z.ltb_irrefl. by rewrite andb_false_r. Qed.

Lemma pair_lt_spec a b : pair_lt a b = true <-> a.1 < b.1 \/ (a.1 = b.1 /\ a.2 < b.2).
Proof. unfold pair_lt. rewrite orb_true_iff, andb_true_iff, Z.ltb_lt, Z.eqb_eq, Z.ltb_lt. reflexivity. Qed.

Lemma pair_lt_false a b : pair_lt a b = false <-> b.1 < a.1 \/ (a.1 = b.1 /\ b.2 <= a.2).
Proof. rewrite <- not_true_iff_false, pair_lt_spec. lia. Qed.

Lemma pair_lt_total (a b : Z * Z) : a <> b -> pair_lt a b = false -> pair_lt b a = true.
Proof.
  rewrite pair_lt_false, pair_lt_spec. intros Hn. destruct a as [x y], b as [x' y']; cbn in *.
  destruct (decide (x = x')), (decide (y = y')); subst; [done|lia..].
Qed.

Lemma fold_max l m :
  let k := fold_left (fun m (c : Z * Z * obj) => if pair_lt m c.1 then c.1 else m) l m in
  (k = m \/ exists c, c ∈ l /\ c.1 = k) /\ pair_lt k m = false /\ forall c, c ∈ l -> pair_lt k c.1 = false.
Proof.
  revert m; induction l as [|c t IH]; intros m; cbn [fold_left].
  - repeat split; [by left | apply pair_lt_irrefl | set_solver].
  - specialize (IH (if pair_lt m c.1 then c.1 else m)). set (k := fold_left _ _ _) in *. cbn in IH |- *.
    destruct IH as (Hk & Hm & Ht). destruct (pair_lt m c.1) eqn:E.
    + repeat split; [right; destruct Hk as [->|(x & ? & ?)]; [exists c | exists x]; set_solver | |].
      * apply pair_lt_spec in E. rewrite pair_lt_false in *. lia.
      * intros x [->|Hx]%elem_of_cons; [done | by apply Ht].
    + repeat split; [destruct Hk as [->|(x & ? & ?)]; [by left | right; exists x; set_solver] | done |].
      intros x [->|Hx]%elem_of_cons; [|by apply Ht]. rewrite pair_lt_false in *. lia.
Qed.

Lemma max_rank_spec cs k :
  max_rank cs = Some k <-> (exists c, c ∈ cs /\ c.1 = k) /\ forall c, c ∈ cs -> pair_lt k c.1 = false.
Proof.
  assert (Hs : forall k', max_rank cs = Some k' -> (exists c, c ∈ cs /\ c.1 = k') /\ forall c, c ∈ cs -> pair_lt k' c.1 = false).
  { intros k'. destruct cs as [|c t]; [done|]. intros [= <-]. destruct (fold_max t c.1) as (Hk & Hm & Ht). split.
    - destruct Hk as [->|(x & ? & ?)]; [exists c | exists x]; set_solver.
    - intros x [->|Hx]%elem_of_cons; [done | by apply Ht]. }
  split; [apply Hs|]. intros ((c & Hc & Hk) & Hmax).
  destruct (max_rank cs) as [k'|] eqn:E; [|by destruct cs; [apply elem_of_nil in Hc|]].
  destruct (Hs _ eq_refl) as ((c' & Hc' & Hk') & Hmax'). f_equal.
  specialize (Hmax _ Hc'). specialize (Hmax' _ Hc). rewrite Hk in Hmax'. rewrite Hk' in Hmax.
  destruct (decide (k' = k)) as [|Hne]; [done|]. pose proof (pair_lt_total _ _ Hne Hmax'). congruence.
Qed.

Lemma elem_ranked a rows c : c ∈ ranked a rows <-> c.2 ∈ rows /\ rank a c.2 = Some c.1.
Proof.
  unfold ranked. rewrite list_elem_of_omap. split.
  - intros (r & Hr & (k & Hk & ->)%fmap_Some). done.
  - intros [Hr Hk]. exists c.2. split; [done|]. rewrite Hk. by destruct c.
Qed.

Lemma ranked_app a l1 l2 : ranked a (l1 ++ l2) = ranked a l1 ++ ranked a l2.
Proof. unfold ranked. apply omap_app. Qed.

Lemma filter_none k a l :
  (forall r k', r ∈ l -> rank a r = Some k' -> k' <> k) -> filter (fun c => c.1 = k) (ranked a l) = [].
Proof.
  intros H. destruct (filter _ _) as [|c t] eqn:E; [done|].
  assert (Hc : c ∈ filter (fun c => c.1 = k) (ranked a l)) by (rewrite E; left).
  apply list_elem_of_filter in Hc as [Hk [Hin Hr]%elem_ranked]. by specialize (H _ _ Hin Hr).
Qed.

Lemma filter_one a rows k x r :
  filter (fun c => c.1 = k) (ranked a rows) = [(x, r)] ->
  exists pre post, rows = pre ++ r :: post /\ rank a r = Some k
    /\ forall r' k', r' ∈ pre ++ post -> rank a r' = Some k' -> k' <> k.
Proof.
  induction rows as [|r0 t IH]; [done|]. unfold ranked. cbn [omap list_omap].
  destruct (rank a r0) as [k0|] eqn:Ek; cbn [fmap option_fmap option_map].
  - rewrite filter_cons. destruct (decide _) as [Hd|Hd]; cbn in Hd; subst.
    + intros [= <- <- Ht]. exists [], t. repeat split; [done|]. intros r' k' Hr Hk ->.
      assert ((k, r') ∈ filter (fun c : Z * Z * obj => c.1 = k) (ranked a t)) as Hin.
      { apply list_elem_of_filter. split; [done|]. by apply elem_ranked. }
      unfold ranked in Hin. rewrite Ht in Hin. by apply elem_of_nil in Hin.
    + intros (pre & post & -> & Hr & Hn)%IH. exists (r0 :: pre), post. repeat split; [done|].
      intros r' k' [->|Hi]%elem_of_cons Hk; [congruence | eauto].
  - intros (pre & post & -> & Hr & Hn)%IH. exists (r0 :: pre), post. repeat split; [done|].
    intros r' k' [->|Hi]%elem_of_cons Hk; [congruence | eauto].
Qed.

(** The selection step of [route_for] is [best]. *)
Lemma select_best a rows r :
  (exists k x, max_rank (ranked a rows) = Some k /\ filter (fun c => c.1 = k) (ranked a rows) = [(x, r)])
  <-> best a rows r.
Proof.
  split.
  - intros (k & x & Hm & (pre & post & -> & Hr & Hn)%filter_one). exists pre, post, k. split; [done|]. split; [done|].
    intros r' k' Hi Hk. apply max_rank_spec in Hm as [_ Hmax].
    specialize (Hmax (k', r')). cbn in Hmax. apply pair_lt_total; [intros ->; by eapply Hn|].
    apply Hmax, elem_ranked. split; [|done]. cbn. apply elem_of_app. apply elem_of_app in Hi as []; [by left|right; by right].
  - intros (pre & post & k & -> & Hr & Hn). exists k, k.
    assert (Hne : forall r' k', r' ∈ pre ++ post -> rank a r' = Some k' -> k' <> k).
    { intros r' k' Hi Hk ->. specialize (Hn _ _ Hi Hk). by rewrite pair_lt_irrefl in Hn. }
    split.
    + apply max_rank_spec. split; [exists (k, r); split; [apply elem_ranked; cbn; split; [apply elem_of_app; right; left|done] | done]|].
      intros [k' r'] [Hi Hk]%elem_ranked. cbn in *. apply elem_of_app in Hi as [Hi|[->|Hi]%elem_of_cons].
      * assert (pair_lt k' k = true) by (eapply Hn; [apply elem_of_app; by left|done]).
        rewrite pair_lt_spec in *. rewrite pair_lt_false. lia.
      * assert (k' = k) as -> by congruence. apply pair_lt_irrefl.
      * assert (pair_lt k' k = true) by (eapply Hn; [apply elem_of_app; by right|done]).
        rewrite pair_lt_spec in *. rewrite pair_lt_false. lia.
    + rewrite ranked_app, filter_app, filter_none by (intros; eapply Hne; [apply elem_of_app; by left|done]).
      unfold ranked at 1. cbn [omap list_omap]. rewrite Hr. cbn [fmap option_fmap option_map]. rewrite filter_cons_True by done.
      fold (ranked a post). by rewrite filter_none by (intros; eapply Hne; [apply elem_of_app; by right|done]).
Qed.

(** Addresses the hardware path never serves. *)
Definition special (a : Z) : bool := is_unspecified a || is_multicast a || is_loopback a || is_link_local a.

Lemma route_for_sound dest st r :
  route_for dest st = Ok r ->
  exists a, ip4_parse dest = Some a /\ special a = false /\ local_address (ip4_text a) (addresses st) = Ok false
    /\ best a (routes st) r /\ exceptional r = Ok false.
Proof.
  unfold route_for. intros H. inv_res. exists v.
  unfold ip4_address in Hv. cbn [ip4_of_json] in Hv. destruct (ip4_parse dest); [|done]. inv_res.
  split; [done|]. split; [done|]. split; [done|].
  apply choices_ranked in Hv3. subst v3.
  destruct (max_rank _) as [k|] eqn:Em; [|done]. destruct (filter _ _) as [|[x r'] [|]] eqn:Ef; try done.
  inv_res. split; [apply select_best; eauto | congruence].
Qed.

(** C28. [route_for] is exactly longest-prefix-match forwarding: on a table whose rows parse, it returns a row if and
    only if the destination is an ordinary address that is not the firewall's own, the row covers it with a longer
    prefix, or the same prefix and a lower metric, than every other row that covers it (so a tie is refused), and the
    row is a plain unicast route of the main table. *)
Theorem route_for_longest_match dest st a r :
  ip4_parse dest = Some a -> table_ok a (routes st) ->
  route_for dest st = Ok r <->
  special a = false /\ local_address (ip4_text a) (addresses st) = Ok false
  /\ best a (routes st) r /\ exceptional r = Ok false.
Proof.
  intros Ha Ht. split.
  - intros (a' & Ha' & H)%route_for_sound. by replace a with a' by congruence.
  - intros (Hs & Hl & Hb & He). unfold route_for, ip4_address. cbn [ip4_of_json]. rewrite Ha. cbn [mbind result_bind].
    unfold special in Hs. rewrite Hs. cbn [raise_if mbind result_bind]. rewrite Hl. cbn [raise_if mbind result_bind].
    rewrite (choices_total _ _ Ht). cbn [mbind result_bind].
    apply select_best in Hb as (k & x & -> & ->). by rewrite He.
Qed.

(** ** What an available plan guarantees *)

Lemma hex_lower_hex c : is_hex c = true -> is_hex (hex_lower c) = true /\ hex_value (hex_lower c) = hex_value c.
Proof.
  unfold hex_lower. destruct (between 65 c 70) eqn:E; [|done]. apply between_inv in E. intros _.
  unfold is_hex, hex_value, between. split; [|case_ifs; bool_lia].
  rewrite !orb_true_iff, !andb_true_iff, !Z.leb_le. lia.
Qed.

Lemma mac_bytes_lower n s raw : mac_bytes n s = Some raw -> mac_bytes n (map hex_lower s) = Some raw.
Proof.
  revert s raw; induction n as [|n IH]; intros s raw; destruct s as [|a [|b t]]; try done; cbn [mac_bytes map].
  - by destruct (is_hex a && is_hex b).
  - destruct (is_hex a && is_hex b) eqn:E; [|done]. apply andb_true_iff in E as [Ea Eb].
    destruct (hex_lower_hex _ Ea) as [-> ->], (hex_lower_hex _ Eb) as [-> ->]. cbn [andb].
    destruct t as [|c t]; [by destruct n|]. cbn [map]. assert (Hc : c = 58 -> hex_lower c = 58) by (by intros ->).
    assert (Hl : forall x, (if c =? 58 then cons x <$> mac_bytes n t else None) = Some raw ->
                 (if hex_lower c =? 58 then cons x <$> mac_bytes n (map hex_lower t) else None) = Some raw).
    { intros x. destruct (c =? 58) eqn:E58; [|done]. apply Z.eqb_eq in E58. rewrite (Hc E58). cbn [Z.eqb Pos.eqb].
      intros (y & Hy & ->)%fmap_Some. by rewrite (IH _ _ Hy). }
    destruct n; apply Hl.
Qed.

Lemma mac_bytes_length n s raw : mac_bytes n s = Some raw -> length raw = n.
Proof.
  revert s raw; induction n as [|n IH]; intros s raw; destruct s as [|a [|b t]]; try done; cbn [mac_bytes].
  - by destruct (_ && _).
  - destruct (_ && _); [|done]. destruct t as [|c t]; [destruct n; [by intros [= <-]|done]|].
    assert (Hl : forall x, (if c =? 58 then cons x <$> mac_bytes n t else None) = Some raw -> length raw = S n).
    { intros x. destruct (_ =? _); [|done]. intros (y & Hy & ->)%fmap_Some. cbn. by rewrite (IH _ _ Hy). }
    destruct n; apply Hl.
Qed.

(** Six bytes in lower-case text, not all zero, without the group bit. *)
Definition unicast_text (m : pystr) : Prop :=
  exists raw, mac_bytes 6 m = Some raw /\ length raw = 6%nat /\ (exists b, b ∈ raw /\ b <> 0) /\ Z.even (byte_at raw 0) = true.

Lemma unicast_mac_text v m : unicast_mac v = Ok m -> unicast_text m.
Proof.
  unfold unicast_mac. destruct v; try done. destruct (mac_bytes 6 s) as [raw|] eqn:E; [|done].
  destruct (_ || _) eqn:Eb; [done|]. intros [= <-]. zb. exists raw.
  split; [by apply mac_bytes_lower|]. split; [by eapply mac_bytes_length|]. split.
  - apply existsb_exists in H as (b & Hb & Hn). exists b. split; [by apply list_elem_of_In | by zb].
  - rewrite <- Z.negb_odd, <- Z.bit0_odd. apply negb_true_iff.
    assert (Hz : Z.testbit (Z.land (byte_at raw 0) 1) 0 = false) by (by rewrite H0).
    by rewrite Z.land_spec, andb_true_r in Hz.
Qed.

Lemma filterM_spec {A} (f : A -> result fault bool) l ys :
  filterM f l = Ok ys -> forall x, x ∈ ys <-> x ∈ l /\ f x = Ok true.
Proof.
  revert ys; induction l as [|y t IH]; intros ys; cbn [filterM].
  - intros [= <-] x. set_solver.
  - intros H x. inv_res. specialize (IH _ Hv0 x). destruct v; rewrite ?elem_of_cons, IH; [|].
    + split; [intros [->|[]]; auto | intros [[->|] ?]; auto].
    + split; [intros []; auto | intros [[->|] ?]; [congruence | auto]].
Qed.

Lemma filterM_defined {A} (f : A -> result fault bool) l ys x : filterM f l = Ok ys -> x ∈ l -> exists b, f x = Ok b.
Proof.
  revert ys; induction l as [|y t IH]; intros ys; cbn [filterM]; [by intros _ ?%elem_of_nil|].
  intros H. inv_res. intros [->|Hx]%elem_of_cons; eauto.
Qed.

(** The attachment names the one link that has the bound device's name, still has the index and alias it was bound
    with, has carrier and is not enslaved. *)
Definition attached (name : pystr) (bindings : obj) (st : l3_state) (t : target) : Prop :=
  interface t = name /\
  exists binding link,
    jget name bindings = JObj binding /\ link ∈ links st
    /\ (forall row, row ∈ links st -> jeq (get row "ifname") (get binding "device") = true -> row = link)
    /\ dget (lit "ifname") link = Some (device t) /\ jeq (device t) (get binding "device") = true
    /\ dget (lit "ifindex") link = Some (index t) /\ jeq (index t) (get binding "index") = true
    /\ alias t = get_or link "ifalias" (J "") /\ jeq (alias t) (get binding "alias") = true
    /\ carrier link = Ok true /\ truthy (get link "master") = false
    /\ unicast_text (source_mac t) /\ (forall tag, vlan t = Some tag -> 1 <= tag <= 4094).

Lemma item_get o k v : item o k = Ok v -> dget (lit k) o = Some v /\ get o k = v.
Proof. unfold item, get, jget. destruct (dget _ _); [|done]. by intros [= ->]. Qed.

Lemma vlan_attachment_tag link st vp : vlan_attachment link st = Ok vp -> 1 <= vp.1 <= 4094.
Proof.
  unfold vlan_attachment. intros H. inv_res. destruct (get _ "id"); try done. inv_res.
  destruct v5 as [|? []]; try done. inv_res. cbn. bool_lia.
Qed.

Lemma attachment_sound name b st t : attachment name b st = Ok t -> attached name b st t.
Proof.
  unfold attachment. destruct (jget name b) as [| | | | | |binding] eqn:Eb; try done. intros H. inv_res.
  destruct v as [|link [|]]; try done. inv_res. zb.
  pose proof (filterM_spec _ _ _ Hv) as Hf. pose proof (fun x => filterM_defined _ _ _ x Hv) as Hd.
  destruct (proj1 (Hf link) ltac:(left)) as [Hin Hname]. inv_res.
  repeat match goal with H : item _ _ = Ok _ |- _ => apply item_get in H as [? ?] end.
  match goal with H : unicast_mac _ = Ok _ |- _ => apply unicast_mac_text in H end.
  assert (Hu : forall row, row ∈ links st -> jeq (get row "ifname") (get binding "device") = true -> row = link).
  { intros row Hr He. destruct (Hd _ Hr) as [? Hi]. inv_res. apply list_elem_of_singleton, Hf. split; [done|].
    match goal with H : item row _ = Ok _ |- _ => rewrite H; apply item_get in H as [_ <-] end. cbn. by rewrite He. }
  destruct (jeq v4 (J "vlan")); [|destruct (_ || _); [|done]]; inv_res; (split; [done|]); exists binding, link; cbn;
    repeat (split; [first [done|congruence]|]); [|done].
  intros tag [= <-]. by eapply vlan_attachment_tag.
Qed.

(** One direction of a plan: the best route, out of the bound device, to the one neighbour with the next hop's address
    on that device, which is in a state the kernel forwards with. *)
Definition next_hop_ok (dest name : pystr) (bindings : obj) (st : l3_state) (d : direction) : Prop :=
  destination d = dest /\ decrement_ttl d = true
  /\ attached name bindings st (egress d) /\ unicast_text (destination_mac d)
  /\ jeq (get (route d) "dev") (device (egress d)) = true /\ truthy (get_or (route d) "metrics" (JList [])) = false
  /\ exists a hop n,
       ip4_parse dest = Some a /\ special a = false /\ local_address (ip4_text a) (addresses st) = Ok false
       /\ best a (routes st) (route d) /\ exceptional (route d) = Ok false
       /\ ip4_of_json (get_or (route d) "gateway" (JStr dest)) = Some hop /\ next_hop d = ip4_text hop
       /\ filter (fun n => jeq (get n "dev") (device (egress d)) && jeq (get n "dst") (JStr (next_hop d))) (neighbors st) = [n]
       /\ neighbor_valid n = Ok true /\ unicast_mac (get n "lladdr") = Ok (destination_mac d).

Lemma resolve_sound dest name b st d : resolve dest name b st = Ok d -> next_hop_ok dest name b st d.
Proof.
  unfold resolve. intros H. inv_res. zb. apply route_for_sound in Hv as (a & ? & ? & ? & ? & ?).
  apply attachment_sound in Hv0. unfold ip4_address in *. destruct (ip4_of_json _) as [hop|] eqn:Eh; [|done]. inv_res.
  destruct (filter _ _) as [|n [|]] eqn:Ef; try done. inv_res. zb. subst.
  match goal with H : unicast_mac _ = Ok _ |- _ => pose proof (unicast_mac_text _ _ H) end.
  unfold next_hop_ok. cbn. repeat (split; [done|]). by exists a, v2, n.
Qed.

(** The three default policy rules and no other. *)
Definition default_rules (st : l3_state) : Prop :=
  length (rules st) = 3%nat
  /\ (forall r, r ∈ rules st -> get r "src" = J "all" /\ extra_keys (map lit ["priority"; "src"; "table"; "protocol"]%string) r = false)
  /\ (forall e, e ∈ expected_rules -> exists r, r ∈ rules st /\ pair_eq e (get r "priority", table_name (get r "table")) = true).

Lemma rule_key_sound r k : rule_key r = Ok k ->
  k = (get r "priority", table_name (get r "table")) /\ get r "src" = J "all" /\
  extra_keys (map lit ["priority"; "src"; "table"; "protocol"]%string) r = false.
Proof.
  unfold rule_key. intros H. split_if H; [done|]. split_if H; [done|]. inv_res. zb. split; [done|].
  split; [by apply jeq_str | done].
Qed.

Lemma main_table_only_sound st u : main_table_only st = Ok u -> default_rules st.
Proof.
  unfold main_table_only. intros H. inv_res. zb.
  match goal with H : (_ =? _)%nat = true |- _ => apply Nat.eqb_eq in H end.
  apply mapM_res_Forall2 in Hv as HF. split; [done|]. split.
  - intros r Hr. destruct (list_elem_of_lookup_1 _ _ Hr) as [i Hi].
    destruct (Forall2_lookup_l _ _ _ _ _ HF Hi) as (k & _ & Hk). by apply rule_key_sound in Hk as [_ Hk].
  - intros e He. match goal with H : forallb _ expected_rules = true |- _ => rewrite forallb_forall in H; specialize (H e) end.
    destruct (proj1 (existsb_exists _ _) (H1 (proj1 (list_elem_of_In _ _) He))) as (k & Hk & Heq).
    apply list_elem_of_In, list_elem_of_lookup_1 in Hk as [i Hi].
    destruct (Forall2_lookup_r _ _ _ _ _ HF Hi) as (r & Hr & Hrk). apply rule_key_sound in Hrk as [-> _].
    exists r. split; [by eapply list_elem_of_lookup_2 | done].
Qed.

Lemma select_pair_listed pairs f r b st p : select_pair pairs f r b st = Ok p -> p ∈ pairs.
Proof.
  unfold select_pair. destruct pairs as [|p1 [|p2 t]]; [done|intros [= ->]; left|]. intros H. inv_res.
  destruct v1 as [|q [|]]; try done. inv_res. by apply (filterM_spec _ _ _ Hv1 p); left.
Qed.

(** An available plan is justified: the session was an acknowledged candidate, only the three default policy rules
    exist, the interface pair is one the session's rule authorises, and for each direction (the translated destination
    out of the second interface, the original source out of the first) the frame leaves on the link that still carries
    the acknowledged index and alias, along the unique longest-prefix route, to the only neighbour entry of the next
    hop, which the kernel itself would use, between two unicast Ethernet addresses; and the plan never claims hardware
    admission. *)
Theorem plan_available_sound fp row b st p :
  plan fp row b st = Ok p -> available p = true ->
  software_candidate row = true /\ hardware_admission p = false /\ blockers p = [] /\ default_rules st
  /\ exists incoming outgoing fwd rev,
       pair p = Some (incoming, outgoing) /\ directions p = [fwd; rev]
       /\ (incoming, outgoing) ∈ interface_pairs row
       /\ next_hop_ok (translated_destination row) outgoing b st fwd
       /\ next_hop_ok (original_source row) incoming b st rev.
Proof.
  unfold plan. destruct (software_candidate row); cbn [negb]; [|by intros [= <-]].
  destruct (plan_try row b st) as [[[fwd rev] q]|e] eqn:E; [|destruct e; try done; by intros [= <-]].
  intros [= <-] _. cbn. unfold plan_try in E. inv_res. do 3 (split; [done|]).
  split; [by eapply main_table_only_sound|]. destruct q as [i o]. exists i, o, fwd, rev. do 2 (split; [done|]).
  split; [by eapply select_pair_listed|]. split; by apply resolve_sound.
Qed.

(** ** Snapshots *)

Lemma dget_keep k keys o : dget (lit k) (keep keys o) = if decide (k ∈ keys) then dget (lit k) o else None.
Proof.
  induction keys as [|x t IH]; [done|]. unfold keep in *. cbn [omap list_omap].
  destruct (decide (k = x)) as [->|Hne].
  - rewrite decide_True by left. destruct (dget (lit x) o) eqn:E; cbn; [by rewrite decide_True|].
    rewrite IH. by case_decide.
  - transitivity (dget (lit k) (omap (fun k : string => (fun v => (lit k, v)) <$> dget (lit k) o) t)).
    + destruct (dget (lit x) o); cbn; [|done]. rewrite decide_False; [done|]. by intros Hl%lit_inj.
    + rewrite IH. apply decide_ext. set_solver.
Qed.

(** A neighbour row whose state machine moved between two states that forward, all else equal. *)
Definition same_hop (r1 r2 : obj) : Prop :=
  (forall k, k ∈ ["dst"; "dev"; "lladdr"]%string -> dget (lit k) r1 = dget (lit k) r2)
  /\ forall r, r = r1 \/ r = r2 -> has r "valid" = false
       /\ exists l s, get_or r "state" (JList []) = JList (map JStr l) /\ s ∈ l /\ JStr s ∈ NUD_VALID.

Lemma jeq_refl_str s : jeq (JStr s) (JStr s) = true.
Proof. by apply jeq_str. Qed.

Lemma forwarding_valid r l s :
  has r "valid" = false -> get_or r "state" (JList []) = JList (map JStr l) -> s ∈ l -> JStr s ∈ NUD_VALID ->
  neighbor_valid r = Ok (truthy (get r "lladdr")).
Proof.
  intros Hv Hl Hs Hn. unfold neighbor_valid. rewrite Hv, Hl. unfold as_set, to_set, iter_json.
  replace (forallb hashable (map JStr l)) with true by (symmetry; apply forallb_forall; by intros ? (? & <- & _)%in_map_iff).
  cbn [mbind result_bind]. replace (existsb _ (map JStr l)) with true; [done|]. symmetry. apply existsb_exists.
  exists (JStr s). split; [by apply in_map, list_elem_of_In|]. apply existsb_exists. exists (JStr s).
  split; [by apply list_elem_of_In | apply jeq_refl_str].
Qed.

Lemma project_same_hop r1 r2 : same_hop r1 r2 -> project_neighbor r1 = project_neighbor r2.
Proof.
  intros [Hk Hr]. destruct (Hr r1) as (V1 & l1 & s1 & L1 & S1 & N1), (Hr r2) as (V2 & l2 & s2 & L2 & S2 & N2); auto.
  unfold project_neighbor. rewrite (forwarding_valid r1 l1 s1), (forwarding_valid r2 l2 s2) by done.
  assert (get r1 "lladdr" = get r2 "lladdr") as -> by (unfold get, jget; rewrite Hk by set_solver; done).
  cbn [mbind result_bind]. f_equal. f_equal. unfold keep. cbn [omap list_omap]. by rewrite !Hk by set_solver.
Qed.

(** Neighbour churn does not disturb planning: when neighbour entries only move between the states the kernel
    forwards with (as they do under traffic) and keep address, device and link address, the projected snapshot is the
    same, so its digest and every plan made from it are. *)
Theorem snapshot_ignores_churn sort raw1 raw2 :
  links raw1 = links raw2 -> addresses raw1 = addresses raw2 -> routes raw1 = routes raw2 -> rules raw1 = rules raw2 ->
  Forall2 same_hop (neighbors raw1) (neighbors raw2) -> project sort raw1 = project sort raw2.
Proof.
  intros Hl Ha Hr Hu Hn. unfold project. rewrite Hl, Ha, Hr, Hu.
  replace (mapM_res project_neighbor (neighbors raw1)) with (mapM_res project_neighbor (neighbors raw2)); [done|].
  induction Hn as [|r1 r2 t1 t2 H _ IH]; [done|]. cbn [mapM_res]. by rewrite (project_same_hop _ _ H), IH.
Qed.

(** ** Planning always returns *)

Definition is_obj (v : json) : Prop := match v with JObj _ => True | _ => False end.
Definition quiet {A} (r : result fault A) : Prop := r <> Err NoAttribute.

Lemma quiet_bind {A B} (m : result fault A) (f : A -> result fault B) :
  quiet m -> (forall a, m = Ok a -> quiet (f a)) -> quiet (m ≫= f).
Proof. unfold quiet. destruct m; cbn; [intros _ H; by apply H | intros H _ [= ->]; done]. Qed.

Lemma quiet_ok {A} (a : A) : quiet (Ok a).
Proof. done. Qed.
Lemma quiet_refused {A} w l : quiet (A := A) (Err (Refused w l)).
Proof. done. Qed.
Lemma quiet_raise_if b w l : quiet (raise_if b (Refused w l)).
Proof. by destruct b. Qed.
Lemma quiet_item o k : quiet (item o k).
Proof. unfold item. by destruct (dget _ _). Qed.
Lemma quiet_as_set v : quiet (as_set v).
Proof. unfold as_set. by destruct (to_set v). Qed.
Lemma quiet_iterate v : quiet (iterate v).
Proof. unfold iterate. by destruct (iter_json v). Qed.
Lemma quiet_as_dict v : is_obj v -> quiet (as_dict v).
Proof. by destruct v. Qed.
Lemma quiet_ip4_address v : quiet (ip4_address v).
Proof. unfold ip4_address. by destruct (ip4_of_json v). Qed.
Lemma quiet_unicast_mac v : quiet (unicast_mac v).
Proof. unfold unicast_mac. destruct v; try done. destruct (mac_bytes 6 s); [by case_ifs|done]. Qed.

#[local] Hint Resolve quiet_ok quiet_refused quiet_raise_if quiet_item quiet_as_set quiet_iterate quiet_as_dict
  quiet_ip4_address quiet_unicast_mac : ffn.

(** Walk a monadic body, splitting conditionals, and leave what the hints do not know. *)
Ltac quiet :=
  repeat first
    [ progress (auto with ffn)
    | match goal with
      | |- forall _, _ => intro
      | |- quiet (mbind _ _) => apply quiet_bind; [|intros ? ?]
      | |- quiet (if ?b then _ else _) => let E := fresh "E" in destruct b eqn:E
      | |- quiet (let '(_, _) := ?x in _) => destruct x
      end ].

Lemma quiet_filterM {A} (f : A -> result fault bool) l : (forall x, x ∈ l -> quiet (f x)) -> quiet (filterM f l).
Proof.
  induction l as [|x t IH]; intros H; cbn [filterM]; [done|].
  apply quiet_bind; [apply H; left|]. intros b _. apply quiet_bind; [|done]. apply IH. intros y Hy. apply H. by right.
Qed.
Lemma quiet_mapM {A B} (f : A -> result fault B) l : (forall x, quiet (f x)) -> quiet (mapM_res f l).
Proof. intros H. induction l as [|x t IH]; cbn [mapM_res]; quiet. Qed.

(** What the projection leaves of a link whose [linkinfo], if any, is an object; and of addresses. *)
Definition link_shape (row : obj) : Prop :=
  exists info, get_or row "linkinfo" (JObj []) = JObj info /\ forall d, dget (lit "info_data") info = Some d -> is_obj d.
Definition address_shape (row : obj) : Prop := exists l, get_or row "addr_info" (JList []) = JList l /\ Forall is_obj l.
Definition shaped (st : l3_state) : Prop := Forall link_shape (links st) /\ Forall address_shape (addresses st).

Lemma project_link_shape row : is_obj (get_or row "linkinfo" (JObj [])) -> link_shape (project_link row).
Proof.
  unfold get_or, jget_default, link_shape, project_link, get, jget. intros H.
  set (r := keep _ row). assert (Hr : dget (lit "linkinfo") r = dget (lit "linkinfo") row) by (unfold r; by rewrite dget_keep).
  rewrite Hr. destruct (dget (lit "linkinfo") row) as [v|] eqn:E; cbn [default from_option id] in *.
  - destruct v as [| | | | | |info]; try done. exists (project_linkinfo info).
    unfold get_or, jget_default. rewrite dget_dset_eq. split; [done|]. intros d. unfold project_linkinfo.
    rewrite dget_app, dget_keep. rewrite decide_False by set_solver. destruct (get info "info_data"); try done.
    cbn [dget]. rewrite decide_True by done. by intros [= <-].
  - exists []. unfold get_or, jget_default. rewrite Hr. done.
Qed.

Lemma project_address_shape row r : project_address row = Ok r -> address_shape r.
Proof.
  unfold project_address. intros H. inv_res. exists v0. unfold get_or, jget_default. rewrite dget_dset_eq.
  split; [done|]. apply mapM_res_Forall2 in Hv0. clear Hv. induction Hv0 as [|a o t u Ha _ IH]; constructor; [|done].
  unfold keep_any in Ha. destruct a; try done; [by split_if Ha; [done|]; inv_res.. | by inv_res].
Qed.

Lemma project_shaped sort raw st :
  (forall l, sort l ≡ₚ l) -> Forall (fun row => is_obj (get_or row "linkinfo" (JObj []))) (links raw) ->
  project sort raw = Ok st -> shaped st.
Proof.
  intros Hs Hl H. unfold project in H. inv_res. split; cbn; rewrite Hs.
  - apply Forall_map. eapply Forall_impl; [exact Hl | apply project_link_shape].
  - apply mapM_res_Forall2 in Hv. induction Hv as [|a r t u Ha _ IH]; constructor; [by eapply project_address_shape | done].
Qed.

Section Returns.
Context (st : l3_state) (bindings : obj).
Context (Hst : shaped st) (Hb : Forall (fun kv : pystr * json => truthy kv.2 = true -> is_obj kv.2) bindings).

Lemma quiet_info_kind row : link_shape row -> quiet (info_kind row).
Proof. intros (info & E & _). unfold info_kind. rewrite E. done. Qed.

Lemma quiet_carrier row : quiet (carrier row).
Proof. unfold carrier. quiet. Qed.

Lemma quiet_vlan row : link_shape row -> quiet (vlan_attachment row st).
Proof.
  intros (info & E & Hd). unfold vlan_attachment.
  apply quiet_bind; [auto with ffn|]. intros v Hv. apply item_get in Hv as [Hv _].
  unfold get_or, jget_default in E. rewrite Hv in E. cbn in E. subst v. cbn [as_dict mbind result_bind].
  apply quiet_bind; [auto with ffn|]. intros d Hd'. apply item_get in Hd' as [Hd' _].
  apply quiet_bind; [eauto with ffn|]. intros data _. apply quiet_bind; [auto with ffn|]. intros _ _.
  destruct (get data "id"); auto with ffn. apply quiet_bind; [auto with ffn|]. intros _ _.
  apply quiet_bind; [apply quiet_filterM; intros; quiet|]. intros ps Hps. destruct ps as [|p [|]]; auto with ffn.
  assert (link_shape p) as Hp.
  { destruct Hst as [Hl _]. rewrite Forall_forall in Hl. apply Hl.
    by apply (filterM_spec _ _ _ Hps p); left. }
  apply quiet_bind; [by apply quiet_info_kind|]. intros k _. apply quiet_bind; [auto with ffn|]. intros _ _.
  apply quiet_bind; [apply quiet_carrier|]. intros c _. quiet.
Qed.

Lemma quiet_attachment name : quiet (attachment name bindings st).
Proof.
  unfold attachment. destruct (jget name bindings) as [| | | | | |b]; auto with ffn.
  apply quiet_bind; [apply quiet_filterM; intros; quiet|]. intros ls Hls. destruct ls as [|l [|]]; auto with ffn.
  assert (link_shape l) as Hp.
  { destruct Hst as [Hl _]. rewrite Forall_forall in Hl. apply Hl. by apply (filterM_spec _ _ _ Hls l); left. }
  pose proof (quiet_carrier l). pose proof (quiet_info_kind l Hp). pose proof (quiet_vlan l Hp). quiet.
Qed.

Lemma quiet_local text : quiet (local_address text (addresses st)).
Proof.
  destruct Hst as [_ Ha]. induction Ha as [|row t (l & E & Hl) _ IH]; cbn [local_address]; [done|].
  rewrite E. cbn [iterate iter_json mbind result_bind]. apply quiet_bind; [|intros []; auto with ffn].
  clear E IH. induction Hl as [|a u Ho _ IH]; cbn [any_local]; [done|]. quiet.
Qed.

Lemma quiet_choices a rows : quiet (choices a rows).
Proof.
  induction rows as [|r t IH]; cbn [choices]; [done|]. apply quiet_bind.
  - unfold route_net, ip4_net. destruct (iface_of_json _) as [[x y]|]; [by case_ifs | done].
  - intros net _. case_ifs; [|done]. destruct (get_or r "metric" _); auto with ffn. quiet.
Qed.

Lemma quiet_route_for dest : quiet (route_for dest st).
Proof.
  pose proof quiet_local. pose proof quiet_choices. unfold route_for.
  apply quiet_bind; [auto with ffn|]. intros a _. apply quiet_bind; [auto with ffn|]. intros _ _.
  apply quiet_bind; [auto with ffn|]. intros l _. apply quiet_bind; [auto with ffn|]. intros _ _.
  apply quiet_bind; [auto with ffn|]. intros cs _. destruct (max_rank cs); [|done].
  destruct (filter _ _) as [|[? r] [|]]; [done| |done]. apply quiet_bind; [|quiet]. unfold exceptional. quiet.
Qed.

Lemma quiet_select_pair pairs f r : quiet (select_pair pairs f r bindings st).
Proof.
  pose proof quiet_route_for. unfold select_pair. destruct pairs as [|p [|q t]]; [done..|].
  assert (Hd : forall n, quiet (bound_device n bindings)).
  { intros n. unfold bound_device, jget. destruct (dget n bindings) as [v|] eqn:E; [|done]. cbn [default from_option id].
    destruct (truthy v) eqn:Et; [|done]. apply dget_In in E. rewrite Forall_forall in Hb. specialize (Hb _ E Et). quiet. }
  apply quiet_bind; [done|]. intros fr _. apply quiet_bind; [done|]. intros rr _.
  apply quiet_bind; [apply quiet_filterM; intros; quiet|]. intros ms _. by destruct ms as [|? []].
Qed.

Lemma quiet_resolve dest name : quiet (resolve dest name bindings st).
Proof.
  pose proof quiet_route_for. pose proof quiet_attachment. unfold resolve.
  apply quiet_bind; [done|]. intros r _. apply quiet_bind; [done|]. intros t _. apply quiet_bind; [auto with ffn|]. intros _ _.
  apply quiet_bind; [auto with ffn|]. intros hop _. cbn zeta. destruct (filter _ _) as [|n [|]]; [done| |done].
  apply quiet_bind; [|quiet]. unfold neighbor_valid. quiet.
Qed.

Lemma quiet_plan_try row : quiet (plan_try row bindings st).
Proof.
  pose proof quiet_attachment. pose proof quiet_resolve. pose proof quiet_select_pair. unfold plan_try.
  apply quiet_bind; [|quiet]. unfold main_table_only, qualified. apply quiet_bind; [|quiet].
  apply quiet_mapM. intros r. unfold rule_key. by case_ifs.
Qed.
End Returns.

(** Planning never raises: from a snapshot in which every link's [linkinfo], where present, is an object, and
    bindings that are objects (or empty), [plan] returns a plan for every session; every other irregularity of the
    kernel's answers or of the bindings is reported as a blocker. *)
Theorem plan_returns sort raw st fp row bindings :
  (forall l, sort l ≡ₚ l) -> Forall (fun r => is_obj (get_or r "linkinfo" (JObj []))) (links raw) ->
  project sort raw = Ok st -> Forall (fun kv : pystr * json => truthy kv.2 = true -> is_obj kv.2) bindings ->
  exists p, plan fp row bindings st = Ok p /\ (available p = true <-> blockers p = []).
Proof.
  intros Hs Hl Hp Hb. pose proof (quiet_plan_try st bindings (project_shaped _ _ _ Hs Hl Hp) Hb row) as Hq.
  unfold plan. destruct (software_candidate row); cbn [negb]; [|eexists; by split; [reflexivity|split]].
  destruct (plan_try row bindings st) as [[[f r] q]|e]; [eexists; by split; [reflexivity|split]|].
  destruct e; [eexists; by split; [reflexivity|split].. | by destruct Hq].
Qed.

(** ** A concrete namespace: a LAN and a WAN with a provider gateway *)

Definition demo_link (i : Z) (name mac : string) : obj :=
  [(lit "ifindex", JInt i); (lit "ifname", J name); (lit "ifalias", J "ffn"); (lit "address", J mac);
   (lit "mtu", JInt 1500); (lit "flags", JList [J "BROADCAST"; J "UP"; J "LOWER_UP"])].
Definition demo_rule (p : Z) (t : string) : obj := [(lit "priority", JInt p); (lit "src", J "all"); (lit "table", J t)].
Definition demo_binding (i : Z) (name : string) : json :=
  JObj [(lit "device", J name); (lit "index", JInt i); (lit "alias", J "ffn")].
Definition demo_raw (state : string) : l3_state := {|
  links := [demo_link 2 "dp0" "02:00:00:00:00:0A"; demo_link 3 "dp1" "02:00:00:00:00:0b"];
  addresses := [[(lit "ifname", J "dp0"); (lit "addr_info", JList [JObj [(lit "local", J "192.0.2.1")]])]];
  routes := [[(lit "dst", J "default"); (lit "gateway", J "198.51.100.1"); (lit "dev", J "dp1"); (lit "flags", JList [J "onlink"])];
             [(lit "dst", J "192.0.2.0/24"); (lit "dev", J "dp0")];
             [(lit "dst", J "192.0.2.0/24"); (lit "dev", J "dp1"); (lit "metric", JInt 50)]];
  rules := [demo_rule 0 "local"; demo_rule 32766 "main"; demo_rule 32767 "default"];
  neighbors := [[(lit "dst", J "198.51.100.1"); (lit "dev", J "dp1"); (lit "lladdr", J "02:00:00:00:01:01"); (lit "state", JList [J state])];
                [(lit "dst", J "192.0.2.9"); (lit "dev", J "dp0"); (lit "lladdr", J "02:00:00:00:01:02"); (lit "state", JList [J "STALE"])]] |}.
Definition demo_bindings : obj := [(lit "lan", demo_binding 2 "dp0"); (lit "wan", demo_binding 3 "dp1")].
Definition demo_row : session_row := {|
  software_candidate := true; interface_pairs := [(lit "wan", lit "lan"); (lit "lan", lit "wan")];
  original_source := lit "192.0.2.9"; translated_destination := lit "203.0.113.7" |}.
Definition demo_state : l3_state :=
  match project id (demo_raw "REACHABLE") with Ok st => st | Err _ => demo_raw "REACHABLE" end.
Definition demo_plan : l3_plan :=
  match plan (fun _ => []) demo_row demo_bindings demo_state with
  | Ok p => p
  | Err _ => {| available := false; hardware_admission := false; blockers := []; directions := []; pair := None; snapshot_digest := [] |}
  end.

Lemma demo_plan_eq : plan (fun _ => []) demo_row demo_bindings demo_state = Ok demo_plan /\ available demo_plan = true
  /\ pair demo_plan = Some (lit "lan", lit "wan").
Proof. vm_compute. repeat split. Qed.

Lemma route_for_witness : exists r, route_for (lit "192.0.2.9") demo_state = Ok r /\ get r "dev" = J "dp0".
Proof.
  exists [(lit "dst", J "192.0.2.0/24"); (lit "dev", J "dp0")]. split; [|by vm_compute].
  apply (route_for_longest_match _ _ 3221225993); [by vm_compute | | ].
  - repeat constructor; eexists; (split; [by vm_compute|]); intros _; eexists; by vm_compute.
  - split; [by vm_compute|]. split; [by vm_compute|]. split; [|by vm_compute].
    apply select_best. eexists _, _. split; by vm_compute.
Defined.

Lemma plan_available_witness : default_rules demo_state /\ (lit "lan", lit "wan") ∈ interface_pairs demo_row.
Proof.
  destruct demo_plan_eq as (Hp & Ha & Hq).
  destruct (plan_available_sound _ _ _ _ _ Hp Ha) as (_ & _ & _ & Hr & i & o & f & r & Hio & _ & Hin & _).
  rewrite Hq in Hio. injection Hio as <- <-. done.
Defined.

Lemma snapshot_churn_witness : project id (demo_raw "REACHABLE") = project id (demo_raw "PROBE").
Proof.
  apply snapshot_ignores_churn; [reflexivity..|]. constructor; [split | constructor; [split | constructor]].
  1,3: by intros k Hk; repeat (apply elem_of_cons in Hk as [->|Hk]; [by vm_compute|]); apply elem_of_nil in Hk.
  - intros r [->| ->]; (split; [by vm_compute|]).
    + exists [lit "REACHABLE"], (lit "REACHABLE"). repeat split; [left|]. by do 2 right; left.
    + exists [lit "PROBE"], (lit "PROBE"). repeat split; [left|]. by do 3 right; left.
  - intros r Hr; (split; [by destruct Hr as [->| ->]; vm_compute|]).
    exists [lit "STALE"], (lit "STALE"). split; [by destruct Hr as [->| ->]; vm_compute|]. split; [left|]. by do 4 right; left.
Defined.

Lemma plan_returns_witness : exists p, plan (fun _ => []) demo_row demo_bindings demo_state = Ok p.
Proof.
  destruct (plan_returns id (demo_raw "REACHABLE") demo_state (fun _ => []) demo_row demo_bindings) as (p & Hp & _);
    [done | repeat constructor | by vm_compute | repeat constructor | by exists p].
Defined.
