(* ===== verification/SessionFeed.v ===== *)
(** * Session observations for offload planning

    [ffn_session_feed.py]: the catalogue of tokens and the interface pairs their rules authorise, the assessment of one
    connection, the acknowledgement of the enforcement state, and [observe], which joins a conntrack dump with the
    events that raced with it, assesses the live sessions and plans the next hops of the candidates ([L3Offload]).
    What the process reads from outside (status, saved generation, journal, conntrack, two topology snapshots, clock)
    is a record of inputs. *)

From S2P Require Import Prelude PyStr PyDict PyIp PyJson L3Offload.
From Stdlib Require QArith.
From S2P Require Import PyXml PyIp6 PolicyObjects Ipv6Settings PolicyConfig NatPolicy PolicyPlan SecurityNft SecurityTokens NetlinkEvents.

Inductive feed_error :=
| FeedError (what : string)
| PolicyFault (e : PolicyObjects.exn)
| TopologyFault (e : fault).

Definition lift_policy {A} (r : result PolicyObjects.exn A) : result feed_error A :=
  match r with Ok a => Ok a | Err e => Err (PolicyFault e) end.
Definition lift_fault {A} (r : result fault A) : result feed_error A :=
  match r with Ok a => Ok a | Err e => Err (TopologyFault e) end.

(** ** The catalogue *)

Record feed_rule := { fr_meta : rule_meta; fr_pairs : list (pystr * pystr); fr_inspection : bool }.

(** [zones]: the interfaces of every Layer 3 zone of a virtual system. *)
Definition feed_zone (r : resolver) (acc : list (option pystr * list pystr)) (z : element) :
  result PolicyObjects.exn (list (option pystr * list pystr)) :=
  if (length (findall (xpath "network/layer3/member") z) =? 0)%nat then Ok acc
  else ifs ← interfaces r [eget (lit "name") z]; Ok (dset (eget (lit "name") z) ifs acc).
Definition feed_zones (root owner : element) : result PolicyObjects.exn (list (option pystr * list pystr)) :=
  foldM_res (feed_zone {| r_root := root; r_owner := owner; r_family := 4 |}) [] (findall (xpath "zone/entry") owner).

(** [sorted(pairs)] for a set of pairs of texts. *)
Definition text_pair_le (a b : pystr * pystr) : bool := if bool_decide (a.1 = b.1) then str_le a.2 b.2 else str_le a.1 b.1.
Definition cross (l m : list pystr) : list (pystr * pystr) := concat (map (fun a => map (fun b => (a, b)) m) l).
Definition rule_pairs (zones : list (option pystr * list pystr)) (m : match_t) : list (pystr * pystr) :=
  py_sorted text_pair_le (remove_dups
    (concat (map (fun src => concat (map (fun dst =>
       if pair_applies m src.1 dst.1 then cross src.2 dst.2 else []) zones)) zones))).

(** One rule of the compiled plan. *)
Definition catalog_row (tokens : list ((option pystr * pystr) * Z)) (metadata : list (Z * rule_meta))
    (zones : list (option pystr * list pystr)) (scope : option pystr) (acc : list (Z * feed_rule)) (rw : row) :
  result feed_error (list (Z * feed_rule)) :=
  match dget (scope, row_name rw) tokens with
  | None => Ok acc
  | Some tok =>
      match row_match rw, dget tok metadata, row_action rw with
      | Some m, Some md, Some (ASecurity _ _ mode _ _ _ _ _) =>
          Ok (dset tok {| fr_meta := md; fr_pairs := rule_pairs zones m;
                          fr_inspection := negb (bool_decide (mode = lit "none")) |} acc)
      | _, _, _ => Err (FeedError "KeyError")
      end
  end.
Definition catalog_scope (tokens : list ((option pystr * pystr) * Z)) (metadata : list (Z * rule_meta)) (root : element)
    (acc : list (Z * feed_rule)) (so : option pystr * element) : result feed_error (list (Z * feed_rule)) :=
  zones ← lift_policy (feed_zones root so.2);
  compiled ← lift_policy (compile_policy root Security so.1);
  _ ← raise_if (negb (plan_ok compiled)) (FeedError "Current Security plan is not valid");
  foldM_res (catalog_row tokens metadata zones so.1) acc (rows compiled).
Definition catalog (repr : list (pystr * PolicyObjects.exn) -> pystr) (root : element) (generation : Z) :
  result feed_error (list (Z * feed_rule) * list (Z * rule_meta)) :=
  tm ← lift_policy (tokens_for repr root generation);
  rules ← foldM_res (catalog_scope tm.1 tm.2 root) [] (owners root);
  Ok (rules, tm.2).

(** ** One connection *)

Record transport := { t_source : Z; t_destination : Z; t_source_port : Z; t_destination_port : Z; t_protocol : Z }.

(** [set(row[direction]) == fields]: a TCP or UDP tuple, without ICMP fields. *)
Definition complete_tuple (t : ct_tuple) : bool :=
  match source_port t, destination_port t, icmp_id t, icmp_type t, icmp_code t with
  | Some _, Some _, None, None, None => true
  | _, _, _, _, _ => false
  end.

Record assessment := {
  as_identity : pystr; as_row : ct_event; as_rule : option feed_rule;
  as_translated : option transport; as_nat : option (bool * bool);
  as_candidate : bool; as_blockers : list string }.

Definition note (b : bool) (reason : string) : list string := if b then [reason] else [].

Definition assess (identity : pystr -> ct_event -> pystr) (row : ct_event) (rules : list (Z * feed_rule)) (boot : pystr) : assessment :=
  let rule := match token row with Some t => dget t rules | None => None end in
  let proto := protocol (original row) in
  let flags := default 0 (status row) in
  let pairs := match rule with Some r => fr_pairs r | None => [] end in
  let complete := complete_tuple (original row) && complete_tuple (reply row) in
  let reasons :=
    note (match rule with None => true | _ => false end) "grant-not-in-current-explicit-policy"
    ++ note (negb ((proto =? 6) || (proto =? 17)) || negb (protocol (reply row) =? proto)) "unsupported-protocol"
    ++ note (negb (Z.land flags 14 =? 14)) "session-not-confirmed-assured-and-replied"
    ++ note (negb (Z.land flags (Z.lor (Z.lor (Z.lor (Z.lor 512 2048) 4096) 16384) 32768) =? 0)) "dying-template-or-already-offloaded-session"
    ++ note ((proto =? 6) && negb (bool_decide (tcp_state row = Some 3))) "tcp-not-established"
    ++ note (match timeout row with Some t => t <=? 0 | None => true end) "session-expiry-unavailable"
    ++ note (negb (zone row =? 0)) "nondefault-conntrack-zone"
    ++ note (match pairs with [] => true | _ => false end) "no-interface-pair"
    ++ note (match rule with Some r => fr_inspection r | None => false end) "inspection-required"
    ++ note (negb complete) "incomplete-transport-tuple" in
  let o := original row in
  let r := reply row in
  let translated :=
    if complete then
      Some {| t_source := destination r; t_destination := source r; t_source_port := default 0 (destination_port r);
              t_destination_port := default 0 (source_port r); t_protocol := proto |}
    else None in
  {| as_identity := identity boot row; as_row := row; as_rule := rule; as_translated := translated;
     as_nat := (fun t => (negb (source o =? t_source t) || negb (default 0 (source_port o) =? t_source_port t),
                          negb (destination o =? t_destination t) || negb (default 0 (destination_port o) =? t_destination_port t)))
               <$> translated;
     as_candidate := match reasons with [] => true | _ => false end; as_blockers := reasons |}.

(** ** Acknowledgement *)

Record generation := {
  g_root : element; g_token_generation : Z; g_revision : json; g_digest : json; g_nat_digest : json; g_bindings : list (pystr * json) }.
Record producer := { p_boot_id : json; p_pid : json; p_process_start : json; p_reconciliations : json }.

Definition is_true (v : json) : bool := match v with JBool true => true | _ => false end.
(** [value[key]] of a value that need not be an object. *)
Definition item_of (v : json) (k : string) : result fault json := match v with JObj o => item o k | _ => Err BadType end.

Definition acknowledgement (value : list (pystr * json)) (g : generation) : result fault producer :=
  let stale := Refused "Current Security/NAT acknowledgement is required" [] in
  _ ← raise_if (negb (is_true (get value "available")) || negb (is_true (get value "applied"))
                || negb (jeq (get value "revision") (g_revision g)) || negb (jeq (get value "digest") (g_digest g))) stale;
  nat ← as_dict (get_or value "nat" (JObj []));
  _ ← raise_if (negb (is_true (get nat "acknowledged")) || negb (jeq (get nat "digest") (g_nat_digest g))) stale;
  health ← item value "collector";
  b ← item_of health "boot_id";
  p ← item_of health "pid";
  s ← item_of health "process_start";
  h ← as_dict health;
  ev ← as_dict (get_or h "events" (JObj []));
  Ok {| p_boot_id := b; p_pid := p; p_process_start := s; p_reconciliations := get ev "recoveries" |}.

Definition producer_eqb (a b : producer) : bool :=
  jeq (p_boot_id a) (p_boot_id b) && jeq (p_pid a) (p_pid b) && jeq (p_process_start a) (p_process_start b)
  && jeq (p_reconciliations a) (p_reconciliations b).

(** What [context] reads: the namespace test, the status, the saved generation, the journal file and its rows. *)
Record context_inputs := {
  c_same_namespace : bool; c_status : list (pystr * json); c_saved : option generation;
  c_trusted : bool; c_fault : option pystr; c_persisted : list (Z * rule_meta) }.

#[global] Instance rule_meta_eq_dec : EqDecision rule_meta.
Proof. solve_decision. Defined.

Definition context (repr : list (pystr * PolicyObjects.exn) -> pystr) (c : context_inputs) :
  result feed_error (generation * producer * list (Z * feed_rule)) :=
  _ ← raise_if (negb (c_same_namespace c)) (FeedError "Session feed must run inside the data namespace");
  match c_saved c with
  | None => Err (FeedError "No applied policy generation")
  | Some g =>
      p ← lift_fault (acknowledgement (c_status c) g);
      cat ← catalog repr (g_root g) (g_token_generation g);
      _ ← raise_if (negb (c_trusted c)) (FeedError "Untrusted session journal");
      _ ← raise_if (match c_fault c with Some (_ :: _) => true | _ => false end) (FeedError "Session journal fault is active");
      _ ← raise_if (existsb (fun kv => negb (bool_decide (dget kv.1 (c_persisted c) = Some kv.2))) cat.2)
            (FeedError "Durable rule generation does not match applied policy");
      Ok (g, p, cat.1)
  end.

(** ** The live sessions *)

Abbreviation session_key := (Z * Z * ct_tuple)%type (only parsing).
Definition key_of (row : ct_event) : session_key := (zone row, ct_id row, original row).

(** The dictionary comprehension over the dump, and the replay of one change. *)
Definition live_row (live : list (session_key * ct_event)) (row : ct_event) : list (session_key * ct_event) :=
  if token row then dset (key_of row) row live else live.
Definition live_change (live : list (session_key * ct_event)) (row : ct_event) : list (session_key * ct_event) :=
  match event row with
  | EvEnd => ddel (key_of row) live
  | _ => if token row then dset (key_of row) row live else ddel (key_of row) live
  end.
Definition live_sessions (dump changes : list ct_event) : list (session_key * ct_event) :=
  fold_left live_change changes (fold_left live_row dump []).

(** ** [observe] *)

Definition LIMIT : nat := 128.

(** [str(uuid.UUID(nonce)) == nonce]: lower-case hexadecimal in groups of 8, 4, 4, 4 and 12. *)
Definition is_lower_hex (c : Z) : bool := between 48 c 57 || between 97 c 102.
Fixpoint uuid_shape (groups : list nat) (s : pystr) : bool :=
  match groups with
  | [] => false
  | [n] => (length s =? n)%nat && forallb is_lower_hex s
  | n :: t => (length (take n s) =? n)%nat && forallb is_lower_hex (take n s)
              && bool_decide (head (drop n s) = Some 45) && uuid_shape t (drop (S n) s)
  end.
Definition canonical_uuid (v : json) : bool := match v with JStr s => uuid_shape [8; 4; 4; 4; 12]%nat s | _ => false end.

Record observation := {
  ob_producer : producer; ob_owned : nat; ob_truncated : bool; ob_hardware_admission : bool;
  ob_sessions : list (assessment * option l3_plan) }.

Record observe_inputs := {
  o_context : context_inputs; o_dump : list ct_event; o_changes : list ct_event;
  o_topology : result fault l3_state; o_topology_again : result fault l3_state; o_same_topology : bool;
  o_status_after : list (pystr * json); o_unchanged : bool; o_elapsed : QArith_base.Q }.

(** What the planner reads of an assessed candidate. *)
Definition planner_row (a : assessment) : session_row := {|
  software_candidate := as_candidate a;
  interface_pairs := match as_rule a with Some r => fr_pairs r | None => [] end;
  original_source := ip4_text (source (original (as_row a)));
  translated_destination := match as_translated a with Some t => ip4_text (t_destination t) | None => [] end |}.

Section Observe.
Context (repr : list (pystr * PolicyObjects.exn) -> pystr) (identity : pystr -> ct_event -> pystr)
        (sort : list (session_key * ct_event) -> list (session_key * ct_event)) (fingerprint : l3_state -> pystr).

Definition blocked_plan (why : fault) : l3_plan := {|
  L3Offload.available := false; L3Offload.hardware_admission := false; L3Offload.blockers := [why];
  L3Offload.directions := []; L3Offload.pair := None; L3Offload.snapshot_digest := [] |}.

(** The [try] block: plan every candidate on one snapshot and compare it with a second. Only a [ValueError] is caught. *)
Definition plan_candidates (i : observe_inputs) (g : generation) (sessions : list assessment) :
  result fault (list (assessment * option l3_plan)) :=
  let each f := mapM_res (fun a => if as_candidate a then p ← f a; Ok (a, Some p) else Ok (a, None)) sessions in
  if negb (existsb as_candidate sessions) then each (fun _ => Err BadType)
  else
    let attempt :=
      topology ← o_topology i;
      planned ← each (fun a => L3Offload.plan fingerprint (planner_row a) (g_bindings g) topology);
      _ ← o_topology_again i;
      _ ← raise_if (negb (o_same_topology i))
            (Refused "Routes, neighbors or interface ownership changed during observation" []);
      Ok planned in
    match attempt with
    | Err (Refused w l) => each (fun _ => Ok (blocked_plan (Refused w l)))
    | r => r
    end.

Definition boot_text (p : producer) : pystr := match p_boot_id p with JStr s => s | _ => [] end.

Definition observe (nonce : json) (i : observe_inputs) : result feed_error observation :=
  _ ← raise_if (negb (canonical_uuid nonce)) (FeedError "Canonical request nonce required");
  ctx ← context repr (o_context i);
  let '(g, p, rules) := ctx in
  let owned := map snd (sort (live_sessions (o_dump i) (o_changes i))) in
  let sessions := map (fun row => assess identity row rules (boot_text p)) (take LIMIT owned) in
  planned ← lift_fault (plan_candidates i g sessions);
  p' ← (if o_unchanged i then lift_fault (acknowledgement (o_status_after i) g) else Ok p);
  _ ← raise_if (negb (o_unchanged i) || negb (producer_eqb p' p))
        (FeedError "Policy, bindings or session producer changed during observation");
  _ ← raise_if (negb (QArith_base.Qle_bool (o_elapsed i) (QArith_base.Qmake 8 1))) (FeedError "Session observation exceeded its freshness budget");
  Ok {| ob_producer := p; ob_owned := length owned; ob_truncated := (LIMIT <? length owned)%nat;
        ob_hardware_admission := false; ob_sessions := planned |}.
End Observe.

(** ** The merge of the dump and the racing events *)

Definition alive (row : ct_event) : bool := match event row with EvEnd => false | _ => if token row then true else false end.

(** The state of one connection, from the last word about it: the last change, else the last tagged row of the dump. *)
Definition current (k : session_key) (dump changes : list ct_event) : option ct_event :=
  match last (filter (fun r => key_of r = k) changes) with
  | Some r => if alive r then Some r else None
  | None => last (filter (fun r => key_of r = k /\ is_Some (token r)) dump)
  end.

Lemma filter_snoc {A} (P : A -> Prop) `{!forall x, Decision (P x)} l x :
  filter P (l ++ [x]) = filter P l ++ if decide (P x) then [x] else [].
Proof. rewrite filter_app, filter_cons. by destruct (decide (P x)). Qed.

Lemma live_dump k dump : dget k (fold_left live_row dump []) = last (filter (fun r => key_of r = k /\ is_Some (token r)) dump).
Proof.
  induction dump as [|r dump IH] using rev_ind; [done|]. rewrite fold_left_app, filter_snoc. cbn [fold_left]. unfold live_row at 1.
  destruct (token r) as [t|] eqn:Et.
  - rewrite dget_dset. destruct (decide (k = key_of r)) as [->|Hne].
    + rewrite decide_True by (split; [done | by eexists]). by rewrite last_snoc.
    + rewrite decide_False by naive_solver. by rewrite app_nil_r.
  - rewrite decide_False by (by intros [_ [? ?]]). by rewrite app_nil_r.
Qed.

(** The observed set is exactly the live one: a connection is reported with the last state seen for it, whether by
    the dump or by an event that raced with it, and is dropped when that last word is an end or an untagged update. *)
Theorem live_sessions_current k dump changes : dget k (live_sessions dump changes) = current k dump changes.
Proof.
  unfold live_sessions, current. induction changes as [|r changes IH] using rev_ind; [apply live_dump|].
  rewrite fold_left_app, filter_snoc. cbn [fold_left]. destruct (decide (key_of r = k)) as [<-|Hne].
  - rewrite last_snoc. unfold live_change, alive. destruct (event r), (token r); by rewrite ?dget_dset_eq, ?dget_ddel, ?decide_True.
  - rewrite app_nil_r, <- IH. unfold live_change. destruct (event r), (token r); by rewrite ?dget_dset_ne, ?dget_ddel, ?decide_False by congruence.
Qed.

Lemma live_keys dump changes k r : (k, r) ∈ live_sessions dump changes -> k = key_of r.
Proof.
  unfold live_sessions. assert (H0 : forall l acc, (forall k r, (k, r) ∈ acc -> k = key_of r) ->
    forall k r, (k, r) ∈ fold_left live_row l acc -> k = key_of r).
  { induction l as [|x t IH]; intros acc Ha; [done|]. cbn [fold_left]. apply IH. intros k' r'. unfold live_row.
    destruct (token x); [|apply Ha]. intros [[= -> ->]|?]%elem_dset; [done|by apply Ha]. }
  assert (H1 : forall l acc, (forall k r, (k, r) ∈ acc -> k = key_of r) ->
    forall k r, (k, r) ∈ fold_left live_change l acc -> k = key_of r).
  { induction l as [|x t IH]; intros acc Ha; [done|]. cbn [fold_left]. apply IH. intros k' r'. unfold live_change.
    destruct (event x), (token x); try (by intros ?%elem_ddel; apply Ha);
      intros [[= -> ->]|?]%elem_dset; try done; by apply Ha. }
  apply H1, H0. by intros ? ? ?%elem_of_nil.
Qed.

Lemma live_dict dump changes : dict_ok (live_sessions dump changes).
Proof.
  unfold live_sessions. assert (H0 : forall l acc, dict_ok acc -> dict_ok (fold_left live_row l acc)).
  { induction l as [|x t IH]; intros acc Ha; [done|]. cbn [fold_left]. apply IH. unfold live_row.
    destruct (token x); [by apply dict_ok_dset | done]. }
  assert (H1 : forall l acc, dict_ok acc -> dict_ok (fold_left live_change l acc)).
  { induction l as [|x t IH]; intros acc Ha; [done|]. cbn [fold_left]. apply IH. unfold live_change.
    destruct (event x), (token x); first [by apply dict_ok_ddel | by apply dict_ok_dset]. }
  apply H1, H0. apply NoDup_nil_2.
Qed.

(** ** Candidates *)

(** Everything the planner may rely on for a candidate, in terms of the kernel's fields: bits 1 to 3 of the status are
    seen-reply, assured and confirmed; 9, 11, 12, 14 and 15 dying, template, helper and the offload flags. *)
Record eligible (row : ct_event) (r : feed_rule) : Prop := {
  el_protocol : protocol (original row) = 6 \/ protocol (original row) = 17;
  el_reply : protocol (reply row) = protocol (original row);
  el_set : forall b, b ∈ [1; 2; 3] -> Z.testbit (default 0 (status row)) b = true;
  el_clear : forall b, b ∈ [9; 11; 12; 14; 15] -> Z.testbit (default 0 (status row)) b = false;
  el_tcp : protocol (original row) = 6 -> tcp_state row = Some 3;
  el_timeout : exists t, timeout row = Some t /\ 0 < t;
  el_zone : zone row = 0;
  el_pairs : fr_pairs r <> [];
  el_inspection : fr_inspection r = false;
  el_tuples : complete_tuple (original row) = true /\ complete_tuple (reply row) = true }.

Lemma note_nil b s : note b s = [] <-> b = false.
Proof. by destruct b. Qed.

Lemma land_bits x l : (forall b, b ∈ l -> 0 <= b) ->
  let m := fold_right (fun b a => Z.lor (2 ^ b) a) 0 l in
  (forall n, 0 <= n -> Z.testbit m n = bool_decide (n ∈ l)) /\
  (Z.land x m = m <-> forall b, b ∈ l -> Z.testbit x b = true) /\
  (Z.land x m = 0 <-> forall b, b ∈ l -> Z.testbit x b = false).
Proof.
  intros Hl m. assert (Hm : forall n, 0 <= n -> Z.testbit m n = bool_decide (n ∈ l)).
  { intros n Hn. subst m. induction l as [|b t IH]; cbn [fold_right]; [by rewrite Z.bits_0|].
    rewrite Z.lor_spec, IH by (intros; apply Hl; by right). rewrite Z.pow2_bits_eqb by (apply Hl; left).
    apply eq_bool_prop_intro. rewrite orb_True, !bool_decide_spec, elem_of_cons. 
    destruct (Z.eqb_spec b n); cbn; naive_solver. }
  split; [done|]. split; split.
  - intros H b Hb. specialize (Hl b Hb). apply (f_equal (fun z => Z.testbit z b)) in H.
    rewrite Z.land_spec, Hm, bool_decide_eq_true_2, andb_true_r in H by done. done.
  - intros H. apply Z.bits_inj'. intros n Hn. rewrite Z.land_spec, Hm by done.
    case_bool_decide; [by rewrite H | by rewrite andb_false_r].
  - intros H b Hb. specialize (Hl b Hb). apply (f_equal (fun z => Z.testbit z b)) in H.
    rewrite Z.land_spec, Hm, bool_decide_eq_true_2, andb_true_r, Z.bits_0 in H by done. done.
  - intros H. apply Z.bits_inj'. intros n Hn. rewrite Z.land_spec, Hm, Z.bits_0 by done.
    case_bool_decide; [by rewrite H | by rewrite andb_false_r].
Qed.

Lemma flags_required x : Z.land x 14 = 14 <-> forall b, b ∈ [1; 2; 3] -> Z.testbit x b = true.
Proof. apply (land_bits x [1; 2; 3]). set_solver by lia. Qed.
Lemma flags_forbidden x :
  Z.land x (Z.lor (Z.lor (Z.lor (Z.lor 512 2048) 4096) 16384) 32768) = 0 <-> forall b, b ∈ [9; 11; 12; 14; 15] -> Z.testbit x b = false.
Proof. apply (land_bits x [9; 11; 12; 14; 15]). set_solver by lia. Qed.

(** [assess] calls a connection a candidate exactly when its token names a rule of the current explicit policy
    that authorises some interface pair and needs no inspection, both directions are complete TCP or UDP tuples of one
    protocol, the kernel has confirmed and assured it and seen a reply, nothing is tearing it down or offloading it,
    a TCP connection is established, and its expiry and zone are the ordinary ones. *)
Theorem assess_candidate_iff identity row rules boot :
  as_candidate (assess identity row rules boot) = true <->
  exists t r, token row = Some t /\ dget t rules = Some r /\ eligible row r.
Proof.
  set (a := assess identity row rules boot).
  transitivity (as_blockers a = []); [unfold a; cbn [assess as_candidate as_blockers]; by destruct (_ ++ _)|].
  unfold a. cbn [assess as_blockers]. rewrite !app_nil, !note_nil, !orb_false_iff, !negb_false_iff, !Z.eqb_eq, orb_true_iff, !Z.eqb_eq.
  rewrite flags_required, flags_forbidden. split.
  - intros (Hr & (Hp & Hrp) & Hs & Hc & Ht & Ho & Hz & Hpr & Hi & Hx).
    destruct (token row) as [t|]; [|done]. destruct (dget t rules) as [r|] eqn:Er; [|done]. exists t, r. do 2 (split; [done|]).
    split; try done.
    + intros H6. rewrite H6 in Ht. cbn in Ht. apply negb_false_iff in Ht. by apply bool_decide_eq_true in Ht.
    + destruct (timeout row) as [o|]; [|done]. exists o. split; [done|]. by zb.
    + by intros E; rewrite E in Hpr.
    + by apply andb_true_iff in Hx.
  - intros (t & r & -> & -> & [Hp Hrp Hs Hc Ht (o & -> & Ho) Hz Hpr Hi [Hx Hy]]). repeat split; try done.
    + destruct (Z.eqb_spec (protocol (original row)) 6) as [E|]; [|done]. by rewrite bool_decide_eq_true_2 by auto.
    + by apply Z.leb_gt.
    + by destruct (fr_pairs r).
    + by rewrite Hx, Hy.
Qed.

(** ** The catalogue names the zone pairs of the rule *)

Lemma elem_concat_map {A B} (f : A -> list B) l x : x ∈ concat (map f l) <-> exists a, a ∈ l /\ x ∈ f a.
Proof.
  rewrite list_elem_of_In, in_concat. setoid_rewrite in_map_iff. split.
  - intros (y & (a & <- & Ha) & Hx). exists a. by rewrite !list_elem_of_In.
  - intros (a & Ha & Hx). exists (f a). rewrite <- !list_elem_of_In in *. split; [|done]. exists a. by rewrite <- list_elem_of_In.
Qed.

Lemma elem_cross x y l m : (x, y) ∈ cross l m <-> x ∈ l /\ y ∈ m.
Proof.
  unfold cross. rewrite elem_concat_map. setoid_rewrite list_elem_of_In at 2. setoid_rewrite in_map_iff. split.
  - intros (a & Ha & b & [= -> ->] & Hb). split; [done | by apply list_elem_of_In].
  - intros [Hx Hy]. exists x. split; [done|]. exists y. split; [done | by apply list_elem_of_In].
Qed.

Lemma elem_rule_pairs zones m x y : (x, y) ∈ rule_pairs zones m <->
  exists src dst, src ∈ zones /\ dst ∈ zones /\ pair_applies m src.1 dst.1 = true /\ x ∈ src.2 /\ y ∈ dst.2.
Proof.
  unfold rule_pairs. rewrite py_sorted_perm, elem_of_remove_dups, elem_concat_map. setoid_rewrite elem_concat_map. split.
  - intros (src & Hs & dst & Hd & H). exists src, dst. destruct (pair_applies _ _ _); [|by apply elem_of_nil in H].
    by apply elem_cross in H.
  - intros (src & dst & Hs & Hd & Ha & H). exists src. split; [done|]. exists dst. split; [done|]. rewrite Ha. by apply elem_cross.
Qed.

(** A catalogue entry and the rule of the compiled policy it describes. *)
Definition describes (root : element) (tokens : list ((option pystr * pystr) * Z)) (metadata : list (Z * rule_meta))
    (tok : Z) (r : feed_rule) : Prop :=
  exists scope owner zones pl rw m,
    (scope, owner) ∈ owners root /\ feed_zones root owner = Ok zones /\ compile_policy root Security scope = Ok pl
    /\ rw ∈ rows pl /\ row_match rw = Some m /\ dget (scope, row_name rw) tokens = Some tok
    /\ dget tok metadata = Some (fr_meta r) /\ fr_pairs r = rule_pairs zones m
    /\ ((scope, row_name rw) = implicit_id \/ allows rw)
    /\ exists ty icmp mode g ind ls le fw, row_action rw = Some (ASecurity ty icmp mode g ind ls le fw)
         /\ (fr_inspection r = false <-> mode = lit "none").

Definition describes_all root tokens metadata (acc : list (Z * feed_rule)) : Prop :=
  forall tok r, (tok, r) ∈ acc -> describes root tokens metadata tok r.

Lemma lift_policy_ok {A} (r : result PolicyObjects.exn A) a : lift_policy r = Ok a -> r = Ok a.
Proof. destruct r; cbn; congruence. Qed.

Lemma catalog_rows_sound root tokens metadata zones scope owner pl rws acc acc' :
  (scope, owner) ∈ owners root -> feed_zones root owner = Ok zones -> compile_policy root Security scope = Ok pl ->
  (forall rw, rw ∈ rws -> rw ∈ rows pl) ->
  (forall rw tok, rw ∈ rows pl -> dget (scope, row_name rw) tokens = Some tok -> (scope, row_name rw) = implicit_id \/ allows rw) ->
  describes_all root tokens metadata acc ->
  foldM_res (catalog_row tokens metadata zones scope) acc rws = Ok acc' -> describes_all root tokens metadata acc'.
Proof.
  intros Ho Hz Hp. revert acc. induction rws as [|rw rws IH]; intros acc Hsub Hal Ha H; cbn [foldM_res] in H; [by inv_res|].
  inv_res. eapply IH; [|exact Hal|intros tok r Hin|exact H]; [by intros; apply Hsub; right|].
  unfold catalog_row in Hv. destruct (dget (scope, row_name rw) tokens) as [t|] eqn:Et; [|inv_res; by apply Ha].
  destruct (row_match rw) as [m|] eqn:Em; [|done]. destruct (dget t metadata) as [md|] eqn:Ed; [|done].
  destruct (row_action rw) as [[ty icmp mode g ind ls le fw| | | | |]|] eqn:Ea; try done. inv_res.
  apply elem_dset in Hin as [[= -> ->]|Hin]; [|by apply Ha].
  exists scope, owner, zones, pl, rw, m. repeat (split; [first [done | apply Hsub; left | eapply Hal; [apply Hsub; left|done]]|]).
  exists ty, icmp, mode, g, ind, ls, le, fw. split; [done|]. cbn. by rewrite negb_false_iff, bool_decide_eq_true.
Qed.

Lemma catalog_sound repr root generation rules metadata :
  catalog repr root generation = Ok (rules, metadata) ->
  exists tokens, tokens_for repr root generation = Ok (tokens, metadata) /\ describes_all root tokens metadata rules.
Proof.
  unfold catalog. intros H. inv_res. apply lift_policy_ok in Hv. destruct v as [tokens md]. cbn [fst snd] in *.
  exists tokens. split; [done|]. rename Hv into Htok.
  assert (Hs : forall os, (forall so, so ∈ os -> so ∈ owners root) -> forall acc acc', describes_all root tokens md acc ->
    foldM_res (catalog_scope tokens md root) acc os = Ok acc' -> describes_all root tokens md acc').
  { induction os as [|[scope owner] os IH]; intros Hsub acc acc' Ha Hf; cbn [foldM_res] in Hf; [by inv_res|]. inv_res.
    eapply IH; [by intros; apply Hsub; right | | exact Hf]. unfold catalog_scope in Hv. cbn [fst snd] in Hv. inv_res.
    match goal with H : lift_policy (feed_zones _ _) = _ |- _ => apply lift_policy_ok in H end.
    match goal with H : lift_policy (compile_policy _ _ _) = _ |- _ => apply lift_policy_ok in H end.
    eapply catalog_rows_sound; [| | | | |exact Ha|]; try done; [apply Hsub; left|]. intros. by eapply token_allows. }
  eapply Hs; [| |exact Hv0]; [done|]. by intros ? ? ?%elem_of_nil.
Qed.

(** ** What an observation may be used for *)

Lemma mapM_res_elem {E A B} (f : A -> result E B) l ys y : mapM_res f l = Ok ys -> y ∈ ys -> exists x, x ∈ l /\ f x = Ok y.
Proof.
  intros H%mapM_res_Forall2 [i Hi]%list_elem_of_lookup_1. destruct (Forall2_lookup_r _ _ _ _ _ H Hi) as (x & Hx & Hf).
  exists x. split; [by eapply list_elem_of_lookup_2 | done].
Qed.

Lemma plan_candidates_sound fp i g sessions planned a p :
  plan_candidates fp i g sessions = Ok planned -> (a, Some p) ∈ planned -> L3Offload.available p = true ->
  a ∈ sessions /\ as_candidate a = true /\ o_same_topology i = true
  /\ exists st, o_topology i = Ok st /\ L3Offload.plan fp (planner_row a) (g_bindings g) st = Ok p.
Proof.
  unfold plan_candidates. destruct (existsb as_candidate sessions); cbn [negb].
  - destruct (mbind _ _) as [out|e] eqn:E.
    + intros [= <-] Hin Hav. inv_res. apply negb_false_iff in Hv2. destruct (mapM_res_elem _ _ _ _ Hv0 Hin) as (x & Hx & Hf).
      destruct (as_candidate x) eqn:Ec; [|done]. inv_res. eauto 10.
    + destruct e; try done. intros H Hin Hav. destruct (mapM_res_elem _ _ _ _ H Hin) as (x & Hx & Hf).
      destruct (as_candidate x); [|done]. cbn in Hf. by inv_res.
  - intros H Hin _. destruct (mapM_res_elem _ _ _ _ H Hin) as (x & Hx & Hf). by destruct (as_candidate x).
Qed.

Lemma lift_fault_ok {A} (r : result fault A) a : lift_fault r = Ok a -> r = Ok a.
Proof. destruct r; cbn; congruence. Qed.

(** A status that acknowledges a generation: available and applied, with its revision and digests. *)
Record acknowledged (value : list (pystr * json)) (g : generation) : Prop := {
  ak_available : get value "available" = JBool true;
  ak_applied : get value "applied" = JBool true;
  ak_revision : jeq (get value "revision") (g_revision g) = true;
  ak_digest : jeq (get value "digest") (g_digest g) = true;
  ak_nat : exists nat, get_or value "nat" (JObj []) = JObj nat /\ get nat "acknowledged" = JBool true
             /\ jeq (get nat "digest") (g_nat_digest g) = true }.

Lemma is_true_eq v : is_true v = true -> v = JBool true.
Proof. by destruct v as [|[]| | | | |]. Qed.

Lemma acknowledgement_sound value g p : acknowledgement value g = Ok p -> acknowledged value g.
Proof.
  unfold acknowledgement. intros H. apply bind_ok_inv in H as ([] & Hv & H). apply bind_ok_inv in H as (v0 & Hv0 & H).
  apply bind_ok_inv in H as ([] & Hv1 & _). apply raise_if_ok_inv in Hv, Hv1. repeat apply orb_false_iff in Hv as [Hv ?]. apply orb_false_iff in Hv1 as [? ?].
  repeat match goal with H : negb _ = false |- _ => apply negb_false_iff in H end.
  unfold as_dict in Hv0. destruct (get_or value "nat" (JObj [])) as [| | | | | |o] eqn:En; try done. apply ok_inj in Hv0 as <-.
  split; try done; try by apply is_true_eq. exists o. split; [done|]. split; [by apply is_true_eq|done].
Qed.

(** C5. Every offload plan an observation hands out is authorised end to end: the connection is live (its last word in
    dump and events carries a token), its token was given by this generation's compiler to an explicit allow rule of the
    saved configuration (a rule with the reserved scope and name of the implicit rule apart), the rule applies between the
    zones of the planned incoming and outgoing interfaces, the connection satisfies every condition of a candidate (no
    inspection among them), the frame of each direction follows the unique best route of the topology that was stable
    across the observation; the status acknowledged exactly this generation, with its NAT digest, before and after the
    observation, by the same producer, and the saved generation had not changed; the journal was trusted, without a fault,
    and holds the metadata of all tokens; and the observation itself never grants hardware admission. *)
Theorem observed_plan_authorised repr identity sort fp nonce i ob a p :
  (forall l, sort l ≡ₚ l) ->
  observe repr identity sort fp nonce i = Ok ob -> (a, Some p) ∈ ob_sessions ob -> L3Offload.available p = true ->
  ob_hardware_admission ob = false /\
  exists g st tok r tokens metadata incoming outgoing fwd rev,
    c_saved (o_context i) = Some g /\ o_topology i = Ok st /\ o_same_topology i = true
    /\ current (key_of (as_row a)) (o_dump i) (o_changes i) = Some (as_row a)
    /\ token (as_row a) = Some tok /\ eligible (as_row a) r
    /\ tokens_for repr (g_root g) (g_token_generation g) = Ok (tokens, metadata)
    /\ describes (g_root g) tokens metadata tok r
    /\ (incoming, outgoing) ∈ fr_pairs r
    /\ next_hop_ok (ip4_text (source (reply (as_row a)))) outgoing (g_bindings g) st fwd
    /\ next_hop_ok (ip4_text (source (original (as_row a)))) incoming (g_bindings g) st rev
    /\ directions p = [fwd; rev]
    /\ acknowledged (c_status (o_context i)) g /\ acknowledged (o_status_after i) g /\ o_unchanged i = true
    /\ (exists after, acknowledgement (o_status_after i) g = Ok after /\ producer_eqb after (ob_producer ob) = true)
    /\ c_trusted (o_context i) = true /\ default [] (c_fault (o_context i)) = []
    /\ forall t md, dget t metadata = Some md -> dget t (c_persisted (o_context i)) = Some md.
Proof.
  intros Hsort H Hin Hav. unfold observe in H. inv_res. destruct v0 as [[g pr] rules]. inv_res. cbn in Hin. split; [done|].
  match goal with H : lift_fault (plan_candidates _ _ _ _) = _ |- _ => apply lift_fault_ok in H end.
  destruct (plan_candidates_sound _ _ _ _ _ _ _ Hv1 Hin Hav) as (Ha & Hc & Ht & st & Hst & Hp). cbn [fst snd] in *.
  apply list_elem_of_In, in_map_iff in Ha as (row & <- & Hrow). apply list_elem_of_In in Hrow.
  assert (Hlive : dget (key_of row) (live_sessions (o_dump i) (o_changes i)) = Some row).
  { apply elem_of_take in Hrow as (n & Hn & _). apply list_elem_of_lookup_2 in Hn.
    apply list_elem_of_In, in_map_iff in Hn as ([k r] & <- & Hkr%list_elem_of_In). rewrite Hsort in Hkr. cbn.
    rewrite <- (live_keys _ _ _ _ Hkr). apply In_dget; [apply live_dict | done]. }
  rewrite live_sessions_current in Hlive.
  pose proof Hc as Hc'. rewrite assess_candidate_iff in Hc'. destruct Hc' as (tok & r & Htok & Hr & Hel).
  unfold context in Hv0. inv_res. destruct (c_saved (o_context i)) as [g'|] eqn:Eg; [|done]. inv_res.
  match goal with H : catalog _ _ _ = Ok ?c |- _ => destruct c as [rl md]; cbn [fst snd] in *; apply catalog_sound in H as (tokens & Htk & Hd) end.
  destruct (plan_available_sound _ _ _ _ _ Hp Hav) as (_ & _ & _ & _ & inc & out & fwd & rev & Hpair & Hdirs & Hin' & Hf & Hb).
  assert (Hrule : as_rule (assess identity row rl (boot_text pr)) = Some r) by (cbn; by rewrite Htok).
  assert (Htr : as_translated (assess identity row rl (boot_text pr)) <> None).
  { destruct Hel as [? ? ? ? ? ? ? ? ? [E1 E2]]. cbn. by rewrite E1, E2. }
  exists g, st, tok, r, tokens, md, inc, out, fwd, rev. do 3 (split; [done|]). split; [exact Hlive|]. do 2 (split; [done|]).
  split; [done|]. split; [apply Hd, dget_In, Hr|].
  unfold planner_row in Hin', Hf, Hb. cbn [interface_pairs original_source translated_destination] in *. rewrite Hrule in Hin'.
  split; [done|]. cbn in Hf, Htr. destruct (complete_tuple _ && complete_tuple _); [|done]. do 3 (split; [done|]).
  apply orb_false_iff in Hv3 as [Hun Hpe]. apply negb_false_iff in Hun, Hpe, Hv8. rewrite Hun in Hv2. apply lift_fault_ok in Hv2, Hv6.
  split; [by eapply acknowledgement_sound|]. split; [by eapply acknowledgement_sound|]. split; [done|]. split; [by eexists|]. split; [done|].
  split; [by destruct (c_fault (o_context i)) as [[|]|]|]. intros t m Hm%dget_In.
  destruct (decide (dget t (c_persisted (o_context i)) = Some m)) as [|Hno]; [done|]. exfalso. apply not_true_iff_false in Hv10. apply Hv10.
  apply existsb_exists. exists (t, m). split; [by apply list_elem_of_In|]. cbn. by rewrite bool_decide_false.
Qed.

(** ** An observation of the sample policy *)

Definition feed_generation : generation := {|
  g_root := plan_root; g_token_generation := 2; g_revision := JInt 7; g_digest := J "d"; g_nat_digest := J "n";
  g_bindings := [(lit "ethernet1/1", demo_binding 2 "dp0"); (lit "ethernet1/2", demo_binding 3 "dp1")] |}.
Definition feed_status : list (pystr * json) :=
  [(lit "available", JBool true); (lit "applied", JBool true); (lit "revision", JInt 7); (lit "digest", J "d");
   (lit "nat", JObj [(lit "acknowledged", JBool true); (lit "digest", J "n")]);
   (lit "collector", JObj [(lit "boot_id", J "b"); (lit "pid", JInt 9); (lit "process_start", JInt 1)])].
Definition feed_metadata : list (Z * rule_meta) :=
  match tokens_for sample_repr plan_root 2 with Ok x => x.2 | Err _ => [] end.
Definition feed_event : ct_event :=
  {| event := EvStart; ct_id := 77; token := Some 4097;
     original := {| source := 3221225993; destination := 3405803783; protocol := 6; source_port := Some 51000; destination_port := Some 443;
                    icmp_id := None; icmp_type := None; icmp_code := None |};
     reply := {| source := 3405803783; destination := 3221225993; protocol := 6; source_port := Some 443; destination_port := Some 51000;
                 icmp_id := None; icmp_type := None; icmp_code := None |};
     count_original := None; count_reply := None; status := Some 14; timeout := Some 300; zone := 0; tcp_state := Some 3 |}.
Definition feed_inputs : observe_inputs := {|
  o_context := {| c_same_namespace := true; c_status := feed_status; c_saved := Some feed_generation; c_trusted := true;
                  c_fault := None; c_persisted := feed_metadata |};
  o_dump := []; o_changes := [feed_event]; o_topology := Ok L3Offload.demo_state; o_topology_again := Ok L3Offload.demo_state;
  o_same_topology := true; o_status_after := feed_status; o_unchanged := true; o_elapsed := QArith_base.Qmake 1 2 |}.
Definition feed_nonce : json := J "0f8fad5b-d9cb-469f-a165-70867728950e".
Definition feed_identity (_ : pystr) (_ : ct_event) : pystr := [].
Definition feed_sort (l : list (session_key * ct_event)) : list (session_key * ct_event) := l.
Definition feed_digest (_ : l3_state) : pystr := [].
Definition feed_observation : observation :=
  match observe sample_repr feed_identity feed_sort feed_digest feed_nonce feed_inputs with
  | Ok ob => ob
  | Err _ => {| ob_producer := {| p_boot_id := JNull; p_pid := JNull; p_process_start := JNull; p_reconciliations := JNull |};
                ob_owned := 0; ob_truncated := false; ob_hardware_admission := false; ob_sessions := [] |}
  end.

Lemma feed_observed : observe sample_repr feed_identity feed_sort feed_digest feed_nonce feed_inputs = Ok feed_observation.
Proof. vm_compute. reflexivity. Qed.

Lemma feed_planned : exists a p, ob_sessions feed_observation = [(a, Some p)] /\ L3Offload.available p = true /\ as_row a = feed_event.
Proof.
  assert (H : map (fun x => (as_row x.1, L3Offload.available <$> x.2)) (ob_sessions feed_observation) = [(feed_event, Some true)])
    by (vm_compute; reflexivity).
  destruct (ob_sessions feed_observation) as [|[a [p|]] [|]]; try done. cbn in H. injection H as H1 H2. by exists a, p.
Qed.

Lemma observed_plan_witness : exists tok r, token feed_event = Some tok /\ eligible feed_event r.
Proof.
  destruct feed_planned as (a & p & Hs & Hp & Ha).
  assert (Hin : (a, Some p) ∈ ob_sessions feed_observation) by (rewrite Hs; left).
  assert (Hsort : forall l, feed_sort l ≡ₚ l) by reflexivity.
  destruct (observed_plan_authorised sample_repr feed_identity feed_sort feed_digest feed_nonce feed_inputs feed_observation a p
    Hsort feed_observed Hin Hp)
    as (_ & g & st & tok & r & tk & md & inc & out & fwd & rev & Hx).
  destruct Hx as (_ & _ & _ & _ & Ht & He & _).
  rewrite Ha in Ht, He. exists tok, r. split; [exact Ht | exact He].
Defined.
