(* ===== verification/JwtKeys.v ===== *)
(** * The keyring of the session-signing key

    [ffn_jwt_keys.py]: one current key signs and verifies, retired keys verify until every token they can have signed
    has expired.  The keyring is a JSON file; a file that is absent or does not parse is [None] here.  Clock readings
    ([int(time.time())]) and fresh secrets ([secrets.token_urlsafe]) are arguments. *)

From S2P Require Import Prelude PyStr PyDict PyIp PyXml PyIp6 PolicyObjects NatPolicy PyJson.

Definition RETIRE_MARGIN_MINUTES : Z := 60.
Definition DEFAULT_LIFETIME_MINUTES : Z := 480.
Definition VERSION : Z := 1.

(** [int(v)]. *)
Definition json_int (v : json) : result fault Z :=
  match v with
  | JInt n => Ok n
  | JBool b => Ok (if b then 1 else 0)
  | JFloat m e => Ok (if 0 <=? e then m * 2 ^ e else Z.quot m (2 ^ (- e)))
  | JStr s => match py_int s with Some n => Ok n | None => Err (Refused "invalid literal for int" [v]) end
  | _ => Err BadType
  end.

Definition empty (secret : pystr) (now : Z) : obj :=
  [(lit "version", JInt VERSION);
   (lit "current", JObj [(lit "secret", JStr secret); (lit "created", JInt now)]);
   (lit "retired", JList [])].

(** [load] on the content of the file. *)
Definition load (file : option json) : option obj :=
  match file with
  | Some (JObj doc) =>
      match get doc "current" with
      | JObj current => if truthy (get current "secret")
                        then Some (if has doc "retired" then doc else doc ++ [(lit "retired", JList [])])
                        else None
      | _ => None
      end
  | _ => None
  end.

(** [_CACHE] and [load_cached]: [stat] is the stamp of the file, [None] when it cannot be read; [read] its content. *)
Record cache := { c_path : option pystr; c_stamp : option (Z * Z * Z); c_doc : option obj }.
Definition no_cache : cache := {| c_path := None; c_stamp := None; c_doc := None |}.
Definition load_cached (path : pystr) (stat : option (Z * Z * Z)) (read : option json) (c : cache) : option obj * cache :=
  if bool_decide (c_path c = Some path) && bool_decide (c_stamp c = stat) then (c_doc c, c)
  else
    let doc := if stat then load read else None in
    (doc, {| c_path := Some path; c_stamp := stat; c_doc := doc |}).

(** [isinstance(k, dict) and k.get('secret') and int(k.get('not_after', 0)) > now]. *)
Definition verifies (now : Z) (k : json) : result fault bool :=
  match k with
  | JObj o => if truthy (get o "secret") then n ← json_int (get_or o "not_after" (JInt 0)); Ok (now <? n) else Ok false
  | _ => Ok false
  end.
Fixpoint live_keys (now : Z) (l : list json) : result fault (list json) :=
  match l with
  | [] => Ok []
  | k :: t => verifies now k ≫= fun b : bool => r ← live_keys now t; Ok (if b then k :: r else r)
  end.

(** [prune]: the keyring and the number of keys dropped. *)
Definition prune (doc : obj) (now : Z) : result fault (obj * Z) :=
  all ← iterate (get_or doc "retired" (JList []));
  keep ← live_keys now all;
  Ok (dset (lit "retired") (JList keep) doc, blen all - blen keep).

Definition secret_of (v : json) : result fault json := match v with JObj o => item o "secret" | _ => Err BadType end.

Definition verification_secrets (doc : option obj) (now : Z) : result fault (list json) :=
  match doc with
  | None | Some [] => Ok []
  | Some doc =>
      current ← item doc "current";
      s ← secret_of current;
      all ← iterate (get_or doc "retired" (JList []));
      keep ← live_keys now all;
      Ok (s :: map (fun k => match k with JObj o => get o "secret" | _ => JNull end) keep)
  end.

Definition signing_secret (doc : option obj) : result fault json :=
  match doc with
  | None | Some [] => Ok JNull
  | Some doc => current ← item doc "current"; secret_of current
  end.

(** [rotate]: [fresh] is the new secret, [spare] the one [empty] draws when there is no keyring. *)
Definition rotate (doc : option obj) (lifetime_minutes margin_minutes : Z) (compromised : bool) (fresh spare : pystr) (now : Z) :
  result fault obj :=
  let doc := match doc with None | Some [] => empty spare now | Some d => d end in
  let old := get doc "current" in
  retired ← iterate (get_or doc "retired" (JList []));
  outgoing ← (if truthy old then
                o ← as_dict old;
                Ok (if truthy (get o "secret") && negb compromised then
                      [JObj [(lit "secret", get o "secret"); (lit "retired", JInt now);
                             (lit "not_after", JInt (now + (lifetime_minutes + margin_minutes) * 60))]]
                    else [])
              else Ok []);
  let retired := if compromised then [] else outgoing ++ retired in
  let doc := dset (lit "retired") (JList retired) doc in
  let doc := dset (lit "current") (JObj [(lit "secret", JStr fresh); (lit "created", JInt now)]) doc in
  let doc := dset (lit "version") (JInt VERSION) doc in
  pd ← prune doc now;
  Ok pd.1.

Definition adopt (existing : pystr) (now : Z) : obj :=
  [(lit "version", JInt VERSION);
   (lit "current", JObj [(lit "secret", JStr existing); (lit "created", JInt now); (lit "adopted", JBool true)]);
   (lit "retired", JList [])].

(** [cmd_init] and [cmd_rotate] on the keyring file: the exit code and the new content. [secret_file] is the content of
    the manager's own secret file, [None] when it cannot be read. *)
Definition init_doc (env_secret secret_file : option pystr) (fresh : pystr) (now : Z) : obj :=
  let existing := match env_secret with Some (c :: s) => c :: s | _ => default [] (strip <$> secret_file) end in
  match existing with [] => empty fresh now | _ => adopt existing now end.
Definition cmd_init (file : option json) (force : bool) (env_secret secret_file : option pystr) (fresh : pystr) (now : Z) :
  Z * option json :=
  if (if load file then true else false) && negb force then (1, file)
  else (0, Some (JObj (init_doc env_secret secret_file fresh now))).
Definition cmd_rotate (file : option json) (lifetime : Z) (compromised : bool) (fresh spare : pystr) (now : Z) :
  result fault (Z * option json) :=
  match load file with
  | None => Ok (1, file)
  | Some doc => d ← rotate (Some doc) lifetime RETIRE_MARGIN_MINUTES compromised fresh spare now; Ok (0, Some (JObj d))
  end.

(** ** Well-formed keyrings *)

Definition live (now : Z) (k : json) : bool := match verifies now k with Ok b => b | Err _ => false end.
Definition key_secret (k : json) : json := match k with JObj o => get o "secret" | _ => JNull end.
(** The expiry of a retired key is a number. *)
Definition entry_ok (k : json) : Prop := forall now, exists b, verifies now k = Ok b.

(** A keyring with current secret [s] and retired entries [l]. *)
Definition ring (doc : obj) (s : pystr) (l : list json) : Prop :=
  s <> [] /\ (exists o, get doc "current" = JObj o /\ dget (lit "secret") o = Some (JStr s))
  /\ get_or doc "retired" (JList []) = JList l /\ Forall entry_ok l.

Lemma live_keys_filter now l : Forall entry_ok l -> live_keys now l = Ok (List.filter (live now) l).
Proof.
  induction 1 as [|k t Hk _ IH]; [done|]. cbn [live_keys List.filter]. unfold live at 1. destruct (Hk now) as [b ->].
  rewrite IH. by destruct b.
Qed.

Lemma Forall_List_filter {A} (P : A -> Prop) f l : Forall P l -> Forall P (List.filter f l).
Proof. induction 1; cbn; [constructor|]. by case_ifs; [constructor|]. Qed.

Lemma dget_item {doc : obj} {k v} : get doc k = v -> v <> JNull -> dget (lit k) doc = Some v.
Proof. unfold get, jget. destruct (dget _ _); cbn; congruence. Qed.

Lemma ring_nonempty doc s l : ring doc s l -> exists kv t, doc = kv :: t.
Proof. intros (_ & (o & Ho & _) & _). destruct doc; [done | eauto]. Qed.

Lemma ring_verification doc s l now : ring doc s l ->
  verification_secrets (Some doc) now = Ok (JStr s :: map key_secret (List.filter (live now) l)).
Proof.
  intros Hr. destruct (ring_nonempty _ _ _ Hr) as (kv & t & E). destruct Hr as (Hs & (o & Ho & Hso) & Hl & Hf).
  unfold verification_secrets. rewrite E. rewrite <- E. unfold item at 1. rewrite (dget_item Ho) by done.
  cbn [mbind result_bind secret_of]. unfold item. rewrite Hso, Hl. cbn [iterate iter_json mbind result_bind].
  by rewrite live_keys_filter.
Qed.

Lemma ring_signing doc s l : ring doc s l -> signing_secret (Some doc) = Ok (JStr s).
Proof.
  intros Hr. destruct (ring_nonempty _ _ _ Hr) as (kv & t & E). destruct Hr as (Hs & (o & Ho & Hso) & _).
  unfold signing_secret. rewrite E, <- E. unfold item at 1. rewrite (dget_item Ho) by done.
  cbn [mbind result_bind secret_of]. unfold item. by rewrite Hso.
Qed.

Definition retired_entry (s : json) (now until : Z) : json :=
  JObj [(lit "secret", s); (lit "retired", JInt now); (lit "not_after", JInt until)].

Lemma retired_entry_verifies s now until t : s <> [] -> verifies t (retired_entry (JStr s) now until) = Ok (t <? until).
Proof. by destruct s. Qed.

Lemma ring_rotate doc s l L M compromised fresh spare now :
  ring doc s l -> fresh <> [] ->
  exists doc', rotate (Some doc) L M compromised fresh spare now = Ok doc' /\
    ring doc' fresh (if compromised then [] else
      List.filter (live now) (retired_entry (JStr s) now (now + (L + M) * 60) :: l)).
Proof.
  intros Hr Hfresh. destruct (ring_nonempty _ _ _ Hr) as (kv & t & E). destruct Hr as (Hs & (o & Ho & Hso) & Hl & Hf).
  unfold rotate. rewrite E, <- E, Ho, Hl. cbn [iterate iter_json mbind result_bind].
  assert (Hto : truthy (JObj o) = true) by (by destruct o). rewrite Hto. cbn [as_dict mbind result_bind].
  assert (Hg : get o "secret" = JStr s) by (unfold get, jget; by rewrite Hso). rewrite Hg.
  assert (Hts : truthy (JStr s) = true) by (by destruct s). rewrite Hts. cbn [andb].
  set (l' := if compromised then [] else _).
  assert (Hl' : Forall entry_ok l').
  { subst l'. destruct compromised; cbn; [constructor|]. constructor; [|done].
    intros n. by eexists; apply retired_entry_verifies. }
  unfold prune, get_or, jget_default.
  rewrite dget_dset_ne, dget_dset_ne, dget_dset_eq by (by vm_compute). cbn [default from_option id iterate iter_json mbind result_bind].
  rewrite live_keys_filter by done. cbn [mbind result_bind fst]. eexists. split; [done|].
  assert (Hfin : List.filter (live now) l' = if compromised then [] else
    List.filter (live now) (retired_entry (JStr s) now (now + (L + M) * 60) :: l)) by (subst l'; by destruct compromised).
  rewrite <- Hfin. split; [done|]. split; [|split].
  - exists [(lit "secret", JStr fresh); (lit "created", JInt now)]. split; [|reflexivity]. unfold get, jget. by rewrite dget_dset_ne, dget_dset_ne, dget_dset_eq by (by vm_compute).
  - unfold get_or, jget_default. by rewrite dget_dset_eq.
  - by apply Forall_List_filter.
Qed.

(** ** Rotation *)

(** A sequence of ordinary rotations: time, lifetime in minutes and fresh secret of each. *)
Definition rotations (spare : pystr) (rs : list (Z * Z * pystr)) (doc : obj) : result fault obj :=
  foldM_res (fun d r => rotate (Some d) r.1.2 RETIRE_MARGIN_MINUTES false r.2 spare r.1.1) doc rs.

(** The key [s] verifies at every time up to [t]. *)
Definition covered (t : Z) (s : pystr) (doc : obj) : Prop :=
  exists cur l, ring doc cur l /\ (cur = s \/ exists now until, retired_entry (JStr s) now until ∈ l /\ t < until).

Lemma elem_List_filter {A} (f : A -> bool) l x : x ∈ List.filter f l <-> x ∈ l /\ f x = true.
Proof. rewrite !list_elem_of_In. apply filter_In. Qed.

Lemma rotate_covered t s doc L fresh spare now : s <> [] -> fresh <> [] ->
  covered t s doc -> now <= t -> t < now + (L + RETIRE_MARGIN_MINUTES) * 60 ->
  exists doc', rotate (Some doc) L RETIRE_MARGIN_MINUTES false fresh spare now = Ok doc' /\ covered t s doc'.
Proof.
  intros Hs Hfresh (cur & l & Hr & Hc) Hnow Ht. pose proof Hr as (Hcur & _).
  destruct (ring_rotate doc cur l L RETIRE_MARGIN_MINUTES false fresh spare now Hr Hfresh) as (doc' & -> & Hr').
  exists doc'. split; [done|]. exists fresh. eexists. split; [exact Hr'|]. right. destruct Hc as [->|(n & u & Hin & Hu)].
  - exists now, (now + (L + RETIRE_MARGIN_MINUTES) * 60). split; [|done]. apply elem_List_filter. split; [left|].
    unfold live. rewrite retired_entry_verifies by done. apply Z.ltb_lt. lia.
  - exists n, u. split; [|done]. apply elem_List_filter. split; [by right|].
    unfold live. rewrite retired_entry_verifies by done. apply Z.ltb_lt. lia.
Qed.

Lemma covered_verifies t s doc : s <> [] -> covered t s doc ->
  exists ks, verification_secrets (Some doc) t = Ok ks /\ JStr s ∈ ks.
Proof.
  intros Hs (cur & l & Hr & Hc). rewrite (ring_verification _ _ _ _ Hr). eexists. split; [done|].
  destruct Hc as [->|(n & u & Hin & Hu)]; [left|]. right. apply list_elem_of_In, in_map_iff. exists (retired_entry (JStr s) n u).
  split; [done|]. apply list_elem_of_In, elem_List_filter. split; [done|]. unfold live.
  rewrite retired_entry_verifies by done. by apply Z.ltb_lt.
Qed.

Lemma rotations_covered spare rs t0 t life : forall doc s,
  s <> [] -> covered t s doc ->
  Forall (fun r => t0 <= r.1.1 <= t /\ life <= r.1.2 /\ r.2 <> []) rs -> t < t0 + life * 60 ->
  exists doc', rotations spare rs doc = Ok doc' /\ covered t s doc'.
Proof.
  unfold rotations. induction rs as [|r rs IH]; intros doc s Hs Hc Hf Ht; cbn [foldM_res]; [by exists doc|].
  destruct r as [[now L] fresh]. inversion Hf as [|? ? (Hb & Hl & Hfresh) Hf']; subst. cbn [fst snd] in *.
  destruct (rotate_covered t s doc L fresh spare now Hs Hfresh Hc) as (d & -> & Hd);
    [lia | unfold RETIRE_MARGIN_MINUTES; lia|]. cbn [mbind result_bind]. by apply IH.
Qed.

Lemma rotation_secret doc s l spare rs t0 t life :
  ring doc s l -> Forall (fun r => t0 <= r.1.1 <= t /\ life <= r.1.2 /\ r.2 <> []) rs -> t < t0 + life * 60 ->
  exists doc' ks, rotations spare rs doc = Ok doc' /\ verification_secrets (Some doc') t = Ok ks /\ JStr s ∈ ks.
Proof.
  intros Hr Hf Ht. pose proof Hr as (Hs & _).
  destruct (rotations_covered spare rs t0 t life doc s) as (doc' & Hd & Hc); [done | by exists s, l; auto | done | done |].
  destruct (covered_verifies t s doc' Hs Hc) as (ks & Hks & Hin). by exists doc', ks.
Qed.

(** Scheduled rotation logs nobody out: whatever rotations happen between the moment a token is signed and the
    moment it is presented, as long as each is told a lifetime at least the token's, none of them fails and the key the
    token was signed with is still among the verification secrets until the token's lifetime has passed. *)
Theorem rotation_keeps_signing_key doc s l spare rs t0 t life :
  ring doc s l -> Forall (fun r => t0 <= r.1.1 <= t /\ life <= r.1.2 /\ r.2 <> []) rs -> t < t0 + life * 60 ->
  signing_secret (Some doc) = Ok (JStr s) /\
  exists doc' ks, rotations spare rs doc = Ok doc' /\ verification_secrets (Some doc') t = Ok ks /\ JStr s ∈ ks.
Proof.
  intros Hr Hf Ht. split; [by eapply ring_signing | by eapply rotation_secret].
Qed.

(** The overlap is exact and a compromised key has none: after an ordinary rotation the outgoing key verifies at
    precisely the times before retirement plus lifetime plus margin (unless the ring holds the same secret twice), and
    after a rotation marked compromised the fresh key is the only one that verifies, at any time. *)
Theorem rotation_overlap_exact doc s l L compromised fresh spare now :
  ring doc s l -> fresh <> [] -> s <> fresh -> JStr s ∉ map key_secret l -> 0 < L + RETIRE_MARGIN_MINUTES ->
  exists doc', rotate (Some doc) L RETIRE_MARGIN_MINUTES compromised fresh spare now = Ok doc' /\
    signing_secret (Some doc') = Ok (JStr fresh) /\
    forall t, exists ks, verification_secrets (Some doc') t = Ok ks /\
      if compromised then ks = [JStr fresh] else (JStr s ∈ ks <-> t < now + (L + RETIRE_MARGIN_MINUTES) * 60).
Proof.
  intros Hr Hfresh Hne Hnot HL. pose proof Hr as (Hs & _).
  destruct (ring_rotate doc s l L RETIRE_MARGIN_MINUTES compromised fresh spare now Hr Hfresh) as (doc' & -> & Hr').
  exists doc'. split; [done|]. split; [by eapply ring_signing|]. intros t. rewrite (ring_verification _ _ _ _ Hr').
  eexists. split; [done|]. destruct compromised; [done|]. set (u := now + _).
  assert (Hk : forall b, verifies b (retired_entry (JStr s) now u) = Ok (b <? u)) by (intros; by apply retired_entry_verifies).
  split.
  - intros [[= E]|Hin]%elem_of_cons; [done|]. apply list_elem_of_In, in_map_iff in Hin as (k & Hks & Hin).
    apply list_elem_of_In, elem_List_filter in Hin as [[Hin _]%elem_List_filter Hlive].
    apply elem_of_cons in Hin as [->|Hin]; [|by destruct Hnot; rewrite <- Hks; apply list_elem_of_In, in_map, list_elem_of_In].
    unfold live in Hlive. rewrite Hk in Hlive. by apply Z.ltb_lt.
  - intros Ht. right. apply list_elem_of_In, in_map_iff. exists (retired_entry (JStr s) now u). split; [done|].
    apply list_elem_of_In, elem_List_filter. split; [apply elem_List_filter; split; [left|]|]; unfold live; rewrite Hk; apply Z.ltb_lt;
      [unfold u; lia | done].
Qed.

(** ** The cache *)

(** Files never change without changing their stamp: [content] gives what a stamp's file holds. *)
Section Cache.
Context (path : pystr) (content : Z * Z * Z -> option json).

Definition fresh_load (stat : option (Z * Z * Z)) : option obj := match stat with Some st => load (content st) | None => None end.
Definition read_at (stat : option (Z * Z * Z)) : option json := match stat with Some st => content st | None => None end.
Definition cache_ok (c : cache) : Prop := c_path c = Some path -> c_doc c = fresh_load (c_stamp c).

Fixpoint cached_reads (stats : list (option (Z * Z * Z))) (c : cache) : list (option obj) :=
  match stats with
  | [] => []
  | st :: t => let '(d, c') := load_cached path st (read_at st) c in d :: cached_reads t c'
  end.

Lemma load_cached_ok st c : cache_ok c ->
  (load_cached path st (read_at st) c).1 = fresh_load st /\ cache_ok (load_cached path st (read_at st) c).2.
Proof.
  intros Hc. unfold load_cached. destruct (bool_decide (c_path c = Some path)) eqn:Ep; cbn [andb].
  - apply bool_decide_eq_true in Ep. case_bool_decide as Es; cbn [fst snd]; [|by destruct st].
    split; [|done]. rewrite <- Es. by apply Hc.
  - cbn [fst snd]. by destruct st.
Qed.

Lemma cached_reads_fresh stats c : cache_ok c -> cached_reads stats c = map fresh_load stats.
Proof.
  revert c; induction stats as [|st t IH]; intros c Hc; [done|]. cbn [cached_reads map].
  destruct (load_cached_ok st c Hc) as [H1 H2]. destruct (load_cached _ _ _ _) as [d c']. cbn [fst snd] in *. by rewrite H1, IH.
Qed.
End Cache.

Definition demo_ring : obj := adopt (lit "first-secret") 1000000.
Lemma demo_ring_ok : ring demo_ring (lit "first-secret") [].
Proof. split; [done|]. split; [by eexists|]. split; [done | constructor]. Qed.

Lemma rotation_keeps_witness : exists doc' ks,
  rotations [] [(1000060, 480, lit "second"); (1020000, 480, lit "third")] demo_ring = Ok doc' /\
  verification_secrets (Some doc') 1028799 = Ok ks /\ JStr (lit "first-secret") ∈ ks.
Proof.
  apply (rotation_keeps_signing_key demo_ring _ _ [] _ 1000000 1028799 480 demo_ring_ok); [|lia].
  repeat constructor; cbn; first [lia | done].
Defined.

Lemma rotation_overlap_witness : exists doc',
  rotate (Some demo_ring) 480 RETIRE_MARGIN_MINUTES true (lit "new") [] 1000060 = Ok doc' /\
  verification_secrets (Some doc') 1000060 = Ok [JStr (lit "new")].
Proof.
  destruct (rotation_overlap_exact demo_ring (lit "first-secret") [] 480 true (lit "new") [] 1000060 demo_ring_ok)
    as (doc' & Hd & _ & Hk); [done | done | apply not_elem_of_nil | by vm_compute|].
  exists doc'. split; [done|]. destruct (Hk 1000060) as (ks & Hks & ->). done.
Defined.
