(* ===== verification/Accounts.v ===== *)
(** * Administrators: accounts, tokens and authorisation

    The account part of [ffn_manager.py] (token helpers, sign-in, password change, user management, the peer-credential
    socket), [ffn_authorization.py] and [ffn_console_identity.py].  A handler takes the account database and returns
    the new one with its response, or an HTTP error that leaves the database as it was.  Password hashing (passlib) and
    JWT (python-jose) are interfaces with the laws their documentation states; the keyring is [JwtKeys]. *)

From S2P Require Import Prelude PyStr PyDict PyIp PyXml PyIp6 PolicyObjects PyJson JwtKeys.

(** ** Third parties *)

Class PasswordContext := {
  pw_hash : pystr -> pystr;
  pw_verify : pystr -> pystr -> bool;
  pw_hash_verifies : forall p, pw_verify p (pw_hash p) = true }.

Record claims := { c_sub : json; c_role : pystr; c_exp : Z; c_pwc : bool }.

(** [jwt.encode(claims, secret)] and [jwt.decode(token, secret)] at a time; [None] is a [JWTError].  A token verifies
    under its own key until it expires, and under no other. *)
Class JwtCodec := {
  token : Type;
  jwt_encode : claims -> pystr -> token;
  jwt_decode : token -> pystr -> Z -> option claims;
  jwt_own_key : forall c s now, now <= c_exp c -> jwt_decode (jwt_encode c s) s now = Some c;
  jwt_expired : forall c s now, c_exp c < now -> jwt_decode (jwt_encode c s) s now = None;
  jwt_other_key : forall c s s' now, s <> s' -> jwt_decode (jwt_encode c s) s' now = None }.

(** ** State *)

Record user_row := {
  u_id : Z; u_name : pystr; u_hash : pystr; u_role : pystr; u_must_change : bool; u_last_login : option Z }.
Record accounts := { users : list user_row; next_id : Z; audit_log : list (pystr * string * list json) }.

Inductive http := HTTP (code : Z) (detail : string) | Crash.

Definition by_name (name : pystr) (db : accounts) : option user_row := find (fun u => bool_decide (u_name u = name)) (users db).
Definition by_id (i : Z) (db : accounts) : option user_row := find (fun u => u_id u =? i) (users db).
Definition audit (who : pystr) (action : string) (detail : list json) (db : accounts) : accounts :=
  {| users := users db; next_id := next_id db; audit_log := audit_log db ++ [(who, action, detail)] |}.
(** [UPDATE users SET ... WHERE p]. *)
Definition update_where (p : user_row -> bool) (f : user_row -> user_row) (db : accounts) : accounts :=
  {| users := map (fun u => if p u then f u else u) (users db); next_id := next_id db; audit_log := audit_log db |}.
Definition set_login (now : Z) (u : user_row) : user_row :=
  {| u_id := u_id u; u_name := u_name u; u_hash := u_hash u; u_role := u_role u; u_must_change := u_must_change u; u_last_login := Some now |}.

(** ** Secrets and tokens *)

(** [_load_jwt_secret]: the environment, else the file, else a fresh secret if it can be written. *)
Definition load_jwt_secret (env file : option pystr) (generated : pystr) (writable : bool) : option (pystr * option pystr) :=
  match env with
  | Some (c :: t) => Some (c :: t, file)
  | _ => match strip <$> file with
         | Some (c :: t) => Some (c :: t, file)
         | _ => if writable then Some (generated, Some (generated ++ [10])) else None
         end
  end.

Definition JWT_EXPIRE_MINUTES : Z := 480.

(** What the process holds: its own secret and the keyring [load_cached] returned ([None] also when the keyring module
    is not deployed). *)
Record signer := { own_secret : pystr; keyring : option obj }.
Definition text_secret (v : json) : result http pystr := match v with JStr s => Ok s | _ => Err Crash end.
Definition or_crash {A} (r : result fault A) : result http A := match r with Ok a => Ok a | Err _ => Err Crash end.

Definition _signing_secret (k : signer) : result http pystr :=
  match keyring k with
  | Some (x :: t) => v ← or_crash (signing_secret (Some (x :: t))); text_secret v
  | _ => Ok (own_secret k)
  end.
Definition _verification_secrets (k : signer) (now : Z) : result http (list json) :=
  match keyring k with
  | Some (x :: t) => or_crash (verification_secrets (Some (x :: t)) now)
  | _ => Ok [JStr (own_secret k)]
  end.

Section Api.
Context {PW : PasswordContext} {JW : JwtCodec}.

Definition create_token (k : signer) (now : Z) (username role : pystr) (pw_change_only : bool) : result http token :=
  s ← _signing_secret k;
  Ok (jwt_encode {| c_sub := JStr username; c_role := role; c_exp := now + JWT_EXPIRE_MINUTES * 60; c_pwc := pw_change_only |} s).

(** The loop over the secrets. *)
Fixpoint try_secrets (tok : token) (now : Z) (l : list json) : result http (option claims) :=
  match l with
  | [] => Ok None
  | v :: t =>
      s ← text_secret v;
      match jwt_decode tok s now with
      | Some c => Ok (Some c)
      | None => try_secrets tok now t
      end
  end.

Definition PW_CHANGE_ALLOWED_PATHS : list pystr := [lit "/api/auth/change-password"; lit "/api/auth/me"].

Record identity := { i_name : pystr; i_role : pystr; i_pw_change_required : bool }.

Definition _authenticate_token (k : signer) (now : Z) (db : accounts) (tok : token) (path : pystr) : result http identity :=
  l ← _verification_secrets k now;
  payload ← try_secrets tok now l;
  match payload with
  | None => Err (HTTP 401 "Invalid token")
  | Some c =>
      match c_sub c with
      | JStr (x :: name) =>
          match by_name (x :: name) db with
          | None => Err (HTTP 401 "Invalid token")
          | Some row =>
              let required := c_pwc c || u_must_change row in
              if required && negb (bool_decide (path ∈ PW_CHANGE_ALLOWED_PATHS))
              then Err (HTTP 403 "Password change required before using this API")
              else Ok {| i_name := x :: name; i_role := u_role row; i_pw_change_required := required |}
          end
      | _ => Err (HTTP 401 "Invalid token")
      end
  end.

(** ** Authorisation *)

Definition ADMIN_ROLES : list pystr := [lit "admin"; lit "superuser"].
Definition ROLES : list pystr := ADMIN_ROLES ++ [lit "operator"; lit "read-only"].
Definition READ_POSTS : list pystr :=
  map (fun kind => lit "/api/config/policies/" ++ lit kind ++ lit "/test") ["security"; "nat"; "qos"; "pbf"; "decryption"]%string.

Definition authorize (method path : pystr) (user : identity) : result http identity :=
  if negb (bool_decide (i_role user ∈ ROLES)) then Err (HTTP 403 "Unknown administrator role")
  else if bool_decide (method ∈ [lit "GET"; lit "HEAD"; lit "OPTIONS"]) then Ok user
  else if bool_decide (method = lit "POST") && (bool_decide (path ∈ READ_POSTS) || bool_decide (path = lit "/api/auth/change-password"))
  then Ok user
  else if negb (bool_decide (i_role user ∈ ADMIN_ROLES))
  then Err (HTTP 403 "Changing configuration or operating services requires admin or superuser role")
  else Ok user.

(** [authorization[7:]] of a [Bearer] header; [None] stands for any other header. *)
Definition get_current_user (k : signer) (now : Z) (db : accounts) (bearer : option token) (method path : pystr) : result http identity :=
  match bearer with
  | None => Err (HTTP 401 "Not authenticated")
  | Some tok => u ← _authenticate_token k now db tok path; authorize method path u
  end.

(** [console_user] for a peer uid; [passwd] is the system account table. *)
Definition console_user (passwd : Z -> option pystr) (uid : Z) (path : pystr) (db : accounts) : result http identity :=
  if uid <? 0 then Err (HTTP 401 "Invalid console identity")
  else if uid =? 0 then Ok {| i_name := lit "root"; i_role := lit "superuser"; i_pw_change_required := false |}
  else match passwd uid with
  | None => Err (HTTP 401 "Unknown console identity")
  | Some name =>
      match by_name name db with
      | None => Err (HTTP 403 "No FFN administrator account for this console identity")
      | Some row =>
          if u_must_change row && negb (bool_decide (path ∈ PW_CHANGE_ALLOWED_PATHS))
          then Err (HTTP 403 "Password change required before using control functions")
          else Ok {| i_name := name; i_role := u_role row; i_pw_change_required := u_must_change row |}
      end
  end.

(** ** Handlers *)

Inductive response :=
| RToken (tok : token) (username role : pystr) (must_change : bool)
| RUser (u : identity)
| RUsers (l : list (Z * pystr * pystr * bool))
| RCreated (i : Z)
| RStatus (s : string).

(** A handler's effect and its answer: what was committed stays, also when a later statement raises. *)
Abbreviation answer := (accounts * result http response)%type (only parsing).

Definition login (k : signer) (now : Z) (username password : pystr) (db : accounts) : answer :=
  match by_name username db with
  | Some u =>
      if negb (pw_verify password (u_hash u)) then (db, Err (HTTP 401 "Invalid credentials")) else
      (audit username "login" [] (update_where (fun r => u_id r =? u_id u) (set_login now) db),
       tok ← create_token k now (u_name u) (u_role u) (u_must_change u);
       Ok (RToken tok (u_name u) (u_role u) (u_must_change u)))
  | None => (db, Err (HTTP 401 "Invalid credentials"))
  end.

(** The socket of [_cli_auth_conn]; the text of an error is its reply. *)
Definition cli_auth (k : signer) (now : Z) (passwd : Z -> option pystr) (uid : Z) (db : accounts) : answer :=
  match passwd uid with
  | Some (c :: name) =>
      match by_name (c :: name) db with
      | Some u =>
          (audit (c :: name) "login (local peercred)" [] (update_where (fun r => u_id r =? u_id u) (set_login now) db),
           tok ← create_token k now (u_name u) (u_role u) false;
           Ok (RToken tok (u_name u) (u_role u) false))
      | None => (db, Err (HTTP 0 "no FFN user "))
      end
  | _ => (db, Err (HTTP 0 "uid has no local account"))
  end.

Definition change_password (k : signer) (now : Z) (user : identity) (current new : pystr) (db : accounts) : answer :=
  match by_name (i_name user) db with
  | Some row =>
      if negb (pw_verify current (u_hash row)) then (db, Err (HTTP 400 "Current password incorrect")) else
      (audit (i_name user) "change_password" []
         (update_where (fun r => bool_decide (u_name r = i_name user))
            (fun r => {| u_id := u_id r; u_name := u_name r; u_hash := pw_hash new; u_role := u_role r;
                         u_must_change := false; u_last_login := u_last_login r |}) db),
       tok ← create_token k now (i_name user) (i_role user) false;
       Ok (RToken tok (i_name user) (i_role user) false))
  | None => (db, Err (HTTP 400 "Current password incorrect"))
  end.

(** The checks of a handler, then its effect. *)
Definition checked {A} (db : accounts) (check : result http A) (write : A -> accounts * response) : answer :=
  match check with Ok a => ((write a).1, Ok (write a).2) | Err e => (db, Err e) end.

Definition _require_admin (user : identity) : result http unit :=
  raise_if (negb (bool_decide (i_role user ∈ ADMIN_ROLES))) (HTTP 403 "Requires admin or superuser role").
Definition is_admin (u : user_row) : bool := bool_decide (u_role u ∈ ADMIN_ROLES).
Definition _admin_count (db : accounts) : nat := length (List.filter is_admin (users db)).

Definition list_users (user : identity) (db : accounts) : answer :=
  checked db (_require_admin user) (fun _ =>
    (db, RUsers (map (fun u => (u_id u, u_name u, u_role u, u_must_change u)) (users db)))).

(** [validate] is [validate_username] where console identities are enabled. The duplicate is the database's refusal. *)
Definition create_check (validate : option (pystr -> bool)) (user : identity) (username password role : pystr) (db : accounts) :
  result http pystr :=
  _ ← _require_admin user;
  let uname := strip username in
  _ ← raise_if (match validate with Some v => negb (v uname) | None => false end) (HTTP 422 "Use a non-root console username");
  _ ← raise_if (bool_decide (uname = [])) (HTTP 400 "username is required");
  _ ← raise_if (negb (bool_decide (role ∈ ROLES))) (HTTP 400 "invalid role");
  _ ← raise_if (blen password <? 6) (HTTP 400 "password must be at least 6 characters");
  _ ← raise_if (match by_name uname db with Some _ => true | None => false end) (HTTP 409 "user already exists");
  Ok uname.
Definition create_user (validate : option (pystr -> bool)) (user : identity) (username password role : pystr) (must_change : bool)
    (db : accounts) : answer :=
  checked db (create_check validate user username password role db) (fun uname =>
    (audit (i_name user) "user_create" [JStr uname]
       {| users := users db ++ [{| u_id := next_id db; u_name := uname; u_hash := pw_hash password; u_role := role;
                                   u_must_change := must_change; u_last_login := None |}];
          next_id := next_id db + 1; audit_log := audit_log db |}, RCreated (next_id db))).

Record user_update := { up_role : option pystr; up_password : option pystr; up_must_change : option bool }.

(** [update_user] up to its [UPDATE]: the row, or the refusal.  Other requests run at its [await]s. *)
Definition update_check (user : identity) (i : Z) (req : user_update) (db : accounts) : result http user_row :=
  _ ← _require_admin user;
  match by_id i db with
  | None => Err (HTTP 404 "user not found")
  | Some row =>
      _ ← match up_role req with
          | Some role =>
              _ ← raise_if (negb (bool_decide (role ∈ ROLES))) (HTTP 400 "invalid role");
              raise_if (is_admin row && negb (bool_decide (role ∈ ADMIN_ROLES)) && (_admin_count db <=? 1)%nat)
                (HTTP 400 "cannot demote the last administrator")
          | None => Ok tt
          end;
      _ ← raise_if (match up_password req with Some p => blen p <? 6 | None => false end)
            (HTTP 400 "password must be at least 6 characters");
      Ok row
  end.
Definition apply_update (req : user_update) (r : user_row) : user_row :=
  {| u_id := u_id r; u_name := u_name r; u_hash := match up_password req with Some p => pw_hash p | None => u_hash r end;
     u_role := default (u_role r) (up_role req); u_must_change := default (u_must_change r) (up_must_change req);
     u_last_login := u_last_login r |}.
(** The [UPDATE], its commit and the audit line. *)
Definition update_write (user : identity) (i : Z) (req : user_update) (row : user_row) (db : accounts) : accounts * response :=
  match up_role req, up_password req, up_must_change req with
  | None, None, None => (db, RStatus "noop")
  | _, _, _ => (audit (i_name user) "user_update" [JInt i; JStr (u_name row)] (update_where (fun r => u_id r =? i) (apply_update req) db),
                RStatus "updated")
  end.
Definition update_user (user : identity) (i : Z) (req : user_update) (db : accounts) : answer :=
  checked db (update_check user i req db) (fun row => update_write user i req row db).

Definition delete_check (user : identity) (i : Z) (db : accounts) : result http user_row :=
  _ ← _require_admin user;
  match by_id i db with
  | None => Err (HTTP 404 "user not found")
  | Some row =>
      _ ← raise_if (bool_decide (u_name row = i_name user)) (HTTP 400 "cannot delete your own account");
      _ ← raise_if (is_admin row && (_admin_count db <=? 1)%nat) (HTTP 400 "cannot delete the last administrator");
      Ok row
  end.
Definition delete_write (user : identity) (i : Z) (row : user_row) (db : accounts) : accounts * response :=
  (audit (i_name user) "user_delete" [JStr (u_name row)]
     {| users := List.filter (fun u => negb (u_id u =? i)) (users db); next_id := next_id db; audit_log := audit_log db |},
   RStatus "deleted").
Definition delete_user (user : identity) (i : Z) (db : accounts) : answer :=
  checked db (delete_check user i db) (fun row => delete_write user i row db).

(** ** The service: authentication, authorisation and the handler *)

Inductive call :=
| Login (username password : pystr)
| CliAuth (uid : Z)
| Me
| ChangePassword (current new : pystr)
| ListUsers
| CreateUser (username password role : pystr) (must_change : bool)
| UpdateUser (i : Z) (req : user_update)
| DeleteUser (i : Z).

Definition user_path (i : Z) : pystr := lit "/api/users/" ++ (if i <? 0 then 45 :: nat_text (- i) else nat_text i).
Definition endpoint (c : call) : pystr * pystr :=
  match c with
  | Login _ _ => (lit "POST", lit "/api/auth/login")
  | CliAuth _ => ([], [])
  | Me => (lit "GET", lit "/api/auth/me")
  | ChangePassword _ _ => (lit "POST", lit "/api/auth/change-password")
  | ListUsers => (lit "GET", lit "/api/users")
  | CreateUser _ _ _ _ => (lit "POST", lit "/api/users")
  | UpdateUser i _ => (lit "PUT", user_path i)
  | DeleteUser i => (lit "DELETE", user_path i)
  end.

Record request := { rq_signer : signer; rq_now : Z; rq_bearer : option token; rq_call : call }.

Section Service.
Context (passwd : Z -> option pystr) (validate : option (pystr -> bool)).

Definition handle (db : accounts) (r : request) : answer :=
  let k := rq_signer r in
  let now := rq_now r in
  let authenticated (f : identity -> answer) :=
    match get_current_user k now db (rq_bearer r) (endpoint (rq_call r)).1 (endpoint (rq_call r)).2 with
    | Ok u => f u
    | Err e => (db, Err e)
    end in
  match rq_call r with
  | Login n p => login k now n p db
  | CliAuth uid => cli_auth k now passwd uid db
  | Me => authenticated (fun u => (db, Ok (RUser u)))
  | ChangePassword c n => authenticated (fun u => change_password k now u c n db)
  | ListUsers => authenticated (fun u => list_users u db)
  | CreateUser n p r m => authenticated (fun u => create_user validate u n p r m db)
  | UpdateUser i q => authenticated (fun u => update_user u i q db)
  | DeleteUser i => authenticated (fun u => delete_user u i db)
  end.

(** The database after a sequence of requests, one after the other. *)
Definition history (db : accounts) (rs : list request) : accounts := fold_left (fun d r => (handle d r).1) rs db.
End Service.

(** ** Accounts are consistent, and an administrator remains *)

Record accounts_ok (db : accounts) : Prop := {
  ao_ids : NoDup (u_id <$> users db);
  ao_fresh : Forall (fun u => u_id u < next_id db) (users db);
  ao_names : NoDup (u_name <$> users db);
  ao_roles : Forall (fun u => u_role u ∈ ROLES) (users db) }.

Definition keeps (f : user_row -> user_row) : Prop := forall r, u_id (f r) = u_id r /\ u_name (f r) = u_name r.

Lemma map_keep {A} (g : user_row -> A) (p : user_row -> bool) (f : user_row -> user_row) l : (forall r, g (f r) = g r) -> g <$> map (fun u => if p u then f u else u) l = g <$> l.
Proof.
  intros H. induction l as [|u t IH]; [done|]. cbn [map]. rewrite !fmap_cons, IH. by destruct (p u); rewrite ?H.
Qed.

Lemma audit_ok who a d db : accounts_ok (audit who a d db) <-> accounts_ok db.
Proof. split; intros []; by constructor. Qed.

Lemma update_ok p f db : keeps f -> (forall r, r ∈ users db -> p r = true -> u_role (f r) ∈ ROLES) ->
  accounts_ok db -> accounts_ok (update_where p f db).
Proof.
  intros Hk Hr [I F N R]. constructor; cbn.
  - by rewrite map_keep by apply Hk.
  - rewrite Forall_map. eapply Forall_impl; [exact F|]. intros u Hu. cbn. destruct (p u); [by destruct (Hk u) as [-> _] | done].
  - by rewrite map_keep by apply Hk.
  - rewrite Forall_map, Forall_forall in *. intros u Hu. cbn. destruct (p u) eqn:E; auto.
Qed.

Lemma admin_count_spec db : (1 <= _admin_count db)%nat <-> exists u, u ∈ users db /\ is_admin u = true.
Proof.
  unfold _admin_count. split.
  - intros H. destruct (List.filter is_admin (users db)) as [|u t] eqn:E; [cbn in H; lia|]. exists u.
    rewrite list_elem_of_In. apply filter_In. rewrite E. by left.
  - intros (u & Hu & Ha). assert (Hin : In u (List.filter is_admin (users db))) by (apply filter_In; by rewrite <- list_elem_of_In).
    destruct (List.filter is_admin (users db)); [done | cbn; lia].
Qed.

(** At least two administrators and unique ids: one of them is not the row [i]. *)
Lemma other_admin db i : accounts_ok db -> (2 <= _admin_count db)%nat ->
  exists u, u ∈ users db /\ is_admin u = true /\ u_id u <> i.
Proof.
  intros [I _ _ _] Hc. unfold _admin_count in Hc. revert I Hc. induction (users db) as [|u t IH]; cbn; [lia|].
  rewrite NoDup_cons. intros [Hn I]. destruct (is_admin u) eqn:Ea; cbn.
  - intros Hc. destruct (decide (u_id u = i)) as [<-|Hne]; [|exists u; by split; [left|]].
    destruct (List.filter is_admin t) as [|v w] eqn:E; [cbn in Hc; lia|].
    assert (Hv : In v (List.filter is_admin t)) by (rewrite E; by left). apply filter_In in Hv as [Hv Hav].
    exists v. rewrite <- list_elem_of_In in Hv. split; [by right|]. split; [done|]. intros Heq. apply Hn. rewrite <- Heq.
    by apply list_elem_of_fmap_2.
  - intros Hc. destruct (IH I Hc) as (v & Hv & H). exists v. by split; [right|].
Qed.

Lemma same_id db u v : accounts_ok db -> u ∈ users db -> v ∈ users db -> u_id u = u_id v -> u = v.
Proof.
  intros [I _ _ _] [a Ha]%list_elem_of_lookup_1 [b Hb]%list_elem_of_lookup_1 Heq.
  assert (a = b) as ->; [|congruence]. eapply (NoDup_lookup (u_id <$> users db)); [done| |].
  - by rewrite list_lookup_fmap, Ha.
  - rewrite list_lookup_fmap, Hb. cbn. by rewrite Heq.
Qed.

Lemma map_admin (p : user_row -> bool) (f : user_row -> user_row) l : (forall r, r ∈ l -> p r = true -> is_admin r = true -> is_admin (f r) = true) ->
  (exists u, u ∈ l /\ is_admin u = true) -> exists u, u ∈ map (fun u => if p u then f u else u) l /\ is_admin u = true.
Proof.
  intros H (u & Hu & Ha). exists (if p u then f u else u). split.
  - rewrite list_elem_of_In. apply in_map_iff. exists u. by rewrite <- list_elem_of_In.
  - destruct (p u) eqn:E; auto.
Qed.

Definition has_admin (db : accounts) : Prop := exists u, u ∈ users db /\ is_admin u = true.
Definition good (db : accounts) : Prop := accounts_ok db /\ has_admin db.

Lemma good_audit who a d db : good (audit who a d db) <-> good db.
Proof. unfold good, has_admin. by rewrite audit_ok. Qed.

Lemma good_update p f db : keeps f -> (forall r, u_role (f r) = u_role r) -> good db -> good (update_where p f db).
Proof.
  intros Hk Hr [Hok Ha]. split.
  - apply update_ok; [done | | done]. intros r Hin _. rewrite Hr. destruct Hok as [_ _ _ R]. rewrite Forall_forall in R. by apply R.
  - apply map_admin; [|done]. intros r _ _. unfold is_admin. by rewrite Hr.
Qed.

Lemma update_user_good user i req db : good db -> good (update_user user i req db).1.
Proof.
  intros [Hok Ha]. unfold update_user, checked. destruct (update_check user i req db) as [row|] eqn:E; [|done]. cbn [fst].
  unfold update_check in E. inv_res. destruct (by_id i db) as [r0|] eqn:Er; [|done]. inv_res.
  apply find_some in Er as [Hin Hid]. apply Z.eqb_eq in Hid. apply list_elem_of_In in Hin.
  assert (Hw : good (audit (i_name user) "user_update" [JInt i; JStr (u_name row)]
    (update_where (fun r => u_id r =? i) (apply_update req) db))).
  { apply good_audit. split.
    - apply update_ok; [done| |done]. intros r Hr _. cbn. destruct (up_role req) as [role|]; cbn.
      + inv_res. match goal with H : negb (bool_decide (role ∈ ROLES)) = false |- _ => by apply negb_false_iff, bool_decide_eq_true in H end.
      + destruct Hok as [_ _ _ R]. rewrite Forall_forall in R. by apply R.
    - destruct (up_role req) as [role|] eqn:Eu.
      2: { apply map_admin; [|done]. intros r _ _. unfold is_admin, apply_update. cbn. by rewrite Eu. }
      inv_res. destruct (bool_decide (role ∈ ADMIN_ROLES)) eqn:Erole.
      { apply map_admin; [|done]. intros r _ _ _. unfold is_admin, apply_update. cbn. by rewrite Eu. }
      cbn [negb] in *. rewrite andb_true_r in *.
      assert (exists u, u ∈ users db /\ is_admin u = true /\ u_id u <> i) as (u & Hu & Hua & Hne).
      { destruct (is_admin row) eqn:Erow; cbn [andb] in *.
        - apply other_admin; [done|]. match goal with H : (_ <=? 1)%nat = false |- _ => apply Nat.leb_gt in H; lia end.
        - destruct Ha as (u & Hu & Hua). exists u. split; [done|]. split; [done|]. intros Heq. subst i.
          assert (u = row); [|congruence]. by apply (same_id db). }
      exists u. split; [|done]. rewrite list_elem_of_In. cbn. apply in_map_iff. exists u. rewrite <- list_elem_of_In.
      split; [|done]. by apply Z.eqb_neq in Hne as ->. }
  unfold update_write. destruct (up_role req), (up_password req), (up_must_change req); cbn [fst]; done.
Qed.

Lemma NoDup_keep {A B} (g : A -> B) f l : NoDup (g <$> l) -> NoDup (g <$> List.filter f l).
Proof.
  induction l as [|x t IH]; cbn; [done|]. rewrite NoDup_cons. intros [Hx Ht]. destruct (f x); [|by apply IH].
  cbn. apply NoDup_cons. split; [|by apply IH]. intros (y & Hy & Hin)%list_elem_of_fmap. apply elem_List_filter in Hin as [Hin _].
  apply Hx. rewrite Hy. by apply list_elem_of_fmap_2.
Qed.

Lemma delete_user_good user i db : good db -> good (delete_user user i db).1.
Proof.
  intros Hg. pose proof Hg as [Hok Ha]. unfold delete_user, checked. destruct (delete_check user i db) as [row|] eqn:E; [|done]. cbn [fst delete_write].
  unfold delete_check in E. inv_res. destruct (by_id i db) as [r0|] eqn:Er; [|done]. inv_res.
  apply find_some in Er as [Hin Hid]. apply Z.eqb_eq in Hid. apply list_elem_of_In in Hin. apply good_audit.
  destruct Hok as [I F N R]. split.
  - constructor; cbn; [by apply NoDup_keep | by apply Forall_List_filter | by apply NoDup_keep | by apply Forall_List_filter].
  - assert (exists u, u ∈ users db /\ is_admin u = true /\ u_id u <> i) as (u & Hu & Hua & Hne).
    { destruct (is_admin row) eqn:Erow; cbn [andb] in *.
      - apply other_admin; [by constructor|]. match goal with H : (_ <=? 1)%nat = false |- _ => apply Nat.leb_gt in H; lia end.
      - destruct Ha as (u & Hu & Hua). exists u. split; [done|]. split; [done|]. intros Heq. subst i.
        assert (u = row); [|congruence]. apply (same_id db); by try constructor. }
    exists u. split; [|done]. cbn. rewrite list_elem_of_In. apply filter_In. rewrite <- list_elem_of_In.
    split; [done|]. by apply Z.eqb_neq in Hne as ->.
Qed.

Lemma by_name_spec name db : match by_name name db with
  | Some u => u ∈ users db /\ u_name u = name
  | None => name ∉ (u_name <$> users db) end.
Proof.
  unfold by_name. destruct (find _ _) eqn:E.
  - apply find_some in E as [Hin Hn]. apply bool_decide_eq_true in Hn. by rewrite list_elem_of_In.
  - intros (u & -> & Hu)%list_elem_of_fmap. apply list_elem_of_In in Hu. apply (find_none _ _ E) in Hu.
    by apply bool_decide_eq_false in Hu.
Qed.

Lemma create_user_good v user n p role m db : good db -> good (create_user v user n p role m db).1.
Proof.
  intros Hg. pose proof Hg as [[I F N R] (a & Hin & Ha)]. unfold create_user, checked. destruct (create_check _ _ _ _ _ _) as [uname|] eqn:E; [|done]. cbn [fst].
  unfold create_check in E. inv_res. apply good_audit. pose proof (by_name_spec (strip n) db) as Hn.
  destruct (by_name (strip n) db); [done|]. apply negb_false_iff, bool_decide_eq_true in Hv2. split.
  - constructor; cbn [users next_id].
    + rewrite fmap_app. apply NoDup_app. split; [done|]. split; [|apply NoDup_singleton]. intros x Hx Hy.
      apply list_elem_of_singleton in Hy. cbn in Hy. subst. apply list_elem_of_fmap in Hx as (u & Hu & Hx). rewrite Forall_forall in F.
      specialize (F _ Hx). lia.
    + apply Forall_app. split; [eapply Forall_impl; [exact F | intros u Hu; cbn in *; lia]|]. repeat constructor. cbn. lia.
    + rewrite fmap_app. apply NoDup_app. split; [done|]. split; [|apply NoDup_singleton]. intros x Hx Hy.
      apply list_elem_of_singleton in Hy. cbn in Hy. by subst.
    + apply Forall_app. split; [done|]. by apply Forall_singleton.
  - exists a. cbn. rewrite elem_of_app. auto.
Qed.

Section History.
Context (passwd : Z -> option pystr) (validate : option (pystr -> bool)).

Lemma request_good db r : good db -> good (handle passwd validate db r).1.
Proof.
  intros Hg. assert (Hlog : forall u now who a, good (audit who a [] (update_where (fun r => u_id r =? u) (set_login now) db))).
  { intros. apply good_audit, good_update; done. }
  assert (Hauth : forall f, (forall u, good (f u).1) ->
    good (match get_current_user (rq_signer r) (rq_now r) db (rq_bearer r) (endpoint (rq_call r)).1 (endpoint (rq_call r)).2 with
          | Ok u => f u | Err e => (db, Err e) end : accounts * result http response).1).
  { intros f Hf. by destruct (get_current_user _ _ _ _ _ _). }
  unfold handle. destruct (rq_call r); try (apply Hauth; intros u).
  - unfold login. destruct (by_name _ _); [|done]. destruct (negb _); [done|]. apply Hlog.
  - unfold cli_auth. destruct (passwd uid) as [[|c n]|]; [done| |done]. destruct (by_name _ _); [|done]. apply Hlog.
  - done.
  - unfold change_password. destruct (by_name _ _); [|done]. destruct (negb _); [done|]. cbn [fst].
    apply good_audit, good_update; done.
  - unfold list_users, checked. by destruct (_require_admin u).
  - by apply create_user_good.
  - by apply update_user_good.
  - by apply delete_user_good.
Qed.

(** C17. Along every sequence of requests, whoever sends them and in whatever order, account ids and names stay unique,
    roles stay among the four known ones, and at least one administrator (admin or superuser) remains: the last one can
    be neither demoted nor deleted. *)
Theorem administrators_remain db rs : good db -> good (history passwd validate db rs).
Proof.
  revert db; induction rs as [|r rs IH]; intros db Hg; cbn [history fold_left]; [done|]. apply IH. by apply request_good.
Qed.

(** ** Who may do what *)

(** The caller holds a token that some accepted key verifies and whose subject is a current account; the account's own
    role, not the token's, decides; an account or token that owes a password change reaches two paths only. *)
Definition authorised (k : signer) (now : Z) (db : accounts) (bearer : option token) (method path : pystr) (u : identity) (row : user_row) : Prop :=
  (exists tok keys key c, bearer = Some tok /\ _verification_secrets k now = Ok keys /\ JStr key ∈ keys
     /\ jwt_decode tok key now = Some c /\ c_sub c = JStr (i_name u)
     /\ (c_pwc c = true -> path ∈ PW_CHANGE_ALLOWED_PATHS))
  /\ by_name (i_name u) db = Some row /\ i_role u = u_role row /\ u_role row ∈ ROLES
  /\ (u_must_change row = true -> path ∈ PW_CHANGE_ALLOWED_PATHS)
  /\ (u_role row ∈ ADMIN_ROLES \/ method ∈ [lit "GET"; lit "HEAD"; lit "OPTIONS"]
      \/ (method = lit "POST" /\ (path ∈ READ_POSTS \/ path = lit "/api/auth/change-password"))).

Lemma try_secrets_sound tok now l c : try_secrets tok now l = Ok (Some c) -> exists key, JStr key ∈ l /\ jwt_decode tok key now = Some c.
Proof.
  induction l as [|v t IH]; cbn [try_secrets]; [done|]. intros E. inv_res. destruct v; try done. cbn in Hv. inv_res.
  destruct (jwt_decode tok _ now) as [c'|] eqn:Ec.
  - inv_res. eexists. by split; [left|].
  - destruct (IH E) as (key & Hk & Hd). exists key. by split; [right|].
Qed.

Lemma get_current_user_sound k now db bearer method path u :
  get_current_user k now db bearer method path = Ok u -> exists row, authorised k now db bearer method path u row.
Proof.
  unfold get_current_user. destruct bearer as [tok|]; [|done]. intros E. inv_res. unfold _authenticate_token in Hv. inv_res.
  destruct v1 as [c|]; [|done]. destruct (c_sub c) as [| | | |[|x n]| |] eqn:Es; try done.
  destruct (by_name (x :: n) db) as [row|] eqn:Er; [|done]. destruct (_ && _) eqn:Ep; [done|]. inv_res.
  unfold authorize in E. cbn [i_role] in E. split_if E; [done|]. apply negb_false_iff, bool_decide_eq_true in E0.
  assert (Hpath : c_pwc c = true \/ u_must_change row = true -> path ∈ PW_CHANGE_ALLOWED_PATHS).
  { intros Hor. apply orb_true_iff in Hor. rewrite Hor in Ep. cbn in Ep. by apply negb_false_iff, bool_decide_eq_true in Ep. }
  assert (Hrole : u = {| i_name := x :: n; i_role := u_role row; i_pw_change_required := c_pwc c || u_must_change row |} /\
    (u_role row ∈ ADMIN_ROLES \/ method ∈ [lit "GET"; lit "HEAD"; lit "OPTIONS"]
      \/ (method = lit "POST" /\ (path ∈ READ_POSTS \/ path = lit "/api/auth/change-password")))).
  { split_if E. { inv_res. apply bool_decide_eq_true in E1. auto. }
    split_if E. { inv_res. apply andb_true_iff in E2 as [Hm%bool_decide_eq_true Hp]. split; [done|]. right. right. split; [done|].
                  apply orb_true_iff in Hp as [Hp|Hp]; apply bool_decide_eq_true in Hp; auto. }
    split_if E; [done|]. inv_res. apply negb_false_iff, bool_decide_eq_true in E3. auto. }
  destruct Hrole as [-> Hrole]. exists row. destruct (try_secrets_sound _ _ _ _ Hv1) as (key & Hk & Hd).
  split; [exists tok, v0, key, c; do 5 (split; [done|]); auto|]. repeat (split; [by auto|]). done.
Qed.

Lemma user_path_locked i : user_path i ∉ PW_CHANGE_ALLOWED_PATHS.
Proof. unfold user_path, PW_CHANGE_ALLOWED_PATHS. intros [H|[H|H%elem_of_nil]%elem_of_cons]%elem_of_cons; done. Qed.

(** The answer is a success or the accounts changed. *)
Definition effective (db : accounts) (x : accounts * result http response) : Prop := is_ok x.2 = true \/ users x.1 <> users db.

Lemma refused_ineffective db e : effective db (db, Err e) -> False.
Proof. by intros [H|H]. Qed.

(** What a request did to the table: the rows that [p] selects changed as [R] says, the others not at all. *)
Definition touched (p : user_row -> bool) (R : user_row -> user_row -> Prop) (db after : accounts) : Prop :=
  Forall2 (fun old new => if p old then u_id new = u_id old /\ u_name new = u_name old /\ R old new else new = old) (users db) (users after).

(** A sign-in: only the time of the last login. *)
Definition signed_in (now : Z) (old new : user_row) : Prop :=
  u_role new = u_role old /\ u_hash new = u_hash old /\ u_must_change new = u_must_change old /\ u_last_login new = Some now.
(** A password change: the new password opens the account and no change is owed; the role stays. *)
Definition repassworded (pw : pystr) (old new : user_row) : Prop :=
  u_role new = u_role old /\ pw_verify pw (u_hash new) = true /\ u_must_change new = false /\ u_last_login new = u_last_login old.
(** An administrator's update: the fields the request names get its values. *)
Definition updated (q : user_update) (old new : user_row) : Prop :=
  match up_role q with Some role => u_role new = role /\ role ∈ ROLES | None => u_role new = u_role old end
  /\ match up_password q with Some pw => pw_verify pw (u_hash new) = true | None => u_hash new = u_hash old end
  /\ match up_must_change q with Some m => u_must_change new = m | None => u_must_change new = u_must_change old end
  /\ u_last_login new = u_last_login old.

Lemma touched_update p f R db : (forall r, u_id (f r) = u_id r /\ u_name (f r) = u_name r /\ R r (f r)) -> touched p R db (update_where p f db).
Proof.
  intros Hf. unfold touched, update_where. cbn [users]. induction (users db) as [|r t IH]; constructor; [|done].
  destruct (p r); [apply Hf | done].
Qed.

Lemma login_effect k now n pw db : effective db (login k now n pw db) ->
  exists u, by_name n db = Some u /\ pw_verify pw (u_hash u) = true
    /\ touched (fun r => u_id r =? u_id u) (signed_in now) db (login k now n pw db).1.
Proof.
  unfold login. intros H. destruct (by_name n db) as [u|]; [|by apply refused_ineffective in H]. exists u. split; [done|].
  destruct (pw_verify pw (u_hash u)); [|by apply refused_ineffective in H]. split; [done|]. by apply touched_update.
Qed.

Lemma cli_effect k now uid db : effective db (cli_auth k now passwd uid db) ->
  exists n u, passwd uid = Some n /\ by_name n db = Some u
    /\ touched (fun r => u_id r =? u_id u) (signed_in now) db (cli_auth k now passwd uid db).1.
Proof.
  unfold cli_auth. intros H. destruct (passwd uid) as [[|c n]|]; [by apply refused_ineffective in H| |by apply refused_ineffective in H].
  destruct (by_name (c :: n) db) as [u|] eqn:E; [|by apply refused_ineffective in H]. exists (c :: n), u. do 2 (split; [done|]).
  by apply touched_update.
Qed.

Lemma change_effect k now u cur new db : effective db (change_password k now u cur new db) ->
  exists row, by_name (i_name u) db = Some row /\ pw_verify cur (u_hash row) = true
    /\ touched (fun r => bool_decide (u_name r = i_name u)) (repassworded new) db (change_password k now u cur new db).1.
Proof.
  unfold change_password. intros H. destruct (by_name (i_name u) db) as [row|]; [|by apply refused_ineffective in H].
  exists row. split; [done|]. destruct (pw_verify cur (u_hash row)); [|by apply refused_ineffective in H]. split; [done|].
  apply touched_update. intros r. do 3 (split; [done|]). split; [apply pw_hash_verifies | done].
Qed.

Lemma checked_needs {A} db (c : result http A) w : effective db (checked db c w) -> exists a, c = Ok a.
Proof. unfold checked. destruct c; [eauto | by intros ?%refused_ineffective]. Qed.

Lemma require_admin_ok u x : _require_admin u = Ok x -> i_role u ∈ ADMIN_ROLES.
Proof. unfold _require_admin. by intros H%raise_if_ok_inv%negb_false_iff%bool_decide_eq_true. Qed.

Lemma create_effect u n pw role m db : effective db (create_user validate u n pw role m db) ->
  i_role u ∈ ADMIN_ROLES /\ exists w, users (create_user validate u n pw role m db).1 = users db ++ [w]
    /\ u_name w = strip n /\ by_name (u_name w) db = None /\ u_name w <> [] /\ u_role w = role /\ role ∈ ROLES
    /\ pw_verify pw (u_hash w) = true /\ u_must_change w = m /\ u_last_login w = None.
Proof.
  unfold create_user. intros H. pose proof (checked_needs _ _ _ H) as [a Ha]. rewrite Ha. cbn [checked fst users audit].
  unfold create_check in Ha. inv_res. split; [by eapply require_admin_ok|]. eexists. split; [reflexivity|]. cbn [u_name u_role u_hash u_must_change u_last_login].
  repeat match goal with H : raise_if _ _ = Ok _ |- _ => apply raise_if_ok_inv in H end.
  destruct (by_name (strip n) db) eqn:E; [done|].
  split; [done|]. split; [done|]. split; [by apply bool_decide_eq_false in Hv1|]. split; [done|].
  split; [by apply negb_false_iff, bool_decide_eq_true in Hv2|]. split; [apply pw_hash_verifies | done].
Qed.

Lemma update_effect u i q db : effective db (update_user u i q db) ->
  i_role u ∈ ADMIN_ROLES /\ touched (fun r => u_id r =? i) (updated q) db (update_user u i q db).1.
Proof.
  unfold update_user. intros H. pose proof (checked_needs _ _ _ H) as [row Ha]. rewrite Ha. cbn [checked fst].
  unfold update_check in Ha. inv_res. split; [by eapply require_admin_ok|]. destruct (by_id i db) as [row'|]; [|done]. inv_res.
  assert (Hrole : forall role, up_role q = Some role -> role ∈ ROLES).
  { intros role E. rewrite E in Hv0. inv_res. by apply negb_false_iff, bool_decide_eq_true in Hv2. }
  assert (Hf : forall r, u_id (apply_update q r) = u_id r /\ u_name (apply_update q r) = u_name r /\ updated q r (apply_update q r)).
  { intros r. unfold updated, apply_update. cbn. do 2 (split; [done|]). destruct (up_role q); (split; [by auto|]);
      destruct (up_password q); (split; [try done; apply pw_hash_verifies|]); by destruct (up_must_change q). }
  assert (Hsame : up_role q = None -> up_password q = None -> up_must_change q = None ->
    touched (fun r => u_id r =? i) (updated q) db db).
  { intros E1 E2 E3. unfold touched. induction (users db) as [|r t IH]; constructor; [|done]. destruct (_ =? _); [|done].
    unfold updated. by rewrite E1, E2, E3. }
  unfold update_write. destruct (up_role q), (up_password q), (up_must_change q); try (by apply touched_update). by apply Hsame.
Qed.

Lemma delete_effect u i db : effective db (delete_user u i db) ->
  i_role u ∈ ADMIN_ROLES /\ (exists w, by_id i db = Some w /\ u_name w <> i_name u)
  /\ users (delete_user u i db).1 = List.filter (fun r => negb (u_id r =? i)) (users db).
Proof.
  unfold delete_user. intros H. pose proof (checked_needs _ _ _ H) as [row Ha]. rewrite Ha. cbn [checked fst].
  unfold delete_check in Ha. inv_res. split; [by eapply require_admin_ok|]. destruct (by_id i db) as [w|]; [|done]. inv_res.
  apply bool_decide_eq_false in Hv0. split; [by eexists | done].
Qed.


(** ** Sessions *)

(** A keyring this code wrote: texts only. *)
Definition text_ring (doc : obj) (s : pystr) (l : list json) : Prop :=
  ring doc s l /\ Forall (fun k => exists t, key_secret k = JStr t) l.

Lemma rotations_text spare rs : forall doc s l, text_ring doc s l -> Forall (fun r : Z * Z * pystr => r.2 <> []) rs ->
  exists doc' s' l', rotations spare rs doc = Ok doc' /\ text_ring doc' s' l'.
Proof.
  unfold rotations. induction rs as [|[[now L] fresh] rs IH]; intros doc s l [Hr Ht] Hf; cbn [foldM_res]; [by exists doc, s, l|].
  inversion Hf as [|? ? Hfresh Hf']; subst. cbn [fst snd] in *.
  destruct (ring_rotate doc s l L RETIRE_MARGIN_MINUTES false fresh spare now Hr Hfresh) as (d & -> & Hd). cbn [mbind result_bind].
  eapply IH; [|done]. split; [exact Hd|]. apply Forall_List_filter. constructor; [by eexists | done].
Qed.

Lemma try_secrets_finds c s now l : now <= c_exp c -> JStr s ∈ l -> Forall (fun k => exists t, k = JStr t) l ->
  try_secrets (jwt_encode c s) now l = Ok (Some c).
Proof.
  intros Hn Hin Hl. induction Hl as [|k t [x ->] _ IH]; [by apply elem_of_nil in Hin|]. cbn [try_secrets text_secret mbind result_bind].
  destruct (decide (x = s)) as [->|Hne]; [by rewrite jwt_own_key|].
  rewrite jwt_other_key by done. apply IH. apply elem_of_cons in Hin as [[= ->]|]; done.
Qed.

Lemma ring_texts doc s l now ks : text_ring doc s l -> verification_secrets (Some doc) now = Ok ks -> Forall (fun k => exists t, k = JStr t) ks.
Proof.
  intros [Hr Ht]. rewrite (ring_verification _ _ _ _ Hr). intros [= <-]. constructor; [by eexists|].
  rewrite Forall_map. by apply Forall_List_filter.
Qed.

Lemma keyring_verification own doc s l now : ring doc s l ->
  _verification_secrets {| own_secret := own; keyring := Some doc |} now = or_crash (verification_secrets (Some doc) now).
Proof. intros Hr. destruct (ring_nonempty _ _ _ Hr) as (kv & t & ->). done. Qed.

Lemma keyring_token own doc s l now name role pwc : ring doc s l ->
  create_token {| own_secret := own; keyring := Some doc |} now name role pwc =
  Ok (jwt_encode {| c_sub := JStr name; c_role := role; c_exp := now + JWT_EXPIRE_MINUTES * 60; c_pwc := pwc |} s).
Proof.
  intros Hr. pose proof (ring_signing _ _ _ Hr) as Hs. unfold create_token, _signing_secret. cbn [keyring].
  destruct (ring_nonempty _ _ _ Hr) as (kv & t & E). rewrite E in *. by rewrite Hs.
Qed.

(** C34. A signed-in administrator stays signed in across scheduled key rotations: a token issued at [t0] under the
    keyring of that time authenticates at every time until it expires, under the keyring that any sequence of ordinary
    rotations in between has produced, as the account it was issued for and with that account's present role, as long
    as the account exists and owes no password change. *)
Theorem session_survives_rotation doc s l own spare rs t0 t name role db row path tok :
  text_ring doc s l -> name <> [] ->
  Forall (fun r => t0 <= r.1.1 <= t /\ JWT_EXPIRE_MINUTES <= r.1.2 /\ r.2 <> []) rs ->
  t < t0 + JWT_EXPIRE_MINUTES * 60 -> by_name name db = Some row -> u_must_change row = false ->
  create_token {| own_secret := own; keyring := Some doc |} t0 name role false = Ok tok ->
  exists doc', rotations spare rs doc = Ok doc' /\
    _authenticate_token {| own_secret := own; keyring := Some doc' |} t db tok path =
    Ok {| i_name := name; i_role := u_role row; i_pw_change_required := false |}.
Proof.
  intros [Hr Htx] Hname Hf Ht Hrow Hmust Htok. rewrite (keyring_token _ _ _ _ _ _ _ _ Hr) in Htok. apply ok_inj in Htok as <-.
  destruct (rotation_secret doc s l spare rs t0 t JWT_EXPIRE_MINUTES Hr Hf Ht) as (doc' & ks & Hd & Hks & Hin).
  destruct (rotations_text spare rs doc s l) as (doc2 & s' & l' & Hd2 & Hr'); [done | eapply Forall_impl; [exact Hf|]; by intros ? (_ & _ & ?)|].
  assert (doc2 = doc') as -> by congruence. exists doc'. split; [done|].
  unfold _authenticate_token. rewrite (keyring_verification _ _ s' l' _ (proj1 Hr')), Hks. cbn [or_crash mbind result_bind].
  rewrite try_secrets_finds; [|cbn; lia | done | by eapply ring_texts]. cbn [mbind result_bind c_sub c_pwc].
  destruct name as [|x n]; [done|]. rewrite Hrow, Hmust. done.
Qed.

Lemma find_map_keep (n : pystr) (p : user_row -> bool) (f : user_row -> user_row) l : (forall r, u_name (f r) = u_name r) ->
  find (fun u => bool_decide (u_name u = n)) (map (fun r => if p r then f r else r) l) =
  (fun r => if p r then f r else r) <$> find (fun u => bool_decide (u_name u = n)) l.
Proof.
  intros Hk. induction l as [|r t IH]; [done|]. cbn [map find].
  replace (u_name (if p r then f r else r)) with (u_name r) by (by destruct (p r); rewrite ?Hk).
  by destruct (bool_decide _).
Qed.

Lemma by_name_update n p f db : keeps f -> by_name n (update_where p f db) = (fun r => if p r then f r else r) <$> by_name n db.
Proof. intros Hk. apply find_map_keep. intros r. apply Hk. Qed.

Lemma authenticate_current doc s l own t db c name row path : text_ring doc s l -> t <= c_exp c -> c_sub c = JStr name -> name <> [] ->
  by_name name db = Some row ->
  _authenticate_token {| own_secret := own; keyring := Some doc |} t db (jwt_encode c s) path =
  let required := c_pwc c || u_must_change row in
  if required && negb (bool_decide (path ∈ PW_CHANGE_ALLOWED_PATHS)) then Err (HTTP 403 "Password change required before using this API")
  else Ok {| i_name := name; i_role := u_role row; i_pw_change_required := required |}.
Proof.
  intros [Hr Ht] Hexp Hsub Hname Hrow. unfold _authenticate_token. rewrite (keyring_verification _ _ _ _ _ Hr), (ring_verification _ _ _ _ Hr).
  cbn [or_crash mbind result_bind]. rewrite try_secrets_finds; [|done|left|].
  - cbn [mbind result_bind]. rewrite Hsub. destruct name; [done|]. by rewrite Hrow.
  - eapply ring_texts; [by split|]. by apply ring_verification.
Qed.

(** A forced password change lets the owner through and nobody else: an account that owes one can sign in, its token
    reaches only the two exempt paths, changing the password with it clears the debt and yields a token that opens every
    path, and the new password then signs in. *)
Theorem forced_change_flow db u pw new doc s l own t0 t1 t2 path :
  text_ring doc s l -> accounts_ok db -> by_name (u_name u) db = Some u -> u_name u <> [] -> u_must_change u = true ->
  pw_verify pw (u_hash u) = true -> t0 <= t1 <= t0 + JWT_EXPIRE_MINUTES * 60 -> t1 <= t2 <= t1 + JWT_EXPIRE_MINUTES * 60 ->
  let k := {| own_secret := own; keyring := Some doc |} in
  exists db1 tok db2 tok2 v,
    login k t0 (u_name u) pw db = (db1, Ok (RToken tok (u_name u) (u_role u) true))
    /\ (path ∉ PW_CHANGE_ALLOWED_PATHS ->
        _authenticate_token k t1 db1 tok path = Err (HTTP 403 "Password change required before using this API"))
    /\ get_current_user k t1 db1 (Some tok) (lit "POST") (lit "/api/auth/change-password") = Ok v
    /\ change_password k t1 v pw new db1 = (db2, Ok (RToken tok2 (u_name u) (u_role u) false))
    /\ _authenticate_token k t2 db2 tok2 path = Ok {| i_name := u_name u; i_role := u_role u; i_pw_change_required := false |}
    /\ exists w, by_name (u_name u) db2 = Some w /\ pw_verify new (u_hash w) = true /\ u_must_change w = false.
Proof.
  intros Hr Hok Hu Hn Hm Hpw Ht1 Ht2 k. pose proof (fun now n ro f => keyring_token own doc s l now n ro f (proj1 Hr)) as Htok.
  pose proof (by_name_spec (u_name u) db) as Hin. rewrite Hu in Hin. destruct Hin as [Hin _].
  set (db1 := audit (u_name u) "login" [] (update_where (fun r => u_id r =? u_id u) (set_login t0) db)).
  assert (Hdb1 : by_name (u_name u) db1 = Some (set_login t0 u)).
  { change (by_name (u_name u) (update_where (fun r => u_id r =? u_id u) (set_login t0) db) = Some (set_login t0 u)).
    rewrite by_name_update, Hu by done. cbn. by rewrite Z.eqb_refl. }
  set (v := {| i_name := u_name u; i_role := u_role u; i_pw_change_required := true |}).
  set (f := fun r => {| u_id := u_id r; u_name := u_name r; u_hash := pw_hash new; u_role := u_role r; u_must_change := false;
                        u_last_login := u_last_login r |}).
  set (db2 := audit (u_name u) "change_password" [] (update_where (fun r => bool_decide (u_name r = u_name u)) f db1)).
  assert (Hdb2 : by_name (u_name u) db2 = Some (f (set_login t0 u))).
  { change (by_name (u_name u) (update_where (fun r => bool_decide (u_name r = u_name u)) f db1) = Some (f (set_login t0 u))).
    rewrite by_name_update, Hdb1 by done. cbn. by rewrite bool_decide_eq_true_2. }
  exists db1. eexists. exists db2. eexists. exists v. split; [|split; [|split; [|split; [|split]]]].
  - unfold login. rewrite Hu, Hpw. cbn [negb]. unfold k. rewrite Htok, Hm. cbn [mbind result_bind]. reflexivity.
  - intros Hp. unfold k. rewrite (authenticate_current doc s l own t1 db1 _ (u_name u) (set_login t0 u) path Hr) by (done || (cbn; lia)).
    cbn. by rewrite bool_decide_eq_false_2.
  - unfold get_current_user, k.
    rewrite (authenticate_current doc s l own t1 db1 _ (u_name u) (set_login t0 u) _ Hr) by (done || (cbn; lia)).
    cbn [c_pwc orb mbind result_bind set_login u_role]. rewrite bool_decide_eq_true_2 by left. cbn [negb andb mbind result_bind].
    unfold authorize. cbn [i_role]. destruct Hok as [_ _ _ R]. rewrite Forall_forall in R.
    rewrite (bool_decide_eq_true_2 (u_role u ∈ ROLES)) by (by apply R). done.
  - unfold change_password. cbn [v i_name i_role]. rewrite Hdb1. cbn [u_hash set_login]. rewrite Hpw. cbn [negb].
    unfold k. rewrite Htok. cbn [mbind result_bind]. reflexivity.
  - unfold k. rewrite (authenticate_current doc s l own t2 db2 _ (u_name u) (f (set_login t0 u)) path Hr) by (done || (cbn; lia)). done.
  - exists (f (set_login t0 u)). split; [done|]. split; [apply pw_hash_verifies | done].
Qed.
(** ** Requests that overlap *)

Lemma same_name db u v : accounts_ok db -> u ∈ users db -> v ∈ users db -> u_name u = u_name v -> u = v.
Proof.
  intros [_ _ N _] [a Ha]%list_elem_of_lookup_1 [b Hb]%list_elem_of_lookup_1 Heq.
  assert (a = b) as ->; [|congruence]. eapply (NoDup_lookup (u_name <$> users db)); [done| |].
  - by rewrite list_lookup_fmap, Ha.
  - rewrite list_lookup_fmap, Hb. cbn. by rewrite Heq.
Qed.

Lemma by_id_of db u : accounts_ok db -> u ∈ users db -> by_id (u_id u) db = Some u.
Proof.
  intros Hok Hu. unfold by_id. destruct (find _ _) as [v|] eqn:E.
  - apply find_some in E as [Hv He%Z.eqb_eq]. rewrite <- list_elem_of_In in Hv. f_equal. by apply (same_id db).
  - rewrite list_elem_of_In in Hu. apply (find_none _ _ E) in Hu. by rewrite Z.eqb_refl in Hu.
Qed.

Lemma caller_is k now db bearer method path u a : accounts_ok db -> a ∈ users db ->
  get_current_user k now db bearer method path = Ok u -> i_name u = u_name a -> i_role u = u_role a.
Proof.
  intros Hok Ha Hu Hn. destruct (get_current_user_sound _ _ _ _ _ _ _ Hu) as (row & _ & Hrow & -> & _).
  pose proof (by_name_spec (i_name u) db) as Hs. rewrite Hrow in Hs. destruct Hs as [Hin Hnr]. f_equal. apply (same_name db); congruence.
Qed.

(** An update that takes the administrator role away. *)
Definition demotion (q : user_update) : Prop :=
  (exists role, up_role q = Some role /\ role ∈ ROLES /\ role ∉ ADMIN_ROLES)
  /\ match up_password q with Some pw => 6 <= blen pw | None => True end.

Lemma demotion_checked u w q db : accounts_ok db -> w ∈ users db -> i_role u ∈ ADMIN_ROLES -> (2 <= _admin_count db)%nat -> demotion q ->
  update_check u (u_id w) q db = Ok w.
Proof.
  intros Hok Hw Hu Hc [(role & Hr & Hin & Hout) Hp]. unfold update_check, _require_admin.
  rewrite (bool_decide_eq_true_2 _ Hu), (by_id_of _ _ Hok Hw), Hr. cbn [negb raise_if mbind result_bind].
  rewrite (bool_decide_eq_true_2 _ Hin), (bool_decide_eq_false_2 _ Hout). cbn [negb raise_if mbind result_bind].
  replace (_admin_count db <=? 1)%nat with false by (symmetry; apply Nat.leb_gt; lia). rewrite andb_false_r. cbn [raise_if mbind result_bind].
  destruct (up_password q) as [pw|]; [|done]. by replace (blen pw <? 6) with false by (symmetry; apply Z.ltb_ge; lia).
Qed.

Lemma demotion_write u i w q db : demotion q ->
  users (update_write u i q w db).1 = map (fun r => if u_id r =? i then apply_update q r else r) (users db).
Proof. intros [(role & Hr & _) _]. unfold update_write. by rewrite Hr. Qed.

Lemma demoted q r : demotion q -> is_admin (apply_update q r) = false.
Proof. intros [(role & Hr & _ & Hout) _]. unfold is_admin. cbn. rewrite Hr. by apply bool_decide_eq_false_2. Qed.

Lemma two_admins db a b w : accounts_ok db -> _admin_count db = 2%nat -> a ∈ users db -> b ∈ users db -> u_id a <> u_id b ->
  is_admin a = true -> is_admin b = true -> w ∈ users db -> is_admin w = true -> w = a \/ w = b.
Proof.
  intros Hok Hc Ha Hb Hne Haa Hab Hw Haw. unfold _admin_count in Hc.
  assert (Hin : forall x, x ∈ users db -> is_admin x = true -> In x (List.filter is_admin (users db)))
    by (intros; apply filter_In; by rewrite <- list_elem_of_In).
  pose proof (Hin a Ha Haa) as Ia. pose proof (Hin b Hb Hab) as Ib. pose proof (Hin w Hw Haw) as Iw.
  destruct (List.filter _ _) as [|x [|y [|]]]; cbn in Hc; try lia.
  destruct Ia as [->|[->|[]]], Ib as [->|[->|[]]], Iw as [->|[->|[]]]; auto; done.
Qed.

(** C40. The guard of the last administrator is not atomic: the handler counts administrators and writes in separate
    steps, between which other requests run. In every consistent database with exactly two administrators: when each is
    authenticated and asks to take the other's administrator role away, and both requests are checked before either
    writes, both pass the checks, and once both have written no administrator is left. *)
Theorem concurrent_demotion_leaves_none db a b k1 now1 tok1 k2 now2 tok2 ia ib qa qb :
  accounts_ok db -> _admin_count db = 2%nat -> a ∈ users db -> b ∈ users db -> u_id a <> u_id b ->
  is_admin a = true -> is_admin b = true ->
  get_current_user k1 now1 db (Some tok1) (lit "PUT") (user_path (u_id b)) = Ok ia -> i_name ia = u_name a ->
  get_current_user k2 now2 db (Some tok2) (lit "PUT") (user_path (u_id a)) = Ok ib -> i_name ib = u_name b ->
  demotion qa -> demotion qb ->
  exists rb ra, update_check ia (u_id b) qa db = Ok rb /\ update_check ib (u_id a) qb db = Ok ra /\
    let after := (update_write ib (u_id a) qb ra (update_write ia (u_id b) qa rb db).1).1 in
    forall w, w ∈ users after -> is_admin w = false.
Proof.
  intros Hok Hc Ha Hb Hne Haa Hab Hia Hna Hib Hnb Hqa Hqb.
  pose proof (caller_is _ _ _ _ _ _ _ _ Hok Ha Hia Hna) as Ra. pose proof (caller_is _ _ _ _ _ _ _ _ Hok Hb Hib Hnb) as Rb.
  unfold is_admin in Haa, Hab. rewrite bool_decide_eq_true in Haa, Hab.
  exists b, a. split; [apply demotion_checked; try done; [by rewrite Ra | lia]|].
  split; [apply demotion_checked; try done; [by rewrite Rb | lia]|]. cbv zeta.
  rewrite !demotion_write by done. rewrite map_map. intros w (v & <- & Hv)%list_elem_of_In%in_map_iff. rewrite <- list_elem_of_In in Hv.
  destruct (u_id v =? u_id b) eqn:Eb; [cbn [apply_update u_id]; destruct (u_id v =? u_id a); by apply demoted|].
  destruct (u_id v =? u_id a) eqn:Ea; [by apply demoted|]. destruct (is_admin v) eqn:E; [|done].
  apply Z.eqb_neq in Ea, Eb. destruct (two_admins db a b v) as [->| ->]; try done; by apply bool_decide_eq_true.
Qed.
End History.
End Api.

(** ** Instances and examples *)

(** A stand-in for the hash and the codec: the laws hold. *)
#[local] Instance demo_passwords : PasswordContext := {
  pw_hash p := 0 :: p;
  pw_verify p h := bool_decide (h = 0 :: p);
  pw_hash_verifies p := bool_decide_eq_true_2 _ eq_refl }.

Definition demo_decode (t : claims * pystr) (s : pystr) (now : Z) : option claims :=
  if bool_decide (t.2 = s) && (now <=? c_exp t.1) then Some t.1 else None.
#[local] Instance demo_jwt : JwtCodec.
Proof.
  refine {| token := (claims * pystr)%type; jwt_encode c s := (c, s); jwt_decode := demo_decode |};
    intros; unfold demo_decode; cbn [fst snd].
  - rewrite bool_decide_eq_true_2 by done. cbn. by apply Z.leb_le in H as ->.
  - apply Z.leb_gt in H as ->. by rewrite andb_false_r.
  - by rewrite bool_decide_eq_false_2.
Defined.

Definition demo_user (i : Z) (name role : string) (must : bool) : user_row :=
  {| u_id := i; u_name := lit name; u_hash := 0 :: lit "initial"; u_role := lit role; u_must_change := must; u_last_login := None |}.
Definition demo_db : accounts := {| users := [demo_user 1 "ann" "admin" true; demo_user 2 "bob" "superuser" false]; next_id := 3; audit_log := [] |}.
Definition demo_signer : signer := {| own_secret := lit "own"; keyring := Some demo_ring |}.

Lemma demo_good : good demo_db.
Proof.
  split.
  - constructor; cbn [users next_id demo_db].
    + apply (bool_decide_unpack _). by vm_compute.
    + by repeat constructor.
    + apply (bool_decide_unpack _). by vm_compute.
    + apply (bool_decide_unpack _). by vm_compute.
  - exists (demo_user 1 "ann" "admin" true). split; [left | by vm_compute].
Qed.

Definition bob_token : token := ({| c_sub := JStr (lit "bob"); c_role := lit "superuser"; c_exp := 1028800; c_pwc := false |}, lit "first-secret").
Definition demo_requests : list request :=
  [ {| rq_signer := demo_signer; rq_now := 1000010; rq_bearer := Some bob_token;
       rq_call := UpdateUser 1 {| up_role := Some (lit "operator"); up_password := None; up_must_change := None |} |};
    {| rq_signer := demo_signer; rq_now := 1000020; rq_bearer := Some bob_token;
       rq_call := UpdateUser 2 {| up_role := Some (lit "operator"); up_password := None; up_must_change := None |} |} ].

Lemma administrators_remain_witness :
  good (history (fun _ => None) None demo_db demo_requests)
  /\ map u_role (users (history (fun _ => None) None demo_db demo_requests)) = [lit "operator"; lit "superuser"].
Proof. split; [apply administrators_remain, demo_good | by vm_compute]. Defined.


Lemma demo_text_ring : text_ring demo_ring (lit "first-secret") [].
Proof. split; [apply demo_ring_ok | constructor]. Qed.

Lemma session_survives_witness : exists doc', rotations [] [(1000060, 480, lit "second")] demo_ring = Ok doc' /\
  _authenticate_token {| own_secret := []; keyring := Some doc' |} 1028799 demo_db bob_token (lit "/api/users") =
  Ok {| i_name := lit "bob"; i_role := lit "superuser"; i_pw_change_required := false |}.
Proof.
  apply (session_survives_rotation demo_ring (lit "first-secret") [] [] [] _ 1000000 1028799 (lit "bob") (lit "superuser") demo_db
    (demo_user 2 "bob" "superuser" false));
    [apply demo_text_ring | done | repeat constructor; cbn; first [lia | done] | by vm_compute | by vm_compute | done | by vm_compute].
Defined.

Lemma forced_change_witness : exists db2 w, by_name (lit "ann") db2 = Some w /\ pw_verify (lit "secret2") (u_hash w) = true.
Proof.
  destruct (forced_change_flow demo_db (demo_user 1 "ann" "admin" true) (lit "initial") (lit "secret2") demo_ring (lit "first-secret") [] []
    1000000 1000100 1000200 (lit "/api/users") demo_text_ring (proj1 demo_good)) as (db1 & tok & db2 & tok2 & v & _ & _ & _ & _ & _ & w & Hw & Hp & _);
    [by vm_compute | done | done | by vm_compute | by vm_compute | by vm_compute |]. by exists db2, w.
Defined.

Definition pair_db : accounts := {| users := [demo_user 1 "ann" "admin" false; demo_user 2 "bob" "superuser" false]; next_id := 3; audit_log := [] |}.
Definition ann_token : token := ({| c_sub := JStr (lit "ann"); c_role := lit "admin"; c_exp := 1028800; c_pwc := false |}, lit "first-secret").
Definition to_operator : user_update := {| up_role := Some (lit "operator"); up_password := None; up_must_change := None |}.

Lemma to_operator_demotes : demotion to_operator.
Proof. split; [|done]. exists (lit "operator"). split; [done|]. split; apply (bool_decide_unpack _); by vm_compute. Qed.

Lemma pair_ok : accounts_ok pair_db.
Proof.
  constructor; cbn [users next_id pair_db]; [| by repeat constructor | |]; apply (bool_decide_unpack _); by vm_compute.
Qed.

Lemma concurrent_demotion_witness : exists ia ib rb ra,
  update_check ia 2 to_operator pair_db = Ok rb /\ update_check ib 1 to_operator pair_db = Ok ra /\
  forall w, w ∈ users (update_write ib 1 to_operator ra (update_write ia 2 to_operator rb pair_db).1).1 -> is_admin w = false.
Proof.
  eexists. eexists.
  eapply (concurrent_demotion_leaves_none pair_db (demo_user 1 "ann" "admin" false) (demo_user 2 "bob" "superuser" false)
    demo_signer 1000010 ann_token demo_signer 1000010 bob_token);
    [apply pair_ok | by vm_compute | left | right; left | done | by vm_compute | by vm_compute | by vm_compute | reflexivity
    | by vm_compute | reflexivity | apply to_operator_demotes | apply to_operator_demotes].
Defined.
