(* ===== verification/ConsoleAccounts.v ===== *)
(** * Console identities of the administrators

    [ffn_console_accounts.py]: [sync] publishes an operating-system identity for every administrator that has no system
    account of its own.  Numeric ids come from a table that only grows, so that an id is never given to somebody else,
    also after an account was deleted and created again.  The table is the database's [console_identities]; the lines
    of the system's account file and the published file are the inputs and the output. *)

From S2P Require Import Prelude PyStr PyDict PyIp PyXml PyIp6 PolicyObjects NatPolicy.

Inductive console_error := NotOwned | IdentityChanged | BadNumber | BadUsername.

(** [re.fullmatch(r'[a-zA-Z_][a-zA-Z0-9_.-]{0,31}', name)]. *)
Definition name_start (c : Z) : bool := between 97 c 122 || between 65 c 90 || (c =? 95).
Definition name_char (c : Z) : bool := name_start c || between 48 c 57 || (c =? 46) || (c =? 45).
Definition valid_name (name : pystr) : bool :=
  match name with c :: t => name_start c && forallb name_char t && (length t <=? 31)%nat | [] => false end.

Definition CLI : pystr := lit "/usr/local/bin/ffn-cli".
Definition part (n : nat) (parts : list pystr) : pystr := nth n parts [].

(** [local]: the system accounts by name, from the lines of the account file. *)
Definition local_accounts (lines : list pystr) : list (pystr * list pystr) :=
  fold_left (fun d line => let parts := split_on 58 line in
                           if (length parts =? 7)%nat then dset (part 0 parts) parts d else d) lines [].

Definition validate_username (lines : list pystr) (name : pystr) : result console_error unit :=
  if bool_decide (name = lit "root") || negb (valid_name name) then Err BadUsername
  else raise_if (existsb (fun line => let parts := split_on 58 line in
         (length parts =? 7)%nat && bool_decide (part 0 parts = name) && negb (bool_decide (part 6 parts = CLI))) lines) BadUsername.

(** [console_identities]: user id, then name and uid. *)
Abbreviation identities := (list (Z * (pystr * Z))) (only parsing).

(** [SELECT COALESCE(MAX(uid),199999)+1]. *)
Definition next_uid (t : identities) : Z :=
  1 + match map (fun r => r.2.2) t with [] => 199999 | u :: l => fold_left Z.max l u end.

(** [while uid in occupied: uid += 1]. *)
Fixpoint skip_occupied (fuel : nat) (occupied : list Z) (uid : Z) : Z :=
  match fuel with
  | O => uid
  | S k => if bool_decide (uid ∈ occupied) then skip_occupied k occupied (uid + 1) else uid
  end.

Definition number (s : pystr) : result console_error Z := match py_int s with Some n => Ok n | None => Err BadNumber end.

Record sync_state := { y_table : identities; y_lines : list pystr; y_known : list pystr; y_skipped : list pystr }.

Definition passwd_line (homes : pystr) (gid : Z) (name : pystr) (uid : Z) : pystr :=
  name ++ lit ":x:" ++ nat_text uid ++ lit ":" ++ nat_text gid ++ lit ":FFN control administrator:" ++ homes ++ lit "/" ++ name
  ++ lit ":" ++ CLI ++ [10].

(** The uid of an administrator that has no system account: the row's, or a new one. *)
Definition identity_for (locals : list (pystr * list pystr)) (id : Z) (name : pystr) (t : identities) : result console_error (Z * identities) :=
  match dget id t with
  | Some (n, uid) => if bool_decide (n = name) then Ok (uid, t) else Err IdentityChanged
  | None =>
      occupied ← mapM_res (fun kv => number (part 2 kv.2)) locals;
      let uid := skip_occupied (S (length occupied)) occupied (Z.max 200000 (next_uid t)) in
      Ok (uid, t ++ [(id, (name, uid))])
  end.

Definition sync_user (homes : pystr) (gid : Z) (locals : list (pystr * list pystr)) (st : sync_state) (u : Z * pystr) :
  result console_error sync_state :=
  let '(id, name) := u in
  if bool_decide (name = lit "root") then Ok st
  else if negb (valid_name name) then
    Ok {| y_table := y_table st; y_lines := y_lines st; y_known := y_known st; y_skipped := y_skipped st ++ [name] |}
  else match dget name locals with
  | Some parts =>
      if negb (bool_decide (part 6 parts = CLI)) then
        Ok {| y_table := y_table st; y_lines := y_lines st; y_known := y_known st; y_skipped := y_skipped st ++ [name] |}
      else
        _ ← number (part 2 parts);
        Ok {| y_table := y_table st; y_lines := y_lines st; y_known := y_known st ++ [name]; y_skipped := y_skipped st |}
  | None =>
      ut ← identity_for locals id name (y_table st);
      Ok {| y_table := ut.2; y_lines := y_lines st ++ [passwd_line homes gid name ut.1]; y_known := y_known st; y_skipped := y_skipped st |}
  end.

(** [sync] on the table and the published file ([foreign]: it has content and no marker of this program). An exception
    rolls the table back and leaves the file. *)
Definition sync (homes : pystr) (gid : Z) (lines : list pystr) (foreign : bool) (users : list (Z * pystr)) (t : identities) :
  result console_error sync_state :=
  let locals := local_accounts lines in
  if foreign then Err NotOwned
  else foldM_res (sync_user homes gid locals) {| y_table := t; y_lines := []; y_known := []; y_skipped := [] |} users.

(** The table after a sequence of runs, each with the accounts and system file of its time. *)
Definition runs (homes : pystr) (gid : Z) (rs : list (list pystr * bool * list (Z * pystr))) (t : identities) : identities :=
  fold_left (fun t r => match sync homes gid r.1.1 r.1.2 r.2 t with Ok st => y_table st | Err _ => t end) rs t.

(** ** The table only grows *)

Definition at_least (uid : Z) (l : list Z) : nat := length (filter (fun x => uid <= x) l).

Lemma skip_occupied_free fuel occupied uid :
  (at_least uid occupied < fuel)%nat ->
  uid <= skip_occupied fuel occupied uid /\ skip_occupied fuel occupied uid ∉ occupied.
Proof.
  revert uid; induction fuel as [|k IH]; intros uid Hl; [lia|]. cbn [skip_occupied].
  case_bool_decide as Hin; [|split; [lia|done]].
  destruct (IH (uid + 1)) as [H1 H2]; [|split; [lia|done]].
  enough ((at_least (uid + 1) occupied < at_least uid occupied)%nat) by lia.
  unfold at_least.
  clear -Hin. induction occupied as [|x t IH]; [by apply elem_of_nil in Hin|].
  assert (Hle : (at_least (uid + 1) t <= at_least uid t)%nat).
  { clear. unfold at_least. induction t as [|y t IH]; [done|]. rewrite !filter_cons. repeat case_decide; cbn; lia. }
  unfold at_least in *. rewrite !filter_cons. apply elem_of_cons in Hin as [->|Hin].
  - rewrite decide_False, decide_True by lia. cbn. lia.
  - specialize (IH Hin). repeat case_decide; cbn; lia.
Qed.

Lemma next_uid_above t r : r ∈ t -> r.2.2 < next_uid t.
Proof.
  intros Hr. unfold next_uid. assert (Hin : r.2.2 ∈ map (fun r => r.2.2) t) by (apply list_elem_of_In, (in_map (fun x : Z * (pystr * Z) => x.2.2)), list_elem_of_In, Hr).
  assert (Hm : forall l m x, x = m \/ x ∈ l -> x <= fold_left Z.max l m).
  { induction l as [|y l IH]; intros m x Hx; cbn; [destruct Hx as [->|Hx]; [lia | by apply elem_of_nil in Hx]|].
    assert (Hge : forall l m, m <= fold_left Z.max l m).
    { clear. induction l as [|z l IH]; intros m; cbn; [lia|]. specialize (IH (Z.max m z)). lia. }
    destruct Hx as [->|[->|Hx]%elem_of_cons]; [specialize (Hge l (Z.max m y)); lia | specialize (Hge l (Z.max m y)); lia | apply IH; by right]. }
  destruct (map _ t) as [|u l]; [by apply elem_of_nil in Hin|]. apply elem_of_cons in Hin. specialize (Hm l u r.2.2 Hin). lia.
Qed.

Record table_ok (t : identities) : Prop := {
  to_ids : dict_ok t;
  to_uids : NoDup (map (fun r => r.2.2) t);
  to_range : Forall (fun r => 200000 <= r.2.2) t }.

Lemma identity_new {A} (m : result console_error (list Z)) f (g : Z -> A) uid t' :
  (occupied ← m; Ok (f occupied, g (f occupied))) = Ok (uid, t') -> exists v, m = Ok v /\ uid = f v /\ t' = g (f v).
Proof. intros (v & -> & H)%bind_ok_inv. exists v. by injection H as <- <-. Qed.

Lemma identity_for_ok locals id name t uid t' : table_ok t -> identity_for locals id name t = Ok (uid, t') ->
  table_ok t' /\ (exists more, t' = t ++ more) /\ dget id t' = Some (name, uid).
Proof.
  intros [I U R] H. unfold identity_for in H. destruct (dget id t) as [[n u]|] eqn:E.
  - case_bool_decide; [|done]. apply ok_inj in H. injection H as <- <-. subst. split; [done|]. split; [by exists []; rewrite app_nil_r | done].
  - apply (identity_new _ (fun occupied => skip_occupied (S (length occupied)) occupied (Z.max 200000 (next_uid t))) (fun u => t ++ [(id, (name, u))])) in H as (v & Hv & -> & ->). set (start := Z.max 200000 (next_uid t)). assert (next_uid t <= start /\ 200000 <= start) by (unfold start; lia).
    destruct (skip_occupied_free (S (length v)) v start) as [Hge _]; [unfold at_least; pose proof (length_filter (fun x => start <= x) v); lia|].
    fold start in Hge |- *. set (u := skip_occupied _ v start) in *. clearbody u. split; [|split; [by eexists|]].
    + assert (Hnew : forall r, r ∈ t -> r.2.2 < u) by (intros r Hr; pose proof (next_uid_above _ _ Hr); cbn in *; lia).
      constructor.
      * unfold dict_ok. rewrite fmap_app. apply NoDup_app. split; [done|]. split; [|apply NoDup_singleton].
        intros x Hx Hy. apply list_elem_of_singleton in Hy. subst. by apply dget_None_keys in E.
      * rewrite map_app. apply NoDup_app. split; [done|]. split; [|apply NoDup_singleton].
        intros x Hx Hy. apply list_elem_of_singleton in Hy. cbn [snd] in Hy. subst x.
        apply list_elem_of_In, in_map_iff in Hx as (r & Hr & Hin). apply list_elem_of_In in Hin. specialize (Hnew _ Hin). cbn [snd] in Hr. lia.
      * apply Forall_app. split; [done|]. apply Forall_singleton. cbn. lia.
    + rewrite dget_app, E. cbn. by rewrite decide_True.
Qed.

Lemma sync_users_ok homes gid locals us : forall st st', table_ok (y_table st) ->
  foldM_res (sync_user homes gid locals) st us = Ok st' ->
  table_ok (y_table st') /\ exists more, y_table st' = y_table st ++ more.
Proof.
  induction us as [|[id name] us IH]; intros st st' Ht H; cbn [foldM_res] in H; [inv_res; split; [done | exists []; by rewrite app_nil_r]|].
  inv_res. enough (Hstep : table_ok (y_table v) /\ exists more, y_table v = y_table st ++ more).
  { destruct Hstep as [Hv' [m1 Hm1]]. destruct (IH _ _ Hv' H) as [H1 [m2 Hm2]]. split; [done|]. exists (m1 ++ m2). by rewrite Hm2, Hm1, app_assoc. }
  clear IH H. unfold sync_user in Hv. repeat (split_if Hv; [inv_res; split; [done | exists []; by rewrite app_nil_r]|]).
  destruct (dget name locals) as [parts|].
  - split_if Hv; inv_res; (split; [done | exists []; by rewrite app_nil_r]).
  - inv_res. destruct v0 as [uid t']. by destruct (identity_for_ok _ _ _ _ _ _ Ht Hv0) as (H1 & H2 & _).
Qed.

(** Numeric identities are never reused: however the administrators and the system accounts change between runs
    (deletions and re-creations, failed runs included), the identity table only grows, no two administrators ever share
    a uid, all uids lie in the reserved range, and an identity once given keeps its name and uid for ever. *)
Theorem console_uids_never_reused homes gid rs t : table_ok t ->
  table_ok (runs homes gid rs t) /\ exists more, runs homes gid rs t = t ++ more.
Proof.
  revert t; induction rs as [|[[lines foreign] us] rs IH]; intros t Ht; cbn [runs fold_left]; [split; [done | exists []; by rewrite app_nil_r]|].
  cbn [fst snd]. enough (Hstep : forall r, sync homes gid lines foreign us t = r ->
    table_ok (match r with Ok st => y_table st | Err _ => t end) /\ exists more, match r with Ok st => y_table st | Err _ => t end = t ++ more).
  { destruct (Hstep _ eq_refl) as [H1 [m1 Hm1]]. destruct (IH _ H1) as [H2 [m2 Hm2]]. split; [done|]. exists (m1 ++ m2).
    unfold runs in Hm2. rewrite Hm2, Hm1. by rewrite app_assoc. }
  intros [st|] Hs; [|split; [done | exists []; by rewrite app_nil_r]]. unfold sync in Hs. split_if Hs; [done|].
  by eapply (sync_users_ok _ _ _ us {| y_table := t; y_lines := []; y_known := []; y_skipped := [] |}).
Qed.

(** A new identity avoids the system's own accounts: the uid of a first-time administrator is not the number of any
    entry of the account file, the search for it ends, and the published line carries that uid. *)
Theorem new_identity_free locals id name t uid t' :
  dget id t = None -> identity_for locals id name t = Ok (uid, t') ->
  200000 <= uid /\ (forall kv, kv ∈ locals -> py_int (part 2 kv.2) <> Some uid) /\ dget id t' = Some (name, uid).
Proof.
  intros Hn H. unfold identity_for in H. rewrite Hn in H. apply (identity_new _ (fun occupied => skip_occupied (S (length occupied)) occupied (Z.max 200000 (next_uid t))) (fun u => t ++ [(id, (name, u))])) in H as (v & Hv & -> & ->). set (start := Z.max 200000 (next_uid t)) in *. assert (200000 <= start) by (unfold start; lia).
  destruct (skip_occupied_free (S (length v)) v start) as [Hge Hout]; [unfold at_least; pose proof (length_filter (fun x => start <= x) v); lia|].
  set (u := skip_occupied _ v start) in *. split; [lia|]. split.
  - intros kv Hkv Hu. apply Hout. apply mapM_res_Forall2 in Hv. apply list_elem_of_lookup_1 in Hkv as [i Hi].
    destruct (Forall2_lookup_l _ _ _ _ _ Hv Hi) as (x & Hx & Hnum). unfold number in Hnum. rewrite Hu in Hnum. inv_res.
    by eapply list_elem_of_lookup_2.
  - rewrite dget_app, Hn. cbn. by rewrite decide_True.
Qed.

Definition demo_lines : list pystr := [lit "root:x:0:0:root:/root:/bin/bash"; lit "other:x:200001:100::/home/o:/bin/sh"].

Lemma console_uids_witness :
  runs (lit "/h") 900 [(demo_lines, false, [(1, lit "ann"); (2, lit "bob")]); (demo_lines, false, [(3, lit "ann")])] [] =
  [(1, (lit "ann", 200000)); (2, (lit "bob", 200002)); (3, (lit "ann", 200003))]
  /\ table_ok (runs (lit "/h") 900 [(demo_lines, false, [(1, lit "ann"); (2, lit "bob")]); (demo_lines, false, [(3, lit "ann")])] []).
Proof.
  split; [by vm_compute|]. apply console_uids_never_reused. constructor; [apply NoDup_nil_2 | apply NoDup_nil_2 | constructor].
Defined.

Lemma new_identity_witness : 200000 <= 200000.
Proof.
  apply (new_identity_free (local_accounts demo_lines) 1 (lit "ann") [] 200000 [(1, (lit "ann", 200000))]); by vm_compute.
Defined.
