(* ===== verification/Watchdog.v ===== *)
(** * The hardware watchdog daemon

    [ffn_watchdogd.py]: the ioctl numbers, the device wrapper (each call's kernel outcome is an input), the health
    evaluation, the choice of the petting interval and one round of the loop of [serve].  The hardware is a deadline:
    it resets the box when more than its timeout passes between two pets. Times are whole seconds. *)

From S2P Require Import Prelude PyStr PyDict PyIp PyXml PyIp6 PolicyObjects NatPolicy PyJson JwtKeys.

(** ** Requests of linux/watchdog.h *)

Definition _IOC (direction typ nr size : Z) : Z :=
  Z.lor (Z.lor (Z.lor (Z.shiftl direction 30) (Z.shiftl size 16)) (Z.shiftl typ 8)) nr.
Definition _IOC_WRITE : Z := 1.
Definition _IOC_READ : Z := 2.
Definition W : Z := 87.
Definition _WD_INFO_SIZE : Z := 4 + 4 + 32.
Definition WDIOC_GETSUPPORT : Z := _IOC _IOC_READ W 0 _WD_INFO_SIZE.
Definition WDIOC_GETBOOTSTATUS : Z := _IOC _IOC_READ W 2 4.
Definition WDIOC_SETOPTIONS : Z := _IOC _IOC_READ W 4 4.
Definition WDIOC_KEEPALIVE : Z := _IOC _IOC_READ W 5 4.
Definition WDIOC_SETTIMEOUT : Z := _IOC (Z.lor _IOC_READ _IOC_WRITE) W 6 4.
Definition WDIOC_GETTIMEOUT : Z := _IOC _IOC_READ W 7 4.
Definition WDIOC_GETTIMELEFT : Z := _IOC _IOC_READ W 10 4.

(** ** Configuration *)

Definition DEFAULT_CONFIG : obj :=
  [(lit "enable", JBool true); (lit "device", J ""); (lit "timeout_sec", JInt 60); (lit "pet_interval_sec", JInt 15);
   (lit "require_health", JBool false); (lit "startup_grace_sec", JInt 300); (lit "strikes_to_bite", JInt 3);
   (lit "critical_units", JList [J "ffn-configd"; J "ffn-manager-v2"]); (lit "sysd_heartbeats", JList []);
   (lit "sysd_stale_sec", JInt 90); (lit "disarm_on_exit", JBool true)].

(** [cfg.update(got)]; [file] is the parsed file, [None] when it cannot be read. *)
Definition load_config (file : option json) : obj :=
  match file with
  | Some (JObj got) => fold_left (fun c kv => dset kv.1 kv.2 c) got DEFAULT_CONFIG
  | _ => DEFAULT_CONFIG
  end.

(** ** The device *)

(** A kernel call: a value or an [OSError]. *)
Abbreviation outcome := (option Z) (only parsing).

(** What reaches the device. *)
Inductive write := Keepalive | Byte | Magic.

(** [pet]: the ioctl, else a byte; [None] when the write fails too. *)
Definition pet (ioctl : bool) (writable : bool) : option write :=
  if ioctl then Some Keepalive else if writable then Some Byte else None.
(** [close(disarm)]. *)
Definition close (disarm writable : bool) : list write := if disarm && writable then [Magic] else [].

(** ** Health *)

(** [unit_active]: [None] when systemctl cannot be asked, which counts as active. *)
Definition unit_active (answer : option pystr) : bool :=
  match answer with Some out => bool_decide (strip out = lit "active") | None => true end.

(** [sysd_heartbeats_ok]: [hb] is the daemon's table of ages, [None] when it cannot be asked. *)
Definition stale (hb : list (pystr * Z)) (stale_sec : Z) (n : pystr) : bool :=
  match dget n hb with None => true | Some age => stale_sec <? age end.
Definition sysd_heartbeats_ok (names : list pystr) (stale_sec : Z) (hb : option (list (pystr * Z))) : bool :=
  match names, hb with
  | [], _ => true
  | _, None => true
  | _, Some hb => negb (existsb (stale hb stale_sec) names)
  end.

Record health_inputs := { h_units : pystr -> option pystr; h_sysd : option (list (pystr * Z)) }.
Definition evaluate_health (units names : list pystr) (stale_sec : Z) (i : health_inputs) : bool :=
  forallb (fun u => unit_active (h_units i u)) units && sysd_heartbeats_ok names stale_sec (h_sysd i).

(** ** [serve] *)

(** The numbers of a configuration, as [serve] reads them. *)
Record settings := {
  s_requested : Z; s_interval : Z; s_require_health : bool; s_grace : Z; s_strikes : Z;
  s_units : list pystr; s_names : list pystr; s_stale : Z }.

(** The hardware's timeout and the interval: [get_timeout() or requested], and a third of it when the configured
    interval is not shorter. *)
Definition actual_timeout (s : settings) (got : outcome) : Z :=
  match got with Some t => if t =? 0 then s_requested s else t | None => s_requested s end.
Definition pet_interval (s : settings) (actual : Z) : Z :=
  if actual <=? s_interval s then Z.max 1 (actual / 3) else s_interval s.

Record loop_state := { l_strikes : Z; l_pets : Z; l_withholding : bool }.
Definition start_state : loop_state := {| l_strikes := 0; l_pets := 0; l_withholding := false |}.

(** One round at time [now]: the new state and whether the device was petted. [l_withholding] is the announcement that
    pets are being withheld. *)
Definition round (s : settings) (started now : Z) (i : health_inputs) (st : loop_state) : loop_state * bool :=
  let healthy :=
    if s_require_health s then
      if now - started <? s_grace s then true else evaluate_health (s_units s) (s_names s) (s_stale s) i
    else true in
  if healthy then ({| l_strikes := 0; l_pets := l_pets st + 1; l_withholding := false |}, true)
  else
    let strikes := l_strikes st + 1 in
    ({| l_strikes := strikes; l_pets := l_pets st; l_withholding := s_strikes s <=? strikes |}, false).

(** The rounds at [started], [started + interval], ...: the times of the pets. *)
Fixpoint rounds (s : settings) (started interval now : Z) (ins : list health_inputs) (st : loop_state) : list Z * loop_state :=
  match ins with
  | [] => ([], st)
  | i :: t =>
      let '(st', petted) := round s started now i st in
      let '(pets, fin) := rounds s started interval (now + interval) t st' in
      (if petted then now :: pets else pets, fin)
  end.

(** ** The hardware *)

(** The box survives from the pet at [last] through the [pets] until [until]. *)
Fixpoint survives (timeout last : Z) (pets : list Z) (until : Z) : bool :=
  match pets with
  | [] => until - last <=? timeout
  | p :: t => (p - last <=? timeout) && survives timeout p t until
  end.

(** ** Theorems *)

Lemma ioc_bits d t n z k : 0 <= k -> Z.testbit (_IOC d t n z) k =
  (Z.testbit d (k - 30) || Z.testbit z (k - 16) || Z.testbit t (k - 8) || Z.testbit n k).
Proof. intros Hk. unfold _IOC. by rewrite !Z.lor_spec, !Z.shiftl_spec by lia. Qed.

Lemma bits_above n k a : 0 <= a < 2 ^ n -> n <= k -> Z.testbit a k = false.
Proof.
  intros Ha Hk. destruct (decide (a = 0)) as [->|]; [apply Z.bits_0|]. apply Z.bits_above_log2; [lia|].
  assert (Z.log2 a < n) by (apply Z.log2_lt_pow2; lia). lia.
Qed.

(** Every request number is the kernel's encoding: direction, size, type and number are read back from their bit
    fields, for all values that fit them, and the five requests have the values of linux/watchdog.h. *)
Theorem ioctl_numbers d t n z :
  0 <= d < 4 -> 0 <= z < 2 ^ 14 -> 0 <= t < 256 -> 0 <= n < 256 ->
  let r := _IOC d t n z in
  Z.shiftr r 30 = d /\ Z.land (Z.shiftr r 16) (Z.ones 14) = z /\ Z.land (Z.shiftr r 8) (Z.ones 8) = t /\ Z.land r (Z.ones 8) = n
  /\ [WDIOC_GETSUPPORT; WDIOC_GETBOOTSTATUS; WDIOC_KEEPALIVE; WDIOC_SETTIMEOUT; WDIOC_GETTIMEOUT] =
     [2150127360; 2147768066; 2147768069; 3221509894; 2147768071].
Proof.
  intros Hd Hz Ht Hn r. split; [|split; [|split; [|split]]]; [..|by vm_compute].
  1-4: apply Z.bits_inj'; intros k Hk; rewrite ?Z.land_spec, ?Z.shiftr_spec, ?Z.testbit_ones by lia; unfold r; rewrite ioc_bits by lia;
    rewrite ?Z.add_simpl_r.
  - rewrite (bits_above 14 _ z), (bits_above 8 _ t), (bits_above 8 _ n) by lia. by rewrite !orb_false_r.
  - replace (k + 16 - 16) with k by lia. rewrite (bits_above 8 _ t), (bits_above 8 _ n) by lia.
    destruct (Z.ltb_spec k 14) as [H|H].
    + rewrite (Z.testbit_neg_r d) by lia. rewrite (proj2 (Z.leb_le 0 k)) by lia. cbn. by rewrite !orb_false_r, andb_true_r.
    + by rewrite andb_false_r, andb_false_r, (bits_above 14 _ z) by lia.
  - rewrite (bits_above 8 _ n) by lia. destruct (Z.ltb_spec k 8) as [H|H].
    + rewrite (Z.testbit_neg_r d), (Z.testbit_neg_r z) by lia. rewrite (proj2 (Z.leb_le 0 k)) by lia. cbn. by rewrite !orb_false_r, andb_true_r.
    + by rewrite andb_false_r, andb_false_r, (bits_above 8 _ t) by lia.
  - destruct (Z.ltb_spec k 8) as [H|H].
    + rewrite (Z.testbit_neg_r d), (Z.testbit_neg_r z), (Z.testbit_neg_r t) by lia. rewrite (proj2 (Z.leb_le 0 k)) by lia. cbn. by rewrite andb_true_r.
    + by rewrite andb_false_r, andb_false_r, (bits_above 8 _ n) by lia.
Qed.

(** The interval is shorter than any timeout of at least two seconds. *)
Lemma pet_interval_short s actual : 2 <= actual -> pet_interval s actual < actual.
Proof.
  intros H. unfold pet_interval. destruct (actual <=? s_interval s) eqn:E; zb; [|lia].
  pose proof (Z.div_lt_upper_bound actual 3 actual). lia.
Qed.

(** The health check passes, or is not consulted. *)
Definition fine (s : settings) (i : health_inputs) : Prop :=
  s_require_health s = true -> evaluate_health (s_units s) (s_names s) (s_stale s) i = true.

Lemma round_fine s started now i st : fine s i -> (round s started now i st).2 = true.
Proof.
  unfold fine, round. intros H. destruct (s_require_health s); [|done]. rewrite H by done. by destruct (_ <? _).
Qed.

(** Rounds of a fine box pet every time. *)
Lemma fine_survives s started interval timeout ins : interval <= timeout -> Forall (fine s) ins -> forall now last st,
  now - last <= timeout -> 0 < interval ->
  survives timeout last (rounds s started interval now ins st).1 (now + Z.of_nat (length ins) * interval) = true.
Proof.
  intros Hi. induction 1 as [|i ins Hf _ IH]; intros now last st Hn Hp; cbn [rounds survives fst length].
  - apply Z.leb_le. lia.
  - pose proof (round_fine s started now i st Hf) as Hr. destruct (round s started now i st) as [st' petted]. cbn [snd] in Hr. subst petted.
    specialize (IH (now + interval) now st' ltac:(lia) Hp).
    destruct (rounds s started interval (now + interval) ins st') as [pets fin]. cbn [fst survives] in *.
    rewrite (proj2 (Z.leb_le _ _)) by lia. cbn. replace (now + Z.of_nat (S (length ins)) * interval)
      with (now + interval + Z.of_nat (length ins) * interval) by lia. exact IH.
Qed.

(** A working box is never reset: whatever timeout of at least two seconds the hardware grants and whatever positive
    interval is configured, as long as every health check passes (or gating is off) no two pets are further apart than
    the timeout, up to and including the next round. *)
Theorem working_box_survives s got started ins :
  let actual := actual_timeout s got in
  let interval := pet_interval s actual in
  2 <= actual -> 0 < s_interval s -> Forall (fine s) ins ->
  survives actual started (rounds s started interval started ins start_state).1 (started + Z.of_nat (length ins) * interval) = true.
Proof.
  intros actual interval Ha Hs Hf. pose proof (pet_interval_short s actual Ha). apply fine_survives; [unfold interval; lia | done | lia |].
  unfold interval, pet_interval. case_ifs; lia.
Qed.

(** A wedged box: gating on, grace over, every check fails. *)
Lemma failing_rounds_silent s started interval ins : s_require_health s = true -> 0 <= interval ->
  Forall (fun i => evaluate_health (s_units s) (s_names s) (s_stale s) i = false) ins -> forall now st,
  s_grace s <= now - started -> (rounds s started interval now ins st).1 = [].
Proof.
  intros Hh Hi. induction 1 as [|i ins Hf _ IH]; intros now st Hg; [done|]. cbn [rounds].
  destruct (round s started now i st) as [st' petted] eqn:E. unfold round in E. rewrite Hh, Hf, (proj2 (Z.ltb_ge _ _)) in E by lia.
  injection E as <- <-. specialize (IH (now + interval) {| l_strikes := l_strikes st + 1; l_pets := l_pets st; l_withholding := s_strikes s <=? l_strikes st + 1 |} ltac:(lia)).
  destruct (rounds _ _ _ _ _ _). exact IH.
Qed.

(** A wedged box is reset: once the grace period is over and every health check fails, the daemon stops petting, and
    the hardware's timeout expires as soon as it has passed since the last pet. *)
Theorem wedged_box_resets s started interval now ins st timeout last until :
  s_require_health s = true -> 0 <= interval -> s_grace s <= now - started ->
  Forall (fun i => evaluate_health (s_units s) (s_names s) (s_stale s) i = false) ins -> timeout < until - last ->
  survives timeout last (rounds s started interval now ins st).1 until = false.
Proof.
  intros Hh Hi Hg Hf Hu. rewrite failing_rounds_silent by done. cbn. by apply Z.leb_gt.
Qed.

(** ** The strike rule *)

Definition with_strikes (n : Z) (s : settings) : settings :=
  {| s_requested := s_requested s; s_interval := s_interval s; s_require_health := s_require_health s; s_grace := s_grace s;
     s_strikes := n; s_units := s_units s; s_names := s_names s; s_stale := s_stale s |}.

Lemma strikes_no_effect n s started interval ins : forall now st st', l_strikes st = l_strikes st' -> l_pets st = l_pets st' ->
  (rounds (with_strikes n s) started interval now ins st).1 = (rounds s started interval now ins st').1.
Proof.
  induction ins as [|i ins IH]; intros now st st' H1 H2; [done|]. cbn [rounds]. unfold round, with_strikes. cbn [s_require_health s_grace s_units s_names s_stale s_strikes].
  set (healthy := if s_require_health s then _ else true). destruct healthy; rewrite <- ?H1, <- ?H2.
  - match goal with |- context [rounds s _ _ _ _ ?a] => specialize (IH (now + interval) a a eq_refl eq_refl) end.
    fold (with_strikes n s). destruct (rounds (with_strikes n s) _ _ _ _ _), (rounds s _ _ _ _ _). cbn [fst] in *. by rewrite IH.
  - match goal with |- context [rounds s _ _ _ _ ?a] => match goal with |- context [rounds {| s_requested := _ |} _ _ _ _ ?b] =>
      specialize (IH (now + interval) b a eq_refl eq_refl) end end.
    fold (with_strikes n s). destruct (rounds (with_strikes n s) _ _ _ _ _), (rounds s _ _ _ _ _). cbn [fst] in *. by rewrite IH.
Qed.

Definition up (_ : pystr) : option pystr := Some (lit "active").
Definition down (_ : pystr) : option pystr := Some (lit "failed").
Definition tight : settings :=
  {| s_requested := 60; s_interval := 50; s_require_health := true; s_grace := 0; s_strikes := 3;
     s_units := [lit "ffn-configd"]; s_names := []; s_stale := 90 |}.
Definition hiccup : list health_inputs :=
  [ {| h_units := up; h_sysd := None |}; {| h_units := down; h_sysd := None |}; {| h_units := up; h_sysd := None |} ].

(** The strike count decides nothing: for every number of strikes the device is petted at exactly the same times,
    namely never in an unhealthy round, so that with an interval above half the timeout one failed check between two
    good ones resets the box although three strikes are required. *)
Theorem strikes_are_ignored :
  (forall n s started interval ins, (rounds (with_strikes n s) started interval started ins start_state).1 =
     (rounds s started interval started ins start_state).1)
  /\ pet_interval tight (actual_timeout tight (Some 60)) = 50
  /\ (rounds tight 0 50 0 hiccup start_state).1 = [0; 100]
  /\ survives 60 0 (rounds tight 0 50 0 hiccup start_state).1 100 = false.
Proof. split; [|by vm_compute]. intros. by apply strikes_no_effect. Qed.

Lemma ioctl_numbers_witness : Z.shiftr (_IOC 3 W 6 4) 30 = 3.
Proof. apply (ioctl_numbers 3 W 6 4); by vm_compute. Defined.

Lemma working_box_witness :
  survives 60 0 (rounds tight 0 50 0 [ {| h_units := up; h_sysd := None |}; {| h_units := up; h_sysd := Some [] |} ] start_state).1 100 = true.
Proof.
  apply (working_box_survives tight (Some 60) 0 [ {| h_units := up; h_sysd := None |}; {| h_units := up; h_sysd := Some [] |} ]);
    [by vm_compute | by vm_compute | repeat constructor; intros _; by vm_compute].
Defined.

Lemma wedged_box_witness : survives 60 0 (rounds tight 0 50 50 [ {| h_units := down; h_sysd := None |} ] start_state).1 61 = false.
Proof. apply wedged_box_resets; [done | lia | by vm_compute | repeat constructor | lia]. Defined.
