(* ===== verification/DbCompiler.v ===== *)
(** * The signature database compilers

    [db_compiler.py]: sixteen text formats are compiled to table images for the packet engines, six (and the data-loss
    rules) to 64-bit words of indexed memory tables, the rest to fixed-size records of external memory with a Bloom
    filter.  A file is its list of lines.  [str.lower] and [str.upper] (the Unicode tables), [zlib.crc32] and MD5 are
    functions given as parameters. *)

From S2P Require Import Prelude PyStr PyDict PyIp PyXml PyIp6 PolicyObjects NatPolicy PyJson.

Inductive db_error := ValueErr | StructErr | IndexErr.

(** ** Text *)

(** [s.split()]. *)
Fixpoint words_go (acc : pystr) (s : pystr) : list pystr :=
  match s with
  | [] => match acc with [] => [] | _ => [rev acc] end
  | c :: t => if is_space c then match acc with [] => words_go [] t | _ => rev acc :: words_go [] t end
              else words_go (c :: acc) t
  end.
Definition words (s : pystr) : list pystr := words_go [] s.

(** [s.split(None, n)]: at most [n] splits; the last piece loses its leading white space. *)
Fixpoint take_word (s : pystr) : pystr * pystr :=
  match s with
  | [] => ([], [])
  | c :: t => if is_space c then ([], s) else let '(w, r) := take_word t in (c :: w, r)
  end.
Fixpoint words_n (n : nat) (s : pystr) : list pystr :=
  match lstrip s with
  | [] => []
  | c :: t =>
      match n with
      | O => [c :: t]
      | S k => let '(w, r) := take_word (c :: t) in w :: words_n k r
      end
  end.

(** [int(s)]. *)
Definition int_of (s : pystr) : result db_error Z := match py_int s with Some n => Ok n | None => Err ValueErr end.
(** [parts[i]] where the length was checked. *)
Definition col (i : nat) (parts : list pystr) : pystr := nth i parts [].

(** [bytes.fromhex(s)]: pairs of hexadecimal digits, ASCII white space between them. *)
Definition hex_digit_value (c : Z) : option Z :=
  if between 48 c 57 then Some (c - 48) else if between 97 c 102 then Some (c - 87) else if between 65 c 70 then Some (c - 55) else None.
Definition ascii_space (c : Z) : bool := between 9 c 13 || (c =? 32).
Fixpoint from_hex (s : pystr) : option bytes :=
  match s with
  | [] => Some []
  | c :: t =>
      if ascii_space c then from_hex t
      else match t with
           | d :: t' => match hex_digit_value c, hex_digit_value d, from_hex t' with
                        | Some x, Some y, Some r => Some (16 * x + y :: r)
                        | _, _, _ => None
                        end
           | [] => None
           end
  end.
Definition fromhex (s : pystr) : result db_error bytes := match from_hex s with Some b => Ok b | None => Err ValueErr end.
Definition encode (s : pystr) : result db_error bytes := match utf8_encode s with Some b => Ok b | None => Err ValueErr end.
(** [b.ljust(n, b'\x00')]. *)
Definition ljust (n : nat) (b : bytes) : bytes := b ++ replicate (n - length b) 0.

(** [struct.pack] of one unsigned little-endian field of [n] bytes. *)
Definition pack_u (n : nat) (v : Z) : result db_error bytes :=
  if (0 <=? v) && (v <? 256 ^ Z.of_nat n) then Ok (le_pack n v) else Err StructErr.
(** A record of such fields. *)
Definition pack_fields (l : list (nat * Z)) : result db_error bytes :=
  bs ← mapM_res (fun f => pack_u f.1 f.2) l; Ok (concat bs).

(** [_parse_lines]. *)
Definition _parse_lines (file : list pystr) : list pystr :=
  List.filter (fun l => match l with [] => false | c :: _ => negb (c =? 35) end) (map strip file).

(** ** Numbers *)

Definition low (n v : Z) : Z := Z.land v (Z.ones n).

(** [_fnv1a_64]. *)
Definition _fnv1a_64 (data : bytes) : Z :=
  fold_left (fun h b => low 64 (Z.lxor h b * 1099511628211)) data 14695981039346656037.

Definition _iow (nr size : Z) : Z := Z.lor (Z.lor (Z.lor (Z.shiftl 1 30) (Z.shiftl size 16)) (Z.shiftl 78 8)) nr.

Definition net_parts (n : ipnet) : Z * Z := match n with Net4 a p => (a, p) | Net6 a p _ => (a, p) end.
Definition _net_to_int (s : pystr) : result db_error (Z * Z) :=
  match ip_network false (strip s) with Some n => Ok (net_parts n) | None => Err ValueErr end.
Definition _ip_to_int (s : pystr) : result db_error Z :=
  match ip_address (strip s) with Some (IPv4 a) | Some (IPv6 a _) => Ok a | None => Err ValueErr end.

Definition table (l : list (string * Z)) : list (pystr * Z) := map (fun kv => (lit kv.1, kv.2)) l.
Definition PROTO_MAP : list (pystr * Z) :=
  table [("any", 0); ("tcp", 6); ("udp", 17); ("icmp", 1); ("gre", 47); ("esp", 50); ("ah", 51); ("sctp", 132)]%string.
Definition POLICY_ACTION : list (pystr * Z) := table [("allow", 1); ("permit", 1); ("deny", 0); ("log", 2); ("punt", 3)]%string.
Definition lookup (t : list (pystr * Z)) (k : pystr) (d : Z) : Z := default d (dget k t).

(** [struct.pack('<HQ', idx, d)] for every entry. *)
Definition entry_record (e : Z * Z) : result db_error bytes := pack_fields [(2%nat, e.1); (8%nat, e.2)].
Definition bram_payload (l : list (Z * Z)) : result db_error bytes :=
  bs ← mapM_res entry_record l; Ok (concat bs).

(** A line gives no, one or several entries. *)
Definition each_line {A} (f : pystr -> result db_error (list A)) (file : list pystr) : result db_error (list A) :=
  ls ← mapM_res f (_parse_lines file); Ok (concat ls).

Section Compilers.
Context (lower upper : pystr -> pystr) (crc32 : bytes -> Z) (md5 : bytes -> bytes).

(** ** Memory tables *)

(** The ports of one application line: at most sixty-four. *)
Definition appid_ports (s : pystr) : result db_error (list Z) :=
  lohi ← (if contains [45] s then
            match split_on 45 s with
            | [lo; hi] => l ← int_of lo; h ← int_of hi; Ok (l, h)
            | _ => Err ValueErr
            end
          else p ← int_of s; Ok (p, p));
  let '(lo, hi) := lohi in
  Ok (map (fun k => lo + Z.of_nat k) (seq 0 (Z.to_nat (Z.min (hi + 1) (lo + 64) - lo)))).
Definition appid_entry (proto app port : Z) : Z * Z :=
  (low 16 (Z.lxor (Z.shiftl (low 8 proto) 8) (low 16 port)),
   Z.lor (Z.lor (Z.shiftl 1 16) (Z.shiftl (low 7 proto) 17)) (low 16 app)).
Definition compile_appid_line (line : pystr) : result db_error (list (Z * Z)) :=
  let parts := words line in
  if (length parts <? 4)%nat then Ok [] else
  app ← int_of (col 2 parts);
  let proto := lookup PROTO_MAP (lower (col 0 parts)) 0 in
  ports ← appid_ports (col 1 parts);
  Ok (map (appid_entry proto app) ports).

Definition zone_entry (zone port vlan : Z) : Z * Z :=
  (Z.lor (Z.shiftl (low 2 port) 12) (low 12 vlan), Z.lor (Z.shiftl 1 8) (low 8 zone)).
Definition compile_zones_line (line : pystr) : result db_error (list (Z * Z)) :=
  let parts := words line in
  if (length parts <? 4)%nat then Ok [] else
  zone ← int_of (col 0 parts);
  port ← int_of (col 1 parts);
  vlan ← int_of (col 2 parts);
  Ok [zone_entry zone port vlan].

Definition ddos_entry (zone threshold : Z) : Z * Z := (low 8 zone, Z.lor (Z.shiftl 1 32) (low 32 threshold)).
Definition compile_ddos_pps_line (line : pystr) : result db_error (list (Z * Z)) :=
  let parts := words line in
  if (length parts <? 2)%nat then Ok [] else
  zone ← int_of (col 0 parts);
  threshold ← int_of (col 1 parts);
  Ok [ddos_entry zone threshold].

(** A port range of a policy line: anything without a dash is every port. *)
Definition policy_ports (s : pystr) : result db_error (Z * Z) :=
  if contains [45] s then
    l ← mapM_res int_of (split_on 45 s);
    match l with [lo; hi] => Ok (lo, hi) | _ => Err ValueErr end
  else Ok (0, 65535).
Definition policy_match (src dst : Z) : Z := Z.lor (Z.shiftl (low 32 src) 32) (low 32 dst).
Definition policy_meta (action src_pfx dst_pfx proto dp_lo sp_lo dp_hi : Z) : Z :=
  Z.lor (Z.lor (Z.lor (Z.lor (Z.lor (Z.lor (Z.lor (Z.shiftl 1 63) (Z.shiftl (low 2 action) 61)) (Z.shiftl (low 5 src_pfx) 56))
    (Z.shiftl (low 5 dst_pfx) 51)) (Z.shiftl (low 8 proto) 43)) (Z.shiftl (low 16 dp_lo) 27)) (Z.shiftl (low 16 sp_lo) 11))
    (low 11 (Z.shiftr dp_hi 8)).
Definition compile_policy_line (entries : list (Z * Z)) (line : pystr) : result db_error (list (Z * Z)) :=
  let parts := words line in
  if (length parts <? 7)%nat then Ok entries else
  _ ← int_of (col 0 parts);
  src ← _net_to_int (col 1 parts);
  dst ← _net_to_int (col 2 parts);
  let proto := lookup PROTO_MAP (lower (col 3 parts)) 0 in
  sp ← policy_ports (col 4 parts);
  dp ← policy_ports (col 5 parts);
  let action := lookup POLICY_ACTION (lower (col 6 parts)) 0 in
  let base := blen entries / 2 in
  Ok (entries ++ [(base * 2, policy_match src.1 dst.1);
                  (base * 2 + 1, policy_meta action src.2 dst.2 proto dp.1 sp.1 dp.2)]).

Definition app_policy_entry (app action log_level max_bps : Z) : Z * Z :=
  let scaled := low 32 (max_bps / 1000) in
  (low 16 app,
   Z.lor (Z.lor (Z.lor (Z.lor (Z.shiftl 1 63) (Z.shiftl (low 2 action) 61)) (Z.shiftl (low 2 log_level) 59))
     (Z.shiftl (low 32 scaled) 27)) (low 16 app)).
Definition compile_app_policy_line (line : pystr) : result db_error (list (Z * Z)) :=
  let parts := words line in
  if (length parts <? 4)%nat then Ok [] else
  app ← int_of (col 0 parts);
  log_level ← int_of (col 2 parts);
  max_bps ← int_of (col 3 parts);
  Ok [app_policy_entry app (lookup POLICY_ACTION (lower (col 1 parts)) 0) log_level max_bps].

Definition qos_entry (port queue weight : Z) : Z * Z :=
  (Z.lor (Z.shiftl (low 2 port) 3) (low 3 queue), Z.lor (Z.shiftl 1 8) (low 8 weight)).
Definition compile_qos_line (line : pystr) : result db_error (list (Z * Z)) :=
  let parts := words line in
  if (length parts <? 3)%nat then Ok [] else
  port ← int_of (col 0 parts);
  queue ← int_of (col 1 parts);
  weight ← int_of (col 2 parts);
  Ok [qos_entry port queue weight].

Definition DLP_DETECTOR : list (pystr * Z) :=
  table [("credit_card", 1); ("ssn", 2); ("api_key", 3); ("email", 4); ("keyword", 8); ("regex", 9); ("custom", 10)]%string.
Definition DLP_BUILTIN : list pystr := map lit ["credit_card"; "ssn"; "api_key"; "email"]%string.
Definition DLP_ACTION : list (pystr * Z) := table [("alert", 0); ("log", 1); ("block", 2); ("quarantine", 3)]%string.
Definition DLP_DIRECTION : list (pystr * Z) := table [("egress", 1); ("ingress", 2); ("both", 3)]%string.
Definition DLP_SEVERITY : list (pystr * Z) := table [("low", 1); ("medium", 2); ("high", 3)]%string.
Definition dlp_word (fp det threshold direction severity action : Z) : Z :=
  Z.lor (Z.lor (Z.lor (Z.lor (Z.lor (Z.lor (Z.shiftl (low 32 fp) 32) (Z.shiftl (low 8 det) 24)) (Z.shiftl (low 8 threshold) 16))
    (Z.shiftl (low 4 direction) 12)) (Z.shiftl (low 4 severity) 8)) (Z.shiftl (low 4 action) 4)) 1.
Definition dlp_threshold (parts : list pystr) : Z :=
  if (6 <? length parts)%nat then match py_int (col 6 parts) with Some n => Z.max 1 (Z.min 255 n) | None => 1 end else 1.
Definition dlp_field (i : nat) (parts : list pystr) (dflt : string) : pystr :=
  if (i <? length parts)%nat then lower (strip (col i parts)) else lit dflt.
Definition compile_dlp_line (idx : Z) (line : pystr) : result db_error (list (Z * Z)) :=
  let tabs := split_on 9 line in
  let parts := if (length tabs <? 4)%nat then words_n 3 line else tabs in
  if (length parts <? 4)%nat then Ok [] else
  let dtype := lower (strip (col 1 parts)) in
  let action := lower (strip (col 3 parts)) in
  fp ← (if bool_decide (dtype ∈ DLP_BUILTIN) then Ok 0 else b ← encode (col 2 parts); Ok (low 32 (_fnv1a_64 b)));
  Ok [(idx, dlp_word fp (lookup DLP_DETECTOR dtype 10) (dlp_threshold parts)
              (lookup DLP_DIRECTION (dlp_field 5 parts "egress") 1) (lookup DLP_SEVERITY (dlp_field 4 parts "medium") 2)
              (lookup DLP_ACTION action 2))].

(** ** Bloom filters *)

Definition BLOOM_FILTER_BITS : Z := 65536.
(** [_bloom_hashes]: three positions. *)
Definition _bloom_hashes (value : bytes) : list Z :=
  let h1 := crc32 value in
  let h2 := crc32 (value ++ [1]) in
  map (fun i => (h1 + i * h2) mod BLOOM_FILTER_BITS) [0; 1; 2].

(** ** External memory: the record of a line and the positions it adds to the filter *)

Definition record := (bytes * list Z)%type.

Definition compile_threats_line (line : pystr) : result db_error (list record) :=
  let parts := words_n 3 line in
  if (length parts <? 3)%nat then Ok [] else
  sig ← int_of (col 0 parts);
  severity ← int_of (col 2 parts);
  let h := col 1 parts in
  let h := if Nat.odd (length h) then h ++ [48] else h in
  pattern ← fromhex (take 8 h);
  let value := low 32 (be_unpack (ljust 4 pattern)) in
  entry ← pack_fields [(2%nat, sig); (1%nat, severity); (1%nat, 1); (4%nat, value)];
  Ok [(entry, _bloom_hashes pattern)].

Definition cat_map : list (pystr * Z) :=
  table [("malicious", 3); ("evil", 3); ("malware", 3); ("ransomware", 3); ("phishing", 4); ("fake", 4); ("verify", 4);
         ("secure-login", 4); ("tor", 6); ("vpn", 6); ("proxy", 6); ("hidemyass", 6); ("coinhive", 10); ("crypto", 10);
         ("webmine", 10); ("minero", 10); ("authedmine", 10); ("doubleclick", 9); ("adservice", 9); ("googletag", 9);
         ("google-analytics", 9); ("googlesyndication", 9); ("facebook.com/tr", 9); ("adult", 1); ("gambling", 2);
         ("youtube", 8); ("netflix", 8); ("disney", 8); ("hulu", 8); ("twitch", 8); ("facebook", 7); ("twitter", 7);
         ("instagram", 7); ("tiktok", 7); ("linkedin", 7); ("snapchat", 7); ("microsoft", 100); ("windowsupdate", 100);
         ("google.com", 100); ("apple.com", 100); ("ubuntu", 100); ("redhat", 100); ("github", 100); ("gitlab", 100);
         ("stackoverflow", 100)]%string.
Definition category (url : pystr) : Z :=
  match List.find (fun kv => contains kv.1 (lower url)) cat_map with Some kv => kv.2 | None => 0 end.
Definition compile_url_line (line : pystr) : result db_error (list record) :=
  let url := strip line in
  b ← encode url;
  entry ← pack_fields [(4%nat, low 32 (_fnv1a_64 b)); (1%nat, low 8 (category url)); (1%nat, 1);
                       (2%nat, low 16 (le_unpack (take 4 (md5 b))))];
  Ok [(entry, _bloom_hashes b)].

Definition country (s : pystr) : Z :=
  match upper (take 2 (strip s)) with [a; b] => Z.lor (Z.shiftl a 8) b | _ => 0 end.
Definition compile_geoip_line (line : pystr) : result db_error (list record) :=
  let parts := words line in
  if (length parts <? 2)%nat then Ok [] else
  match ip_network false (col 0 parts) with
  | None => Err ValueErr
  | Some n =>
      let '(ip, pfx) := net_parts n in
      entry ← pack_fields [(4%nat, ip); (1%nat, pfx); (2%nat, country (col 1 parts)); (1%nat, 1)];
      Ok [(entry, [])]
  end.

Definition compile_blocklist_line (now : Z) (line : pystr) : result db_error (list record) :=
  ip ← _ip_to_int (col 0 (words line));
  entry ← pack_fields [(4%nat, ip); (4%nat, low 32 now); (4%nat, 0); (4%nat, 1)];
  Ok [(entry, _bloom_hashes (be_pack 4 ip))].

Definition compile_dns_blocklist_line (line : pystr) : result db_error (list record) :=
  b ← encode (lower (strip line));
  let h := _fnv1a_64 b in
  entry ← pack_fields [(4%nat, low 32 h); (4%nat, low 32 (Z.shiftr h 32)); (4%nat, 1)];
  Ok [(entry, _bloom_hashes b)].

Definition compile_malware_hashes_line (line : pystr) : result db_error (list record) :=
  match words_n 1 line with
  | [] => Ok []
  | w :: _ => let h := strip w in
              if negb (length h =? 64)%nat then Ok [] else b ← fromhex h; Ok [(b, [])]
  end.

Definition FILE_ACTION : list (pystr * Z) := table [("allow", 0); ("log", 1); ("deny", 2); ("punt", 3)]%string.
Definition compile_file_magic_line (line : pystr) : result db_error (list record) :=
  let parts := words line in
  if (length parts <? 3)%nat then Ok [] else
  category ← int_of (col 1 parts);
  magic ← fromhex (List.filter (fun c => negb (c =? 95)) (col 0 parts));
  tail ← pack_fields [(1%nat, category); (1%nat, lookup FILE_ACTION (lower (col 2 parts)) 0); (2%nat, 1)];
  Ok [(ljust 8 (take 8 magic) ++ tail, [])].

Definition compile_tls_fingerprints_line (line : pystr) : result db_error (list record) :=
  let parts := words_n 2 line in
  if (length parts <? 3)%nat then Ok [] else
  let h := strip (col 0 parts) in
  category ← int_of (col 1 parts);
  if negb (length h =? 32)%nat then Ok [] else
  b ← fromhex h;
  tail ← pack_fields [(1%nat, category); (1%nat, 1); (2%nat, 0)];
  Ok [(b ++ tail, [])].

Definition IOC_TYPE_MAP : list (pystr * Z) :=
  table [("ip", 1); ("domain", 2); ("sni", 3); ("uri", 4); ("ja3", 5); ("useragent", 6)]%string.
Definition IOC_ACTION : list (pystr * Z) := table [("deny", 2); ("log", 1); ("allow", 0)]%string.
Definition compile_spyware_iocs_line (line : pystr) : result db_error (list record) :=
  let parts := words_n 3 line in
  if (length parts <? 4)%nat then Ok [] else
  b ← encode (strip (col 1 parts));
  head ← pack_fields [(8%nat, _fnv1a_64 b); (1%nat, lookup IOC_TYPE_MAP (lower (strip (col 0 parts))) 0);
                      (1%nat, lookup IOC_ACTION (lower (strip (col 3 parts))) 1); (1%nat, 1); (1%nat, Z.min (blen b) 255)];
  Ok [(head ++ ljust 4 (take 4 b), [])].
End Compilers.

(** ** Bit fields *)

(** The field of [n] bits at [o]. *)
Definition field (o n w : Z) : Z := low n (Z.shiftr w o).

Lemma low_mod n v : 0 <= n -> low n v = v mod 2 ^ n.
Proof. apply Z.land_ones. Qed.

Lemma low_bound n v : 0 <= n -> 0 <= low n v < 2 ^ n.
Proof. intros Hn. rewrite low_mod by done. apply Z.mod_pos_bound. by apply Z.pow_pos_nonneg. Qed.

Lemma low_small n v : 0 <= v < 2 ^ n -> low n v = v.
Proof.
  intros Hv. destruct (Z.neg_nonneg_cases n) as [Hn|Hn]; [rewrite Z.pow_neg_r in Hv by done; lia|].
  rewrite low_mod by done. by apply Z.mod_small.
Qed.

Lemma low_bit n v k : 0 <= n -> 0 <= k -> Z.testbit (low n v) k = Z.testbit v k && (k <? n).
Proof. intros Hn Hk. unfold low. rewrite Z.land_spec, Z.testbit_ones_nonneg by lia. done. Qed.

Lemma field_lor o n a b : field o n (Z.lor a b) = Z.lor (field o n a) (field o n b).
Proof. unfold field, low. by rewrite Z.shiftr_lor, Z.land_lor_distr_l. Qed.

(** A field reads back what was put there, and nothing of the others. *)
Lemma field_here o n v : 0 <= o -> 0 <= n -> field o n (Z.shiftl (low n v) o) = low n v.
Proof.
  intros Ho Hn. unfold field. rewrite Z.shiftr_shiftl_l, Z.sub_diag, Z.shiftl_0_r by lia. apply low_small. by apply low_bound.
Qed.

Lemma field_apart o n o' n' v : 0 <= o -> 0 <= n -> 0 <= o' -> 0 <= n' -> o' + n' <= o \/ o + n <= o' ->
  field o n (Z.shiftl (low n' v) o') = 0.
Proof.
  intros Ho Hn Ho' Hn' Hd. apply Z.bits_inj'. intros k Hk. unfold field. rewrite low_bit, Z.shiftr_spec, Z.shiftl_spec, Z.bits_0 by lia.
  destruct (Z.ltb_spec k n); [|by rewrite andb_false_r]. rewrite andb_true_r.
  destruct (Z.neg_nonneg_cases (k + o - o')) as [Hneg|Hpos]; [by rewrite Z.testbit_neg_r|].
  rewrite low_bit by lia. apply andb_false_intro2, Z.ltb_ge. lia.
Qed.

(** The same without a shift, for the lowest field, and for a constant bit. *)
Lemma field_here0 n v : 0 <= n -> field 0 n (low n v) = low n v.
Proof. intros Hn. pose proof (field_here 0 n v). rewrite Z.shiftl_0_r in *. auto with lia. Qed.
Lemma field_apart0 o n n' v : 0 <= o -> 0 <= n -> 0 <= n' -> n' <= o -> field o n (low n' v) = 0.
Proof. intros. rewrite <- (Z.shiftl_0_r (low n' v)). apply field_apart; lia. Qed.
Lemma one_bit o : Z.shiftl 1 o = Z.shiftl (low 1 1) o.
Proof. done. Qed.
Lemma lor_one a : Z.lor a 1 = Z.lor a (low 1 1).
Proof. done. Qed.

Lemma shifted_fits n v o m : 0 <= o -> 0 <= n -> n + o <= m -> 0 <= Z.shiftl (low n v) o < 2 ^ m.
Proof.
  intros Ho Hn Hm. pose proof (low_bound n v Hn). rewrite Z.shiftl_mul_pow2 by done.
  split; [apply Z.mul_nonneg_nonneg; lia|].
  apply Z.lt_le_trans with (2 ^ n * 2 ^ o); [apply Z.mul_lt_mono_pos_r; lia|].
  rewrite <- Z.pow_add_r by lia. apply Z.pow_le_mono_r; lia.
Qed.

Lemma lor_fits a b m : 0 <= m -> 0 <= a < 2 ^ m -> 0 <= b < 2 ^ m -> 0 <= Z.lor a b < 2 ^ m.
Proof.
  intros Hm Ha Hb. replace (Z.lor a b) with (low m (Z.lor a b)); [by apply low_bound|].
  unfold low. rewrite Z.land_lor_distr_l. f_equal; by apply low_small.
Qed.

Lemma low_fits n v m : 0 <= n -> n <= m -> 0 <= low n v < 2 ^ m.
Proof. intros Hn Hm. pose proof (low_bound n v Hn). pose proof (Z.pow_le_mono_r 2 n m). lia. Qed.

(** [w] is an unsigned number of [n] bits. *)
Definition fits_in (n w : Z) : Prop := 0 <= w < 2 ^ n.

(** [fields]: read a field out of a word put together from disjoint ones; [fits]: the word fits its width. *)
Ltac fields :=
  rewrite ?one_bit, ?lor_one, ?field_lor;
  repeat first [ rewrite field_here by lia | rewrite field_apart by lia | rewrite field_here0 by lia | rewrite field_apart0 by lia ];
  rewrite ?Z.lor_0_l, ?Z.lor_0_r; try reflexivity.
Ltac fits := unfold fits_in; rewrite ?one_bit, ?lor_one; repeat (apply lor_fits; [lia|..]); first [apply shifted_fits; lia | apply low_fits; lia].


(** The words of the memory tables read back field by field: every entry of the App-ID, zone, DDoS, QoS,
    application-policy and data-loss tables fits a 64-bit word and an index of its key's width, is marked valid, and the
    documented bit ranges hold the compiled values (taken modulo the field's width), with no field spilling into
    another. *)
Theorem table_words_decode :
  (forall proto app port, let '(i, w) := appid_entry proto app port in
     fits_in 16 i /\ fits_in 64 w /\ field 0 16 w = low 16 app /\ field 16 1 w = 1 /\ field 17 7 w = low 7 proto)
  /\ (forall zone port vlan, let '(i, w) := zone_entry zone port vlan in
     fits_in 14 i /\ field 12 2 i = low 2 port /\ field 0 12 i = low 12 vlan
     /\ fits_in 64 w /\ field 8 1 w = 1 /\ field 0 8 w = low 8 zone)
  /\ (forall zone threshold, let '(i, w) := ddos_entry zone threshold in
     fits_in 8 i /\ fits_in 64 w /\ field 32 1 w = 1 /\ field 0 32 w = low 32 threshold)
  /\ (forall port queue weight, let '(i, w) := qos_entry port queue weight in
     fits_in 5 i /\ field 3 2 i = low 2 port /\ field 0 3 i = low 3 queue /\ fits_in 64 w /\ field 8 1 w = 1 /\ field 0 8 w = low 8 weight)
  /\ (forall app action log bps, let '(i, w) := app_policy_entry app action log bps in
     fits_in 16 i /\ fits_in 64 w /\ field 63 1 w = 1 /\ field 61 2 w = low 2 action /\ field 59 2 w = low 2 log
     /\ field 27 32 w = low 32 (bps / 1000) /\ field 0 16 w = low 16 app)
  /\ (forall fp det th dir sev act, let w := dlp_word fp det th dir sev act in
     fits_in 64 w /\ field 32 32 w = low 32 fp /\ field 24 8 w = low 8 det /\ field 16 8 w = low 8 th /\ field 12 4 w = low 4 dir
     /\ field 8 4 w = low 4 sev /\ field 4 4 w = low 4 act /\ field 0 1 w = 1).
Proof.
  assert (Hll : forall n v, 0 <= n -> low n (low n v) = low n v) by (intros; apply low_small; by apply low_bound).
  unfold appid_entry, zone_entry, ddos_entry, qos_entry, app_policy_entry, dlp_word. cbv beta zeta iota.
  repeat match goal with |- _ /\ _ => split | |- forall _, _ => intro end; first [by apply low_bound | by fits | fields].
  all: by rewrite ?Hll by lia.
Qed.

(** ** The policy words *)

Lemma policy_words_decode action sp dp proto src dst dlo slo dhi :
  let w := policy_meta action sp dp proto dlo slo dhi in
  fits_in 64 w /\ field 63 1 w = 1 /\ field 61 2 w = low 2 action /\ field 56 5 w = low 5 sp /\ field 51 5 w = low 5 dp
  /\ field 43 8 w = low 8 proto /\ field 27 16 w = low 16 dlo /\ field 11 16 w = low 16 slo /\ field 0 11 w = low 11 (Z.shiftr dhi 8)
  /\ fits_in 64 (policy_match src dst) /\ field 32 32 (policy_match src dst) = low 32 src /\ field 0 32 (policy_match src dst) = low 32 dst.
Proof.
  unfold policy_meta, policy_match. cbv zeta. repeat match goal with |- _ /\ _ => split end; first [by fits | by fields].
Qed.

(** A compiled security rule is not the rule that was written in two cases. The prefix fields have five bits: they
    hold every length below 32, but a host (32) is stored as 0, bit for bit the word of a rule for any address; and a
    port column without a dash compiles to all ports, so a rule for one destination port is bit for bit the rule for
    all of them. *)
Theorem policy_rule_widened lower :
  (forall a dp proto dlo slo dhi, policy_meta a 32 dp proto dlo slo dhi = policy_meta a 0 dp proto dlo slo dhi)
  /\ (forall a sp proto dlo slo dhi, policy_meta a sp 32 proto dlo slo dhi = policy_meta a sp 0 proto dlo slo dhi)
  /\ (forall a sp dp proto dlo slo dhi, 0 <= sp < 32 -> field 56 5 (policy_meta a sp dp proto dlo slo dhi) = sp)
  /\ (forall s, contains [45] s = false -> policy_ports s = Ok (0, 65535))
  /\ foldM_res (compile_policy_line lower) [] [lit "1 203.0.113.5/32 0.0.0.0/0 tcp 0-65535 22 allow"] =
     foldM_res (compile_policy_line lower) [] [lit "1 203.0.113.5/32 0.0.0.0/0 tcp 0-65535 0-65535 allow"].
Proof.
  split; [done|]. split; [done|]. split; [|split].
  - intros. destruct (policy_words_decode a sp dp proto 0 0 dlo slo dhi) as (_ & _ & _ & -> & _). by apply low_small.
  - intros s Hs. unfold policy_ports. by rewrite Hs.
  - cbn [foldM_res]. unfold compile_policy_line.
    replace (words (lit "1 203.0.113.5/32 0.0.0.0/0 tcp 0-65535 22 allow"))
      with (map lit ["1"; "203.0.113.5/32"; "0.0.0.0/0"; "tcp"; "0-65535"; "22"; "allow"]%string) by (vm_compute; reflexivity).
    replace (words (lit "1 203.0.113.5/32 0.0.0.0/0 tcp 0-65535 0-65535 allow"))
      with (map lit ["1"; "203.0.113.5/32"; "0.0.0.0/0"; "tcp"; "0-65535"; "0-65535"; "allow"]%string) by (vm_compute; reflexivity).
    cbn [map col nth length]. replace (policy_ports (lit "22")) with (policy_ports (lit "0-65535")) by (vm_compute; reflexivity).
    reflexivity.
Qed.

(** ** Records *)

Lemma pack_u_ok n v b : pack_u n v = Ok b -> length b = n /\ bytes_ok b /\ le_unpack b = v.
Proof.
  unfold pack_u. intros H. destruct (_ && _) eqn:E; [|done]. apply ok_inj in H as <-. zb.
  split; [apply length_le_pack|]. split; [apply le_pack_bytes|]. rewrite le_unpack_pack. apply Z.mod_small. lia.
Qed.

Lemma pack_fields_length l b : pack_fields l = Ok b -> length b = sum_list l.*1.
Proof.
  unfold pack_fields. intros H. inv_res. apply mapM_res_Forall2 in Hv.
  induction Hv as [|[n x] y l v Hf _ IH]; [done|]. cbn [concat fst fmap list_fmap sum_list]. rewrite length_app.
  apply pack_u_ok in Hf as (-> & _). cbn. by rewrite IH.
Qed.

(** The records of each format have one size. *)
Definition sized (n : nat) (f : pystr -> result db_error (list record)) : Prop :=
  forall line rs, f line = Ok rs -> Forall (fun r => length r.1 = n) rs.

Definition solid (s : pystr) : Prop := Forall (fun c => is_space c = false) s.

Lemma ascii_space_space c : is_space c = false -> ascii_space c = false.
Proof.
  unfold is_space, ascii_space. rewrite !orb_false_iff. intros H. decompose [and] H. split; [done|].
  match goal with H : between 28 c 32 = false |- _ => unfold between in H end. apply Z.eqb_neq. intros ->. done.
Qed.

Lemma from_hex_length s b : solid s -> from_hex s = Some b -> length s = (2 * length b)%nat.
Proof.
  revert b. enough (H : forall s, (forall b, solid s -> from_hex s = Some b -> length s = (2 * length b)%nat) /\
    forall c b, solid (c :: s) -> from_hex (c :: s) = Some b -> length (c :: s) = (2 * length b)%nat) by apply H.
  induction s0 as [|d t [IH1 IH2]]; (split; [|intros c]); intros b Hs.
  - by intros [= <-].
  - inversion Hs as [|? ? Hc]; subst. cbn. by rewrite (ascii_space_space _ Hc).
  - by apply IH2.
  - inversion Hs as [|? ? Hc Hs']; subst. inversion Hs' as [|? ? Hd Ht]; subst. cbn [from_hex]. rewrite (ascii_space_space _ Hc).
    destruct (hex_digit_value c), (hex_digit_value d), (from_hex t) as [r|] eqn:E; try done. intros [= <-].
    specialize (IH1 r Ht eq_refl). cbn. lia.
Qed.

Lemma solid_lstrip s : solid s -> solid (lstrip s).
Proof. induction 1 as [|c t Hc Ht IH]; cbn; [constructor|]. rewrite Hc. by constructor. Qed.
Lemma solid_rev s : solid s -> solid (rev s).
Proof. unfold solid. rewrite !List.Forall_forall. intros H x Hx. apply H. by apply in_rev. Qed.
Lemma solid_strip s : solid s -> solid (strip s).
Proof. intros H. unfold strip. by apply solid_rev, solid_lstrip, solid_rev, solid_lstrip. Qed.
Lemma take_word_solid s : solid (take_word s).1.
Proof.
  induction s as [|c t IH]; cbn; [constructor|]. destruct (is_space c) eqn:E; cbn; [constructor|].
  destruct (take_word t). cbn in *. by constructor.
Qed.
Lemma words_n_solid n s : solid (col 0 (words_n (S n) s)).
Proof.
  cbn [words_n]. destruct (lstrip s) as [|c t]; [constructor|]. pose proof (take_word_solid (c :: t)) as H.
  destruct (take_word (c :: t)). exact H.
Qed.

Lemma length_ljust n b : (length b <= n)%nat -> length (ljust n b) = n.
Proof. intros H. unfold ljust. rewrite length_app, length_replicate. lia. Qed.

Section Records.
Context (lower upper : pystr -> pystr) (crc32 : bytes -> Z) (md5 : bytes -> bytes).

(** One record made by [pack_fields]. *)
Ltac packed :=
  apply Forall_singleton; cbn [fst];
  match goal with H : pack_fields _ = Ok ?t |- length ?t = _ => by rewrite (pack_fields_length _ _ H) end.
Ltac sized_by :=
  intros line rs H; cbv beta zeta delta [compile_threats_line compile_url_line compile_geoip_line compile_blocklist_line compile_dns_blocklist_line
    compile_file_magic_line compile_spyware_iocs_line] in H;
  repeat (split_if H; [by inv_res; constructor|]); inv_res; try packed.

Lemma threats_sized : sized 8 (compile_threats_line crc32).
Proof. sized_by. Qed.
Lemma url_sized : sized 8 (compile_url_line lower crc32 md5).
Proof. sized_by. Qed.
Lemma geoip_sized : sized 8 (compile_geoip_line upper).
Proof. sized_by. destruct (ip_network _ _) as [n|]; [|done]. destruct (net_parts n). inv_res. packed. Qed.
Lemma blocklist_sized now : sized 16 (compile_blocklist_line crc32 now).
Proof. sized_by. Qed.
Lemma dns_blocklist_sized : sized 12 (compile_dns_blocklist_line lower crc32).
Proof. sized_by. Qed.
Lemma file_magic_sized : sized 12 (compile_file_magic_line lower).
Proof.
  sized_by. apply Forall_singleton. cbn [fst]. rewrite length_app, length_ljust by (rewrite length_take; lia).
  match goal with H : pack_fields _ = Ok ?t |- context [length ?t] => by rewrite (pack_fields_length _ _ H) end.
Qed.
Lemma spyware_sized : sized 16 (compile_spyware_iocs_line lower).
Proof.
  sized_by. apply Forall_singleton. cbn [fst]. rewrite length_app, length_ljust by (rewrite length_take; lia).
  match goal with H : pack_fields _ = Ok ?t |- context [length ?t] => by rewrite (pack_fields_length _ _ H) end.
Qed.
Lemma malware_sized : sized 32 compile_malware_hashes_line.
Proof.
  intros line rs H. unfold compile_malware_hashes_line in H. pose proof (words_n_solid 0 line) as Hs.
  destruct (words_n 1 line) as [|w t]; [by inv_res; constructor|]. split_if H; [by inv_res; constructor|]. inv_res. zb.
  apply Forall_singleton. cbn [fst]. unfold fromhex in *. destruct (from_hex (strip w)) eqn:Eh; [|done]. inv_res.
  apply from_hex_length in Eh; [|by apply solid_strip]. apply Nat.eqb_eq in E. lia.
Qed.
Lemma tls_sized : sized 20 compile_tls_fingerprints_line.
Proof.
  intros line rs H. unfold compile_tls_fingerprints_line in H. pose proof (words_n_solid 1 line) as Hs.
  split_if H; [by inv_res; constructor|]. inv_res. split_if H; [by inv_res; constructor|]. inv_res. zb.
  apply Forall_singleton. cbn [fst]. rewrite length_app. unfold fromhex in *. destruct (from_hex (strip _)) eqn:Eh; [|done]. inv_res.
  apply from_hex_length in Eh; [|by apply solid_strip]. apply Nat.eqb_eq in E0.
  match goal with H : pack_fields _ = Ok ?t |- context [length ?t] => rewrite (pack_fields_length _ _ H) end. cbn. lia.
Qed.
End Records.
