(* ===== verification/DbLoad.v ===== *)
(** * Compiling, loading and updating a signature database

    The rest of [db_compiler.py]: the dispatch over the sixteen formats, the binary file with its header, and the writes
    [do_load] and [do_update] make to the device, as a list in order.  The device is modelled as memory: a table word or
    a byte of external memory holds what was written to it last. *)

From S2P Require Import Prelude PyStr PyDict PyIp PyXml PyIp6 PolicyObjects NatPolicy PyJson DbCompiler.

Inductive db_type :=
| Appid | Zones | DdosPps | Policy | AppPolicy | Qos | Threats | Url | Geoip | Blocklist | DnsBlocklist | MalwareHashes
| FileMagic | TlsFingerprints | SpywareIocs | Dlp.
#[global] Instance db_type_eq_dec : EqDecision db_type.
Proof. solve_decision. Defined.

Definition DB_TYPE_IDS (t : db_type) : Z :=
  match t with
  | Appid => 1 | Zones => 2 | DdosPps => 3 | Policy => 4 | AppPolicy => 5 | Qos => 6 | Threats => 7 | Url => 8 | Geoip => 9
  | Blocklist => 10 | DnsBlocklist => 11 | MalwareHashes => 12 | FileMagic => 13 | TlsFingerprints => 14 | SpywareIocs => 15 | Dlp => 16
  end.

(** The table of a format, the region of external memory, and the filter. *)
Definition BRAM_TYPES (t : db_type) : option Z :=
  match t with
  | Appid => Some 6 | Zones => Some 0 | DdosPps => Some 1 | Policy => Some 26 | AppPolicy => Some 11 | Qos => Some 13 | Dlp => Some 20
  | _ => None
  end.
Definition DDR4_TYPES (t : db_type) : option Z :=
  match t with
  | Threats => Some 10 | Url => Some 8 | Geoip => Some 6 | Blocklist => Some 7 | DnsBlocklist => Some 14 | MalwareHashes => Some 11
  | FileMagic => Some 12 | TlsFingerprints => Some 13 | SpywareIocs => Some 15
  | _ => None
  end.
Definition BLOOM_TYPES (t : db_type) : option Z :=
  match t with Threats => Some 16 | Url => Some 18 | Blocklist => Some 2 | DnsBlocklist => Some 19 | _ => None end.
Definition IP_CFG_TABLES : list Z := [26; 16; 18; 19; 20].
Definition NGFW_TBL_BLOOM_PROGRAM : Z := 15.

(** What a compiler returns: entries of a table, or records and, for four formats, filter positions. *)
Inductive compiled :=
| CEntries (l : list (Z * Z))
| CRecords (l : list bytes) (bloom : option (list Z)).
Definition entry_count (c : compiled) : Z := match c with CEntries l => blen l | CRecords l _ => blen l end.

(** [enumerate(_parse_lines(path))] for the data-loss rules. *)
Definition numbered_lines (file : list pystr) : list (Z * pystr) :=
  let l := _parse_lines file in zip (map Z.of_nat (seq 0 (length l))) l.

Definition bram (r : result db_error (list (Z * Z))) : result db_error (compiled * bytes) :=
  l ← r; p ← bram_payload l; Ok (CEntries l, p).
Definition ddr (filtered : bool) (r : result db_error (list record)) : result db_error (compiled * bytes) :=
  l ← r; Ok (CRecords (map fst l) (if filtered then Some (concat (map snd l)) else None), concat (map fst l)).

Section Load.
Context (lower upper : pystr -> pystr) (crc32 : bytes -> Z) (md5 : bytes -> bytes).

(** The compiler of one line of the external-memory formats. *)
Definition ddr_line (t : db_type) (now : Z) : pystr -> result db_error (list record) :=
  match t with
  | Threats => compile_threats_line crc32
  | Url => compile_url_line lower crc32 md5
  | Geoip => compile_geoip_line upper
  | Blocklist => compile_blocklist_line crc32 now
  | DnsBlocklist => compile_dns_blocklist_line lower crc32
  | MalwareHashes => compile_malware_hashes_line
  | FileMagic => compile_file_magic_line lower
  | TlsFingerprints => compile_tls_fingerprints_line
  | SpywareIocs => compile_spyware_iocs_line lower
  | _ => fun _ => Ok []
  end.

(** [COMPILERS[db_type](path)]. *)
Definition compile (t : db_type) (now : Z) (file : list pystr) : result db_error (compiled * bytes) :=
  match t with
  | Appid => bram (each_line (compile_appid_line lower) file)
  | Zones => bram (each_line compile_zones_line file)
  | DdosPps => bram (each_line compile_ddos_pps_line file)
  | Policy => bram (foldM_res (compile_policy_line lower) [] (_parse_lines file))
  | AppPolicy => bram (each_line (compile_app_policy_line lower) file)
  | Qos => bram (each_line compile_qos_line file)
  | Threats | Url | Blocklist | DnsBlocklist => ddr true (each_line (ddr_line t now) file)
  | Geoip | MalwareHashes | FileMagic | TlsFingerprints | SpywareIocs => ddr false (each_line (ddr_line t now) file)
  | Dlp =>
      ls ← mapM_res (fun il => compile_dlp_line lower il.1 il.2) (numbered_lines file);
      let l := concat ls in
      bs ← mapM_res (fun e => pack_fields [(4%nat, e.1); (8%nat, e.2)]) l;
      Ok (CEntries l, concat bs)
  end.

(** ** The binary file *)

Definition BIN_MAGIC : bytes := [70; 70; 78; 68].
Definition _crc32 (data : bytes) : Z := low 32 (crc32 data).
Definition _make_header (type_id count payload_crc ts : Z) : result db_error bytes :=
  h ← pack_fields [(2%nat, 2); (2%nat, low 16 type_id); (4%nat, count); (8%nat, ts); (4%nat, payload_crc)];
  Ok (BIN_MAGIC ++ h ++ zeros 8).
(** [do_compile]: the compiler's result, the payload and the file written. *)
Definition do_compile (t : db_type) (now : Z) (file : list pystr) : result db_error (compiled * bytes * bytes) :=
  cp ← compile t now file;
  header ← _make_header (DB_TYPE_IDS t) (entry_count cp.1) (_crc32 cp.2) now;
  Ok (cp.1, cp.2, header ++ cp.2).

(** ** The device *)

Inductive dev_write :=
| TblWrite (table_id index data : Z)
| IpCfgWrite (table_id addr lo hi : Z)
| DdrWrite (region offset : Z) (data : bytes).

Definition tbl_write (table_id index data : Z) : dev_write := TblWrite table_id (low 16 index) (low 64 data).
Definition ip_cfg_write (table_id addr lo hi : Z) : dev_write := IpCfgWrite table_id (low 16 addr) (low 32 lo) (low 32 hi).
(** One word, over the bus its table is on. *)
Definition write_word (on_bus : bool) (bus_table table_id index data : Z) : dev_write :=
  if on_bus then ip_cfg_write bus_table index (low 32 data) (low 32 (Z.shiftr data 32)) else tbl_write table_id index data.

Definition _load_bram_entries (t : db_type) (tbl : Z) (entries : list (Z * Z)) (vsys : Z) : list dev_write :=
  let offset := if (0 <? vsys) && bool_decide (t = Policy) then vsys * 256 else 0 in
  map (fun e => write_word (bool_decide (tbl ∈ IP_CFG_TABLES)) tbl tbl (e.1 + offset) e.2) entries.

Definition CHUNK : nat := Z.to_nat (4 * 1024 * 1024).
(** [while pos < len(payload)]: the writes in chunks. *)
Fixpoint ddr_chunks (fuel : nat) (chunk : nat) (region offset : Z) (payload : bytes) : list dev_write :=
  match fuel, payload with
  | S k, _ :: _ =>
      let c := take chunk payload in
      DdrWrite region offset c :: ddr_chunks k chunk region (offset + blen c) (drop chunk payload)
  | _, _ => []
  end.
Definition _load_ddr4_payload (region : Z) (payload : bytes) (vsys : Z) : list dev_write :=
  ddr_chunks (length payload) CHUNK region (if 0 <? vsys then vsys * 40960 else 0) payload.

(** [words]: the filter positions collected into 64-bit words. *)
Definition set_word (words : list (Z * Z)) (pos : Z) : list (Z * Z) :=
  let w := pos / 64 in
  dset w (Z.lor (default 0 (dget w words)) (Z.shiftl 1 (pos mod 64))) words.
Definition bloom_words (bits : list Z) : list (Z * Z) := fold_left set_word bits [].
Definition _load_bloom_filter (t : db_type) (bits : list Z) : list dev_write :=
  match BLOOM_TYPES t with
  | None => []
  | Some tbl => map (fun kv => write_word (bool_decide (tbl ∈ IP_CFG_TABLES)) tbl NGFW_TBL_BLOOM_PROGRAM kv.1 kv.2)
                  (py_sorted (fun a b => a.1 <=? b.1) (bloom_words bits))
  end.

Definition bloom_writes (t : db_type) (c : compiled) : list dev_write :=
  match c with CRecords _ (Some bits) => _load_bloom_filter t bits | _ => [] end.

(** [do_load]: the writes and the entry count recorded for the database. *)
Definition do_load (t : db_type) (now : Z) (file : list pystr) (vsys : Z) : result db_error (list dev_write * Z) :=
  r ← do_compile t now file;
  let '(c, payload, _) := r in
  let body :=
    match c, BRAM_TYPES t, DDR4_TYPES t with
    | CEntries l, Some tbl, _ => _load_bram_entries t tbl l vsys
    | _, None, Some region => _load_ddr4_payload region payload vsys
    | _, _, _ => []
    end in
  Ok (body ++ bloom_writes t c, entry_count c).

(** [do_update] after [existing] recorded entries. *)
Definition do_update (t : db_type) (now : Z) (file : list pystr) (vsys existing : Z) : result db_error (list dev_write * Z) :=
  r ← do_compile t now file;
  let '(c, payload, _) := r in
  let body :=
    match c, BRAM_TYPES t, DDR4_TYPES t with
    | CEntries l, Some tbl, _ => _load_bram_entries t tbl l vsys
    | _, None, Some region =>
        let size := match payload with [] => 1 | _ => blen payload / Z.max (entry_count c) 1 end in
        ddr_chunks (length payload) CHUNK region (existing * size) payload ++ bloom_writes t c
    | _, _, _ => []
    end in
  Ok (body, existing + entry_count c).
End Load.

(** ** Memory *)

Record memory := { words : Z * Z -> Z; ddr_bytes : Z * Z -> Z }.
Definition upd {A} (f : Z * Z -> A) (k : Z * Z) (v : A) : Z * Z -> A := fun x => if decide (x = k) then v else f x.
(** The bytes [data] from [offset] on. *)
Definition blit (region offset : Z) (data : bytes) (f : Z * Z -> Z) : Z * Z -> Z :=
  fun x => if bool_decide (x.1 = region) && (offset <=? x.2) && (x.2 <? offset + blen data)
           then byte_at data (x.2 - offset) else f x.
Definition apply_write (m : memory) (w : dev_write) : memory :=
  match w with
  | TblWrite t i d => {| words := upd (words m) (t, i) d; ddr_bytes := ddr_bytes m |}
  | IpCfgWrite t i lo hi => {| words := upd (words m) (t, i) (Z.lor lo (Z.shiftl hi 32)); ddr_bytes := ddr_bytes m |}
  | DdrWrite r o d => {| words := words m; ddr_bytes := blit r o d (ddr_bytes m) |}
  end.
Definition apply_writes (m : memory) (l : list dev_write) : memory := fold_left apply_write l m.

Lemma apply_writes_app m l1 l2 : apply_writes m (l1 ++ l2) = apply_writes (apply_writes m l1) l2.
Proof. apply fold_left_app. Qed.

(** *** External memory *)

Lemma byte_at_app l1 l2 i : 0 <= i -> byte_at (l1 ++ l2) i = if i <? blen l1 then byte_at l1 i else byte_at l2 (i - blen l1).
Proof.
  intros Hi. unfold byte_at, blen. destruct (Z.ltb_spec i (Z.of_nat (length l1))).
  - apply app_nth1. lia.
  - rewrite app_nth2 by lia. f_equal. lia.
Qed.

Lemma byte_at_split n l i : 0 <= i ->
  byte_at l i = if i <? blen (take n l) then byte_at (take n l) i else byte_at (drop n l) (i - blen (take n l)).
Proof. intros Hi. rewrite <- byte_at_app by done. by rewrite take_drop. Qed.

Lemma chunks_write chunk region : (0 < chunk)%nat -> forall fuel payload offset m x, (length payload <= fuel)%nat ->
  ddr_bytes (apply_writes m (ddr_chunks fuel chunk region offset payload)) x = blit region offset payload (ddr_bytes m) x.
Proof.
  intros Hc. induction fuel as [|k IH]; intros payload offset m x Hl.
  - destruct payload; [|cbn in Hl; lia]. cbn. unfold blit, blen. cbn. case_bool_decide; [|done]. cbn.
    destruct (Z.leb_spec offset x.2); [|done]. rewrite (proj2 (Z.ltb_ge _ _)) by lia. done.
  - destruct payload as [|b t]; [cbn; unfold blit, blen; cbn; case_bool_decide; [|done]; cbn; destruct (Z.leb_spec offset x.2); [|done];
      rewrite (proj2 (Z.ltb_ge _ _)) by lia; done|].
    set (p := b :: t) in *. change (ddr_chunks (S k) chunk region offset p) with
      (DdrWrite region offset (take chunk p) :: ddr_chunks k chunk region (offset + blen (take chunk p)) (drop chunk p)).
    cbn [apply_writes fold_left]. fold (apply_writes (apply_write m (DdrWrite region offset (take chunk p)))
      (ddr_chunks k chunk region (offset + blen (take chunk p)) (drop chunk p))).
    rewrite IH by (rewrite length_drop; subst p; cbn in *; lia). cbn [apply_write ddr_bytes].
    assert (Hb : blen p = blen (take chunk p) + blen (drop chunk p)) by (rewrite <- blen_app; by rewrite take_drop).
    pose proof (blen_nonneg (take chunk p)). pose proof (blen_nonneg (drop chunk p)).
    unfold blit. destruct (bool_decide (x.1 = region)); cbn [andb]; [|done].
    destruct (Z.leb_spec (offset + blen (take chunk p)) x.2), (Z.ltb_spec x.2 (offset + blen (take chunk p) + blen (drop chunk p)));
      cbn [andb].
    + rewrite (proj2 (Z.leb_le offset x.2)), (proj2 (Z.ltb_lt x.2 (offset + blen p))) by lia. cbn [andb].
      rewrite (byte_at_split chunk p) by lia. rewrite (proj2 (Z.ltb_ge _ _)) by lia. f_equal. lia.
    + rewrite (proj2 (Z.ltb_ge x.2 (offset + blen (take chunk p)))), (proj2 (Z.ltb_ge x.2 (offset + blen p))) by lia.
      by rewrite !andb_false_r.
    + destruct (Z.leb_spec offset x.2); cbn [andb]; [|done].
      rewrite (proj2 (Z.ltb_lt x.2 (offset + blen (take chunk p)))), (proj2 (Z.ltb_lt x.2 (offset + blen p))) by lia.
      rewrite (byte_at_split chunk p) by lia. by rewrite (proj2 (Z.ltb_lt _ _)) by lia.
    + destruct (Z.leb_spec offset x.2); cbn [andb]; [|done].
      rewrite (proj2 (Z.ltb_lt x.2 (offset + blen (take chunk p)))), (proj2 (Z.ltb_lt x.2 (offset + blen p))) by lia.
      rewrite (byte_at_split chunk p) by lia. by rewrite (proj2 (Z.ltb_lt _ _)) by lia.
Qed.

(** *** The filter *)

Lemma set_word_bit words pos w k : 0 <= pos -> 0 <= k < 64 ->
  Z.testbit (default 0 (dget w (set_word words pos))) k =
  Z.testbit (default 0 (dget w words)) k || bool_decide (pos = 64 * w + k).
Proof.
  intros Hp Hk. unfold set_word. rewrite dget_dset. pose proof (Z.mod_pos_bound pos 64). pose proof (Z.div_mod pos 64).
  destruct (decide (w = pos / 64)) as [->|Hne]; cbn [default from_option id].
  - rewrite Z.lor_spec. f_equal. rewrite Z.shiftl_spec by lia.
    destruct (decide (k = pos mod 64)) as [->|Hk'].
    + rewrite Z.sub_diag. rewrite bool_decide_eq_true_2 by lia. done.
    + rewrite bool_decide_eq_false_2 by lia. destruct (Z.neg_nonneg_cases (k - pos mod 64)); [by apply Z.testbit_neg_r|].
      by apply Z.bits_above_log2; cbn [Z.log2]; lia.
  - rewrite bool_decide_eq_false_2; [by rewrite orb_false_r|]. intros ->. apply Hne. apply (Z.div_unique _ 64 _ k); lia.
Qed.

Definition in_filter (pos : Z) : Prop := 0 <= pos < BLOOM_FILTER_BITS.

Lemma bloom_words_bit bits w k : Forall in_filter bits -> 0 <= k < 64 ->
  Z.testbit (default 0 (dget w (bloom_words bits))) k = bool_decide (64 * w + k ∈ bits).
Proof.
  intros Hb Hk. unfold bloom_words.
  enough (H : forall acc, Z.testbit (default 0 (dget w (fold_left set_word bits acc))) k =
    Z.testbit (default 0 (dget w acc)) k || bool_decide (64 * w + k ∈ bits)).
  { rewrite H. cbn [dget default from_option id]. by rewrite Z.bits_0. }
  induction Hb as [|p t Hp _ IH]; intros acc; cbn [fold_left].
  - rewrite bool_decide_eq_false_2 by apply not_elem_of_nil. by rewrite orb_false_r.
  - rewrite IH, set_word_bit by (unfold in_filter in Hp; lia). rewrite <- orb_assoc. f_equal.
    apply eq_bool_prop_intro. rewrite orb_True, !bool_decide_spec, elem_of_cons. naive_solver.
Qed.

Lemma bloom_words_shape bits : Forall in_filter bits ->
  dict_ok (bloom_words bits) /\ Forall (fun kv => fits_in 16 kv.1 /\ fits_in 64 kv.2) (bloom_words bits).
Proof.
  unfold bloom_words. intros Hb. enough (H : forall acc, dict_ok acc -> Forall (fun kv : Z * Z => fits_in 16 kv.1 /\ fits_in 64 kv.2) acc ->
    dict_ok (fold_left set_word bits acc) /\ Forall (fun kv : Z * Z => fits_in 16 kv.1 /\ fits_in 64 kv.2) (fold_left set_word bits acc)).
  { apply H; [apply NoDup_nil_2 | constructor]. }
  induction Hb as [|p t Hp _ IH]; intros acc Hd Hf; [done|]. cbn [fold_left]. apply IH; [by apply dict_ok_dset|].
  rewrite Forall_forall in *. intros kv [->|Hin]%elem_dset; [|by apply Hf]. unfold in_filter, BLOOM_FILTER_BITS in Hp. cbn [fst snd].
  pose proof (Z.mod_pos_bound p 64). pose proof (Z.div_mod p 64). split; [unfold fits_in; cbn; lia|].
  apply lor_fits; [lia| |].
  - destruct (dget (p / 64) acc) as [v|] eqn:E; cbn; [by apply dget_In, Hf in E as [_ E] | unfold fits_in; lia].
  - rewrite one_bit. apply shifted_fits; lia.
Qed.

Lemma write_word_effect b t1 t2 i d m : fits_in 16 i -> fits_in 64 d ->
  words (apply_write m (write_word b t1 t2 i d)) = upd (words m) (if b then t1 else t2, i) d
  /\ ddr_bytes (apply_write m (write_word b t1 t2 i d)) = ddr_bytes m.
Proof.
  intros Hi Hd. split; [|by destruct b]. destruct b; cbn [write_word apply_write tbl_write ip_cfg_write words]; f_equal; try (f_equal; by apply low_small).
  apply Z.bits_inj'. intros k Hk. rewrite Z.lor_spec, Z.shiftl_spec by lia.
  rewrite !(low_small 32 (low 32 _)) by (by apply low_bound). rewrite low_bit by lia.
  destruct (Z.ltb_spec k 32).
  - rewrite (Z.testbit_neg_r _ (k - 32)) by lia. by rewrite andb_true_r, orb_false_r.
  - rewrite low_bit, Z.shiftr_spec by lia. replace (k - 32 + 32) with k by lia. rewrite andb_false_r. cbn.
    destruct (Z.ltb_spec (k - 32) 32); [by rewrite andb_true_r|]. rewrite andb_false_r.
    rewrite <- (low_small 64 d Hd), low_bit by lia. symmetry. apply andb_false_intro2, Z.ltb_ge. lia.
Qed.

Lemma words_written b t1 t2 l : dict_ok l -> Forall (fun kv : Z * Z => fits_in 16 kv.1 /\ fits_in 64 kv.2) l -> forall m,
  let m' := apply_writes m (map (fun kv => write_word b t1 t2 kv.1 kv.2) l) in
  (forall k, words m' (if b then t1 else t2, k) = default (words m (if b then t1 else t2, k)) (dget k l)) /\ ddr_bytes m' = ddr_bytes m.
Proof.
  intros Hd Hf. induction l as [|[k0 d0] t IH]; intros m; [done|]. inversion Hf as [|? ? [Hk0 Hd0] Hf']; subst.
  unfold dict_ok in Hd. rewrite fmap_cons, NoDup_cons in Hd. destruct Hd as [Hn Hd]. cbn [map apply_writes fold_left fst snd].
  destruct (write_word_effect b t1 t2 k0 d0 m Hk0 Hd0) as [Hw Hb]. destruct (IH Hd Hf' (apply_write m (write_word b t1 t2 k0 d0))) as [H1 H2].
  split; [|unfold apply_writes in H2; by rewrite H2]. intros k. unfold apply_writes in H1. rewrite H1, Hw. cbn [dget]. unfold upd.
  destruct (decide (k = k0)) as [->|Hne].
  - rewrite decide_True by done. rewrite (proj2 (dget_None_keys k0 t)) by done. done.
  - rewrite decide_False by congruence. done.
Qed.

Lemma dget_perm {V} (l l' : list (Z * V)) k : dict_ok l -> l ≡ₚ l' -> dget k l = dget k l'.
Proof.
  intros Hd Hp. assert (Hd' : dict_ok l') by (unfold dict_ok in *; by rewrite <- Hp).
  destruct (dget k l) as [v|] eqn:E.
  - symmetry. apply In_dget; [done|]. rewrite <- Hp. by apply dget_In.
  - symmetry. apply dget_None_keys. apply dget_None_keys in E. by rewrite <- Hp.
Qed.

(** The word that answers for a position: on the bus or through the programming table. *)
Definition filter_table (tbl : Z) : Z := if bool_decide (tbl ∈ IP_CFG_TABLES) then tbl else NGFW_TBL_BLOOM_PROGRAM.
Definition filter_bit (m : memory) (tbl pos : Z) : bool := Z.testbit (words m (filter_table tbl, pos / 64)) (pos mod 64).

Lemma filter_loaded t tbl bits m : BLOOM_TYPES t = Some tbl -> Forall in_filter bits ->
  (forall pos, 0 <= pos -> pos / 64 ∈ map (fun p => p / 64) bits ->
     filter_bit (apply_writes m (_load_bloom_filter t bits)) tbl pos = bool_decide (pos ∈ bits))
  /\ ddr_bytes (apply_writes m (_load_bloom_filter t bits)) = ddr_bytes m.
Proof.
  intros Ht Hb. unfold _load_bloom_filter. rewrite Ht. destruct (bloom_words_shape bits Hb) as [Hd Hf].
  set (s := py_sorted _ (bloom_words bits)). assert (Hp : s ≡ₚ bloom_words bits) by apply py_sorted_perm.
  assert (Hds : dict_ok s) by (unfold dict_ok in *; by rewrite Hp). assert (Hfs : Forall (fun kv : Z * Z => fits_in 16 kv.1 /\ fits_in 64 kv.2) s) by (by rewrite Hp).
  destruct (words_written (bool_decide (tbl ∈ IP_CFG_TABLES)) tbl NGFW_TBL_BLOOM_PROGRAM s Hds Hfs m) as [H1 H2]. split; [|done].
  intros pos H0 Hin. unfold filter_bit, filter_table. rewrite H1, (dget_perm _ _ _ Hds Hp).
  pose proof (Z.mod_pos_bound pos 64). pose proof (Z.div_mod pos 64).
  assert (Hs : exists v, dget (pos / 64) (bloom_words bits) = Some v).
  { apply list_elem_of_In, in_map_iff in Hin as (p & Hpw & Hpin). apply list_elem_of_In in Hpin.
    destruct (dget (pos / 64) (bloom_words bits)) eqn:E; [eauto|]. exfalso.
    pose proof (Z.mod_pos_bound p 64). pose proof (Z.div_mod p 64).
    pose proof (bloom_words_bit bits (pos / 64) (p mod 64) Hb ltac:(lia)) as Hbit. rewrite E in Hbit. cbn in Hbit. rewrite Z.bits_0 in Hbit.
    symmetry in Hbit. apply bool_decide_eq_false in Hbit. apply Hbit. replace (64 * (pos / 64) + p mod 64) with p by lia. done. }
  destruct Hs as [v Hv]. pose proof (bloom_words_bit bits (pos / 64) (pos mod 64) Hb ltac:(lia)) as Hbit. rewrite Hv in *. cbn in *.
  rewrite Hbit. by replace (64 * (pos / 64) + pos mod 64) with pos by lia.
Qed.

Section Loaded.
Context (lower upper : pystr -> pystr) (crc32 : bytes -> Z) (md5 : bytes -> bytes).

Definition record_size (t : db_type) : Z :=
  match t with Threats | Url | Geoip => 8 | Blocklist | SpywareIocs => 16 | DnsBlocklist | FileMagic => 12 | MalwareHashes => 32 | TlsFingerprints => 20 | _ => 0 end.

Lemma ddr_line_sized t now region : DDR4_TYPES t = Some region -> sized (Z.to_nat (record_size t)) (ddr_line lower upper crc32 md5 t now).
Proof.
  destruct t; try done; intros _; cbn [ddr_line record_size];
    [apply threats_sized | apply url_sized | apply geoip_sized | apply blocklist_sized | apply dns_blocklist_sized | apply malware_sized
    | apply file_magic_sized | apply tls_sized | apply spyware_sized].
Qed.

Lemma bloom_hashes_range v : Forall in_filter (_bloom_hashes crc32 v).
Proof.
  unfold _bloom_hashes, in_filter, BLOOM_FILTER_BITS. repeat constructor; apply Z.mod_pos_bound; lia.
Qed.

Lemma ddr_line_positions t now line rs : ddr_line lower upper crc32 md5 t now line = Ok rs ->
  Forall (fun r : record => Forall in_filter r.2 /\ (BLOOM_TYPES t = None -> r.2 = [])) rs.
Proof.
  pose proof bloom_hashes_range as Hr.
  destruct t; cbn [ddr_line]; intros H;
    cbv beta zeta delta [compile_threats_line compile_url_line compile_geoip_line compile_blocklist_line compile_dns_blocklist_line
      compile_malware_hashes_line compile_file_magic_line compile_tls_fingerprints_line compile_spyware_iocs_line] in H;
    try (inv_res; by constructor);
    try (match type of H with context [words_n 1 line] => destruct (words_n 1 line); [by inv_res; constructor|] end);
    repeat (split_if H; [by inv_res; constructor|]);
    try (match type of H with context [ip_network] => destruct (ip_network _ _) as [n|]; [|done]; destruct (net_parts n) end);
    inv_res; try (split_if H; [by inv_res; constructor|]; inv_res); apply Forall_singleton; cbn [snd]; (split; [first [apply Hr | constructor] | by cbn]).
Qed.

(** The i-th of records of one size. *)
Lemma byte_at_record (n : nat) (l : list bytes) i r j : Forall (fun b => length b = n) l -> l !! i = Some r -> 0 <= j < Z.of_nat n ->
  byte_at (concat l) (Z.of_nat i * Z.of_nat n + j) = byte_at r j /\ Z.of_nat i * Z.of_nat n + j < blen (concat l).
Proof.
  intros Hl Hi Hj. revert i Hi. induction Hl as [|b t Hb _ IH]; intros i Hi; [done|]. cbn [concat].
  assert (Hbl : blen b = Z.of_nat n) by (unfold blen; lia).
  destruct i as [|i]; cbn in Hi.
  - injection Hi as ->. rewrite byte_at_app, blen_app by lia. cbn. rewrite (proj2 (Z.ltb_lt _ _)) by lia. pose proof (blen_nonneg (concat t)). split; [done | lia].
  - destruct (IH i Hi) as [H1 H2]. rewrite byte_at_app, blen_app by lia. rewrite (proj2 (Z.ltb_ge _ _)) by lia. split; [|lia].
    rewrite Hbl. rewrite <- H1. f_equal. lia.
Qed.

Lemma each_line_elem {A} (f : pystr -> result db_error (list A)) file rs r : each_line f file = Ok rs -> r ∈ rs ->
  exists line l, f line = Ok l /\ r ∈ l.
Proof.
  unfold each_line. intros H. inv_res. intros (l & Hl & Hr)%list_elem_of_In%in_concat. apply mapM_res_Forall2 in Hv.
  apply list_elem_of_In, list_elem_of_lookup_1 in Hl as [k Hk]. destruct (Forall2_lookup_r _ _ _ _ _ Hv Hk) as (line & _ & Hf).
  exists line, l. by rewrite list_elem_of_In.
Qed.

Lemma compile_ddr t now file c p region : DDR4_TYPES t = Some region -> compile lower upper crc32 md5 t now file = Ok (c, p) ->
  exists rs, each_line (ddr_line lower upper crc32 md5 t now) file = Ok rs /\ p = concat (map fst rs)
    /\ c = CRecords (map fst rs) (if BLOOM_TYPES t then Some (concat (map snd rs)) else None).
Proof. destruct t; try done; intros _ H; cbn [compile] in H; unfold ddr in H; inv_res; by eexists. Qed.

Lemma do_compile_inv t now file c p bin : do_compile lower upper crc32 md5 t now file = Ok (c, p, bin) ->
  compile lower upper crc32 md5 t now file = Ok (c, p)
  /\ exists h, _make_header (DB_TYPE_IDS t) (entry_count c) (_crc32 crc32 p) now = Ok h /\ bin = h ++ p.
Proof.
  unfold do_compile. intros ([c' p'] & Hc & (h & Hh & Hi)%bind_ok_inv)%bind_ok_inv. injection Hi as <- <- <-. split; [done|]. by exists h.
Qed.

(** Loading an external-memory database puts all of it in place: record number [i] of the compiled file lies, byte
    for byte, at [i] times the format's record size from the start of the (virtual system's) area, whatever the size of
    the transfer chunks makes of the payload, and for the formats with a Bloom filter every position of every record is
    set afterwards, so that the filter has no false negatives. *)
Theorem load_complete t now file vsys ws n region m :
  DDR4_TYPES t = Some region -> do_load lower upper crc32 md5 t now file vsys = Ok (ws, n) ->
  exists rs, each_line (ddr_line lower upper crc32 md5 t now) file = Ok rs /\ n = blen rs /\
    let m' := apply_writes m ws in
    forall i r, rs !! i = Some r ->
      blen r.1 = record_size t
      /\ (forall j, 0 <= j < record_size t ->
            ddr_bytes m' (region, (if 0 <? vsys then vsys * 40960 else 0) + Z.of_nat i * record_size t + j) = byte_at r.1 j)
      /\ (forall tbl pos, BLOOM_TYPES t = Some tbl -> pos ∈ r.2 -> filter_bit m' tbl pos = true).
Proof.
  intros Ht H. unfold do_load in H. apply bind_ok_inv in H as ([[c p] bin] & Hc & H). apply do_compile_inv in Hc as (Hv & _).
  destruct (compile_ddr t now file c p region Ht Hv) as (rs & Hrs & -> & ->). apply ok_inj in H. injection H as <- <-.
  exists rs. split; [done|]. split; [cbn; unfold blen; by rewrite length_map|]. cbv zeta. intros i r Hi.
  assert (Hsz : Forall (fun b => length b = Z.to_nat (record_size t)) (map fst rs)).
  { rewrite Forall_map. apply Forall_forall. intros x Hx. destruct (each_line_elem _ _ _ _ Hrs Hx) as (line & l & Hl & Hxl).
    pose proof (ddr_line_sized t now region Ht line l Hl) as Hs. rewrite Forall_forall in Hs. by apply Hs. }
  assert (Hpos : Forall in_filter (concat (map snd rs))).
  { apply Forall_concat. rewrite Forall_map. apply Forall_forall. intros x Hx. destruct (each_line_elem _ _ _ _ Hrs Hx) as (line & l & Hl & Hxl).
    pose proof (ddr_line_positions t now line l Hl) as Hs. rewrite Forall_forall in Hs. by apply Hs. }
  assert (Hri : map fst rs !! i = Some r.1) by (rewrite list_lookup_fmap; unfold record in *; by rewrite Hi).
  assert (Hn : 0 < record_size t) by (destruct t; done).
  set (base := if 0 <? vsys then vsys * 40960 else 0).
  set (m1 := apply_writes m (_load_ddr4_payload region (concat (map fst rs)) vsys)).
  assert (Hbody : forall x, ddr_bytes m1 x = blit region base (concat (map fst rs)) (ddr_bytes m) x).
  { intros x. apply chunks_write; [unfold CHUNK; lia | lia]. }
  assert (Hnb : BRAM_TYPES t = None) by (by destruct t). rewrite Hnb, Ht.
  assert (Hm : forall x, ddr_bytes (apply_writes m (_load_ddr4_payload region (concat (map fst rs)) vsys ++
      bloom_writes t (CRecords (map fst rs) (if BLOOM_TYPES t then Some (concat (map snd rs)) else None)))) x = ddr_bytes m1 x).
  { intros x. rewrite apply_writes_app. fold m1. unfold bloom_writes. destruct (BLOOM_TYPES t) as [tbl|] eqn:Eb; [|done].
    by destruct (filter_loaded t tbl (concat (map snd rs)) m1 Eb Hpos) as [_ ->]. }
  split; [|split].
  - rewrite Forall_forall in Hsz. specialize (Hsz r.1 (list_elem_of_lookup_2 _ _ _ Hri)). unfold blen. lia.
  - intros j Hj. rewrite Hm, Hbody. unfold blit. cbn [fst snd].
    destruct (byte_at_record (Z.to_nat (record_size t)) (map fst rs) i r.1 j Hsz Hri) as [H1 H2]; [lia|].
    rewrite Z2Nat.id in H1, H2 by lia. rewrite bool_decide_eq_true_2 by done. rewrite (proj2 (Z.leb_le _ _)), (proj2 (Z.ltb_lt _ _)) by lia.
    cbn [andb]. rewrite <- H1. f_equal. lia.
  - intros tbl pos Eb Hin. rewrite apply_writes_app. fold m1. unfold bloom_writes. rewrite Eb.
    destruct (filter_loaded t tbl (concat (map snd rs)) m1 Eb Hpos) as [H1 _].
    assert (Hc : pos ∈ concat (map snd rs)).
    { rewrite list_elem_of_In. apply in_concat. exists r.2. split; [|by apply list_elem_of_In]. apply in_map_iff. exists r.
      split; [done|]. apply list_elem_of_In. by eapply list_elem_of_lookup_2. }
    rewrite H1; [by apply bool_decide_eq_true_2 | |].
    + rewrite Forall_forall in Hpos. destruct (Hpos _ Hc). lia.
    + apply list_elem_of_In, in_map_iff. exists pos. by rewrite <- list_elem_of_In.
Qed.
End Loaded.

(** ** The binary file reads back *)

(** [struct.unpack] of unsigned little-endian fields, and of a sequence of records of them. *)
Fixpoint unpack_fields (sizes : list nat) (b : bytes) : list Z :=
  match sizes with
  | [] => []
  | n :: t => le_unpack (take n b) :: unpack_fields t (drop n b)
  end.
Fixpoint unpack_records (sizes : list nat) (fuel : nat) (b : bytes) : list (list Z) :=
  match fuel, b with
  | S k, _ :: _ => unpack_fields sizes b :: unpack_records sizes k (drop (sum_list sizes) b)
  | _, _ => []
  end.

Lemma pack_fields_cons f l b : pack_fields (f :: l) = Ok b -> exists x y, pack_u f.1 f.2 = Ok x /\ pack_fields l = Ok y /\ b = x ++ y.
Proof.
  unfold pack_fields. cbn [mapM_res].
  intros (bs & (x & Hx & (ys & Hys & Hbs)%bind_ok_inv)%bind_ok_inv & Hb)%bind_ok_inv. apply ok_inj in Hbs as <-, Hb as <-.
  exists x, (concat ys). split; [done|]. split; [by rewrite Hys | done].
Qed.

Lemma unpack_pack_fields l b rest : pack_fields l = Ok b -> unpack_fields l.*1 (b ++ rest) = l.*2.
Proof.
  revert b; induction l as [|[n v] l IH]; intros b H; [done|]. apply pack_fields_cons in H as (x & y & Hx & Hy & ->).
  cbn [fst snd] in *. apply pack_u_ok in Hx as (Hl & _ & Hv). rewrite !fmap_cons. cbn [fst snd unpack_fields].
  rewrite <- app_assoc, take_app_exact, drop_app_exact by done. rewrite Hv. f_equal. by apply IH.
Qed.

Lemma bram_payload_reads sizes (fields : Z * Z -> list (nat * Z)) l bs :
  (forall e, (fields e).*1 = sizes) -> sum_list sizes <> 0%nat ->
  mapM_res (fun e => pack_fields (fields e)) l = Ok bs ->
  unpack_records sizes (length l) (concat bs) = map (fun e => (fields e).*2) l.
Proof.
  intros Hf Hs H%mapM_res_Forall2. induction H as [|e b l bs Hb _ IH]; [done|]. cbn [length concat map].
  pose proof (pack_fields_length _ _ Hb) as Hlen. rewrite Hf in Hlen.
  destruct b as [|x b']; [cbn in Hlen; lia|]. cbn [unpack_records app]. change (x :: b' ++ concat bs) with ((x :: b') ++ concat bs).
  pose proof (unpack_pack_fields _ _ (concat bs) Hb) as Hu. rewrite Hf in Hu. rewrite Hu. f_equal. by rewrite drop_app_exact.
Qed.

(** What a reader of the file sees: version, type, count, time, checksum, payload. *)
Definition read_file (b : bytes) : option (list Z * bytes) :=
  if bool_decide (take 4 b = BIN_MAGIC) then Some (unpack_fields [2; 2; 4; 8; 4]%nat (drop 4 b), drop 32 b) else None.

Section Files.
Context (lower upper : pystr -> pystr) (crc32 : bytes -> Z) (md5 : bytes -> bytes).

Lemma compile_entries t now file l p : compile lower upper crc32 md5 t now file = Ok (CEntries l, p) ->
  exists bs, p = concat bs /\ mapM_res (fun e => pack_fields [((if decide (t = Dlp) then 4 else 2)%nat, e.1); (8%nat, e.2)]) l = Ok bs.
Proof.
  destruct t; cbn [compile]; unfold bram, ddr, bram_payload; intros H; inv_res; eexists; (split; [done|]); done.
Qed.

(** A compiled file reads back: the 32-byte header gives the format version, the database type, the number of
    entries, the time and the checksum of exactly the payload that follows, and the payload of a table database is its
    entries, index and 64-bit word, one after the other. *)
Theorem compiled_file_roundtrip t now file c p bin :
  do_compile lower upper crc32 md5 t now file = Ok (c, p, bin) ->
  read_file bin = Some ([2; DB_TYPE_IDS t; entry_count c; now; _crc32 crc32 p], p)
  /\ (forall l, c = CEntries l ->
        unpack_records [(if decide (t = Dlp) then 4 else 2); 8]%nat (length l) p = map (fun e => [e.1; e.2]) l).
Proof.
  intros H. apply do_compile_inv in H as (Hc & h & Hh & ->). split.
  - apply bind_ok_inv in Hh as (v & Hv & Hh). apply ok_inj in Hh as <-. pose proof (pack_fields_length _ _ Hv) as Hl.
    unfold read_file. rewrite <- !app_assoc, take_app_exact, bool_decide_eq_true_2 by done. rewrite drop_app_exact by done.
    pose proof (unpack_pack_fields _ _ (zeros 8 ++ p) Hv) as Hu.
    change [2; 2; 4; 8; 4]%nat with ([(2%nat, 2); (2%nat, low 16 (DB_TYPE_IDS t)); (4%nat, entry_count c); (8%nat, now); (4%nat, _crc32 crc32 p)].*1).
    rewrite Hu. cbn [fmap list_fmap snd]. assert (low 16 (DB_TYPE_IDS t) = DB_TYPE_IDS t) as -> by (by destruct t).
    do 2 f_equal. rewrite !app_assoc. apply drop_app_exact. rewrite !length_app, Hl. done.
  - intros l ->. destruct (compile_entries t now file l p Hc) as (bs & -> & Hbs).
    rewrite (bram_payload_reads _ (fun e => [((if decide (t = Dlp) then 4 else 2)%nat, e.1); (8%nat, e.2)]) l bs); [done | done | by case_decide | exact Hbs].
Qed.

(** ** Updates *)

(** An update of a filtered database un-sets what a load had set: the update writes whole filter words made from the
    new entries only, so a position that was loaded earlier reads as absent when a new entry falls into the same word,
    and the entry it stood for is missed. *)
Theorem update_clears_filter t tbl p q m :
  BLOOM_TYPES t = Some tbl -> in_filter p -> in_filter q -> p <> q -> p / 64 = q / 64 ->
  filter_bit (apply_writes m (_load_bloom_filter t [p])) tbl p = true
  /\ filter_bit (apply_writes (apply_writes m (_load_bloom_filter t [p])) (_load_bloom_filter t [q])) tbl p = false.
Proof.
  intros Ht Hp Hq Hne Hw. split.
  - destruct (filter_loaded t tbl [p] m Ht (proj2 (Forall_singleton _ _) Hp)) as [H _].
    rewrite H; [by apply bool_decide_eq_true_2; left | unfold in_filter in Hp; lia | left].
  - destruct (filter_loaded t tbl [q] (apply_writes m (_load_bloom_filter t [p])) Ht (proj2 (Forall_singleton _ _) Hq)) as [H _].
    rewrite H; [|unfold in_filter in Hp; lia | cbn; rewrite Hw; left].
    apply bool_decide_eq_false_2. by intros ?%list_elem_of_singleton.
Qed.

(** An update of a virtual system's database is written into the shared area: a load puts the data of virtual
    system [v] at [v] times 40960, but an update does not depend on the virtual system at all, so its records go behind
    the same number of records of the global database. *)
Theorem update_ignores_vsys t now file v n region :
  DDR4_TYPES t = Some region ->
  do_update lower upper crc32 md5 t now file v n = do_update lower upper crc32 md5 t now file 0 n
  /\ forall ws k c p bin, 0 < v -> do_compile lower upper crc32 md5 t now file = Ok (c, p, bin) ->
       do_load lower upper crc32 md5 t now file v = Ok (ws, k) -> p <> [] -> exists data rest, ws = DdrWrite region (v * 40960) data :: rest.
Proof.
  intros Ht. assert (Hb : BRAM_TYPES t = None) by (by destruct t). split.
  - unfold do_update. destruct (do_compile _ _ _ _ _ _ _) as [[[c p] bin]|]; [|done]. cbn [mbind result_bind]. rewrite Hb. by destruct c.
  - intros ws k c p bin Hv Hc Hl Hp. unfold do_load in Hl. rewrite Hc in Hl. cbn [mbind result_bind] in Hl. rewrite Hb, Ht in Hl.
    apply ok_inj in Hl. injection Hl as Hl _. subst ws. unfold _load_ddr4_payload. rewrite (proj2 (Z.ltb_lt _ _)) by done.
    destruct p as [|b p]; [done|]. destruct c; cbn [ddr_chunks length app]; by eexists _, _.
Qed.
End Files.

(** ** A small database *)

Definition toy_crc (b : bytes) : Z := fold_left (fun h x => (h * 31 + x) mod 4294967296) b 7.
Definition toy_md5 (b : bytes) : bytes := zeros 16.
Definition ascii_lower (s : pystr) : pystr := map (fun c => if between 65 c 90 then c + 32 else c) s.
Definition demo_blocklist : list pystr := [lit "# bad hosts"; lit " 203.0.113.5 "; []; lit "198.51.100.77  scanner"].
Definition demo_zones : list pystr := [lit "3 1 100 dmz"; lit "bad"].
Definition blank : memory := {| words := fun _ => 0; ddr_bytes := fun _ => 0 |}.

Definition demo_load : list dev_write * Z :=
  match do_load ascii_lower ascii_lower toy_crc toy_md5 Blocklist 1700000000 demo_blocklist 0 with Ok x => x | Err _ => ([], 0) end.

Lemma demo_load_ok : do_load ascii_lower ascii_lower toy_crc toy_md5 Blocklist 1700000000 demo_blocklist 0 = Ok (demo_load.1, demo_load.2)
  /\ demo_load.2 = 2.
Proof. split; vm_compute; reflexivity. Qed.

Lemma load_complete_witness : exists rs, each_line (ddr_line ascii_lower ascii_lower toy_crc toy_md5 Blocklist 1700000000) demo_blocklist = Ok rs
  /\ demo_load.2 = blen rs.
Proof.
  destruct (load_complete ascii_lower ascii_lower toy_crc toy_md5 Blocklist 1700000000 demo_blocklist 0 demo_load.1 demo_load.2 7 blank
    eq_refl (proj1 demo_load_ok)) as (rs & H1 & H2 & _).
  exists rs. split; [exact H1 | exact H2].
Defined.

Lemma compiled_file_witness : exists bin, read_file bin = Some ([2; 2; 1; 1700000000; toy_crc [100; 16; 3; 1; 0; 0; 0; 0; 0; 0]], [100; 16; 3; 1; 0; 0; 0; 0; 0; 0]).
Proof.
  destruct (do_compile ascii_lower ascii_lower toy_crc toy_md5 Zones 1700000000 demo_zones) as [[[c p] bin]|] eqn:E; [|by vm_compute in E].
  destruct (compiled_file_roundtrip ascii_lower ascii_lower toy_crc toy_md5 Zones 1700000000 demo_zones c p bin E) as [H _].
  exists bin. rewrite H. vm_compute in E. injection E as <- <- _. by vm_compute.
Defined.

Lemma update_clears_witness : exists m, filter_bit m 19 5 = false.
Proof.
  eexists. apply (update_clears_filter DnsBlocklist 19 5 6 blank); [done | by vm_compute.. | done | done].
Defined.

Lemma update_ignores_witness :
  do_update ascii_lower ascii_lower toy_crc toy_md5 Blocklist 1700000000 demo_blocklist 3 2 =
  do_update ascii_lower ascii_lower toy_crc toy_md5 Blocklist 1700000000 demo_blocklist 0 2.
Proof. apply (update_ignores_vsys ascii_lower ascii_lower toy_crc toy_md5 Blocklist 1700000000 demo_blocklist 3 2 7). done. Defined.
