(* ===== verification/HexSig.v ===== *)
(** * Body signatures of files

    The text of a body signature ([4d5a??00{2-4}(90|91)*[30-39]]) is read by three programs: [validate_hexsig] of
    [ffn_sigdb.py] decides what enters the database, [compile_hexsig] and [literal_anchor] of [ffn_antivirus.py] make
    the regular expression the scanner runs and the literal text its prefilter looks for, and [hexsig_to_pcre] of
    [ffn_fastpath_compile.py] makes the expression of the packet path.  Expressions are lists of fragments with the text
    the code builds; [re_compile] is what the standard library does with such a text, and [matches] what it then
    matches (a match at a position exists or not; the code never asks for more than where it starts). *)

From S2P Require Import Prelude PyStr PyDict PyIp PyXml PyIp6 PolicyObjects NatPolicy DbCompiler.

Inductive hex_exn := HexValue | HexIndex | HexRe | HexOverflow.

(** ** Numbers *)

Definition hex_value (c : Z) : option Z :=
  match digit_value c with
  | Some d => Some d
  | None => if between 97 c 102 then Some (c - 87) else if between 65 c 70 then Some (c - 55) else None
  end.
Definition hex_number (s : pystr) : option Z :=
  fold_left (fun acc c => match acc, hex_value c with Some n, Some v => Some (16 * n + v) | _, _ => None end) s (Some 0).
(** [int(s, 16)]. *)
Definition int16 (s : pystr) : result hex_exn Z :=
  let t := strip s in
  let body := match t with 45 :: r | 43 :: r => r | _ => t end in
  let body := match body with
              | 48 :: x :: 95 :: r => if (x =? 120) || (x =? 88) then r else body
              | 48 :: x :: r => if (x =? 120) || (x =? 88) then r else body
              | _ => body
              end in
  let parts := split_on 95 body in
  if forallb (fun p => negb (length p =? 0)%nat) parts then
    match hex_number (concat parts) with
    | Some n => Ok (if bool_decide (head t = Some 45) then - n else n)
    | None => Err HexValue
    end
  else Err HexValue.
Definition int10 (s : pystr) : result hex_exn Z := match py_int s with Some n => Ok n | None => Err HexValue end.

Fixpoint hex_text_fuel (fuel : nat) (n : Z) : pystr :=
  match fuel with
  | O => []
  | S k => if n <? 16 then [hex_digit n] else hex_text_fuel k (n / 16) ++ [hex_digit (n mod 16)]
  end.
Definition hex_text (n : Z) : pystr := hex_text_fuel (S (Z.to_nat (Z.log2 n))) n.
(** ['%02x' % n] and ['%d' % n]. *)
Definition fmt02x (n : Z) : pystr :=
  if n <? 0 then 45 :: hex_text (- n) else if n <? 16 then [48; hex_digit n] else hex_text n.
Definition fmtd (n : Z) : pystr := if n <? 0 then 45 :: nat_text (- n) else nat_text n.

(** ** Fragments and their text *)

Inductive tok :=
| TAny
| TByte (n : Z)
| TLow (lo : Z)
| TRange (lo hi : Z).
Inductive frag :=
| One (t : tok)
| Star
| Gap (a : Z) (b : option Z)
| GapN (n : Z)
| Alt (alts : list (list tok)).

Definition byte_pcre (b : Z) : pystr := 92 :: 120 :: fmt02x b.
Definition bytes_pcre (data : bytes) : pystr := concat (map byte_pcre data).
Definition tok_text (t : tok) : pystr :=
  match t with
  | TAny => lit "."
  | TByte n => byte_pcre n
  | TLow lo => lit "[" ++ concat (map (fun n => byte_pcre (Z.lor (Z.shiftl n 4) lo)) (map Z.of_nat (seq 0 16))) ++ lit "]"
  | TRange lo hi => lit "[" ++ byte_pcre lo ++ lit "-" ++ byte_pcre hi ++ lit "]"
  end.
Definition toks_text (l : list tok) : pystr := concat (map tok_text l).
Definition frag_text (f : frag) : pystr :=
  match f with
  | One t => tok_text t
  | Star => lit ".*"
  | Gap a None => lit ".{" ++ fmtd a ++ lit ",}"
  | Gap a (Some b) => lit ".{" ++ fmtd a ++ lit "," ++ fmtd b ++ lit "}"
  | GapN n => lit ".{" ++ fmtd n ++ lit "}"
  | Alt alts => lit "(?:" ++ join (lit "|") (map toks_text alts) ++ lit ")"
  end.

(** ** The scanner's compiler *)

Definition quest (c : Z) : bool := c =? 63.

(** [_pair_re].  Lower-casing the two characters changes neither the test for [?] nor what [int] reads. *)
Definition _pair_re (pair : pystr) : result hex_exn tok :=
  match pair with
  | hi :: lo :: _ =>
      if quest hi && quest lo then Ok TAny
      else if quest hi then n ← int16 [lo]; Ok (TLow n)
      else if quest lo then n ← int16 [hi]; Ok (TRange (Z.shiftl n 4) (Z.lor (Z.shiftl n 4) 15))
      else n ← int16 [hi; lo]; Ok (TByte n)
  | _ => Err HexIndex
  end.

(** [_alt_re]: an odd last character is not read. *)
Fixpoint _alt_re (alt : pystr) : result hex_exn (list tok) :=
  match alt with
  | a :: b :: t => x ← _pair_re [a; b]; r ← _alt_re t; Ok (x :: r)
  | _ => Ok []
  end.

(** [s.partition(sep)], [None] when there is no separator; [s.index(sep)] with the parts before and after. *)
Fixpoint cut (sep : Z) (s : pystr) : option (pystr * pystr) :=
  match s with
  | [] => None
  | c :: t => if c =? sep then Some ([], t) else (fun p => (c :: p.1, p.2)) <$> cut sep t
  end.
Definition index (sep : Z) (s : pystr) : result hex_exn (pystr * pystr) :=
  match cut sep s with Some p => Ok p | None => Err HexValue end.

Definition _gap_re (spec : pystr) : result hex_exn frag :=
  let spec := strip spec in
  match cut 45 spec with
  | Some (a, b) =>
      x ← int10 (match a with [] => lit "0" | _ => a end);
      match b with [] => Ok (Gap x None) | _ => y ← int10 b; Ok (Gap x (Some y)) end
  | None => x ← int10 spec; Ok (GapN x)
  end.
(** [[aa-bb]]. *)
Definition range_re (spec : pystr) : result hex_exn tok :=
  let '(lo, hi) := default (spec, []) (cut 45 spec) in
  x ← int16 lo; y ← int16 hi; Ok (TRange x y).

(** One round of the loop of [compile_hexsig]: the fragment and what is left. *)
Definition hexsig_step (c : Z) (t : pystr) : result hex_exn (frag * pystr) :=
  if c =? 42 then Ok (Star, t)
  else if c =? 123 then p ← index 125 t; f ← _gap_re p.1; Ok (f, p.2)
  else if c =? 40 then p ← index 41 t; alts ← mapM_res _alt_re (split_on 124 p.1); Ok (Alt alts, p.2)
  else if c =? 91 then p ← index 93 t; r ← range_re p.1; Ok (One r, p.2)
  else match t with
       | d :: t' => x ← _pair_re [c; d]; Ok (One x, t')
       | [] => Err HexIndex
       end.
Fixpoint hexsig_loop (fuel : nat) (s : pystr) : result hex_exn (list frag) :=
  match fuel, s with
  | S k, c :: t => p ← hexsig_step c t; r ← hexsig_loop k p.2; Ok (p.1 :: r)
  | _, _ => Ok []
  end.
Definition unspaced (s : pystr) : pystr := List.filter (fun c => negb (c =? 32)) s.
Definition hexsig_frags (hexsig : pystr) : result hex_exn (list frag) :=
  hexsig_loop (length (unspaced hexsig)) (unspaced hexsig).

(** ** The standard library on these texts *)

Inductive item :=
| ISet (p : Z -> bool)
| IRep (a : Z) (b : option Z)
| IAlt (alts : list (list (Z -> bool))).

(** [\x%02x] inside the text: the escape reads two digits, further digits stand for themselves; a sign ends it. *)
Definition esc_chars (n : Z) : option (list Z) :=
  match fmt02x n with
  | a :: b :: r =>
      match hex_digit_value a, hex_digit_value b with
      | Some x, Some y => Some (16 * x + y :: r)
      | _, _ => None
      end
  | _ => None
  end.
Definition among (l : list Z) (c : Z) : bool := existsb (Z.eqb c) l.
(** The class [[lo-hi]]: the last character before the dash and the first after it are the ends of the range. *)
Definition range_class (lo hi : Z) : result hex_exn (Z -> bool) :=
  match esc_chars lo, esc_chars hi with
  | Some (l0 :: l), Some (h :: hs) =>
      let e := default l0 (last l) in
      if h <? e then Err HexRe
      else Ok (fun c => between e c h || among (removelast (l0 :: l)) c || among hs c)
  | _, _ => Err HexRe
  end.
Definition tok_set (t : tok) : result hex_exn (Z -> bool) :=
  match t with
  | TAny => Ok (fun _ => true)
  | TByte n => match esc_chars n with Some [b] => Ok (Z.eqb b) | _ => Err HexRe end
  | TLow lo => Ok (fun c => Z.land c 15 =? lo)
  | TRange lo hi => range_class lo hi
  end.

Definition MAXREPEAT : Z := 4294967295.
(** A number of repetitions in the text. *)
Definition repeat_ok (n : Z) : result hex_exn unit := raise_if (MAXREPEAT <=? n) HexOverflow.
Definition compile_frag (f : frag) : result hex_exn (list item) :=
  match f with
  | One t => p ← tok_set t; Ok [ISet p]
  | Star => Ok [IRep 0 None]
  | Gap a None => _ ← repeat_ok a; Ok [IRep a None]
  | Gap a (Some b) =>
      (* a negative bound is no repetition: a point and literal text *)
      if b <? 0 then Ok (ISet (fun _ => true) :: map (fun c => ISet (Z.eqb c)) (lit "{" ++ fmtd a ++ lit "," ++ fmtd b ++ lit "}"))
      else _ ← repeat_ok a; _ ← repeat_ok b; _ ← raise_if (b <? a) HexRe; Ok [IRep a (Some b)]
  | GapN n => _ ← repeat_ok n; Ok [IRep n (Some n)]
  | Alt alts => ps ← mapM_res (mapM_res tok_set) alts; Ok [IAlt ps]
  end.
Definition re_compile (l : list frag) : result hex_exn (list item) := x ← mapM_res compile_frag l; Ok (concat x).

(** What may be left of [s] after an item. *)
Fixpoint eat (l : list (Z -> bool)) (s : bytes) : option bytes :=
  match l, s with
  | [], _ => Some s
  | p :: l', b :: t => if p b then eat l' t else None
  | _, [] => None
  end.
Definition rests (i : item) (s : bytes) : list bytes :=
  match i with
  | ISet p => match eat [p] s with Some t => [t] | None => [] end
  | IRep a b => map (fun n => drop n s)
                  (List.filter (fun n => (a <=? Z.of_nat n) && match b with Some m => Z.of_nat n <=? m | None => true end) (seq 0 (S (length s))))
  | IAlt alts => omap (fun l => eat l s) alts
  end.
Fixpoint matches (l : list item) (s : bytes) : bool :=
  match l with
  | [] => true
  | i :: l' => existsb (matches l') (rests i s)
  end.
(** [rx.search(data, pos)] and [rx.match(data, pos)]: the start of the match; positions are clipped to the text. *)
Fixpoint search_from (rx : list item) (s : bytes) (i : Z) : option Z :=
  if matches rx s then Some i else match s with [] => None | _ :: t => search_from rx t (i + 1) end.
Definition clip (data : bytes) (pos : Z) : Z := Z.max 0 (Z.min pos (blen data)).
Definition search (rx : list item) (data : bytes) (pos : Z) : option Z :=
  search_from rx (drop (Z.to_nat (clip data pos)) data) (clip data pos).
Definition match_at (rx : list item) (data : bytes) (pos : Z) : option Z :=
  if matches rx (drop (Z.to_nat (clip data pos)) data) then Some (clip data pos) else None.

(** [compile_hexsig]: [None] for a text it cannot compile; what it does not catch is an error. *)
Definition compile_hexsig (hexsig : pystr) : result hex_exn (option (list item)) :=
  match (l ← hexsig_frags hexsig; re_compile l) with
  | Ok rx => Ok (Some rx)
  | Err HexValue | Err HexRe => Ok None
  | Err e => Err e
  end.

(** ** The prefilter's anchor *)

Definition closing (c : Z) : Z := if c =? 123 then 125 else if c =? 40 then 41 else 93.
Definition longer (cur best : bytes) : bytes := if (length best <? length cur)%nat then cur else best.
Fixpoint anchor_loop (fuel : nat) (best cur : bytes) (s : pystr) : result hex_exn bytes :=
  match fuel, s with
  | S k, c :: t =>
      match t with
      | d :: t' =>
          if is_hex c && is_hex d then x ← int16 [c; d]; anchor_loop k best (cur ++ [x]) t'
          else rest ← (if (c =? 123) || (c =? 40) || (c =? 91) then p ← index (closing c) t; Ok p.2 else Ok t);
               anchor_loop k (longer cur best) [] rest
      | [] => rest ← (if (c =? 123) || (c =? 40) || (c =? 91) then p ← index (closing c) t; Ok p.2 else Ok t);
              anchor_loop k (longer cur best) [] rest
      end
  | _, _ => Ok (longer cur best)
  end.
Definition literal_anchor (hexsig : pystr) : result hex_exn (option bytes) :=
  let s := unspaced hexsig in
  best ← anchor_loop (length s) [] [] s;
  Ok (if (4 <=? length best)%nat then Some best else None).

(** ** What the numbers read *)

Lemma elem_lstrip b s : is_space b = false -> b ∈ s -> b ∈ lstrip s.
Proof.
  intros Hb. induction s as [|c t IH]; cbn [lstrip]; [done|]. intros H. destruct (is_space c) eqn:E; [|done].
  apply elem_of_cons in H as [->|H]; [congruence | auto].
Qed.
Lemma elem_strip b s : is_space b = false -> b ∈ s -> b ∈ strip s.
Proof.
  intros Hb H. unfold strip. rewrite list_elem_of_In, <- in_rev, <- list_elem_of_In. apply elem_lstrip; [done|].
  rewrite list_elem_of_In, <- in_rev, <- list_elem_of_In. by apply elem_lstrip.
Qed.
Lemma elem_split sep b s : b <> sep -> b ∈ s -> b ∈ concat (split_on sep s).
Proof.
  intros Hb. induction s as [|c t IH]; cbn [split_on]; [by intros ?%elem_of_nil|]. intros H.
  destruct (decide (c = sep)) as [->|Hc].
  - rewrite Z.eqb_refl. cbn [concat app]. apply elem_of_cons in H as [->|H]; [done | auto].
  - rewrite (proj2 (Z.eqb_neq _ _) Hc). apply elem_of_cons in H.
    destruct (split_on sep t) as [|w ws] eqn:E.
    + cbn. destruct H as [->|H]; [left|]. apply IH in H. cbn in H. by apply elem_of_nil in H.
    + cbn [concat app]. destruct H as [->|H]; [left|]. right. by apply IH in H.
Qed.
Lemma hex_number_digits s n : hex_number s = Some n -> forall b, b ∈ s -> is_Some (hex_value b).
Proof.
  unfold hex_number. generalize (Some 0) as acc. induction s as [|c t IH]; intros acc H b Hb; [by apply elem_of_nil in Hb|].
  cbn [fold_left] in H. apply elem_of_cons in Hb as [->|Hb]; [|by eapply IH].
  destruct (hex_value c); [done|]. exfalso. clear IH. destruct acc; cbn in H; clear -H; induction t as [|d t IH]; cbn in H; eauto; done.
Qed.
(** Brackets are never read as a number. *)
Definition bracket (c : Z) : bool := (c =? 123) || (c =? 40) || (c =? 91).
Lemma bracket_cases c : bracket c = true -> c = 123 \/ c = 40 \/ c = 91.
Proof. unfold bracket. bool_lia. Qed.
Lemma int16_bracket s n b : int16 s = Ok n -> bracket b = true -> b ∉ s.
Proof.
  intros H Hb Hin. apply bracket_cases in Hb.
  apply elem_strip in Hin; [|destruct Hb as [->|[->| ->]]; reflexivity].
  unfold int16 in H. set (t := strip s) in *.
  set (u := match t with 45 :: r | 43 :: r => r | _ => t end) in *.
  assert (u = t \/ exists c, (c = 45 \/ c = 43) /\ t = c :: u) as Hu.
  { unfold u. clear. destruct t as [|[|p|p] l]; auto; do 6 (destruct p as [p|p|]; auto); right; eexists; eauto. }
  assert (b ∈ u) as Hbu.
  { destruct Hu as [-> | (c & Hc & He)]; [done|]. rewrite He in Hin. apply elem_of_cons in Hin as [->|?]; [lia|done]. }
  set (w := match u with 48 :: x :: 95 :: r => _ | _ => _ end) in *.
  assert (b ∈ w) as Hw.
  { unfold w. clear -Hbu Hb. destruct u as [|[|p|p] l]; auto. do 6 (destruct p as [p|p|]; auto).
    destruct l as [|x [|y r]]; [done| |].
    - destruct (_ || _) eqn:E; [|done]. apply elem_of_cons in Hbu as [->|Hbu]; [lia|]. apply elem_of_cons in Hbu as [->|?]; [bool_lia|done].
    - assert (b ∈ if (x =? 120) || (x =? 88) then y :: r else 48 :: x :: y :: r) as Hy.
      { destruct (_ || _) eqn:E; [|done]. apply elem_of_cons in Hbu as [->|Hbu]; [lia|]. apply elem_of_cons in Hbu as [->|?]; [bool_lia|done]. }
      destruct ((x =? 120) || (x =? 88)) eqn:E.
      + destruct y as [|q|q]; auto. do 7 (destruct q as [q|q|]; auto). apply elem_of_cons in Hy as [->|?]; [lia|done].
      + destruct y as [|q|q]; auto. do 7 (destruct q as [q|q|]; auto). }
  clear -H Hw Hb. destruct (forallb _ _); [|done]. destruct (hex_number _) as [m|] eqn:E; [|done].
  eapply hex_number_digits in E; [|apply (elem_split 95 b w); [lia|done]].
  destruct Hb as [->|[->| ->]]; vm_compute in E; by destruct E.
Qed.
Lemma pair_bracket c d x : _pair_re [c; d] = Ok x -> bracket d = false.
Proof.
  intros H. destruct (bracket d) eqn:E; [|done]. exfalso. cbn [_pair_re] in H.
  assert (quest d = false) as Hq by (unfold quest; apply bracket_cases in E; bool_lia). rewrite Hq, andb_false_r in H.
  destruct (quest c); inv_res; eapply int16_bracket in E; try eassumption; apply E; set_solver.
Qed.
Lemma is_hex_cases c : is_hex c = true -> 48 <= c <= 57 \/ 65 <= c <= 70 \/ 97 <= c <= 102.
Proof. unfold is_hex, is_digit, between. bool_lia. Qed.

Lemma hex_pair c d : is_hex c = true -> is_hex d = true ->
  exists n, 0 <= n < 256 /\ int16 [c; d] = Ok n /\ _pair_re [c; d] = Ok (TByte n).
Proof.
  assert (forallb (fun c => forallb (fun d => match int16 [c; d] with
     | Ok n => (0 <=? n) && (n <? 256) && match _pair_re [c; d] with Ok (TByte m) => m =? n | _ => false end | _ => false end)
     (lit "0123456789abcdefABCDEF")) (lit "0123456789abcdefABCDEF") = true) as H by (vm_compute; reflexivity).
  assert (forall x, is_hex x = true -> List.In x (lit "0123456789abcdefABCDEF")) as Hin.
  { intros x Hx. apply is_hex_cases in Hx. cbn. lia. }
  intros Hc Hd. rewrite List.forallb_forall in H. specialize (H c (Hin c Hc)). cbv beta in H.
  rewrite List.forallb_forall in H. specialize (H d (Hin d Hd)). cbv beta in H.
  destruct (int16 [c; d]) as [n|]; [|done]. exists n. apply andb_true_iff in H as [H1 H2].
  split_and!; [bool_lia | bool_lia | done |]. destruct (_pair_re [c; d]) as [[]|]; try done. by apply Z.eqb_eq in H2 as ->.
Qed.
Lemma byte_set n : 0 <= n < 256 -> tok_set (TByte n) = Ok (Z.eqb n).
Proof.
  intros Hn. cbn [tok_set]. assert (esc_chars n = Some [n]) as ->; [|done].
  assert (forallb (fun k => bool_decide (esc_chars (Z.of_nat k) = Some [Z.of_nat k])) (seq 0 256) = true) as H by (vm_compute; reflexivity).
  rewrite List.forallb_forall in H. specialize (H (Z.to_nat n)). rewrite Z2Nat.id in H by lia.
  eapply bool_decide_eq_true_1, H, List.in_seq. lia.
Qed.

(** ** The anchor occurs in every match *)

(** The prefilter reads pairs where the compiler does: no token with a wildcard (or another character) first and a
    digit second is followed by a digit. *)
Definition shifted (c : Z) (t : pystr) : bool :=
  match t with d :: e :: _ => negb (is_hex c) && is_hex d && is_hex e | _ => false end.
Fixpoint aligned_loop (fuel : nat) (s : pystr) : bool :=
  match fuel, s with
  | S k, c :: t =>
      ((c =? 42) || bracket c || negb (shifted c t))
      && match hexsig_step c t with Ok p => aligned_loop k p.2 | Err _ => true end
  | _, _ => true
  end.
Definition aligned (hexsig : pystr) : bool := aligned_loop (length (unspaced hexsig)) (unspaced hexsig).

Definition inside (a s : bytes) : Prop := exists x y, s = x ++ a ++ y.
Lemma inside_app a s t : inside a s -> inside a (s ++ t).
Proof. intros (x & y & ->). exists x, (y ++ t). by rewrite <- !app_assoc. Qed.
Lemma inside_longer cur best s : inside cur s -> inside best s -> inside (longer cur best) s.
Proof. unfold longer. by case_match. Qed.

Lemma eat_app l s t : eat l s = Some t -> exists u, s = u ++ t.
Proof.
  revert s; induction l as [|p l IH]; intros s; cbn [eat]; [intros [= ->]; by exists []|].
  destruct s as [|b s]; [done|]. destruct (p b); [|done]. intros (u & ->)%IH. by exists (b :: u).
Qed.
Lemma rests_app i s t : t ∈ rests i s -> exists u, s = u ++ t.
Proof.
  destruct i; cbn [rests].
  - destruct (eat [p] s) eqn:E; [|by intros ?%elem_of_nil]. intros ->%list_elem_of_singleton. by eapply eat_app.
  - intros (n & -> & _)%list_elem_of_fmap. exists (take n s). by rewrite take_drop.
  - intros (l & _ & Hl)%list_elem_of_omap. by eapply eat_app.
Qed.
Lemma matches_cons i l s : matches (i :: l) s = true -> exists u t, s = u ++ t /\ t ∈ rests i s /\ matches l t = true.
Proof.
  cbn [matches]. intros (t & Hin & Ht)%List.existsb_exists. apply list_elem_of_In in Hin.
  destruct (rests_app _ _ _ Hin) as [u Hu]. by exists u, t.
Qed.
Lemma matches_split l1 l2 s : matches (l1 ++ l2) s = true -> exists u t, s = u ++ t /\ matches l2 t = true.
Proof.
  revert s; induction l1 as [|i l1 IH]; intros s H; [by exists [], s|].
  apply matches_cons in H as (u & t & -> & _ & H). apply IH in H as (u' & t' & -> & H).
  exists (u ++ u'), t'. by rewrite app_assoc.
Qed.

Lemma anchor_stop k best cur s :
  (length s <= k)%nat -> s = [] -> anchor_loop k best cur s = Ok (longer cur best).
Proof. intros _ ->. by destruct k. Qed.
Lemma anchor_skip k best cur c t :
  (is_hex c && match t with d :: _ => is_hex d | [] => false end) = false -> bracket c = false ->
  anchor_loop (S k) best cur (c :: t) = anchor_loop k (longer cur best) [] t.
Proof.
  intros H Hb. cbn [anchor_loop]. unfold bracket in Hb. destruct t as [|d t]; rewrite ?H, Hb; done.
Qed.
Lemma anchor_bracket k best cur c t p :
  bracket c = true -> index (closing c) t = Ok p ->
  anchor_loop (S k) best cur (c :: t) = anchor_loop k (longer cur best) [] p.2.
Proof.
  intros Hb Hp. assert (is_hex c = false) as Hh by (apply bracket_cases in Hb as [->|[->| ->]]; done).
  cbn [anchor_loop]. unfold bracket in Hb. destruct t as [|d t]; rewrite ?Hh, Hb, Hp; done.
Qed.
Lemma anchor_pair k best cur c d t x : is_hex c = true -> is_hex d = true -> int16 [c; d] = Ok x ->
  anchor_loop (S k) best cur (c :: d :: t) = anchor_loop k best (cur ++ [x]) t.
Proof. intros Hc Hd Hx. cbn [anchor_loop]. by rewrite Hc, Hd, Hx. Qed.

(** The state of the two walks: what was matched so far ends in the literal run and contains the best one. *)
Definition tracked (best cur pre : bytes) : Prop := (exists x, pre = x ++ cur) /\ inside best pre.
Lemma tracked_flush best cur pre u : tracked best cur pre -> tracked (longer cur best) [] (pre ++ u).
Proof.
  intros [[x ->] Hb]. split; [by exists ((x ++ cur) ++ u); rewrite app_nil_r|]. apply inside_app, inside_longer; [|done].
  exists x, []. by rewrite app_nil_r.
Qed.
Lemma tracked_push best cur pre b : tracked best cur pre -> tracked best (cur ++ [b]) (pre ++ [b]).
Proof. intros [[x ->] Hb]. split; [exists x; by rewrite app_assoc | by apply inside_app]. Qed.
Lemma longer_nil b : longer [] b = b.
Proof. unfold longer. by case_match; [destruct b|]. Qed.

Lemma index_length sep t p : index sep t = Ok p -> (length p.2 <= length t)%nat.
Proof.
  unfold index. destruct (cut sep t) as [q|] eqn:E; [|done]. intros [= ->]. revert p E.
  induction t as [|c t IH]; intros p; cbn [cut length]; [done|]. destruct (c =? sep); [intros [= <-]; cbn [snd]; lia|].
  destruct (cut sep t) as [q|] eqn:E; [|done]. intros [= <-]. specialize (IH _ eq_refl). exact (Nat.le_le_succ_r _ _ IH).
Qed.
Lemma step_length c t p : hexsig_step c t = Ok p -> (length p.2 <= length t)%nat.
Proof.
  unfold hexsig_step. intros Hs.
  destruct (c =? 42); [by injection Hs as <-|].
  destruct (c =? 123); [inv_res; subst; by eapply index_length|].
  destruct (c =? 40); [inv_res; subst; by eapply index_length|].
  destruct (c =? 91); [inv_res; subst; by eapply index_length|].
  destruct t as [|d t]; [done|]. inv_res. subst. apply Nat.le_succ_diag_r.
Qed.

(** One step of the compiler against one or two of the prefilter. *)
Lemma step_tracked c t f rest its :
  hexsig_step c t = Ok (f, rest) -> compile_frag f = Ok its -> (c =? 42) || bracket c || negb (shifted c t) = true ->
  forall k best cur res pre data rx, (length (c :: t) <= k)%nat -> anchor_loop k best cur (c :: t) = Ok res ->
  tracked best cur pre -> matches (its ++ rx) data = true ->
  exists k' best' cur' u data', (length rest <= k')%nat /\ anchor_loop k' best' cur' rest = Ok res /\
    data = u ++ data' /\ tracked best' cur' (pre ++ u) /\ matches rx data' = true.
Proof.
  intros Hs Hf Ha k best cur res pre data rx Hk Hl Ht Hm. destruct k as [|k]; [cbn in Hk; lia|]. cbn [length] in Hk.
  assert (forall k', (length rest <= k')%nat -> anchor_loop k' (longer cur best) [] rest = Ok res ->
    exists k' best' cur' u data', (length rest <= k')%nat /\ anchor_loop k' best' cur' rest = Ok res /\
      data = u ++ data' /\ tracked best' cur' (pre ++ u) /\ matches rx data' = true) as Hflush.
  { intros k' Hk' Hl'. apply matches_split in Hm as (u & d' & -> & Hm).
    exists k', (longer cur best), [], u, d'. split_and!; try done; by apply tracked_flush. }
  unfold hexsig_step in Hs. destruct (c =? 42) eqn:E42.
  { injection Hs as <- <-. apply Z.eqb_eq in E42 as ->. rewrite anchor_skip in Hl by done. by apply (Hflush k); [lia|]. }
  assert (forall p, bracket c = true -> index (closing c) t = Ok p -> rest = p.2 -> exists k' best' cur' u data',
      (length rest <= k')%nat /\ anchor_loop k' best' cur' rest = Ok res /\
      data = u ++ data' /\ tracked best' cur' (pre ++ u) /\ matches rx data' = true) as Hbr.
  { intros p Hb Hp ->. rewrite (anchor_bracket _ _ _ _ _ p) in Hl by done. apply (Hflush k); [|done].
    apply index_length in Hp. lia. }
  destruct (c =? 123) eqn:E1.
  { apply Z.eqb_eq in E1 as ->. inv_res. by eapply Hbr. }
  destruct (c =? 40) eqn:E2.
  { apply Z.eqb_eq in E2 as ->. inv_res. by eapply Hbr. }
  destruct (c =? 91) eqn:E3.
  { apply Z.eqb_eq in E3 as ->. inv_res. by eapply Hbr. }
  assert (bracket c = false) as Hbc by (unfold bracket; by rewrite E1, E2, E3). rewrite Hbc in Ha. cbn [orb] in Ha.
  destruct t as [|d t]; [done|]. inv_res. rename v into x, Hv into Hx.
  pose proof (pair_bracket _ _ _ Hx) as Hbd. cbn [length] in Hk.
  destruct (is_hex c && is_hex d) eqn:Ecd.
  - apply andb_true_iff in Ecd as [Hc Hd]. destruct (hex_pair c d Hc Hd) as (n & Hn & Hi & Hp).
    rewrite Hx in Hp. injection Hp as ->. rewrite (anchor_pair _ _ _ _ _ _ n) in Hl by done.
    cbn [compile_frag] in Hf. rewrite byte_set in Hf by done. injection Hf as <-.
    apply matches_cons in Hm as (u & d' & -> & Hr & Hm). exists k, best, (cur ++ [n]), [n], d'.
    cbn [rests eat] in Hr. destruct (u ++ d') as [|b s] eqn:Eu; [by apply elem_of_nil in Hr|].
    destruct (n =? b) eqn:Enb; [|by apply elem_of_nil in Hr]. apply list_elem_of_singleton in Hr as ->. apply Z.eqb_eq in Enb as ->.
    split_and!; try done; [lia | by apply tracked_push].
  - destruct k as [|k]; [lia|]. rewrite anchor_skip in Hl by done.
    assert (is_hex d && match rest with e :: _ => is_hex e | [] => false end = false) as Hde.
    { cbn [shifted] in Ha. destruct rest as [|e rest]; [by rewrite andb_false_r|]. destruct (is_hex c), (is_hex d), (is_hex e); done. }
    rewrite anchor_skip in Hl by done. rewrite longer_nil in Hl. apply (Hflush k); [lia|done].
Qed.

Lemma anchor_tracked fuel : forall s frs rx, (length s <= fuel)%nat -> hexsig_loop fuel s = Ok frs -> re_compile frs = Ok rx ->
  aligned_loop fuel s = true -> forall k best cur res pre data, (length s <= k)%nat -> anchor_loop k best cur s = Ok res ->
  tracked best cur pre -> matches rx data = true -> inside res (pre ++ data).
Proof.
  induction fuel as [|fuel IH]; intros s frs rx Hfu Hl Hc Ha k best cur res pre data Hk Hloop Ht Hm.
  - destruct s; [|cbn in Hfu; lia]. rewrite anchor_stop in Hloop by done. injection Hloop as <-.
    destruct (tracked_flush _ _ _ data Ht) as [_ H]. done.
  - destruct s as [|c t].
    { rewrite anchor_stop in Hloop by done. injection Hloop as <-. destruct (tracked_flush _ _ _ data Ht) as [_ H]. done. }
    cbn [hexsig_loop] in Hl. inv_res. destruct v as [f rest]. cbn [fst snd] in *.
    unfold re_compile in Hc. cbn [mapM_res] in Hc. inv_res. cbn [concat] in Hm.
    cbn [aligned_loop] in Ha. rewrite Hv in Ha. apply andb_true_iff in Ha as [Ha1 Ha2]. cbn [snd] in Ha2.
    destruct (step_tracked c t f rest _ Hv ltac:(eassumption) Ha1 _ _ _ _ _ _ _ Hk Hloop Ht Hm)
      as (k' & best' & cur' & u & data' & Hk' & Hl' & -> & Ht' & Hm').
    rewrite app_assoc. eapply (IH rest); try eassumption;
      [|unfold re_compile; match goal with H : mapM_res compile_frag _ = Ok _ |- _ => rewrite H end; reflexivity].
    apply step_length in Hv. cbn [length snd] in *. lia.
Qed.

Lemma compile_hexsig_inv h rx : compile_hexsig h = Ok (Some rx) -> exists frs, hexsig_frags h = Ok frs /\ re_compile frs = Ok rx.
Proof.
  unfold compile_hexsig. intros H. destruct (hexsig_frags h) as [frs|e]; cbn [mbind result_bind] in H; [|destruct e; discriminate].
  destruct (re_compile frs) as [x|e] eqn:E; [|destruct e; discriminate]. injection H as ->. by exists frs.
Qed.
Lemma literal_anchor_inv h a : literal_anchor h = Ok (Some a) ->
  anchor_loop (length (unspaced h)) [] [] (unspaced h) = Ok a /\ (4 <= length a)%nat.
Proof.
  unfold literal_anchor. destruct (anchor_loop _ _ _ _) as [v|]; cbn [mbind result_bind]; [|done].
  destruct (4 <=? length v)%nat eqn:E; [|done]. intros [= ->]. split; [done | by apply Nat.leb_le].
Qed.
Lemma anchor_in_match h rx a s :
  compile_hexsig h = Ok (Some rx) -> aligned h = true -> literal_anchor h = Ok (Some a) -> matches rx s = true -> inside a s.
Proof.
  intros (frs & Hf & Hc)%compile_hexsig_inv Ha [Hl _]%literal_anchor_inv Hm.
  apply (anchor_tracked _ _ _ _ (Nat.le_refl _) Hf Hc Ha _ _ _ _ [] s (Nat.le_refl _) Hl); [|done].
  split; [by exists [] | by exists [], []].
Qed.

(** ** Where a match starts *)

Lemma search_from_spec rx s i :
  match search_from rx s i with
  | Some j => exists u t, s = u ++ t /\ j = i + blen u /\ matches rx t = true
  | None => forall u t, s = u ++ t -> matches rx t = false
  end.
Proof.
  revert i; induction s as [|b s IH]; intros i; cbn [search_from].
  - destruct (matches rx []) eqn:E; [by exists [], []; rewrite Z.add_0_r|]. intros u t H. symmetry in H. by apply app_nil in H as [-> ->].
  - destruct (matches rx (b :: s)) eqn:E; [by exists [], (b :: s); rewrite Z.add_0_r|]. specialize (IH (i + 1)).
    destruct (search_from rx s (i + 1)).
    + destruct IH as (u & t & -> & -> & Hm). exists (b :: u), t. split_and!; [done | unfold blen; cbn [length]; lia | done].
    + intros [|c u] t H; [by cbn in H; subst|]. injection H as -> ->. by eapply IH.
Qed.
Lemma clip_bounds data pos : 0 <= clip data pos <= blen data.
Proof. unfold clip. pose proof (blen_nonneg data). lia. Qed.
Lemma search_matches rx data pos j : search rx data pos = Some j -> matches rx (drop (Z.to_nat j) data) = true /\ 0 <= j <= blen data.
Proof.
  unfold search. intros H. pose proof (search_from_spec rx (drop (Z.to_nat (clip data pos)) data) (clip data pos)) as Hs.
  rewrite H in Hs. destruct Hs as (u & t & He & -> & Hm). pose proof (clip_bounds data pos) as Hc.
  assert (drop (Z.to_nat (clip data pos + blen u)) data = t) as ->.
  { rewrite Z2Nat.inj_add, <- drop_drop, He by (unfold blen; lia). unfold blen. rewrite Nat2Z.id. by rewrite drop_app_length. }
  split; [done|]. apply (f_equal length) in He. rewrite length_drop, length_app in He. unfold blen in *. lia.
Qed.
Lemma match_at_matches rx data pos j : match_at rx data pos = Some j -> matches rx (drop (Z.to_nat j) data) = true /\ 0 <= j <= blen data.
Proof. unfold match_at. intros H. destruct (matches _ _) eqn:E; [|done]. injection H as <-. split; [done | apply clip_bounds]. Qed.
