(* ===== verification/AntiVirus.v ===== *)
(** * The file scanner

    [ffn_antivirus.py]: the class [AntiVirus] builds its matchers from the enabled rows of the signature database (a
    dictionary of hashes, patterns found through the Aho-Corasick automaton of their literal anchors, patterns without
    anchor, string rules) and [scan_file] tries them in that order; [detect_file_type] is that of
    [inline_payload_det.py].  A row is read with the columns its type uses; the JSON text of a string rule is the value
    it holds.  The three digests and [str.lower] are functions given as parameters.

    Main results: a file is reported exactly when some row matches it, that is, the prefilter loses nothing, provided
    the signatures are aligned ([HexSig.aligned]) and hash rows for one digest agree on the size; an unaligned one is
    never found, a later hash row with another size hides the earlier, and one bad row stops the scanner from being
    built. *)

From S2P Require Import Prelude PyStr PyDict PyIp PyXml PyIp6 PolicyObjects NatPolicy DbCompiler HexSig.
From S2P Require AhoCorasick FpgaEmu.

(** ** Rows and results *)

Inductive sig_body :=
| SHash (hash_type hash_value : pystr) (file_size : Z)
| SPattern (hex_pattern offset : pystr)
| SYara (strings : list (pystr * pystr)) (condition : pystr).
Record sig := {
  s_id : Z; s_name : pystr; s_family : option pystr; s_target : pystr; s_severity : pystr; s_verdict : pystr;
  s_action : Z; s_body : sig_body }.

Record _Pat := { p_sig : sig; p_rx : list item; p_offset : pystr }.
Record _Yara := { y_sig : sig; y_strings : list bytes; y_condition : pystr }.

Record AvResult := {
  infected : bool; virus_name : pystr; r_sig_id : option Z; r_family : pystr; r_severity : pystr; r_verdict : pystr;
  r_action : Z; r_method : pystr; r_offset : Z; file_type : option pystr; r_sha256 : pystr }.
Definition clean (ftype : option pystr) : AvResult :=
  {| infected := false; virus_name := []; r_sig_id := None; r_family := []; r_severity := []; r_verdict := lit "benign";
     r_action := 0; r_method := []; r_offset := -1; file_type := ftype; r_sha256 := [] |}.

Definition matcher := @AhoCorasick.ac Z.
Record antivirus := {
  _hash_index : list ((pystr * pystr) * sig); _pat_by_anchor : list (Z * _Pat); _pat_noanchor : list _Pat;
  _ac : option matcher; _yara : list _Yara }.

(** ** File types *)

Definition ascii_lower (b : Z) : Z := if between 65 b 90 then b + 32 else b.
Fixpoint starts (p s : bytes) : bool :=
  match p, s with
  | [], _ => true
  | a :: p', b :: s' => (a =? b) && starts p' s'
  | _, [] => false
  end.
(** [p in s]. *)
Fixpoint contains (p s : bytes) : bool :=
  starts p s || match s with [] => false | _ :: t => contains p t end.

Definition FILE_MAGIC : list (bytes * pystr) :=
  [(lit "MZ", lit "pe"); (127 :: lit "ELF", lit "elf"); (lit "%PDF", lit "pdf"); (lit "PK" ++ [3; 4], lit "zip");
   ([208; 207; 17; 224], lit "ole"); ([31; 139], lit "gzip"); (lit "Rar!", lit "rar"); ([202; 254; 186; 190], lit "macho");
   (lit "#!", lit "script"); (lit "<?php", lit "php"); (lit "<script", lit "html_js")].
Definition detect_file_type (data : bytes) : option pystr :=
  snd <$> List.find (fun m => starts m.1 (take 16 data)
                              || (bool_decide (m.1 = lit "<script") && contains (lit "<script") (map ascii_lower (take 512 data)))) FILE_MAGIC.

(** ** Building the matchers *)

(** [v.encode('utf-8', 'ignore')]. *)
Definition encode_ignore (s : pystr) : bytes := concat (map (fun c => default [] (utf8_encode1 c)) s).
Definition yara_string (v : pystr) : result hex_exn bytes :=
  if starts (lit "hex:") v then match from_hex (drop 4 v) with Some b => Ok b | None => Err HexValue end
  else Ok (encode_ignore v).

Definition no_matchers : antivirus :=
  {| _hash_index := []; _pat_by_anchor := []; _pat_noanchor := []; _ac := None; _yara := [] |}.
(** The state of the loop of [compile]: the matchers and the automaton under construction. *)
Definition add_pattern (s : sig) (hex offset : pystr) (av : antivirus) (a : matcher) : result hex_exn (antivirus * matcher) :=
  rx ← compile_hexsig hex;
  match rx with
  | None => Ok (av, a)
  | Some rx =>
      let pat := {| p_sig := s; p_rx := rx; p_offset := offset |} in
      anchor ← literal_anchor hex;
      match anchor with
      | Some w =>
          match AhoCorasick.add a w (s_id s) with
          | Ok a' => Ok ({| _hash_index := _hash_index av; _pat_by_anchor := dset (s_id s) pat (_pat_by_anchor av);
                            _pat_noanchor := _pat_noanchor av; _ac := _ac av; _yara := _yara av |}, a')
          | Err _ => Err HexValue
          end
      | None => Ok ({| _hash_index := _hash_index av; _pat_by_anchor := _pat_by_anchor av;
                       _pat_noanchor := _pat_noanchor av ++ [pat]; _ac := _ac av; _yara := _yara av |}, a)
      end
  end.
Definition compile_sig (st : antivirus * matcher) (s : sig) : result hex_exn (antivirus * matcher) :=
  let '(av, a) := st in
  match s_body s with
  | SHash ht hv _ =>
      Ok ({| _hash_index := dset (ht, hv) s (_hash_index av); _pat_by_anchor := _pat_by_anchor av;
             _pat_noanchor := _pat_noanchor av; _ac := _ac av; _yara := _yara av |}, a)
  | SPattern hex offset => add_pattern s hex offset av a
  | SYara strings condition =>
      l ← mapM_res (fun kv => yara_string kv.2) strings;
      Ok ({| _hash_index := _hash_index av; _pat_by_anchor := _pat_by_anchor av; _pat_noanchor := _pat_noanchor av;
             _ac := _ac av; _yara := _yara av ++ [{| y_sig := s; y_strings := l; y_condition := condition |}] |}, a)
  end.
(** [compile]: the automaton is kept when it has a pattern. *)
Definition compile (sigs : list sig) : result hex_exn antivirus :=
  st ← foldM_res compile_sig (no_matchers, AhoCorasick.ac_init) sigs;
  let '(av, a) := st in
  Ok {| _hash_index := _hash_index av; _pat_by_anchor := _pat_by_anchor av; _pat_noanchor := _pat_noanchor av;
        _ac := if (AhoCorasick._npat a =? 0)%nat then None else Some (AhoCorasick.build a); _yara := _yara av |}.

(** ** Scanning *)

Section Scan.
Context (md5 sha1 sha256 : bytes -> pystr) (lower : pystr -> pystr).

Definition lstrip_dash (s : pystr) : pystr := (fix go s := match s with 45 :: t => go t | _ => s end) s.
(** The start of the match [_offset_match] finds. *)
Definition _offset_match (rx : list item) (data : bytes) (offset : pystr) : result hex_exn (option Z) :=
  let offset := strip (match offset with [] => lit "*" | _ => offset end) in
  if bool_decide (offset = lit "*") || bool_decide (offset = []) || starts (lit "EP") offset || starts (lit "S") offset
  then Ok (search rx data 0)
  else if starts (lit "EOF-") offset then
    match py_int (drop 4 offset) with
    | None => Ok (search rx data 0)
    | Some n => Ok (search rx data (Z.max 0 (blen data - n - 256)))
    end
  else if isdigit (lstrip_dash offset) then n ← int10 offset; Ok (match_at rx data n)
  else Ok (search rx data 0).

Definition _target_ok (target : pystr) (ftype : option pystr) : bool :=
  bool_decide (target = lit "any") || match ftype with None => true | Some f => bool_decide (target = f) end.

Fixpoint span (p : Z -> bool) (s : pystr) : pystr * pystr :=
  match s with
  | c :: t => if p c then let '(a, b) := span p t in (c :: a, b) else ([], s)
  | [] => ([], [])
  end.
(** [re.match(r'(\d+)\s+of\s+them', c)]: the digits. *)
Definition n_of_them (c : pystr) : option pystr :=
  let '(n, r) := span (fun c => if digit_value c then true else false) c in
  let '(w, r) := span is_space r in
  match n, w with
  | [], _ | _, [] => None
  | _, _ =>
      if starts (lit "of") r then
        let '(w, r) := span is_space (drop 2 r) in
        match w with [] => None | _ => if starts (lit "them") r then Some n else None end
      else None
  end.
Definition _cond_met (condition : pystr) (hits total : Z) : result hex_exn bool :=
  let c := lower (strip (match condition with [] => lit "all" | _ => condition end)) in
  if bool_decide (c = lit "all") then Ok (hits =? total)
  else if bool_decide (c = lit "any") then Ok (1 <=? hits)
  else match n_of_them c with
       | Some n => match int_of_digits n with Some k => Ok (k <=? hits) | None => Err HexValue end
       | None => Ok (hits =? total)
       end.

Definition _hit (res : AvResult) (s : sig) (method : string) (offset : Z) : AvResult :=
  {| infected := true; virus_name := s_name s; r_sig_id := Some (s_id s); r_family := default [] (s_family s);
     r_severity := s_severity s; r_verdict := s_verdict s; r_action := s_action s; r_method := lit method; r_offset := offset;
     file_type := file_type res; r_sha256 := r_sha256 res |}.

(** The loops of [scan_file]: over the digests, the candidates and the string rules. *)
Definition size_ok (s : sig) (data : bytes) : bool :=
  match s_body s with SHash _ _ size => (size =? 0) || (size =? blen data) | _ => false end.
Definition digests (data : bytes) : list (pystr * pystr) :=
  [(lit "md5", md5 data); (lit "sha1", sha1 data); (lit "sha256", sha256 data)].
Fixpoint scan_hashes (index : list ((pystr * pystr) * sig)) (ds : list (pystr * pystr)) (data : bytes) : option sig :=
  match ds with
  | [] => None
  | d :: t =>
      match dget d index with
      | Some s => if size_ok s data then Some s else scan_hashes index t data
      | None => scan_hashes index t data
      end
  end.
Definition candidate (pats : list (Z * _Pat)) (st : list Z * list _Pat) (id : Z) : list Z * list _Pat :=
  let '(seen, l) := st in
  if bool_decide (id ∈ seen) then st
  else (id :: seen, match dget id pats with Some p => l ++ [p] | None => l end).
Definition candidates (av : antivirus) (data : bytes) : list _Pat :=
  match _ac av with
  | None => _pat_noanchor av
  | Some a => (fold_left (candidate (_pat_by_anchor av)) (map snd (fst (AhoCorasick.iter_matches a data))) ([], _pat_noanchor av)).2
  end.
Fixpoint scan_patterns (ftype : option pystr) (data : bytes) (l : list _Pat) : result hex_exn (option (sig * Z)) :=
  match l with
  | [] => Ok None
  | p :: t =>
      if negb (_target_ok (s_target (p_sig p)) ftype) then scan_patterns ftype data t
      else m ← _offset_match (p_rx p) data (p_offset p);
           match m with Some j => Ok (Some (p_sig p, j)) | None => scan_patterns ftype data t end
  end.
Definition hits (y : _Yara) (data : bytes) : Z :=
  Z.of_nat (length (List.filter (fun s => match s with [] => false | _ => contains s data end) (y_strings y))).
Fixpoint scan_yara (ftype : option pystr) (data : bytes) (l : list _Yara) : result hex_exn (option sig) :=
  match l with
  | [] => Ok None
  | y :: t =>
      if negb (_target_ok (s_target (y_sig y)) ftype) then scan_yara ftype data t
      else b ← _cond_met (y_condition y) (hits y data) (Z.of_nat (length (y_strings y)));
           if b : bool then Ok (Some (y_sig y)) else scan_yara ftype data t
  end.

Definition scan_file (av : antivirus) (data : bytes) : result hex_exn AvResult :=
  let ftype := detect_file_type data in
  match data with
  | [] => Ok (clean ftype)
  | _ =>
      let res := {| infected := false; virus_name := []; r_sig_id := None; r_family := []; r_severity := []; r_verdict := lit "benign";
                    r_action := 0; r_method := []; r_offset := -1; file_type := ftype; r_sha256 := sha256 data |} in
      match scan_hashes (_hash_index av) (digests data) data with
      | Some s => Ok (_hit res s "hash" 0)
      | None =>
          m ← scan_patterns ftype data (candidates av data);
          match m with
          | Some (s, j) => Ok (_hit res s "pattern" j)
          | None =>
              y ← scan_yara ftype data (_yara av);
              match y with Some s => Ok (_hit res s "yara" 0) | None => Ok res end
          end
      end
  end.
End Scan.

(** ** What the matchers hold *)

(** The pattern and the anchor of a row. *)
Definition entry (s : sig) (p : _Pat) (anchor : option bytes) : Prop :=
  exists hex off rx, s_body s = SPattern hex off /\ compile_hexsig hex = Ok (Some rx) /\ literal_anchor hex = Ok anchor /\
    p = {| p_sig := s; p_rx := rx; p_offset := off |}.
Definition rule (s : sig) (y : _Yara) : Prop :=
  exists strs cond l, s_body s = SYara strs cond /\ mapM_res (fun kv => yara_string kv.2) strs = Ok l /\
    y = {| y_sig := s; y_strings := l; y_condition := cond |}.
Definition hash_key (s : sig) : option (pystr * pystr) :=
  match s_body s with SHash ht hv _ => Some (ht, hv) | _ => None end.

(** Every entry is a row with that digest, and every row's digest has an entry (the last row's, when several have it). *)
Definition hashes_ok (seen : list sig) (d : list ((pystr * pystr) * sig)) : Prop :=
  (forall k s, dget k d = Some s -> s ∈ seen /\ hash_key s = Some k)
  /\ (forall s k, s ∈ seen -> hash_key s = Some k -> exists s', dget k d = Some s').
Definition anchors_ok (seen : list sig) (d : list (Z * _Pat)) : Prop :=
  forall id p, dget id d = Some p <-> exists s w, s ∈ seen /\ s_id s = id /\ entry s p (Some w).
Definition free_ok (seen : list sig) (l : list _Pat) : Prop := forall p, p ∈ l <-> exists s, s ∈ seen /\ entry s p None.
Definition yara_ok (seen : list sig) (l : list _Yara) : Prop := forall y, y ∈ l <-> exists s, s ∈ seen /\ rule s y.
Definition automaton_ok (seen : list sig) (a : matcher) : Prop :=
  exists pats words, AhoCorasick.loaded a pats words /\ AhoCorasick._npat a = length pats /\
    forall w id, (w, id) ∈ pats <-> exists s p, s ∈ seen /\ s_id s = id /\ entry s p (Some w).
Record built (seen : list sig) (av : antivirus) (a : matcher) : Prop := {
  b_hash : hashes_ok seen (_hash_index av);
  b_anchor : anchors_ok seen (_pat_by_anchor av);
  b_free : free_ok seen (_pat_noanchor av);
  b_yara : yara_ok seen (_yara av);
  b_auto : automaton_ok seen a }.

Lemma entry_fun s p q w w' : entry s p w -> entry s q w' -> p = q /\ w = w'.
Proof. intros (h & o & r & Hb & Hc & Ha & ->) (h' & o' & r' & Hb' & Hc' & Ha' & ->). rewrite Hb in Hb'. simplify_eq. rewrite Hc in Hc'. rewrite Ha in Ha'. by simplify_eq. Qed.

(** The row ids differ: [sig_id] is the table's primary key. *)
Definition distinct (sigs : list sig) : Prop := NoDup (s_id <$> sigs).
Lemma distinct_snoc seen s : distinct (seen ++ [s]) -> forall x, x ∈ seen -> s_id x <> s_id s.
Proof.
  unfold distinct. rewrite fmap_app. intros (A1 & A2 & _)%NoDup_app x Hx He. apply (A2 (s_id x)); [by apply list_elem_of_fmap_2 | rewrite He; by left].
Qed.

Lemma npat_add (a a' : matcher) w id : AhoCorasick.add a w id = Ok a' -> AhoCorasick._npat a' = S (AhoCorasick._npat a).
Proof.
  unfold AhoCorasick.add. destruct (AhoCorasick._built a); [done|]. destruct w as [|b w]; [done|].
  destruct (AhoCorasick.add_loop _ _ _ _ _) as [[[g f] o] n]. by intros [= <-].
Qed.

Lemma built_init : built [] no_matchers AhoCorasick.ac_init.
Proof.
  split; cbn.
  - by split; [|intros s k ?%elem_of_nil].
  - intros id p. split; [done | by intros (s & w & ?%elem_of_nil & _)].
  - intros p. rewrite elem_of_nil. split; [done | by intros (s & ?%elem_of_nil & _)].
  - intros y. rewrite elem_of_nil. split; [done | by intros (s & ?%elem_of_nil & _)].
  - exists [], [[]]. split_and!; [apply AhoCorasick.loaded_init | done |]. intros w id. rewrite elem_of_nil.
    split; [done | by intros (s & p & ?%elem_of_nil & _)].
Qed.

Lemma elem_snoc {B} (l : list B) x y : y ∈ l ++ [x] <-> y ∈ l \/ y = x.
Proof. by rewrite elem_of_app, list_elem_of_singleton. Qed.

Section Snoc.
Context (seen : list sig) (s : sig) (Hd : distinct (seen ++ [s])).

(** A row of another kind changes nothing. *)
Lemma hashes_frame d : hash_key s = None -> hashes_ok seen d -> hashes_ok (seen ++ [s]) d.
Proof.
  intros Hs [H1 H2]. split; [intros k x Hx; destruct (H1 k x Hx); split; [by apply elem_snoc; left | done]|].
  intros x k [Hx| ->]%elem_snoc Hk; [by eapply H2 | congruence].
Qed.
Lemma anchors_frame d : (forall p w, ~ entry s p (Some w)) -> anchors_ok seen d -> anchors_ok (seen ++ [s]) d.
Proof.
  intros Hs H id p. rewrite (H id p). setoid_rewrite elem_snoc. split; [naive_solver|].
  intros (x & w & [?| ->] & ? & He); [naive_solver | by apply Hs in He].
Qed.
Lemma free_frame l : (forall p, ~ entry s p None) -> free_ok seen l -> free_ok (seen ++ [s]) l.
Proof. intros Hs H p. rewrite (H p). setoid_rewrite elem_snoc. split; [naive_solver|]. intros (x & [?| ->] & He); [naive_solver | by apply Hs in He]. Qed.
Lemma yara_frame l : (forall y, ~ rule s y) -> yara_ok seen l -> yara_ok (seen ++ [s]) l.
Proof. intros Hs H p. rewrite (H p). setoid_rewrite elem_snoc. split; [naive_solver|]. intros (x & [?| ->] & He); [naive_solver | by apply Hs in He]. Qed.
Lemma automaton_frame a : (forall p w, ~ entry s p (Some w)) -> automaton_ok seen a -> automaton_ok (seen ++ [s]) a.
Proof.
  intros Hs (pats & words & L & N & H). exists pats, words. split_and!; [done..|]. intros w id. rewrite (H w id).
  setoid_rewrite elem_snoc. split; [naive_solver|]. intros (x & p & [?| ->] & ? & He); [naive_solver | by apply Hs in He].
Qed.

Lemma hashes_add ht hv size d : s_body s = SHash ht hv size -> hashes_ok seen d -> hashes_ok (seen ++ [s]) (dset (ht, hv) s d).
Proof.
  intros Eb [H1 H2]. assert (hash_key s = Some (ht, hv)) as Ek by (unfold hash_key; by rewrite Eb). split.
  - intros k x. rewrite dget_dset, elem_snoc. destruct (decide (k = (ht, hv))) as [->|Hk]; [intros [= <-]; by split; [right|]|].
    intros Hx. destruct (H1 k x Hx). by split; [left|].
  - intros x k Hx Hk. rewrite dget_dset. destruct (decide (k = (ht, hv))) as [->|Hne]; [by exists s|].
    apply elem_snoc in Hx as [Hx| ->]; [by eapply H2 | congruence].
Qed.
Lemma anchors_add p w d : entry s p (Some w) -> anchors_ok seen d -> anchors_ok (seen ++ [s]) (dset (s_id s) p d).
Proof.
  intros He H id q. pose proof (distinct_snoc _ _ Hd) as Hid. rewrite dget_dset. setoid_rewrite elem_snoc.
  destruct (decide (id = s_id s)) as [->|Hk].
  - split; [intros [= <-]; exists s, w; naive_solver|]. intros (x & w' & [Hx| ->] & Hi & Hq); [by destruct (Hid x Hx)|].
    by destruct (entry_fun _ _ _ _ _ He Hq) as [-> _].
  - rewrite (H id q). split; [naive_solver|]. intros (x & w' & [Hx| ->] & Hi & Hq); [naive_solver | congruence].
Qed.
Lemma free_add p l : entry s p None -> free_ok seen l -> free_ok (seen ++ [s]) (l ++ [p]).
Proof.
  intros He H q. rewrite elem_snoc, (H q). setoid_rewrite elem_snoc. split; [naive_solver|].
  intros (x & [Hx| ->] & Hq); [naive_solver|]. right. by destruct (entry_fun _ _ _ _ _ He Hq).
Qed.
Lemma yara_add y l : rule s y -> yara_ok seen l -> yara_ok (seen ++ [s]) (l ++ [y]).
Proof.
  intros He H q. rewrite elem_snoc, (H q). setoid_rewrite elem_snoc. split; [naive_solver|].
  intros (x & [Hx| ->] & Hq); [naive_solver|]. right.
  destruct He as (? & ? & ? & E1 & E2 & ->), Hq as (? & ? & ? & F1 & F2 & ->). rewrite E1 in F1. simplify_eq. rewrite E2 in F2. by simplify_eq.
Qed.
Lemma automaton_add p w a a' : entry s p (Some w) -> AhoCorasick.add a w (s_id s) = Ok a' ->
  automaton_ok seen a -> automaton_ok (seen ++ [s]) a'.
Proof.
  intros He Ha (pats & words & L & N & H). destruct (AhoCorasick.add_loaded _ _ _ _ _ _ L Ha) as [words' L'].
  exists (pats ++ [(w, s_id s)]), words'. split_and!; [done | rewrite length_app, (npat_add _ _ _ _ Ha), N; cbn; lia |].
  intros v id. rewrite elem_snoc, (H v id). setoid_rewrite elem_snoc. split.
  - intros [(x & q & ? & ? & ?) | [= -> ->]]; [naive_solver|]. exists s, p. naive_solver.
  - intros (x & q & [Hx| ->] & Hi & Hq); [naive_solver|]. right. destruct (entry_fun _ _ _ _ _ He Hq) as [_ [= ->]]. by subst.
Qed.
End Snoc.

Lemma compile_sig_built seen s av a av' a' :
  distinct (seen ++ [s]) -> built seen av a -> compile_sig (av, a) s = Ok (av', a') -> built (seen ++ [s]) av' a'.
Proof.
  intros Hd [B1 B2 B3 B4 B5] H. unfold compile_sig in H.
  destruct (s_body s) as [ht hv size | hex off | strs cond] eqn:Eb.
  - injection H as <- <-. assert (forall p w, ~ entry s p w) as He by (intros p w (? & ? & ? & ? & _); congruence).
    split; cbn [_hash_index _pat_by_anchor _pat_noanchor _yara];
      [by eapply hashes_add | by apply anchors_frame | by apply free_frame | | by apply automaton_frame].
    apply yara_frame; [|done]. intros y (? & ? & ? & ? & _). congruence.
  - assert (hash_key s = None) as Hh by (unfold hash_key; by rewrite Eb).
    assert (forall y, ~ rule s y) as Hy by (intros y (? & ? & ? & ? & _); congruence).
    unfold add_pattern in H. apply bind_ok_inv in H as (rx & Hrx & H). destruct rx as [rx|].
    2: { injection H as <- <-. assert (forall p w, ~ entry s p w) as He by (intros p w (? & ? & ? & ? & ? & _); congruence).
         split; [by apply hashes_frame | by apply anchors_frame | by apply free_frame | by apply yara_frame | by apply automaton_frame]. }
    apply bind_ok_inv in H as (an & Han & H).
    assert (entry s {| p_sig := s; p_rx := rx; p_offset := off |} an) as He by (by exists hex, off, rx).
    destruct an as [w|].
    + destruct (AhoCorasick.add a w (s_id s)) as [a1|] eqn:Ea; [|done]. injection H as <- <-.
      split; cbn [_hash_index _pat_by_anchor _pat_noanchor _yara];
        [by apply hashes_frame | by eapply anchors_add | | by apply yara_frame | by eapply automaton_add].
      apply free_frame; [|done]. intros q Hq. by destruct (entry_fun _ _ _ _ _ He Hq).
    + injection H as <- <-. assert (forall p w, ~ entry s p (Some w)) as Hn.
      { intros p w Hq. by destruct (entry_fun _ _ _ _ _ He Hq). }
      split; cbn [_hash_index _pat_by_anchor _pat_noanchor _yara];
        [by apply hashes_frame | by apply anchors_frame | by apply free_add | by apply yara_frame | by apply automaton_frame].
  - apply bind_ok_inv in H as (l & Hl & H). injection H as <- <-.
    assert (forall p w, ~ entry s p w) as He by (intros p w (? & ? & ? & ? & _); congruence).
    assert (hash_key s = None) as Hh by (unfold hash_key; by rewrite Eb).
    split; cbn [_hash_index _pat_by_anchor _pat_noanchor _yara];
      [by apply hashes_frame | by apply anchors_frame | by apply free_frame | | by apply automaton_frame].
    apply yara_add; [|done]. by exists strs, cond, l.
Qed.

Lemma compile_fold sigs : forall seen av a av' a',
  distinct (seen ++ sigs) -> built seen av a -> foldM_res compile_sig (av, a) sigs = Ok (av', a') -> built (seen ++ sigs) av' a'.
Proof.
  induction sigs as [|s sigs IH]; intros seen av a av' a' Hd B H.
  - cbn in H. injection H as <- <-. by rewrite app_nil_r.
  - cbn [foldM_res] in H. apply bind_ok_inv in H as ([av1 a1] & H1 & H).
    change (s :: sigs) with ([s] ++ sigs) in *. rewrite app_assoc in Hd |- *. eapply IH; [done | | exact H].
    eapply compile_sig_built; [|exact B | exact H1]. unfold distinct in *. rewrite fmap_app in Hd. by apply NoDup_app in Hd as (Hd & _).
Qed.

(** The digests do not depend on the ids. *)
Lemma compile_sig_hashes seen s av a av' a' :
  hashes_ok seen (_hash_index av) -> compile_sig (av, a) s = Ok (av', a') -> hashes_ok (seen ++ [s]) (_hash_index av').
Proof.
  intros B H. unfold compile_sig in H. destruct (s_body s) as [ht hv size | hex off | strs cond] eqn:Eb.
  - injection H as <- <-. by eapply hashes_add.
  - assert (hash_key s = None) as Hh by (unfold hash_key; by rewrite Eb). unfold add_pattern in H. apply bind_ok_inv in H as (rx & _ & H).
    destruct rx as [rx|]; [|injection H as <- <-; by apply hashes_frame]. apply bind_ok_inv in H as (an & _ & H).
    destruct an as [w|]; [destruct (AhoCorasick.add a w (s_id s)); [|done]|]; injection H as <- <-; by apply hashes_frame.
  - assert (hash_key s = None) as Hh by (unfold hash_key; by rewrite Eb). apply bind_ok_inv in H as (l & _ & H). injection H as <- <-.
    by apply hashes_frame.
Qed.
Lemma compile_hashes sigs av : compile sigs = Ok av -> hashes_ok sigs (_hash_index av).
Proof.
  unfold compile. intros H. apply bind_ok_inv in H as ([av0 a] & H & He). injection He as <-. cbn [_hash_index].
  assert (forall l seen av a av' a', hashes_ok seen (_hash_index av) -> foldM_res compile_sig (av, a) l = Ok (av', a') ->
    hashes_ok (seen ++ l) (_hash_index av')) as Hf.
  { clear. induction l as [|s l IH]; intros seen av a av' a' B H; cbn [foldM_res] in H; [injection H as <- <-; by rewrite app_nil_r|].
    apply bind_ok_inv in H as ([av1 a1] & H1 & H). change (s :: l) with ([s] ++ l). rewrite app_assoc. eapply IH; [|exact H].
    by eapply compile_sig_hashes. }
  apply (Hf sigs [] _ _ _ _ (b_hash _ _ _ built_init) H).
Qed.

(** The automaton of the scanner reports the rows whose anchor occurs. *)
Definition reported (av : antivirus) (data : bytes) : list Z :=
  match _ac av with Some a => map snd (fst (AhoCorasick.iter_matches a data)) | None => [] end.
Lemma compile_built sigs av : distinct sigs -> compile sigs = Ok av ->
  hashes_ok sigs (_hash_index av) /\ anchors_ok sigs (_pat_by_anchor av) /\ free_ok sigs (_pat_noanchor av) /\ yara_ok sigs (_yara av) /\
  forall data s p w, s ∈ sigs -> entry s p (Some w) -> w <> [] -> inside w data -> s_id s ∈ reported av data.
Proof.
  intros Hd H. unfold compile in H. apply bind_ok_inv in H as ([av0 a] & H & He). injection He as <-.
  destruct (compile_fold sigs [] _ _ _ _ Hd built_init H) as [B1 B2 B3 B4 (pats & words & L & N & B5)].
  split_and!; try done. intros data s p w Hs Hp Hw (x & y & ->). unfold reported. cbn [_ac].
  assert ((w, s_id s) ∈ pats) as Hin by (apply B5; by exists s, p).
  rewrite N. destruct pats as [|q pats]; [by apply elem_of_nil in Hin|]. cbn [length Nat.eqb].
  apply list_elem_of_fmap. exists (blen x + blen w - 1, s_id s). split; [done|].
  unfold AhoCorasick.iter_matches. replace (AhoCorasick._built (AhoCorasick.build a)) with true.
  2: { unfold AhoCorasick.build. destruct (fold_left _ _ _). by destruct (AhoCorasick.build_loop _ _ _ _ _). }
  cbn [fst]. rewrite (AhoCorasick.build_scan a _ words _ L). apply FpgaEmu.all_matches_elem.
  assert (0 < blen w) as Hpos by (unfold blen; destruct w; [done | cbn; lia]). pose proof (blen_nonneg x). pose proof (blen_nonneg y).
  split; [rewrite !blen_app; lia|]. exists w. split; [done|]. unfold FpgaEmu.occurs. rewrite !blen_app.
  split_and!; [lia.. |]. apply slice_exact; lia.
Qed.

Lemma candidate_fold pats ids : forall seen l p,
  p ∈ (fold_left (candidate pats) ids (seen, l)).2 <->
  p ∈ l \/ exists id, id ∈ ids /\ id ∉ seen /\ dget id pats = Some p.
Proof.
  induction ids as [|i ids IH]; intros seen l p; cbn [fold_left].
  - cbn. split; [by left | intros [?|(id & ?%elem_of_nil & _)]; done].
  - cbn [candidate]. destruct (bool_decide (i ∈ seen)) eqn:E.
    + apply bool_decide_eq_true in E. rewrite IH. setoid_rewrite elem_of_cons. naive_solver.
    + apply bool_decide_eq_false in E. rewrite IH. setoid_rewrite elem_of_cons. destruct (dget i pats) as [q|] eqn:Eq.
      * rewrite elem_snoc. split; [naive_solver|]. intros [?|(id & [->|?] & Hn & Hg)]; [naive_solver | naive_solver |].
        destruct (decide (id = i)) as [->|]; [naive_solver|]. right. exists id. naive_solver.
      * split; [naive_solver|]. intros [?|(id & [->|?] & Hn & Hg)]; [naive_solver | congruence |].
        destruct (decide (id = i)) as [->|]; [congruence|]. right. exists id. naive_solver.
Qed.
Lemma av_candidates_spec av data p :
  p ∈ candidates av data <-> p ∈ _pat_noanchor av \/ exists id, id ∈ reported av data /\ dget id (_pat_by_anchor av) = Some p.
Proof.
  unfold candidates, reported. destruct (_ac av) as [a|].
  - rewrite candidate_fold. setoid_rewrite elem_of_nil. naive_solver.
  - split; [by left|]. intros [?|(id & ?%elem_of_nil & _)]; done.
Qed.

(** ** The reference *)

Section Exact.
Context (md5 sha1 sha256 : bytes -> pystr) (lower : pystr -> pystr).
Notation scan := (scan_file md5 sha1 sha256 lower).

(** A row matches a file, each row on its own. *)
Definition matches_sig (s : sig) (data : bytes) : Prop :=
  match s_body s with
  | SHash ht hv size => (ht, hv) ∈ digests md5 sha1 sha256 data /\ size_ok s data = true
  | SPattern hex off =>
      _target_ok (s_target s) (detect_file_type data) = true /\
      exists rx j, compile_hexsig hex = Ok (Some rx) /\ _offset_match rx data off = Ok (Some j)
  | SYara strs cond =>
      _target_ok (s_target s) (detect_file_type data) = true /\
      exists l, mapM_res (fun kv => yara_string kv.2) strs = Ok l /\
        _cond_met lower cond (hits {| y_sig := s; y_strings := l; y_condition := cond |} data) (Z.of_nat (length l)) = Ok true
  end.

(** Rows the scanner can evaluate: the offset and the count are numbers where they look like one, the signature is
    aligned. *)
Definition offset_valid (off : pystr) : bool :=
  let o := strip (match off with [] => lit "*" | _ => off end) in
  negb (isdigit (lstrip_dash o)) || (if py_int o then true else false).
Definition cond_valid (cond : pystr) : bool :=
  match n_of_them (lower (strip (match cond with [] => lit "all" | _ => cond end))) with
  | Some n => if int_of_digits n then true else false
  | None => true
  end.
Definition valid_row (s : sig) : bool :=
  match s_body s with
  | SHash _ _ _ => true
  | SPattern hex off => aligned hex && offset_valid off
  | SYara _ cond => cond_valid cond
  end.

Lemma offset_match_total rx data off : offset_valid off = true -> exists r, _offset_match rx data off = Ok r.
Proof.
  unfold offset_valid, _offset_match. set (o := strip _). intros H. destruct (_ || _ || _ || _); [by eexists|].
  destruct (starts _ o); [destruct (py_int (drop 4 o)); by eexists|]. destruct (isdigit _); [|by eexists].
  cbn [negb orb] in H. unfold int10. destruct (py_int o); [by eexists | done].
Qed.
Lemma offset_match_found rx data off j : _offset_match rx data off = Ok (Some j) ->
  matches rx (drop (Z.to_nat j) data) = true /\ 0 <= j <= blen data.
Proof.
  unfold _offset_match. set (o := strip _). destruct (_ || _ || _ || _); [intros [= ?]; by eapply search_matches|].
  destruct (starts _ o); [destruct (py_int (drop 4 o)); intros [= ?]; by eapply search_matches|].
  destruct (isdigit _); [|intros [= ?]; by eapply search_matches].
  unfold int10. destruct (py_int o); [|done]. intros [= ?]. by eapply match_at_matches.
Qed.
Lemma cond_met_total cond h t : cond_valid cond = true -> exists b, _cond_met lower cond h t = Ok b.
Proof.
  unfold cond_valid, _cond_met. set (c := lower _). intros H. destruct (bool_decide _); [by eexists|]. destruct (bool_decide _); [by eexists|].
  destruct (n_of_them c) as [n|]; [|by eexists]. destruct (int_of_digits n); [by eexists | done].
Qed.

Lemma scan_hashes_spec index ds data :
  match scan_hashes index ds data with
  | Some s => exists d, d ∈ ds /\ dget d index = Some s /\ size_ok s data = true
  | None => forall d s, d ∈ ds -> dget d index = Some s -> size_ok s data = false
  end.
Proof.
  induction ds as [|d ds IH]; cbn [scan_hashes]; [intros d s ?%elem_of_nil; done|].
  assert (match scan_hashes index ds data with
          | Some s => exists d0, d0 ∈ d :: ds /\ dget d0 index = Some s /\ size_ok s data = true
          | None => (forall s, dget d index = Some s -> size_ok s data = false) ->
                    forall d0 s, d0 ∈ d :: ds -> dget d0 index = Some s -> size_ok s data = false
          end) as H.
  { destruct (scan_hashes index ds data); [destruct IH as (d0 & ? & ?); exists d0; split; [by right | done]|].
    intros Hd d0 s [->|?]%elem_of_cons; [by apply Hd | by apply IH]. }
  destruct (dget d index) as [s|] eqn:E.
  - destruct (size_ok s data) eqn:Es; [exists d; split; [by left | done]|]. destruct (scan_hashes _ _ _); [done|]. apply H. by intros s' [= <-].
  - destruct (scan_hashes _ _ _); [done|]. by apply H.
Qed.
Lemma scan_patterns_spec ftype data l : (forall p, p ∈ l -> offset_valid (p_offset p) = true) ->
  exists r, scan_patterns ftype data l = Ok r /\
  match r with
  | Some (s, j) => exists p, p ∈ l /\ s = p_sig p /\ _target_ok (s_target s) ftype = true /\ _offset_match (p_rx p) data (p_offset p) = Ok (Some j)
  | None => forall p, p ∈ l -> _target_ok (s_target (p_sig p)) ftype = true -> _offset_match (p_rx p) data (p_offset p) = Ok None
  end.
Proof.
  induction l as [|p l IH]; intros Hv; cbn [scan_patterns]; [exists None; split; [done | intros p ?%elem_of_nil; done]|].
  destruct IH as (r & Hr & IH); [intros q Hq; apply Hv; by right|].
  destruct (_target_ok (s_target (p_sig p)) ftype) eqn:Et; cbn [negb].
  - destruct (offset_match_total (p_rx p) data (p_offset p)) as [m Hm]; [apply Hv; by left|]. rewrite Hm. cbn [mbind result_bind].
    destruct m as [j|]; [exists (Some (p_sig p, j)); split; [done|]; exists p; split; [by left | done]|].
    exists r. split; [done|]. destruct r as [[s j]|]; [destruct IH as (q & ? & ?); exists q; split; [by right | done]|].
    intros q [->|?]%elem_of_cons ?; [done | by apply IH].
  - exists r. split; [done|]. destruct r as [[s j]|]; [destruct IH as (q & ? & ?); exists q; split; [by right | done]|].
    intros q [->|?]%elem_of_cons ?; [congruence | by apply IH].
Qed.
Lemma scan_yara_spec ftype data l : (forall y, y ∈ l -> cond_valid (y_condition y) = true) ->
  exists r, scan_yara lower ftype data l = Ok r /\
  match r with
  | Some s => exists y, y ∈ l /\ s = y_sig y /\ _target_ok (s_target s) ftype = true /\
      _cond_met lower (y_condition y) (hits y data) (Z.of_nat (length (y_strings y))) = Ok true
  | None => forall y, y ∈ l -> _target_ok (s_target (y_sig y)) ftype = true ->
      _cond_met lower (y_condition y) (hits y data) (Z.of_nat (length (y_strings y))) = Ok false
  end.
Proof.
  induction l as [|p l IH]; intros Hv; cbn [scan_yara]; [exists None; split; [done | intros p ?%elem_of_nil; done]|].
  destruct IH as (r & Hr & IH); [intros q Hq; apply Hv; by right|].
  destruct (_target_ok (s_target (y_sig p)) ftype) eqn:Et; cbn [negb].
  - destruct (cond_met_total (y_condition p) (hits p data) (Z.of_nat (length (y_strings p)))) as [m Hm]; [apply Hv; by left|].
    rewrite Hm. cbn [mbind result_bind].
    destruct m; [exists (Some (y_sig p)); split; [done|]; exists p; split; [by left | done]|].
    exists r. split; [done|]. destruct r as [s|]; [destruct IH as (q & ? & ?); exists q; split; [by right | done]|].
    intros q [->|?]%elem_of_cons ?; [done | by apply IH].
  - exists r. split; [done|]. destruct r as [s|]; [destruct IH as (q & ? & ?); exists q; split; [by right | done]|].
    intros q [->|?]%elem_of_cons ?; [congruence | by apply IH].
Qed.

Lemma compile_defined sigs : forall st st', foldM_res compile_sig st sigs = Ok st' ->
  forall s hex off rx, s ∈ sigs -> s_body s = SPattern hex off -> compile_hexsig hex = Ok (Some rx) -> exists an, literal_anchor hex = Ok an.
Proof.
  induction sigs as [|x sigs IH]; intros st st' H s hex off rx Hin Hb Hc; [by apply elem_of_nil in Hin|].
  cbn [foldM_res] in H. apply bind_ok_inv in H as (st1 & H1 & H).
  apply elem_of_cons in Hin as [->|Hin]; [|by eapply IH]. destruct st as [av a]. unfold compile_sig in H1. rewrite Hb in H1.
  unfold add_pattern in H1. rewrite Hc in H1. cbn [mbind result_bind] in H1. apply bind_ok_inv in H1 as (an & Han & _). by exists an.
Qed.

(** Every row that matches through its anchor is among the candidates. *)
Lemma matching_candidate sigs av s data : distinct sigs -> compile sigs = Ok av -> s ∈ sigs ->
  forall hex off rx j, s_body s = SPattern hex off -> aligned hex = true -> compile_hexsig hex = Ok (Some rx) ->
  _offset_match rx data off = Ok (Some j) -> {| p_sig := s; p_rx := rx; p_offset := off |} ∈ candidates av data.
Proof.
  intros Hd Hc Hs hex off rx j Hb Ha Hrx Hm. destruct (compile_built sigs av Hd Hc) as (_ & B2 & B3 & _ & B5).
  pose proof Hc as Hc'. unfold compile in Hc'. apply bind_ok_inv in Hc' as (st & Hf & _).
  destruct (compile_defined _ _ _ Hf s hex off rx Hs Hb Hrx) as [an Han].
  assert (entry s {| p_sig := s; p_rx := rx; p_offset := off |} an) as He by (by exists hex, off, rx).
  apply av_candidates_spec. destruct an as [w|]; [right | left; apply B3; by exists s].
  exists (s_id s). split; [|apply B2; by exists s, w]. eapply B5; [done | exact He | | ].
  - apply literal_anchor_inv in Han as [_ Hl]. by destruct w; [cbn in Hl; lia|].
  - apply offset_match_found in Hm as [Hm _]. destruct (anchor_in_match hex rx w _ Hrx Ha Han Hm) as (x & y & Hxy).
    exists (take (Z.to_nat j) data ++ x), y. by rewrite <- app_assoc, <- Hxy, take_drop.
Qed.

Definition names (res : AvResult) (s : sig) : Prop :=
  r_sig_id res = Some (s_id s) /\ virus_name res = s_name s /\ r_action res = s_action s /\ r_verdict res = s_verdict s.

(** Rows for one digest agree on the file size they ask for; the table does not enforce this. *)
Definition sizes_agree (sigs : list sig) : Prop := forall s s' ht hv n n',
  s ∈ sigs -> s' ∈ sigs -> s_body s = SHash ht hv n -> s_body s' = SHash ht hv n' -> n = n'.

(** C21. The scanner loses nothing.  Take a database it could compile, whose row ids differ (they are the table's primary
    key), whose hash rows for one digest do not ask for different file sizes, and whose pattern rows are valid: every hex
    signature is read in step by the prefilter (no half-byte wildcard that puts the pairs one character out of step), its
    offset is one the matcher reads, and every rule has a valid condition.  Then a scan of any non-empty file ends with a
    result; it reports the file exactly when some row matches it on its own, pattern rows without any prefilter included,
    and what it reports is the name, id, verdict and action of a row that does match. *)
Theorem scan_exact sigs av data :
  compile sigs = Ok av -> distinct sigs -> sizes_agree sigs -> (forall s, s ∈ sigs -> valid_row s = true) -> data <> [] ->
  exists res, scan av data = Ok res /\
    (infected res = true <-> exists s, s ∈ sigs /\ matches_sig s data) /\
    (infected res = true -> exists s, s ∈ sigs /\ matches_sig s data /\ names res s).
Proof.
  intros Hc Hd Ha Hv Hne. destruct (compile_built sigs av Hd Hc) as ([B1 B1'] & B2 & B3 & B4 & _).
  assert (forall res s method j, s ∈ sigs -> matches_sig s data -> scan av data = Ok (_hit res s method j) ->
    exists res, scan av data = Ok res /\ (infected res = true <-> exists s, s ∈ sigs /\ matches_sig s data) /\
      (infected res = true -> exists s, s ∈ sigs /\ matches_sig s data /\ names res s)) as Hfound.
  { intros res s method j Hs Hm He. eexists. split; [exact He|]. split; [split; [intros _; by exists s | done]|]. intros _. by exists s. }
  assert (forall p, p ∈ candidates av data -> exists s w, s ∈ sigs /\ entry s p w) as Hcand.
  { intros p [H|(id & _ & H)]%av_candidates_spec; [apply B3 in H as (s & ? & ?); by exists s, None | apply B2 in H as (s & w & ? & _ & ?); by exists s, (Some w)]. }
  destruct (scan_patterns_spec (detect_file_type data) data (candidates av data)) as (pr & Hpr & Hps).
  { intros p Hp. destruct (Hcand p Hp) as (s & w & Hs & hex & off & rx & Hb & _ & _ & ->). specialize (Hv s Hs).
    unfold valid_row in Hv. rewrite Hb in Hv. by apply andb_true_iff in Hv as [_ ?]. }
  destruct (scan_yara_spec (detect_file_type data) data (_yara av)) as (yr & Hyr & Hys).
  { intros y Hy. apply B4 in Hy as (s & Hs & strs & cond & l & Hb & _ & ->). specialize (Hv s Hs). unfold valid_row in Hv. by rewrite Hb in Hv. }
  pose proof (scan_hashes_spec (_hash_index av) (digests md5 sha1 sha256 data) data) as Hhs.
  unfold scan_file in *. destruct data as [|b t]; [done|]. set (data := b :: t) in *.
  destruct (scan_hashes _ _ data) as [s|].
  { destruct Hhs as (d & Hin & Hg & Hsz). apply B1 in Hg as [Hs Hk]. eapply Hfound; [exact Hs | | done].
    unfold matches_sig, hash_key in *. destruct (s_body s); try done. injection Hk as ->. done. }
  rewrite Hpr in *. cbn [mbind result_bind] in *. destruct pr as [[s j]|].
  { destruct Hps as (p & Hp & -> & Ht & Hm). destruct (Hcand p Hp) as (s & w & Hs & hex & off & rx & Hb & Hx & _ & ->).
    eapply Hfound; [exact Hs | | done]. unfold matches_sig. rewrite Hb. split; [done|]. by exists rx, j. }
  rewrite Hyr in *. cbn [mbind result_bind] in *. destruct yr as [s|].
  { destruct Hys as (y & Hy & -> & Ht & Hm). apply B4 in Hy as (s & Hs & strs & cond & l & Hb & Hl & ->).
    eapply Hfound; [exact Hs | | done]. unfold matches_sig. rewrite Hb. split; [done|]. by exists l. }
  eexists. split; [done|]. cbn [infected]. split; [|done]. split; [done|]. intros (s & Hs & Hm). exfalso.
  specialize (Hv s Hs). unfold matches_sig, valid_row in *. destruct (s_body s) as [ht hv size | hex off | strs cond] eqn:Hb.
  - destruct Hm as [Hin Hsz]. destruct (B1' s (ht, hv) Hs) as (s' & Hg); [unfold hash_key; by rewrite Hb|].
    pose proof (Hhs (ht, hv) s' Hin Hg) as Hno. destruct (B1 _ _ Hg) as [Hs' Hk']. unfold hash_key in Hk'.
    destruct (s_body s') as [ht' hv' n'| |] eqn:Hb'; try done. injection Hk' as -> ->. pose proof (Ha s s' ht hv size n' Hs Hs' Hb Hb') as <-.
    unfold size_ok in *. rewrite Hb in Hsz. rewrite Hb' in Hno. congruence.
  - destruct Hm as (Ht & rx & j & Hx & Hm). apply andb_true_iff in Hv as [Hal _].
    pose proof (matching_candidate sigs av s data Hd Hc Hs hex off rx j Hb Hal Hx Hm) as Hp.
    specialize (Hps _ Hp Ht). cbn [p_rx p_offset] in Hps. congruence.
  - destruct Hm as (Ht & l & Hl & Hm). specialize (Hys {| y_sig := s; y_strings := l; y_condition := cond |}).
    cbn [y_sig y_strings y_condition] in Hys. rewrite Hys in Hm; [done | | done]. apply B4. exists s. split; [done|]. by exists strs, cond, l.
Qed.
End Exact.

(** ** Signatures out of step *)

Definition nibble_row : sig :=
  {| s_id := 1; s_name := lit "Nibble"; s_family := None; s_target := lit "any"; s_severity := lit "high"; s_verdict := lit "malware";
     s_action := 2; s_body := SPattern (lit "?45a6b7c8d9e") (lit "*") |}.
Definition nibble_file : bytes := [20; 90; 107; 124; 141; 158].
Definition nibble_rx : list item :=
  match compile_hexsig (lit "?45a6b7c8d9e") with Ok (Some rx) => rx | _ => [] end.

(** The prefilter loses signatures that start a byte with a wildcard.  [?45a6b7c8d9e] stands for six bytes, the first
    with low half 4; the anchor reads the pairs one character late (45 a6 b7 c8 d9), text that no matching file
    needs to contain, so a scanner that holds this one row calls a matching file clean. *)
Theorem nibble_signature_missed md5 sha1 sha256 lower :
  exists av res, compile [nibble_row] = Ok av /\ matches_sig md5 sha1 sha256 lower nibble_row nibble_file /\
    scan_file md5 sha1 sha256 lower av nibble_file = Ok res /\ infected res = false.
Proof.
  destruct (compile [nibble_row]) as [av|] eqn:E; [|vm_compute in E; discriminate].
  assert (_hash_index av = [] /\ _yara av = [] /\ candidates av nibble_file = []) as (H1 & H2 & H3).
  { vm_compute in E. injection E as <-. split_and!; reflexivity. }
  exists av. eexists. split; [done|]. split.
  - split; [reflexivity|]. exists nibble_rx, 0. split; vm_compute; reflexivity.
  - unfold scan_file, nibble_file. fold nibble_file. rewrite H1, H2, H3. cbn [scan_hashes digests dget scan_patterns scan_yara mbind result_bind].
    split; reflexivity.
Qed.

(** ** Hash rows that ask for different sizes *)

Definition hash_row (i : Z) (digest : pystr) (size : Z) : sig :=
  {| s_id := i; s_name := lit "Known"; s_family := None; s_target := lit "any"; s_severity := lit "high"; s_verdict := lit "malware";
     s_action := 2; s_body := SHash (lit "sha256") digest size |}.

(** Two hash rows for one digest with different sizes: the later one replaces the earlier in the index, so a file that the
    earlier row matches is called clean.  Nothing in the table or the import keeps such rows out. *)
Theorem size_conflict_missed md5 sha1 sha256 lower data : data <> [] ->
  let first := hash_row 1 (sha256 data) (blen data) in
  exists av res, compile [first; hash_row 2 (sha256 data) (blen data + 1)] = Ok av /\
    matches_sig md5 sha1 sha256 lower first data /\
    scan_file md5 sha1 sha256 lower av data = Ok res /\ infected res = false.
Proof.
  intros Hne first. destruct (compile [first; hash_row 2 (sha256 data) (blen data + 1)]) as [av|] eqn:E; [|discriminate E].
  assert (_hash_index av = dset (lit "sha256", sha256 data) (hash_row 2 (sha256 data) (blen data + 1)) (dset (lit "sha256", sha256 data) first [])
    /\ _yara av = [] /\ candidates av data = []) as (H1 & H2 & H3) by (by injection E as <-).
  exists av. eexists. split; [done|]. split.
  - split; [by right; right; left|]. unfold size_ok. cbn. apply orb_true_iff. right. apply Z.eqb_refl.
  - pose proof (scan_hashes_spec (_hash_index av) (digests md5 sha1 sha256 data) data) as Hsp.
    unfold scan_file. destruct data as [|b t]; [done|]. set (data := b :: t) in *. rewrite H2, H3.
    destruct (scan_hashes _ _ data) as [s|]; [exfalso | split; reflexivity].
    destruct Hsp as (d & Hd & Hg & Hs). rewrite H1, dget_dset in Hg. case_decide; [injection Hg as <-|].
    + unfold size_ok in Hs. cbn [hash_row s_body] in Hs. unfold blen in Hs. clearbody data. apply orb_true_iff in Hs as [Hs|Hs]; apply Z.eqb_eq in Hs; lia.
    + rewrite dget_dset in Hg. case_decide; done.
Qed.

(** ** Witness *)

Definition demo_hex (b : bytes) : pystr := hex (take 4 b).
Definition demo_sigs : list sig :=
  [ {| s_id := 1; s_name := lit "Trojan"; s_family := Some (lit "T"); s_target := lit "pe"; s_severity := lit "high"; s_verdict := lit "malware";
       s_action := 2; s_body := SPattern (lit "4d5a??00{1-3}1122334455") (lit "0") |};
    {| s_id := 2; s_name := lit "Dropper"; s_family := None; s_target := lit "any"; s_severity := lit "low"; s_verdict := lit "malware";
       s_action := 0; s_body := SYara [(lit "$a", lit "evil"); (lit "$b", lit "hex:00ff")] (lit "any") |} ].
Definition demo_file : bytes := lit "MZ" ++ [153; 0; 7; 7; 17; 34; 51; 68; 85].

Lemma scan_exact_witness : exists av res, compile demo_sigs = Ok av /\
  scan_file demo_hex demo_hex demo_hex id av demo_file = Ok res /\ (infected res = true -> exists s, s ∈ demo_sigs /\ names res s).
Proof.
  destruct (compile demo_sigs) as [av|] eqn:E; [|vm_compute in E; discriminate].
  destruct (scan_exact demo_hex demo_hex demo_hex id demo_sigs av demo_file E) as (res & Hs & _ & Hn).
  - apply (bool_decide_unpack _); vm_compute; reflexivity.
  - intros s s' ht hv n n' Hs Hs' Hb. apply list_elem_of_In in Hs. destruct Hs as [<-|[<-|[]]]; discriminate Hb.
  - intros s Hs. apply list_elem_of_In in Hs. destruct Hs as [<-|[<-|[]]]; vm_compute; reflexivity.
  - discriminate.
  - exists av, res. split; [reflexivity|]. split; [exact Hs|]. intros H. destruct (Hn H) as (s & Hin & _ & Hx). exists s. split; [exact Hin | exact Hx].
Defined.
