(* ===== verification/SigDb.v ===== *)
(** * The signature database

    [ffn_sigdb.py]: the table of signatures with its version log as a record, one operation per method, each one
    transaction.  [import_clamav] reads hash and body signatures line by line and skips what it cannot add;
    [validate_hexsig] decides which body signatures enter.  The clock's texts are left out; [str.lower] is a function
    given as a parameter.

    Main results: imports append exactly the rows of the accepted lines under fresh ids and bump the version once;
    an imported hash is found by the scanner built from the table; a row the table accepts can stop the scanner from
    being built at all. *)

From S2P Require Import Prelude PyStr PyDict PyIp PyXml PyIp6 PolicyObjects NatPolicy DbCompiler HexSig AntiVirus.

(** ** State *)

Record row := { r_sig : sig; r_enabled : bool; r_source : pystr; r_version : Z }.
Record sigdb := {
  av_signatures : list row; next_id : Z; db_version : Z; sig_updates : list (Z * Z * pystr) }.
Definition new_db : sigdb := {| av_signatures := []; next_id := 1; db_version := 0; sig_updates := [] |}.

Definition SEVERITY_ACTION : list (pystr * Z) :=
  [(lit "info", 0); (lit "low", 0); (lit "medium", 1); (lit "high", 2); (lit "critical", 2)].
Definition severity_action (s : pystr) : Z := default 2 (dget s SEVERITY_ACTION).
Definition CLAMAV_TARGET : list (Z * pystr) :=
  [(0, lit "any"); (1, lit "pe"); (2, lit "ole"); (3, lit "html"); (4, lit "mail"); (5, lit "graphics"); (6, lit "elf");
   (7, lit "ascii"); (9, lit "macho")].

(** ** Which body signatures enter *)

Definition alt_char (c : Z) : bool := is_hex c || (c =? 124) || (c =? 63).
(** [re.sub(r'\([0-9a-fA-F|?]+\)', '', s)]. *)
Fixpoint sub_alts (fuel : nat) (s : pystr) : pystr :=
  match fuel, s with
  | S k, c :: t =>
      if c =? 40 then
        match span alt_char t with
        | (_ :: _, 41 :: r) => sub_alts k r
        | _ => c :: sub_alts k t
        end
      else c :: sub_alts k t
  | _, _ => s
  end.
(** [re.sub(r'\{[0-9]*-?[0-9]*\}', '', s)]. *)
Definition gap_end (t : pystr) : option pystr :=
  let '(_, r) := span is_digit t in
  let r := match r with 45 :: r' => r' | _ => r end in
  match span is_digit r with (_, 125 :: r') => Some r' | _ => None end.
Fixpoint sub_gaps (fuel : nat) (s : pystr) : pystr :=
  match fuel, s with
  | S k, c :: t =>
      if c =? 123 then match gap_end t with Some r => sub_gaps k r | None => c :: sub_gaps k t end
      else c :: sub_gaps k t
  | _, _ => s
  end.
Definition validate_hexsig (hexsig : pystr) : bool :=
  match hexsig with
  | [] => false
  | _ =>
      let core := sub_alts (length hexsig) hexsig in
      let core := sub_gaps (length core) core in
      let core := List.filter (fun c => negb (c =? 42) && negb (c =? 63)) core in
      match core with [] => false | _ => forallb is_hex core end
  end.

(** ** Adding rows *)

Definition _insert (name target severity verdict source : pystr) (family : option pystr) (body : sig_body) (db : sigdb) : Z * sigdb :=
  (next_id db,
   {| av_signatures := av_signatures db ++
        [{| r_sig := {| s_id := next_id db; s_name := name; s_family := family; s_target := target; s_severity := severity;
                        s_verdict := verdict; s_action := severity_action severity; s_body := body |};
            r_enabled := true; r_source := source; r_version := db_version db |}];
      next_id := next_id db + 1; db_version := db_version db; sig_updates := sig_updates db |}).
Definition apply_update (added : Z) (source : pystr) (db : sigdb) : sigdb :=
  {| av_signatures := av_signatures db; next_id := next_id db; db_version := db_version db + 1;
     sig_updates := sig_updates db ++ [(db_version db + 1, added, source)] |}.

Section Lower.
Context (lower : pystr -> pystr).

Definition add_hash (name hash_value hash_type : pystr) (size : Z) (family : option pystr) (severity verdict target source : pystr)
  (db : sigdb) : result hex_exn (Z * sigdb) :=
  let hv := strip (lower hash_value) in
  let ht := if bool_decide (hash_type = lit "auto") then
              if (length hv =? 32)%nat then lit "md5" else if (length hv =? 40)%nat then lit "sha1" else lit "sha256"
            else hash_type in
  if forallb (fun c => between 48 c 57 || between 97 c 102) hv
  then Ok (_insert name target severity verdict source family (SHash ht hv size) db)
  else Err HexValue.
Definition add_pattern (name hex_pattern target offset : pystr) (family : option pystr) (severity verdict source : pystr)
  (db : sigdb) : result hex_exn (Z * sigdb) :=
  let hp := unspaced hex_pattern in
  if validate_hexsig hp then Ok (_insert name target severity verdict source family (SPattern hp offset) db) else Err HexValue.
Definition add_yara (name : pystr) (strings : list (pystr * pystr)) (condition target : pystr) (family : option pystr)
  (severity verdict source : pystr) (db : sigdb) : Z * sigdb :=
  _insert name target severity verdict source family (SYara strings condition) db.

(** ** The ClamAV import *)

Definition _guess_clamav (line : pystr) : pystr :=
  let h := default line (fst <$> cut 58 line) in
  if ((length h =? 32) || (length h =? 40) || (length h =? 64))%nat && forallb is_hex h
  then if (length h =? 32)%nat then lit "hdb" else lit "hsb"
  else lit "ndb".
(** [int(s) if s.isdigit() else 0]. *)
Definition int_or_zero (s : pystr) : result hex_exn Z := if isdigit s then int10 s else Ok 0.
(** One line: [None] when it is passed over without being counted. *)
Definition import_line (kind source line : pystr) (db : sigdb) : result hex_exn (option sigdb) :=
  let k := if bool_decide (kind = lit "auto") then _guess_clamav line else kind in
  let parts := split_on 58 line in
  if bool_decide (k = lit "hdb") || bool_decide (k = lit "hsb") then
    match parts with
    | hv :: size :: name :: _ =>
        let ht := if (length hv =? 32)%nat then lit "md5" else if (length hv =? 40)%nat then lit "sha1" else lit "sha256" in
        n ← int_or_zero size;
        r ← add_hash name hv ht n None (lit "high") (lit "malware") (lit "any") source db;
        Ok (Some r.2)
    | _ => Ok None
    end
  else if bool_decide (k = lit "ndb") then
    match parts with
    | name :: tgt :: off :: hexsig :: _ =>
        t ← int_or_zero tgt;
        r ← add_pattern name hexsig (default (lit "any") (dget t CLAMAV_TARGET)) off None (lit "high") (lit "malware") source db;
        Ok (Some r.2)
    | _ => Ok None
    end
  else Ok None.
Definition import_raw (kind source : pystr) (st : sigdb * Z) (raw : pystr) : sigdb * Z :=
  let '(db, n) := st in
  let line := strip raw in
  match line with
  | [] => st
  | c :: _ =>
      if c =? 35 then st
      else match import_line kind source line db with
           | Ok (Some db') => (db', n + 1)
           | _ => st
           end
  end.
Definition import_clamav (kind source : pystr) (lines : list pystr) (db : sigdb) : sigdb * Z :=
  let '(db, n) := fold_left (import_raw kind source) lines (db, 0) in
  (if n =? 0 then db else apply_update n (lit "clamav:" ++ kind) db, n).
End Lower.

(** ** Queries *)

Definition body_type (b : sig_body) : pystr :=
  match b with SHash _ _ _ => lit "hash" | SPattern _ _ => lit "pattern" | SYara _ _ => lit "yara" end.
Definition iter_signatures (sig_type target : option pystr) (enabled : bool) (db : sigdb) : list sig :=
  map r_sig (List.filter (fun r =>
      (negb enabled || r_enabled r)
      && match sig_type with Some (c :: t) => bool_decide (body_type (s_body (r_sig r)) = c :: t) | _ => true end
      && match target with
         | Some (c :: t) => bool_decide (c :: t = lit "any") || bool_decide (s_target (r_sig r) ∈ [lit "any"; c :: t])
         | _ => true
         end) (av_signatures db)).
Definition get (id : Z) (db : sigdb) : option sig := r_sig <$> List.find (fun r => s_id (r_sig r) =? id) (av_signatures db).
Definition lookup_hash (lower : pystr -> pystr) (hash_value : pystr) (db : sigdb) : option sig :=
  r_sig <$> List.find (fun r => match s_body (r_sig r) with
                                | SHash _ hv _ => bool_decide (hv = strip (lower hash_value)) && r_enabled r
                                | _ => false end) (av_signatures db).
Definition count (sig_type : option pystr) (db : sigdb) : Z :=
  Z.of_nat (length (match sig_type with
                    | Some (c :: t) => List.filter (fun r => bool_decide (body_type (s_body (r_sig r)) = c :: t)) (av_signatures db)
                    | _ => av_signatures db end)).
Definition export_hashes (db : sigdb) : list (pystr * Z * pystr) :=
  omap (fun r => match s_body (r_sig r) with
                 | SHash ht hv size => if bool_decide (ht = lit "sha256") && r_enabled r then Some (hv, size, s_name (r_sig r)) else None
                 | _ => None end) (av_signatures db).

(** ** The table *)

Record db_ok (db : sigdb) : Prop := {
  k_ids : NoDup ((fun r => s_id (r_sig r)) <$> av_signatures db);
  k_next : forall r, r ∈ av_signatures db -> s_id (r_sig r) < next_id db;
  k_log : forall v n s, (v, n, s) ∈ sig_updates db -> v <= db_version db }.

(** What a row that came through an import looks like. *)
Definition imported (r : row) : Prop :=
  r_enabled r = true /\
  match s_body (r_sig r) with
  | SHash _ hv _ => Forall (fun c => 48 <= c <= 57 \/ 97 <= c <= 102) hv
  | SPattern hex _ => validate_hexsig hex = true
  | SYara _ _ => False
  end.
(** [new] rows were appended under the next free ids. *)
Definition appended (db db' : sigdb) (new : list row) : Prop :=
  av_signatures db' = av_signatures db ++ new /\ next_id db' = next_id db + Z.of_nat (length new) /\
  (forall i r, new !! i = Some r -> s_id (r_sig r) = next_id db + Z.of_nat i /\ r_version r = db_version db) /\ Forall imported new /\
  db_version db' = db_version db /\ sig_updates db' = sig_updates db.

Lemma appended_nil db : appended db db [].
Proof. unfold appended. rewrite app_nil_r. split_and!; cbn; try done; lia. Qed.
Lemma appended_one db name target severity verdict source family body :
  imported {| r_sig := {| s_id := next_id db; s_name := name; s_family := family; s_target := target; s_severity := severity;
                          s_verdict := verdict; s_action := severity_action severity; s_body := body |};
              r_enabled := true; r_source := source; r_version := db_version db |} ->
  exists r, appended db (_insert name target severity verdict source family body db).2 [r].
Proof.
  intros H. eexists. split_and!; [reflexivity | cbn; lia | | by constructor | done | done].
  intros [|i] r; cbn; [intros [= <-]; split; [cbn; lia | done] | done].
Qed.
Lemma appended_trans db1 db2 db3 l1 l2 : appended db1 db2 l1 -> appended db2 db3 l2 -> appended db1 db3 (l1 ++ l2).
Proof.
  intros (A1 & A2 & A3 & A4 & A5 & A6) (B1 & B2 & B3 & B4 & B5 & B6). unfold appended.
  rewrite B1, A1, B2, A2, B5, A5, B6, A6, length_app, app_assoc. split_and!; try done; [lia | | by apply Forall_app].
  intros i r. destruct (decide (i < length l1)%nat) as [Hi|Hi].
  - rewrite lookup_app_l by done. apply A3.
  - rewrite lookup_app_r by lia. intros [H1 H2]%B3. rewrite H1, H2, A2, A5. split; [lia | done].
Qed.

Section Importing.
Context (lower : pystr -> pystr).

Lemma add_hash_appends name hv ht size fam sev ver tgt src db r : add_hash lower name hv ht size fam sev ver tgt src db = Ok r ->
  exists x, appended db r.2 [x].
Proof.
  unfold add_hash. destruct (forallb _ _) eqn:E; [|done]. intros [= <-]. apply appended_one. split; [done|]. cbn.
  apply Forall_forall. intros c Hc. rewrite List.forallb_forall in E. specialize (E c). rewrite <- list_elem_of_In in E. specialize (E Hc).
  cbv beta in E. unfold between in E. bool_lia.
Qed.
Lemma add_pattern_appends name hex tgt off fam sev ver src db r : add_pattern name hex tgt off fam sev ver src db = Ok r ->
  exists x, appended db r.2 [x].
Proof. unfold add_pattern. destruct (validate_hexsig _) eqn:E; [|done]. intros [= <-]. by apply appended_one. Qed.

Lemma import_line_appends kind source line db db' : import_line lower kind source line db = Ok (Some db') -> exists x, appended db db' [x].
Proof.
  unfold import_line. destruct (_ || _).
  - destruct (split_on 58 line) as [|hv [|size [|name l]]]; try done. intros H. inv_res. by eapply add_hash_appends.
  - destruct (bool_decide _); [|done]. destruct (split_on 58 line) as [|name [|tgt [|off [|hex l]]]]; try done. intros H. inv_res. by eapply add_pattern_appends.
Qed.
Lemma import_raw_appends kind source db n raw :
  exists new, appended db (import_raw lower kind source (db, n) raw).1 new /\ (import_raw lower kind source (db, n) raw).2 = n + Z.of_nat (length new).
Proof.
  assert (exists new, appended db db new /\ n = n + Z.of_nat (length new)) as H0 by (exists []; split; [apply appended_nil | cbn; lia]).
  unfold import_raw. destruct (strip raw) as [|c l]; [done|]. destruct (c =? 35); [done|].
  destruct (import_line lower kind source (c :: l) db) as [[db'|]|] eqn:E; [|done..].
  apply import_line_appends in E as [x Hx]. exists [x]. split; [done | cbn; lia].
Qed.
Lemma import_fold kind source lines : forall db n,
  exists new, appended db (fold_left (import_raw lower kind source) lines (db, n)).1 new /\
    (fold_left (import_raw lower kind source) lines (db, n)).2 = n + Z.of_nat (length new).
Proof.
  induction lines as [|raw lines IH]; intros db n; cbn [fold_left]; [exists []; split; [apply appended_nil | cbn; lia]|].
  destruct (import_raw_appends kind source db n raw) as (l1 & H1 & H2). destruct (import_raw lower kind source (db, n) raw) as [db1 n1].
  destruct (IH db1 n1) as (l2 & H3 & H4). exists (l1 ++ l2). cbn [fst snd] in *. split; [by eapply appended_trans|]. rewrite H4, H2, length_app. lia.
Qed.

Lemma appended_ok db db' new : appended db db' new -> db_ok db -> db_ok db'.
Proof.
  intros (A1 & A2 & A3 & _ & A5 & A6) [K1 K2 K3]. split.
  - rewrite A1, fmap_app. apply NoDup_app. split_and!; [done | |].
    + intros x (r & -> & Hr)%list_elem_of_fmap Hx. apply list_elem_of_fmap in Hx as (r' & He & Hr'). apply K2 in Hr.
      apply list_elem_of_lookup in Hr' as [i Hi]. apply A3 in Hi as [Hi _]. lia.
    + apply NoDup_alt. intros i j x. rewrite !list_lookup_fmap. intros Hi Hj.
      destruct (new !! i) as [a|] eqn:Ei, (new !! j) as [b|] eqn:Ej; try done. apply A3 in Ei as [Ei _]. apply A3 in Ej as [Ej _].
      cbn in Hi, Hj. simplify_eq. lia.
  - intros r. rewrite A1, A2, elem_of_app. intros [Hr|Hr]; [apply K2 in Hr; lia|].
    apply list_elem_of_lookup in Hr as [i Hi]. pose proof (lookup_lt_Some _ _ _ Hi). apply A3 in Hi as [Hi _]. lia.
  - rewrite A5, A6. apply K3.
Qed.

(** A ClamAV import adds what it counts.  From a consistent table, importing any lines appends exactly [n] enabled
    rows, [n] being the number returned, with consecutive fresh ids, tagged with the version before the import, each a
    lower-case hash or a body signature that passed validation; nothing else in the table changes, the version and the
    log grow by one entry exactly when something was added, and the table stays consistent. *)
Theorem import_clamav_appends kind source lines db :
  db_ok db ->
  exists new db', import_clamav lower kind source lines db = (db', Z.of_nat (length new)) /\
    av_signatures db' = av_signatures db ++ new /\ Forall imported new /\
    (forall i r, new !! i = Some r -> s_id (r_sig r) = next_id db + Z.of_nat i /\ r_version r = db_version db) /\
    (if decide (new = []) then db_version db' = db_version db /\ sig_updates db' = sig_updates db
     else db_version db' = db_version db + 1 /\
          sig_updates db' = sig_updates db ++ [(db_version db + 1, Z.of_nat (length new), lit "clamav:" ++ kind)]) /\
    db_ok db'.
Proof.
  intros Hok. unfold import_clamav. destruct (import_fold kind source lines db 0) as (new & Ha & Hn).
  destruct (fold_left _ _ _) as [db1 n]. cbn [fst snd] in *. subst n. pose proof (appended_ok _ _ _ Ha Hok) as Hok1.
  destruct Ha as (A1 & A2 & A3 & A4 & A5 & A6). destruct new as [|r new].
  - cbn. exists [], db1. split_and!; try done.
  - rewrite Z.add_0_l. assert (Z.of_nat (length (r :: new)) =? 0 = false) as -> by (apply Z.eqb_neq; cbn [length]; lia).
    exists (r :: new). eexists. split; [reflexivity|]. split_and!; try done; [cbn; by rewrite A5, A6|].
    destruct Hok1 as [K1 K2 K3]. split; [done..|]. cbn. intros v n s [Hin|[= -> _ _]%list_elem_of_singleton]%elem_of_app; [apply K3 in Hin; lia | lia].
Qed.
End Importing.

(** ** From an import to a detection *)

Definition lowers (lower : pystr -> pystr) : Prop := forall s, Forall (fun c => 0 <= c < 128) s -> lower s = map ascii_lower s.

Lemma hex_lowers lower hv : lowers lower -> forallb is_hex hv = true ->
  lower hv = map ascii_lower hv /\ strip (lower hv) = map ascii_lower hv /\
  forallb (fun c => between 48 c 57 || between 97 c 102) (map ascii_lower hv) = true.
Proof.
  intros Hl Hh. rewrite List.forallb_forall in Hh.
  assert (forall c, c ∈ hv -> 48 <= ascii_lower c <= 57 \/ 97 <= ascii_lower c <= 102) as Ha.
  { intros c Hc. apply list_elem_of_In, Hh, is_hex_cases in Hc. unfold ascii_lower, between. case_match; bool_lia. }
  assert (lower hv = map ascii_lower hv) as He.
  { apply Hl, Forall_forall. intros c Hc. apply list_elem_of_In, Hh, is_hex_cases in Hc. lia. }
  assert (forall l, Forall (fun c => is_space c = false) l -> lstrip l = l) as Hs.
  { intros [|c l] H; [done|]. inversion H as [|? ? Hc]; subst. cbn [lstrip]. by rewrite Hc. }
  assert (Forall (fun c => is_space c = false) (map ascii_lower hv)) as Hn.
  { apply Forall_forall. intros x (c & -> & Hc)%list_elem_of_fmap. specialize (Ha c Hc). unfold is_space, between. bool_lia. }
  split_and!; [done | |].
  - rewrite He. unfold strip. rewrite (Hs (map ascii_lower hv) Hn), (Hs _ (List.Forall_rev Hn)). apply rev_involutive.
  - apply List.forallb_forall. intros x Hx. apply in_map_iff in Hx as (c & <- & Hc). rewrite <- list_elem_of_In in Hc. specialize (Ha c Hc). unfold between. bool_lia.
Qed.

Section Detect.
Context (lower : pystr -> pystr) (Hlower : lowers lower).

(** The row a hash line of an automatic import adds. *)
Lemma import_hash_row source raw hv size name n db k :
  strip raw = hv ++ 58 :: size ++ 58 :: name -> length hv = 64%nat -> forallb is_hex hv = true -> Forall (fun c => c <> 58) size ->
  int_or_zero size = Ok n ->
  exists r, r ∈ av_signatures (import_raw lower (lit "auto") source (db, k) raw).1 /\ r_enabled r = true /\
    s_body (r_sig r) = SHash (lit "sha256") (map ascii_lower hv) n.
Proof.
  intros Hr Hlen Hh Hsz Hn. destruct (hex_lowers lower hv Hlower Hh) as (E1 & E2 & E3).
  assert (Forall (fun c => c <> 58) hv) as Hc.
  { apply Forall_forall. intros c Hc. apply list_elem_of_In in Hc. rewrite List.forallb_forall in Hh. apply Hh, is_hex_cases in Hc. lia. }
  assert (split_on 58 (strip raw) = hv :: size :: split_on 58 name) as Hs by (by rewrite Hr, split_on_sep, split_on_sep).
  assert (_guess_clamav (strip raw) = lit "hsb") as Hg.
  { unfold _guess_clamav. rewrite Hr. replace (cut 58 (hv ++ 58 :: size ++ 58 :: name)) with (Some (hv, size ++ 58 :: name)).
    - cbv zeta. change (default _ (fst <$> Some (hv, size ++ 58 :: name))) with hv. by rewrite Hlen, Hh.
    - symmetry. clear -Hc. induction Hc as [|c l Hc _ IH]; cbn [app cut]; [by rewrite Z.eqb_refl|].
      by rewrite (proj2 (Z.eqb_neq _ _) Hc), IH. }
  unfold import_raw. destruct (strip raw) as [|c l] eqn:Ex; [by destruct hv|].
  assert (c =? 35 = false) as ->.
  { destruct hv as [|d hv]; [done|]. injection Hr as -> _. cbn in Hh. apply andb_true_iff in Hh as [Hd _]. apply is_hex_cases in Hd. bool_lia. }
  destruct (split_on 58 name) as [|nm rest] eqn:En; [by destruct name as [|x y]; cbn in En; [|destruct (x =? 58), (split_on 58 y)]|].
  unfold import_line. rewrite Hg, Hs, Hn. cbn [mbind result_bind]. rewrite (bool_decide_eq_true_2 (lit "auto" = lit "auto") eq_refl).
  assert (bool_decide (lit "hsb" = lit "hdb") || bool_decide (lit "hsb" = lit "hsb") = true) as -> by reflexivity.
  rewrite Hlen. cbn [Nat.eqb]. unfold add_hash. rewrite E2, E3.
  assert (bool_decide (lit "sha256" = lit "auto") = false) as -> by reflexivity.
  cbn [mbind result_bind fst snd _insert av_signatures]. eexists. split; [apply elem_of_app; right; by left|]. done.
Qed.
Lemma import_keeps kind source lines r : forall st, r ∈ av_signatures st.1 -> r ∈ av_signatures (fold_left (import_raw lower kind source) lines st).1.
Proof.
  intros [db n] H. destruct (import_fold lower kind source lines db n) as (new & (A1 & _) & _). rewrite A1. apply elem_of_app. by left.
Qed.

(** C37. What is imported is detected.  Take a feed read with automatic format that has a line `SHA-256 digest:size:name`
    whose size can be read, and whatever else is in the feed and in the table before.  A scanner built later from rows that
    include the enabled rows the import left (the table may have grown since) then reports every non-empty file with that
    digest, provided the size of the line is 0 or the file's, and no row for the same digest asks for another size: the
    table allows such rows, and the last one wins. *)
Theorem imported_hash_detected md5 sha1 sha256 source lines db raw hv size name n data rows av :
  raw ∈ lines -> strip raw = hv ++ 58 :: size ++ 58 :: name -> length hv = 64%nat -> forallb is_hex hv = true ->
  Forall (fun c => c <> 58) size -> int_or_zero size = Ok n -> n = 0 \/ n = blen data ->
  sha256 data = map ascii_lower hv -> data <> [] ->
  (forall s, s ∈ iter_signatures None None true (import_clamav lower (lit "auto") source lines db).1 -> s ∈ rows) ->
  (forall s m, s ∈ rows -> s_body s = SHash (lit "sha256") (map ascii_lower hv) m -> m = 0 \/ m = blen data) ->
  compile rows = Ok av ->
  exists res, scan_file md5 sha1 sha256 lower av data = Ok res /\ infected res = true.
Proof.
  intros Hin Hr Hlen Hh Hsz Hn Hsize Hd Hne Hrows Hagree Hc.
  assert (exists s, s ∈ rows /\ s_body s = SHash (lit "sha256") (map ascii_lower hv) n) as (s & Hs & Hb).
  { assert (exists r, r ∈ av_signatures (fold_left (import_raw lower (lit "auto") source) lines (db, 0)).1 /\ r_enabled r = true /\
      s_body (r_sig r) = SHash (lit "sha256") (map ascii_lower hv) n) as (r & Hr1 & Hr2 & Hr3).
    { apply list_elem_of_split in Hin as (l1 & l2 & ->). rewrite fold_left_app. cbn [fold_left].
      destruct (fold_left _ l1 (db, 0)) as [db1 k]. destruct (import_hash_row source raw hv size name n db1 k Hr Hlen Hh Hsz Hn) as (r & H1 & H2).
      exists r. split; [by apply import_keeps | done]. }
    exists (r_sig r). split; [|done]. apply Hrows. unfold iter_signatures. apply list_elem_of_fmap. exists r. split; [done|].
    apply list_elem_of_In, List.filter_In. rewrite <- list_elem_of_In. split; [|by rewrite Hr2].
    unfold import_clamav. destruct (fold_left _ _ _) as [db1 k]. cbn [fst]. by destruct (k =? 0). }
  destruct (compile_hashes rows av Hc) as [B1 B2].
  destruct (B2 s (lit "sha256", map ascii_lower hv) Hs) as (s' & Hg); [unfold hash_key; by rewrite Hb|].
  destruct (B1 _ _ Hg) as [Hs' Hk].
  pose proof (scan_hashes_spec (_hash_index av) (digests md5 sha1 sha256 data) data) as Hsp.
  unfold scan_file. destruct data as [|b t]; [done|]. destruct (scan_hashes _ _ _) as [x|]; [by eexists|]. exfalso.
  assert (size_ok s' (b :: t) = true) as Hok.
  { unfold hash_key in Hk. destruct (s_body s') as [ht' hv' m| |] eqn:Hb'; try done. injection Hk as -> ->.
    unfold size_ok. rewrite Hb'. destruct (Hagree s' m Hs' Hb'); bool_lia. }
  rewrite (Hsp (lit "sha256", map ascii_lower hv) s') in Hok; [done | | done]. rewrite <- Hd. unfold digests. right. right. by left.
Qed.
End Detect.

(** ** A row that stops the scanner *)

Lemma compile_stops pre s post : (forall st, exists e, compile_sig st s = Err e) -> exists e, compile (pre ++ s :: post) = Err e.
Proof.
  intros Hs. unfold compile. rewrite foldM_res_app. destruct (foldM_res compile_sig _ pre) as [st|e]; cbn [mbind result_bind]; [|by exists e].
  cbn [foldM_res]. destruct (Hs st) as [e He]. rewrite He. by exists e.
Qed.
Lemma rows_snoc db name target severity verdict source family body :
  exists s, s_body s = body /\
    iter_signatures None None true (_insert name target severity verdict source family body db).2 = iter_signatures None None true db ++ [s].
Proof. unfold iter_signatures. cbn [snd _insert av_signatures]. rewrite List.filter_app, map_app. cbn. eexists. split; [|done]. done. Qed.

(** One accepted row can switch the scanner off.  The table takes a body signature with an odd number of digits, and
    a string rule whose hexadecimal string has wildcards (the import of rules produces such strings); from then on,
    whatever else the table holds and whatever is added later, building the scanner fails. *)
Theorem accepted_row_stops_scanner db name off source more :
  (exists id db', add_pattern name (lit "4d5") (lit "any") off None (lit "high") (lit "malware") source db = Ok (id, db') /\
     exists e, compile (iter_signatures None None true db' ++ more) = Err e) /\
  (exists e, compile (iter_signatures None None true
     (add_yara name [(lit "$a", lit "hex:4d??")] (lit "all") (lit "any") None (lit "high") (lit "malware") source db).2 ++ more) = Err e).
Proof.
  assert (forall body, (forall av a s, s_body s = body -> exists e, compile_sig (av, a) s = Err e) ->
    exists e, compile (iter_signatures None None true (_insert name (lit "any") (lit "high") (lit "malware") source None body db).2 ++ more) = Err e) as H.
  { intros body Hb. destruct (rows_snoc db name (lit "any") (lit "high") (lit "malware") source None body) as (s & Hs & ->).
    rewrite <- app_assoc. apply compile_stops. intros [av a]. by apply Hb. }
  split.
  - unfold add_pattern. assert (validate_hexsig (unspaced (lit "4d5")) = true) as -> by (vm_compute; reflexivity).
    eexists _, _. split; [apply f_equal, surjective_pairing|]. apply H. intros av a s Hs. unfold compile_sig. rewrite Hs.
    unfold AntiVirus.add_pattern. assert (compile_hexsig (unspaced (lit "4d5")) = Err HexIndex) as -> by (vm_compute; reflexivity). by eexists.
  - apply H. intros av a s Hs. unfold compile_sig. rewrite Hs.
    assert (mapM_res (fun kv => yara_string kv.2) [(lit "$a", lit "hex:4d??")] = Err HexValue) as -> by (vm_compute; reflexivity). by eexists.
Qed.

(** ** Witnesses *)

Definition demo_digest : pystr := concat (replicate 16 (lit "AB09")).
Definition demo_feed : list pystr := [lit "# feed"; demo_digest ++ lit ":5:Eicar"; lit "Win.X:1:0:4d5a??00"; lit "broken:line"].
Definition demo_lower (s : pystr) : pystr := map ascii_lower s.
Definition demo_sha (b : bytes) : pystr := match b with [104; 101; 108; 108; 111] => map ascii_lower demo_digest | _ => [] end.

Lemma import_clamav_witness : exists new db',
  import_clamav demo_lower (lit "auto") (lit "clamav") demo_feed new_db = (db', Z.of_nat (length new)) /\ Forall imported new /\ length new = 2%nat.
Proof.
  destruct (import_clamav_appends demo_lower (lit "auto") (lit "clamav") demo_feed new_db) as (new & db' & H & _ & Hi & _).
  - split; [constructor | intros r Hr; inversion Hr | intros v n s Hr; inversion Hr].
  - exists new, db'. split; [exact H|]. split; [exact Hi|]. assert (2 = Z.of_nat (length new)) as H2 by (etransitivity; [|exact (f_equal snd H)]; vm_compute; reflexivity). lia.
Defined.

Lemma imported_hash_witness : exists av res,
  scan_file demo_sha demo_sha demo_sha demo_lower av (lit "hello") = Ok res /\ infected res = true.
Proof.
  destruct (compile (iter_signatures None None true (import_clamav demo_lower (lit "auto") (lit "clamav") demo_feed new_db).1)) as [av|] eqn:E;
    [|vm_compute in E; discriminate E].
  destruct (imported_hash_detected demo_lower ltac:(intros s _; reflexivity) demo_sha demo_sha demo_sha (lit "clamav") demo_feed new_db
    (demo_digest ++ lit ":5:Eicar") demo_digest (lit "5") (lit "Eicar") 5 (lit "hello")
    (iter_signatures None None true (import_clamav demo_lower (lit "auto") (lit "clamav") demo_feed new_db).1) av) as (res & Hr & Hi).
  - right; left.
  - vm_compute; reflexivity.
  - vm_compute; reflexivity.
  - vm_compute; reflexivity.
  - repeat constructor; discriminate.
  - vm_compute; reflexivity.
  - right; reflexivity.
  - vm_compute; reflexivity.
  - discriminate.
  - intros s Hs. exact Hs.
  - intros s m Hs Hb. apply list_elem_of_In in Hs. vm_compute in Hs. destruct Hs as [<-|[<-|[]]]; [injection Hb as <-; right; reflexivity | discriminate Hb].
  - exact E.
  - exists av, res. split; [exact Hr | exact Hi].
Defined.
