(* ===== verification/FastPath.v ===== *)
(** * The fast-path compiler

    [ffn_fastpath_compile.py]: signatures become the pattern file of the packet path's matching library and tables
    of fixed-size records with a checked header: per-pattern data, an open-addressed table of file hashes, policy
    rows, names.  [zlib.crc32] and the clock are given; the libraries that load the result are outside.

    Main results: a probe of the written hash table answers exactly membership; pattern numbers are dense and agree
    between the two files; interned names stay readable; every table passes its own check; the expression written
    for a signature is the one the scanner compiles. *)

From S2P Require Import Prelude PyStr PyDict PyIp PyXml PyIp6 PolicyObjects NatPolicy DbCompiler HexSig AntiVirus.
From S2P Require DbLoad.

(** ** Constants *)

Definition HS_CASELESS : Z := 1.
Definition HS_DOTALL : Z := 2.
Definition HS_SINGLEMATCH : Z := 8.
Definition HS_PREFILTER : Z := 128.
Definition HS_SOM_LEFTMOST : Z := 256.
Definition HS_COMBINATION : Z := 512.
Definition HS_QUIET : Z := 1024.
Definition FLAG_LETTER : list (Z * Z) :=
  [(105, HS_CASELESS); (115, HS_DOTALL); (72, HS_SINGLEMATCH); (80, HS_PREFILTER); (76, HS_SOM_LEFTMOST); (67, HS_COMBINATION); (81, HS_QUIET)].
Definition SEV_CODE : list (pystr * Z) := table [("info", 0); ("low", 1); ("medium", 2); ("high", 3); ("critical", 4)]%string.
Definition VERDICT_CODE : list (pystr * Z) := table [("grayware", 0); ("phishing", 1); ("malware", 2); ("benign", 0); ("unknown", 0)]%string.
Definition ORIGIN_IPS : Z := 0.
Definition ORIGIN_AV_NDB : Z := 1.
Definition ORIGIN_YARA_SUB : Z := 2.
Definition ORIGIN_YARA_COMBO : Z := 3.
Inductive table_type := T_POLICY | T_PATMETA | T_AVHASH | T_STRINGS.
Definition type_id (t : table_type) : Z := match t with T_POLICY => 64 | T_PATMETA => 65 | T_AVHASH => 66 | T_STRINGS => 67 end.
Definition MAGIC (t : table_type) : bytes :=
  match t with T_POLICY => lit "FPPO" | T_PATMETA => lit "FPPM" | T_AVHASH => lit "FPPH" | T_STRINGS => lit "FPPS" end.
Definition HDR_SIZE : Z := 36.
Definition POLICY_SIZE : Z := 32.
Definition PATMETA_SIZE : Z := 30.
Definition AVHASH_SIZE : Z := 40.

(** ** Expressions *)

Definition lift_hex {A} (r : result hex_exn A) : result db_error A :=
  match r with Ok a => Ok a | Err HexIndex => Err IndexErr | Err _ => Err ValueErr end.

Definition _nibble_class (hi lo : Z) : result db_error pystr :=
  if quest hi && quest lo then Ok (lit ".")
  else if quest hi then
    lov ← lift_hex (int16 [lo]);
    Ok (lit "[" ++ concat (map (fun n => byte_pcre (Z.lor (Z.shiftl n 4) lov)) (map Z.of_nat (seq 0 16))) ++ lit "]")
  else if quest lo then
    hiv ← lift_hex (int16 [hi]);
    Ok (lit "[" ++ byte_pcre (Z.shiftl hiv 4) ++ lit "-" ++ byte_pcre (Z.lor (Z.shiftl hiv 4) 15) ++ lit "]")
  else n ← lift_hex (int16 [hi; lo]); Ok (byte_pcre n).

(** [binascii.unhexlify]: pairs of digits and nothing else. *)
Fixpoint unhexlify (s : pystr) : result db_error bytes :=
  match s with
  | [] => Ok []
  | c :: d :: t => match hex_digit_value c, hex_digit_value d with
                   | Some x, Some y => r ← unhexlify t; Ok (16 * x + y :: r)
                   | _, _ => Err ValueErr
                   end
  | _ => Err ValueErr
  end.

(** One round of the loop of [hexsig_to_pcre]. *)
Definition gap_text (spec : pystr) : pystr :=
  match cut 45 spec with
  | Some (a, b) =>
      let a := match a with [] => lit "0" | _ => a end in
      match b with [] => lit ".{" ++ a ++ lit ",}" | _ => lit ".{" ++ a ++ lit "," ++ b ++ lit "}" end
  | None => lit ".{" ++ spec ++ lit "}"
  end.
Definition pcre_step (c : Z) (t : pystr) : result db_error (pystr * pystr) :=
  if c =? 42 then Ok (lit ".*", t)
  else if c =? 123 then p ← lift_hex (index 125 t); Ok (gap_text (strip p.1), p.2)
  else if c =? 40 then
    p ← lift_hex (index 41 t);
    alts ← mapM_res unhexlify (split_on 124 p.1);
    Ok (lit "(?:" ++ join (lit "|") (map bytes_pcre alts) ++ lit ")", p.2)
  else if c =? 91 then
    p ← lift_hex (index 93 t);
    let '(lo, hi) := default (p.1, []) (cut 45 p.1) in
    x ← lift_hex (int16 lo); y ← lift_hex (int16 hi);
    Ok (lit "[" ++ byte_pcre x ++ lit "-" ++ byte_pcre y ++ lit "]", p.2)
  else match t with
       | d :: t' => x ← _nibble_class c d; Ok (x, t')
       | [] => Err IndexErr
       end.
Fixpoint pcre_loop (fuel : nat) (s : pystr) : result db_error pystr :=
  match fuel, s with
  | S k, c :: t => p ← pcre_step c t; r ← pcre_loop k p.2; Ok (p.1 ++ r)
  | _, _ => Ok []
  end.
Definition hexsig_to_pcre (hexsig : pystr) : result db_error pystr :=
  pcre_loop (length (unspaced hexsig)) (unspaced hexsig).

(** The window of an offset text: [min_offset], [max_offset], [host_confirm]. *)
Definition clamav_offset_ext (offset : pystr) (patlen : Z) : result db_error (Z * Z * Z) :=
  let offset := strip (match offset with [] => lit "*" | _ => offset end) in
  if bool_decide (offset = lit "*") || bool_decide (offset = []) then Ok (0, 0, 0)
  else if starts (lit "EP") offset || starts (lit "S") offset then Ok (0, 0, 1)
  else if starts (lit "EOF-") offset then Ok (0, 0, 1)
  else if isdigit (lstrip_dash offset) then n ← int_of offset; Ok (n, n + Z.max patlen 1, 0)
  else Ok (0, 0, 1).

(** ** The compiler's state *)

Record patmeta := {
  pat_id : Z; hs_flags : Z; min_offset : Z; max_offset : Z; min_length : Z; action : Z; severity : Z; origin : Z;
  host_confirm : Z; combo_group : Z; name_idx : Z; verdict : Z; src_sid : Z }.
Record avhash := { h_sha : bytes; h_size : Z; h_action : Z; h_severity : Z; h_name : Z }.
Record compiler := {
  hspat : list (Z * pystr * pystr); patmetas : list patmeta; avhashes : list avhash; strings : bytes;
  _str_index : list (pystr * Z); _next_id : Z; policy : list (list (pystr * Z)); policy_vsys : Z }.
Definition new_compiler : compiler :=
  {| hspat := []; patmetas := []; avhashes := []; strings := []; _str_index := []; _next_id := 0; policy := []; policy_vsys := 0 |}.

Definition _intern (s : pystr) (c : compiler) : Z * compiler :=
  match s with
  | [] => (65535, c)
  | _ =>
      match dget s (_str_index c) with
      | Some off => (off, c)
      | None =>
          let off := blen (strings c) in
          if 65534 <? off then (65535, c)
          else (off, {| hspat := hspat c; patmetas := patmetas c; avhashes := avhashes c; strings := strings c ++ encode_ignore s ++ [0];
                        _str_index := _str_index c ++ [(s, off)]; _next_id := _next_id c; policy := policy c; policy_vsys := policy_vsys c |})
      end
  end.

Definition has (ch : Z) (flags : list Z) : bool := bool_decide (ch ∈ flags).
(** The flag letters after the additions of [_add_pattern]. *)
Definition full_flags (flags : list Z) (min_off max_off : Z) : list Z :=
  let flags := if negb (has 115 flags) && negb (has 67 flags) then flags ++ [115] else flags in
  let flags := if negb (has 72 flags) && negb (has 67 flags) && negb (has 81 flags) then flags ++ [72] else flags in
  if (negb (min_off =? 0) || negb (max_off =? 0)) && negb (has 76 flags) then flags ++ [76] else flags.
Definition flag_bits (flags : list Z) : Z := fold_left (fun a ch => Z.lor a (default 0 (dget ch FLAG_LETTER))) flags 0.

Record pattern_args := {
  a_flags : list Z; a_action : Z; a_severity : pystr; a_origin : Z; a_verdict : pystr; a_name : pystr; a_sid : Z;
  a_min : Z; a_max : Z; a_confirm : Z; a_group : Z }.
Definition _add_pattern (pcre : pystr) (a : pattern_args) (c : compiler) : Z * compiler :=
  let pid := _next_id c in
  let flags := full_flags (a_flags a) (a_min a) (a_max a) in
  let '(idx, c) := _intern (a_name a) c in
  (pid,
   {| hspat := hspat c ++ [(pid, pcre, py_sorted Z.leb (remove_dups flags))];
      patmetas := patmetas c ++ [{| pat_id := pid; hs_flags := flag_bits flags; min_offset := a_min a; max_offset := a_max a;
        min_length := 0; action := a_action a; severity := default 3 (dget (a_severity a) SEV_CODE); origin := a_origin a;
        host_confirm := a_confirm a; combo_group := a_group a; name_idx := idx;
        verdict := default 2 (dget (a_verdict a) VERDICT_CODE); src_sid := Z.land (a_sid a) 65535 |}];
      avhashes := avhashes c; strings := strings c; _str_index := _str_index c; _next_id := pid + 1;
      policy := policy c; policy_vsys := policy_vsys c |}).

(** ** Loading signatures *)

Record content_sig := {
  cs_hex : pystr; cs_pcre : bool; cs_nocase : bool; cs_offset : option Z; cs_depth : option Z; cs_action : Z; cs_severity : pystr;
  cs_verdict : pystr; cs_threat : option pystr; cs_name : pystr; cs_sid : Z }.
Definition load_content (st : compiler * Z) (r : content_sig) : compiler * Z :=
  let '(c, n) := st in
  match unhexlify (cs_hex r) with
  | Err _ => st
  | Ok raw =>
      let off := default 0 (cs_offset r) in
      let depth := default 0 (cs_depth r) in
      let '(_, c) := _add_pattern (if cs_pcre r then raw else bytes_pcre raw)
        {| a_flags := if cs_nocase r then [105] else []; a_action := cs_action r; a_severity := cs_severity r; a_origin := ORIGIN_IPS;
           a_verdict := cs_verdict r; a_name := match cs_threat r with Some (x :: t) => x :: t | _ => cs_name r end; a_sid := cs_sid r;
           a_min := if 0 <? off then off else 0; a_max := if 0 <? depth then off + depth else 0; a_confirm := 0; a_group := 65535 |} c in
      (c, n + 1)
  end.
(** The enabled rows, in the order of the query. *)
Definition load_content_signatures (rows : list content_sig) (c : compiler) : compiler * Z := fold_left load_content rows (c, 0).

Definition sig_args (s : sig) (flags : list Z) (org mn mx hc group : Z) : pattern_args :=
  {| a_flags := flags; a_action := s_action s; a_severity := s_severity s; a_origin := org; a_verdict := s_verdict s; a_name := s_name s;
     a_sid := s_id s; a_min := mn; a_max := mx; a_confirm := hc; a_group := group |}.

Definition add_sub (s : sig) (st : compiler * list Z) (val : pystr) : result db_error (compiler * list Z) :=
  let '(c, ids) := st in
  data ← (if starts (lit "hex:") val then fromhex (drop 4 val) else Ok (encode_ignore val));
  let '(pid, c) := _add_pattern (bytes_pcre data) (sig_args s [81] ORIGIN_YARA_SUB 0 0 0 (Z.land (s_id s) 65535)) c in
  Ok (c, ids ++ [pid]).
Definition with_metas (l : list patmeta) (c : compiler) : compiler :=
  {| hspat := hspat c; patmetas := l; avhashes := avhashes c; strings := strings c; _str_index := _str_index c;
     _next_id := _next_id c; policy := policy c; policy_vsys := policy_vsys c |}.
Definition confirm_meta (m : patmeta) : patmeta :=
  {| pat_id := pat_id m; hs_flags := Z.lor (hs_flags m) HS_PREFILTER; min_offset := min_offset m; max_offset := max_offset m;
     min_length := min_length m; action := action m; severity := severity m; origin := origin m; host_confirm := 1;
     combo_group := combo_group m; name_idx := name_idx m; verdict := verdict m; src_sid := src_sid m |}.
Definition combo_text (sep : string) (ids : list Z) : pystr := lit "(" ++ join (lit sep) (map nat_text ids) ++ lit ")".
Definition _load_yara (s : sig) (strs : list (pystr * pystr)) (condition : pystr) (c : compiler) : result db_error compiler :=
  st ← foldM_res (add_sub s) (c, []) (map snd strs);
  let '(c, ids) := st in
  let combo sep := (_add_pattern (combo_text sep ids) (sig_args s [67] ORIGIN_YARA_COMBO 0 0 0 (Z.land (s_id s) 65535)) c).2 in
  match ids with
  | [] => Ok c
  | _ =>
      if bool_decide (condition = lit "all") then Ok (combo " & "%string)
      else if bool_decide (condition = lit "any") then Ok (combo " | "%string)
      else Ok (with_metas (fold_left (fun l i => alter confirm_meta (Z.to_nat i) l) ids (patmetas c)) c)
  end.

Definition add_avhash (e : avhash) (c : compiler) : compiler :=
  {| hspat := hspat c; patmetas := patmetas c; avhashes := avhashes c ++ [e]; strings := strings c; _str_index := _str_index c;
     _next_id := _next_id c; policy := policy c; policy_vsys := policy_vsys c |}.
Record counts := { n_pattern : Z; n_yara : Z; n_hash : Z }.
Definition load_av (st : compiler * counts) (s : sig) : result db_error (compiler * counts) :=
  let '(c, n) := st in
  match s_body s with
  | SHash ht hv size =>
      if negb (bool_decide (ht = lit "sha256")) then Ok st
      else match from_hex hv with
           | None => Ok st
           | Some h =>
               if negb (length h =? 32)%nat then Ok st
               else let '(idx, c) := _intern (s_name s) c in
                    Ok (add_avhash {| h_sha := h; h_size := size; h_action := s_action s;
                                      h_severity := default 3 (dget (s_severity s) SEV_CODE); h_name := idx |} c,
                        {| n_pattern := n_pattern n; n_yara := n_yara n; n_hash := n_hash n + 1 |})
           end
  | SPattern hex off =>
      pcre ← hexsig_to_pcre hex;
      w ← clamav_offset_ext off (blen (unspaced hex) / 2);
      let '(mn, mx, hc) := w in
      let '(_, c) := _add_pattern pcre (sig_args s (if hc =? 0 then [] else [80]) ORIGIN_AV_NDB mn mx hc 65535) c in
      Ok (c, {| n_pattern := n_pattern n + 1; n_yara := n_yara n; n_hash := n_hash n |})
  | SYara strs cond =>
      c ← _load_yara s strs cond c;
      Ok (c, {| n_pattern := n_pattern n; n_yara := n_yara n + 1; n_hash := n_hash n |})
  end.
Definition load_av_signatures (sigs : list sig) (c : compiler) : result db_error (compiler * counts) :=
  foldM_res load_av (c, {| n_pattern := 0; n_yara := 0; n_hash := 0 |}) sigs.

Definition load_policy (rules : list (list (pystr * Z))) (vsys : Z) (c : compiler) : compiler * Z :=
  ({| hspat := hspat c; patmetas := patmetas c; avhashes := avhashes c; strings := strings c; _str_index := _str_index c;
      _next_id := _next_id c; policy := rules; policy_vsys := Z.land vsys 255 |}, Z.of_nat (length rules)).

(** ** The files *)

Section Files.
Context (crc32 : bytes -> Z) (now : Z).

Definition _hdr (t : table_type) (count : Z) (payload : bytes) (record_size populated : Z) : result db_error bytes :=
  f ← pack_fields [(2%nat, 1); (2%nat, type_id t); (4%nat, count); (8%nat, now); (4%nat, Z.land (crc32 payload) 4294967295);
                   (4%nat, record_size); (4%nat, populated); (4%nat, 0)];
  Ok (MAGIC t ++ f).

Definition meta_record (m : patmeta) : result db_error bytes :=
  pack_fields [(4%nat, pat_id m); (4%nat, hs_flags m); (4%nat, min_offset m); (4%nat, max_offset m); (2%nat, min_length m); (1%nat, action m);
               (1%nat, severity m); (1%nat, origin m); (1%nat, host_confirm m); (2%nat, combo_group m); (2%nat, name_idx m);
               (2%nat, verdict m); (2%nat, src_sid m)].
Definition _pack_patmeta (c : compiler) : result db_error bytes :=
  l ← mapM_res meta_record (patmetas c);
  h ← _hdr T_PATMETA (Z.of_nat (length (patmetas c))) (concat l) PATMETA_SIZE (Z.of_nat (length (patmetas c)));
  Ok (h ++ concat l).

(** [while slots < max(n * 2, 8): slots <<= 1]. *)
Fixpoint grow_slots (fuel : nat) (need slots : Z) : Z :=
  match fuel with
  | O => slots
  | S k => if slots <? need then grow_slots k need (Z.shiftl slots 1) else slots
  end.
Definition slots_for (n : Z) : Z := grow_slots (Z.to_nat (Z.max (n * 2) 8)) (Z.max (n * 2) 8) 1.
Definition bucket_of (h : bytes) (slots : Z) : Z := Z.land (le_unpack (take 8 h)) (slots - 1).
(** [while table[bucket] is not None: bucket = (bucket + 1) & (slots - 1)]. *)
Fixpoint probe_free (fuel : nat) (t : list (option avhash)) (slots bucket : Z) : Z :=
  match fuel with
  | O => bucket
  | S k => match nth (Z.to_nat bucket) t None with
           | None => bucket
           | Some _ => probe_free k t slots (Z.land (bucket + 1) (slots - 1))
           end
  end.
Definition place (slots : Z) (t : list (option avhash)) (e : avhash) : list (option avhash) :=
  <[Z.to_nat (probe_free (length t) t slots (bucket_of (h_sha e) slots)) := Some e]> t.
Definition hash_table (l : list avhash) : list (option avhash) :=
  let slots := slots_for (Z.of_nat (length l)) in
  fold_left (place slots) l (replicate (Z.to_nat slots) None).
Definition slot_record (o : option avhash) : result db_error bytes :=
  match o with
  | None => Ok (replicate 40 0)
  | Some e => f ← pack_fields [(4%nat, h_size e); (1%nat, h_action e); (1%nat, h_severity e); (2%nat, h_name e)]; Ok (h_sha e ++ f)
  end.
Definition _pack_avhash (c : compiler) : result db_error bytes :=
  l ← mapM_res slot_record (hash_table (avhashes c));
  h ← _hdr T_AVHASH (slots_for (Z.of_nat (length (avhashes c)))) (concat l) AVHASH_SIZE (Z.of_nat (length (avhashes c)));
  Ok (h ++ concat l).

Definition rget (r : list (pystr * Z)) (k : string) (d : Z) : Z := default d (dget (lit k) r).
Definition policy_record (vsys : Z) (r : list (pystr * Z)) : result db_error bytes :=
  pack_fields [(4%nat, rget r "src_ip" 0); (4%nat, rget r "src_mask" 0); (4%nat, rget r "dst_ip" 0); (4%nat, rget r "dst_mask" 0);
               (2%nat, rget r "sport_lo" 0); (2%nat, rget r "sport_hi" 65535); (2%nat, rget r "dport_lo" 0); (2%nat, rget r "dport_hi" 65535);
               (1%nat, rget r "proto" 0); (1%nat, Z.land (rget r "vsys" vsys) 255); (1%nat, rget r "action" 1); (1%nat, rget r "flags" 0);
               (2%nat, rget r "egress_port" 65535); (2%nat, rget r "rule_id" 0)].
Definition _pack_policy (c : compiler) : result db_error bytes :=
  l ← mapM_res (policy_record (policy_vsys c)) (policy c);
  h ← _hdr T_POLICY (Z.of_nat (length (policy c))) (concat l) POLICY_SIZE (Z.of_nat (length (policy c)));
  Ok (h ++ concat l).
Definition _pack_strings (c : compiler) : result db_error bytes :=
  h ← _hdr T_STRINGS (blen (strings c)) (strings c) 1 (blen (strings c));
  Ok (h ++ strings c).
Definition hspat_line (p : Z * pystr * pystr) : pystr := nat_text p.1.1 ++ lit ":/" ++ p.1.2 ++ lit "/" ++ p.2.
Definition write_hspat (c : compiler) : pystr :=
  join [10] (lit "# ffn_fastpath.hspat v1" :: map hspat_line (hspat c)) ++ [10].

(** ** Reading *)

Record header := { f_magic : bytes; f_version : Z; f_type : Z; f_count : Z; f_crc32 : Z; f_record_size : Z; f_populated : Z }.
Definition u (lo hi : Z) (b : bytes) : Z := le_unpack (slice lo hi b).
Definition parse_header (buf : bytes) : result db_error header :=
  if blen buf <? HDR_SIZE then Err StructErr
  else Ok {| f_magic := slice 0 4 buf; f_version := u 4 6 buf; f_type := u 6 8 buf; f_count := u 8 12 buf; f_crc32 := u 20 24 buf;
             f_record_size := u 24 28 buf; f_populated := u 28 32 buf |}.
(** [validate_table]: [None] for a failed assertion. *)
Definition validate_table (buf : bytes) (expect : table_type) : result db_error (option header) :=
  h ← parse_header buf;
  Ok (if bool_decide (f_magic h = MAGIC expect) && (f_version h =? 1)
         && (Z.land (crc32 (drop (Z.to_nat HDR_SIZE) buf)) 4294967295 =? f_crc32 h)
      then Some h else None).

(** The reader of the written table in [selftest]: linear probing over the bytes of the file. *)
Fixpoint lookup_loop (fuel : nat) (raw : bytes) (slots bucket : Z) (sha : bytes) : bool :=
  match fuel with
  | O => false
  | S k =>
      let off := HDR_SIZE + bucket * AVHASH_SIZE in
      let rh := take 32 (slice off (off + AVHASH_SIZE) raw) in
      if bool_decide (rh = replicate 32 0) then false
      else if bool_decide (rh = sha) then true
      else lookup_loop k raw slots (Z.land (bucket + 1) (slots - 1)) sha
  end.
Definition avhash_lookup (raw sha : bytes) : result db_error bool :=
  h ← parse_header raw;
  Ok (lookup_loop (Z.to_nat (f_count h)) raw (f_count h) (bucket_of sha (f_count h)) sha).
End Files.

(** ** The hash table *)

Lemma grow_slots_spec fuel : forall need slots, 0 < slots -> need - slots <= Z.of_nat fuel -> (exists k, 0 <= k /\ slots = 2 ^ k) ->
  exists k, 0 <= k /\ grow_slots fuel need slots = 2 ^ k /\ need <= 2 ^ k.
Proof.
  induction fuel as [|fuel IH]; intros need slots Hp Hf (k & Hk & Hs); cbn [grow_slots]; [exists k; split_and!; [done | done | lia]|].
  destruct (slots <? need) eqn:E; [|exists k; split_and!; [done | done | bool_lia]].
  apply IH; rewrite Z.shiftl_mul_pow2, Z.pow_1_r by lia; [lia | lia|]. exists (k + 1). split; [lia|]. rewrite Z.pow_add_r by lia. lia.
Qed.
Lemma slots_for_spec n : 0 <= n -> exists k, 0 <= k /\ slots_for n = 2 ^ k /\ n < slots_for n.
Proof.
  intros Hn. unfold slots_for. destruct (grow_slots_spec (Z.to_nat (Z.max (n * 2) 8)) (Z.max (n * 2) 8) 1) as (k & Hk & -> & Hle); [lia | lia | |].
  - exists 0. by split.
  - exists k. split_and!; [done | done | lia].
Qed.

Section HashTable.
Context (k : Z) (Hk : 0 <= k).
Notation m := (2 ^ k).

Lemma m_pos : 0 < m.
Proof. apply Z.pow_pos_nonneg; lia. Qed.
Lemma land_mod x : Z.land x (m - 1) = x mod m.
Proof. rewrite <- Z.land_ones by done. by rewrite Z.ones_equiv, Z.sub_1_r. Qed.

Definition at_ (t : list (option avhash)) (p : Z) : option avhash := nth (Z.to_nat p) t None.
Definition home (e : avhash) : Z := bucket_of (h_sha e) m.
Definition dist (a b : Z) : Z := (b - a) mod m.

Lemma home_range e : 0 <= home e < m.
Proof. unfold home, bucket_of. rewrite land_mod. apply Z.mod_pos_bound, m_pos. Qed.
Lemma dist_range a b : 0 <= dist a b < m.
Proof. apply Z.mod_pos_bound, m_pos. Qed.
Lemma dist_zero a b : 0 <= a < m -> 0 <= b < m -> dist a b = 0 -> a = b.
Proof.
  unfold dist. intros Ha Hb H. apply Z.mod_divide in H as [q Hq]; [|pose proof m_pos; lia].
  assert (q = 0) as -> by nia. lia.
Qed.
Lemma dist_step a b : 0 <= a < m -> 0 <= b < m -> a <> b -> dist ((a + 1) mod m) b = dist a b - 1.
Proof.
  intros Ha Hb Hne. pose proof (dist_range a b) as Hd. assert (dist a b <> 0) as H0 by (intros H; by apply dist_zero in H).
  unfold dist in *. rewrite Zminus_mod_idemp_r. replace (b - (a + 1)) with (b - a - 1) by lia.
  rewrite <- Zminus_mod_idemp_l. apply Z.mod_small. lia.
Qed.
Lemma dist_add b i : 0 <= i < m -> dist b ((b + i) mod m) = i.
Proof. intros Hi. unfold dist. rewrite Zminus_mod_idemp_l. replace (b + i - b) with i by lia. by apply Z.mod_small. Qed.
Lemma at_dist b p : 0 <= p < m -> (b + dist b p) mod m = p.
Proof. intros Hp. unfold dist. rewrite Zplus_mod_idemp_r. replace (b + (p - b)) with p by lia. by apply Z.mod_small. Qed.

(** From [b] on, the probe stops at the first free slot. *)
Lemma probe_free_spec t p0 : at_ t p0 = None -> 0 <= p0 < m -> forall fuel b, 0 <= b < m -> dist b p0 < Z.of_nat fuel ->
  exists i, 0 <= i < m /\ probe_free fuel t m b = (b + i) mod m /\ at_ t ((b + i) mod m) = None /\
    forall j, 0 <= j < i -> at_ t ((b + j) mod m) <> None.
Proof.
  intros Hn Hp. induction fuel as [|fuel IH]; intros b Hb Hd; [pose proof (dist_range b p0); lia|]. cbn [probe_free].
  change (nth (Z.to_nat b) t None) with (at_ t b). destruct (at_ t b) as [e|] eqn:Eb.
  - assert (b <> p0) as Hne by congruence. rewrite land_mod.
    destruct (IH ((b + 1) mod m)) as (i & Hi & H1 & H2 & H3).
    { apply Z.mod_pos_bound, m_pos. } { rewrite dist_step by done. lia. }
    rewrite Zplus_mod_idemp_l in H1, H2. replace (b + 1 + i) with (b + (i + 1)) in * by lia.
    assert (i + 1 < m) as Him.
    { destruct (decide (i + 1 < m)); [done|]. assert (i + 1 = m) as E by lia. rewrite E in H2.
      rewrite <- Zplus_mod_idemp_r, Z_mod_same_full, Z.add_0_r, Z.mod_small in H2 by lia. congruence. }
    exists (i + 1). split_and!; [lia | lia | done | done |]. intros j Hj.
    destruct (decide (j = 0)) as [->|]; [rewrite Z.add_0_r, Z.mod_small by lia; congruence|].
    specialize (H3 (j - 1) ltac:(lia)). rewrite Zplus_mod_idemp_l in H3. by replace (b + 1 + (j - 1)) with (b + j) in H3 by lia.
  - exists 0. pose proof m_pos. rewrite Z.add_0_r, Z.mod_small by lia. split_and!; try done; lia.
Qed.

Record table_inv (t : list (option avhash)) (l : list avhash) : Prop := {
  t_len : length t = Z.to_nat m;
  t_sound : forall p e, 0 <= p < m -> at_ t p = Some e ->
    e ∈ l /\ forall i, 0 <= i < dist (home e) p -> at_ t ((home e + i) mod m) <> None;
  t_complete : forall e, e ∈ l -> exists p, 0 <= p < m /\ at_ t p = Some e;
  t_count : length (List.filter (fun o => match o with Some _ => true | None => false end) t) = length l }.

Lemma at_insert t r p x : (Z.to_nat r < length t)%nat -> 0 <= p -> 0 <= r -> at_ (<[Z.to_nat r := x]> t) p = if decide (p = r) then x else at_ t p.
Proof.
  intros Hr Hp Hr0. unfold at_. rewrite !nth_lookup. destruct (decide (p = r)) as [->|Hne].
  - by rewrite list_lookup_insert_eq.
  - rewrite list_lookup_insert_ne; [done | lia].
Qed.
Lemma free_slot t l : table_inv t l -> Z.of_nat (length l) < m -> exists p, 0 <= p < m /\ at_ t p = None.
Proof.
  intros [T1 _ _ T4] Hl. assert (exists i : nat, (i < length t)%nat /\ nth i t None = None) as (i & Hi & Hx).
  { assert (forall t : list (option avhash), (length (List.filter (fun o => match o with Some _ => true | None => false end) t) < length t)%nat ->
      exists i : nat, (i < length t)%nat /\ nth i t None = None) as H.
    { clear. induction t as [|[e|] t IH]; cbn [List.filter length]; intros H; [lia| |by exists 0%nat; split; [lia|]].
      destruct IH as (i & Hi & Hx); [lia|]. exists (S i). split; [lia | done]. }
    apply H. lia. }
  exists (Z.of_nat i). unfold at_. rewrite Nat2Z.id. split; [lia | done].
Qed.
Lemma filter_insert (t : list (option avhash)) i e : t !! i = Some None ->
  length (List.filter (fun o => match o with Some _ => true | None => false end) (<[i := Some e]> t))
  = S (length (List.filter (fun o => match o with Some _ => true | None => false end) t)).
Proof.
  revert i; induction t as [|o t IH]; intros [|i] H; try done; cbn in H.
  - injection H as ->. done.
  - specialize (IH i H). change (<[S i := Some e]> (o :: t)) with (o :: <[i := Some e]> t). destruct o; cbn [List.filter length]; by rewrite IH.
Qed.

Lemma place_inv t l e : table_inv t l -> Z.of_nat (length l) < m -> table_inv (place m t e) (l ++ [e]).
Proof.
  intros HT Hl. destruct (free_slot t l HT Hl) as (p0 & Hp0 & Hn0). destruct HT as [T1 T2 T3 T4]. pose proof m_pos as Hm.
  unfold place. destruct (probe_free_spec t p0 Hn0 Hp0 (length t) (home e)) as (i & Hi & Hr & Hrn & Hocc).
  { apply home_range. } { pose proof (dist_range (home e) p0). rewrite T1. lia. }
  change (bucket_of (h_sha e) m) with (home e). rewrite Hr. set (r := (home e + i) mod m) in *.
  assert (0 <= r < m) as Hrr by (apply Z.mod_pos_bound; lia).
  assert (Z.to_nat r < length t)%nat as Hrl by (rewrite T1; lia).
  assert (forall p, 0 <= p -> at_ (<[Z.to_nat r := Some e]> t) p = if decide (p = r) then Some e else at_ t p) as Hat.
  { intros p Hp. apply at_insert; [done | done | lia]. }
  assert (forall q, 0 <= q -> at_ t q <> None -> at_ (<[Z.to_nat r := Some e]> t) q <> None) as Hmono.
  { intros q Hq Hx. rewrite Hat by done. by case_decide. }
  split.
  - by rewrite length_insert.
  - intros p x Hp. rewrite Hat by lia. destruct (decide (p = r)) as [->|Hne].
    + intros [= <-]. split; [apply elem_of_app; right; by left|]. unfold r at 1. rewrite dist_add by done. intros j Hj.
      apply Hmono; [apply Z.mod_pos_bound; lia | by apply Hocc].
    + intros Hx. destruct (T2 p x Hp Hx) as [Hin Ho]. split; [apply elem_of_app; by left|]. intros j Hj.
      apply Hmono; [apply Z.mod_pos_bound; lia | by apply Ho].
  - intros x [Hx| ->%list_elem_of_singleton]%elem_of_app.
    + destruct (T3 x Hx) as (p & Hp & Hpx). exists p. split; [done|]. rewrite Hat by lia. case_decide; [|done]. subst. congruence.
    + exists r. split; [done|]. rewrite Hat by lia. by case_decide.
  - rewrite filter_insert, T4, length_app; [cbn; lia|]. unfold at_ in Hrn. rewrite nth_lookup in Hrn.
    destruct (lookup_lt_is_Some_2 t (Z.to_nat r) Hrl) as [o Ho]. rewrite Ho in Hrn. cbn in Hrn. by subst.
Qed.
Lemma places_inv l2 : forall t l1, table_inv t l1 -> Z.of_nat (length (l1 ++ l2)) <= m -> table_inv (fold_left (place m) l2 t) (l1 ++ l2).
Proof.
  induction l2 as [|e l2 IH]; intros t l1 HT Hl; cbn [fold_left]; [by rewrite app_nil_r|].
  change (e :: l2) with ([e] ++ l2) in *. rewrite app_assoc in *. apply IH; [|done]. apply place_inv; [done|].
  rewrite !length_app in Hl. cbn in Hl. lia.
Qed.
Lemma empty_inv : table_inv (replicate (Z.to_nat m) None) [].
Proof.
  assert (forall p n, nth p (replicate n (None : option avhash)) None = None) as H.
  { intros p n. revert p. induction n as [|n IH]; intros [|p]; cbn; done. }
  split.
  - by rewrite length_replicate.
  - intros p e _. unfold at_. by rewrite H.
  - intros e He. by apply elem_of_nil in He.
  - cbn. induction (Z.to_nat m); done.
Qed.

(** The probe over the table. *)
Fixpoint find_slot (fuel : nat) (t : list (option avhash)) (b : Z) (sha : bytes) : bool :=
  match fuel with
  | O => false
  | S n => match at_ t b with
           | None => false
           | Some e => if bool_decide (h_sha e = sha) then true else find_slot n t ((b + 1) mod m) sha
           end
  end.
Lemma find_slot_sound fuel : forall t b sha l, table_inv t l -> 0 <= b < m -> find_slot fuel t b sha = true -> exists e, e ∈ l /\ h_sha e = sha.
Proof.
  induction fuel as [|fuel IH]; intros t b sha l HT Hb; cbn [find_slot]; [done|]. destruct (at_ t b) as [e|] eqn:E; [|done].
  destruct (bool_decide _) eqn:Ed; [|apply IH; [done | apply Z.mod_pos_bound, m_pos]].
  intros _. exists e. split; [by eapply t_sound | by apply bool_decide_eq_true in Ed].
Qed.
Lemma find_slot_complete t p e sha : 0 <= p < m -> at_ t p = Some e -> h_sha e = sha -> forall fuel b, 0 <= b < m -> dist b p < Z.of_nat fuel ->
  (forall i, 0 <= i < dist b p -> at_ t ((b + i) mod m) <> None) -> find_slot fuel t b sha = true.
Proof.
  intros Hp He Hs. induction fuel as [|fuel IH]; intros b Hb Hd Ho; [pose proof (dist_range b p); lia|]. cbn [find_slot].
  destruct (decide (b = p)) as [->|Hne]; [rewrite He; by rewrite bool_decide_eq_true_2|].
  pose proof (dist_range b p) as Hr. assert (dist b p <> 0) as H0 by (intros H; by apply dist_zero in H).
  specialize (Ho 0 ltac:(lia)) as Ho0. rewrite Z.add_0_r, Z.mod_small in Ho0 by done. destruct (at_ t b) as [x|]; [|done].
  destruct (bool_decide _); [done|]. pose proof (dist_step b p Hb Hp Hne) as Hst. apply IH; [apply Z.mod_pos_bound, m_pos | lia|].
  intros i Hi. rewrite Zplus_mod_idemp_l. replace (b + 1 + i) with (b + (i + 1)) by lia. apply Ho. lia.
Qed.
End HashTable.

(** ** Headers *)

Section Tables.
Context (crc32 : bytes -> Z) (now : Z).

Lemma hdr_length t count payload rs pop h : _hdr crc32 now t count payload rs pop = Ok h -> length h = 36%nat.
Proof.
  unfold _hdr. intros H. inv_res. match goal with H : pack_fields _ = Ok _ |- _ => apply pack_fields_length in H; cbn in H end.
  rewrite length_app. destruct t; cbn; lia.
Qed.
Lemma hdr_parse t count payload rs pop h rest : _hdr crc32 now t count payload rs pop = Ok h ->
  parse_header (h ++ rest) = Ok {| f_magic := MAGIC t; f_version := 1; f_type := type_id t; f_count := count;
    f_crc32 := Z.land (crc32 payload) 4294967295; f_record_size := rs; f_populated := pop |}.
Proof.
  intros Hh. pose proof (hdr_length _ _ _ _ _ _ Hh) as Hl. unfold parse_header.
  assert (blen (h ++ rest) <? HDR_SIZE = false) as ->.
  { rewrite blen_app. pose proof (blen_nonneg rest). unfold blen, HDR_SIZE in *. apply Z.ltb_ge. lia. }
  unfold _hdr in Hh. apply bind_ok_inv in Hh as (f & Hf & Hh). injection Hh as <-.
  pose proof (DbLoad.unpack_pack_fields _ _ rest Hf) as Hu. cbn [fmap list_fmap fst snd] in Hu.
  assert (length (MAGIC t) = 4%nat) as Hm by (by destruct t).
  assert (forall i j, 4 <= i -> slice i j ((MAGIC t ++ f) ++ rest) = slice (i - 4) (j - 4) (f ++ rest)) as Hs.
  { intros i j Hi. rewrite <- app_assoc, slice_app_r by (unfold blen; lia). unfold blen. by rewrite Hm. }
  unfold u. rewrite (Hs 4 6), (Hs 6 8), (Hs 8 12), (Hs 20 24), (Hs 24 28), (Hs 28 32) by lia. f_equal.
  unfold slice in *. cbn [DbLoad.unpack_fields] in Hu. rewrite !drop_drop in Hu. injection Hu as E1 E2 E3 E4 E5 E6 E7 E8.
  cbn [Z.sub Z.to_nat Z.add Z.opp] in *. f_equal; try done.
  cbn [Z.to_nat drop]. rewrite <- app_assoc. destruct t; reflexivity.
Qed.

Lemma validated t count payload rs pop h : _hdr crc32 now t count payload rs pop = Ok h ->
  validate_table crc32 (h ++ payload) t = Ok (Some {| f_magic := MAGIC t; f_version := 1; f_type := type_id t; f_count := count;
    f_crc32 := Z.land (crc32 payload) 4294967295; f_record_size := rs; f_populated := pop |}).
Proof.
  intros H. unfold validate_table. rewrite (hdr_parse _ _ _ _ _ _ payload H). cbn [mbind result_bind f_magic f_version f_crc32].
  change (Z.to_nat HDR_SIZE) with 36%nat. rewrite drop_app_exact by (by rewrite (hdr_length _ _ _ _ _ _ H)).
  rewrite bool_decide_eq_true_2 by done. cbn [andb Z.eqb]. by rewrite Z.eqb_refl.
Qed.
Lemma records_length {A} (f : A -> result db_error bytes) (n : nat) l bs :
  (forall a b, f a = Ok b -> length b = n) -> mapM_res f l = Ok bs -> blen (concat bs) = Z.of_nat (length l) * Z.of_nat n.
Proof.
  intros Hf H%mapM_res_Forall2. unfold blen. induction H as [|a b l bs Hb _ IH]; [done|].
  cbn [concat length]. rewrite length_app, (Hf _ _ Hb). lia.
Qed.

Lemma meta_length m b : meta_record m = Ok b -> length b = 30%nat.
Proof. intros H. by rewrite (pack_fields_length _ _ H). Qed.
Lemma policy_length v r b : policy_record v r = Ok b -> length b = 32%nat.
Proof. intros H. by rewrite (pack_fields_length _ _ H). Qed.
Lemma slot_length o b : match o with Some e => length (h_sha e) = 32%nat | None => True end -> slot_record o = Ok b -> length b = 40%nat.
Proof.
  destruct o as [e|]; cbn [slot_record]; [|by intros _ [= <-]]. intros He H. apply bind_ok_inv in H as (f & Hf & H). injection H as <-.
  by rewrite length_app, He, (pack_fields_length _ _ Hf).
Qed.
(** The table of a list of entries. *)
Lemma hash_table_inv l : exists k, 0 <= k /\ slots_for (Z.of_nat (length l)) = 2 ^ k /\ Z.of_nat (length l) < 2 ^ k /\ table_inv k (hash_table l) l.
Proof.
  destruct (slots_for_spec (Z.of_nat (length l))) as (k & Hk & Hs & Hlt); [lia|]. exists k. rewrite Hs in Hlt. split_and!; try done.
  unfold hash_table. rewrite Hs. apply (places_inv k Hk l _ []); [by apply empty_inv | cbn; lia].
Qed.
Lemma slots_wf l : Forall (fun e => length (h_sha e) = 32%nat) l ->
  Forall (fun o => match o with Some e => length (h_sha e) = 32%nat | None => True end) (hash_table l).
Proof.
  intros Hl. destruct (hash_table_inv l) as (k & Hk & Hs & Hlt & [T1 T2 _ _]). apply Forall_forall. intros [e|] Ho; [|done].
  apply list_elem_of_lookup in Ho as [i Hi]. pose proof (lookup_lt_Some _ _ _ Hi) as Hil. rewrite T1 in Hil.
  destruct (T2 (Z.of_nat i) e) as [Hin _]; [lia | unfold at_; by rewrite Nat2Z.id, nth_lookup, Hi|].
  rewrite Forall_forall in Hl. by apply Hl.
Qed.
Lemma slot_records l bs : Forall (fun e => length (h_sha e) = 32%nat) l -> mapM_res slot_record (hash_table l) = Ok bs ->
  Forall2 (fun o b => slot_record o = Ok b /\ length b = 40%nat) (hash_table l) bs.
Proof.
  intros Hl%slots_wf Hbs%mapM_res_Forall2. revert Hl. induction Hbs as [|o b t bs Hb _ IH]; intros Hl; constructor.
  - split; [done|]. inversion Hl; subst. by eapply slot_length.
  - inversion Hl; subst. by apply IH.
Qed.
Lemma concat_length_40 (t : list (option avhash)) bs : Forall2 (fun o b => slot_record o = Ok b /\ length b = 40%nat) t bs ->
  blen (concat bs) = Z.of_nat (length t) * 40.
Proof. induction 1 as [|o b t bs [_ Hb] _ IH]; [done|]. unfold blen in *. cbn [concat length]. rewrite length_app. lia. Qed.

(** Every table passes the check of its reader.  Each of the four files, when it can be written at all, begins with a
    header that the reader's validation accepts for the right table: magic, version, checksum of exactly the payload
    that follows, and the number and size of records, whose product is the length of the payload. *)
Theorem tables_validate c :
  (forall raw, _pack_patmeta crc32 now c = Ok raw -> exists h p, validate_table crc32 raw T_PATMETA = Ok (Some h) /\ drop 36 raw = p /\
     f_count h = Z.of_nat (length (patmetas c)) /\ f_record_size h = PATMETA_SIZE /\ blen p = f_count h * f_record_size h) /\
  (forall raw, _pack_policy crc32 now c = Ok raw -> exists h p, validate_table crc32 raw T_POLICY = Ok (Some h) /\ drop 36 raw = p /\
     f_count h = Z.of_nat (length (policy c)) /\ f_record_size h = POLICY_SIZE /\ blen p = f_count h * f_record_size h) /\
  (forall raw, _pack_strings crc32 now c = Ok raw -> exists h, validate_table crc32 raw T_STRINGS = Ok (Some h) /\ drop 36 raw = strings c /\
     f_count h = blen (strings c)) /\
  (forall raw, Forall (fun e => length (h_sha e) = 32%nat) (avhashes c) -> _pack_avhash crc32 now c = Ok raw ->
     exists h p, validate_table crc32 raw T_AVHASH = Ok (Some h) /\ drop 36 raw = p /\ f_populated h = Z.of_nat (length (avhashes c)) /\
     f_populated h < f_count h /\ f_record_size h = AVHASH_SIZE /\ blen p = f_count h * f_record_size h).
Proof.
  split_and!; intros raw; [| | |intros Hsha]; intros H.
  - apply bind_ok_inv in H as (bs & Hb & H). apply bind_ok_inv in H as (h & Hh & H). injection H as <-. eexists _, _.
    split; [apply (validated _ _ _ _ _ _ Hh)|]. split; [by rewrite drop_app_exact by (by rewrite (hdr_length _ _ _ _ _ _ Hh))|].
    split_and!; [done..|]. by rewrite (records_length _ 30 _ _ meta_length Hb).
  - apply bind_ok_inv in H as (bs & Hb & H). apply bind_ok_inv in H as (h & Hh & H). injection H as <-. eexists _, _.
    split; [apply (validated _ _ _ _ _ _ Hh)|]. split; [by rewrite drop_app_exact by (by rewrite (hdr_length _ _ _ _ _ _ Hh))|].
    split_and!; [done..|]. by rewrite (records_length _ 32 _ _ (policy_length _) Hb).
  - apply bind_ok_inv in H as (h & Hh & H). injection H as <-. eexists.
    split; [apply (validated _ _ _ _ _ _ Hh)|]. split; [by rewrite drop_app_exact by (by rewrite (hdr_length _ _ _ _ _ _ Hh))|]. done.
  - apply bind_ok_inv in H as (bs & Hb & H). apply bind_ok_inv in H as (h & Hh & H). injection H as <-. eexists _, _.
    split; [apply (validated _ _ _ _ _ _ Hh)|]. split; [by rewrite drop_app_exact by (by rewrite (hdr_length _ _ _ _ _ _ Hh))|].
    cbn [f_populated f_count f_record_size]. destruct (hash_table_inv (avhashes c)) as (k & Hk & Hs & Hlt & HT).
    split_and!; [done | lia | done|]. rewrite (concat_length_40 _ _ (slot_records _ _ Hsha Hb)), (t_len _ _ _ HT), Hs. unfold AVHASH_SIZE. lia.
Qed.

(** ** The probe *)

Definition zero_hash : bytes := replicate 32 0.
Lemma concat_slice (bs : list bytes) (i : nat) b : Forall (fun x => length x = 40%nat) bs -> bs !! i = Some b ->
  slice (Z.of_nat i * 40) (Z.of_nat i * 40 + 40) (concat bs) = b.
Proof.
  revert i; induction bs as [|x bs IH]; intros [|i] Hl H; [done..| |]; inversion Hl as [|? ? Hx Hl']; subst; cbn [concat].
  - cbn in H. injection H as <-. unfold slice. replace (Z.to_nat (Z.of_nat 0 * 40 + 40 - Z.of_nat 0 * 40)) with (length x) by lia.
    change (drop (Z.to_nat (Z.of_nat 0 * 40)) (x ++ concat bs)) with (x ++ concat bs). apply take_app_length.
  - rewrite slice_app_r by (unfold blen; lia). unfold blen. rewrite Hx. rewrite <- (IH i Hl' H). f_equal; lia.
Qed.
Lemma lookup_loop_slots k (Hk : 0 <= k) raw h bs t sha :
  raw = h ++ concat bs -> length h = 36%nat -> Forall2 (fun o b => slot_record o = Ok b /\ length b = 40%nat) t bs ->
  length t = Z.to_nat (2 ^ k) -> Forall (fun o => match o with Some e => length (h_sha e) = 32%nat /\ h_sha e <> zero_hash | None => True end) t ->
  forall fuel b, 0 <= b < 2 ^ k -> lookup_loop fuel raw (2 ^ k) b sha = find_slot k fuel t b sha.
Proof.
  intros -> Hh Hbs Hlen Hwf. induction fuel as [|fuel IH]; intros b Hb; [done|]. cbn [lookup_loop find_slot].
  destruct (lookup_lt_is_Some_2 t (Z.to_nat b)) as [o Ho]; [lia|].
  destruct (Forall2_lookup_l _ _ _ _ _ Hbs Ho) as (r & Hr & Hrec & Hrl).
  assert (slice (HDR_SIZE + b * AVHASH_SIZE) (HDR_SIZE + b * AVHASH_SIZE + AVHASH_SIZE) (h ++ concat bs) = r) as ->.
  { unfold HDR_SIZE, AVHASH_SIZE. rewrite slice_app_r by (unfold blen; lia). rewrite <- (concat_slice bs (Z.to_nat b) r); [|
      apply Forall_forall; intros x Hx; apply list_elem_of_lookup in Hx as [j Hj]; by destruct (Forall2_lookup_r _ _ _ _ _ Hbs Hj) as (? & _ & _ & ?) | done].
    unfold blen. f_equal; lia. }
  assert (at_ t b = o) as Hat by (unfold at_; by rewrite nth_lookup, Ho). rewrite Hat.
  apply (Forall_lookup_1 _ _ _ _ Hwf) in Ho. destruct o as [e|]; cbn [slot_record] in Hrec.
  - destruct Ho as [He Hz]. apply bind_ok_inv in Hrec as (f & _ & Hrec). injection Hrec as <-. 
    assert (take 32 (h_sha e ++ f) = h_sha e) as -> by (by apply take_app_length').
    rewrite bool_decide_eq_false_2 by done. destruct (bool_decide _); [done|]. rewrite (land_mod k Hk). apply IH, Z.mod_pos_bound, m_pos, Hk.
  - injection Hrec as <-. by rewrite bool_decide_eq_true_2.
Qed.

(** C30. The written hash table answers membership.  For entries with 32-byte digests other than the digest of zeros, the bytes of the
    file, probed as the reader in the module's self test does from the slot the digest selects, report a digest exactly
    when it was entered, however the digests collide; the table always has a free slot, so building it and probing end. *)
Theorem avhash_lookup_exact c raw sha :
  Forall (fun e => length (h_sha e) = 32%nat /\ h_sha e <> zero_hash) (avhashes c) -> _pack_avhash crc32 now c = Ok raw ->
  avhash_lookup raw sha = Ok (bool_decide (sha ∈ h_sha <$> avhashes c)).
Proof.
  intros Hwf H. apply bind_ok_inv in H as (bs & Hb & H). apply bind_ok_inv in H as (h & Hh & H). injection H as <-.
  unfold avhash_lookup. rewrite (hdr_parse _ _ _ _ _ _ (concat bs) Hh). cbn [mbind result_bind f_count]. f_equal.
  destruct (hash_table_inv (avhashes c)) as (k & Hk & Hs & Hlt & HT). rewrite Hs.
  assert (0 <= bucket_of sha (2 ^ k) < 2 ^ k) as Hbk by (unfold bucket_of; rewrite (land_mod k Hk); apply Z.mod_pos_bound, (m_pos k Hk)).
  rewrite (lookup_loop_slots k Hk _ h bs (hash_table (avhashes c)) sha eq_refl (hdr_length _ _ _ _ _ _ Hh)); try done.
  - apply eq_bool_prop_intro. rewrite bool_decide_spec. split.
    + intros Hf%Is_true_true. apply find_slot_sound with (l := avhashes c) in Hf as (e & He & <-); try done. by apply list_elem_of_fmap_2.
    + intros (e & -> & He)%list_elem_of_fmap. apply Is_true_true. destruct (t_complete _ _ _ HT e He) as (p & Hp & Hpe).
      destruct (t_sound _ _ _ HT p e Hp Hpe) as [_ Ho]. apply (find_slot_complete k Hk _ p e); try done.
      pose proof (dist_range k Hk (bucket_of (h_sha e) (2 ^ k)) p). lia.
  - apply slot_records; [|done]. eapply Forall_impl; [exact Hwf|]. by intros e [? _].
  - apply HT.
  - apply Forall_forall. intros [e|] Ho; [|done]. apply list_elem_of_lookup in Ho as [i Hi]. pose proof (lookup_lt_Some _ _ _ Hi) as Hil.
    rewrite (t_len _ _ _ HT) in Hil. destruct (t_sound _ _ _ HT (Z.of_nat i) e) as [Hin _]; [lia | unfold at_; by rewrite Nat2Z.id, nth_lookup, Hi|].
    rewrite Forall_forall in Hwf. by apply Hwf.
Qed.
End Tables.

(** ** Pattern numbers and names *)

Definition named (c : compiler) (idx : Z) (s : pystr) : Prop :=
  0 <= idx <= 65534 /\ exists post, drop (Z.to_nat idx) (strings c) = encode_ignore s ++ 0 :: post.
(** The index of a name: none for an empty name or a full blob. *)
Definition name_ok (c : compiler) (idx : Z) (s : pystr) : Prop := idx = 65535 \/ named c idx s.

Record ready (c : compiler) : Prop := {
  r_next : _next_id c = Z.of_nat (length (patmetas c));
  r_len : length (hspat c) = length (patmetas c);
  r_pat : forall (i : nat) p, hspat c !! i = Some p -> p.1.1 = Z.of_nat i;
  r_meta : forall (i : nat) m, patmetas c !! i = Some m -> pat_id m = Z.of_nat i;
  r_str : forall s off, dget s (_str_index c) = Some off -> named c off s }.

(** What later additions keep. *)
Definition same_entry (m m' : patmeta) : Prop :=
  pat_id m' = pat_id m /\ action m' = action m /\ src_sid m' = src_sid m /\ name_idx m' = name_idx m /\
  min_offset m' = min_offset m /\ max_offset m' = max_offset m.
Record grows (c c' : compiler) : Prop := {
  g_pat : exists x, hspat c' = hspat c ++ x;
  g_str : exists x, strings c' = strings c ++ x;
  g_hash : exists x, avhashes c' = avhashes c ++ x;
  g_meta : forall (i : nat) m, patmetas c !! i = Some m -> exists m', patmetas c' !! i = Some m' /\ same_entry m m' }.

Lemma same_refl m : same_entry m m.
Proof. by split_and!. Qed.
Lemma same_trans a b c : same_entry a b -> same_entry b c -> same_entry a c.
Proof. unfold same_entry. intuition congruence. Qed.
Lemma grows_refl c : grows c c.
Proof. split; [by exists []; rewrite app_nil_r..|]. intros i m H. by exists m. Qed.
Lemma grows_trans a b c : grows a b -> grows b c -> grows a c.
Proof.
  intros [[x1 A1] [x2 A2] [x3 A3] A4] [[y1 B1] [y2 B2] [y3 B3] B4].
  split; [exists (x1 ++ y1); by rewrite B1, A1, app_assoc | exists (x2 ++ y2); by rewrite B2, A2, app_assoc | exists (x3 ++ y3); by rewrite B3, A3, app_assoc|].
  intros i m Hm. destruct (A4 i m Hm) as (m1 & H1 & S1). destruct (B4 i m1 H1) as (m2 & H2 & S2). exists m2. split; [done | by eapply same_trans].
Qed.
Lemma named_grows c c' idx s : grows c c' -> named c idx s -> named c' idx s.
Proof.
  intros [_ [x Hx] _ _] [Hi [post Hp]]. split; [done|]. exists (post ++ x). rewrite Hx, drop_app_le, Hp; [by rewrite <- app_assoc|].
  apply (f_equal length) in Hp. rewrite length_drop, length_app in Hp. cbn in Hp. lia.
Qed.
Lemma name_ok_grows c c' idx s : grows c c' -> name_ok c idx s -> name_ok c' idx s.
Proof. intros Hg [->|H]; [by left | right; by eapply named_grows]. Qed.

Lemma intern_spec s c : ready c ->
  ready (_intern s c).2 /\ grows c (_intern s c).2 /\ name_ok (_intern s c).2 (_intern s c).1 s /\
  patmetas (_intern s c).2 = patmetas c /\ hspat (_intern s c).2 = hspat c /\ avhashes (_intern s c).2 = avhashes c /\ _next_id (_intern s c).2 = _next_id c.
Proof.
  intros R. destruct (decide (s = [])) as [->|Hs]; [cbn; split_and!; try done; [apply grows_refl | by left]|].
  assert (_intern s c = match dget s (_str_index c) with Some off => (off, c) | None => _ end) as -> by (by destruct s).
  destruct (dget s (_str_index c)) as [off|] eqn:E; [cbn; split_and!; try done; [apply grows_refl | right; by apply R]|].
  destruct (65534 <? blen (strings c)) eqn:El; [cbn; split_and!; try done; [apply grows_refl | by left]|].
  cbn [fst snd patmetas hspat avhashes _next_id].
  match goal with |- ready ?c' /\ _ => set (c1 := c') end.
  assert (grows c c1) as Hg.
  { split; [by exists []; rewrite app_nil_r | by eexists | by exists []; rewrite app_nil_r|]. intros i m Hm. exists m. split; [done | apply same_refl]. }
  assert (named c1 (blen (strings c)) s) as Hn.
  { split; [unfold blen in *; bool_lia|]. exists []. unfold c1. cbn [strings]. unfold blen. rewrite Nat2Z.id. by rewrite drop_app_length. }
  split_and!; try done; [|by right]. destruct R as [R1 R2 R3 R4 R5]. split; try done. intros t off. unfold c1 at 1. cbn [_str_index]. rewrite dget_app.
  destruct (dget t (_str_index c)) as [o|] eqn:Et; [intros [= <-]; eapply named_grows; [exact Hg | by apply R5]|].
  cbn. case_decide; [|done]. intros [= <-]. by subst.
Qed.

Lemma add_pattern_spec pcre a c : ready c ->
  let r := _add_pattern pcre a c in
  ready r.2 /\ grows c r.2 /\ r.1 = _next_id c /\
  (exists fl, hspat r.2 !! Z.to_nat r.1 = Some (r.1, pcre, fl)) /\
  (exists m, patmetas r.2 !! Z.to_nat r.1 = Some m /\ action m = a_action a /\ src_sid m = Z.land (a_sid a) 65535 /\
     min_offset m = a_min a /\ max_offset m = a_max a /\ name_ok r.2 (name_idx m) (a_name a)).
Proof.
  intros R. cbv zeta. unfold _add_pattern. destruct (intern_spec (a_name a) c R) as (R' & G & N & Em & Eh & Ea & En).
  destruct (_intern (a_name a) c) as [idx c1]. cbn [fst snd] in *.
  match goal with |- ready ?c' /\ _ => set (c2 := c') end.
  assert (grows c1 c2) as Hg2.
  { split; unfold c2; cbn; [by eexists | by exists []; rewrite app_nil_r | by exists []; rewrite app_nil_r|].
    intros i m Hm. exists m. split; [by apply lookup_app_l_Some | apply same_refl]. }
  assert (grows c c2) as Hg by (by eapply grows_trans).
  destruct R as [R1 R2 R3 R4 R5]. destruct R' as [_ _ _ _ S5].
  assert (length (hspat c1) = Z.to_nat (_next_id c)) as Hl by (rewrite Eh, R2, R1; lia).
  split_and!; try done.
  - split; unfold c2; cbn [_next_id patmetas hspat strings _str_index].
    + rewrite length_app, Em, R1. cbn. lia.
    + rewrite !length_app, Em, Eh, R2. done.
    + intros i p [H|[Hi H]]%lookup_app_Some; [apply R3; by rewrite <- Eh|]. destruct (i - length (hspat c1))%nat as [|j] eqn:Ej; [|done].
      injection H as <-. cbn. lia.
    + intros i m [H|[Hi H]]%lookup_app_Some; [apply R4; by rewrite <- Em|]. destruct (i - length (patmetas c1))%nat as [|j] eqn:Ej; [|done].
      injection H as <-. cbn. rewrite Em in *. rewrite R1. lia.
    + intros s off Hs. eapply (named_grows c1 c2); [done | by apply S5].
  - eexists. unfold c2. cbn [hspat]. by rewrite lookup_app_r, Hl, Nat.sub_diag by lia.
  - eexists. split; [unfold c2; cbn [patmetas]; rewrite lookup_app_r by (rewrite Em, R1; lia);
      replace (Z.to_nat (_next_id c) - length (patmetas c1))%nat with 0%nat by (rewrite Em, R1; lia); reflexivity|].
    cbn. by split_and!.
Qed.

(** ** Every signature is there *)

(** The entries of the files that stand for a signature. *)
Definition pattern_for (c : compiler) (s : sig) (pcre : pystr) : Prop :=
  exists (i : nat) fl m, hspat c !! i = Some (Z.of_nat i, pcre, fl) /\ patmetas c !! i = Some m /\ pat_id m = Z.of_nat i /\
    action m = s_action s /\ src_sid m = Z.land (s_id s) 65535 /\ name_ok c (name_idx m) (s_name s).
Definition represents (c : compiler) (s : sig) : Prop :=
  match s_body s with
  | SHash ht hv size => ht = lit "sha256" -> forall h, from_hex hv = Some h -> length h = 32%nat ->
      exists e, e ∈ avhashes c /\ h_sha e = h /\ h_size e = size /\ h_action e = s_action s /\ name_ok c (h_name e) (s_name s)
  | SPattern hex _ => exists pcre, hexsig_to_pcre hex = Ok pcre /\ pattern_for c s pcre
  | SYara strs _ => forall kv, kv ∈ strs -> exists data, yara_string kv.2 = Ok data /\ pattern_for c s (bytes_pcre data)
  end.
Lemma pattern_for_grows c c' s pcre : grows c c' -> pattern_for c s pcre -> pattern_for c' s pcre.
Proof.
  intros G (i & fl & m & H1 & H2 & H3 & H4 & H5 & H6). pose proof G as [[x Hx] _ _ Hm]. destruct (Hm i m H2) as (m' & H2' & E1 & E2 & E3 & E4 & _).
  exists i, fl, m'. rewrite Hx, E1, E2, E3, E4. split_and!; try done; [by apply lookup_app_l_Some | by eapply name_ok_grows].
Qed.
Lemma represents_grows c c' s : grows c c' -> represents c s -> represents c' s.
Proof.
  intros G. unfold represents. destruct (s_body s) as [ht hv size|hex off|strs cond].
  - intros H Ht h Hh Hl. destruct (H Ht h Hh Hl) as (e & He & ?). exists e. pose proof G as [_ _ [x Hx] _].
    split; [rewrite Hx; apply elem_of_app; by left|]. intuition. by eapply name_ok_grows.
  - intros (pcre & ? & ?). exists pcre. split; [done | by eapply pattern_for_grows].
  - intros H kv Hkv. destruct (H kv Hkv) as (d & ? & ?). exists d. split; [done | by eapply pattern_for_grows].
Qed.
Lemma add_pattern_for pcre s fl org mn mx hc gr c : ready c ->
  let r := _add_pattern pcre (sig_args s fl org mn mx hc gr) c in ready r.2 /\ grows c r.2 /\ r.1 = _next_id c /\ pattern_for r.2 s pcre.
Proof.
  intros R r. destruct (add_pattern_spec pcre (sig_args s fl org mn mx hc gr) c R) as (R' & G & E & (f & Hp) & (m & Hm & A1 & A2 & _ & _ & A5)).
  split_and!; try done. exists (Z.to_nat (_next_id c)), f, m. fold r in Hp, Hm, E. rewrite E in *.
  assert (0 <= _next_id c) as Hn by (rewrite (r_next _ R); lia).
  split_and!; try done; [by rewrite Z2Nat.id | by apply (r_meta _ R')].
Qed.

Lemma add_sub_spec s val st st' : ready st.1 -> add_sub s st val = Ok st' ->
  ready st'.1 /\ grows st.1 st'.1 /\ exists data, yara_string val = Ok data /\ pattern_for st'.1 s (bytes_pcre data).
Proof.
  destruct st as [c ids]. cbn [fst]. intros R H. unfold add_sub in H. apply bind_ok_inv in H as (data & Hd & H).
  destruct (add_pattern_for (bytes_pcre data) s [81] ORIGIN_YARA_SUB 0 0 0 (Z.land (s_id s) 65535) c R) as (R' & G & _ & P).
  destruct (_add_pattern _ _ c) as [pid c1]. injection H as <-. cbn [fst snd] in *. split_and!; try done. exists data. split; [|done].
  unfold yara_string. unfold fromhex in Hd. destruct (starts _ val); [destruct (from_hex _); [by injection Hd as -> | done] | by injection Hd as ->].
Qed.
Lemma add_subs_spec s vals : forall st st', ready st.1 -> foldM_res (add_sub s) st vals = Ok st' ->
  ready st'.1 /\ grows st.1 st'.1 /\ forall v, v ∈ vals -> exists data, yara_string v = Ok data /\ pattern_for st'.1 s (bytes_pcre data).
Proof.
  induction vals as [|v vals IH]; intros st st' R H; cbn [foldM_res] in H.
  - injection H as <-. split_and!; [done | apply grows_refl | intros v ?%elem_of_nil; done].
  - apply bind_ok_inv in H as (st1 & H1 & H). destruct (add_sub_spec s v st st1 R H1) as (R1 & G1 & d & Hd & P1).
    destruct (IH st1 st' R1 H) as (R2 & G2 & P2). split_and!; [done | by eapply grows_trans|].
    intros x [->|Hx]%elem_of_cons; [exists d; split; [done | by eapply pattern_for_grows] | by apply P2].
Qed.
Lemma confirm_spec c ids : ready c ->
  ready (with_metas (fold_left (fun l i => alter confirm_meta (Z.to_nat i) l) ids (patmetas c)) c) /\
  grows c (with_metas (fold_left (fun l i => alter confirm_meta (Z.to_nat i) l) ids (patmetas c)) c).
Proof.
  intros R. assert (forall l, length (fold_left (fun l i => alter confirm_meta (Z.to_nat i) l) ids l) = length l /\
    forall (i : nat) m, l !! i = Some m -> exists m', fold_left (fun l i => alter confirm_meta (Z.to_nat i) l) ids l !! i = Some m' /\ same_entry m m') as H.
  { clear. induction ids as [|j ids IH]; intros l; cbn [fold_left]; [split; [done|]; intros i m Hm; exists m; split; [done | apply same_refl]|].
    destruct (IH (alter confirm_meta (Z.to_nat j) l)) as [IH1 IH2]. split; [by rewrite IH1, length_alter|]. intros i m Hm.
    destruct (decide (i = Z.to_nat j)) as [->|Hne].
    - destruct (IH2 (Z.to_nat j) (confirm_meta m)) as (m' & H1 & H2); [by rewrite list_lookup_alter_eq, Hm|].
      exists m'. split; [done|]. eapply same_trans; [|exact H2]. by split_and!.
    - apply IH2. by rewrite list_lookup_alter_ne. }
  destruct (H (patmetas c)) as [H1 H2]. destruct R as [R1 R2 R3 R4 R5]. split.
  - split; unfold with_metas; cbn [_next_id patmetas hspat strings _str_index]; [by rewrite H1 | by rewrite H1 | done | | done].
    intros i m' Hm'. assert (i < length (patmetas c))%nat as Hi by (rewrite <- H1; by eapply lookup_lt_Some).
    destruct (lookup_lt_is_Some_2 _ _ Hi) as [m Hm]. destruct (H2 i m Hm) as (m'' & He & E1 & _). rewrite Hm' in He. injection He as <-.
    rewrite E1. by apply R4.
  - split; unfold with_metas; cbn; [by exists []; rewrite app_nil_r..|]. done.
Qed.

Lemma load_yara_spec s strs cond c c' : ready c -> s_body s = SYara strs cond -> _load_yara s strs cond c = Ok c' ->
  ready c' /\ grows c c' /\ represents c' s.
Proof.
  intros R Hb H. unfold _load_yara in H. apply bind_ok_inv in H as ([c1 ids] & Hs & H).
  destruct (add_subs_spec s (map snd strs) (c, []) (c1, ids) R Hs) as (R1 & G1 & P1). cbn [fst] in *.
  assert (represents c1 s) as P.
  { unfold represents. rewrite Hb. intros kv Hkv. apply P1. apply list_elem_of_fmap. by exists kv. }
  assert (forall c2, ready c2 /\ grows c1 c2 -> ready c2 /\ grows c c2 /\ represents c2 s) as Hk.
  { intros c2 [R2 G2]. split_and!; [done | by eapply grows_trans | by eapply represents_grows]. }
  destruct ids as [|i ids]; [injection H as <-; by split_and!|]. revert H.
  destruct (bool_decide _); [|destruct (bool_decide _)]; intros H; injection H as <-; apply Hk.
  - by destruct (add_pattern_for (combo_text " & " (i :: ids)) s [67] ORIGIN_YARA_COMBO 0 0 0 (Z.land (s_id s) 65535) c1 R1) as (? & ? & _).
  - by destruct (add_pattern_for (combo_text " | " (i :: ids)) s [67] ORIGIN_YARA_COMBO 0 0 0 (Z.land (s_id s) 65535) c1 R1) as (? & ? & _).
  - by apply (confirm_spec c1 (i :: ids)).
Qed.

Lemma load_av_spec st s st' : ready st.1 -> load_av st s = Ok st' -> ready st'.1 /\ grows st.1 st'.1 /\ represents st'.1 s.
Proof.
  destruct st as [c n]. cbn [fst]. intros R H. unfold load_av in H. destruct (s_body s) as [ht hv size|hex off|strs cond] eqn:Hb.
  - assert (forall st', @Ok db_error _ (c, n) = Ok st' -> represents c s -> ready st'.1 /\ grows c st'.1 /\ represents st'.1 s) as Hsame.
    { intros st1 [= <-] Hr. split_and!; [done | apply grows_refl | done]. }
    destruct (bool_decide (ht = lit "sha256")) eqn:Et; cbn [negb] in H.
    2: { apply Hsame; [done|]. unfold represents. rewrite Hb. intros ->. by apply bool_decide_eq_false in Et. }
    destruct (from_hex hv) as [h|] eqn:Eh; [|apply Hsame; [done|]; unfold represents; rewrite Hb; intros _ h; congruence].
    destruct (length h =? 32)%nat eqn:El; cbn [negb] in H.
    2: { apply Hsame; [done|]. unfold represents. rewrite Hb. intros _ h' Hh Hl. rewrite Eh in Hh. injection Hh as <-. by rewrite Hl in El. }
    destruct (intern_spec (s_name s) c R) as (R1 & G1 & N1 & _). destruct (_intern (s_name s) c) as [idx c1]. cbn [fst snd] in *. injection H as <-.
    cbn [fst]. match goal with |- ready (add_avhash ?e c1) /\ _ => set (ent := e) end.
    assert (grows c1 (add_avhash ent c1)) as G2.
    { split; unfold add_avhash; cbn; [by exists []; rewrite app_nil_r | by exists []; rewrite app_nil_r | by eexists |]. intros i m Hm. exists m. split; [done | apply same_refl]. }
    split_and!; [destruct R1; by split | by eapply grows_trans|]. unfold represents. rewrite Hb. intros _ h' Hh _. rewrite Eh in Hh. injection Hh as <-.
    exists ent. split; [apply elem_of_app; right; by left|]. by split_and!.
  - apply bind_ok_inv in H as (pcre & Hp & H). apply bind_ok_inv in H as ([[mn mx] hc] & _ & H).
    destruct (add_pattern_for pcre s (if hc =? 0 then [] else [80]) ORIGIN_AV_NDB mn mx hc 65535 c R) as (R1 & G1 & _ & P1).
    destruct (_add_pattern _ _ c) as [pid c1]. injection H as <-. cbn [fst snd] in *. split_and!; try done. unfold represents. rewrite Hb. by exists pcre.
  - apply bind_ok_inv in H as (c1 & Hy & H). injection H as <-. cbn [fst]. by eapply load_yara_spec.
Qed.

Lemma load_avs_spec sigs : forall st st', ready st.1 -> foldM_res load_av st sigs = Ok st' ->
  ready st'.1 /\ grows st.1 st'.1 /\ forall s, s ∈ sigs -> represents st'.1 s.
Proof.
  induction sigs as [|x sigs IH]; intros st st' R H; cbn [foldM_res] in H.
  - injection H as <-. split_and!; [done | apply grows_refl | intros s ?%elem_of_nil; done].
  - apply bind_ok_inv in H as (st1 & H1 & H). destruct (load_av_spec st x st1 R H1) as (R1 & G1 & P1).
    destruct (IH st1 st' R1 H) as (R2 & G2 & P2). split_and!; [done | by eapply grows_trans|].
    intros s [->|Hs]%elem_of_cons; [by eapply represents_grows | by apply P2].
Qed.
Lemma load_contents_spec rows : forall st, ready st.1 -> ready (fold_left load_content rows st).1.
Proof.
  induction rows as [|r rows IH]; intros [c n] R; [done|]. cbn [fold_left]. apply IH. unfold load_content.
  destruct (unhexlify (cs_hex r)) as [raw|]; [|done].
  match goal with |- context [_add_pattern ?p ?a c] => destruct (add_pattern_spec p a c R) as (R' & _); destruct (_add_pattern p a c) end. done.
Qed.
Lemma ready_new : ready new_compiler.
Proof. by split. Qed.

(** The pattern file and its data agree, and no signature is lost.  After loading any stream signatures and any file
    signatures without an error, pattern [i] of the pattern file has the number [i] and record [i] of the per-pattern
    table is the one that names it; and each file signature is there: a SHA-256 entry, an expression, or the
    expressions of all strings of a rule, each with the action and id of its row, and a name index that is either none or
    points at the row's name, ended by a zero byte, in the final blob. *)
Theorem signatures_compiled rows sigs c n :
  load_av_signatures sigs (load_content_signatures rows new_compiler).1 = Ok (c, n) ->
  length (hspat c) = length (patmetas c) /\
  (forall (i : nat) p m, hspat c !! i = Some p -> patmetas c !! i = Some m -> p.1.1 = Z.of_nat i /\ pat_id m = Z.of_nat i) /\
  forall s, s ∈ sigs -> represents c s.
Proof.
  intros H. destruct (load_avs_spec sigs (_, _) (c, n) (load_contents_spec rows (new_compiler, 0) ready_new) H) as ([R1 R2 R3 R4 _] & _ & P).
  split_and!; [done | | done]. intros i p m Hp Hm. split; [by apply R3 | by apply R4].
Qed.

(** ** The same expression as the scanner *)

(** Signatures both compilers read alike: gap numbers in shortest decimal form, alternatives of whole bytes. *)
Definition canonical (s : pystr) : bool := match int10 s with Ok n => bool_decide (fmtd n = s) | Err _ => false end.
Definition plain_gap (spec : pystr) : bool :=
  match cut 45 (strip spec) with
  | Some (a, b) => (bool_decide (a = []) || canonical a) && (bool_decide (b = []) || canonical b)
  | None => canonical (strip spec)
  end.
Fixpoint plain_alt (s : pystr) : bool :=
  match s with
  | [] => true
  | c :: d :: t => is_hex c && is_hex d && plain_alt t
  | _ => false
  end.
Definition plain_step (c : Z) (t : pystr) : bool :=
  if c =? 123 then match index 125 t with Ok p => plain_gap p.1 | Err _ => true end
  else if c =? 40 then match index 41 t with Ok p => forallb plain_alt (split_on 124 p.1) | Err _ => true end
  else true.
Fixpoint plain_loop (fuel : nat) (s : pystr) : bool :=
  match fuel, s with
  | S k, c :: t => plain_step c t && match hexsig_step c t with Ok p => plain_loop k p.2 | Err _ => true end
  | _, _ => true
  end.
Definition plain (hexsig : pystr) : bool := plain_loop (length (unspaced hexsig)) (unspaced hexsig).

Lemma canonical_text s n : canonical s = true -> int10 s = Ok n -> fmtd n = s.
Proof. unfold canonical. intros H E. rewrite E in H. by apply bool_decide_eq_true in H. Qed.
Lemma gap_same spec f : plain_gap spec = true -> _gap_re spec = Ok f -> gap_text (strip spec) = frag_text f.
Proof.
  unfold plain_gap, _gap_re, gap_text. destruct (cut 45 (strip spec)) as [[a b]|].
  - intros [Ha Hb]%andb_true_iff H. apply bind_ok_inv in H as (x & Hx & H).
    assert (fmtd x = match a with [] => lit "0" | _ => a end) as Ex.
    { destruct a as [|a0 a]; [cbn in Hx; by injection Hx as <-|]. apply canonical_text; [|done].
      apply orb_true_iff in Ha as [Ha|Ha]; [by apply bool_decide_eq_true in Ha | done]. }
    destruct b as [|b0 b]; [injection H as <-; cbn [frag_text]; by rewrite Ex|].
    apply bind_ok_inv in H as (y & Hy & H). injection H as <-. cbn [frag_text]. rewrite Ex, (canonical_text (b0 :: b) y); [done | | done].
    apply orb_true_iff in Hb as [Hb|Hb]; [by apply bool_decide_eq_true in Hb | done].
  - intros Hc H. apply bind_ok_inv in H as (x & Hx & H). injection H as <-. cbn [frag_text]. by rewrite (canonical_text _ x Hc Hx).
Qed.
Lemma hex_bytes c d : is_hex c = true -> is_hex d = true ->
  exists x y, hex_digit_value c = Some x /\ hex_digit_value d = Some y /\ _pair_re [c; d] = Ok (TByte (16 * x + y)).
Proof.
  assert (forallb (fun c => forallb (fun d => match hex_digit_value c, hex_digit_value d, _pair_re [c; d] with
     | Some x, Some y, Ok (TByte m) => m =? 16 * x + y | _, _, _ => false end)
     (lit "0123456789abcdefABCDEF")) (lit "0123456789abcdefABCDEF") = true) as H by (vm_compute; reflexivity).
  assert (forall x, is_hex x = true -> List.In x (lit "0123456789abcdefABCDEF")) as Hin.
  { intros x Hx. apply is_hex_cases in Hx. cbn. lia. }
  intros Hc Hd. rewrite List.forallb_forall in H. specialize (H c (Hin c Hc)). cbv beta in H.
  rewrite List.forallb_forall in H. specialize (H d (Hin d Hd)). cbv beta in H.
  destruct (hex_digit_value c) as [x|]; [|done]. destruct (hex_digit_value d) as [y|]; [|done]. exists x, y. split_and!; [done..|].
  destruct (_pair_re [c; d]) as [[]|]; try done. by apply Z.eqb_eq in H as ->.
Qed.
Lemma alt_same n : forall s, (length s <= n)%nat -> plain_alt s = true ->
  exists b ts, unhexlify s = Ok b /\ _alt_re s = Ok ts /\ bytes_pcre b = toks_text ts.
Proof.
  induction n as [|n IH]; intros [|c [|d s]] Hl; try done; cbn [length] in Hl; try lia; [by exists [], []..|].
  cbn [plain_alt]. intros [[Hc Hd]%andb_true_iff Hs]%andb_true_iff. destruct (hex_bytes c d Hc Hd) as (x & y & Ex & Ey & Ep).
  destruct (IH s) as (b & ts & H1 & H2 & H3); [lia | done|]. exists (16 * x + y :: b), (TByte (16 * x + y) :: ts).
  cbn [unhexlify _alt_re]. rewrite Ex, Ey, Ep, H1, H2. split_and!; [done..|]. unfold bytes_pcre, toks_text in *. cbn [map concat tok_text]. by rewrite H3.
Qed.
Lemma alts_same l : forallb plain_alt l = true ->
  exists bs tss, mapM_res unhexlify l = Ok bs /\ mapM_res _alt_re l = Ok tss /\ map bytes_pcre bs = map toks_text tss.
Proof.
  induction l as [|s l IH]; [by exists [], []|]. cbn [forallb]. intros [Hs Hl]%andb_true_iff.
  destruct (alt_same (length s) s (Nat.le_refl _) Hs) as (b & ts & H1 & H2 & H3). destruct (IH Hl) as (bs & tss & H4 & H5 & H6).
  exists (b :: bs), (ts :: tss). cbn [mapM_res map]. by rewrite H1, H2, H4, H5, H3, H6.
Qed.
Lemma pair_same c d x : _pair_re [c; d] = Ok x -> _nibble_class c d = Ok (tok_text x).
Proof.
  cbn [_pair_re]. unfold _nibble_class. destruct (quest c && quest d); [by intros [= <-]|].
  destruct (quest c); [|destruct (quest d)]; intros H; apply bind_ok_inv in H as (n & Hn & H); injection H as <-; by rewrite Hn.
Qed.
Lemma step_same c t p : plain_step c t = true -> hexsig_step c t = Ok p -> pcre_step c t = Ok (frag_text p.1, p.2).
Proof.
  unfold plain_step, hexsig_step, pcre_step. intros Hp H. destruct (c =? 42); [by injection H as <-|].
  destruct (c =? 123).
  { apply bind_ok_inv in H as (q & Hq & H). apply bind_ok_inv in H as (f & Hf & H). injection H as <-. rewrite Hq in *. cbn [lift_hex mbind result_bind].
    by rewrite (gap_same _ _ Hp Hf). }
  destruct (c =? 40).
  { apply bind_ok_inv in H as (q & Hq & H). apply bind_ok_inv in H as (tss & Ht & H). injection H as <-. rewrite Hq in *. cbn [lift_hex mbind result_bind].
    destruct (alts_same _ Hp) as (bs & tss' & H1 & H2 & H3). rewrite H1. rewrite Ht in H2. injection H2 as <-. cbn [mbind result_bind frag_text fst]. by rewrite H3. }
  destruct (c =? 91).
  { apply bind_ok_inv in H as (q & Hq & H). apply bind_ok_inv in H as (r & Hr & H). injection H as <-. rewrite Hq. cbn [lift_hex mbind result_bind].
    unfold range_re in Hr. destruct (default (q.1, []) (cut 45 q.1)) as [lo hi]. apply bind_ok_inv in Hr as (x & Hx & Hr).
    apply bind_ok_inv in Hr as (y & Hy & Hr). injection Hr as <-. by rewrite Hx, Hy. }
  destruct t as [|d t]; [done|]. apply bind_ok_inv in H as (x & Hx & H). injection H as <-. by rewrite (pair_same _ _ _ Hx).
Qed.

(** The packet path and the scanner look for the same thing.  For a signature that the scanner can read and whose gaps
    and alternatives are written plainly, the expression written to the pattern file is, character for
    character, the text the scanner compiles. *)
Theorem pcre_mirrors_scanner hexsig frs :
  plain hexsig = true -> hexsig_frags hexsig = Ok frs -> hexsig_to_pcre hexsig = Ok (concat (map frag_text frs)).
Proof.
  unfold plain, hexsig_frags, hexsig_to_pcre. generalize (unspaced hexsig) as s. intros s. generalize (length s) as fuel. intros fuel.
  revert s frs. induction fuel as [|fuel IH]; intros s frs Hp H; [by destruct s; injection H as <-|].
  destruct s as [|c t]; [by injection H as <-|]. cbn [hexsig_loop plain_loop pcre_loop] in *. apply bind_ok_inv in H as (p & Hs & H).
  apply bind_ok_inv in H as (r & Hr & H). injection H as <-. rewrite Hs in Hp. apply andb_true_iff in Hp as [Hp1 Hp2].
  rewrite (step_same _ _ _ Hp1 Hs). cbn [mbind result_bind snd fst]. by rewrite (IH _ _ Hp2 Hr).
Qed.

(** A row with a wildcard inside an alternative is compiled by the scanner, and stops the build of the packet path. *)
Lemma alternative_stops_build s off pre post c : s_body s = SPattern (lit "90(4?|5a)") off ->
  (exists rx, compile_hexsig (lit "90(4?|5a)") = Ok (Some rx)) /\ exists e, load_av_signatures (pre ++ s :: post) c = Err e.
Proof.
  intros Hb. split.
  - destruct (compile_hexsig (lit "90(4?|5a)")) as [[rx|]|] eqn:E; [by exists rx | vm_compute in E; discriminate..].
  - unfold load_av_signatures. rewrite foldM_res_app. destruct (foldM_res load_av _ pre) as [[c1 n1]|e]; cbn [mbind result_bind]; [|by exists e].
    cbn [foldM_res]. assert (load_av (c1, n1) s = Err ValueErr) as ->; [|by eexists]. unfold load_av. rewrite Hb.
    assert (hexsig_to_pcre (lit "90(4?|5a)") = Err ValueErr) as -> by (vm_compute; reflexivity). done.
Qed.

(** ** The digest of zeros *)

Lemma lookup_zero fuel raw slots : forall bucket, lookup_loop fuel raw slots bucket zero_hash = false.
Proof.
  induction fuel as [|k IH]; intros bucket; cbn [lookup_loop]; [done|]. unfold zero_hash in *.
  destruct (bool_decide (_ = _)) eqn:E; [done | apply IH].
Qed.

Definition zero_row (i : Z) (digest : pystr) : sig :=
  {| s_id := i; s_name := lit "Zero"; s_family := None; s_target := lit "any"; s_severity := lit "high"; s_verdict := lit "malware";
     s_action := 2; s_body := SHash (lit "sha256") digest 0 |}.
(** A digest that selects the same slot as the digest of zeros. *)
Definition beside_zero : bytes := replicate 31 0 ++ [7].

Definition zero_table : result db_error (compiler * counts) :=
  load_av_signatures [zero_row 1 (hex zero_hash); zero_row 2 (hex beside_zero)] new_compiler.

(** The loader takes a hash row with the digest of zeros and counts it, but the table has no way to hold it: no file of
    any content reports that digest, and a row loaded after it whose digest selects the same slot is not found either,
    because its chain is cut there. *)
Theorem zero_digest_lost :
  (forall raw, avhash_lookup raw zero_hash <> Ok true) /\
  exists c n raw, zero_table = Ok (c, n) /\ n_hash n = 2 /\ h_sha <$> avhashes c = [zero_hash; beside_zero] /\
    _pack_avhash (fun _ => 0) 0 c = Ok raw /\ avhash_lookup raw beside_zero = Ok false.
Proof.
  split.
  - intros raw. unfold avhash_lookup. destruct (parse_header raw) as [h|]; [|done]. cbn [mbind result_bind]. by rewrite lookup_zero.
  - assert (match zero_table with
            | Ok (c, n) => bool_decide (n_hash n = 2 /\ h_sha <$> avhashes c = [zero_hash; beside_zero]) &&
                match _pack_avhash (fun _ => 0) 0 c with
                | Ok raw => match avhash_lookup raw beside_zero with Ok b => negb b | Err _ => false end
                | Err _ => false
                end
            | Err _ => false
            end = true) as H by (vm_compute; reflexivity).
    destruct zero_table as [[c n]|]; [|done]. apply andb_true_iff in H as [[H1 H2]%bool_decide_eq_true H].
    destruct (_pack_avhash _ _ c) as [raw|] eqn:Er; [|done]. exists c, n, raw. split_and!; [done..|].
    by destruct (avhash_lookup raw beside_zero) as [[]|].
Qed.

(** ** Witnesses *)

Definition demo_hash (n : Z) : avhash := {| h_sha := n :: replicate 31 7; h_size := 0; h_action := 2; h_severity := 3; h_name := 65535 |}.
Definition demo_hashes : compiler := add_avhash (demo_hash 9) (add_avhash (demo_hash 1) (add_avhash (demo_hash 17) new_compiler)).

Lemma avhash_lookup_witness : exists raw, _pack_avhash (fun _ => 0) 5 demo_hashes = Ok raw /\
  avhash_lookup raw (h_sha (demo_hash 9)) = Ok true /\ avhash_lookup raw (h_sha (demo_hash 25)) = Ok false.
Proof.
  assert (Forall (fun e => length (h_sha e) = 32%nat /\ h_sha e <> zero_hash) (avhashes demo_hashes)) as H.
  { repeat constructor; discriminate. }
  destruct (_pack_avhash (fun _ => 0) 5 demo_hashes) as [raw|] eqn:E; [|vm_compute in E; discriminate E].
  exists raw. split; [reflexivity|]. split.
  - rewrite (avhash_lookup_exact (fun _ => 0) 5 demo_hashes raw (h_sha (demo_hash 9)) H E). vm_compute. reflexivity.
  - rewrite (avhash_lookup_exact (fun _ => 0) 5 demo_hashes raw (h_sha (demo_hash 25)) H E). vm_compute. reflexivity.
Defined.

Definition demo_content : list content_sig :=
  [{| cs_hex := lit "6a6e6469"; cs_pcre := false; cs_nocase := true; cs_offset := Some 4; cs_depth := None; cs_action := 1; cs_severity := lit "high";
      cs_verdict := lit "malware"; cs_threat := None; cs_name := lit "Log4j"; cs_sid := 77 |}].
Lemma signatures_compiled_witness : exists c n,
  load_av_signatures demo_sigs (load_content_signatures demo_content new_compiler).1 = Ok (c, n) /\ forall s, s ∈ demo_sigs -> represents c s.
Proof.
  destruct (load_av_signatures demo_sigs (load_content_signatures demo_content new_compiler).1) as [[c n]|] eqn:E; [|vm_compute in E; discriminate E].
  exists c, n. split; [reflexivity|]. destruct (signatures_compiled demo_content demo_sigs c n E) as (_ & _ & H). exact H.
Defined.

Lemma pcre_mirrors_witness : exists frs, hexsig_frags (lit "4d5a??00{2-4}(90|91)4?") = Ok frs /\
  hexsig_to_pcre (lit "4d5a??00{2-4}(90|91)4?") = Ok (concat (map frag_text frs)).
Proof.
  destruct (hexsig_frags (lit "4d5a??00{2-4}(90|91)4?")) as [frs|] eqn:E; [|vm_compute in E; discriminate E].
  exists frs. split; [reflexivity|]. apply pcre_mirrors_scanner; [vm_compute; reflexivity | exact E].
Defined.
