(* ===== verification/PatchPackage.v ===== *)
(** * Patch packages

    The first half of [ffn_patch.py]: which names a patch may touch ([code_path]), where a name leads below a directory
    ([confined]), which releases the update server may offer ([PatchManager.verify]), and what an archive must hold
    to be taken ([unpack]).  The tar reader, [json.loads], the Python compiler, SHA-256 and the signature check are
    parameters; an exception is a [PatchError] with its text or any other exception.

    Main results: an accepted package changes only Python files of the installation directory and assets below
    [static/], each once and with the content its digest announces ([unpack_sound]); such a name stays below the
    directory it is joined to ([confined_code_path]); and the test for overlapping paths compares neighbours of the
    sorted list only, so that it accepts a package with a file below another file ([overlap_accepted]). *)

From S2P Require Import Prelude PyStr PyDict PyIp PyJson.

Inductive pexn := PatchError (message : string) | PyExn.

Definition MAX_BYTES : Z := 128 * 1024 * 1024.
Definition MAX_FILES : nat := 4096.
Definition SERVICES : list pystr := map lit ["ffn-controld.service"; "ffn-configd.service"; "ffn-manager-v2.service"]%string.

Definition word (c : Z) : bool := between 65 c 90 || between 97 c 122 || between 48 c 57 || (c =? 95).
Definition name_start (c : Z) : bool := word c || (c =? 45).
Definition name_char (c : Z) : bool := name_start c || (c =? 46) || (c =? 47).

Definition lower_ascii (s : pystr) : pystr := map (fun c => if between 65 c 90 then c + 32 else c) s.
Definition ends_with (t s : pystr) : bool := bool_decide (t `suffix_of` s).
Definition starts_with (t s : pystr) : bool := bool_decide (t `prefix_of` s).

(** [Path(name).suffix]: from the last dot of the last component, unless it is the first or last character. *)
Definition suffix (name : pystr) : pystr :=
  let base := List.last (split_on 47 name) [] in
  match rev (split_on 46 base) with
  | ext :: stem :: more => if (bool_decide (ext = []) || bool_decide (stem = [] /\ more = []))%bool then [] else 46 :: ext
  | _ => []
  end.
Definition ASSETS : list pystr :=
  map lit [".html"; ".css"; ".js"; ".json"; ".svg"; ".png"; ".ico"; ".woff"; ".woff2"]%string.

Definition dotted (p : pystr) : bool := bool_decide (p ∈ [[]; [46]; [46; 46]]).
Definition allowed (name : pystr) : bool :=
  let parts := split_on 47 name in
  ((length parts =? 1)%nat && ends_with (lit ".py") name) ||
  (bool_decide (head parts = Some (lit "static")) && bool_decide (lower_ascii (suffix name) ∈ ASSETS)).
Definition code_path (name : pystr) : result pexn pystr :=
  raise_if (negb ((length name <=? 200)%nat && match name with c :: t => name_start c && forallb name_char t | [] => false end))
    (PatchError "Invalid code path");;
  raise_if (existsb dotted (split_on 47 name)) (PatchError "Invalid code path");;
  raise_if (negb (allowed name)) (PatchError "Patches may contain only Python code and WebUI assets");;
  Ok name.

(** ** Where a name leads *)

(** An absolute path is the list of its components; [links] are the paths that are symbolic links. *)
Definition apath := list pystr.
Definition descend (cursor : apath) (part : pystr) : apath :=
  if bool_decide (part = [] \/ part = [46]) then cursor
  else if bool_decide (part = [46; 46]) then removelast cursor else cursor ++ [part].
Definition abspath (root : apath) (name : pystr) : apath :=
  fold_left descend (split_on 47 name) (if starts_with [47] name then [] else root).
Definition below (root target : apath) : bool := bool_decide (root `prefix_of` target /\ target <> root).
(** [Path(name).parts] of a relative name. *)
Definition parts (name : pystr) : list pystr := List.filter (fun p => negb (bool_decide (p = [] \/ p = [46]))) (split_on 47 name).
Fixpoint hops (links : list apath) (root cursor : apath) (l : list pystr) : result pexn unit :=
  match l with
  | [] => Ok tt
  | part :: t =>
      let cursor := descend cursor part in
      raise_if (negb (below root cursor)) (PatchError "Path outside installation");;
      raise_if (bool_decide (cursor ∈ links)) (PatchError "Symlink targets are not patchable");;
      hops links root cursor t
  end.
Definition confined (links : list apath) (root : apath) (name : pystr) : result pexn apath :=
  let target := abspath root name in
  raise_if (negb (below root target)) (PatchError "Path outside installation");;
  hops links root root (parts name);;
  Ok target.

(** [q] is a directory above [p]. *)
Definition above (q p : pystr) : Prop := exists r, p = q ++ 47 :: r.
(** A Python file of the installation directory, or an asset below [static/]. *)
Definition patchable (p : pystr) : Prop :=
  (47 ∉ p /\ lit ".py" `suffix_of` p) \/ (lit "static/" `prefix_of` p /\ lower_ascii (suffix p) ∈ ASSETS).

Lemma split_on_one sep s : length (split_on sep s) = 1%nat <-> sep ∉ s.
Proof.
  induction s as [|c t IH]; cbn; [split; [intros _; apply not_elem_of_nil | done]|].
  destruct (Z.eqb_spec c sep) as [->|Hc].
  - split; [|intros H; exfalso; apply H; left]. intros [= H]. destruct (split_on sep t) eqn:E; [|done].
    destruct t as [|y u]; cbn in E; [done|]. destruct (y =? sep); [done|]. by destruct (split_on sep u).
  - rewrite not_elem_of_cons. destruct (split_on sep t) as [|w ws] eqn:E; cbn [length] in *.
    + destruct t as [|y u]; cbn in E; [done|]. destruct (y =? sep); [done|]. by destruct (split_on sep u).
    + rewrite IH. split; [split; [congruence|] | intros [_ ?]]; done.
Qed.

Lemma split_on_nonempty sep s : split_on sep s <> [].
Proof. destruct s as [|c t]; cbn; [done|]. destruct (c =? sep); [done|]. by destruct (split_on sep t). Qed.

Lemma split_on_head sep s w ws : split_on sep s = w :: ws -> ws <> [] -> w ++ [sep] `prefix_of` s.
Proof.
  revert w ws. induction s as [|c t IH]; intros w ws; cbn; [by intros [= <- <-]|].
  destruct (Z.eqb_spec c sep) as [->|Hc].
  - intros [= <- <-] _. by exists t.
  - destruct (split_on sep t) as [|x xs] eqn:E; [by destruct (split_on_nonempty sep t)|].
    intros [= <- <-] Hws. destruct (IH x xs eq_refl Hws) as [r Hr]. exists r. by rewrite Hr.
Qed.

Lemma split_on_none sep s : sep ∉ s -> split_on sep s = [s].
Proof.
  induction s as [|c t IH]; intros Hn; cbn; [done|]. apply not_elem_of_cons in Hn as [? ?].
  rewrite (proj2 (Z.eqb_neq c sep)) by congruence. by rewrite IH.
Qed.

Lemma code_path_inv p q : code_path p = Ok q ->
  q = p /\ patchable p /\ starts_with [47] p = false /\ Forall (fun s => dotted s = false) (split_on 47 p).
Proof.
  unfold code_path. intros H. inv_res. apply negb_false_iff, andb_true_iff in Hv as [_ Hre]. apply negb_false_iff in Hv1 as Hal.
  split_and!; [done | | |].
  - unfold allowed in Hal. apply orb_true_iff in Hal as [[Hl He]%andb_true_iff|[Hh Hs]%andb_true_iff].
    + left. apply Nat.eqb_eq in Hl. rewrite split_on_one in Hl. split; [done|]. by apply bool_decide_eq_true in He.
    + apply bool_decide_eq_true in Hh, Hs. right. split; [|done].
      destruct (split_on 47 q) as [|w ws] eqn:Es; [done|]. injection Hh as ->.
      destruct ws as [|x xs]; [|exact (split_on_head 47 q _ _ Es ltac:(done))].
      exfalso. assert (47 ∉ q) as Hn by (apply split_on_one; by rewrite Es).
      rewrite (split_on_none 47 q Hn) in Es. injection Es as ->. apply list_elem_of_In in Hs. vm_compute in Hs. intuition discriminate.
  - unfold starts_with. apply bool_decide_eq_false. intros [r ->]. cbn in Hre. done.
  - apply Forall_forall. intros s Hs. destruct (dotted s) eqn:Ed; [|done].
    assert (existsb dotted (split_on 47 q) = true) by (apply existsb_exists; exists s; split; [by apply list_elem_of_In | done]). congruence.
Qed.

Lemma descend_plain cur l : Forall (fun s => dotted s = false) l -> fold_left descend l cur = cur ++ l.
Proof.
  revert cur. induction l as [|s t IH]; intros cur Hf; cbn [fold_left]; [by rewrite app_nil_r|].
  inversion Hf as [|? ? Hs Ht]; subst. rewrite (IH _ Ht).
  apply bool_decide_eq_false in Hs. unfold descend. rewrite !bool_decide_eq_false_2 by set_solver. by rewrite <- app_assoc.
Qed.

Lemma hops_plain links root cur l : Forall (fun s => dotted s = false) l -> root `prefix_of` cur ->
  hops links root cur l = if bool_decide (Exists (fun k => cur ++ take (S k) l ∈ links) (seq 0 (length l)))
                          then Err (PatchError "Symlink targets are not patchable") else Ok tt.
Proof.
  intros Hf. revert cur. induction Hf as [|s t Hs Ht IH]; intros cur Hp.
  { done. }
  assert (descend cur s = cur ++ [s]) as Hd.
  { apply bool_decide_eq_false in Hs. unfold descend. by rewrite !bool_decide_eq_false_2 by set_solver. }
  cbn [hops]. rewrite Hd. unfold below. rewrite (bool_decide_eq_true_2 (root `prefix_of` cur ++ [s] /\ cur ++ [s] <> root)).
  2:{ split; [by apply prefix_app_r|]. destruct Hp as [r ->]. intros Heq. apply (f_equal length) in Heq.
      rewrite !length_app in Heq. cbn in Heq. lia. }
  cbn [negb raise_if mbind result_bind]. rewrite IH by by apply prefix_app_r. cbn [length seq take].
  destruct (decide (cur ++ [s] ∈ links)) as [Hin|Hin].
  - rewrite (bool_decide_eq_true_2 (_ ∈ _) Hin). cbn [raise_if mbind result_bind].
    rewrite bool_decide_eq_true_2; [done|]. by left.
  - rewrite (bool_decide_eq_false_2 (_ ∈ _) Hin). cbn [raise_if mbind result_bind].
    rewrite (bool_decide_ext (Exists _ (seq 0 (length t))) (Exists (fun k => cur ++ s :: take k t ∈ links) (0%nat :: seq 1 (length t)))); [done|].
    rewrite Exists_cons, <- fmap_S_seq, Exists_fmap. setoid_rewrite <- app_assoc. cbn. naive_solver.
Qed.

Lemma parts_plain p : Forall (fun s => dotted s = false) (split_on 47 p) -> parts p = split_on 47 p.
Proof.
  unfold parts. induction 1 as [|s t Hs Ht IH]; cbn; [done|]. apply bool_decide_eq_false in Hs.
  rewrite bool_decide_eq_false_2 by set_solver. cbn. by rewrite IH.
Qed.

(** A patchable name stays where it is joined.  For every accepted name and every directory, the resolved path is the
    directory followed by the components of the name, strictly below it; it is refused exactly when one of the paths on
    the way, the last included, is a symbolic link. *)
Theorem confined_code_path links root p : code_path p = Ok p ->
  let target := root ++ split_on 47 p in
  below root target = true /\
  (confined links root p = Ok target /\ (forall k, (k < length (split_on 47 p))%nat -> root ++ take (S k) (split_on 47 p) ∉ links) \/
   confined links root p = Err (PatchError "Symlink targets are not patchable") /\
     exists k, (k < length (split_on 47 p))%nat /\ root ++ take (S k) (split_on 47 p) ∈ links).
Proof.
  intros (_ & _ & Hslash & Hf)%code_path_inv target.
  assert (below root target = true) as Hb.
  { apply bool_decide_eq_true_2. split; [by apply prefix_app_r|]. subst target. intros H. apply (f_equal length) in H.
    rewrite length_app in H. assert (length (split_on 47 p) <> 0%nat); [|lia].
    intros Hl%length_zero_iff_nil. by apply (split_on_nonempty 47 p). }
  split; [done|]. unfold confined, abspath. rewrite Hslash, (descend_plain _ _ Hf), (parts_plain _ Hf). fold target. rewrite Hb.
  cbn [negb raise_if mbind result_bind]. rewrite (hops_plain links root root _ Hf) by done.
  case_bool_decide as He; cbn [mbind result_bind].
  - right. split; [done|]. apply Exists_exists in He as (k & Hk & He). exists k. split; [|done]. apply elem_of_seq in Hk. lia.
  - left. split; [done|]. intros k Hk Hin. apply He, Exists_exists. exists k. split; [apply elem_of_seq; lia | done].
Qed.

(** ** Releases *)

Record release := { r_file : pystr; r_sha256 : pystr; r_size : Z; r_version : pystr; r_published : Z }.

Definition hexdigits (s : pystr) : bool := (length s =? 64)%nat && forallb (fun c => between 48 c 57 || between 97 c 102) s.
Definition release_name (s : pystr) : bool :=
  match s with c :: t => name_start c && forallb (fun c => name_start c || (c =? 46)) t && (length t <=? 150)%nat | [] => false end.
(** [isinstance(v, int)], true of booleans. *)
Definition as_int (v : json) : option Z := match v with JInt n => Some n | JBool b => Some (if b then 1 else 0) | _ => None end.
(** The text given to [re.fullmatch]; anything but a string is a [TypeError]. *)
Definition text (v : json) : result pexn pystr := match v with JStr s => Ok s | _ => Err PyExn end.
Definition int_in (v : json) (lo hi : Z) : option Z := n ← as_int v; if (lo <=? n) && (n <=? hi) then Some n else None.
Definition of_opt {A} (e : pexn) (o : option A) : result pexn A := match o with Some a => Ok a | None => Err e end.

Definition verify (signature_ok : obj -> bytes -> bool) (pub : option bytes) (manifest : obj) : result pexn release :=
  key ← of_opt (PatchError "Install an Ed25519 update public key before patching")
          (k ← pub; if (length k =? 32)%nat then Some k else None);
  raise_if (negb (signature_ok manifest key)) (PatchError "signature");;
  payloads ← (match get_or manifest "payloads" (JObj []) with JObj o => Ok o | _ => Err PyExn end);
  meta ← (match get payloads "patch" with JObj o => Ok o | _ => Err (PatchError "No valid patch offered by update server") end);
  file ← text (get_or meta "file" (JStr []));
  raise_if (negb (release_name file)) (PatchError "No valid patch offered by update server");;
  sha ← text (get_or meta "sha256" (JStr []));
  raise_if (negb (hexdigits sha)) (PatchError "Invalid release hash");;
  size ← of_opt (PatchError "Invalid release size") (int_in (get meta "size") 1 MAX_BYTES);
  version ← (match get meta "version" with JStr s => Ok s | _ => Err (PatchError "Invalid release version") end);
  raise_if (negb ((0 <? length version)%nat && (length version <=? 100)%nat)) (PatchError "Invalid release version");;
  published ← of_opt (PatchError "Invalid release timestamp") (as_int (get meta "published"));
  raise_if (published <=? 0) (PatchError "Invalid release timestamp");;
  Ok {| r_file := file; r_sha256 := sha; r_size := size; r_version := version; r_published := published |}.

(** ** Archives *)

Section Package.
Context (digest : bytes -> pystr) (loads : bytes -> option json) (compiles : bytes -> bool).

(** What the tar reader yields for a member: its name, whether it is a regular file, its announced size and the data
    read. *)
Record member := { m_name : pystr; m_isfile : bool; m_size : Z; m_data : bytes }.
(** A checked entry of the manifest; a mode that is no integer is equal to a permitted one but cannot be set. *)
Record item := { i_path : pystr; i_before : option pystr; i_after : option pystr; i_mode : option Z; i_content : bytes }.
Record package := { p_version : json; p_requires : json; p_files : list item }.

Definition MANIFEST : pystr := lit "patch.json".
Definition take_member (st : list (pystr * bytes) * Z) (it : member) : result pexn (list (pystr * bytes) * Z) :=
  let '(files, total) := st in
  raise_if ((MAX_FILES <=? length files)%nat || negb (m_isfile it) || dmem (m_name it) files)
    (PatchError "Invalid or duplicate archive member");;
  (if bool_decide (m_name it = MANIFEST) then Ok tt
   else raise_if (negb (starts_with (lit "files/") (m_name it))) (PatchError "Unexpected archive member");;
        code_path (drop 6 (m_name it));; Ok tt);;
  let total := total + m_size it in
  raise_if ((m_size it <? 0) || (MAX_BYTES <? total)) (PatchError "Expanded patch exceeds size limit");;
  Ok (dset (m_name it) (m_data it) files, total).

(** [entry.get(field)], which must be absent, null or a digest. *)
Definition hash_field (o : obj) (field : string) : result pexn (option pystr) :=
  match get o field with
  | JNull => Ok None
  | v => s ← text v; raise_if (negb (hexdigits s)) (PatchError "Invalid file hash");; Ok (Some s)
  end.
Definition check_entry (st : list pystr * list (pystr * bytes) * list item) (e : json)
    : result pexn (list pystr * list (pystr * bytes) * list item) :=
  let '(seen, files, items) := st in
  o ← (match e with JObj o => Ok o | _ => Err PyExn end);
  name ← (match dget (lit "path") o with
          | Some (JStr s) => code_path s
          | Some _ => Err (PatchError "Invalid code path")
          | None => Err PyExn
          end);
  raise_if (bool_decide (name ∈ seen)) (PatchError "Duplicate patch target");;
  before ← hash_field o "before";
  after ← hash_field o "after";
  raise_if (bool_decide (before = after)) (PatchError "Patch entry does not change a file");;
  fc ← (match after with
        | None => Ok (files, [])
        | Some h =>
            content ← of_opt (PatchError "Patch file hash mismatch") (dget (lit "files/" ++ name) files);
            raise_if (negb (bool_decide (digest content = h))) (PatchError "Patch file hash mismatch");;
            raise_if (ends_with (lit ".py") name && negb (compiles content)) PyExn;;
            Ok (ddel (lit "files/" ++ name) files, content)
        end);
  let mode := get_or o "mode" (JInt 420) in
  raise_if (negb (jeq mode (JInt 420) || jeq mode (JInt 493))) (PatchError "Unsafe file mode");;
  Ok (name :: seen, fc.1,
      items ++ [{| i_path := name; i_before := before; i_after := after; i_mode := as_int mode; i_content := fc.2 |}]).

(** [any(right.startswith(left + '/') for left, right in zip(ordered, ordered[1:]))]. *)
Fixpoint overlaps (ordered : list pystr) : bool :=
  match ordered with
  | l :: ((r :: _) as t) => starts_with (l ++ [47]) r || overlaps t
  | _ => false
  end.

Definition unpack (members : list member) : result pexn package :=
  st ← foldM_res take_member ([], 0) members;
  let files := st.1 in
  manifest ← (match loads (default (lit "{}") (dget MANIFEST files)) with
              | Some (JObj o) => Ok o | _ => Err PyExn end);
  let files := ddel MANIFEST files in
  raise_if (negb (jeq (get manifest "schema") (JInt 1))) (PatchError "Unsupported or empty patch manifest");;
  entries ← (match get manifest "files" with
             | JList l => Ok l
             | _ => Err (PatchError "Unsupported or empty patch manifest") end);
  raise_if (negb ((0 <? length entries)%nat && (length entries <? MAX_FILES)%nat)) (PatchError "Unsupported or empty patch manifest");;
  st ← foldM_res check_entry ([], files, []) entries;
  let '(seen, rest, items) := st in
  raise_if (negb (bool_decide (rest = []))) (PatchError "Archive contains undeclared files");;
  raise_if (overlaps (py_sorted str_le seen)) (PatchError "Patch paths overlap");;
  Ok {| p_version := get manifest "version"; p_requires := get_or manifest "requires" (JObj []); p_files := items |}.

(** ** What is accepted *)

(** What a checked item satisfies, [files] being the members of the archive. *)
Definition item_ok (files : list (pystr * bytes)) (it : item) : Prop :=
  code_path (i_path it) = Ok (i_path it) /\ i_before it <> i_after it /\
  (forall n, i_mode it = Some n -> n = 420 \/ n = 493) /\
  (forall h, i_before it = Some h \/ i_after it = Some h -> hexdigits h = true) /\
  match i_after it with
  | Some h => dget (lit "files/" ++ i_path it) files = Some (i_content it) /\ digest (i_content it) = h
  | None => True
  end.
(** The member an item takes from the archive. *)
Definition supplies (it : item) (k : pystr) : Prop := i_after it <> None /\ k = lit "files/" ++ i_path it.

Lemma hash_field_inv o f r : hash_field o f = Ok r -> forall h, r = Some h -> hexdigits h = true.
Proof.
  unfold hash_field. intros H h ->. destruct (get o f); inv_res; try discriminate.
  all: cbn [text] in *; inv_res; by apply negb_false_iff.
Qed.

Lemma mode_inv v n : jeq v (JInt 420) || jeq v (JInt 493) = true -> as_int v = Some n -> n = 420 \/ n = 493.
Proof.
  intros [H|H]%orb_true_iff; destruct v; cbn in *; try discriminate; intros [= <-];
    rewrite ?num_eqb_int in H; try (destruct b; cbn in H; discriminate); apply Z.eqb_eq in H; auto.
Qed.

(** The entry loop keeps: the names seen are those of the items, distinct and well formed, and what is left of the archive
    is what no item has taken. *)
Record entries_inv (files0 : list (pystr * bytes)) (st : list pystr * list (pystr * bytes) * list item) : Prop := {
  ei_seen : st.1.1 ≡ₚ i_path <$> st.2;
  ei_distinct : NoDup st.1.1;
  ei_items : Forall (item_ok files0) st.2;
  ei_left : forall k, dget k st.1.2 = if decide (Exists (fun it => supplies it k) st.2) then None else dget k files0 }.

Lemma Exists_one {A} (P : A -> Prop) x : Exists P [x] <-> P x.
Proof. split; [inversion 1 as [|? ? Hn]; [done | by inversion Hn] | by left]. Qed.

Lemma entry_name o r : (match dget (lit "path") o with
    | Some (JStr s) => code_path s | Some _ => Err (PatchError "Invalid code path") | None => Err PyExn end) = Ok r ->
  code_path r = Ok r.
Proof.
  destruct (dget _ o) as [[]|]; try discriminate. intros H. pose proof (code_path_inv _ _ H) as [-> _]. done.
Qed.

Lemma check_entry_inv files0 st e st' : entries_inv files0 st -> check_entry st e = Ok st' -> entries_inv files0 st'.
Proof.
  destruct st as [[seen files] items]. intros [H1 H2 H3 H4] H. unfold check_entry in H. cbn [fst snd] in *.
  apply bind_ok_inv in H as (o & _ & H). apply bind_ok_inv in H as (name & Hn%entry_name & H).
  apply bind_ok_inv in H as (u1 & Hs%raise_if_ok_inv%bool_decide_eq_false & H).
  apply bind_ok_inv in H as (before & Hb & H). apply bind_ok_inv in H as (after & Ha & H).
  apply bind_ok_inv in H as (u2 & Hne%raise_if_ok_inv%bool_decide_eq_false & H).
  apply bind_ok_inv in H as ([files' content] & Hfc & H).
  apply bind_ok_inv in H as (u3 & Hm%raise_if_ok_inv%negb_false_iff & H). apply ok_inj in H as <-. cbn [fst snd].
  assert (match after with
          | Some h => dget (lit "files/" ++ name) files = Some content /\ digest content = h /\ files' = ddel (lit "files/" ++ name) files
          | None => files' = files end) as Hc.
  { destruct after as [h|]; [|by apply ok_inj in Hfc; injection Hfc as <- <-]. apply bind_ok_inv in Hfc as (c & Hv & Hfc).
    apply bind_ok_inv in Hfc as (u4 & Hv0%raise_if_ok_inv%negb_false_iff%bool_decide_eq_true & Hfc). apply bind_ok_inv in Hfc as (u5 & _ & Hfc).
    apply ok_inj in Hfc. injection Hfc as <- <-.
    unfold of_opt in Hv. destruct (dget (lit "files/" ++ name) files); [|discriminate]. by injection Hv as ->. }
  split; cbn [fst snd].
  - rewrite fmap_app. cbn. rewrite H1. apply Permutation_cons_append.
  - by constructor.
  - apply Forall_app. split; [done|]. apply Forall_singleton. split_and!; cbn; [done | done | by intros n; apply mode_inv | |].
    + intros h [Hh|Hh]; [exact (hash_field_inv _ _ _ Hb h Hh) | exact (hash_field_inv _ _ _ Ha h Hh)].
    + destruct after as [h|]; [|done]. destruct Hc as (Hc1 & Hc2 & _). split; [|done]. rewrite H4 in Hc1. by case_decide.
  - intros k. rewrite (decide_ext _ (Exists (fun it => supplies it k) items \/ (after <> None /\ k = lit "files/" ++ name))).
    2:{ rewrite Exists_app, Exists_one. done. }
    destruct after as [h|].
    + destruct Hc as (_ & _ & Hc). subst files'. rewrite dget_ddel, H4. repeat case_decide; naive_solver.
    + subst files'. rewrite H4. repeat case_decide; naive_solver.
Qed.

Definition member_ok (m : member) : Prop := m_isfile m = true /\ 0 <= m_size m.
Fixpoint sizes (ms : list member) : Z := match ms with [] => 0 | m :: t => m_size m + sizes t end.

Lemma take_members ms files total st : foldM_res take_member (files, total) ms = Ok st ->
  st = (files ++ ((fun m => (m_name m, m_data m)) <$> ms), total + sizes ms) /\ Forall member_ok ms /\
  (dict_ok files -> dict_ok st.1) /\ (total <= MAX_BYTES -> total + sizes ms <= MAX_BYTES).
Proof.
  revert files total. induction ms as [|m ms IH]; intros files total H; cbn [foldM_res] in H.
  { apply ok_inj in H as <-. cbn. rewrite app_nil_r, Z.add_0_r. split_and!; auto. }
  apply bind_ok_inv in H as (st1 & Hm & H). unfold take_member in Hm.
  apply bind_ok_inv in Hm as (u1 & Hv%raise_if_ok_inv & Hm). apply bind_ok_inv in Hm as (u2 & _ & Hm).
  apply bind_ok_inv in Hm as (u3 & Hsz%raise_if_ok_inv & Hm). apply ok_inj in Hm as <-.
  apply orb_false_iff in Hv as [[_ Hf%negb_false_iff]%orb_false_iff Hmem]. zb. rewrite (dset_new _ _ _ Hmem) in H.
  apply IH in H as (Hst & Hok & Hd & Ht). rewrite Hst in *. cbn [fmap list_fmap sizes fst]. rewrite <- app_assoc, Z.add_assoc.
  split_and!; [done | by constructor | | intros _; apply Ht; lia].
  intros Hdict. cbn [fst] in Hd. rewrite <- app_assoc in Hd. apply Hd. rewrite <- (dset_new _ _ _ Hmem). by apply dict_ok_dset.
Qed.

Lemma check_entries files0 es st st' : entries_inv files0 st -> foldM_res check_entry st es = Ok st' ->
  entries_inv files0 st' /\ length st'.2 = (length st.2 + length es)%nat.
Proof.
  revert st. induction es as [|e es IH]; intros st Hi H; cbn [foldM_res length] in *.
  { apply ok_inj in H as <-. split; [done | lia]. }
  apply bind_ok_inv in H as (st1 & He & H). pose proof (check_entry_inv _ _ _ _ Hi He) as Hi1.
  destruct (IH _ Hi1 H) as [Hi2 ->]. split; [done|].
  assert (length st1.2 = S (length st.2)); [|lia]. destruct st as [[seen files] items]. unfold check_entry in He. inv_res.
  cbn. rewrite length_app. cbn. lia.
Qed.

Lemma unpack_entries members pkg : unpack members = Ok pkg -> exists files total seen (es : list json),
  foldM_res take_member ([], 0) members = Ok (files, total) /\ (0 < length es)%nat /\ (length es < MAX_FILES)%nat /\
  entries_inv (ddel MANIFEST files) (seen, [], p_files pkg) /\ length (p_files pkg) = length es.
Proof.
  unfold unpack. intros H. apply bind_ok_inv in H as ([files total] & Hst & H). cbn [fst] in H.
  apply bind_ok_inv in H as (man & _ & H). apply bind_ok_inv in H as (u1 & _ & H). apply bind_ok_inv in H as (es & _ & H).
  apply bind_ok_inv in H as (u2 & Hlen%raise_if_ok_inv%negb_false_iff%andb_true_iff & H).
  apply bind_ok_inv in H as ([[seen rest] items] & Hes & H).
  apply bind_ok_inv in H as (u3 & ->%raise_if_ok_inv%negb_false_iff%bool_decide_eq_true & H).
  apply bind_ok_inv in H as (u4 & _ & H). apply ok_inj in H as <-. destruct Hlen as [Hl1%Nat.ltb_lt Hl2%Nat.ltb_lt].
  assert (entries_inv (ddel MANIFEST files) ([], ddel MANIFEST files, [])) as Hi0 by (split; cbn; [done | constructor | done | done]).
  destruct (check_entries _ _ _ _ Hi0 Hes) as [Hi Hl]. by exists files, total, seen, es.
Qed.

Lemma unpack_items members pkg : unpack members = Ok pkg ->
  NoDup (i_path <$> p_files pkg) /\ forall it, it ∈ p_files pkg -> code_path (i_path it) = Ok (i_path it) /\
    (forall h, i_after it = Some h -> digest (i_content it) = h).
Proof.
  intros (files & total & seen & es & _ & _ & _ & [I1 I2 I3 _] & _)%unpack_entries. cbn [fst snd] in *.
  split; [by rewrite <- I1|]. intros it Hit. destruct (proj1 (Forall_forall _ _) I3 it Hit) as (H1 & _ & _ & _ & H2).
  split; [done|]. intros h Hh. rewrite Hh in H2. apply H2.
Qed.

(** C29. What an accepted archive may do.  The archive holds regular files of at most the permitted total size; the package
    has at least one entry and fewer than the limit, for distinct paths, each a Python file of the installation directory or an asset
    below [static/]; every entry changes something and sets mode 644 or 755; the content of an entry is the data of the
    member with its name and has the announced digest; and the archive holds nothing but the manifest and these
    contents. *)
Theorem unpack_sound members pkg : unpack members = Ok pkg ->
  Forall member_ok members /\ sizes members <= MAX_BYTES /\
  (0 < length (p_files pkg) < MAX_FILES)%nat /\ NoDup (i_path <$> p_files pkg) /\
  (forall it, it ∈ p_files pkg ->
     patchable (i_path it) /\ i_before it <> i_after it /\ (forall n, i_mode it = Some n -> n = 420 \/ n = 493) /\
     (forall h, i_after it = Some h -> digest (i_content it) = h /\
        exists m, m ∈ members /\ m_name m = lit "files/" ++ i_path it /\ m_data m = i_content it)) /\
  (forall m, m ∈ members -> m_name m = MANIFEST \/ exists it, it ∈ p_files pkg /\ supplies it (m_name m)).
Proof.
  intros (files & total & seen & es & Hst & Hl1 & Hl2 & [I1 I2 I3 I4] & Hl)%unpack_entries.
  apply take_members in Hst as ([= -> ->] & Hmem & Hd & Hsz). cbn [app fst snd length] in *.
  set (files := (fun m => (m_name m, m_data m)) <$> members) in *.
  split_and!; [done | apply Hsz; done | lia | lia | by rewrite <- I1 | |].
  - intros it Hit. destruct (proj1 (Forall_forall _ _) I3 it Hit) as (C1 & C2 & C3 & _ & C5).
    split_and!; [by apply code_path_inv in C1 as (_ & ? & _) | done | done|]. intros h Hh. rewrite Hh in C5. destruct C5 as [C5 C6].
    split; [done|]. rewrite dget_ddel in C5. case_decide; [done|]. apply dget_In in C5.
    apply list_elem_of_fmap in C5 as (m & Heq & Hm).
    exists m. split_and!; [done | exact (eq_sym (f_equal fst Heq)) | exact (eq_sym (f_equal snd Heq))].
  - intros m Hm. destruct (decide (m_name m = MANIFEST)) as [|Hn]; [by left|]. right. specialize (I4 (m_name m)). cbn in I4.
    case_decide as He; [by apply Exists_exists in He|]. rewrite dget_ddel, decide_False in I4 by done.
    assert (dict_ok files) as Hdf by (apply Hd; constructor). rewrite (In_dget _ (m_data m) _ Hdf) in I4; [done|].
    apply list_elem_of_fmap. by exists m.
Qed.
End Package.

(** ** A package that the overlap test lets through *)

Definition demo_digest (b : bytes) : pystr := replicate (64 - length b) 48 ++ b.
Definition demo_entry (p : string) (after : bytes) : json :=
  JObj [(lit "path", J p); (lit "after", JStr (demo_digest after))].
Definition nested_manifest : json :=
  JObj [(lit "schema", JInt 1); (lit "version", J "2"); (lit "files", JList [
    demo_entry "static/a.js/x.js" [97]; demo_entry "static/a.js" [98]; demo_entry "static/a.js-b.js" [99]])].
Definition nested_members : list member :=
  [{| m_name := MANIFEST; m_isfile := true; m_size := 1; m_data := [1] |};
   {| m_name := lit "files/static/a.js/x.js"; m_isfile := true; m_size := 1; m_data := [97] |};
   {| m_name := lit "files/static/a.js"; m_isfile := true; m_size := 1; m_data := [98] |};
   {| m_name := lit "files/static/a.js-b.js"; m_isfile := true; m_size := 1; m_data := [99] |}].
Definition demo_loads (j : json) (b : bytes) : option json := if bool_decide (b = [1]) then Some j else None.

(** Overlapping paths are accepted.  [static/a.js-b.js] sorts between [static/a.js] and [static/a.js/x.js], so the
    test of neighbours does not see that one path is a file and a directory at once, and the package is taken. *)
Theorem overlap_accepted compiles : exists pkg, unpack demo_digest (demo_loads nested_manifest) compiles nested_members = Ok pkg /\
  (exists a b, a ∈ p_files pkg /\ b ∈ p_files pkg /\ above (i_path a) (i_path b)).
Proof.
  eexists. split; [vm_compute; reflexivity|]. cbn [p_files]. eexists _, _.
  split; [right; left|]. split; [left|]. exists (lit "x.js"). reflexivity.
Qed.

Definition plain_manifest : json :=
  JObj [(lit "schema", JInt 1); (lit "version", J "2"); (lit "files", JList [demo_entry "static/a.js" [98]])].
Definition plain_members : list member := [nth 0 nested_members (Build_member [] true 0 []); nth 2 nested_members (Build_member [] true 0 [])].
Lemma unpack_sound_witness : exists pkg,
  unpack demo_digest (demo_loads plain_manifest) (fun _ => true) plain_members = Ok pkg /\ NoDup (i_path <$> p_files pkg) /\
  forall it, it ∈ p_files pkg -> patchable (i_path it).
Proof.
  eexists. split; [vm_compute; reflexivity|].
  destruct (unpack_sound demo_digest (demo_loads plain_manifest) (fun _ => true) plain_members _ ltac:(vm_compute; reflexivity))
    as (_ & _ & _ & H1 & H2 & _).
  split; [exact H1|]. intros it Hit. exact (proj1 (H2 it Hit)).
Defined.

Lemma confined_witness : confined [] [lit "opt"] (lit "static/a.js") = Ok [lit "opt"; lit "static"; lit "a.js"].
Proof.
  destruct (confined_code_path [] [lit "opt"] (lit "static/a.js") ltac:(vm_compute; reflexivity)) as (_ & [[H _]|[_ (k & _ & Hin)]]).
  - exact H.
  - inversion Hin.
Defined.
