(* ===== verification/Patch.v ===== *)
(** * Installing, undoing and recovering patches

    The class [PatchManager] of [ffn_patch.py].  The world is what survives a restart of the machine: the code tree
    (regular files with their modes, directories, symbolic links), the backups, the journal, the recorded state, the
    staged package, and the services that run.  Every call that touches the disk or the service manager takes its
    outcome from a list: it works, it fails without or after its effect, or the machine stops before it; an empty list
    is a run without trouble.  [atomic] replaces a file as a whole, so each replacement is one such call, and each
    directory it has to create another.  Temporary files, downloads and the clock are inputs or left out.

    Main results: whatever fails and wherever the machine stops, an installation followed by any number of interrupted
    recoveries and one that is not leaves exactly the old code, modes and installed record, or exactly the new ones
    ([patch_atomic]); a rollback restores what the package replaced ([rollback_exact]).  Both need paths that do not
    overlap, and the package that [PatchPackage.overlap_accepted] shows to be accepted does make the management plane
    unrecoverable ([nested_patch_stuck]). *)

From S2P Require Import Prelude PyStr PyDict PyIp PyJson PatchPackage.

(** ** The world *)

Record file := { f_data : bytes; f_mode : Z }.
Inductive phase := Prepared | Committed | Restoring.
#[global] Instance phase_dec : EqDecision phase.
Proof. solve_decision. Defined.
Record entry := { e_path : pystr; e_before : option pystr; e_after : option pystr; e_old_mode : option Z }.
Record journal := {
  j_phase : phase; j_backup : pystr; j_files : list entry; j_services : list pystr;
  j_previous : option (release * Z); j_release : release }.
Record world := {
  files : gmap pystr file; dirs : gset pystr; links : list apath; backups : gmap (pystr * pystr) bytes;
  jrnl : option journal; installed : option (release * Z); staged : option release; available : option release;
  staged_tgz : option bytes; staged_manifest : option obj; running : gset pystr }.

Definition set_tree (f : gmap pystr file) (d : gset pystr) (w : world) : world :=
  {| files := f; dirs := d; links := links w; backups := backups w; jrnl := jrnl w; installed := installed w;
     staged := staged w; available := available w; staged_tgz := staged_tgz w; staged_manifest := staged_manifest w;
     running := running w |}.
Definition set_backups (b : gmap (pystr * pystr) bytes) (w : world) : world :=
  {| files := files w; dirs := dirs w; links := links w; backups := b; jrnl := jrnl w; installed := installed w;
     staged := staged w; available := available w; staged_tgz := staged_tgz w; staged_manifest := staged_manifest w;
     running := running w |}.
Definition set_jrnl (j : option journal) (w : world) : world :=
  {| files := files w; dirs := dirs w; links := links w; backups := backups w; jrnl := j; installed := installed w;
     staged := staged w; available := available w; staged_tgz := staged_tgz w; staged_manifest := staged_manifest w;
     running := running w |}.
Definition set_state (i : option (release * Z)) (s a : option release) (w : world) : world :=
  {| files := files w; dirs := dirs w; links := links w; backups := backups w; jrnl := jrnl w; installed := i;
     staged := s; available := a; staged_tgz := staged_tgz w; staged_manifest := staged_manifest w; running := running w |}.
Definition set_staged (tgz : option bytes) (m : option obj) (w : world) : world :=
  {| files := files w; dirs := dirs w; links := links w; backups := backups w; jrnl := jrnl w; installed := installed w;
     staged := staged w; available := available w; staged_tgz := tgz; staged_manifest := m; running := running w |}.
Definition set_running (r : gset pystr) (w : world) : world :=
  {| files := files w; dirs := dirs w; links := links w; backups := backups w; jrnl := jrnl w; installed := installed w;
     staged := staged w; available := available w; staged_tgz := staged_tgz w; staged_manifest := staged_manifest w;
     running := r |}.
Definition with_phase (p : phase) (j : journal) : journal :=
  {| j_phase := p; j_backup := j_backup j; j_files := j_files j; j_services := j_services j; j_previous := j_previous j;
     j_release := j_release j |}.

(** ** Programs whose steps can fail *)

Inductive outcome := Good | Bad | Late | Halt.
Inductive run (A : Type) := Val (a : A) | Exn (e : pexn) | Crash.
Arguments Val {A} a.
Arguments Exn {A} e.
Arguments Crash {A}.

Definition M (A : Type) : Type := list outcome -> world -> run A * world * list outcome.
#[global] Instance M_ret : MRet M := fun A a o w => (Val a, w, o).
#[global] Instance M_bind : MBind M := fun A B f m o w =>
  match m o w with
  | (Val a, w', o') => f a o' w'
  | (Exn e, w', o') => (Exn e, w', o')
  | (Crash, w', o') => (Crash, w', o')
  end.
Definition raise {A} (e : pexn) : M A := fun o w => (Exn e, w, o).
(** [try: m  except Exception: h]. *)
Definition catch (m h : M unit) : M unit := fun o w =>
  match m o w with
  | (Exn e, w', o') => h o' w'
  | r => r
  end.
Definition next (o : list outcome) : outcome * list outcome := match o with [] => (Good, []) | x :: t => (x, t) end.
(** A call that changes the world as a whole. *)
Definition act (f : world -> result pexn world) : M unit := fun o w =>
  let '(x, o') := next o in
  match x, f w with
  | Good, Ok w' => (Val tt, w', o')
  | Good, Err e => (Exn e, w, o')
  | Bad, _ => (Exn PyExn, w, o')
  | Late, Ok w' => (Exn PyExn, w', o')
  | Late, Err e => (Exn e, w, o')
  | Halt, _ => (Crash, w, o')
  end.
(** Reading and testing. *)
Definition look {A} (f : world -> result pexn A) : M A := fun o w =>
  let '(x, o') := next o in
  match x with
  | Good => match f w with Ok a => (Val a, w, o') | Err e => (Exn e, w, o') end
  | Halt => (Crash, w, o')
  | _ => (Exn PyExn, w, o')
  end.
Fixpoint each {A} (f : A -> M unit) (l : list A) : M unit :=
  match l with [] => mret tt | x :: t => f x;; each f t end.

(** ** Files and services *)

(** The directories above a name, outermost first. *)
Fixpoint parents_from (pre s : pystr) : list pystr :=
  match s with
  | [] => []
  | c :: t => if c =? 47 then pre :: parents_from (pre ++ [c]) t else parents_from (pre ++ [c]) t
  end.
Definition parents (p : pystr) : list pystr := parents_from [] p.

Definition is_dir (w : world) (p : pystr) : bool := bool_decide (p ∈ dirs w).
Definition exists_ (w : world) (p : pystr) : bool := bool_decide (is_Some (files w !! p)) || is_dir w p.
Definition mkdir (q : pystr) : M unit := fun o w =>
  if is_dir w q then (Val tt, w, o)
  else act (fun w => match files w !! q with Some _ => Err PyExn | None => Ok (set_tree (files w) ({[q]} ∪ dirs w) w) end) o w.
Definition replace (p : pystr) (data : bytes) (mode : option Z) : M unit :=
  act (fun w => match mode with
                | Some m => if is_dir w p then Err PyExn
                            else Ok (set_tree (<[p := {| f_data := data; f_mode := m |}]> (files w)) (dirs w) w)
                | None => Err PyExn
                end).
Definition atomic (p : pystr) (data : bytes) (mode : option Z) : M unit :=
  each mkdir (parents p);; replace p data mode.
Definition remove (p : pystr) : M unit :=
  act (fun w => match files w !! p with Some _ => Ok (set_tree (delete p (files w)) (dirs w) w) | None => Err PyExn end).

Inductive verb := IsActive | Stop | Start.
Definition moved (v : verb) (u : pystr) (w : world) : world :=
  match v with
  | IsActive => w
  | Stop => set_running (running w ∖ {[u]}) w
  | Start => set_running ({[u]} ∪ running w) w
  end.
Definition _service (v : verb) (unit_ : pystr) : M bool :=
  if bool_decide (unit_ ∉ SERVICES) then raise (PatchError "Invalid service operation")
  else fun o w =>
    let w' := moved v unit_ w in
    let '(x, o') := next o in
    match x with
    | Good => (Val (match v with IsActive => bool_decide (unit_ ∈ running w) | _ => true end), w', o')
    | Bad => (Val false, w, o')
    | Late => (Exn PyExn, w', o')
    | Halt => (Crash, w, o')
    end.
Definition require (v : verb) (unit_ : pystr) (message : string) : M unit :=
  ok ← _service v unit_; if (ok : bool) then mret tt else raise (PatchError message).
Definition _restart (services : list pystr) : M unit :=
  each (fun u => require Start u "Service failed to start") services;;
  each (fun _ => each (fun u => require IsActive u "Service did not stay active") services) (seq 0 5).
Fixpoint active (l : list pystr) : M (list pystr) :=
  match l with
  | [] => mret []
  | u :: t => ok ← _service IsActive u; rest ← active t; mret (if (ok : bool) then u :: rest else rest)
  end.

(** ** The manager *)

Section Manager.
Context (digest : bytes -> pystr) (tar_members : bytes -> option (list member)) (loads : bytes -> option json).
Context (compiles : bytes -> bool) (signature_ok : obj -> bytes -> bool) (dist_version : pystr -> option pystr).
Context (root state_dir : apath) (pub : option bytes).

(** What a call reads from outside: a fresh identifier, the clock and the free space of both file systems. *)
Record inputs := { in_uuid : pystr; in_now : Z; free_state : Z; free_root : Z }.

Definition MANAGER : pystr := lit "ffn-manager-v2.service".

Definition check_requires (kv : pystr * json) : result pexn unit :=
  raise_if (negb (jeq (match dist_version kv.1 with Some s => JStr s | None => JNull end) kv.2))
    (PatchError "Required dependency missing or incompatible").
(** The digest of the file at a path, if it is one. *)
Definition current (w : world) (p : pystr) : option pystr := (fun f => digest (f_data f)) <$> files w !! p.
Definition check_baseline (w : world) (size : Z) (it : item) : result pexn Z :=
  confined (links w) root (i_path it);;
  raise_if (negb (bool_decide (current w (i_path it) = i_before it)) ||
            (exists_ w (i_path it) && negb (bool_decide (is_Some (files w !! i_path it)))))
    (PatchError "Installed file differs from patch baseline");;
  Ok (size + match files w !! i_path it with Some f => blen (f_data f) | None => 0 end).
Definition preflight (inp : inputs) (archive : bytes) (meta : release) (w : world) : result pexn package :=
  raise_if (negb ((blen archive =? r_size meta) && bool_decide (digest archive = r_sha256 meta)))
    (PatchError "Downloaded package size or SHA-256 does not match signed release");;
  members ← of_opt PyExn (tar_members archive);
  pkg ← unpack digest loads compiles members;
  raise_if (negb (jeq (p_version pkg) (JStr (r_version meta)))) (PatchError "Package version differs from signed release");;
  raise_if (match installed w with Some (r, _) => bool_decide (r_sha256 r = r_sha256 meta) | None => false end)
    (PatchError "This patch is already installed");;
  raise_if (r_published meta <=? match installed w with Some (r, _) => r_published r | None => 0 end)
    (PatchError "Release is not newer; use rollback to restore previous code");;
  requires ← (match p_requires pkg with JObj o => Ok o | _ => Err PyExn end);
  mapM_res check_requires requires;;
  backup_size ← foldM_res (check_baseline w) 0 (p_files pkg);
  raise_if (free_state inp <? backup_size + blen archive + 16 * 1024 * 1024) (PatchError "Insufficient space for rollback backup");;
  raise_if (free_root inp <? MAX_BYTES + 16 * 1024 * 1024) (PatchError "Insufficient space to install patch");;
  Ok pkg.

Definition open_journal (w : world) : bool :=
  match jrnl w with Some j => negb (bool_decide (j_phase j = Committed)) | None => false end.

(** The copy of one target and its journal entry. *)
Definition save_original (backup : pystr) (it : item) : M entry :=
  original ← look (fun w =>
    confined (links w) root (i_path it);;
    match files w !! i_path it with
    | Some f =>
        raise_if (negb (bool_decide (i_before it = Some (digest (f_data f))))) (PatchError "File changed while preparing backup");;
        Ok (Some f)
    | None => raise_if (is_dir w (i_path it)) PyExn;; Ok None
    end);
  match original with
  | Some f =>
      look (fun _ => confined [] (state_dir ++ [backup]) (i_path it));;
      act (fun w => Ok (set_backups (<[(backup, i_path it) := f_data f]> (backups w)) w))
  | None => mret tt
  end;;
  mret {| e_path := i_path it; e_before := i_before it; e_after := i_after it; e_old_mode := f_mode <$> original |}.
Fixpoint save_originals (backup : pystr) (l : list item) : M (list entry) :=
  match l with
  | [] => mret []
  | it :: t => e ← save_original backup it; es ← save_originals backup t; mret (e :: es)
  end.

Definition write_journal (j : journal) : M unit := act (fun w => Ok (set_jrnl (Some j) w)).
Definition put_item (it : item) : M unit :=
  look (fun w => confined (links w) root (i_path it));;
  match i_after it with
  | Some _ => atomic (i_path it) (i_content it) (i_mode it)
  | None => fun o w => if exists_ w (i_path it) then remove (i_path it) o w else (mret tt : M unit) o w
  end.

(** [restore]: the checks before anything is stopped or changed, then the files of the backup. *)
Definition gather_entry (check_current : bool) (j : journal) (w : world) (contents : gmap pystr bytes) (e : entry)
    : result pexn (gmap pystr bytes) :=
  p ← code_path (e_path e);
  confined (links w) root p;;
  raise_if (check_current && negb (bool_decide (current w (e_path e) = e_after e))) (PatchError "Local changes prevent rollback");;
  match e_before e with
  | Some h =>
      confined [] (state_dir ++ [j_backup j]) (e_path e);;
      content ← of_opt PyExn (backups w !! (j_backup j, e_path e));
      raise_if (negb (bool_decide (digest content = h))) (PatchError "Rollback backup is damaged");;
      Ok (<[e_path e := content]> contents)
  | None => Ok contents
  end.
Definition put_back (contents : gmap pystr bytes) (e : entry) : M unit :=
  look (fun w => confined (links w) root (e_path e));;
  match e_before e with
  | Some _ =>
      match contents !! e_path e with
      | Some c => atomic (e_path e) c (Some (default 420 (e_old_mode e)))
      | None => raise PyExn
      end
  | None => fun o w => if exists_ w (e_path e) then remove (e_path e) o w else (mret tt : M unit) o w
  end.
Definition restore (check_current : bool) : M unit :=
  j ← look (fun w => of_opt (PatchError "No rollback journal exists") (jrnl w));
  (if check_current && negb (bool_decide (j_phase j = Committed))
   then raise (PatchError "Use recovery for an interrupted operation") else mret tt);;
  contents ← look (fun w => foldM_res (gather_entry check_current j w) ∅ (j_files j));
  write_journal (with_phase Restoring j);;
  each (fun u => require Stop u "Cannot stop service for recovery") (rev (j_services j));;
  each (put_back contents) (j_files j);;
  _restart (j_services j);;
  act (fun w => Ok (set_state (j_previous j) None (available w) w));;
  act (fun w => match jrnl w with Some _ => Ok (set_jrnl None w) | None => Err PyExn end).

(** The guarded part of [install], what its [except] does, and the part after the checks. *)
Definition change (inp : inputs) (meta : release) (pkg : package) (j : journal) : M unit :=
  each (fun u => require Stop u "Service failed to stop") (rev (j_services j));;
  each put_item (p_files pkg);;
  _restart (j_services j);;
  act (fun w => Ok (set_state (Some (meta, in_now inp)) None (available w) w));;
  write_journal (with_phase Committed j).
Definition undo : M unit := restore false;; raise (PatchError "Installation failed; previous files and services restored").
Definition apply_package (inp : inputs) (meta : release) (pkg : package) : M unit :=
  services ← active SERVICES;
  (if bool_decide (MANAGER ∉ services) then raise (PatchError "The management service must be active before installation") else mret tt);;
  entries ← save_originals (in_uuid inp) (p_files pkg);
  previous ← look (fun w => Ok (installed w));
  let j := {| j_phase := Prepared; j_backup := in_uuid inp; j_files := entries; j_services := services;
              j_previous := previous; j_release := meta |} in
  write_journal j;;
  catch (change inp meta pkg j) undo.
Definition install (inp : inputs) (expected : pystr) : M unit :=
  meta ← look (fun w => verify signature_ok pub (default [] (staged_manifest w)));
  (if bool_decide (expected <> r_sha256 meta) then raise (PatchError "Staged patch changed; review it again") else mret tt);;
  archive ← look (fun w => of_opt PyExn (staged_tgz w));
  pkg ← look (preflight inp archive meta);
  look (fun w => raise_if (open_journal w) (PatchError "Recover the interrupted operation first"));;
  apply_package inp meta pkg.

(** [_work] for [recover]. *)
Definition recover : M unit := fun o w => if open_journal w then restore false o w else (mret tt : M unit) o w.

(** ** Reasoning about runs *)

Section Triples.
(** [clean]: no step of the run fails. *)
Context (clean : Prop).
Definition calm (o : list outcome) : Prop := clean -> Forall (eq Good) o.
Definition spec {A} (P : world -> Prop) (m : M A) (Q : A -> world -> Prop) (X C : world -> Prop) : Prop :=
  forall o w, calm o -> P w ->
    match m o w with
    | (Val a, w', o') => calm o' /\ Q a w'
    | (Exn _, w', o') => calm o' /\ X w'
    | (Crash, w', _) => ~ clean /\ C w'
    end.

Lemma next_calm o x o' : next o = (x, o') -> calm o -> calm o' /\ (x <> Good -> ~ clean).
Proof.
  unfold calm. destruct o as [|y t]; cbn; intros [= <- <-] Hc; [done|].
  split; [intros H; specialize (Hc H); by inversion Hc | intros Hx H; specialize (Hc H); inversion Hc; congruence].
Qed.

Lemma spec_ret {A} (P : world -> Prop) (a : A) (Q : A -> world -> Prop) X C :
  (forall w, P w -> Q a w) -> spec P (mret a) Q X C.
Proof. intros H o w Hc HP. split; auto. Qed.
Lemma spec_raise {A} (P : world -> Prop) e (Q : A -> world -> Prop) (X C : world -> Prop) :
  (forall w, P w -> X w) -> spec P (raise e) Q X C.
Proof. intros H o w Hc HP. split; auto. Qed.
Lemma spec_bind {A B} P (m : M A) (f : A -> M B) R Q X C :
  spec P m R X C -> (forall a, spec (R a) (f a) Q X C) -> spec P (m ≫= f) Q X C.
Proof.
  intros Hm Hf o w Hc HP. unfold mbind, M_bind. specialize (Hm o w Hc HP).
  destruct (m o w) as [[[a| |] w'] o']; [|done..]. destruct Hm as [Hc' Hr]. exact (Hf a o' w' Hc' Hr).
Qed.
Lemma spec_weaken {A} (P P' : world -> Prop) (m : M A) (Q Q' : A -> world -> Prop) (X X' C C' : world -> Prop) :
  spec P m Q X C -> (forall w, P' w -> P w) -> (forall a w, Q a w -> Q' a w) -> (forall w, X w -> X' w) ->
  (forall w, C w -> C' w) -> spec P' m Q' X' C'.
Proof.
  intros H HP HQ HX HC o w Hc Hw. specialize (H o w Hc (HP w Hw)). destruct (m o w) as [[[a| |] w'] o']; naive_solver.
Qed.
Lemma spec_pre {A} (P P' : world -> Prop) (m : M A) Q X C : spec P m Q X C -> (forall w, P' w -> P w) -> spec P' m Q X C.
Proof. intros H HP o w Hc Hw. exact (H o w Hc (HP w Hw)). Qed.
(** A precondition may be opened: what holds of one world at the start. *)
Lemma spec_at {A} (P : world -> Prop) (m : M A) Q X C : (forall w0, P w0 -> spec (eq w0) m Q X C) -> spec P m Q X C.
Proof. intros H o w Hc HP. by apply (H w HP o w Hc). Qed.
Lemma spec_catch P m h Q Y X C : spec P m Q Y C -> spec Y h Q X C -> spec P (catch m h) Q X C.
Proof.
  intros Hm Hh o w Hc HP. unfold catch. specialize (Hm o w Hc HP).
  destruct (m o w) as [[[a| |] w'] o']; [done| |done]. destruct Hm as [Hc' Hy]. exact (Hh o' w' Hc' Hy).
Qed.
Lemma spec_act (P : world -> Prop) f (Q : unit -> world -> Prop) (X C : world -> Prop) :
  (forall w, P w -> match f w with Ok w' => Q tt w' /\ (~ clean -> X w') | Err _ => X w end) ->
  (forall w, P w -> ~ clean -> X w /\ C w) -> spec P (act f) Q X C.
Proof.
  intros Hf Hn o w Hc HP. unfold act. destruct (next o) as [x o'] eqn:E. apply next_calm in E as [Hc' Hx]; [|done].
  specialize (Hf w HP). specialize (Hn w HP).
  destruct x, (f w); try destruct Hf; try destruct (Hn (Hx ltac:(done))); auto; split; auto.
Qed.
Lemma spec_look {A} (P : world -> Prop) (f : world -> result pexn A) (Q : A -> world -> Prop) (X C : world -> Prop) :
  (forall w, P w -> match f w with Ok a => Q a w | Err _ => X w end) ->
  (forall w, P w -> ~ clean -> X w /\ C w) -> spec P (look f) Q X C.
Proof.
  intros Hf Hn o w Hc HP. unfold look. destruct (next o) as [x o'] eqn:E. apply next_calm in E as [Hc' Hx]; [|done].
  specialize (Hf w HP). specialize (Hn w HP).
  destruct x; try destruct (Hn (Hx ltac:(done))); auto. destruct (f w); split; auto.
Qed.
Lemma spec_each {A} (f : A -> M unit) (l : list A) (I : list A -> world -> Prop) X C :
  (forall pre x post, l = pre ++ x :: post -> spec (I pre) (f x) (fun _ => I (pre ++ [x])) X C) ->
  spec (I []) (each f l) (fun _ => I l) X C.
Proof.
  intros H. assert (forall post pre, l = pre ++ post -> spec (I pre) (each f post) (fun _ => I l) X C) as HG.
  { induction post as [|x post IH]; intros pre Hl; cbn [each].
    - apply spec_ret. rewrite app_nil_r in Hl. by subst.
    - eapply spec_bind; [exact (H _ _ _ Hl)|]. cbn beta. intros a. apply IH. by rewrite <- app_assoc. }
  exact (HG l [] eq_refl).
Qed.
Lemma spec_same {A} (f : A -> M unit) (l : list A) (I : world -> Prop) X C :
  (forall x, x ∈ l -> spec I (f x) (fun _ => I) X C) -> spec I (each f l) (fun _ => I) X C.
Proof.
  intros H. apply (spec_each f l (fun _ => I)). intros pre x post Hl. apply H. rewrite Hl. apply elem_of_app. right. left.
Qed.
End Triples.

(** ** Directories above a name *)

Lemma parents_from_above pre s q : q ∈ parents_from pre s <-> exists a b, s = a ++ 47 :: b /\ q = pre ++ a.
Proof.
  revert pre. induction s as [|c t IH]; intros pre; cbn [parents_from].
  { rewrite elem_of_nil. split; [done|]. intros ([|] & b & H & _); discriminate. }
  assert (q ∈ parents_from (pre ++ [c]) t <-> exists a b, c :: t = (c :: a) ++ 47 :: b /\ q = pre ++ c :: a) as HG.
  { rewrite IH. setoid_rewrite <- app_assoc. cbn. naive_solver. }
  destruct (Z.eqb_spec c 47) as [->|Hc].
  - rewrite elem_of_cons, HG. split.
    + intros [->|(a & b & H & ->)]; [exists [], t; by rewrite app_nil_r | by exists (47 :: a), b].
    + intros ([|x a] & b & H & ->); [left; by rewrite app_nil_r | right]. injection H as -> H. exists a, b. by rewrite H.
  - rewrite HG. split; [intros (a & b & H & ->); by exists (c :: a), b|].
    intros ([|x a] & b & H & ->); [by injection H|]. injection H as <- H. exists a, b. by rewrite H.
Qed.
Lemma parents_above p q : q ∈ parents p <-> above q p.
Proof.
  unfold parents, above. rewrite parents_from_above. cbn. naive_solver.
Qed.

(** ** The state an open journal describes *)

Definition entry_at (j : journal) (p : pystr) : option entry := List.find (fun e => bool_decide (e_path e = p)) (j_files j).
(** The code tree the journal would restore. *)
Definition original (j : journal) (w : world) (p : pystr) : option file :=
  match entry_at j p with
  | Some e =>
      match e_before e with
      | Some _ => (fun d => {| f_data := d; f_mode := default 420 (e_old_mode e) |}) <$> backups w !! (j_backup j, p)
      | None => None
      end
  | None => files w !! p
  end.
Record intact (j : journal) (w : world) : Prop := {
  in_distinct : NoDup (e_path <$> j_files j);
  in_services : Forall (fun u => u ∈ SERVICES) (j_services j);
  in_names : forall e, e ∈ j_files j -> code_path (e_path e) = Ok (e_path e) /\ is_ok (confined (links w) root (e_path e)) = true;
  in_dirs : forall e, e ∈ j_files j -> e_path e ∉ dirs w;
  in_backup : forall e h, e ∈ j_files j -> e_before e = Some h ->
    (exists d, backups w !! (j_backup j, e_path e) = Some d /\ digest d = h) /\ forall q, above q (e_path e) -> q ∈ dirs w }.

Lemma intact_same j w w' : intact j w -> links w' = links w -> dirs w' = dirs w -> backups w' = backups w -> intact j w'.
Proof. intros [H1 H2 H3 H4 H5] E1 E2 E3. split; rewrite ?E1, ?E2, ?E3; done. Qed.

Lemma entry_at_in j e : NoDup (e_path <$> j_files j) -> e ∈ j_files j -> entry_at j (e_path e) = Some e.
Proof.
  unfold entry_at. induction (j_files j) as [|x t IH]; cbn [fmap list_fmap List.find]; [by inversion 2|].
  intros [Hn Hd]%NoDup_cons [->|He]%elem_of_cons; [by rewrite bool_decide_eq_true_2|].
  rewrite bool_decide_eq_false_2; [by apply IH|]. intros Hx. apply Hn. rewrite Hx. by apply list_elem_of_fmap_2.
Qed.
Lemma entry_at_none j p : entry_at j p = None <-> p ∉ e_path <$> j_files j.
Proof.
  unfold entry_at. induction (j_files j) as [|x t IH]; cbn [fmap list_fmap List.find].
  { split; [intros _; apply not_elem_of_nil | done]. }
  rewrite not_elem_of_cons, <- IH. case_bool_decide; naive_solver.
Qed.
Lemma original_out j w p : p ∉ e_path <$> j_files j -> original j w p = files w !! p.
Proof. intros H%entry_at_none. unfold original. by rewrite H. Qed.
Lemma original_files j w w' p : backups w' = backups w -> (p ∉ e_path <$> j_files j -> files w' !! p = files w !! p) ->
  original j w' p = original j w p.
Proof.
  intros Hb Hf. unfold original. destruct (entry_at j p) eqn:E; [by rewrite Hb|]. by apply Hf, entry_at_none.
Qed.
Lemma confined_backup backup p : code_path p = Ok p -> is_ok (confined [] (state_dir ++ [backup]) p) = true.
Proof.
  intros H. destruct (confined_code_path [] (state_dir ++ [backup]) p H) as (_ & [[-> _]|[_ (k & _ & Hk)]]); [done | by inversion Hk].
Qed.

(** ** Restoring *)

Section Restore.
Context (clean : Prop) (j : journal) (orig : pystr -> option file) (K : world -> Prop).

Definition held (ph : phase) (w : world) : Prop :=
  jrnl w = Some (with_phase ph j) /\ intact j w /\ forall p, original j w p = orig p.
(** An open or committed journal whose backup holds [orig]; while it says committed, [K] holds. *)
Definition pend (w : world) : Prop := exists ph, held ph w /\ (ph = Committed -> K w).
Definition restored (w : world) : Prop :=
  jrnl w = None /\ (forall p, files w !! p = orig p) /\ installed w = j_previous j.
Definition stopped (w : world) : Prop := pend w \/ restored w.
Definition spec' {A} (P : world -> Prop) (m : M A) (Q : A -> world -> Prop) : Prop :=
  spec clean P m Q (fun w => ~ clean /\ stopped w) stopped.

Lemma held_pend w : held Restoring w -> stopped w.
Proof. intros H. left. exists Restoring. split; [done | discriminate]. Qed.

Lemma held_running ph r w : held ph w -> held ph (set_running r w).
Proof. intros (H1 & H2 & H3). split_and!; [done | by eapply intact_same | exact H3]. Qed.

Lemma service_spec (P : world -> Prop) v u : u ∈ SERVICES -> (forall w, P w -> held Restoring w) ->
  (forall w, P w -> P (moved v u w)) ->
  spec' P (_service v u) (fun b w => P w /\ (b = false -> ~ clean \/ v = IsActive /\ u ∉ running w) /\ (v = Start -> b = true -> u ∈ running w)).
Proof.
  intros Hu HP Hr o w Hc Hw. unfold _service. rewrite bool_decide_eq_false_2 by (intros Hn; by apply Hn).
  destruct (next o) as [x o'] eqn:E. apply (next_calm clean) in E as [Hc' Hx]; [|done].
  destruct x.
  - split; [done|]. split; [auto|]. split.
    + destruct v; [|discriminate..]. intros H%bool_decide_eq_false. auto.
    + intros -> _. cbn. set_solver.
  - split; [done|]. split; [done|]. split; [intros _; left; by apply Hx | discriminate].
  - split; [done|]. split; [by apply Hx|]. apply held_pend, HP, Hr, Hw.
  - split; [by apply Hx | by apply held_pend, HP].
Qed.

Lemma require_spec (P : world -> Prop) v u msg : u ∈ SERVICES -> (forall w, P w -> held Restoring w) ->
  (forall w, P w -> P (moved v u w)) -> (v = IsActive -> forall w, P w -> u ∈ running w) ->
  spec' P (require v u msg) (fun _ w => P w /\ (v = Start -> u ∈ running w)).
Proof.
  intros Hu HP Hr Ha. eapply spec_bind; [by apply service_spec|]. intros [].
  - apply spec_ret. intros w (H1 & _ & H2). auto.
  - apply spec_raise. intros w (H1 & H2 & _). destruct (H2 eq_refl) as [Hn|[-> Hn]]; [|by destruct Hn; apply Ha].
    split; [done | by apply held_pend, HP].
Qed.

Lemma restart_spec (P : world -> Prop) l : Forall (fun u => u ∈ SERVICES) l -> (forall w, P w -> held Restoring w) ->
  (forall r w, P w -> P (set_running r w)) ->
  spec' P (_restart l) (fun _ w => P w /\ Forall (fun u => u ∈ running w) l).
Proof.
  intros Hl HP Hr. eapply (spec_bind _ _ _ _ (fun _ w => P w /\ Forall (fun u => u ∈ running w) l)).
  - apply (spec_pre _ (fun w => P w /\ Forall (fun u => u ∈ running w) [])); [|intros w Hw; split; [done | apply List.Forall_nil]].
    apply (spec_each _ _ _ (fun pre w => P w /\ Forall (fun u => u ∈ running w) pre)). intros pre u post Hs.
    eapply spec_weaken; [apply (require_spec (fun w => P w /\ Forall (fun u => u ∈ running w) pre) Start u)| | | |]; try done.
    + apply (proj1 (Forall_forall _ _) Hl). rewrite Hs. apply elem_of_app. right. left.
    + intros w [Hw _]. by apply HP.
    + intros w [Hw Hf]. split; [by apply Hr|]. eapply Forall_impl; [exact Hf|]. cbn. set_solver.
    + intros _ w [[Hw Hf] Hu]. split; [done|]. apply Forall_app. split; [done|]. apply Forall_singleton. by apply Hu.
  - intros _. apply spec_same. intros _ _. apply spec_same. intros u Hu.
    eapply spec_weaken; [apply (require_spec (fun w => P w /\ Forall (fun u => u ∈ running w) l) IsActive u)| | | |]; try done.
    + by apply (proj1 (Forall_forall _ _) Hl).
    + intros w [Hw _]. by apply HP.
    + intros _ w [_ Hf]. by apply (proj1 (Forall_forall _ _) Hf).
    + by intros _ w [Hw _].
Qed.

Lemma stop_all (P : world -> Prop) l msg : Forall (fun u => u ∈ SERVICES) l -> (forall w, P w -> held Restoring w) ->
  (forall r w, P w -> P (set_running r w)) -> spec' P (each (fun u => require Stop u msg) (rev l)) (fun _ => P).
Proof.
  intros Hl HP Hr. apply spec_same. intros u Hu%list_elem_of_In%in_rev%list_elem_of_In.
  eapply spec_weaken; [apply (require_spec P Stop u)| | | |]; try done.
  - by apply (proj1 (Forall_forall _ _) Hl).
  - intros w Hw. by apply Hr.
  - by intros _ w [Hw _].
Qed.


Lemma mkdirs_present p o w : (forall q, above q p -> q ∈ dirs w) -> each mkdir (parents p) o w = (Val tt, w, o).
Proof.
  intros H. assert (forall l, (forall q, q ∈ l -> q ∈ dirs w) -> each mkdir l o w = (Val tt, w, o)) as HG.
  { induction l as [|q l IH]; intros Hq; [done|]. cbn [each]. unfold mbind, M_bind at 1, mkdir, is_dir.
    rewrite bool_decide_eq_true_2 by (apply Hq; left). apply IH. intros q' Hq'. apply Hq. by right. }
  apply HG. intros q Hq%parents_above. by apply H.
Qed.

(** Writing one path of the journal changes no restored tree. *)
Lemma held_write ph f e w : held ph w -> e ∈ j_files j ->
  (forall p, p <> e_path e -> f !! p = files w !! p) -> held ph (set_tree f (dirs w) w).
Proof.
  intros (H1 & H2 & H3) He Hf. split_and!; [done | by eapply intact_same|]. intros p. rewrite <- H3. apply original_files; [done|].
  intros Hp. apply Hf. intros ->. apply Hp. by apply list_elem_of_fmap_2.
Qed.

Definition recorded (contents : gmap pystr bytes) : Prop := forall e h, e ∈ j_files j -> e_before e = Some h ->
  exists d, contents !! e_path e = Some d /\ orig (e_path e) = Some {| f_data := d; f_mode := default 420 (e_old_mode e) |}.

Lemma orig_entry ph e w : held ph w -> e ∈ j_files j ->
  orig (e_path e) = match e_before e with
    | Some _ => (fun d => {| f_data := d; f_mode := default 420 (e_old_mode e) |}) <$> backups w !! (j_backup j, e_path e)
    | None => None end.
Proof. intros (_ & Hi & Ho) He. rewrite <- Ho. unfold original. by rewrite (entry_at_in j e (in_distinct _ _ Hi) He). Qed.

Definition upto (pre : list entry) (w : world) : Prop :=
  held Restoring w /\ forall e, e ∈ pre -> files w !! e_path e = orig (e_path e).

Lemma upto_step pre e w f : e ∈ j_files j -> upto pre w -> (forall p, p <> e_path e -> f !! p = files w !! p) ->
  f !! e_path e = orig (e_path e) -> upto (pre ++ [e]) (set_tree f (dirs w) w).
Proof.
  intros He [Hh Hp] Hf Hfe. split; [by apply (held_write _ _ e)|]. intros e' [He'|He'%list_elem_of_singleton]%elem_of_app; [|by subst].
  cbn. destruct (decide (e_path e' = e_path e)) as [->|Hne]; [done|]. rewrite Hf by done. by apply Hp.
Qed.
Lemma upto_stopped pre w : upto pre w -> ~ clean -> (~ clean /\ stopped w) /\ stopped w.
Proof. intros [Hh _] Hn. split; [split; [done|]|]; by apply held_pend. Qed.
Lemma upto_free pre e w : upto pre w -> e ∈ j_files j -> bool_decide (e_path e ∈ dirs w) = false.
Proof. intros [(_ & Hi & _) _] He. apply bool_decide_eq_false_2. by apply (in_dirs j w). Qed.

Lemma replace_step pre e d : e ∈ j_files j -> orig (e_path e) = Some {| f_data := d; f_mode := default 420 (e_old_mode e) |} ->
  spec' (upto pre) (replace (e_path e) d (Some (default 420 (e_old_mode e)))) (fun _ => upto (pre ++ [e])).
Proof.
  intros He Ho. apply spec_act; [|apply upto_stopped]. intros w Hw. unfold is_dir. rewrite (upto_free pre e w Hw He).
  assert (upto (pre ++ [e]) (set_tree (<[e_path e := {| f_data := d; f_mode := default 420 (e_old_mode e) |}]> (files w)) (dirs w) w)) as Hu.
  { apply upto_step; [done | done | intros p Hp; by rewrite lookup_insert_ne | by rewrite lookup_insert_eq, Ho]. }
  split; [exact Hu|]. intros Hn. by apply (upto_stopped _ _ Hu).
Qed.
Lemma remove_step pre e : e ∈ j_files j -> orig (e_path e) = None ->
  spec' (fun w => upto pre w /\ is_Some (files w !! e_path e)) (remove (e_path e)) (fun _ => upto (pre ++ [e])).
Proof.
  intros He Ho. apply spec_act; [|intros w [Hw _]; by apply (upto_stopped pre)]. intros w [Hw [f Hf]]. rewrite Hf.
  assert (upto (pre ++ [e]) (set_tree (delete (e_path e) (files w)) (dirs w) w)) as Hu.
  { apply upto_step; [done | done | intros p Hp; by rewrite lookup_delete_ne | by rewrite lookup_delete_eq, Ho]. }
  split; [exact Hu|]. intros Hn. by apply (upto_stopped _ _ Hu).
Qed.

Lemma put_back_step contents pre e post : recorded contents -> j_files j = pre ++ e :: post ->
  spec' (upto pre) (put_back contents e) (fun _ => upto (pre ++ [e])).
Proof.
  intros Hrec Hj. assert (e ∈ j_files j) as He by (rewrite Hj; apply elem_of_app; right; left).
  apply spec_bind with (R := fun _ => upto pre).
  - apply spec_look; [|apply upto_stopped]. intros w Hw. destruct (in_names _ _ (proj1 (proj2 (proj1 Hw))) e He) as [_ Hc].
    by destruct (confined _ _ _).
  - intros _. destruct (e_before e) as [h|] eqn:Eb.
    + destruct (Hrec e h He Eb) as (d & -> & Ho). intros o w Hc Hw. unfold atomic, mbind, M_bind.
      destruct (in_backup _ _ (proj1 (proj2 (proj1 Hw))) e h He Eb) as [_ Hpar]. rewrite (mkdirs_present _ o w Hpar).
      by apply (replace_step pre e d He Ho).
    + intros o w Hc Hw. assert (orig (e_path e) = None) as Ho by (by rewrite (orig_entry Restoring e w (proj1 Hw) He), Eb).
      unfold exists_, is_dir. rewrite (upto_free pre e w Hw He), orb_false_r. case_bool_decide as Hex.
      * by apply (remove_step pre e He Ho).
      * split; [done|]. destruct Hw as [Hh Hp]. split; [done|]. intros e' [He'|He'%list_elem_of_singleton]%elem_of_app; [by apply Hp|].
        subst e'. rewrite Ho. by apply eq_None_not_Some.
Qed.

Lemma gather_one ph check w c e : held ph w -> e ∈ j_files j -> (check = true -> current w (e_path e) = e_after e) ->
  exists o, gather_entry check (with_phase ph j) w c e = Ok (match o with Some d => <[e_path e := d]> c | None => c end) /\
    match o with Some d => backups w !! (j_backup j, e_path e) = Some d | None => e_before e = None end.
Proof.
  intros (_ & Hi & _) He Hcur. destruct (in_names _ _ Hi e He) as [Hn Hcf]. unfold gather_entry. rewrite Hn. cbn [mbind result_bind].
  destruct (confined (links w) root (e_path e)); [|done]. cbn [mbind result_bind].
  assert (check && negb (bool_decide (current w (e_path e) = e_after e)) = false) as ->.
  { destruct check; [|done]. by rewrite (bool_decide_eq_true_2 _ (Hcur eq_refl)). }
  cbn [raise_if mbind result_bind]. destruct (e_before e) as [h|] eqn:Eb; [|by exists None].
  destruct (in_backup _ _ Hi e h He Eb) as [(d & Hd & Hdig) _]. pose proof (confined_backup (j_backup j) _ Hn) as Hcb.
  cbn [with_phase j_backup]. destruct (confined [] _ _); [|done]. cbn [mbind result_bind]. rewrite Hd. cbn [of_opt mbind result_bind].
  rewrite (bool_decide_eq_true_2 _ Hdig). cbn [negb raise_if mbind result_bind]. by exists (Some d).
Qed.

Lemma gather_all ph check w : held ph w -> (check = true -> forall e, e ∈ j_files j -> current w (e_path e) = e_after e) ->
  exists c, foldM_res (gather_entry check (with_phase ph j) w) ∅ (j_files j) = Ok c /\ recorded c.
Proof.
  intros Hh Hcur. set (fits (c : gmap pystr bytes) := forall p d, c !! p = Some d -> backups w !! (j_backup j, p) = Some d).
  assert (forall (l : list entry) c, (forall e, e ∈ l -> e ∈ j_files j) -> fits c ->
    exists c', foldM_res (gather_entry check (with_phase ph j) w) c l = Ok c' /\ fits c' /\
      (forall p, is_Some (c !! p) -> is_Some (c' !! p)) /\ (forall e h, e ∈ l -> e_before e = Some h -> is_Some (c' !! e_path e))) as HG.
  { induction l as [|e l IH]; intros c Hl Hc; [exists c; split_and!; [done..|by inversion 1]|].
    destruct (gather_one ph check w c e Hh (Hl e ltac:(left)) (fun Hck => Hcur Hck e (Hl e ltac:(left)))) as (o & Ho & Hb).
    set (c1 := match o with Some d => <[e_path e := d]> c | None => c end) in *.
    assert (fits c1 /\ (forall p, is_Some (c !! p) -> is_Some (c1 !! p)) /\ (forall h, e_before e = Some h -> is_Some (c1 !! e_path e))) as (F1 & F2 & F3).
    { destruct o as [d|]; subst c1; [|split_and!; [done | done | congruence]]. split_and!.
      - intros p d' [[<- <-]|[_ Hp]]%lookup_insert_Some; [done | by apply Hc].
      - intros p Hp. destruct (decide (e_path e = p)) as [<-|]; [by rewrite lookup_insert_eq | by rewrite lookup_insert_ne].
      - intros h _. by rewrite lookup_insert_eq. }
    destruct (IH c1 (fun e' He' => Hl e' ltac:(by right)) F1) as (c' & H0 & H1 & H2 & H3). exists c'.
    cbn [foldM_res]. rewrite Ho. cbn [mbind result_bind]. split_and!; [done | done | auto|].
    intros e' h [->|He']%elem_of_cons Hbe; [by eapply H2, F3 | by eapply H3]. }
  destruct (HG (j_files j) ∅) as (c & Hc & Hf & _ & Ht); [done | by intros p d ?%lookup_empty_Some|].
  exists c. split; [done|]. intros e h He Eb. destruct (Ht e h He Eb) as [d Hd]. exists d. split; [done|].
  rewrite (orig_entry ph e w Hh He), Eb. by rewrite (Hf _ _ Hd).
Qed.

(** Everything is back, and only the journal is left. *)
Definition back (w : world) : Prop := held Restoring w /\ forall p, files w !! p = orig p.

Lemma upto_back w : upto (j_files j) w -> back w.
Proof.
  intros [Hh Hf]. split; [done|]. intros p. destruct (entry_at j p) as [e|] eqn:E.
  - unfold entry_at in E. apply List.find_some in E as [He%list_elem_of_In <-%bool_decide_eq_true]. by apply Hf.
  - apply entry_at_none in E. destruct Hh as (_ & _ & Ho). by rewrite <- Ho, original_out.
Qed.

Definition may_restore (check : bool) (w : world) : Prop := exists ph, held ph w /\ (ph = Committed -> K w) /\
  (check = true -> ph = Committed /\ forall e, e ∈ j_files j -> current w (e_path e) = e_after e).

Lemma restore_spec check :
  spec' (may_restore check) (restore check) (fun _ w => restored w /\ Forall (fun u => u ∈ running w) (j_services j)).
Proof.
  assert (forall w, may_restore check w -> stopped w) as Hst.
  { intros w (ph & H1 & H2 & _). left. by exists ph. }
  apply spec_bind with (R := fun j' w => exists ph, j' = with_phase ph j /\ held ph w /\ may_restore check w /\
    (check = true -> ph = Committed /\ forall e, e ∈ j_files j -> current w (e_path e) = e_after e)).
  { apply spec_look; [|intros w Hw Hn; split; [split; [done|]|]; by apply Hst].
    intros w (ph & Hh & Hk & Hc). destruct Hh as (Hj & Hrest). rewrite Hj. cbn. exists ph. split_and!; try done. by exists ph. }
  intros j'. apply spec_at. intros w0 (ph & -> & Hh & Hm & Hc).
  apply spec_bind with (R := fun _ => eq w0).
  { destruct (check && negb (bool_decide (j_phase (with_phase ph j) = Committed))) eqn:E; [|by apply spec_ret].
    apply andb_true_iff in E as [-> E%negb_true_iff%bool_decide_eq_false]. by destruct E; apply Hc. }
  intros []. destruct (gather_all ph check w0 Hh) as (c & Hg & Hrec); [intros ?; by apply Hc|].
  apply spec_bind with (R := fun c' w => c' = c /\ w0 = w).
  { apply spec_look; [intros w <-; change (j_files (with_phase ph j)) with (j_files j); by rewrite Hg | intros w <- Hn; split; [split; [done|]|]; by apply Hst]. }
  intros c'. apply spec_at. intros w1 [-> <-].
  apply spec_bind with (R := fun _ => held Restoring).
  { destruct Hh as (_ & Hi & Ho). assert (held Restoring (set_jrnl (Some (with_phase Restoring j)) w0)) as Hr.
    { split_and!; [done | by eapply intact_same | exact Ho]. }
    apply spec_act; intros w <-; [split; [exact Hr|] |]; intros Hn; split; [done | by apply held_pend | split; [done|] | ]; by apply Hst. }
  intros []. assert (Forall (fun u => u ∈ SERVICES) (j_services j)) as Hsv by (apply (in_services j w0), Hh).
  apply spec_bind with (R := fun _ => held Restoring); [apply stop_all; [done | done | intros; by apply held_running]|]. intros [].
  apply spec_bind with (R := fun _ => back).
  { eapply spec_weaken; [apply (spec_each _ _ _ upto); intros pre e post; by apply put_back_step | | | done | done].
    - intros w Hw. split; [done | by inversion 1].
    - intros a w. apply upto_back. }
  intros []. apply spec_bind with (R := fun _ w => back w /\ Forall (fun u => u ∈ running w) (j_services j)).
  { apply restart_spec; [done | by intros w [Hw _] | intros r w [Hw Hf]; split; [by apply held_running | done]]. }
  intros []. apply spec_bind with (R := fun _ w => back w /\ Forall (fun u => u ∈ running w) (j_services j) /\ installed w = j_previous j).
  { apply spec_act; [|intros w [[Hw _] _] Hn; split; [split; [done|]|]; by apply held_pend].
    intros w [[(H1 & H2 & H3) Hf] Hrun]. assert (held Restoring (set_state (j_previous j) None (available w) w)) as Hr.
    { split_and!; [done | by eapply intact_same | exact H3]. }
    split; [by split_and!|]. intros Hn. split; [done | by apply held_pend]. }
  intros []. apply spec_act; [|intros w [[Hw _] _] Hn; split; [split; [done|]|]; by apply held_pend].
  intros w ([(Hj & _) Hf] & Hrun & Hin). rewrite Hj. assert (restored (set_jrnl None w)) as Hr by by split_and!.
  split; [by split|]. intros Hn. split; [done | by right].
Qed.
End Restore.

(** ** Installing *)

(** The code tree as a file system holds it: a file is no directory and lies in directories. *)
Definition tree_ok (w : world) : Prop := forall p f, files w !! p = Some f -> p ∉ dirs w /\ forall q, above q p -> q ∈ dirs w.
(** No target of the package lies below another. *)
Definition separate (pkg : package) : Prop := forall a b, a ∈ p_files pkg -> b ∈ p_files pkg -> ~ above (i_path a) (i_path b).
Definition item_at (pkg : package) (p : pystr) : option item := List.find (fun it => bool_decide (i_path it = p)) (p_files pkg).
(** The code tree the package describes. *)
Definition wanted (it : item) : option file :=
  match i_after it with Some _ => (fun m => {| f_data := i_content it; f_mode := m |}) <$> i_mode it | None => None end.
Definition patched (pkg : package) (w : world) (p : pystr) : option file :=
  match item_at pkg p with Some it => wanted it | None => files w !! p end.

Lemma preflight_inv inp archive meta w pkg : preflight inp archive meta w = Ok pkg ->
  NoDup (i_path <$> p_files pkg) /\ forall it, it ∈ p_files pkg ->
    code_path (i_path it) = Ok (i_path it) /\ is_ok (confined (links w) root (i_path it)) = true /\
    current w (i_path it) = i_before it /\ (files w !! i_path it = None -> i_path it ∉ dirs w) /\
    (forall h, i_after it = Some h -> digest (i_content it) = h).
Proof.
  unfold preflight. intros H. apply bind_ok_inv in H as (u1 & _ & H). apply bind_ok_inv in H as (ms & _ & H).
  apply bind_ok_inv in H as (pkg' & Hu & H). do 3 (apply bind_ok_inv in H as (? & _ & H)). apply bind_ok_inv in H as (rq & _ & H).
  apply bind_ok_inv in H as (? & _ & H). apply bind_ok_inv in H as (bs & Hb & H). do 2 (apply bind_ok_inv in H as (? & _ & H)).
  apply ok_inj in H as <-. apply unpack_items in Hu as [Hd Hn]. split; [done|]. revert Hb Hn. generalize 0. clear Hd.
  induction (p_files pkg') as [|y l IH]; intros n Hb Hn; [by inversion 1|]. cbn [foldM_res] in Hb. apply bind_ok_inv in Hb as (s & Hx & Hb).
  intros it [->|Hit]%elem_of_cons; [|eapply (IH s); [done | intros ? ?; apply Hn; by right | done]].
  split; [apply Hn; left|]. unfold check_baseline in Hx. apply bind_ok_inv in Hx as (t & -> & Hx).
  apply bind_ok_inv in Hx as (u & Hv%raise_if_ok_inv & _). apply orb_false_iff in Hv as [H1%negb_false_iff%bool_decide_eq_true H2].
  split_and!; [done | done | | apply Hn; left]. intros Hnone Hdir. unfold exists_, is_dir in H2. rewrite Hnone in H2.
  rewrite (bool_decide_eq_true_2 _ Hdir), bool_decide_eq_false_2 in H2 by (by intros [? ?]). done.
Qed.

Section Install.
Context (clean : Prop) (w0 : world) (inp : inputs) (meta : release) (pkg : package).
Context (Htree : tree_ok w0) (Hsep : separate pkg) (Hclosed : open_journal w0 = false).
Context (Hdist : NoDup (i_path <$> p_files pkg)).
Context (Hitems : forall it, it ∈ p_files pkg ->
  code_path (i_path it) = Ok (i_path it) /\ is_ok (confined (links w0) root (i_path it)) = true /\
  current w0 (i_path it) = i_before it /\ (files w0 !! i_path it = None -> i_path it ∉ dirs w0) /\
  (forall h, i_after it = Some h -> digest (i_content it) = h)).

Definition kept (w : world) : Prop := exists b, w = set_backups b w0.
Definition entry_of (it : item) : entry :=
  {| e_path := i_path it; e_before := i_before it; e_after := i_after it; e_old_mode := f_mode <$> files w0 !! i_path it |}.
Definition saved (l : list item) (w : world) : Prop := kept w /\ forall it f, it ∈ l -> files w0 !! i_path it = Some f ->
  backups w !! (in_uuid inp, i_path it) = Some (f_data f).
Definition log (services : list pystr) : journal :=
  {| j_phase := Prepared; j_backup := in_uuid inp; j_files := entry_of <$> p_files pkg; j_services := services;
     j_previous := installed w0; j_release := meta |}.
Definition old (p : pystr) : option file := files w0 !! p.
Definition settable : Prop := forall it, it ∈ p_files pkg -> i_after it <> None -> is_Some (i_mode it).
Definition new (w : world) : Prop := (forall p, files w !! p = patched pkg w0 p) /\ installed w = Some (meta, in_now inp).

Lemma kept_refl : kept w0.
Proof. exists (backups w0). by destruct w0. Qed.

Lemma active_spec l : spec clean kept (active l) (fun r w => kept w /\ Forall (fun u => u ∈ SERVICES) r) kept kept.
Proof.
  induction l as [|u l IH]; cbn [active]; [apply spec_ret; intros w Hw; split; [done | apply List.Forall_nil]|].
  apply spec_bind with (R := fun b w => kept w /\ (b = true -> u ∈ SERVICES)).
  - intros o w Hc Hw. unfold _service. case_bool_decide as Hu; [by split|]. destruct (next o) as [x o'] eqn:E.
    apply (next_calm clean) in E as [Hc' Hx]; [|done]. destruct x; split; try done; try split; try done; by apply Hx.
  - intros ok. apply spec_at. intros w [Hw Hu]. eapply spec_bind; [eapply spec_pre; [exact IH | by intros ? <-]|].
    intros r. apply spec_ret. intros w' [Hw' Hr]. split; [done|]. destruct ok; [constructor; auto | done].
Qed.

Lemma save_original_spec pre it : it ∈ p_files pkg ->
  spec clean (saved pre) (save_original (in_uuid inp) it) (fun e w => saved (pre ++ [it]) w /\ e = entry_of it) kept kept.
Proof.
  intros Hit. apply spec_bind with (R := fun o w => saved pre w /\ o = files w0 !! i_path it).
  - apply spec_look; [|intros w [Hw _] _; by split]. intros w [[b ->] Hs].
    destruct (confined _ _ _); [|by exists b]. cbn [mbind result_bind files set_backups]. destruct (files w0 !! i_path it) as [f|].
    + destruct (raise_if _ _); [|by exists b]. cbn [mbind result_bind]. split; [|done]. split; [by exists b | done].
    + destruct (raise_if _ _); [|by exists b]. cbn [mbind result_bind]. split; [|done]. split; [by exists b | done].
  - intros o. apply spec_at. intros w [[Hk Hs] ->].
    apply spec_bind with (R := fun _ => saved (pre ++ [it])).
    2:{ intros []. apply spec_ret. intros w' Hw'. split; [done|]. done. }
    destruct (files w0 !! i_path it) as [f|] eqn:Ef.
    + apply spec_bind with (R := fun _ => eq w).
      * apply spec_look; [intros w' <-; by destruct (confined _ _ _) | by intros w' <-].
      * intros a. apply spec_act; [|by intros w' <-]. intros w' <-.
        assert (saved (pre ++ [it]) (set_backups (<[(in_uuid inp, i_path it) := f_data f]> (backups w)) w)) as Hn.
        { destruct Hk as [b ->]. split; [by eexists|]. intros it' f' [Hi|Hi%list_elem_of_singleton]%elem_of_app Hf'; cbn.
          - destruct (decide (i_path it' = i_path it)) as [He|He].
            + rewrite He, lookup_insert_eq. congruence.
            + rewrite lookup_insert_ne by congruence. by apply (Hs it').
          - subst it'. rewrite lookup_insert_eq. congruence. }
        split; [exact Hn|]. intros _. apply Hn.
    + apply spec_ret. intros w' <-. split; [done|]. intros it' f' [Hi|Hi%list_elem_of_singleton]%elem_of_app Hf'; [by apply (Hs it')|]. congruence.
Qed.

Lemma save_originals_spec : spec clean kept (save_originals (in_uuid inp) (p_files pkg))
  (fun es w => saved (p_files pkg) w /\ es = entry_of <$> p_files pkg) kept kept.
Proof.
  assert (forall post pre, p_files pkg = pre ++ post -> spec clean (saved pre) (save_originals (in_uuid inp) post)
    (fun es w => saved (p_files pkg) w /\ es = entry_of <$> post) kept kept) as HG.
  { induction post as [|it post IH]; intros pre Hp; cbn [save_originals].
    - apply spec_ret. rewrite app_nil_r in Hp. by rewrite Hp.
    - eapply spec_bind; [apply (save_original_spec pre); rewrite Hp; apply elem_of_app; right; left|].
      intros e. apply spec_at. intros w [Hw ->]. eapply spec_bind.
      + eapply spec_pre; [apply (IH (pre ++ [it])); by rewrite <- app_assoc | by intros ? <-].
      + intros es. apply spec_ret. by intros w' [Hw' ->]. }
  eapply spec_pre; [apply (HG (p_files pkg) []); done|]. intros w Hw. split; [done | by inversion 1].
Qed.

Section Body.
Context (services : list pystr) (Hserv : Forall (fun u => u ∈ SERVICES) services).
Local Notation J := (log services).
Definition pending (w : world) : Prop := pend J old new w.

Lemma paths_log : e_path <$> j_files J = i_path <$> p_files pkg.
Proof. cbn. rewrite <- list_fmap_compose. done. Qed.

Lemma log_held w : saved (p_files pkg) w -> held J old Prepared (set_jrnl (Some J) w).
Proof.
  intros [[b ->] Hs]. cbn in Hs.
  assert (intact J (set_jrnl (Some J) (set_backups b w0))) as Hi.
  { split.
    - rewrite paths_log. exact Hdist.
    - exact Hserv.
    - intros e (it & -> & Hit)%list_elem_of_fmap. destruct (Hitems it Hit) as (Hc1 & Hc2 & _). done.
    - intros e (it & -> & Hit)%list_elem_of_fmap. destruct (Hitems it Hit) as (_ & _ & _ & Hd & _). cbn.
      destruct (files w0 !! i_path it) as [f|] eqn:Ef; [apply (Htree _ _ Ef) | auto].
    - intros e h (it & -> & Hit)%list_elem_of_fmap Hb. cbn in *. destruct (Hitems it Hit) as (_ & _ & Hcur & _).
      unfold current in Hcur. rewrite Hb in Hcur. destruct (files w0 !! i_path it) as [f|] eqn:Ef; [|done]. injection Hcur as Hcur.
      split; [exists (f_data f); split; [by apply Hs | done] | apply (Htree _ _ Ef)]. }
  split; [done|]. split; [exact Hi|]. intros p. unfold original. destruct (entry_at J p) as [e|] eqn:E; [|done].
  unfold entry_at in E. apply List.find_some in E as [He%list_elem_of_In Hp%bool_decide_eq_true].
  cbn [log j_files] in He. apply list_elem_of_fmap in He as (it & -> & Hit). cbn in *. subst p. unfold old.
  destruct (Hitems it Hit) as (_ & _ & Hcur & _). unfold current in Hcur.
  destruct (files w0 !! i_path it) as [f|] eqn:Ef; cbn in Hcur; rewrite <- Hcur; [|done]. rewrite (Hs it f Hit Ef). cbn. by destruct f.
Qed.

Lemma held_pending w : held J old Prepared w -> pending w.
Proof. intros H. exists Prepared. split; [done | discriminate]. Qed.

Lemma require_any (P : world -> Prop) v u msg : (forall w, P w -> P (moved v u w)) -> (forall w, P w -> held J old Prepared w) ->
  spec clean P (require v u msg) (fun _ => P) pending pending.
Proof.
  intros Hr HP. assert (forall w, P w -> pending w) as Hp by (intros w Hw; by apply held_pending, HP).
  apply spec_bind with (R := fun _ => P).
  - intros o w Hc Hw. unfold _service. case_bool_decide as Hu; [split; [done | by apply Hp]|]. destruct (next o) as [x o'] eqn:E.
    apply (next_calm clean) in E as [Hc' Hx]; [|done]. destruct x; split; auto; by apply Hx.
  - intros []; [by apply spec_ret | by apply spec_raise].
Qed.

(** Creating the directories above a target leaves the journal's tree as it is. *)
Lemma mkdirs_spec (P : gmap pystr file -> Prop) it : it ∈ p_files pkg ->
  spec clean (fun w => held J old Prepared w /\ P (files w)) (each mkdir (parents (i_path it)))
    (fun _ w => held J old Prepared w /\ P (files w)) pending pending.
Proof.
  intros Hit. apply spec_same. intros q Hq%parents_above o w Hc [Hh HP]. unfold mkdir. destruct (is_dir w q) eqn:Eq; [by split|].
  revert o w Hc Hh HP Eq. cut (spec clean (fun w => held J old Prepared w /\ P (files w))
    (act (fun w => match files w !! q with Some _ => Err PyExn | None => Ok (set_tree (files w) ({[q]} ∪ dirs w) w) end))
    (fun _ w => held J old Prepared w /\ P (files w)) pending pending).
  { intros H o w Hc Hh HP _. exact (H o w Hc (conj Hh HP)). }
  apply spec_act; [|intros w [Hh _] _; split; by apply held_pending]. intros w [Hh HP].
  destruct (files w !! q); [by apply held_pending|].
  assert (held J old Prepared (set_tree (files w) ({[q]} ∪ dirs w) w)) as Hn.
  { destruct Hh as (H1 & [I1 I2 I3 I4 I5] & H3). split; [done|]. split; [|exact H3]. split; cbn; [done | done | done | |].
    - intros e He. specialize (I4 e He). apply list_elem_of_fmap in He as (it' & -> & Hit'). cbn in *.
      intros [Hqe%elem_of_singleton|]%elem_of_union; [|done]. rewrite <- Hqe in Hq. exact (Hsep it' it Hit' Hit Hq).
    - intros e h He Hb. destruct (I5 e h He Hb) as [Hbk Hpar]. split; [done|]. intros q' Hq'. apply elem_of_union. right. auto. }
  split; [by split|]. intros _. by apply held_pending.
Qed.

Definition placed (pre : list item) (w : world) : Prop :=
  held J old Prepared w /\ forall it, it ∈ pre -> files w !! i_path it = wanted it /\ (i_after it <> None -> is_Some (i_mode it)).

Lemma put_item_step pre it post : p_files pkg = pre ++ it :: post ->
  spec clean (placed pre) (put_item it) (fun _ => placed (pre ++ [it])) pending pending.
Proof.
  intros Hp. assert (it ∈ p_files pkg) as Hit by (rewrite Hp; apply elem_of_app; right; left).
  assert (forall w, placed pre w -> pending w) as Hpend by (intros w [Hh _]; by apply held_pending).
  assert (forall w f, placed pre w -> (forall p, p <> i_path it -> f !! p = files w !! p) -> f !! i_path it = wanted it ->
    (i_after it <> None -> is_Some (i_mode it)) -> placed (pre ++ [it]) (set_tree f (dirs w) w)) as Hstep.
  { intros w f [Hh Hpl] Hf Hfe Hmo. split.
    - apply (held_write _ _ _ _ (entry_of it)); [done | cbn; by apply list_elem_of_fmap_2 | done].
    - intros it' [Hi|Hi%list_elem_of_singleton]%elem_of_app; [|by subst]. cbn.
      destruct (decide (i_path it' = i_path it)) as [He|Hne]; [|rewrite Hf by done; by apply Hpl].
      exfalso. pose proof Hdist as Hd. rewrite Hp, fmap_app in Hd. apply NoDup_app in Hd as (_ & Hd & _).
      apply (Hd (i_path it')); [by apply list_elem_of_fmap_2|]. rewrite He. cbn. left. }
  apply spec_bind with (R := fun _ => placed pre).
  { apply spec_look; [|intros w Hw _; split; by apply Hpend]. intros w Hw. destruct (confined _ _ _); [done | by apply Hpend]. }
  intros a. destruct (i_after it) as [h|] eqn:Ea.
  - eapply spec_bind; [apply (mkdirs_spec (fun f => forall it', it' ∈ pre -> f !! i_path it' = wanted it' /\ (i_after it' <> None -> is_Some (i_mode it'))) it Hit)|]. intros [].
    apply spec_act; [|intros w Hw _; split; by apply Hpend]. intros w Hw.
    destruct (i_mode it) as [m|] eqn:Em; [|by apply Hpend]. destruct (is_dir w (i_path it)); [by apply Hpend|].
    assert (placed (pre ++ [it]) (set_tree (<[i_path it := {| f_data := i_content it; f_mode := m |}]> (files w)) (dirs w) w)) as Hn.
    { apply Hstep; [done | intros p Hne; by rewrite lookup_insert_ne | rewrite lookup_insert_eq; unfold wanted; by rewrite Ea, Em | by eexists]. }
    split; [exact Hn|]. intros _. apply held_pending, Hn.
  - intros o w Hc Hw. assert (wanted it = None) as Hwn by (unfold wanted; by rewrite Ea). destruct (exists_ w (i_path it)) eqn:Ex.
    + revert o w Hc Hw Ex. cut (spec clean (placed pre) (remove (i_path it)) (fun _ => placed (pre ++ [it])) pending pending).
      { intros H o w Hc Hw _. exact (H o w Hc Hw). }
      apply spec_act; [|intros w Hw _; split; by apply Hpend]. intros w Hw. destruct (files w !! i_path it); [|by apply Hpend].
      assert (placed (pre ++ [it]) (set_tree (delete (i_path it) (files w)) (dirs w) w)) as Hn.
      { apply Hstep; [done | intros p Hne; by rewrite lookup_delete_ne | by rewrite lookup_delete_eq | done]. }
      split; [exact Hn|]. intros _. apply held_pending, Hn.
    + split; [done|]. destruct Hw as [Hh Hpl]. split; [done|]. intros it' [Hi|Hi%list_elem_of_singleton]%elem_of_app; [by apply Hpl|].
      subst it'. rewrite Hwn. split; [|done]. apply orb_false_iff in Ex as [Ex%bool_decide_eq_false _]. by apply eq_None_not_Some.
Qed.

Lemma placed_all w : placed (p_files pkg) w -> held J old Prepared w /\ (forall p, files w !! p = patched pkg w0 p) /\ settable.
Proof.
  intros [Hh Hpl]. split; [done|]. split; [|intros it Hit; by apply Hpl]. intros p. unfold patched. destruct (item_at pkg p) as [it|] eqn:E.
  - unfold item_at in E. apply List.find_some in E as [He%list_elem_of_In Hp%bool_decide_eq_true]. subst p. by apply Hpl.
  - destruct Hh as (_ & _ & Ho). unfold item_at in E. rewrite <- (original_out J w p), Ho; [done|].
    rewrite paths_log. intros (it & -> & Hit)%list_elem_of_fmap.
    pose proof (List.find_none _ _ E it (proj1 (list_elem_of_In _ _) Hit)) as Hn. by apply bool_decide_eq_false in Hn.
Qed.

Lemma body_spec : spec clean (held J old Prepared) (change inp meta pkg J) (fun _ w => held J old Committed w /\ new w /\ settable) pending pending.
Proof.
  assert (forall (P : world -> Prop) v l msg, (forall u w, P w -> P (moved v u w)) -> (forall w, P w -> held J old Prepared w) ->
    spec clean P (each (fun u => require v u msg) l) (fun _ => P) pending pending) as Hall.
  { intros P v l msg Hm HP. apply spec_same. intros u _. apply require_any; auto. }
  assert (forall v u w, held J old Prepared w -> held J old Prepared (moved v u w)) as Hmv.
  { intros [] u w Hw; [done | by apply held_running..]. }
  apply spec_bind with (R := fun _ => held J old Prepared); [apply Hall; auto|]. intros [].
  apply spec_bind with (R := fun _ w => held J old Prepared w /\ (forall p, files w !! p = patched pkg w0 p) /\ settable).
  { eapply spec_weaken; [apply (spec_each _ _ _ placed); intros pre it post; apply put_item_step | | | done | done].
    - intros w Hw. split; [done | by inversion 1].
    - intros a w. apply placed_all. }
  intros []. apply spec_bind with (R := fun _ w => held J old Prepared w /\ (forall p, files w !! p = patched pkg w0 p) /\ settable).
  { unfold _restart. assert (forall v u w, held J old Prepared w /\ (forall p, files w !! p = patched pkg w0 p) /\ settable ->
      held J old Prepared (moved v u w) /\ (forall p, files (moved v u w) !! p = patched pkg w0 p) /\ settable) as Hmf.
    { intros v u w [Hh Hf]. split; [by apply Hmv | by destruct v]. }
    eapply spec_bind; [apply Hall; [intros u w; apply Hmf | by intros w [? _]]|]. intros [].
    apply spec_same. intros _ _. apply Hall; [intros u w; apply Hmf | by intros w [? _]]. }
  intros []. apply spec_bind with (R := fun _ w => held J old Prepared w /\ new w /\ settable).
  { apply spec_act; [|intros w [Hh _] _; split; by apply held_pending]. intros w [(H1 & H2 & H3) [Hf Hset]].
    assert (held J old Prepared (set_state (Some (meta, in_now inp)) None (available w) w)) as Hn.
    { split_and!; [done | by eapply intact_same | exact H3]. }
    split; [split_and!; [exact Hn | by split | done]|]. intros _. by apply held_pending. }
  intros []. apply spec_act; [|intros w [Hh _] _; split; by apply held_pending]. intros w [(H1 & H2 & H3) [Hf Hset]].
  assert (held J old Committed (set_jrnl (Some (with_phase Committed J)) w)) as Hn.
  { split_and!; [done | by eapply intact_same | exact H3]. }
  split; [by split_and!|]. intros _. exists Committed. by split.
Qed.

Definition failed (w : world) : Prop := restored J old w \/ ~ clean /\ stopped J old new w.
Lemma attempt_spec : spec clean (held J old Prepared) (catch (change inp meta pkg J) undo) (fun _ w => held J old Committed w /\ new w /\ settable)
  failed (stopped J old new).
Proof.
  apply spec_catch with (Y := pending).
  - eapply spec_weaken; [apply body_spec | done.. |]. intros w Hw. by left.
  - apply spec_bind with (R := fun _ => restored J old).
    + eapply spec_weaken; [apply (restore_spec clean J old new false) | | | | done].
      * intros w (ph & Hh & Hk). exists ph. by split_and!.
      * by intros a w [Hw _].
      * intros w Hw. by right.
    + intros []. apply spec_raise. intros w Hw. by left.
Qed.
End Body.

(** What an installation can leave: the old world with more backups, a journal of this installation, the old code, or the
    new. *)
Definition logged (w : world) : Prop := exists services, Forall (fun u => u ∈ SERVICES) services /\ MANAGER ∈ services /\ pend (log services) old new w.
Definition reverted (w : world) : Prop := jrnl w = None /\ (forall p, files w !! p = old p) /\ installed w = installed w0.
Definition finished (w : world) : Prop := (exists services, MANAGER ∈ services /\ Forall (fun u => u ∈ SERVICES) services /\ held (log services) old Committed w) /\ new w /\ settable.

Lemma install_rest : spec clean kept (apply_package inp meta pkg)
  (fun _ => finished) (fun w => kept w \/ reverted w \/ ~ clean /\ logged w) (fun w => kept w \/ reverted w \/ logged w).
Proof.
  eapply spec_bind; [eapply spec_weaken; [apply active_spec | done | intros a w Hw; exact Hw | by left | by left]|].
  intros services. apply spec_at. intros w1 [Hk Hs]. apply spec_bind with (R := fun _ w => w1 = w /\ MANAGER ∈ services).
  { case_bool_decide as Hm; [apply spec_raise; intros w <-; by left|]. apply spec_ret. intros w <-.
    done. }
  intros []. apply spec_at. intros w2 [<- Hm].
  eapply spec_bind; [eapply spec_weaken; [apply save_originals_spec | by intros ? <- | intros a w Hw; exact Hw | by left | by left]|].
  intros es. apply spec_at. intros w3 [Hsv ->]. apply spec_bind with (R := fun i w => i = installed w0 /\ w3 = w).
  { apply spec_look; [intros w <-; destruct Hsv as [[b ->] _]; done | intros w <- _; split; left; apply Hsv]. }
  intros i. apply spec_at. intros w4 [-> <-]. fold (log services).
  assert (forall w, stopped (log services) old new w -> reverted w \/ logged w) as Hst.
  { intros w [Hw|Hw]; [right; by exists services | by left]. }
  apply spec_bind with (R := fun _ => held (log services) old Prepared).
  { apply spec_act; [|intros w <- _; split; left; apply Hsv]. intros w <-. pose proof (log_held services Hs w3 Hsv) as Hh. split; [exact Hh|].
    intros Hn. right. right. split; [done|]. exists services. split_and!; [done.. | by apply held_pending]. }
  intros []. eapply spec_weaken; [apply (attempt_spec services) | done | | |].
  - intros a w [Hh Hnew]. split; [by exists services | done].
  - intros w [Hw|[Hn Hw]]; [right; by left|]. right. destruct (Hst w Hw) as [?|?]; [by left | by right].
  - intros w Hw. right. by apply Hst.
Qed.


Definition unchanged (w : world) : Prop := files w = files w0 /\ installed w = installed w0.
Definition settled (w : world) : Prop := open_journal w = false /\ (unchanged w \/ new w).

Lemma kept_settled w : kept w -> settled w.
Proof. intros [b ->]. split; [exact Hclosed | by left]. Qed.
Lemma reverted_settled w : reverted w -> settled w.
Proof. intros (Hj & Hf & Hi). split; [unfold open_journal; by rewrite Hj|]. left. split; [by apply map_eq | done]. Qed.
Lemma logged_closed w : logged w -> open_journal w = false -> new w.
Proof.
  intros (sv & _ & _ & ph & (Hj & _) & Hk) Ho. apply Hk. unfold open_journal in Ho. rewrite Hj in Ho.
  by apply negb_false_iff, bool_decide_eq_true in Ho.
Qed.
Lemma finished_closed w : finished w -> open_journal w = false /\ new w.
Proof. intros [(sv & _ & _ & Hj & _) [Hn _]]. split; [unfold open_journal; by rewrite Hj | done]. Qed.
Lemma sane_running r w : settled w \/ logged w -> settled (set_running r w) \/ logged (set_running r w).
Proof.
  intros [Hw|(sv & H1 & H2 & ph & Hh & Hk)]; [by left|]. right. exists sv. split_and!; [done..|]. exists ph.
  split; [by apply held_running | done].
Qed.

(** A recovery keeps the choice between old and new, and one without trouble makes it. *)
Lemma recover_sane (quiet : Prop) o w : calm quiet o -> settled w \/ logged w ->
  match recover o w with
  | (Val tt, w', _) => settled w' /\ (open_journal w = true -> MANAGER ∈ running w')
  | (_, w', _) => ~ quiet /\ (settled w' \/ logged w')
  end.
Proof.
  intros Hc Hw. unfold recover. destruct (open_journal w) eqn:Eo.
  - destruct Hw as [[Hw _]|(sv & Hsv & Hm & Hp)]; [congruence|].
    assert (may_restore (log sv) old new false w) as Hmay by (destruct Hp as (ph & Hh & Hk); exists ph; by split_and!).
    pose proof (restore_spec quiet (log sv) old new false o w Hc Hmay) as Hr.
    assert (forall w', stopped (log sv) old new w' -> settled w' \/ logged w') as Hst.
    { intros w' [Hw'|Hw']; [right; by exists sv | left; by apply reverted_settled]. }
    destruct (restore false o w) as [[[[]| |] w'] o'].
    + destruct Hr as [_ [Hr Hrun]]. split; [by apply reverted_settled|]. intros _. by apply (proj1 (Forall_forall _ _) Hrun).
    + destruct Hr as [_ [Hn Hr]]. split; [done | by apply Hst].
    + destruct Hr as [Hn Hr]. split; [done | by apply Hst].
  - cbn. split; [|done]. destruct Hw as [Hw|Hw]; [done|]. split; [done|]. right. by apply logged_closed.
Qed.
End Install.

(** ** From installation to the last recovery *)

Definition world_of {A} (r : run A * world * list outcome) : world := r.1.2.
(** Recoveries that may fail or be cut short; before each the machine may have restarted, with other services running. *)
Definition recoveries (attempts : list (list outcome * gset pystr)) (w : world) : world :=
  fold_left (fun w a => world_of (recover a.1 (set_running a.2 w))) attempts w.
Definition offered (inp : inputs) (expected : pystr) (w0 : world) (meta : release) (pkg : package) : Prop :=
  verify signature_ok pub (default [] (staged_manifest w0)) = Ok meta /\ r_sha256 meta = expected /\
  exists archive, staged_tgz w0 = Some archive /\ preflight inp archive meta w0 = Ok pkg.

Lemma recoveries_sane w0 inp meta pkg attempts w : settled w0 inp meta pkg w \/ logged w0 inp meta pkg w ->
  settled w0 inp meta pkg (recoveries attempts w) \/ logged w0 inp meta pkg (recoveries attempts w).
Proof.
  revert w. induction attempts as [|[o r] l IH]; intros w Hw; [done|]. apply IH. cbn [fst snd].
  pose proof (recover_sane w0 inp meta pkg False o (set_running r w) (False_ind _) (sane_running w0 inp meta pkg r w Hw)) as H.
  unfold world_of. destruct (recover o (set_running r w)) as [[[[]| |] w'] o']; [left; apply H | apply H..].
Qed.

Section Whole.
Context (inp : inputs) (expected : pystr) (w0 : world).
Context (Htree : tree_ok w0) (Hclosed : open_journal w0 = false).
Context (Hsep : forall meta pkg, offered inp expected w0 meta pkg -> separate pkg).

Definition intact_old (w : world) : Prop := open_journal w = false /\ unchanged w0 w.
Definition installing (w : world) : Prop := exists meta pkg, offered inp expected w0 meta pkg /\ logged w0 inp meta pkg w.
Definition installed_new (w : world) : Prop := exists meta pkg, offered inp expected w0 meta pkg /\ finished w0 inp meta pkg w.

Lemma install_spec (quiet : Prop) : spec quiet (eq w0) (install inp expected) (fun _ => installed_new)
  (fun w => intact_old w \/ ~ quiet /\ installing w) (fun w => intact_old w \/ installing w).
Proof.
  assert (intact_old w0) as Hw0 by done.
  assert (forall A (f : world -> result pexn A), spec quiet (eq w0) (look f) (fun a w => w0 = w /\ f w0 = Ok a)
    (fun w => intact_old w \/ ~ quiet /\ installing w) (fun w => intact_old w \/ installing w)) as Hlook.
  { intros A f. apply spec_look; [|intros w <- _; split; by left]. intros w <-. destruct (f w0); [done | by left]. }
  eapply spec_bind; [apply Hlook|]. intros meta. apply spec_at. intros w [<- Hm].
  apply spec_bind with (R := fun _ w => w0 = w /\ r_sha256 meta = expected).
  { case_bool_decide as He; [apply spec_raise; intros w <-; by left|]. apply spec_ret. intros w <-. split; [done|]. by destruct (decide (expected = r_sha256 meta)). }
  intros []. apply spec_at. intros w [<- He]. eapply spec_bind; [apply Hlook|]. intros archive. apply spec_at. intros w [<- Ha].
  eapply spec_bind; [apply Hlook|]. intros pkg. apply spec_at. intros w [<- Hp]. eapply spec_bind; [apply Hlook|].
  intros []. apply spec_at. intros w [<- _].
  assert (offered inp expected w0 meta pkg) as Hoff.
  { split_and!; [done..|]. exists archive. split; [|done]. unfold of_opt in Ha. destruct (staged_tgz w0); [|done]. by injection Ha as ->. }
  destruct (preflight_inv _ _ _ _ _ Hp) as [Hd Hi].
  assert (forall w, kept w0 w \/ reverted w0 w -> intact_old w) as Hold.
  { intros w [[b ->]|(Hj & Hf & Hin)]; [done|]. split; [unfold open_journal; by rewrite Hj|]. split; [by apply map_eq | done]. }
  eapply spec_weaken; [apply (install_rest quiet w0 inp meta pkg Htree (Hsep _ _ Hoff) Hd Hi) | | | |].
  - intros w <-. exists (backups w0). by destruct w0.
  - intros a w Hw. by exists meta, pkg.
  - intros w [Hw|[Hw|[Hn Hw]]]; [left; apply Hold; by left | left; apply Hold; by right | right]. split; [done|]. by exists meta, pkg.
  - intros w [Hw|[Hw|Hw]]; [left; apply Hold; by left | left; apply Hold; by right | right]. by exists meta, pkg.
Qed.
End Whole.

Lemma recover_closed o w : open_journal w = false -> recover o w = (Val tt, w, o).
Proof. intros H. unfold recover. by rewrite H. Qed.
Lemma recoveries_closed attempts w : open_journal w = false -> exists r, recoveries attempts w = set_running r w.
Proof.
  revert w. induction attempts as [|[o r] l IH]; intros w Hw; [exists (running w); by destruct w|].
  change (recoveries ((o, r) :: l) w) with (recoveries l (world_of (recover o (set_running r w)))).
  rewrite recover_closed by exact Hw. destruct (IH (set_running r w) Hw) as [r' H]. exists r'. exact H.
Qed.

(** The new code and record of an accepted package. *)
Definition updated (inp : inputs) (expected : pystr) (w0 w : world) : Prop := exists meta pkg,
  offered inp expected w0 meta pkg /\ (forall p, files w !! p = patched pkg w0 p) /\ installed w = Some (meta, in_now inp).

Lemma recovers inp expected w0 meta pkg attempts w : offered inp expected w0 meta pkg ->
  settled w0 inp meta pkg w \/ logged w0 inp meta pkg w ->
  let '(r, w', _) := recover [] (recoveries attempts w) in
  r = Val tt /\ open_journal w' = false /\ (unchanged w0 w' \/ updated inp expected w0 w') /\
  (open_journal (recoveries attempts w) = true -> MANAGER ∈ running w').
Proof.
  intros Hoff Hw. pose proof (recoveries_sane w0 inp meta pkg attempts w Hw) as Hsane.
  pose proof (recover_sane w0 inp meta pkg True [] _ (fun _ => List.Forall_nil _) Hsane) as Hrec.
  destruct (recover [] (recoveries attempts w)) as [[[[]| |] w'] o']; [|by destruct Hrec..]. destruct Hrec as [[H2 H3] H4].
  split_and!; try done. destruct H3 as [H3|H3]; [by left | right]. by exists meta, pkg.
Qed.

Lemma patch_result inp expected w0 o attempts :
  tree_ok w0 -> open_journal w0 = false -> (forall meta pkg, offered inp expected w0 meta pkg -> separate pkg) ->
  let '(r1, w1, _) := install inp expected o w0 in
  let w2 := recoveries attempts w1 in
  let '(r3, w3, _) := recover [] w2 in
  r3 = Val tt /\ open_journal w3 = false /\ (unchanged w0 w3 \/ updated inp expected w0 w3) /\
  (open_journal w2 = true -> MANAGER ∈ running w3) /\
  (r1 = Val tt -> updated inp expected w0 w1) /\
  (r1 <> Val tt -> Forall (eq Good) o -> open_journal w1 = false /\ unchanged w0 w1).
Proof.
  intros Ht Hc Hs. pose proof (install_spec inp expected w0 Ht Hc Hs (Forall (eq Good) o) o w0 (fun H => H) eq_refl) as H1.
  destruct (install inp expected o w0) as [[r1 w1] o1].
  assert (intact_old w0 w1 \/ installing inp expected w0 w1 \/ installed_new inp expected w0 w1) as Hcase.
  { destruct r1 as [a| |]; [right; right; apply H1 | destruct H1 as [_ [?|[_ ?]]] | destruct H1 as [_ [?|?]]]; auto. }
  assert ((r1 = Val tt -> updated inp expected w0 w1) /\
          (r1 <> Val tt -> Forall (eq Good) o -> open_journal w1 = false /\ unchanged w0 w1)) as [Hret1 Hret2].
  { split; intros Hr; destruct r1 as [[]| |]; try done.
    - destruct H1 as [_ (meta & pkg & Ho & [_ Hn]%finished_closed)]. by exists meta, pkg.
    - intros Hq. by destruct H1 as [_ [?|[Hn _]]].
    - intros Hq. by destruct H1 as [Hn _]. }
  cbn zeta in *. destruct Hcase as [[Ho Hu]|Hcase].
  - destruct (recoveries_closed attempts w1 Ho) as [r ->]. rewrite recover_closed by exact Ho.
    split_and!; try done; [by left | intros Hn; unfold open_journal in *; cbn in Hn; congruence].
  - assert (exists meta pkg, offered inp expected w0 meta pkg /\ (settled w0 inp meta pkg w1 \/ logged w0 inp meta pkg w1)) as (meta & pkg & Hoff & Hsane).
    { destruct Hcase as [(meta & pkg & Hoff & Hl)|(meta & pkg & Hoff & [Ho Hn]%finished_closed)]; exists meta, pkg; split; auto.
      left. split; [done | by right]. }
    pose proof (recovers inp expected w0 meta pkg attempts w1 Hoff Hsane) as Hrec.
    destruct (recover [] (recoveries attempts w1)) as [[r3 w3] o3]. destruct Hrec as (? & ? & ? & ?). by split_and!.
Qed.

(** C10. A patch is all or nothing, also across failures and power loss.  Start an installation on any consistent code tree
    without an open journal, of a package none of whose target paths lies below another; let any steps of it fail or the machine
    stop anywhere; let any number of recoveries be cut short or fail the same way.  Then one recovery without trouble
    succeeds, the journal is closed, and the code tree with all file modes and the installed record are exactly the old
    ones or exactly those of the package; if a journal was open, the management service runs.  An installation that
    returns has put the new ones in place, and one that fails without a fault of disk or services has put the old
    ones back by itself. *)
Theorem patch_atomic inp expected w0 o attempts :
  tree_ok w0 -> open_journal w0 = false -> (forall meta pkg, offered inp expected w0 meta pkg -> separate pkg) ->
  let '(r1, w1, _) := install inp expected o w0 in
  let w2 := recoveries attempts w1 in
  let '(r3, w3, _) := recover [] w2 in
  r3 = Val tt /\ open_journal w3 = false /\ (unchanged w0 w3 \/ updated inp expected w0 w3) /\
  (open_journal w2 = true -> MANAGER ∈ running w3) /\
  (r1 = Val tt -> updated inp expected w0 w1) /\
  (r1 <> Val tt -> Forall (eq Good) o -> open_journal w1 = false /\ unchanged w0 w1).
Proof. apply patch_result. Qed.

Lemma patch_spec_crash inp expected w0 o w1 rest r :
  tree_ok w0 -> open_journal w0 = false -> (forall meta pkg, offered inp expected w0 meta pkg -> separate pkg) ->
  install inp expected o w0 = (Crash, w1, rest) ->
  let '(r3, w3, _) := recover [] (set_running r w1) in
  r3 = Val tt /\ open_journal w3 = false /\ (unchanged w0 w3 \/ updated inp expected w0 w3).
Proof.
  intros Ht Hc Hs Hi. pose proof (patch_result inp expected w0 o [([Halt], r)] Ht Hc Hs) as H. rewrite Hi in H.
  assert (world_of (recover [Halt] (set_running r w1)) = set_running r w1) as Hw.
  { unfold recover. destruct (open_journal (set_running r w1)); [|done]. unfold restore, mbind, M_bind at 1. done. }
  unfold recoveries in H. cbn [fold_left fst snd] in H. rewrite Hw in H. cbn zeta in H.
  destruct (recover [] (set_running r w1)) as [[r3 w3] o3]. destruct H as (? & ? & ? & _). by split_and!.
Qed.

Lemma item_at_in pkg it : NoDup (i_path <$> p_files pkg) -> it ∈ p_files pkg -> item_at pkg (i_path it) = Some it.
Proof.
  unfold item_at. induction (p_files pkg) as [|x t IH]; cbn [fmap list_fmap List.find]; [by inversion 2|].
  intros [Hn Hd]%NoDup_cons [->|He]%elem_of_cons; [by rewrite bool_decide_eq_true_2|].
  rewrite bool_decide_eq_false_2; [by apply IH|]. intros Hx. apply Hn. rewrite Hx. by apply list_elem_of_fmap_2.
Qed.

(** A finished installation can be rolled back. *)
Lemma finished_may w0 inp expected meta pkg w : offered inp expected w0 meta pkg -> finished w0 inp meta pkg w ->
  exists sv, MANAGER ∈ sv /\ Forall (fun u => u ∈ SERVICES) sv /\
    may_restore (log w0 inp meta pkg sv) (old w0) (new w0 inp meta pkg) true w.
Proof.
  intros (_ & _ & archive & _ & [Hd Hi]%preflight_inv) ((sv & Hm & Hs & Hh) & Hn & Hset). exists sv. split_and!; [done..|].
  exists Committed. split_and!; [done..|]. intros _. split; [done|]. cbn [log j_files].
  intros e (it & -> & Hit)%list_elem_of_fmap. cbn. unfold current. rewrite (proj1 Hn). unfold patched. rewrite (item_at_in _ _ Hd Hit).
  unfold wanted. specialize (Hset it Hit). destruct (i_after it) as [h|] eqn:Ea; [|done].
  destruct (Hset ltac:(done)) as [m ->]. cbn. f_equal. by apply (Hi it Hit).
Qed.

(** C13. A rollback undoes an installation of a package whose target paths do not lie below one another (the code
    accepts others, see [nested_patch_stuck]).  After an installation on a consistent tree that returned, a rollback whose steps all work restores
    exactly the code, the file modes and the installed record from before, and removes the journal; if steps fail or
    the machine stops, any number of interrupted recoveries and a good one still end with all of the old or all of the new. *)
Theorem rollback_exact inp expected w0 o w1 rest o2 attempts :
  tree_ok w0 -> open_journal w0 = false -> (forall meta pkg, offered inp expected w0 meta pkg -> separate pkg) ->
  install inp expected o w0 = (Val tt, w1, rest) ->
  let '(r2, w2, _) := restore true o2 w1 in
  let '(r3, w3, _) := recover [] (recoveries attempts w2) in
  (Forall (eq Good) o2 -> r2 = Val tt) /\ (r2 = Val tt -> unchanged w0 w2 /\ jrnl w2 = None) /\
  r3 = Val tt /\ open_journal w3 = false /\ (unchanged w0 w3 \/ updated inp expected w0 w3).
Proof.
  intros Ht Hc Hs Hin. pose proof (install_spec inp expected w0 Ht Hc Hs (Forall (eq Good) o) o w0 (fun H => H) eq_refl) as H1.
  rewrite Hin in H1. destruct H1 as [_ (meta & pkg & Hoff & Hfin)].
  destruct (finished_may _ _ _ _ _ _ Hoff Hfin) as (sv & Hm & Hsv & Hmay).
  pose proof (restore_spec (Forall (eq Good) o2) _ _ _ true o2 w1 (fun H => H) Hmay) as Hr.
  assert (forall w, stopped (log w0 inp meta pkg sv) (old w0) (new w0 inp meta pkg) w -> settled w0 inp meta pkg w \/ logged w0 inp meta pkg w) as Hst.
  { intros w [Hw|Hw]; [right; by exists sv | left; by apply reverted_settled]. }
  destruct (restore true o2 w1) as [[r2 w2] o2'].
  assert (settled w0 inp meta pkg w2 \/ logged w0 inp meta pkg w2) as Hsane.
  { destruct r2; [|apply Hst, Hr..]. apply Hst. right. apply Hr. }
  pose proof (recovers inp expected w0 meta pkg attempts w2 Hoff Hsane) as Hrec.
  destruct (recover [] (recoveries attempts w2)) as [[r3 w3] o3]. destruct Hrec as (H1 & H2 & H3 & _). split_and!; try done.
  - intros Hq. destruct r2 as [[]| |]; [done | |]; exfalso; by apply Hr.
  - intros ->. destruct Hr as [_ [(Hj & Hf & Hi) _]]. split; [split; [by apply map_eq | done] | done].
Qed.

(** ** A target that has become a directory *)

Section Stuck.
Context (j : journal) (e : entry) (He : e ∈ j_files j) (Hnew : e_before e = None).
Definition blocked (w : world) : Prop :=
  (exists ph, jrnl w = Some (with_phase ph j) /\ ph <> Committed) /\ e_path e ∈ dirs w /\ files w !! e_path e = None.
Local Notation stays P m Q := (spec False P m Q blocked blocked).

Lemma blocked_tree f d w : blocked w -> dirs w ⊆ d -> f !! e_path e = None -> blocked (set_tree f d w).
Proof. intros (H1 & H2 & H3) Hd Hf. split; [done|]. split; [cbn; by apply Hd | done]. Qed.

Lemma atomic_blocked p data mode : stays blocked (atomic p data mode) (fun _ => blocked).
Proof.
  apply spec_bind with (R := fun _ => blocked).
  - apply spec_same. intros q _ o w Hc Hw. unfold mkdir. destruct (is_dir w q); [by split|]. revert o w Hc Hw.
    change (stays blocked (act (fun w => match files w !! q with Some _ => Err PyExn | None => Ok (set_tree (files w) ({[q]} ∪ dirs w) w) end)) (fun _ => blocked)).
    apply spec_act; [|done]. intros w Hw. destruct (files w !! q); [done|].
    assert (blocked (set_tree (files w) ({[q]} ∪ dirs w) w)) as Hb by (apply blocked_tree; [done | set_solver | apply Hw]). by split.
  - intros []. apply spec_act; [|done]. intros w Hw. destruct mode as [m|]; [|done]. destruct (is_dir w p) eqn:Ed; [done|].
    assert (blocked (set_tree (<[p := {| f_data := data; f_mode := m |}]> (files w)) (dirs w) w)) as Hb; [|by split].
    apply blocked_tree; [done..|]. rewrite lookup_insert_ne; [apply Hw|]. intros ->. apply bool_decide_eq_false in Ed. by apply Ed, Hw.
Qed.

Lemma put_back_blocked c x : stays blocked (put_back c x) (fun _ w => blocked w /\ x <> e).
Proof.
  apply spec_bind with (R := fun _ => blocked).
  { apply spec_look; [|done]. intros w Hw. by destruct (confined _ _ _). }
  intros a. destruct (e_before x) as [h|] eqn:Eb.
  - assert (x <> e) as Hx by congruence. destruct (c !! e_path x); [|by apply spec_raise].
    eapply spec_weaken; [apply atomic_blocked | done | intros ? w Hw; by split | done | done].
  - intros o w Hc Hw. destruct (exists_ w (e_path x)) eqn:Ex.
    + revert o w Hc Hw Ex. cut (stays blocked (remove (e_path x)) (fun _ w => blocked w /\ x <> e)).
      { intros H o w Hc Hw _. exact (H o w Hc Hw). }
      apply spec_act; [|done]. intros w Hw. destruct (files w !! e_path x) eqn:Ef; [|done].
      assert (blocked (set_tree (delete (e_path x) (files w)) (dirs w) w)) as Hb.
      { apply blocked_tree; [done..|]. apply lookup_delete_None. right. apply Hw. }
      split; [|done]. split; [done|]. intros ->. destruct Hw as (_ & _ & Hw). congruence.
    + split; [done|]. split; [done|]. intros ->. apply orb_false_iff in Ex as [_ Ex%bool_decide_eq_false]. by apply Ex, Hw.
Qed.

Lemma recover_blocked : stays blocked recover (fun _ _ => False).
Proof.
  intros o w Hc Hw. unfold recover. assert (open_journal w = true) as ->.
  { destruct Hw as [(ph & Hj & Hp) _]. unfold open_journal. rewrite Hj. cbn. by rewrite bool_decide_eq_false_2. }
  revert o w Hc Hw. change (stays blocked (restore false) (fun _ _ => False)).
  apply spec_bind with (R := fun j' w => blocked w /\ exists ph, j' = with_phase ph j).
  { apply spec_look; [|done]. intros w Hw. pose proof Hw as [(ph & Hj & Hp) _]. rewrite Hj. cbn. split; [done | by exists ph]. }
  intros j'. apply spec_at. intros w0 [Hw0 [ph ->]]. apply spec_bind with (R := fun _ => blocked); [by apply spec_ret; intros ? <-|].
  intros a. apply spec_bind with (R := fun _ => blocked).
  { apply spec_look; [|done]. intros w Hw. by destruct (foldM_res _ _ _). }
  intros c. apply spec_bind with (R := fun _ => blocked).
  { apply spec_act; [|done]. intros w (_ & H2 & H3). assert (blocked (set_jrnl (Some (with_phase Restoring j)) w)) as Hb; [|by split].
    split; [|done]. by exists Restoring. }
  intros b. apply spec_bind with (R := fun _ => blocked).
  { apply spec_same. intros u _. apply spec_bind with (R := fun _ => blocked).
    - intros o w Hc Hw. unfold _service. case_bool_decide; [by split|]. destruct (next o) as [x o']. destruct x; split; try exact Hw; by intros [].
    - intros []; [by apply spec_ret | by apply spec_raise]. }
  intros d. apply spec_bind with (R := fun _ _ => False).
  { eapply spec_weaken; [apply (spec_each _ _ _ (fun pre w => blocked w /\ e ∉ pre)) | | | done | done].
    - intros pre x post _. apply spec_at. intros w [Hw Hpre]. eapply spec_weaken; [apply put_back_blocked | by intros ? <- | | done | done].
      intros u w' [Hw' Hx]. split; [done|]. rewrite not_elem_of_app. split; [done|]. intros ?%list_elem_of_singleton. congruence.
    - intros w Hw. split; [done | apply not_elem_of_nil].
    - intros u w [_ Hn]. by apply Hn. }
  intros [] o w Hc [].
Qed.

Lemma recoveries_blocked attempts w : blocked w -> blocked (recoveries attempts w).
Proof.
  revert w. induction attempts as [|[o r] l IH]; intros w Hw; [done|].
  change (recoveries ((o, r) :: l) w) with (recoveries l (world_of (recover o (set_running r w)))). apply IH.
  assert (blocked (set_running r w)) as Hr by exact Hw. pose proof (recover_blocked o _ (False_ind _) Hr) as H.
  unfold world_of. destruct (recover o (set_running r w)) as [[[[]| |] w'] o']; [by destruct H | apply H..].
Qed.
End Stuck.

(** ** Jobs *)

Inductive action := ACheck | AStage | AInstall | ARollback | ARecover.
#[global] Instance action_dec : EqDecision action.
Proof. solve_decision. Defined.
Inductive status := Queued | Running | Succeeded | Failed | RolledBack.
#[global] Instance status_dec : EqDecision status.
Proof. solve_decision. Defined.
Definition TERMINAL : list status := [Succeeded; Failed; RolledBack].
Record job := { b_id : pystr; b_action : action; b_actor : pystr; b_url : pystr; b_expected : pystr; b_status : status; b_started : Z }.
Definition with_status (s : status) (b : job) : job :=
  {| b_id := b_id b; b_action := b_action b; b_actor := b_actor b; b_url := b_url b; b_expected := b_expected b; b_status := s;
     b_started := b_started b |}.
Record desk := { d_world : world; d_job : option job; d_history : list job }.

(** What the update server answers: its manifest and the archive. *)
Record feed := { fd_manifest : option obj; fd_archive : option bytes }.

Definition check (net : feed) : M (obj * release) :=
  manifest ← look (fun _ => of_opt PyExn (fd_manifest net));
  meta ← look (fun _ => verify signature_ok pub manifest);
  act (fun w => Ok (set_state (installed w) (staged w) (Some meta) w));;
  mret (manifest, meta).
Definition stage (inp : inputs) (net : feed) (expected : pystr) : M unit :=
  mm ← check net;
  let '(manifest, meta) := mm in
  (if bool_decide (expected <> r_sha256 meta) then raise (PatchError "Offered patch changed; check for updates again") else mret tt);;
  archive ← look (fun _ => of_opt PyExn (fd_archive net));
  look (preflight inp archive meta);;
  act (fun w => Ok (set_staged (Some archive) (staged_manifest w) w));;
  act (fun w => Ok (set_staged (staged_tgz w) (Some manifest) w));;
  act (fun w => Ok (set_state (installed w) (Some meta) (available w) w)).

Definition perform (inp : inputs) (net : feed) (b : job) : M unit :=
  match b_action b with
  | ACheck => check net;; mret tt
  | AStage => stage inp net (b_expected b)
  | AInstall => install inp (b_expected b)
  | ARollback =>
      look (fun w => raise_if (negb (bool_decide (r_sha256 ∘ fst <$> installed w = Some (b_expected b))))
                       (PatchError "Installed patch changed; review rollback again"));;
      restore true
  | ARecover => recover
  end.

(** [submit]: [server_url] is the check of the URL, [unit_active] whether the unit of the job on file still runs, [spawned]
    whether a worker could be started. *)
Definition submit (server_url : pystr -> result pexn pystr) (unit_active spawned : bool) (inp : inputs)
    (a : action) (actor url expected : pystr) (d : desk) : result pexn job * desk :=
  let checked :=
    url ← (if bool_decide (a = ACheck \/ a = AStage) then server_url url else Ok url);
    raise_if (bool_decide (a = AStage \/ a = AInstall \/ a = ARollback) && negb (hexdigits expected))
      (PatchError "Review and select a patch first");;
    raise_if (match d_job d with
              | Some b => bool_decide (b_status b ∉ TERMINAL) && (negb (bool_decide (a = ARecover)) || unit_active)
              | None => false end)
      (PatchError "Another patch operation is pending; recover it if interrupted");;
    raise_if (open_journal (d_world d) && negb (bool_decide (a = ARecover))) (PatchError "Recover the interrupted installation first");;
    Ok {| b_id := in_uuid inp; b_action := a; b_actor := actor; b_url := url; b_expected := expected; b_status := Queued;
          b_started := in_now inp |} in
  match checked with
  | Err e => (Err e, d)
  | Ok b =>
      if spawned then (Ok b, {| d_world := d_world d; d_job := Some b; d_history := d_history d |})
      else (Err (PatchError "Could not start independent patch worker"),
            {| d_world := d_world d; d_job := Some (with_status Failed b); d_history := d_history d |})
  end.

(** [_work]: a machine that stops leaves the job running. *)
Definition _work (inp : inputs) (net : feed) (job_id : pystr) (o : list outcome) (d : desk) : run Z * desk :=
  match d_job d with
  | Some b =>
      if bool_decide (b_id b = job_id /\ b_status b = Queued) then
        let finish s w code :=
          let b' := with_status s b in
          (Val code, {| d_world := w; d_job := Some b'; d_history := take 50 (b' :: d_history d) |}) in
        match perform inp net b o (d_world d) with
        | (Val _, w, _) => finish Succeeded w 0
        | (Exn _, w, _) => finish Failed w 1
        | (Crash, w, _) => (Crash, {| d_world := w; d_job := Some (with_status Running b); d_history := d_history d |})
        end
      else (Exn (PatchError "Job is no longer queued"), d)
  | None => (Exn (PatchError "Job is no longer queued"), d)
  end.

(** An interrupted installation can be finished from the desk.  When the machine stops while a worker installs, every
    later request but a recovery is refused and changes nothing; once the old worker is gone a recovery is accepted,
    and its worker, if nothing fails any more, reports success and leaves exactly the old or exactly the new code
    and record, with the journal closed. *)
Theorem interrupted_job_recovers server_url inp inp' net net' b o d d1 r actor url :
  d_job d = Some b -> b_action b = AInstall -> tree_ok (d_world d) -> open_journal (d_world d) = false ->
  (forall meta pkg, offered inp (b_expected b) (d_world d) meta pkg -> separate pkg) ->
  _work inp net (b_id b) o d = (Crash, d1) ->
  (forall a active spawned actor url expected, a <> ARecover ->
     exists e, submit server_url active spawned inp' a actor url expected d1 = (Err e, d1)) /\
  let d1' := {| d_world := set_running r (d_world d1); d_job := d_job d1; d_history := d_history d1 |} in
  let '(res, d2) := submit server_url false true inp' ARecover actor url [] d1' in
  exists b', res = Ok b' /\
    let '(code, d3) := _work inp net' (b_id b') [] d2 in
    code = Val 0 /\ (b_status <$> d_job d3) = Some Succeeded /\ open_journal (d_world d3) = false /\
    (unchanged (d_world d) (d_world d3) \/ updated inp (b_expected b) (d_world d) (d_world d3)).
Proof.
  intros Hb Ha Ht Hc Hs Hw. unfold _work in Hw. rewrite Hb in Hw. case_bool_decide as Hq; [|discriminate]. unfold perform in Hw. rewrite Ha in Hw.
  destruct (install inp (b_expected b) o (d_world d)) as [[[| |] w1] o1] eqn:Ei; try discriminate. injection Hw as <-. cbn [d_world d_job d_history]. split.
  - intros a active spawned actor' url' expected Hne. unfold submit.
    destruct (if bool_decide _ then _ else _) as [u|e]; [|by exists e]. cbn [mbind result_bind].
    destruct (bool_decide (a = AStage \/ _) && _); cbn [raise_if mbind result_bind d_job with_status b_status]; [by eexists|].
    assert (bool_decide (Running ∉ TERMINAL) = true) as -> by reflexivity. rewrite (bool_decide_eq_false_2 _ Hne). cbn. by eexists.
  - unfold submit. rewrite (bool_decide_eq_false_2 (ARecover = ACheck \/ ARecover = AStage)) by (intros [?|?]; discriminate). cbn [mbind result_bind].
    rewrite (bool_decide_eq_false_2 (ARecover = AStage \/ _)) by (intros [?|[?|?]]; discriminate). cbn [andb raise_if mbind result_bind d_job with_status b_status].
    rewrite (bool_decide_eq_true_2 (ARecover = ARecover)) by done. cbn [negb orb]. rewrite !andb_false_r. cbn [raise_if mbind result_bind].
    eexists. split; [done|]. unfold _work. cbn [d_job d_world d_history b_id]. rewrite bool_decide_eq_true_2 by done. cbn [perform b_action].
    pose proof (patch_spec_crash inp (b_expected b) (d_world d) o w1 o1 r Ht Hc Hs Ei) as Hr.
    destruct (recover [] (set_running r w1)) as [[r3 w3] o3]. destruct Hr as (-> & H1 & H2). by split_and!.
Qed.
End Manager.

(** ** The package with a file below a file *)

Definition demo_archive : bytes := [97].
Definition demo_meta : json := JObj [(lit "file", J "p.tgz"); (lit "sha256", JStr (demo_digest demo_archive)); (lit "size", JInt 1);
  (lit "version", J "2"); (lit "published", JInt 5)].
Definition demo_world : world :=
  {| files := {[lit "a.py" := {| f_data := [1]; f_mode := 493 |}]}; dirs := {[lit "static"]}; links := []; backups := ∅; jrnl := None;
     installed := None; staged := None; available := None; staged_tgz := Some demo_archive;
     staged_manifest := Some [(lit "payloads", JObj [(lit "patch", demo_meta)])]; running := list_to_set SERVICES |}.
Definition demo_inputs : inputs := {| in_uuid := lit "f0"; in_now := 9; free_state := 2 ^ 40; free_root := 2 ^ 40 |}.
Definition demo_install (members : list member) (manifest : json) : list outcome -> world -> run unit * world * list outcome :=
  install demo_digest (fun _ => Some members) (demo_loads manifest) (fun _ => true) (fun _ _ => true) (fun _ => None)
    [lit "opt"] [lit "state"] (Some (replicate 32 0)) demo_inputs (demo_digest demo_archive).
Definition demo_recoveries : list (list outcome * gset pystr) -> world -> world :=
  recoveries demo_digest [lit "opt"] [lit "state"].

Definition nested_run : run unit * world * list outcome := demo_install nested_members nested_manifest [] demo_world.
Definition nested_journal : journal :=
  default (Build_journal Prepared [] [] [] None (Build_release [] [] 0 [] 0)) (jrnl (world_of nested_run)).
Definition nested_entry : entry := nth 1 (j_files nested_journal) (Build_entry [] None None None).

(** C38. An accepted package that cannot be undone.  Installing the package with a file below a file, without any
    fault, fails, and so does the restoration it starts, because the target of a new file has become a directory; no
    service runs, and whatever recoveries follow, under whatever circumstances, the journal stays open, so that every
    other operation is refused. *)
Theorem nested_patch_stuck : let '(r, w, _) := demo_install nested_members nested_manifest [] demo_world in
  r <> Val tt /\ running w = ∅ /\ open_journal w = true /\ forall attempts, open_journal (demo_recoveries attempts w) = true.
Proof.
  change (demo_install nested_members nested_manifest [] demo_world) with nested_run.
  assert (blocked nested_journal nested_entry (world_of nested_run)) as Hb.
  { split; [exists Restoring; split; [vm_compute; reflexivity | done]|].
    split; [apply (bool_decide_unpack _); vm_compute; exact I | vm_compute; reflexivity]. }
  assert (nested_entry ∈ j_files nested_journal) as He by (apply list_elem_of_In, nth_In; vm_compute; lia).
  assert (e_before nested_entry = None) as Hn by (vm_compute; reflexivity).
  assert (match nested_run.1.1 with Val _ => false | _ => true end = true) as Hr by (vm_compute; reflexivity).
  assert (running (world_of nested_run) = ∅) as Hrun by (vm_compute; reflexivity).
  unfold world_of in *. destruct nested_run as [[r w] o]. cbn [fst snd] in *.
  assert (forall w', blocked nested_journal nested_entry w' -> open_journal w' = true) as Ho.
  { intros w' [(ph & Hj & Hp) _]. unfold open_journal. rewrite Hj. cbn. by rewrite bool_decide_eq_false_2. }
  split_and!; [by destruct r | done | by apply Ho|]. intros attempts. apply Ho. unfold demo_recoveries. apply (recoveries_blocked demo_digest (fun _ => None) (fun _ => None) (fun _ => true) (fun _ => None) [lit "opt"] [lit "state"]
    nested_journal nested_entry He Hn attempts w Hb).
Qed.

(** ** The theorems on a small world *)

Definition plain_offered : release -> package -> Prop :=
  offered demo_digest (fun _ => Some plain_members) (demo_loads plain_manifest) (fun _ => true) (fun _ _ => true) (fun _ => None)
    [lit "opt"] (Some (replicate 32 0)) demo_inputs (demo_digest demo_archive) demo_world.

Lemma demo_tree_ok : tree_ok demo_world.
Proof.
  intros p f Hf. cbn [demo_world files] in Hf. apply lookup_singleton_Some in Hf as [<- _]. split; [apply (bool_decide_unpack _); vm_compute; exact I|].
  intros q [r Hq]. exfalso. assert (47 ∈ lit "a.py") as Hin by (rewrite Hq; apply elem_of_app; right; left).
  apply list_elem_of_In in Hin. vm_compute in Hin. intuition discriminate.
Qed.

Lemma plain_separate meta pkg : plain_offered meta pkg -> separate pkg.
Proof.
  intros (Hm & _ & archive & Ha & Hp). injection Ha as <-. vm_compute in Hm. apply ok_inj in Hm. subst meta.
  vm_compute in Hp. apply ok_inj in Hp. subst pkg. intros a b Ha Hb (r & Hr). cbn [p_files] in Ha, Hb.
  apply list_elem_of_singleton in Ha, Hb. subst a b. apply (f_equal length) in Hr. rewrite length_app in Hr. cbn in Hr. lia.
Qed.

(** The machine stops while the new file is put in place, and the first recovery fails when it stops the services. *)
Definition demo_faults : list outcome := replicate 15 Good ++ [Halt].
Definition demo_attempts : list (list outcome * gset pystr) := [([Good; Good; Good; Bad], ∅)].

Lemma patch_atomic_witness :
  let '(r1, w1, _) := demo_install plain_members plain_manifest demo_faults demo_world in
  let '(r3, w3, _) := recover demo_digest [lit "opt"] [lit "state"] [] (demo_recoveries demo_attempts w1) in
  r1 <> Val tt /\ open_journal w1 = true /\ r3 = Val tt /\ open_journal w3 = false.
Proof.
  pose proof (patch_atomic demo_digest (fun _ => Some plain_members) (demo_loads plain_manifest) (fun _ => true) (fun _ _ => true)
    (fun _ => None) [lit "opt"] [lit "state"] (Some (replicate 32 0)) demo_inputs (demo_digest demo_archive) demo_world demo_faults demo_attempts
    demo_tree_ok eq_refl plain_separate) as H.
  assert (match (demo_install plain_members plain_manifest demo_faults demo_world).1.1 with Crash => true | _ => false end = true) as Hr by (vm_compute; reflexivity).
  assert (open_journal (world_of (demo_install plain_members plain_manifest demo_faults demo_world)) = true) as Ho by (vm_compute; reflexivity).
  unfold demo_install, demo_recoveries, world_of in *.
  destruct (install _ _ _ _ _ _ _ _ _ _ _ _ _) as [[r1 w1] o1]. cbn [fst snd] in *. cbn zeta in H.
  destruct (recover _ _ _ _ _) as [[r3 w3] o3]. destruct H as (H1 & H2 & _).
  split; [destruct r1; [discriminate Hr | discriminate Hr | discriminate]|]. exact (conj Ho (conj H1 H2)).
Defined.

Definition plain_run : run unit * world * list outcome := demo_install plain_members plain_manifest [] demo_world.
Lemma plain_returns : exists w rest, plain_run = (Val tt, w, rest).
Proof.
  assert (match plain_run.1.1 with Val _ => true | _ => false end = true) as H by (vm_compute; reflexivity).
  destruct plain_run as [[[[]| |] w] o]; [by exists w, o | discriminate..].
Qed.

Lemma rollback_witness : exists w1, plain_run.1.2 = w1 /\
  let '(r2, w2, _) := restore demo_digest [lit "opt"] [lit "state"] true [] w1 in
  r2 = Val tt /\ files w2 = files demo_world /\ jrnl w2 = None.
Proof.
  destruct plain_returns as (w1 & rest & Hp). exists w1. split; [rewrite Hp; reflexivity|].
  pose proof (rollback_exact demo_digest (fun _ => Some plain_members) (demo_loads plain_manifest) (fun _ => true) (fun _ _ => true)
    (fun _ => None) [lit "opt"] [lit "state"] (Some (replicate 32 0)) demo_inputs (demo_digest demo_archive) demo_world [] w1 rest [] []
    demo_tree_ok eq_refl plain_separate Hp) as H.
  destruct (restore _ _ _ _ _ _) as [[r2 w2] o2]. destruct (recover _ _ _ _ _) as [[r3 w3] o3].
  destruct H as (H1 & H2 & _). specialize (H1 (List.Forall_nil _)). destruct (H2 H1) as [[Hf _] Hj].
  exact (conj H1 (conj Hf Hj)).
Defined.

Definition demo_job : job :=
  {| b_id := lit "j1"; b_action := AInstall; b_actor := lit "admin"; b_url := []; b_expected := demo_digest demo_archive; b_status := Queued;
     b_started := 1 |}.
Definition demo_desk : desk := {| d_world := demo_world; d_job := Some demo_job; d_history := [] |}.
Definition demo_feed : feed := {| fd_manifest := None; fd_archive := None |}.
Definition demo_work : run Z * desk :=
  _work demo_digest (fun _ => Some plain_members) (demo_loads plain_manifest) (fun _ => true) (fun _ _ => true) (fun _ => None)
    [lit "opt"] [lit "state"] (Some (replicate 32 0)) demo_inputs demo_feed (lit "j1") demo_faults demo_desk.
Lemma interrupted_job_witness : exists d1, demo_work = (Crash, d1) /\
  exists e, submit (fun u => Ok u) false true demo_inputs AInstall (lit "admin") [] (demo_digest demo_archive) d1 = (Err e, d1).
Proof.
  assert (exists d1, demo_work = (Crash, d1)) as [d1 Hd].
  { assert (match demo_work.1 with Crash => true | _ => false end = true) as H by (vm_compute; reflexivity).
    destruct demo_work as [[| |] d1]; [discriminate.. | by exists d1]. }
  exists d1. split; [exact Hd|].
  apply (interrupted_job_recovers demo_digest (fun _ => Some plain_members) (demo_loads plain_manifest) (fun _ => true) (fun _ _ => true)
    (fun _ => None) [lit "opt"] [lit "state"] (Some (replicate 32 0)) (fun u => Ok u) demo_inputs demo_inputs demo_feed demo_feed demo_job demo_faults
    demo_desk d1 ∅ (lit "admin") [] eq_refl eq_refl demo_tree_ok eq_refl plain_separate Hd). discriminate.
Defined.
