(* ===== verification/Alerts.v ===== *)
(** * Alerts

    [ffn_alerts.py]: one evaluation compares what the convergence report and the unit states show with what the last
    evaluation stored, emits raised and cleared events, keeps a bounded log and publishes the active alerts.  A
    report is read with the fields the module uses; the state file is [None] when it is absent, unreadable or of another
    schema.  Sending mail and posting to a web hook are I/O and change nothing here.

    Main results: over every history of evaluations, a condition is raised exactly at its second consecutive sighting
    and cleared exactly at the first evaluation without it, once each time, the view lists exactly the raised ones and
    the log is the end of everything emitted ([alerts_exact]); a processor that is missing from one report can boot
    again unnoticed ([reboot_behind_gap_missed]). *)

From S2P Require Import Prelude PyStr PyDict PyIp PyTime HexSig.
#[local] Open Scope Z_scope.

Inductive severity := Critical | Warning | Info.
#[global] Instance severity_dec : EqDecision severity.
Proof. solve_decision. Defined.
Definition RANK (s : severity) : Z := match s with Critical => 2 | Warning => 1 | Info => 0 end.
Definition SEVERITY (state : pystr) : option severity :=
  dget state [(lit "failed", Critical); (lit "drift", Warning); (lit "unavailable", Warning)].
Definition CONFIRMATIONS : Z := 2.
Definition EVENTS_KEPT : nat := 500.
Definition RESTART_FLAP : Z := 3.

(** ** What is wrong now *)

Record subsystem := { ss_id : pystr; ss_plane : option pystr; ss_state : pystr; ss_summary : pystr; ss_details : list pystr }.
Record unit_state := { u_restarts : Z; u_active : pystr; u_result : pystr }.
Record report := { r_subsystems : list subsystem; r_boots : list (pystr * pystr) }.
Record cond := {
  c_severity : severity; c_plane : option pystr; c_source : pystr; c_summary : pystr; c_details : list pystr; c_state : pystr }.

Definition or_else (s t : pystr) : pystr := match s with [] => t | _ => s end.
Definition subsystem_condition (found : list (pystr * cond)) (s : subsystem) : list (pystr * cond) :=
  match SEVERITY (ss_state s) with
  | Some sev => dset (lit "subsystem:" ++ ss_id s)
      {| c_severity := sev; c_plane := ss_plane s; c_source := lit "convergence"; c_summary := or_else (ss_summary s) (ss_id s);
         c_details := take 8 (ss_details s); c_state := ss_state s |} found
  | None => found
  end.
Definition unit_condition (previous : list (pystr * unit_state)) (found : list (pystr * cond)) (un : pystr * unit_state)
    : list (pystr * cond) :=
  let '(u, now) := un in
  let found := if bool_decide (u_active now = lit "failed") then
      dset (lit "unit-failed:" ++ u)
        {| c_severity := Critical; c_plane := Some (lit "mp"); c_source := lit "systemd";
           c_summary := u ++ lit " is failed (" ++ or_else (u_result now) (lit "exit") ++ lit ")"; c_details := [];
           c_state := lit "failed" |} found
    else found in
  let delta := u_restarts now - match dget u previous with Some b => u_restarts b | None => u_restarts now end in
  if RESTART_FLAP <=? delta then
    dset (lit "unit-flapping:" ++ u)
      {| c_severity := Warning; c_plane := Some (lit "mp"); c_source := lit "systemd";
         c_summary := u ++ lit " restarted " ++ fmtd delta ++ lit " times since the last evaluation"; c_details := [];
         c_state := lit "flapping" |} found
  else found.
Definition conditions (r : report) (units previous : list (pystr * unit_state)) : list (pystr * cond) :=
  fold_left (unit_condition previous) units (fold_left subsystem_condition (r_subsystems r) []).

(** ** Events *)

Inductive event_kind := Raised | Cleared | Event.
#[global] Instance event_kind_dec : EqDecision event_kind.
Proof. solve_decision. Defined.
Record event := {
  v_at : Q; v_kind : event_kind; v_id : pystr; v_severity : severity; v_plane : option pystr; v_summary : pystr;
  v_details : list pystr; v_source : pystr; v_duration : option Z }.

(** [round(q)]: to the nearest integer, ties to the even one. *)
Definition py_round (q : Q) : Z :=
  let f := Qnum q / Zpos (Qden q) in
  match Z.compare (2 * (Qnum q - f * Zpos (Qden q))) (Zpos (Qden q)) with
  | Lt => f
  | Gt => f + 1
  | Eq => if Z.even f then f else f + 1
  end.

(** A condition on file: how often in a row it was seen, and since when it is raised. *)
Record entry := { e_cond : cond; e_first : Q; e_last : Q; e_count : Z; e_raised : bool; e_since : option Q }.

Definition reboot_event (now : Q) (boots previous : list (pystr * pystr)) (role : pystr) : list event :=
  match dget role previous, dget role boots with
  | Some (p :: ps), Some (b :: bs) =>
      if bool_decide (p :: ps = b :: bs) then []
      else [{| v_at := now; v_kind := Event; v_id := lit "processor-rebooted:" ++ role; v_severity := Critical; v_plane := Some role;
               v_summary := upper role ++ lit " processor booted again (boot " ++ take 8 (b :: bs) ++ lit ")"; v_details := [];
               v_source := lit "lifecycle"; v_duration := None |}]
  | _, _ => []
  end.
(** [sorted(set(boots) | set(previous))]. *)
Definition roles (boots previous : list (pystr * pystr)) : list pystr :=
  py_sorted str_le (remove_dups (boots.*1 ++ previous.*1)).
Definition processor_events (now : Q) (boots : list (pystr * pystr)) (previous : option (list (pystr * pystr))) : list event :=
  match previous with
  | Some p => concat (map (reboot_event now boots p) (roles boots p))
  | None => []
  end.

(** ** One evaluation *)

Record state := {
  st_conditions : list (pystr * entry); st_units : list (pystr * unit_state); st_boots : option (list (pystr * pystr));
  st_evaluations : Z }.
Definition fresh : state := {| st_conditions := []; st_units := []; st_boots := None; st_evaluations := 0 |}.

Definition raised_event (now : Q) (ident : pystr) (c : cond) : event :=
  {| v_at := now; v_kind := Raised; v_id := ident; v_severity := c_severity c; v_plane := c_plane c; v_summary := c_summary c;
     v_details := c_details c; v_source := c_source c; v_duration := None |}.
Definition cleared_event (now : Q) (ident : pystr) (e : entry) : event :=
  {| v_at := now; v_kind := Cleared; v_id := ident; v_severity := c_severity (e_cond e); v_plane := c_plane (e_cond e);
     v_summary := c_summary (e_cond e); v_details := []; v_source := c_source (e_cond e);
     v_duration := Some (py_round (now - default now (e_since e))%Q) |}.

Definition sight (now : Q) (st : list (pystr * entry) * list event) (ic : pystr * cond) : list (pystr * entry) * list event :=
  let '(held, events) := st in
  let '(ident, c) := ic in
  let e := match dget ident held with
           | None => {| e_cond := c; e_first := now; e_last := now; e_count := 0; e_raised := false; e_since := None |}
           | Some e => {| e_cond := c; e_first := e_first e; e_last := e_last e; e_count := e_count e; e_raised := e_raised e;
                          e_since := e_since e |}
           end in
  let count := e_count e + 1 in
  let raise := negb (e_raised e) && (CONFIRMATIONS <=? count) in
  (dset ident {| e_cond := c; e_first := e_first e; e_last := now; e_count := count; e_raised := e_raised e || raise;
                 e_since := if raise then Some now else e_since e |} held,
   if raise then events ++ [raised_event now ident c] else events).
Definition settle (now : Q) (seen : list (pystr * cond)) (st : list (pystr * entry) * list event) (ident : pystr)
    : list (pystr * entry) * list event :=
  let '(held, events) := st in
  if dmem ident seen then st
  else (ddel ident held,
        match dget ident held with
        | Some e => if e_raised e then events ++ [cleared_event now ident e] else events
        | None => events
        end).
Definition transitions (now : Q) (seen : list (pystr * cond)) (held : list (pystr * entry)) : list (pystr * entry) * list event :=
  let st := fold_left (sight now) seen (held, []) in
  fold_left (settle now seen) (st.1.*1) st.

(** [append_events]. *)
Definition last_n {A} (n : nat) (l : list A) : list A := drop (length l - n) l.
Definition append_events {A} (kept : nat) (existing events : list A) : list A := last_n kept (existing ++ events).

(** The order of the view: by rank, then by age, then by name. *)
Definition active_le (a b : pystr * entry) : bool :=
  let ra := - RANK (c_severity (e_cond a.2)) in
  let rb := - RANK (c_severity (e_cond b.2)) in
  let sa := default 0%Q (e_since a.2) in
  let sb := default 0%Q (e_since b.2) in
  if ra <? rb then true else if rb <? ra then false
  else if negb (Qle_bool sb sa) then true else if negb (Qle_bool sa sb) then false else str_le a.1 b.1.
Record view := { w_active : list (pystr * entry); w_pending : list pystr; w_events : list event }.

Record input := { i_now : Q; i_report : report; i_units : list (pystr * unit_state) }.
Definition evaluate (stored : option state) (log : list event) (i : input) : state * list event * view :=
  let st := default fresh stored in
  let seen := conditions (i_report i) (i_units i) (st_units st) in
  let '(held, events) := transitions (i_now i) seen (st_conditions st) in
  let boots := r_boots (i_report i) in
  let events := events ++ processor_events (i_now i) boots (st_boots st) in
  ({| st_conditions := held; st_units := i_units i;
      st_boots := match boots with [] => st_boots st | _ => Some boots end; st_evaluations := st_evaluations st + 1 |},
   match events with [] => log | _ => append_events EVENTS_KEPT log events end,
   {| w_active := py_sorted active_le (List.filter (fun ie => e_raised ie.2) held);
      w_pending := py_sorted str_le (List.filter (fun ie => negb (e_raised ie.2)) held).*1; w_events := events |}).

(** ** What an evaluation does to one condition *)

Definition advance (now : Q) (c : cond) (o : option entry) : entry :=
  match o with
  | None => {| e_cond := c; e_first := now; e_last := now; e_count := 1; e_raised := false; e_since := None |}
  | Some e =>
      let raise := negb (e_raised e) && (CONFIRMATIONS <=? e_count e + 1) in
      {| e_cond := c; e_first := e_first e; e_last := now; e_count := e_count e + 1; e_raised := e_raised e || raise;
         e_since := if raise then Some now else e_since e |}
  end.
Definition raises (o : option entry) : bool :=
  match o with Some e => negb (e_raised e) && (CONFIRMATIONS <=? e_count e + 1) | None => false end.
Definition raise_part (now : Q) (held : list (pystr * entry)) (ic : pystr * cond) : list event :=
  if raises (dget ic.1 held) then [raised_event now ic.1 ic.2] else [].
Definition clear_part (now : Q) (seen : list (pystr * cond)) (held : list (pystr * entry)) (ident : pystr) : list event :=
  if dmem ident seen then []
  else match dget ident held with Some e => if e_raised e then [cleared_event now ident e] else [] | None => [] end.

Lemma sight_step now held events ident c :
  sight now (held, events) (ident, c) = (dset ident (advance now c (dget ident held)) held, events ++ raise_part now held (ident, c)).
Proof.
  unfold sight, raise_part, raises, advance. cbn [fst snd]. destruct (dget ident held) as [e|]; cbn; [|by rewrite app_nil_r].
  destruct (negb (e_raised e) && _); [done | by rewrite app_nil_r].
Qed.

Lemma sight_all now l held events : NoDup l.*1 ->
  exists held', fold_left (sight now) l (held, events) = (held', events ++ concat (map (raise_part now held) l)) /\
    (forall id, dget id held' = match dget id l with Some c => Some (advance now c (dget id held)) | None => dget id held end) /\
    (dict_ok held -> dict_ok held').
Proof.
  revert held events. induction l as [|[k c] l IH]; intros held events Hd; cbn [fold_left map concat].
  { exists held. by rewrite app_nil_r. }
  cbn in Hd. apply NoDup_cons in Hd as [Hk Hd]. rewrite sight_step.
  destruct (IH (dset k (advance now c (dget k held)) held) (events ++ raise_part now held (k, c)) Hd) as (held' & -> & Hl & Hok).
  exists held'. split; [|split].
  - rewrite <- app_assoc. f_equal. f_equal. f_equal. f_equal. apply map_ext_in. intros [k' c'] Hin%list_elem_of_In. unfold raise_part. cbn.
    rewrite dget_dset_ne; [done|]. intros ->. apply Hk. apply list_elem_of_fmap. by exists (k, c').
  - intros id. rewrite Hl. cbn [dget]. rewrite dget_dset. destruct (decide (id = k)) as [->|Hne].
    + rewrite (proj2 (dget_None_keys k l) Hk). repeat case_decide; done.
    + repeat case_decide; done.
  - intros H. apply Hok. by apply dict_ok_dset.
Qed.

Lemma settle_all now seen ks held events : NoDup ks ->
  exists held', fold_left (settle now seen) ks (held, events) = (held', events ++ concat (map (clear_part now seen held) ks)) /\
    (forall id, dget id held' = if decide (id ∈ ks /\ dmem id seen = false) then None else dget id held) /\
    (dict_ok held -> dict_ok held').
Proof.
  revert held events. induction ks as [|k ks IH]; intros held events Hd; cbn [fold_left map concat].
  { exists held. rewrite app_nil_r. split; [done|]. split; [|done]. intros id. rewrite decide_False; [done|]. intros [H _]. by inversion H. }
  apply NoDup_cons in Hd as [Hk Hd]. unfold settle at 2, clear_part at 1. destruct (dmem k seen) eqn:Em.
  - destruct (IH held events Hd) as (held' & -> & Hl & Hok). exists held'. split; [done|]. split; [|done]. intros id. rewrite Hl.
    apply decide_ext. rewrite elem_of_cons. naive_solver congruence.
  - destruct (IH (ddel k held) (events ++ match dget k held with Some e => if e_raised e then [cleared_event now k e] else [] | None => [] end) Hd)
      as (held' & He & Hl & Hok).
    exists held'. split; [|split].
    + replace (match dget k held with Some e => if e_raised e then events ++ [cleared_event now k e] else events | None => events end)
        with (events ++ match dget k held with Some e => if e_raised e then [cleared_event now k e] else [] | None => [] end)
        by (destruct (dget k held) as [e|]; [destruct (e_raised e)|]; by rewrite ?app_nil_r).
      rewrite He, <- app_assoc. f_equal. f_equal. f_equal. f_equal. apply map_ext_in. intros k' Hin%list_elem_of_In. unfold clear_part.
      rewrite dget_ddel, decide_False; [done|]. intros ->. done.
    + intros id. rewrite Hl, dget_ddel. destruct (decide (id = k)) as [->|Hne].
      * rewrite (decide_False (P := k ∈ ks /\ _)) by tauto. rewrite decide_True; [done|]. split; [left | done].
      * apply decide_ext. rewrite elem_of_cons. naive_solver.
    + intros H. by apply Hok, dict_ok_ddel.
Qed.

Lemma transitions_spec now seen held : dict_ok seen -> dict_ok held ->
  exists held' keys, transitions now seen held = (held', concat (map (raise_part now held) seen) ++ concat (map (clear_part now seen held) keys)) /\
    dict_ok held' /\ NoDup keys /\ (forall id, dget id held <> None -> id ∈ keys) /\
    (forall id, dget id held' = match dget id seen with Some c => Some (advance now c (dget id held)) | None => None end).
Proof.
  intros Hs Hh. unfold transitions. destruct (sight_all now seen held [] Hs) as (h1 & -> & Hl1 & Hok1). cbn [fst app].
  destruct (settle_all now seen h1.*1 h1 (concat (map (raise_part now held) seen)) (Hok1 Hh)) as (h2 & -> & Hl2 & Hok2).
  assert (forall id, dmem id seen = true <-> dget id seen <> None) as Hmem by (intros id; unfold dmem; by destruct (dget id seen)).
  exists h2, h1.*1. split; [|split_and!].
  - f_equal. f_equal. f_equal. apply map_ext. intros k. unfold clear_part. destruct (dmem k seen) eqn:Em; [done|].
    rewrite Hl1. unfold dmem in Em. by destruct (dget k seen).
  - auto.
  - by apply Hok1.
  - intros id Hid. apply dec_stable. intros Hn. apply dget_None_keys in Hn. rewrite Hl1 in Hn. destruct (dget id seen); done.
  - intros id. rewrite Hl2. case_decide as Hd.
    + destruct Hd as [_ Hd]. unfold dmem in Hd. by destruct (dget id seen).
    + rewrite Hl1. destruct (dget id seen) eqn:Es; [done|]. destruct (dget id held) eqn:Eh; [|done]. exfalso. apply Hd.
      split; [|unfold dmem; by rewrite Es]. apply dec_stable. intros Hn. apply dget_None_keys in Hn. rewrite Hl1, Es in Hn. congruence.
Qed.

Lemma conditions_ok r units previous : dict_ok (conditions r units previous).
Proof.
  unfold conditions. assert (dict_ok (fold_left subsystem_condition (r_subsystems r) [])) as H.
  { assert (dict_ok (@nil (pystr * cond))) as H by constructor. revert H. generalize (@nil (pystr * cond)).
    induction (r_subsystems r) as [|s l IH]; intros d H; [done|]. apply IH. unfold subsystem_condition.
    destruct (SEVERITY _); [by apply dict_ok_dset | done]. }
  revert H. generalize (fold_left subsystem_condition (r_subsystems r) []). induction units as [|[u n] l IH]; intros d H; [done|].
  apply IH. unfold unit_condition. destruct (RESTART_FLAP <=? _); [apply dict_ok_dset|]; (case_bool_decide; [by apply dict_ok_dset | done]).
Qed.

(** ** Histories *)

(** Evaluations one after the other, newest first: the stored state, the log, and what each emitted. *)
Fixpoint history (hs : list input) : option state * list event * list (list event) :=
  match hs with
  | [] => (None, [], [])
  | i :: t =>
      let '(st, log, emitted) := history t in
      let '(st', log', v) := evaluate st log i in
      (Some st', log', w_events v :: emitted)
  end.
(** What each evaluation saw. *)
Fixpoint sightings (hs : list input) : list (list (pystr * cond)) :=
  match hs with
  | [] => []
  | i :: t => conditions (i_report i) (i_units i) (match t with j :: _ => i_units j | [] => [] end) :: sightings t
  end.
(** In how many of the latest evaluations without a break a condition was seen. *)
Fixpoint streak (id : pystr) (l : list (list (pystr * cond))) : nat :=
  match l with
  | s :: t => if dmem id s then S (streak id t) else 0%nat
  | [] => 0%nat
  end.

Definition tracks (hs : list input) (id : pystr) (o : option entry) : Prop :=
  match streak id (sightings hs) with
  | O => o = None
  | S n => exists e, o = Some e /\ e_count e = Z.of_nat (S n) /\ e_raised e = (2 <=? S n)%nat /\
      ((1 <= n)%nat -> exists j, hs !! (S n - 2)%nat = Some j /\ e_since e = Some (i_now j))
  end.
Definition on_file (o : option state) (hs : list input) : Prop :=
  dict_ok (st_conditions (default fresh o)) /\ (forall id, tracks hs id (dget id (st_conditions (default fresh o)))) /\
  st_units (default fresh o) = match hs with j :: _ => i_units j | [] => [] end.

Lemma tracks_raises hs id o : tracks hs id o -> raises o = (streak id (sightings hs) =? 1)%nat.
Proof.
  unfold tracks, raises. destruct (streak id (sightings hs)) as [|n]; [by intros ->|]. intros (e & -> & Hc & Hr & _). rewrite Hc, Hr. unfold CONFIRMATIONS.
  destruct n as [|n]; cbn [negb andb Nat.leb Nat.eqb]; [|done]. apply Z.leb_le. lia.
Qed.
Lemma tracks_raised hs id o : tracks hs id o -> (exists e, o = Some e /\ e_raised e = true) <-> (2 <= streak id (sightings hs))%nat.
Proof.
  unfold tracks. destruct (streak id (sightings hs)) as [|n].
  - intros ->. split; [by intros (e & ? & _) | lia].
  - intros (e & -> & _ & Hr & _). split; [intros (? & [= <-] & H); rewrite Hr in H; by apply Nat.leb_le | intros H; exists e].
    split; [done|]. rewrite Hr. by apply Nat.leb_le.
Qed.

Lemma tracks_step hs i c id o : tracks hs id o ->
  dmem id (conditions (i_report i) (i_units i) (match hs with j :: _ => i_units j | [] => [] end)) = true ->
  tracks (i :: hs) id (Some (advance (i_now i) c o)).
Proof.
  intros Ht Hm. unfold tracks in *. cbn [sightings streak]. rewrite Hm. destruct (streak id (sightings hs)) as [|n] eqn:Es.
  - subst o. eexists. split; [done|]. split_and!; [done | done | lia].
  - destruct Ht as (e & -> & Hc & Hr & Hs). eexists. split; [done|]. cbn [advance e_count e_raised e_since]. rewrite Hc, Hr.
    split_and!; [lia | |].
    + destruct n as [|n]; cbn [Nat.leb negb andb orb]; [|done]. unfold CONFIRMATIONS. apply Z.leb_le. lia.
    + intros _. destruct n as [|n].
      * exists i. split; [done|]. cbn [Nat.leb negb andb]. unfold CONFIRMATIONS. rewrite (proj2 (Z.leb_le _ _)) by lia. done.
      * destruct (Hs ltac:(lia)) as (j & Hj & Hsj). exists j. replace (S (S (S n)) - 2)%nat with (S (S (S n) - 2)) by lia. split; [done|].
        cbn [Nat.leb negb andb]. done.
Qed.

Lemma evaluate_on_file o log hs i : on_file o hs -> on_file (Some (evaluate o log i).1.1) (i :: hs).
Proof.
  intros (Hd & Ht & Hu). unfold evaluate, on_file. rewrite Hu.
  destruct (transitions_spec (i_now i) (conditions (i_report i) (i_units i) (match hs with j :: _ => i_units j | [] => [] end))
    (st_conditions (default fresh o)) (conditions_ok _ _ _) Hd) as (held & keys & -> & Hok & _ & _ & Hl).
  cbn [default fst snd st_conditions st_units]. split_and!; [done | | done]. intros id. rewrite Hl.
  destruct (dget id (conditions _ _ _)) as [c|] eqn:Ec; [apply tracks_step; [done|]; unfold dmem; by rewrite Ec|].
  unfold tracks. cbn [sightings streak]. unfold dmem. by rewrite Ec.
Qed.

Lemma history_on_file hs : on_file (history hs).1.1 hs.
Proof.
  induction hs as [|i hs IH]; [split_and!; [constructor | intros id; done | done]|]. cbn [history].
  destruct (history hs) as [[o log] emitted]. cbn [fst] in IH. pose proof (evaluate_on_file o log hs i IH) as H.
  by destruct (evaluate o log i) as [[st log'] v].
Qed.

Lemma last_n_app {A} n (a b : list A) : last_n n (last_n n a ++ b) = last_n n (a ++ b).
Proof.
  unfold last_n. rewrite !length_app, length_drop.
  destruct (decide (length a <= n)%nat) as [Hl|Hl].
  - replace (length a - n)%nat with 0%nat by lia. rewrite drop_0. f_equal. lia.
  - rewrite !drop_app, drop_drop, length_drop. f_equal; f_equal; lia.
Qed.

(** The log is the end of what was emitted. *)
Lemma history_log hs : (history hs).1.2 = last_n EVENTS_KEPT (concat (rev (history hs).2)).
Proof.
  induction hs as [|i hs IH]; [done|]. cbn [history]. destruct (history hs) as [[o log] emitted]. cbn [fst snd] in IH.
  unfold evaluate. destruct (transitions _ _ _) as [held events]. cbn [fst snd w_events rev]. rewrite concat_app. cbn [concat]. rewrite app_nil_r, IH.
  destruct (events ++ processor_events _ _ _) as [|e l]; [by rewrite app_nil_r|]. unfold append_events. by rewrite last_n_app.
Qed.

Lemma processor_kind now boots previous e : e ∈ processor_events now boots previous -> v_kind e = Event.
Proof.
  unfold processor_events. destruct previous as [p|]; [|by inversion 1]. rewrite list_elem_of_In, in_concat.
  intros (l & (role & <- & _)%in_map_iff & Hin). unfold reboot_event in Hin.
  destruct (dget role p) as [[|]|]; [done| |done]. destruct (dget role boots) as [[|]|]; [done| |done].
  case_bool_decide; [done|]. by destruct Hin as [<-|[]].
Qed.

Section Step.
Context (now : Q) (seen : list (pystr * cond)) (held : list (pystr * entry)) (keys : list pystr).
Context (Hseen : dict_ok seen) (Hkeys : NoDup keys) (Hall : forall id, dget id held <> None -> id ∈ keys).
Let raised := concat (map (raise_part now held) seen).
Let cleared := concat (map (clear_part now seen held) keys).

Lemma raised_elem e : e ∈ raised <-> exists id c, dget id seen = Some c /\ raises (dget id held) = true /\ e = raised_event now id c.
Proof.
  unfold raised. rewrite list_elem_of_In, in_concat. split.
  - intros (l & ([id c] & <- & Hin)%in_map_iff & He). unfold raise_part in He. cbn in He. exists id, c.
    destruct (raises _); [|done]. destruct He as [<-|[]]. split_and!; [|done|done]. apply In_dget; [done | by apply list_elem_of_In].
  - intros (id & c & Hg & Hr & ->). exists (raise_part now held (id, c)). split.
    + apply in_map. by apply list_elem_of_In, dget_In.
    + unfold raise_part. cbn. rewrite Hr. by left.
Qed.
Lemma cleared_elem e : e ∈ cleared <-> exists id x, dget id seen = None /\ dget id held = Some x /\ e_raised x = true /\ e = cleared_event now id x.
Proof.
  unfold cleared. rewrite list_elem_of_In, in_concat. unfold clear_part, dmem. split.
  - intros (l & (id & <- & Hin)%in_map_iff & He). destruct (dget id seen) eqn:Es; [done|]. destruct (dget id held) as [x|] eqn:Eh; [|done].
    destruct (e_raised x) eqn:Er; [|done]. destruct He as [<-|[]]. by exists id, x.
  - intros (id & x & Hs & Hh & Hr & ->). eexists. split; [apply in_map, list_elem_of_In, (Hall id); congruence|]. cbn. rewrite Hs, Hh, Hr. by left.
Qed.

Lemma ids_distinct {A} (f : A -> list event) (key : A -> pystr) (l : list A) :
  (forall x, f x = [] \/ exists e, f x = [e] /\ v_id e = key x) -> NoDup (key <$> l) ->
  NoDup (v_id <$> concat (map f l)) /\ forall id, id ∈ v_id <$> concat (map f l) -> id ∈ key <$> l.
Proof.
  intros Hf. induction l as [|x l IH]; intros Hd; [split; [constructor | done]|]. cbn [fmap list_fmap] in Hd. apply NoDup_cons in Hd as [Hx Hd].
  destruct (IH Hd) as [H1 H2]. cbn [map concat fmap list_fmap]. destruct (Hf x) as [->|(e & -> & He)]; cbn [app fmap list_fmap].
  - split; [done|]. intros id Hid. right. auto.
  - rewrite He. split; [constructor; [intros Hin; by apply Hx, H2 | done]|]. intros id [->|Hid]%elem_of_cons; [left | right; auto].
Qed.

Lemma transition_ids : NoDup (v_id <$> raised ++ cleared).
Proof.
  destruct (ids_distinct (raise_part now held) fst seen) as [H1 H2]; [|exact Hseen|].
  { intros [id c]. unfold raise_part. cbn. destruct (raises _); [right; by eexists | by left]. }
  destruct (ids_distinct (clear_part now seen held) id keys) as [H3 H4]; [|by rewrite list_fmap_id|].
  { intros k. unfold clear_part. destruct (dmem k seen); [by left|]. destruct (dget k held) as [x|]; [|by left].
    destruct (e_raised x); [right; by eexists | by left]. }
  rewrite fmap_app. apply NoDup_app. split_and!; [exact H1 | | exact H3]. intros k Hk Hk'. apply H2 in Hk.
  apply list_elem_of_fmap in Hk' as (e & -> & (k' & x & Hs & _ & _ & ->)%cleared_elem). cbn in Hk. by apply dget_None_keys in Hs.
Qed.
End Step.

Lemma filter_each {A} (P : A -> Prop) `{forall x, Decision (P x)} (l : list A) : (forall x, x ∈ l -> P x) -> filter P l = l.
Proof.
  induction l as [|x l IH]; intros Hl; [done|]. rewrite filter_cons, decide_True by (apply Hl; left). f_equal. apply IH. intros y Hy. apply Hl. by right.
Qed.
Lemma filter_none' {A} (P : A -> Prop) `{forall x, Decision (P x)} (l : list A) : (forall x, x ∈ l -> ~ P x) -> filter P l = [].
Proof.
  induction l as [|x l IH]; intros Hl; [done|]. rewrite filter_cons, decide_False by (apply Hl; left). apply IH. intros y Hy. apply Hl. by right.
Qed.

Definition transition (e : event) : Prop := v_kind e <> Event.
#[global] Instance transition_decision e : Decision (transition e).
Proof. unfold transition. apply _. Defined.

(** C25. Alerts mean what the module says.  After any history of evaluations, the next one emits a raised event for exactly the
    conditions it sees for the second time in a row, and a cleared event for exactly those that the two evaluations before
    it saw and it does not, with the time since the second sighting; no condition has two of these events; the view
    lists exactly the conditions seen at least twice in a row; and the log holds the newest five hundred of all events
    ever emitted, in order. *)
Theorem alerts_exact hs i :
  let '(o, log, emitted) := history hs in
  let '(st, log', v) := evaluate o log i in
  let before := sightings hs in
  let after := sightings (i :: hs) in
  (forall id, (exists e, e ∈ w_events v /\ v_kind e = Raised /\ v_id e = id) <-> streak id after = 2%nat) /\
  (forall id, (exists e, e ∈ w_events v /\ v_kind e = Cleared /\ v_id e = id) <-> streak id after = 0%nat /\ (2 <= streak id before)%nat) /\
  (forall e, e ∈ w_events v -> v_kind e = Cleared ->
     exists j, hs !! (streak (v_id e) before - 2)%nat = Some j /\ v_duration e = Some (py_round (i_now i - i_now j)%Q)) /\
  NoDup (v_id <$> filter transition (w_events v)) /\
  (forall id, id ∈ (w_active v).*1 <-> (2 <= streak id after)%nat) /\
  log' = last_n EVENTS_KEPT (concat (rev (w_events v :: emitted))).
Proof.
  pose proof (history_on_file hs) as Hon. pose proof (history_on_file (i :: hs)) as Hon'. pose proof (history_log (i :: hs)) as Hlog.
  cbn [history] in Hon', Hlog. destruct (history hs) as [[o log] emitted]. cbn [fst] in Hon.
  destruct (evaluate o log i) as [[st log'] v] eqn:Ev. cbn zeta. cbn [fst snd] in *. destruct Hon as (Hd & Ht & Hu). destruct Hon' as (Hd' & Ht' & _).
  unfold evaluate in Ev. rewrite Hu in Ev. set (seen := conditions _ _ _) in *. set (held := st_conditions (default fresh o)) in *.
  destruct (transitions_spec (i_now i) seen held (conditions_ok _ _ _) Hd) as (held' & keys & Et & _ & Hkeys & Hall & Hl).
  rewrite Et in Ev. injection Ev as <- <- <-. cbn [w_events w_active default st_conditions] in *.
  pose proof (raised_elem (i_now i) seen held (conditions_ok _ _ _)) as Hr. pose proof (cleared_elem (i_now i) seen held keys Hall) as Hc.
  pose proof (transition_ids (i_now i) seen held keys (conditions_ok _ _ _) Hkeys Hall) as Hids. cbn zeta in *.
  set (raised := concat (map (raise_part _ _) _)) in *. set (cleared := concat (map (clear_part _ _ _) _)) in *.
  assert (forall e, e ∈ (raised ++ cleared) ++ processor_events (i_now i) (r_boots (i_report i)) (st_boots (default fresh o)) ->
    (v_kind e = Raised -> e ∈ raised) /\ (v_kind e = Cleared -> e ∈ cleared)) as Hsplit.
  { intros e [[He|He]%elem_of_app|He]%elem_of_app.
    - split; [done|]. apply Hr in He as (id & c & _ & _ & ->). discriminate.
    - split; [|done]. apply Hc in He as (id & x & _ & _ & _ & ->). discriminate.
    - apply processor_kind in He. rewrite He. by split. }
  split_and!; [| | | | | exact Hlog].
  - intros id. cbn [sightings streak]. fold seen. split.
    + intros (e & He & Hk & <-). apply Hsplit in He as [He _]. apply He, Hr in Hk as (id & c & Hs & Hra & ->). cbn.
      unfold dmem. rewrite Hs. rewrite (tracks_raises hs id _ (Ht id)) in Hra. apply Nat.eqb_eq in Hra. by rewrite Hra.
    + unfold dmem. destruct (dget id seen) as [c|] eqn:Es; [|done]. intros [= H1]. exists (raised_event (i_now i) id c).
      split; [|done]. apply elem_of_app; left. apply elem_of_app; left. apply Hr. exists id, c. split_and!; [done | | done].
      rewrite (tracks_raises hs id _ (Ht id)). by apply Nat.eqb_eq.
  - intros id. cbn [sightings streak]. fold seen. split.
    + intros (e & He & Hk & <-). apply Hsplit in He as [_ He]. apply He, Hc in Hk as (id & x & Hs & Hx & Hra & ->). cbn.
      unfold dmem. rewrite Hs. split; [done|]. apply (tracks_raised hs id _ (Ht id)). by exists x.
    + unfold dmem. destruct (dget id seen) as [c|] eqn:Es; [by intros [? _]|]. intros [_ H2].
      apply (tracks_raised hs id _ (Ht id)) in H2 as (x & Hx & Hra). exists (cleared_event (i_now i) id x). split; [|done].
      apply elem_of_app; left. apply elem_of_app; right. apply Hc. by exists id, x.
  - intros e He Hk. apply Hsplit in He as [_ He]. apply He, Hc in Hk as (id & x & Hs & Hx & Hra & ->). cbn.
    pose proof (Ht id) as Hti. rewrite Hx in Hti. unfold tracks in Hti. destruct (streak id (sightings hs)) as [|n]; [done|].
    destruct Hti as (x' & [= <-] & _ & Hr2 & Hsince). rewrite Hra in Hr2. symmetry in Hr2. apply Nat.leb_le in Hr2.
    destruct (Hsince ltac:(lia)) as (j & Hj & Hsj). exists j. split; [exact Hj|]. by rewrite Hsj.
  - rewrite filter_app, filter_each, filter_none', app_nil_r; [exact Hids | |].
    + intros e He Hn. apply Hn. by eapply processor_kind.
    + intros e [(id & c & _ & _ & ->)%Hr|(id & x & _ & _ & _ & ->)%Hc]%elem_of_app; discriminate.
  - intros id. rewrite py_sorted_perm. rewrite <- (tracks_raised (i :: hs) id _ (Ht' id)). split.
    + intros ([k x] & -> & Hin)%list_elem_of_fmap. apply list_elem_of_In, List.filter_In in Hin as [Hin%list_elem_of_In Hx].
      exists x. split; [by apply In_dget | done].
    + intros (x & Hx & Hrx). apply list_elem_of_fmap. exists (id, x). split; [done|]. apply list_elem_of_In, List.filter_In.
      split; [by apply list_elem_of_In, dget_In | done].
Qed.

Lemma transitions_kinds now seen held e : e ∈ (transitions now seen held).2 -> v_kind e <> Event.
Proof.
  unfold transitions. intros He.
  assert (forall l st, (forall e, e ∈ st.2 -> v_kind e <> Event) -> forall e, e ∈ (fold_left (sight now) l st).2 -> v_kind e <> Event) as H1.
  { induction l as [|[k c] l IH]; intros [h ev] Hst; [done|]. apply IH. rewrite sight_step. cbn. unfold raise_part.
    intros x [Hx|Hx]%elem_of_app; [by apply Hst|]. destruct (raises _); [|by inversion Hx]. by apply list_elem_of_singleton in Hx as ->. }
  assert (forall l st, (forall e, e ∈ st.2 -> v_kind e <> Event) -> forall e, e ∈ (fold_left (settle now seen) l st).2 -> v_kind e <> Event) as H2.
  { induction l as [|k l IH]; intros [h ev] Hst; [done|]. apply IH. unfold settle. destruct (dmem k seen); [done|]. cbn.
    destruct (dget k h) as [x|]; [|done]. destruct (e_raised x); [|done]. intros y [Hy|Hy]%elem_of_app; [by apply Hst|].
    by apply list_elem_of_singleton in Hy as ->. }
  eapply H2; [|exact He]. apply H1. by inversion 1.
Qed.

Lemma evaluate_boots o log i :
  st_boots (evaluate o log i).1.1 = match r_boots (i_report i) with [] => st_boots (default fresh o) | _ => Some (r_boots (i_report i)) end /\
  forall e, e ∈ w_events (evaluate o log i).2 -> v_kind e = Event -> e ∈ processor_events (i_now i) (r_boots (i_report i)) (st_boots (default fresh o)).
Proof.
  unfold evaluate. pose proof (transitions_kinds (i_now i) (conditions (i_report i) (i_units i) (st_units (default fresh o))) (st_conditions (default fresh o))) as Hk.
  destruct (transitions _ _ _) as [held events]. cbn [fst snd st_boots w_events] in *. split; [done|].
  intros e [He|He]%elem_of_app Hev; [by destruct (Hk e He) | done].
Qed.

(** A boot behind a gap goes unseen.  When a processor is missing from one report in which the other one is present, its
    identity is forgotten, and a later report in which it has another identity emits no event about it. *)
Theorem reboot_behind_gap_missed o log i1 i2 i3 role other b1 b2 b' :
  r_boots (i_report i1) = [(role, b1); (other, b')] -> r_boots (i_report i2) = [(other, b')] ->
  r_boots (i_report i3) = [(role, b2); (other, b')] -> role <> other -> b' <> [] ->
  let '(s1, l1, _) := evaluate o log i1 in
  let '(s2, l2, _) := evaluate (Some s1) l1 i2 in
  let '(_, _, v) := evaluate (Some s2) l2 i3 in
  forall e, e ∈ w_events v -> v_kind e <> Event.
Proof.
  intros H1 H2 H3 Hne Hb. destruct (evaluate o log i1) as [[s1 l1] v1]. pose proof (evaluate_boots (Some s1) l1 i2) as [Hb2 _].
  destruct (evaluate (Some s1) l1 i2) as [[s2 l2] v2]. pose proof (evaluate_boots (Some s2) l2 i3) as [_ He3].
  destruct (evaluate (Some s2) l2 i3) as [[s3 l3] v3]. cbn [fst snd] in *. change (default fresh (Some s2)) with s2 in He3. rewrite H2 in Hb2. rewrite H3, Hb2 in He3.
  intros e He Hk. apply He3 in He; [|done]. apply list_elem_of_In, in_concat in He as (l & (r & <- & _)%in_map_iff & Hin).
  unfold reboot_event in Hin. cbn [dget] in Hin. destruct (decide (r = other)) as [->|Hr]; [|done].
  rewrite decide_False in Hin by done. destruct b' as [|c t]; [done|]. by rewrite bool_decide_eq_true_2 in Hin.
Qed.

(** ** Witnesses *)

Definition demo_input (t : Z) (st : string) (boots : list (pystr * pystr)) : input :=
  {| i_now := inject_Z t; i_report := {| r_subsystems := [{| ss_id := lit "dhcp"; ss_plane := Some (lit "dp"); ss_state := lit st;
     ss_summary := lit "3 of 3 not serving"; ss_details := [] |}]; r_boots := boots |}; i_units := [] |}.
(** Three failing evaluations and a good one: one alert, raised at the second, cleared at the fourth. *)
Definition demo_history : list input :=
  [demo_input 360 "converged" []; demo_input 240 "failed" []; demo_input 120 "failed" []; demo_input 0 "failed" []].
Example demo_alert : v_kind <$> (history demo_history).1.2 = [Raised; Cleared].
Proof. vm_compute. reflexivity. Qed.

Lemma reboot_gap_witness :
  let b := [(lit "cp", lit "c1"); (lit "dp", lit "d1")] in
  let '(s1, l1, _) := evaluate None [] (demo_input 0 "converged" b) in
  let '(s2, l2, _) := evaluate (Some s1) l1 (demo_input 120 "converged" [(lit "dp", lit "d1")]) in
  let '(_, _, v) := evaluate (Some s2) l2 (demo_input 240 "converged" [(lit "cp", lit "c2"); (lit "dp", lit "d1")]) in
  forall e, e ∈ w_events v -> v_kind e <> Event.
Proof.
  apply (reboot_behind_gap_missed None [] (demo_input 0 "converged" _) (demo_input 120 "converged" _) (demo_input 240 "converged" _)
    (lit "cp") (lit "dp") (lit "c1") (lit "c2") (lit "d1")); [reflexivity.. | discriminate | discriminate].
Defined.
