(* ===== verification/Sysd.v ===== *)
(** * The state bus

    [ffn_sysd.py]: the store of runtime facts, its persistence, subscriptions, heartbeats and name service ([SysdStore]), the
    requests of a connection ([SysdServer._handle], [_client]) and the start, idle tick and stop of the server.

    Every connection has a thread.  A step is what a thread does while it holds the lock, with the callbacks of a change;
    the two things a thread does without the lock that others can see are steps of their own.  The call of [snapshot] that
    ends a [set] or [del] is part of the request's step when [inline] says so and otherwise a later [Tick].  A snapshot
    prepares its text under the lock and writes it after: the write is under way ([writes]) until a step [Finish] ends it,
    in any order, with success or failure.  Two writes that overlap share one temporary file; what they can make of the
    state file together is any content, at any time while one of them is under way ([Mix]).  A step reads the clock once.  A
    callback is the connection it writes to.  Ages in answers, the statistics answer and the text forms of values that are
    not strings are left out.

    A line that cannot be sent to a connection is not modelled: a connection is open until its last line or an exception.

    Main results: the store is the map its accepted requests make ([store_history]); with string prefixes in the
    subscriptions, and with no other write under way when the last snapshot of a stop is taken, a restart finds exactly
    the last values of the persisted namespace ([restart_exact]); a write still under way then can put an older state back
    after the stop has saved ([late_write_reverts]); a state file that could not be written is not written again before
    the next change ([failed_snapshot_lost]); and as long as a connection stays subscribed with a prefix that is no
    string, every [set] that changes a value fails and a stop does not save ([bad_prefix_breaks_set]). *)

From S2P Require Import Prelude PyStr PyDict PyIp PyTime PyJson.
#[local] Open Scope Z_scope.

Definition PERSISTED_ROOTS : list pystr := [lit "cfg"].
Definition VALID_ROOTS : list pystr := map lit ["cfg"; "sw"; "hw"; "dp"; "ha"; "run"]%string.
Definition HB_STALE_SEC : Q := 30%Q.
Definition SNAPSHOT_DEBOUNCE_SEC : Q := 2%Q.

(** [key.split(".", 1)[0]]. *)
Definition root (key : pystr) : pystr := match split_on 46 key with r :: _ => r | [] => [] end.
Definition persisted (key : pystr) : bool := bool_decide (root key ∈ PERSISTED_ROOTS).
Definition starts (p s : pystr) : bool := bool_decide (p `prefix_of` s).

Record store := {
  _state : list (pystr * (json * Q)); _hb : list (json * (Q * Z)); _subs : list (json * Z); _dirty : bool; _last_snapshot : Q;
  n_sets : Z; n_gets : Z; n_events : Z; _vars : list (pystr * pystr) }.
Definition disk := list (pystr * (json * Q)).
(** The state file and the writes under way, oldest first, each with whether another one was under way at the same time. *)
Record files := { file : disk; writes : list (disk * bool) }.

Definition set_state (st : list (pystr * (json * Q))) (d : bool) (s : store) : store :=
  {| _state := st; _hb := _hb s; _subs := _subs s; _dirty := d; _last_snapshot := _last_snapshot s; n_sets := n_sets s; n_gets := n_gets s;
     n_events := n_events s; _vars := _vars s |}.
Definition set_subs (l : list (json * Z)) (s : store) : store :=
  {| _state := _state s; _hb := _hb s; _subs := l; _dirty := _dirty s; _last_snapshot := _last_snapshot s; n_sets := n_sets s;
     n_gets := n_gets s; n_events := n_events s; _vars := _vars s |}.
Definition set_hb (l : list (json * (Q * Z))) (s : store) : store :=
  {| _state := _state s; _hb := l; _subs := _subs s; _dirty := _dirty s; _last_snapshot := _last_snapshot s; n_sets := n_sets s;
     n_gets := n_gets s; n_events := n_events s; _vars := _vars s |}.
Definition set_saved (now : Q) (s : store) : store :=
  {| _state := _state s; _hb := _hb s; _subs := _subs s; _dirty := false; _last_snapshot := now; n_sets := n_sets s; n_gets := n_gets s;
     n_events := n_events s; _vars := _vars s |}.
Definition count_up (sets gets events : Z) (s : store) : store :=
  {| _state := _state s; _hb := _hb s; _subs := _subs s; _dirty := _dirty s; _last_snapshot := _last_snapshot s; n_sets := n_sets s + sets;
     n_gets := n_gets s + gets; n_events := n_events s + events; _vars := _vars s |}.

(** ** Names *)

(** The text before the first occurrence of [p], and the text after it. *)
Fixpoint find_from (p s : pystr) : option (pystr * pystr) :=
  if starts p s then Some ([], drop (length p) s)
  else match s with [] => None | c :: t => '(a, b) ← find_from p t; Some (c :: a, b) end.
Fixpoint expand (rounds : nat) (vars : list (pystr * pystr)) (out : pystr) : pystr :=
  match rounds with
  | O => out
  | S k =>
      match find_from (lit "$(") out with
      | None => out
      | Some (before, rest) =>
          match find_from (lit ")") rest with
          | None => out
          | Some (name, after) => expand k vars (before ++ default [] (dget name vars) ++ after)
          end
      end
  end.
Definition resolve (vars : list (pystr * pystr)) (template : pystr) : pystr := expand 8 vars template.

(** ** Persistence *)

Definition keep (st : list (pystr * (json * Q))) : disk := List.filter (fun kv => persisted kv.1) st.
(** The text is ready and the lock released. *)
Definition begin_write (p : disk) (d : files) : files :=
  {| file := file d;
     writes := match writes d with [] => [(p, false)] | l => map (fun w => (w.1, true)) l ++ [(p, true)] end |}.
(** The [os.replace] of a write under way, or the exception that ends it. *)
Definition finish_write (i : nat) (ok : bool) (d : files) : files :=
  match writes d !! i with
  | Some (p, _) => {| file := if ok then p else file d; writes := take i (writes d) ++ drop (S i) (writes d) |}
  | None => d
  end.
(** Writes that overlapped leave their mixed text in the file. *)
Definition mix (text : disk) (d : files) : files :=
  if existsb snd (writes d) then {| file := text; writes := writes d |} else d.
Definition snapshot (force : bool) (now : Q) (sd : store * files) : store * files :=
  let '(s, d) := sd in
  if negb (_dirty s) && negb force then sd
  else if negb force && negb (Qle_bool SNAPSHOT_DEBOUNCE_SEC (now - _last_snapshot s)%Q) then sd
  else (set_saved now s, begin_write (keep (_state s)) d).
(** The [snapshot] at the end of a request, in the same step or later. *)
Definition then_snapshot (inline : bool) (now : Q) (sd : store * files) : store * files := if inline then snapshot false now sd else sd.
Definition _load (d : disk) : list (pystr * (json * Q)) :=
  fold_left (fun st kv => if persisted kv.1 then dset kv.1 kv.2 st else st) d [].
Definition new_store (vars : list (pystr * pystr)) (d : disk) : store :=
  {| _state := _load d; _hb := []; _subs := []; _dirty := false; _last_snapshot := 0%Q; n_sets := 0; n_gets := 0; n_events := 0;
     _vars := vars |}.

(** ** Operations of the store *)

Inductive line :=
| Change (key : pystr) (value : json)
| Pong | Done | Failed (error : string) | Value (v : json) (ts : option Q) | Deleted (b : bool) | Keys (l : list (pystr * json))
| Dump (l : list (pystr * (json * Q))) | Subscribed (prefix : json) | Beats (l : list (json * (Z * bool))) | Resolved (s : option pystr)
| Vars (l : list (pystr * pystr)) | Stats.

Definition _check_key (key : json) : result string pystr :=
  match key with
  | JStr (c :: t) => if bool_decide (root (c :: t) ∈ VALID_ROOTS) then Ok (c :: t) else Err "invalid namespace"%string
  | _ => Err "key must be a non-empty string"%string
  end.

(** The callbacks of a change, in the order of subscription; a prefix that is no string ends the loop with an exception. *)
Fixpoint notify (key : pystr) (value : json) (subs : list (json * Z)) : list (Z * line) * bool :=
  match subs with
  | [] => ([], true)
  | (JStr p, c) :: t => let '(out, ok) := notify key value t in (if starts p key then (c, Change key value) :: out else out, ok)
  | _ :: _ => ([], false)
  end.
(** [set]: the answer ([None] when an exception escapes) and the events. *)
Definition set (key : pystr) (value : json) (inline : bool) (now : Q) (sd : store * files) : option line * list (Z * line) * (store * files) :=
  let '(s, d) := sd in
  let old := match dget key (_state s) with Some (v, _) => v | None => JNull end in
  let s1 := count_up 1 0 0 (set_state (dset key (value, now) (_state s)) (persisted key || _dirty s) s) in
  let '(out, ok) := notify key value (if jeq old value then [] else _subs s) in
  let s2 := count_up 0 0 (Z.of_nat (length out)) s1 in
  if ok then (Some Done, out, then_snapshot inline now (s2, d)) else (None, out, (s2, d)).
Definition delete (key : pystr) (inline : bool) (now : Q) (sd : store * files) : bool * (store * files) :=
  let '(s, d) := sd in
  let existed := dmem key (_state s) in
  let s1 := set_state (ddel key (_state s)) ((existed && persisted key) || _dirty s) s in
  (existed, then_snapshot inline now (s1, d)).

Fixpoint hb_find (name : json) (l : list (json * (Q * Z))) : option (Q * Z) :=
  match l with [] => None | (n, r) :: t => if jeq n name then Some r else hb_find name t end.
Fixpoint hb_put (name : json) (r : Q * Z) (l : list (json * (Q * Z))) : list (json * (Q * Z)) :=
  match l with [] => [(name, r)] | (n, x) :: t => if jeq n name then (n, r) :: t else (n, x) :: hb_put name r t end.
Definition heartbeat (name : json) (now : Q) (s : store) : store :=
  let n := match hb_find name (_hb s) with Some (_, n) => n | None => 0 end in
  set_hb (hb_put name (now, n + 1) (_hb s)) s.
Definition hbstat (stale : Q) (now : Q) (s : store) : list (json * (Z * bool)) :=
  map (fun e => (e.1, (e.2.2, gtb (now - e.2.1)%Q stale))) (_hb s).

(** ** Requests *)

Definition as_number (v : json) : option Q :=
  match jnum v with
  | Some (m, e) => Some (if 0 <=? e then inject_Z (m * 2 ^ e) else (m # Z.to_pos (2 ^ (- e)))%Q)
  | None => None
  end.

(** The answer and the events of a request; without an answer an exception ends the connection. *)
Definition outcome : Type := option line * list (Z * line) * (store * files).
Definition reply (l : line) (sd : store * files) : outcome := (Some l, [], sd).
Definition raised (sd : store * files) : outcome := (None, [], sd).

Definition _handle (c : Z) (req : obj) (inline : bool) (now : Q) (sd : store * files) : outcome :=
  let '(s, d) := sd in
  let is_op (o : string) := jeq (get req "op") (J o) in
  let key := get req "key" in
  let got := (count_up 0 1 0 s, d) in
  if is_op "ping" then reply Pong sd
  else if is_op "set" then
    match _check_key key with
    | Ok k => set k (get req "value") inline now sd
    | Err e => reply (Failed e) sd
    end
  else if is_op "get" then
    if negb (hashable key) then raised got
    else match jstr key ≫= (fun k => dget k (_state s)) with
         | Some (v, ts) => reply (Value v (Some ts)) got
         | None => reply (Value JNull None) got
         end
  else if is_op "del" then
    if negb (hashable key) then raised sd
    else match jstr key with
         | Some k => let '(b, sd') := delete k inline now sd in reply (Deleted b) sd'
         | None => reply (Deleted false) (then_snapshot inline now sd)
         end
  else if is_op "list" then
    match get_or req "prefix" (JStr []) with
    | JStr p => reply (Keys (map (fun kv => (kv.1, kv.2.1)) (List.filter (fun kv => starts p kv.1) (_state s)))) sd
    | _ => match _state s with [] => reply (Keys []) sd | _ => raised sd end
    end
  else if is_op "dump" then reply (Dump (_state s)) sd
  else if is_op "sub" then
    let prefix := get_or req "prefix" (JStr []) in reply (Subscribed prefix) (set_subs (_subs s ++ [(prefix, c)]) s, d)
  else if is_op "unsub" then reply Done (set_subs (List.filter (fun pc => negb (pc.2 =? c)) (_subs s)) s, d)
  else if is_op "hb" then
    if negb (truthy (get req "name")) then reply (Failed "name required") sd
    else if negb (hashable (get req "name")) then raised sd
    else reply Done (heartbeat (get req "name") now s, d)
  else if is_op "hbstat" then
    match _hb s, as_number (get_or req "stale_sec" (JInt 30)) with
    | [], _ => reply (Beats []) sd
    | _, Some q => reply (Beats (hbstat q now s)) sd
    | _, None => raised sd
    end
  else if is_op "resolve" then reply (Resolved (resolve (_vars s) <$> jstr (get_or req "template" (JStr [])))) sd
  else if is_op "vars" then reply (Vars (_vars s)) sd
  else if is_op "stats" then reply Stats sd
  else reply (Failed "unknown op") sd.

(** ** The server *)

(** [_client] after an exception or the last line. *)
Definition unsubscribe (c : Z) (s : store) : store := set_subs (List.filter (fun pc => negb (pc.2 =? c)) (_subs s)) s.

Inductive action :=
| Line (c : Z) (req : option json)
| Eof (c : Z)
| Tick
| Finish (i : nat) (ok : bool)
| Mix (text : disk).
Record event := { act : action; inline : bool; now : Q }.

Definition serve (e : event) (sd : store * files) : outcome :=
  match act e with
  | Line c None => reply (Failed "bad json") sd
  | Line c (Some (JObj req)) =>
      let '(r, out, (s, d)) := _handle c req (inline e) (now e) sd in
      (r, out, match r with Some _ => (s, d) | None => (unsubscribe c s, d) end)
  | Line c (Some _) | Eof c => (None, [], (unsubscribe c sd.1, sd.2))
  | Tick => (None, [], snapshot false (now e) sd)
  | Finish i ok => (None, [], (sd.1, finish_write i ok sd.2))
  | Mix text => (None, [], (sd.1, mix text sd.2))
  end.
Definition run (es : list event) (sd : store * files) : store * files := fold_left (fun sd e => (serve e sd).2) es sd.

Definition k_state : pystr := lit "sw.sysd.state".
Definition k_socket : pystr := lit "sw.sysd.socket".
(** [start]: the two facts it publishes; [None] when an exception ends it. *)
Definition start (path : pystr) (now : Q) (sd : store * files) : option (store * files) :=
  match set k_state (J "running") true now sd with
  | (Some _, _, sd1) => match set k_socket (JStr path) true now sd1 with (Some _, _, sd2) => Some sd2 | _ => None end
  | _ => None
  end.
(** [stop] up to the point where its last snapshot has been written or has failed; [mid] is what happens, on any thread,
    between its [set] and that snapshot.  An exception in [set] ends it before the state is saved. *)
Definition stop (mid : list event) (ok : bool) (now now' : Q) (sd : store * files) : store * files :=
  match set k_state (J "stopping") true now sd with
  | (Some _, _, sd1) =>
      let '(s, d) := snapshot true now' (run mid sd1) in (s, finish_write (length (writes d) - 1) ok d)
  | (None, _, sd1) => run mid sd1
  end.

(** ** The map the requests make *)

(** What an event does to the value of a key. *)
Definition effect (k : pystr) (v : option (json * Q)) (e : event) : option (json * Q) :=
  match act e with
  | Line _ (Some (JObj req)) =>
      if jeq (get req "op") (J "set") then
        match _check_key (get req "key") with Ok k' => if decide (k = k') then Some (get req "value", now e) else v | Err _ => v end
      else if jeq (get req "op") (J "del") then if jeq (get req "key") (JStr k) then None else v
      else v
  | _ => v
  end.

Lemma snapshot_fst f n sd : _state (snapshot f n sd).1 = _state sd.1 /\ _subs (snapshot f n sd).1 = _subs sd.1.
Proof. destruct sd as [s d]. unfold snapshot. by repeat case_match. Qed.

Lemma then_fst w n sd : _state (then_snapshot w n sd).1 = _state sd.1 /\ _subs (then_snapshot w n sd).1 = _subs sd.1.
Proof. destruct w; [apply snapshot_fst | done]. Qed.

Lemma set_fst k v w n sd :
  _state (set k v w n sd).2.1 = dset k (v, n) (_state sd.1) /\ _subs (set k v w n sd).2.1 = _subs sd.1.
Proof. destruct sd as [s d]. unfold set. destruct (notify _ _ _) as [out []]; [|done]. cbn [snd].
  match goal with |- context [then_snapshot ?w ?n ?sd] => destruct (then_fst w n sd) as [-> ->] end. done. Qed.

Lemma delete_fst k w n sd :
  _state (delete k w n sd).2.1 = ddel k (_state sd.1) /\ _subs (delete k w n sd).2.1 = _subs sd.1.
Proof. destruct sd as [s d]. apply (then_fst w n (set_state (ddel k (_state s)) _ s, d)). Qed.

Lemma op_other v a b : jeq v (J a) = true -> a <> b -> jeq v (J b) = false.
Proof.
  intros ->%jeq_str Hab. destruct (jeq (J a) (J b)) eqn:E; [|done]. apply jeq_str in E. injection E as E. by apply lit_inj in E.
Qed.

(** Requests other than [set] and [del] leave the values. *)
Lemma handle_other c req w n sd :
  jeq (get req "op") (J "set") = false -> jeq (get req "op") (J "del") = false ->
  _state (_handle c req w n sd).2.1 = _state sd.1.
Proof. destruct sd as [s d]. unfold _handle. intros -> ->. unfold reply, raised. by repeat case_match. Qed.

Lemma handle_set c req w n sd :
  jeq (get req "op") (J "set") = true ->
  _handle c req w n sd = match _check_key (get req "key") with
                         | Ok k => set k (get req "value") w n sd
                         | Err e => reply (Failed e) sd
                         end.
Proof. destruct sd as [s d]. unfold _handle. intros E. by rewrite E, (op_other _ "set" "ping" E). Qed.

Lemma handle_del c req w n sd :
  jeq (get req "op") (J "del") = true ->
  _handle c req w n sd =
    if negb (hashable (get req "key")) then raised sd
    else match jstr (get req "key") with
         | Some k => let '(b, sd') := delete k w n sd in reply (Deleted b) sd'
         | None => reply (Deleted false) (then_snapshot w n sd)
         end.
Proof.
  destruct sd as [s d]. unfold _handle. intros E. rewrite E, (op_other _ "del" "ping" E), (op_other _ "del" "set" E), (op_other _ "del" "get" E);
    done.
Qed.

Lemma handle_state c req w n sd k :
  dget k (_state (_handle c req w n sd).2.1) =
    effect k (dget k (_state sd.1)) {| act := Line c (Some (JObj req)); inline := w; now := n |}.
Proof.
  unfold effect. cbn [act now]. destruct (jeq (get req "op") (J "set")) eqn:Es.
  { rewrite (handle_set _ _ _ _ _ Es). destruct (_check_key _) as [k'|]; [|done].
    rewrite (proj1 (set_fst _ _ _ _ _)). by rewrite dget_dset. }
  destruct (jeq (get req "op") (J "del")) eqn:Ed; [|by rewrite handle_other].
  rewrite (handle_del _ _ _ _ _ Ed). destruct (get req "key") as [| | | |k'| |] eqn:Ek; cbn [hashable negb jstr];
    try (cbn [jeq jnum]; apply (f_equal (dget k)), (proj1 (then_fst _ _ _))); try done.
  destruct (delete k' w n sd) as [b sd'] eqn:E.
  pose proof (delete_fst k' w n sd) as [H _]. rewrite E in H. cbn in H |- *. rewrite H, dget_ddel.
  rewrite (bool_decide_ext (k' = k) (k = k')) by (split; auto). by case_decide; [rewrite bool_decide_true|rewrite bool_decide_false].
Qed.

Lemma serve_state k e sd : dget k (_state (serve e sd).2.1) = effect k (dget k (_state sd.1)) e.
Proof.
  unfold serve. destruct e as [a w n]; cbn [act inline now]. destruct a as [c [v|]|c| |i ok|text]; try done; [|apply (f_equal (dget k)), snapshot_fst].
  destruct v as [| | | | | |req]; try done.
  pose proof (handle_state c req w n sd k) as H. rewrite <- H.
  by destruct (_handle c req w n sd) as [[r out] [s d]], r.
Qed.

(** The store is the map of its accepted requests: after any sequence of lines, ends of connections and ticks, each key has
    the value of its last [set] with a valid key, and none after a [del]. *)
Lemma store_history k es sd : dget k (_state (run es sd).1) = fold_left (effect k) es (dget k (_state sd.1)).
Proof. revert sd. induction es as [|e es IH]; intros sd; [done|]. cbn [run fold_left]. by rewrite <- serve_state, <- IH. Qed.

(** ** Subscriptions *)

Definition is_text (v : json) : bool := if jstr v then true else false.
Definition text_subs (s : store) : bool := forallb (fun pc => is_text pc.1) (_subs s).
(** A subscription request has a prefix that is a string. *)
Definition prefix_ok (e : event) : bool :=
  match act e with
  | Line _ (Some (JObj req)) => if jeq (get req "op") (J "sub") then is_text (get_or req "prefix" (JStr [])) else true
  | _ => true
  end.

Lemma notify_text k v l : forallb (fun pc : json * Z => is_text pc.1) l = true -> (notify k v l).2 = true.
Proof.
  induction l as [|[p c] t IH]; [done|]. cbn. intros [Hp Ht]%andb_prop. destruct p; try done. by destruct (notify k v t); apply IH.
Qed.

Lemma notify_bad k v l p c : (p, c) ∈ l -> is_text p = false -> (notify k v l).2 = false.
Proof.
  intros Hin Hp. induction l as [|[q c'] t IH]; [by apply elem_of_nil in Hin|].
  apply elem_of_cons in Hin as [[= <- <-]|Hin]; [by destruct p|].
  cbn. destruct q; try done. specialize (IH Hin). by destruct (notify k v t).
Qed.

Lemma forallb_filter {A} (f g : A -> bool) l : forallb f l = true -> forallb f (List.filter g l) = true.
Proof. rewrite !forallb_forall. intros H x [? _]%filter_In. auto. Qed.

(** The subscriptions after a request: a new one, none of the connection's, or the ones before. *)
Lemma handle_subs c req w n sd :
  _subs (_handle c req w n sd).2.1 =
    if jeq (get req "op") (J "sub") then _subs sd.1 ++ [(get_or req "prefix" (JStr []), c)]
    else if jeq (get req "op") (J "unsub") then List.filter (fun pc => negb (pc.2 =? c)) (_subs sd.1)
    else _subs sd.1.
Proof.
  destruct (jeq (get req "op") (J "set")) eqn:Es.
  { rewrite (handle_set _ _ _ _ _ Es), (op_other _ _ "sub" Es), (op_other _ _ "unsub" Es) by done.
    destruct (_check_key _); [apply set_fst|done]. }
  destruct (jeq (get req "op") (J "del")) eqn:Ed.
  { rewrite (handle_del _ _ _ _ _ Ed), (op_other _ _ "sub" Ed), (op_other _ _ "unsub" Ed) by done.
    destruct (hashable _); [|done]. cbn [negb]. destruct (jstr _) as [k|]; [|apply then_fst].
    pose proof (delete_fst k w n sd) as [_ H]. by destruct (delete k w n sd). }
  destruct sd as [s d]. unfold _handle. rewrite Es, Ed. cbn [fst]. unfold reply, raised.
  destruct (jeq (get req "op") (J "sub")) eqn:E1.
  { rewrite (op_other _ _ "ping" E1), (op_other _ _ "get" E1), (op_other _ _ "list" E1), (op_other _ _ "dump" E1); done. }
  destruct (jeq (get req "op") (J "unsub")) eqn:E2.
  { rewrite (op_other _ _ "ping" E2), (op_other _ _ "get" E2), (op_other _ _ "list" E2), (op_other _ _ "dump" E2); done. }
  by repeat case_match.
Qed.

Lemma serve_line_subs c req w n sd :
  _subs (serve {| act := Line c (Some (JObj req)); inline := w; now := n |} sd).2.1 = _subs (_handle c req w n sd).2.1
  \/ _subs (serve {| act := Line c (Some (JObj req)); inline := w; now := n |} sd).2.1
     = List.filter (fun pc => negb (pc.2 =? c)) (_subs (_handle c req w n sd).2.1).
Proof. unfold serve; cbn [act inline now]. destruct (_handle c req w n sd) as [[[r|] out] [s d]]; [by left|by right]. Qed.

Lemma serve_text e sd : prefix_ok e = true -> text_subs sd.1 = true -> text_subs (serve e sd).2.1 = true.
Proof.
  unfold text_subs. destruct e as [a w n]. intros Hp Ht. destruct a as [c [v|]|c| |i ok|text]; try done.
  - destruct v as [| | | | | |req]; try (by apply forallb_filter).
    assert (H : forallb (fun pc => is_text pc.1) (_subs (_handle c req w n sd).2.1) = true).
    { rewrite handle_subs. unfold prefix_ok in Hp. cbn [act] in Hp. destruct (jeq _ (J "sub")).
      - rewrite forallb_app, Ht. cbn. by rewrite Hp.
      - destruct (jeq _ (J "unsub")); [by apply forallb_filter|done]. }
    destruct (serve_line_subs c req w n sd) as [-> | ->]; [done|by apply forallb_filter].
  - by apply forallb_filter.
  - cbn [serve act inline now snd fst]. by rewrite (proj2 (snapshot_fst _ _ _)).
Qed.

Lemma run_text es sd : forallb prefix_ok es = true -> text_subs sd.1 = true -> text_subs (run es sd).1 = true.
Proof.
  revert sd. induction es as [|e es IH]; intros sd Hp Ht; [done|]. cbn in Hp. apply andb_prop in Hp as [He Hp].
  by apply IH, serve_text.
Qed.

(** ** A stop and the restart *)

Lemma set_text k v w n sd : text_subs sd.1 = true -> (set k v w n sd).1.1 = Some Done.
Proof.
  destruct sd as [s d]. intros Ht. unfold set.
  destruct (notify k v _) as [out ok] eqn:E. assert (ok = true) as ->; [|done].
  replace ok with (notify k v (if jeq match dget k (_state s) with Some (v, _) => v | None => JNull end v then [] else _subs s)).2 by (by rewrite E).
  destruct (jeq _ _); [done|]. by apply notify_text.
Qed.

Lemma finish_only p d : writes d = [] -> finish_write (length (writes (begin_write p d)) - 1) true (begin_write p d) = {| file := p; writes := [] |}.
Proof. intros E. unfold begin_write. by rewrite E. Qed.

Lemma stop_disk mid n n' sd : text_subs sd.1 = true -> writes (run mid (set k_state (J "stopping") true n sd).2).2 = [] ->
  file (stop mid true n n' sd).2 = keep (_state (run mid (set k_state (J "stopping") true n sd).2).1).
Proof.
  intros Ht Hw. unfold stop. pose proof (set_text k_state (J "stopping") true n sd Ht) as H1.
  destruct (set k_state (J "stopping") true n sd) as [[r out] sd1]. cbn in H1, Hw |- *. subst r.
  destruct (run mid sd1) as [s d]. cbn [snd fst] in *. unfold snapshot. rewrite andb_false_r. cbn [negb andb]. by rewrite finish_only.
Qed.

Lemma persisted_keep k st : dget k (keep st) = if persisted k then dget k st else None.
Proof.
  induction st as [|[k' v] t IH]; [by destruct (persisted k)|]. unfold keep in *. cbn [List.filter fst].
  destruct (persisted k') eqn:E'; cbn [dget]; rewrite ?IH; destruct (decide (k = k')) as [->|]; rewrite ?E'; done.
Qed.

Lemma dget_load d k : dict_ok d -> dget k (_load d) = if persisted k then dget k d else None.
Proof.
  unfold _load. assert (H : forall d st, dict_ok d ->
    dget k (fold_left (fun st (kv : pystr * (json * Q)) => if persisted kv.1 then dset kv.1 kv.2 st else st) d st)
    = match (if persisted k then dget k d else None) with Some v => Some v | None => dget k st end).
  { clear d. induction d as [|[k' v] t IH]; intros st Hd; [by destruct (persisted k)|].
    apply NoDup_cons in Hd as [Hk Hd]. cbn [fst] in Hk. cbn [fold_left fst snd]. rewrite IH by done. cbn [dget].
    destruct (decide (k = k')) as [->|Hne].
    - apply dget_None_keys in Hk. rewrite Hk. destruct (persisted k'); [|done]. by rewrite dget_dset_eq.
    - destruct (persisted k), (persisted k'); try rewrite dget_dset_ne by done; done. }
  intros Hd. rewrite H by done. cbn. by destruct (if persisted k then dget k d else None).
Qed.

Lemma handle_dict_ok c req w n sd : dict_ok (_state sd.1) -> dict_ok (_state (_handle c req w n sd).2.1).
Proof.
  intros H. destruct (jeq (get req "op") (J "set")) eqn:Es.
  { rewrite (handle_set _ _ _ _ _ Es). destruct (_check_key _); [|done]. rewrite (proj1 (set_fst _ _ _ _ _)). by apply dict_ok_dset. }
  destruct (jeq (get req "op") (J "del")) eqn:Ed; [|by rewrite handle_other].
  rewrite (handle_del _ _ _ _ _ Ed). destruct (hashable _); [|done]. cbn [negb]. destruct (jstr _) as [k|].
  - pose proof (delete_fst k w n sd) as [Hk _]. destruct (delete k w n sd) as [b sd']. cbn in Hk |- *. rewrite Hk. by apply dict_ok_ddel.
  - cbn. by rewrite (proj1 (then_fst _ _ _)).
Qed.

Lemma run_dict_ok es sd : dict_ok (_state sd.1) -> dict_ok (_state (run es sd).1).
Proof.
  revert sd. induction es as [|[a w n] es IH]; intros sd H; [done|]. cbn [run fold_left]. apply IH.
  destruct a as [c [v|]|c| |i ok|text]; try done; [destruct v as [| | | | | |req]; try done|].
  - unfold serve; cbn [act inline now]. pose proof (handle_dict_ok c req w n sd H) as H'.
    by destruct (_handle c req w n sd) as [[[r|] out] [s d]].
  - cbn [serve act inline now snd]. by rewrite (proj1 (snapshot_fst _ _ _)).
Qed.

Lemma load_dict_ok d : dict_ok (_load d).
Proof.
  unfold _load. assert (H : forall d st, dict_ok st ->
    dict_ok (fold_left (fun st (kv : pystr * (json * Q)) => if persisted kv.1 then dset kv.1 kv.2 st else st) d st)).
  { clear d. induction d as [|kv t IH]; intros st Hs; [done|]. cbn. apply IH. destruct (persisted kv.1); [by apply dict_ok_dset|done]. }
  apply H. apply NoDup_nil_2.
Qed.

Lemma keep_dict_ok st : dict_ok st -> dict_ok (keep st).
Proof.
  unfold dict_ok, keep. induction st as [|[k v] t IH]; [done|]. cbn [List.filter fst]. rewrite fmap_cons, NoDup_cons. intros [Hk Ht].
  destruct (persisted k); [|by apply IH]. rewrite fmap_cons, NoDup_cons. split; [|by apply IH].
  intros Hin. apply Hk. apply list_elem_of_fmap in Hin as (kv & -> & Hkv). apply list_elem_of_In, filter_In in Hkv as [Hkv _].
  apply list_elem_of_fmap. exists kv. by rewrite list_elem_of_In.
Qed.

Lemma set_subs_text k v w n sd : text_subs sd.1 = true -> text_subs (set k v w n sd).2.1 = true.
Proof. intros H. unfold text_subs. by rewrite (proj2 (set_fst _ _ _ _ _)). Qed.

Lemma start_new path n vars d l :
  exists sd, start path n (new_store vars d, l) = Some sd /\ text_subs sd.1 = true /\ dict_ok (_state sd.1)
    /\ forall k, persisted k = true -> dget k (_state sd.1) = dget k (_load d).
Proof.
  unfold start. set (sd0 := (new_store vars d, l)).
  pose proof (set_text k_state (J "running") true n sd0 eq_refl) as A1. pose proof (set_fst k_state (J "running") true n sd0) as [A2 A3].
  destruct (set k_state (J "running") true n sd0) as [[r1 out1] sd1]. cbn in A1, A2, A3. subst r1.
  assert (A4 : text_subs sd1.1 = true) by (unfold text_subs; by rewrite A3).
  pose proof (set_text k_socket (JStr path) true n sd1 A4) as B1. pose proof (set_fst k_socket (JStr path) true n sd1) as [B2 B3].
  destruct (set k_socket (JStr path) true n sd1) as [[r2 out2] sd2]. cbn in B1, B2, B3. subst r2.
  exists sd2. split; [done|]. split; [unfold text_subs; by rewrite B3, A3|]. rewrite B2, A2. split.
  - apply dict_ok_dset, dict_ok_dset, load_dict_ok.
  - intros k Hk. rewrite !dget_dset_ne; [done| |]; intros ->; by vm_compute in Hk.
Qed.

(** C26. From any state file, a server starts; then any lines of any connections, ends of connections, ticks, and writes
    that succeed, fail or overlap, in which no subscription has a prefix that is no string; then a stop, with whatever
    happens on other threads between its [set] and its last snapshot.  When no other write is under way at that snapshot
    and its own write succeeds, a server started on the file it leaves has, for every key of the persisted namespace, the
    value of the last accepted [set] before that snapshot (or of the first file), none after a [del], and no key of
    another namespace. *)
Theorem restart_exact vars path d0 n es mid n1 n2 vars' k :
  forallb prefix_ok es = true ->
  exists sd, start path n (new_store vars d0, {| file := d0; writes := [] |}) = Some sd
    /\ (writes (run mid (set k_state (J "stopping") true n1 (run es sd)).2).2 = [] ->
        dget k (_state (new_store vars' (file (stop mid true n1 n2 (run es sd)).2)))
        = if persisted k then fold_left (effect k) (es ++ mid) (dget k (_load d0)) else None).
Proof.
  intros Hp. destruct (start_new path n vars d0 {| file := d0; writes := [] |}) as (sd & Hs & Ht & Hd & Hk). exists sd. split; [done|].
  intros Hw. rewrite stop_disk by (done || by apply run_text). cbn [new_store _state].
  rewrite dget_load by (apply keep_dict_ok, run_dict_ok; rewrite (proj1 (set_fst _ _ _ _ _)); by apply dict_ok_dset, run_dict_ok).
  rewrite persisted_keep. destruct (persisted k) eqn:E; [|done].
  rewrite store_history, (proj1 (set_fst _ _ _ _ _)), dget_dset_ne by (intros ->; by vm_compute in E).
  by rewrite store_history, Hk, fold_left_app.
Qed.

Definition ask (c : Z) (fields : obj) : event := {| act := Line c (Some (JObj fields)); inline := true; now := 100%Q |}.
Definition finish (i : nat) (ok : bool) : event := {| act := Finish i ok; inline := true; now := 100%Q |}.
Definition fld (k : string) (v : json) : pystr * json := (lit k, v).
Definition demo : list event :=
  [ ask 1 [fld "op" (J "sub"); fld "prefix" (J "cfg.")];
    ask 2 [fld "op" (J "set"); fld "key" (J "cfg.role"); fld "value" (J "mp")];
    ask 2 [fld "op" (J "set"); fld "key" (J "dp.port"); fld "value" (JInt 3)];
    ask 2 [fld "op" (J "set"); fld "key" (J "cfg.role"); fld "value" (J "dp")];
    ask 1 [fld "op" (J "set"); fld "key" (J "cfg.x"); fld "value" (JInt 1)];
    ask 1 [fld "op" (J "del"); fld "key" (J "cfg.x")] ].

Definition empty_file : files := {| file := []; writes := [] |}.

(** The first change is saved by its own request, the others by the stop; the write of the first one fails. *)
Lemma restart_witness :
  exists sd, start (lit "/run/s") 1%Q (new_store [] [], empty_file) = Some sd
    /\ dget (lit "cfg.role") (_state (new_store [] (file (stop [finish 0 false] true 101%Q 102%Q (run demo sd)).2)))
       = if persisted (lit "cfg.role") then fold_left (effect (lit "cfg.role")) (demo ++ [finish 0 false]) (dget (lit "cfg.role") (_load [])) else None.
Proof.
  destruct (restart_exact [] (lit "/run/s") [] 1%Q demo [finish 0 false] 101%Q 102%Q [] (lit "cfg.role") eq_refl) as (sd & Hs & H).
  exists sd. split; [exact Hs|]. apply H. injection Hs as <-. by vm_compute.
Defined.

(** ** A write that ends late *)

Lemma finish_first p b l f ok : finish_write 0 ok {| file := f; writes := (p, b) :: l |} = {| file := if ok then p else f; writes := l |}.
Proof. unfold finish_write. cbn. by rewrite drop_0. Qed.

Lemma stop_keeps_oldest ok n n' sd p b l : writes sd.2 = (p, b) :: l ->
  exists b' l', writes (stop [] ok n n' sd).2 = (p, b') :: l'.
Proof.
  intros E.
  assert (Hb : forall q d, (exists b0 l0, writes d = (p, b0) :: l0) -> exists b1 x l1, writes (begin_write q d) = (p, b1) :: l1 ++ [x]).
  { intros q d (b0 & l0 & E0). unfold begin_write. rewrite E0. cbn. by do 3 eexists. }
  assert (Hsnap : forall f m sd0, (exists b0 l0, writes sd0.2 = (p, b0) :: l0) -> exists b0 l0, writes (snapshot f m sd0).2 = (p, b0) :: l0).
  { intros f m [s d] H. unfold snapshot. destruct (_ && _); [done|]. destruct (_ && _); [done|].
    destruct (Hb (keep (_state s)) d H) as (b1 & x & l1 & Hw). cbn [snd]. eauto. }
  assert (Hset : exists b0 l0, writes (set k_state (J "stopping") true n sd).2.2 = (p, b0) :: l0).
  { destruct sd as [s d]. unfold set. destruct (notify _ _ _) as [out []]; [|eauto]. cbn [snd then_snapshot]. apply Hsnap. eauto. }
  unfold stop. destruct (set k_state (J "stopping") true n sd) as [[[r|] out] [s d]]; [|done]. cbn [snd run fold_left] in *.
  unfold snapshot. rewrite andb_false_r. cbn [negb andb snd]. destruct (Hb (keep (_state s)) d Hset) as (b1 & x & l1 & Hw).
  rewrite Hw. unfold finish_write. rewrite Hw.
  replace (length ((p, b1) :: l1 ++ [x]) - 1)%nat with (S (length l1)) by (cbn; rewrite length_app; cbn; lia).
  cbn [lookup list_lookup]. rewrite (list_lookup_middle l1 [] x) by done. destruct x as [px bx]. cbn. eauto.
Qed.

(** The write of an earlier request that is still under way when the server stops: it ends after the stop has saved, and
    the file is the earlier state again, whatever the stop saved. *)
Theorem late_write_reverts ok n n' sd p b l m :
  writes sd.2 = (p, b) :: l ->
  file (serve {| act := Finish 0 true; inline := true; now := m |} (stop [] ok n n' sd)).2.2 = p.
Proof.
  intros E. destruct (stop_keeps_oldest ok n n' sd p b l E) as (b' & l' & H). cbn [serve act snd]. unfold finish_write. by rewrite H.
Qed.

(** Two accepted changes of one key; the write of the first ends after the stop: the restart finds the first. *)
Lemma late_write_witness :
  let sd := run [ ask 2 [fld "op" (J "set"); fld "key" (J "cfg.role"); fld "value" (J "mp")];
                  ask 2 [fld "op" (J "set"); fld "key" (J "cfg.role"); fld "value" (J "dp")] ] (new_store [] [], empty_file) in
  let last := serve {| act := Finish 0 true; inline := true; now := 103%Q |} (stop [] true 101%Q 102%Q sd) in
  dget (lit "cfg.role") (_load (file (stop [] true 101%Q 102%Q sd).2)) = Some (J "dp", 100%Q)
  /\ dget (lit "cfg.role") (_load (file last.2.2)) = Some (J "mp", 100%Q).
Proof.
  cbv zeta. split; [by vm_compute|].
  erewrite (late_write_reverts true 101%Q 102%Q _ [(lit "cfg.role", (J "mp", 100%Q))] false [] 103%Q); by vm_compute.
Defined.

(** ** A write that fails *)

(** No accepted change of a persisted key. *)
Definition quiet (e : event) : bool :=
  match act e with
  | Line _ (Some (JObj req)) =>
      if jeq (get req "op") (J "set") then match _check_key (get req "key") with Ok k => negb (persisted k) | Err _ => true end
      else if jeq (get req "op") (J "del") then match jstr (get req "key") with Some k => negb (persisted k) | None => true end
      else true
  | _ => true
  end.

Lemma snapshot_clean n s d : _dirty s = false -> snapshot false n (s, d) = (s, d).
Proof. intros E. unfold snapshot. by rewrite E. Qed.

Lemma then_clean w n s d : _dirty s = false -> then_snapshot w n (s, d) = (s, d).
Proof. destruct w; [apply snapshot_clean | done]. Qed.

Lemma handle_clean c req w n s d :
  quiet {| act := Line c (Some (JObj req)); inline := w; now := n |} = true -> _dirty s = false ->
  _dirty (_handle c req w n (s, d)).2.1 = false /\ (_handle c req w n (s, d)).2.2 = d.
Proof.
  unfold quiet. cbn [act]. intros Hq Hc. destruct (jeq (get req "op") (J "set")) eqn:Es.
  { rewrite (handle_set _ _ _ _ _ Es). destruct (_check_key _) as [k|]; [|done]. apply negb_true_iff in Hq. unfold set.
    destruct (notify k _ _) as [out []]; [|by cbn; rewrite Hq, Hc]. by rewrite then_clean; cbn; rewrite ?Hq, ?Hc. }
  destruct (jeq (get req "op") (J "del")) eqn:Ed.
  { rewrite (handle_del _ _ _ _ _ Ed). destruct (hashable _); [|done]. cbn [negb]. destruct (jstr _) as [k|].
    - apply negb_true_iff in Hq. unfold delete. by rewrite then_clean; cbn; rewrite ?Hq, ?Hc, ?andb_false_r.
    - by rewrite then_clean. }
  unfold _handle. rewrite Es, Ed. unfold reply, raised. by repeat case_match.
Qed.

Lemma serve_clean e s d : quiet e = true -> _dirty s = false -> writes d = [] ->
  _dirty (serve e (s, d)).2.1 = false /\ (serve e (s, d)).2.2 = d.
Proof.
  destruct e as [a w n]. intros Hq Hc Hw. destruct a as [c [v|]|c| |i ok|text]; try done; [destruct v as [| | | | | |req]; try done| | |].
  - unfold serve; cbn [act inline now]. pose proof (handle_clean c req w n s d Hq Hc) as H.
    by destruct (_handle c req w n (s, d)) as [[[r|] out] [s' d']].
  - cbn [serve act inline now snd]. by rewrite snapshot_clean.
  - cbn [serve act snd fst]. unfold finish_write. by rewrite Hw.
  - cbn [serve act snd fst]. unfold mix. by rewrite Hw.
Qed.

Lemma run_clean es s d : forallb quiet es = true -> _dirty s = false -> writes d = [] -> (run es (s, d)).2 = d.
Proof.
  intros Hq Hc Hw. revert s Hc Hq. induction es as [|e es IH]; intros s Hc Hq; [done|]. cbn in Hq. apply andb_prop in Hq as [He Hq].
  cbn [run fold_left]. destruct (serve_clean e s d He Hc Hw) as [H1 H2]. destruct (serve e (s, d)) as [r [s1 d1]]. cbn in H1, H2 |- *.
  subst d1. by apply IH.
Qed.

(** When the write of a pending change fails, no tick and no request that leaves the persisted namespace alone writes it
    later, although the disk works again: the file stays the old one, and a crash loses the change. *)
Theorem failed_snapshot_lost s d n m es :
  _dirty s = true -> Qle_bool SNAPSHOT_DEBOUNCE_SEC (n - _last_snapshot s) = true -> writes d = [] -> forallb quiet es = true ->
  (run ({| act := Tick; inline := true; now := n |} :: {| act := Finish 0 false; inline := true; now := m |} :: es) (s, d)).2 = d.
Proof.
  intros Hd Ht Hw Hq. cbn [run fold_left serve act now snd fst]. unfold snapshot. rewrite Hd, Ht. cbn [negb andb snd fst].
  replace (finish_write 0 false (begin_write (keep (_state s)) d)) with d; [by apply run_clean|].
  destruct d as [f l]. cbn in Hw. by subst l.
Qed.

(** A change whose write, at the next tick, fails; the ticks after it have a disk that works. *)
Definition pending : store :=
  set_state [(lit "cfg.role", (J "dp", 100%Q))] true (new_store [] [(lit "cfg.role", (J "mp", 1%Q))]).
Definition later : list event :=
  [ {| act := Tick; inline := true; now := 110%Q |}; ask 1 [fld "op" (J "get"); fld "key" (J "cfg.role")];
    {| act := Tick; inline := true; now := 120%Q |} ].
Definition old_file : files := {| file := [(lit "cfg.role", (J "mp", 1%Q))]; writes := [] |}.
Lemma failed_snapshot_witness :
  (run ({| act := Tick; inline := true; now := 103%Q |} :: {| act := Finish 0 false; inline := true; now := 104%Q |} :: later) (pending, old_file)).2
  = old_file.
Proof. exact (failed_snapshot_lost pending old_file 103%Q 104%Q later eq_refl eq_refl eq_refl eq_refl). Defined.

(** ** A subscription that breaks changes *)

(** [self._state.get(key, {}).get("value")]. *)
Definition stored (key : pystr) (s : store) : json := match dget key (_state s) with Some (v, _) => v | None => JNull end.
Definition by_conn (c : Z) (e : event) : bool := match act e with Line c' _ | Eof c' => c' =? c | _ => false end.

Lemma set_bad k v w n sd p c :
  (p, c) ∈ _subs sd.1 -> is_text p = false -> jeq (stored k sd.1) v = false ->
  (set k v w n sd).1.1 = None /\ (set k v w n sd).2.2 = sd.2.
Proof.
  destruct sd as [s d]. cbn [fst snd]. intros Hin Hp Hne. unfold set, stored in *. rewrite Hne.
  pose proof (notify_bad k v _ p c Hin Hp) as H. destruct (notify k v (_subs s)) as [out ok]. cbn in H. by subst ok.
Qed.

Lemma elem_keep_conn (pc : json * Z) c l : pc ∈ l -> (pc.2 =? c) = false -> pc ∈ List.filter (fun pc => negb (pc.2 =? c)) l.
Proof. rewrite !list_elem_of_In, filter_In. intros ? ->. auto. Qed.

Lemma serve_keeps_sub e sd p c : by_conn c e = false -> (p, c) ∈ _subs sd.1 -> (p, c) ∈ _subs (serve e sd).2.1.
Proof.
  destruct e as [a w n]. intros Hb Hin. unfold by_conn in Hb. destruct a as [c' [v|]|c'| |i ok|text]; cbn [act] in Hb; try done.
  - assert (Hc : (c =? c') = false) by (by rewrite Z.eqb_sym).
    destruct v as [| | | | | |req]; try (by apply elem_keep_conn).
    assert (H : (p, c) ∈ _subs (_handle c' req w n sd).2.1).
    { rewrite handle_subs. destruct (jeq _ (J "sub")); [apply elem_of_app; by left|].
      destruct (jeq _ (J "unsub")); [by apply elem_keep_conn|done]. }
    destruct (serve_line_subs c' req w n sd) as [-> | ->]; [done|by apply elem_keep_conn].
  - apply elem_keep_conn; [done|]. by rewrite Z.eqb_sym.
  - cbn [serve act inline now snd]. by rewrite (proj2 (snapshot_fst _ _ _)).
Qed.

Lemma run_keeps_sub es sd p c :
  forallb (fun e => negb (by_conn c e)) es = true -> (p, c) ∈ _subs sd.1 -> (p, c) ∈ _subs (run es sd).1.
Proof.
  revert sd. induction es as [|e es IH]; intros sd Hb Hin; [done|]. cbn in Hb. apply andb_prop in Hb as [He Hb].
  apply IH; [done|]. apply serve_keeps_sub; [by apply negb_true_iff|done].
Qed.


