(* ===== verification/Planed.v ===== *)
(** * The plane daemon

    [ffn_planed.py]: requests from the management plane to the controllers of a node or, through a relay, of the next
    node.  A write leaves a row in a durable journal before its controller is started; the journal is what prevents a
    blind replay after a crash or a lost reply.

    A controller process is an outcome of the environment: a value, an exception or the death of the daemon while it runs.
    The journal survives that death.  Every start of a controller is entered in a log, which the code does not have and
    the theorems speak of.  Writes run under one lock, and requests are steps of one sequence.  Texts of JSON values are the values
    (numbers are finite); the digest of a request is a parameter.

    Main results: along every sequence of requests, faults and restarts a request identifier starts the apply controller at
    most once ([apply_at_most_once]); an answer [applied] is the result of that one run on the request's own payload
    ([applied_truthful]); before another write of a resource is started the outcome of every earlier one is known or
    reconciled ([earlier_outcomes_settled]); the same holds for answers that pass a relay with a link that loses requests and replies
    ([relayed_applied_truthful]); every budget fits the response ladder ([timeout_in_ladder]).  Two defects: a
    resource without an apply controller is blocked by a write that was never started ([unconfigured_apply_blocks]), and a
    relay offers a reconciliation that never changes its own row ([relay_row_never_resolved]). *)

From S2P Require Import Prelude PyStr PyDict PyJson.

Definition ACTIONS : list pystr :=
  map lit ["status"; "validate"; "apply"; "lookup"; "result"; "resolve"; "inventory"; "refresh"]%string.
Definition COMMANDS : list pystr := map lit ["status"; "validate"; "apply"; "lookup"; "refresh"]%string.
Definition FALLBACK_TIMEOUT : Z := 20.
Definition DEFAULT_TIMEOUT (action : pystr) : Z := if bool_decide (action = lit "apply") then 90 else FALLBACK_TIMEOUT.
Definition MAX_TIMEOUT : Z := 110.
Definition PEER_WAIT : Z := 120.
Definition CLIENT_WAIT : Z := 125.
Definition INVENTORY : pystr := lit "planes".
Definition BLOCKED_SHOWN : nat := 32.
Definition IDENTITY_KEYS : list string := ["expected_boot_id"; "dp_boot_id"; "boot_id"]%string.

(** ** Requests *)

(** [set(o) == {...}]. *)
Definition fields_are (l : list string) (o : obj) : bool :=
  bool_decide (length o = length l) && forallb (fun k => dmem (lit k) o) l.
Definition lower_hex (c : Z) : bool := between 48 c 57 || between 97 c 102.
(** [str(uuid.UUID(s)) == s]. *)
Definition canonical_uuid (s : pystr) : bool :=
  bool_decide (length s = 36%nat)
  && forallb (fun ic => if bool_decide (ic.1 ∈ [8; 13; 18; 23]%nat) then ic.2 =? 45 else lower_hex ic.2) (imap pair s).
(** [re.fullmatch('[a-z][a-z0-9-]{0,31}', s)]. *)
Definition resource_name (s : pystr) : bool :=
  match s with
  | c :: t => between 97 c 122 && forallb (fun c => between 97 c 122 || between 48 c 57 || (c =? 45)) t && bool_decide (length t <= 31)%nat
  | [] => false
  end.

Record request := { q_id : pystr; q_resource : pystr; q_action : pystr; q_payload : obj }.
Definition txt (s : pystr) (t : string) : bool := bool_decide (s = lit t).
(** [check]: every exception it raises is answered alike. *)
Definition check (v : json) : option request :=
  match v with
  | JObj o =>
      if negb (fields_are ["v"; "id"; "resource"; "action"; "payload"] o) then None
      else match get o "v", get o "id", get o "resource", get o "action", get o "payload" with
           | JInt 1, JStr i, JStr r, JStr a, JObj p =>
               if negb (canonical_uuid i) || negb (resource_name r) || negb (bool_decide (a ∈ ACTIONS)) then None
               else if negb (eqb (txt a "inventory") (bool_decide (r = INVENTORY))) then None
               else if (txt a "status" || txt a "inventory" || txt a "refresh") && truthy (JObj p) then None
               else if (txt a "apply" || txt a "validate") && negb (match get p "revision" with JInt n => 0 <=? n | _ => false end)
               then None
               else Some {| q_id := i; q_resource := r; q_action := a; q_payload := p |}
           | _, _, _, _, _ => None
           end
  | _ => None
  end.

(** ** Configuration *)

Definition table := list (pystr * list (pystr * list pystr)).
Record config := {
  c_role : pystr; c_commands : table; c_timeouts : list ((pystr * pystr) * Z); c_peer : option (list pystr) }.

Fixpoint map_opt {A B} (f : A -> option B) (l : list A) : option (list B) :=
  match l with [] => Some [] | x :: t => y ← f x; r ← map_opt f t; Some (y :: r) end.
(** A checked vector: not empty, no empty or NUL argument, an absolute executable. *)
Definition argv (v : json) : option (list pystr) :=
  match v with
  | JList l =>
      args ← map_opt (fun a => match a with JStr (c :: t) => if bool_decide (0 ∈ c :: t) then None else Some (c :: t) | _ => None end) l;
      match args with (47 :: _) :: _ => Some args | _ => None end
  | _ => None
  end.
Definition commands_of (v : json) : option table :=
  match v with
  | JObj o => map_opt (fun kv => match kv.2 with
                                 | JObj actions => l ← map_opt (fun av => a ← argv av.2; Some (av.1, a)) actions; Some (kv.1, l)
                                 | _ => None
                                 end) o
  | _ => None
  end.
Definition budget (commands : table) (resource : pystr) (tbl : list ((pystr * pystr) * Z)) (av : pystr * json)
  : option (list ((pystr * pystr) * Z)) :=
  if negb (bool_decide (av.1 ∈ COMMANDS)) then None
  else if negb (txt resource "default") && negb (match dget resource commands with Some l => dmem av.1 l | None => false end) then None
  else match av.2 with
       | JInt n => if (1 <=? n) && (n <=? MAX_TIMEOUT) then Some (dset (resource, av.1) n tbl) else None
       | _ => None
       end.
Fixpoint fold_opt {A B} (f : B -> A -> option B) (l : list A) (b : B) : option B :=
  match l with [] => Some b | x :: t => b' ← f b x; fold_opt f t b' end.
(** [timeouts]. *)
Definition timeouts (configured : json) (commands : table) : option (list ((pystr * pystr) * Z)) :=
  match configured with
  | JObj o =>
      fold_opt (fun tbl kv =>
        if negb (txt kv.1 "default") && negb (dmem kv.1 commands) then None
        else match kv.2 with
             | JObj (av :: t) => fold_opt (budget commands kv.1) (av :: t) tbl
             | _ => None
             end) o []
  | _ => None
  end.
(** [Plane.__init__]; [None] when it raises. *)
Definition new_plane (cfg : obj) : option config :=
  match get cfg "role" with
  | JStr role =>
      if negb (txt role "mp" || txt role "cp" || txt role "dp") then None
      else
        commands ← commands_of (get_or cfg "commands" (JObj []));
        if dmem INVENTORY commands then None
        else
          tbl ← timeouts (get_or cfg "timeouts" (JObj [])) commands;
          let peer := get cfg "peer" in
          if negb (truthy peer) then
            match commands with [] => None | _ => Some {| c_role := role; c_commands := commands; c_timeouts := tbl; c_peer := None |} end
          else a ← argv peer; Some {| c_role := role; c_commands := commands; c_timeouts := tbl; c_peer := Some a |}
  | _ => None
  end.

(** [Plane.timeout]. *)
Definition timeout (c : config) (resource action : pystr) : Z :=
  match dget (resource, action) (c_timeouts c) with
  | Some n => n
  | None => match dget (lit "default", action) (c_timeouts c) with Some n => n | None => DEFAULT_TIMEOUT action end
  end.

(** ** The journal and the controllers *)

Section Daemon.
Context {D : Type} `{EqDecision D} (digest : request -> D).

Record row := { j_id : pystr; j_digest : D; j_resource : pystr; j_response : obj; j_state : json; j_intent : request }.

Inductive exn := ValueErr (what : pystr) | OtherErr.
Inductive ran := Ret (v : json) | Raise (e : exn) | Died.
(** A controller that was started: for which request, and how it ended. *)
Record start := { x_request : request; x_action : pystr; x_payload : obj; x_out : ran }.
Record world := { rows : list row; log : list start }.

(** What the environment does during one request: the end of each controller that is started, of the peer, the reboot flags
    in the order of their names ([None] when one cannot be read) and the identifier of a probe. *)
Record env := { e_run : pystr -> ran; e_peer : ran; e_flags : list (pystr * option json); e_probe : pystr }.

Inductive res (A : Type) := Val (a : A) | Exn (e : exn) | Dead.
Arguments Val {A} a. Arguments Exn {A} e. Arguments Dead {A}.
Definition M (A : Type) : Type := world -> res A * world.
#[local] Instance M_ret : MRet M := fun A a w => (Val a, w).
#[local] Instance M_bind : MBind M := fun A B f m w =>
  match m w with (Val a, w') => f a w' | (Exn e, w') => (Exn e, w') | (Dead, w') => (Dead, w') end.
Definition raise {A} (what : string) : M A := fun w => (Exn (ValueErr (lit what)), w).
Definition catch {A} (m : M A) (h : exn -> M A) : M A := fun w =>
  match m w with (Exn e, w') => h e w' | r => r end.
Definition ask {A} (f : world -> A) : M A := fun w => (Val (f w), w).
Definition of_ran (r : ran) : M json := fun w =>
  match r with Ret v => (Val v, w) | Raise e => (Exn e, w) | Died => (Dead, w) end.

Section Node.
Variable c : config.
Variable e : env.

(** [Plane.response]. *)
Definition response (id : json) (state : string) (result : json) (error : option pystr) : obj :=
  [(lit "v", JInt 1); (lit "id", id); (lit "ok", JBool (match error with None => true | Some _ => false end)); (lit "state", J state);
   (lit "result", result); (lit "error", match error with None => JNull | Some m => JStr m end); (lit "trace", JList [JStr (c_role c)])].

(** [Plane.command], for the request [q]. *)
Definition command (q : request) (action : pystr) (payload : obj) : M obj :=
  match dget action (default [] (dget (q_resource q) (c_commands c))) with
  | Some (_ :: _) =>
      v ← (fun w => of_ran (e_run e action)
                      {| rows := rows w; log := log w ++ [{| x_request := q; x_action := action; x_payload := payload;
                                                              x_out := e_run e action |}] |});
      match v with JObj o => mret o | _ => raise "controller response must be an object" end
  | _ => raise "unsupported resource operation"
  end.

(** [Plane.stored], [Plane.record] and the insertion of a row. *)
Definition find_row (ident : pystr) (l : list row) : option row := List.find (fun r => bool_decide (j_id r = ident)) l.
Definition stored (ident : pystr) : M (option row) := ask (fun w => find_row ident (rows w)).
Definition set_row (ident : pystr) (resp : obj) (r : row) : row :=
  if bool_decide (j_id r = ident)
  then {| j_id := j_id r; j_digest := j_digest r; j_resource := j_resource r; j_response := resp; j_state := get resp "state";
          j_intent := j_intent r |}
  else r.
Definition record (ident : pystr) (resp : obj) : M unit := fun w =>
  (Val tt, {| rows := map (set_row ident resp) (rows w); log := log w |}).
Definition insert_row (r : row) : M unit := fun w => (Val tt, {| rows := rows w ++ [r]; log := log w |}).
Definition new_row (q : request) (resp : obj) : row :=
  {| j_id := q_id q; j_digest := digest q; j_resource := q_resource q; j_response := resp; j_state := J "unknown"; j_intent := q |}.

Definition unknown_rows (resource : pystr) (l : list row) : list row :=
  List.filter (fun r => bool_decide (j_resource r = resource) && jeq (j_state r) (J "unknown")) l.

(** ** Reboots that supersede a write *)

Definition nonempty (v : json) : option pystr := match v with JStr (x :: t) => Some (x :: t) | _ => None end.
Fixpoint first_id (keys : list string) (o : obj) : option pystr :=
  match keys with [] => None | k :: t => match nonempty (get o k) with Some s => Some s | None => first_id t o end end.
Definition bound_identity (payload : obj) : option pystr := first_id IDENTITY_KEYS payload.
Definition as_obj (v : json) : option obj := match v with JObj o => Some o | _ => None end.
Fixpoint first_of (l : list (option obj)) : option pystr :=
  match l with
  | [] => None
  | Some o :: t => match first_id ["dp_boot_id"; "boot_id"]%string o with Some s => Some s | None => first_of t end
  | None :: t => first_of t
  end.
Definition observed_identity (status : obj) : option pystr :=
  let attachment := default [] (as_obj (get status "attachment")) in
  first_of [Some status; as_obj (get status "state"); Some attachment; as_obj (get attachment "attachment"); as_obj (get status "dp")].
Fixpoint rebooted_in (before after : pystr) (flags : list (pystr * option json)) : option pystr :=
  match flags with
  | [] => None
  | (_, None) :: _ => None
  | (name, Some v) :: t =>
      match v with
      | JObj o => if jeq (get o "boot_id_before") (JStr before) && negb (bool_decide (before = after)) then Some name
                  else rebooted_in before after t
      | _ => rebooted_in before after t
      end
  end.
Definition rebooted (before after : pystr) : option pystr := rebooted_in before after (e_flags e).

(** The revision of a status, in its [config] object or at the top. *)
Definition revision_of (status : obj) : json := get (default status (as_obj (get status "config"))) "revision".

(** The loop of [supersede] over the unknown rows; [break] when the status cannot be had. *)
Fixpoint supersede_rows (q : request) (l : list row) (status : option obj) : M unit :=
  match l with
  | [] => mret tt
  | r :: t =>
      match bound_identity (q_payload (j_intent r)) with
      | None => supersede_rows q t status
      | Some bound =>
          st ← match status with
               | Some o => mret (Some o)
               | None => catch (o ← command q (lit "status") []; mret (Some o)) (fun _ => mret None)
               end;
          match st with
          | None => mret tt
          | Some o =>
              match observed_identity o with
              | None => supersede_rows q t (Some o)
              | Some current =>
                  match rebooted bound current with
                  | None => supersede_rows q t (Some o)
                  | Some flag =>
                      _ ← record (j_id r) (response (JStr (j_id r)) "reconciled"
                            (JObj [(lit "observed_revision", revision_of o); (lit "superseded_by", JStr current);
                                   (lit "reboot_flag", JStr flag)]) None);
                      supersede_rows q t (Some o)
                  end
              end
          end
      end
  end.
Definition supersede (q : request) : M nat :=
  l ← ask (fun w => unknown_rows (q_resource q) (rows w));
  _ ← supersede_rows q l None;
  ask (fun w => length (unknown_rows (q_resource q) (rows w))).

(** ** Local requests *)

Definition is_local (q : request) : bool := dmem (q_resource q) (c_commands c).

(** [action in ('result', 'resolve')]. *)
Definition answer_row (q : request) : M obj :=
  let allowed := if txt (q_action q) "result" then ["request_id"]%string else ["request_id"; "observed_revision"]%string in
  match fields_are allowed (q_payload q), get (q_payload q) "request_id" with
  | true, JStr ident =>
      row ← stored ident;
      match row with
      | None => raise "request not found"
      | Some r =>
          if negb (bool_decide (j_resource r = q_resource q)) then raise "request not found"
          else if txt (q_action q) "result" then mret (response (JStr (q_id q)) "observed" (JObj (j_response r)) None)
          else if negb (jeq (get (j_response r) "state") (J "unknown")) then raise "only unknown requests require reconciliation"
          else
            observed ← command q (lit "status") [];
            match get (q_payload q) "observed_revision" with
            | JInt n =>
                if negb (jeq (revision_of observed) (JInt n)) then raise "observed revision changed; review runtime status again"
                else
                  let resolved := response (JStr ident) "reconciled" (JObj [(lit "observed_revision", revision_of observed)]) None in
                  _ ← record ident resolved;
                  mret (response (JStr (q_id q)) "reconciled" (JObj resolved) None)
            | _ => raise "observed revision changed; review runtime status again"
            end
      end
  | _, _ => raise "invalid result/reconciliation request"
  end.

Definition unknown_answer (q : request) : obj :=
  response (JStr (q_id q)) "unknown" JNull (Some (lit "Apply interrupted or incomplete; reconcile runtime state")).

(** The write itself, once nothing is pending. *)
Definition apply_new (q : request) : M obj :=
  _ ← command q (lit "validate") (q_payload q);
  _ ← insert_row (new_row q (unknown_answer q));
  r ← catch (o ← command q (lit "apply") (q_payload q); mret (Some o)) (fun _ => mret None);
  match r with
  | None => mret (unknown_answer q)
  | Some o =>
      let answer := response (JStr (q_id q)) "applied" (JObj o) None in
      _ ← record (q_id q) answer;
      mret answer
  end.
Definition apply (q : request) : M obj :=
  row ← stored (q_id q);
  match row with
  | Some r => if negb (bool_decide (j_digest r = digest q)) then raise "request ID reused with different content" else mret (j_response r)
  | None =>
      pending ← ask (fun w => length (unknown_rows (q_resource q) (rows w)));
      left ← (if (pending =? 0)%nat then mret 0%nat else supersede q);
      if negb (left =? 0)%nat then raise "resource has an unknown outcome; reconcile before another apply" else apply_new q
  end.

Definition local_body (q : request) : M obj :=
  if negb (is_local q) then raise "unsupported resource"
  else if txt (q_action q) "result" || txt (q_action q) "resolve" then answer_row q
  else if negb (txt (q_action q) "apply") then
    r ← command q (q_action q) (q_payload q);
    mret (response (JStr (q_id q)) (if txt (q_action q) "validate" then "validated" else "observed")%string (JObj r) None)
  else apply q.
Definition local (q : request) : M obj :=
  catch (local_body q) (fun x =>
    mret (response (JStr (q_id q)) "rejected" JNull
            (Some (match x with ValueErr m => m | OtherErr => lit "Controller unavailable or rejected request" end)))).

(** ** Relayed requests *)

(** What the journal's state column can take. *)
Definition bindable (v : json) : bool :=
  match v with
  | JInt n => (- 2 ^ 63 <=? n) && (n <? 2 ^ 63)
  | JStr s => forallb (fun c => between 0 c 55295 || between 57344 c 1114111) s
  | JList _ | JObj _ => false
  | _ => true
  end.
Definition lost_answer (q : request) : obj :=
  response (JStr (q_id q)) "unknown" JNull (Some (lit "Downstream outcome unknown; query request ID before retrying")).
(** The checks on a peer's reply, and the reply with this node on its trace. *)
Definition peer_reply (ident : pystr) (v : json) : option obj :=
  match v with
  | JObj o =>
      match get o "trace" with
      | JList tr =>
          if jeq (get o "v") (JInt 1) && jeq (get o "id") (JStr ident) && (length tr <? 3)%nat && negb (jmem (JStr (c_role c)) tr)
          then Some (dset (lit "trace") (JList (JStr (c_role c) :: tr)) o) else None
      | _ => None
      end
  | _ => None
  end.
(** The exchange with the peer: every exception is an unknown outcome, the missing or unusable state of a reply included. *)
Definition forward_send (q : request) : M obj :=
  catch (v ← of_ran (e_peer e);
         match peer_reply (q_id q) v with
         | None => raise "invalid peer response"
         | Some o =>
             if negb (txt (q_action q) "apply") then mret o
             else if has o "state" && bindable (get o "state") then _ ← record (q_id q) o; mret o
             else raise "state"
         end) (fun _ => mret (lost_answer q)).
Definition forward (q : request) : M obj :=
  if negb (txt (q_action q) "apply") then forward_send q
  else
    row ← stored (q_id q);
    match row with
    | Some r =>
        if negb (bool_decide (j_digest r = digest q))
        then mret (response (JStr (q_id q)) "rejected" JNull (Some (lit "request ID reused with different content")))
        else if jeq (get (j_response r) "state") (J "applied") || jeq (get (j_response r) "state") (J "reconciled") then mret (j_response r)
        else forward_send q
    | None =>
        _ ← insert_row (new_row q (response (JStr (q_id q)) "unknown" JNull (Some (lit "Awaiting downstream outcome"))));
        forward_send q
    end.

(** ** Descriptions *)

Definition strs (l : list pystr) : json := JList (map JStr l).
Definition describe_resource (l : list row) (name : pystr) : json :=
  let own := default [] (dget name (c_commands c)) in
  let controller := py_sorted str_le own.*1 in
  let waiting := map j_id (unknown_rows name l) in
  let recovery := if bool_decide (lit "apply" ∈ controller) || negb (bool_decide (waiting = [])) then [lit "result"; lit "resolve"] else [] in
  JObj [(lit "controller", strs controller); (lit "actions", strs (py_sorted str_le (remove_dups (controller ++ recovery))));
        (lit "timeouts", JObj (map (fun a => (a, JInt (timeout c name a))) controller));
        (lit "relayed", JBool (negb (dmem name (c_commands c))));
        (lit "blocked", strs (take BLOCKED_SHOWN waiting)); (lit "blocked_total", JInt (Z.of_nat (length waiting)))].
Definition blocked_resources (l : list row) : list pystr := map j_resource (List.filter (fun r => jeq (j_state r) (J "unknown")) l).
Definition describe (l : list row) : obj :=
  [(lit "role", JStr (c_role c)); (lit "relays", JBool (match c_peer c with Some _ => true | None => false end));
   (lit "resources", JObj (map (fun name => (name, describe_resource l name))
                             (py_sorted str_le (remove_dups ((c_commands c).*1 ++ blocked_resources l)))))].
Definition inventory : M obj :=
  d ← ask (fun w => describe (rows w));
  match c_peer c with
  | None => mret d
  | Some _ =>
      let unreachable := [(lit "reachable", JBool false)] in
      p ← catch (v ← of_ran (e_peer e);
                 mret (match peer_reply (e_probe e) v with
                       | Some o => match get o "result" with
                                   | JObj r => if truthy (get o "ok") then dset (lit "reachable") (JBool true) r else unreachable
                                   | _ => unreachable
                                   end
                       | None => unreachable
                       end)) (fun _ => mret unreachable);
      mret (dset (lit "peer") (JObj p) d)
  end.

(** [Plane.dispatch]. *)
Definition dispatch (msg : json) : M obj :=
  match check msg with
  | None => mret (response JNull "rejected" JNull (Some (lit "Invalid plane request")))
  | Some q =>
      if txt (q_action q) "inventory" then d ← inventory; mret (response (JStr (q_id q)) "observed" (JObj d) None)
      else match c_peer c with
           | Some _ => if is_local q then local q else forward q
           | None => local q
           end
  end.

End Node.

(** ** The transitions of a node

    What a request can do to journal and log, step by step. *)

Definition is_apply (x : start) : bool := txt (x_action x) "apply".
Definition with_start (x : start) (w : world) : world := {| rows := rows w; log := log w ++ [x] |}.
Definition with_row (r : row) (w : world) : world := {| rows := rows w ++ [r]; log := log w |}.
Definition recorded (ident : pystr) (resp : obj) (w : world) : world := {| rows := map (set_row ident resp) (rows w); log := log w |}.
Definition apply_start (q : request) (out : ran) : start :=
  {| x_request := q; x_action := lit "apply"; x_payload := q_payload q; x_out := out |}.
Definition applied_answer (c : config) (q : request) (o : obj) : obj := response c (JStr (q_id q)) "applied" (JObj o) None.

(** A write may be entered: it is new and, for an own resource, nothing is unknown. *)
Definition free_for (c : config) (q : request) (w : world) : Prop :=
  q_action q = lit "apply" /\ find_row (q_id q) (rows w) = None
  /\ (is_local c q = true -> unknown_rows (q_resource q) (rows w) = []).

Inductive quiet (c : config) (w : world) : world -> Prop :=
| St_other x : is_apply x = false -> quiet c w (with_start x w)
| St_reconciled ident v : quiet c w (recorded ident (response c (JStr ident) "reconciled" v None) w).
(** [P] holds of the answers of the peer that were recorded. *)
Inductive step (c : config) (P : request -> obj -> Prop) (w : world) : world -> Prop :=
| St_quiet w' : quiet c w w' -> step c P w w'
| St_insert q resp : free_for c q w -> get resp "state" = J "unknown" -> step c P w (with_row (new_row q resp) w)
| St_started q resp out :
    free_for c q w -> get resp "state" = J "unknown" -> is_local c q = true ->
    step c P w (with_start (apply_start q out) (with_row (new_row q resp) w))
| St_applied q o :
    is_local c q = true -> apply_start q (Ret (JObj o)) ∈ log w -> step c P w (recorded (q_id q) (applied_answer c q o) w)
| St_relayed q o r :
    P q o -> is_local c q = false -> r ∈ rows w -> j_id r = q_id q -> j_digest r = digest q -> step c P w (recorded (q_id q) o w).

Definition steps (c : config) (P : request -> obj -> Prop) : world -> world -> Prop := rtc (step c P).

Lemma find_row_Some ident l r : find_row ident l = Some r -> r ∈ l /\ j_id r = ident.
Proof. intros H. apply List.find_some in H as [Hin He]. rewrite list_elem_of_In. split; [done|]. by apply bool_decide_eq_true in He. Qed.
Lemma find_row_None ident l r : find_row ident l = None -> r ∈ l -> j_id r <> ident.
Proof. intros H Hin He. apply list_elem_of_In in Hin. pose proof (List.find_none _ _ H _ Hin) as Hf. by apply bool_decide_eq_false in Hf. Qed.

Section Transitions.
Variable c : config.
Variable e : env.
Variable P : request -> obj -> Prop.

Lemma command_quiet q a p w : txt a "apply" = false -> rtc (quiet c) w (command c e q a p w).2.
Proof.
  intros Ha. unfold command. destruct (dget a _) as [[|]|]; try apply rtc_refl.
  unfold mbind, M_bind, of_ran. destruct (e_run e a) as [v| |]; cbn; try (apply rtc_once, St_other; exact Ha).
  destruct v; apply rtc_once, St_other; exact Ha.
Qed.

Lemma supersede_rows_quiet q l st w : rtc (quiet c) w (supersede_rows c e q l st w).2.
Proof.
  revert st w. induction l as [|r t IH]; intros st w; [apply rtc_refl|]. cbn [supersede_rows].
  destruct (bound_identity _) as [b|]; [|apply IH].
  assert (Hnext : forall (o : obj) w', rtc (quiet c) w w' ->
    rtc (quiet c) w (match observed_identity o with
               | None => supersede_rows c e q t (Some o)
               | Some current => match rebooted e b current with
                   | None => supersede_rows c e q t (Some o)
                   | Some flag => _ ← record (j_id r) (response c (JStr (j_id r)) "reconciled"
                            (JObj [(lit "observed_revision", revision_of o); (lit "superseded_by", JStr current);
                                   (lit "reboot_flag", JStr flag)]) None);
                      supersede_rows c e q t (Some o) end end w').2).
  { intros o w' Hw. destruct (observed_identity o) as [cur|]; [|by etrans; [|apply IH]].
    destruct (rebooted e b cur); [|by etrans; [|apply IH]].
    etrans; [exact Hw|]. etrans; [apply rtc_once, St_reconciled|apply IH]. }
  destruct st as [o|].
  - apply (Hnext o w). apply rtc_refl.
  - unfold mbind at 1, M_bind at 1, catch. pose proof (command_quiet q (lit "status") [] w eq_refl) as Hc.
    unfold mbind at 1, M_bind at 1. destruct (command c e q (lit "status") [] w) as [[o|x|] w']; cbn [snd] in Hc; [|done|done].
    apply (Hnext o w' Hc).
Qed.

Lemma supersede_quiet q w : rtc (quiet c) w (supersede c e q w).2.
Proof.
  unfold supersede, mbind, M_bind, ask. pose proof (supersede_rows_quiet q (unknown_rows (q_resource q) (rows w)) None w) as H.
  by destruct (supersede_rows _ _ _ _ _ w) as [[]].
Qed.

(** The count [supersede] returns is that of the journal it leaves. *)
Lemma supersede_count q w n w' : supersede c e q w = (Val n, w') -> n = length (unknown_rows (q_resource q) (rows w')).
Proof.
  unfold supersede, mbind, M_bind, ask. destruct (supersede_rows _ _ _ _ _ w) as [[]]; cbn; congruence.
Qed.

Lemma answer_row_quiet q w : rtc (quiet c) w (answer_row c e q w).2.
Proof.
  unfold answer_row. destruct (fields_are _ _); [|apply rtc_refl]. destruct (get (q_payload q) "request_id") as [| | | |ident| |]; try apply rtc_refl.
  unfold mbind at 1, M_bind at 1, stored, ask. destruct (find_row ident (rows w)) as [r|]; [|apply rtc_refl].
  destruct (bool_decide _); [|apply rtc_refl]. cbn [negb]. destruct (txt (q_action q) "result"); [apply rtc_refl|].
  destruct (jeq _ _); [|apply rtc_refl]. cbn [negb].
  pose proof (command_quiet q (lit "status") [] w eq_refl) as Hc. unfold mbind at 1, M_bind at 1.
  destruct (command c e q (lit "status") [] w) as [[o|x|] w']; cbn [snd] in Hc; try exact Hc.
  destruct (get (q_payload q) "observed_revision"); try exact Hc. destruct (jeq _ _); [|exact Hc].
  etrans; [exact Hc|]. apply rtc_once, St_reconciled.
Qed.

Lemma quiet_steps w w' : rtc (quiet c) w w' -> steps c P w w'.
Proof. induction 1; [apply rtc_refl|]. eapply rtc_l; [by apply St_quiet|done]. Qed.

Lemma recorded_ids ident resp w : map j_id (rows (recorded ident resp w)) = map j_id (rows w).
Proof. cbn. rewrite map_map. apply map_ext. intros r. unfold set_row. by case_bool_decide. Qed.

Lemma quiet_ids w w' : rtc (quiet c) w w' -> map j_id (rows w') = map j_id (rows w).
Proof. induction 1 as [|w1 w2 w3 Hq _ IH]; [done|]. rewrite IH. destruct Hq; [done|apply recorded_ids]. Qed.

Lemma find_row_ids ident l : find_row ident l = None <-> ident ∉ map j_id l.
Proof.
  induction l as [|r t IH]; cbn; [split; [intros _ H; by apply elem_of_nil in H|done]|]. rewrite not_elem_of_cons.
  case_bool_decide; [split; [done|]; intros [? _]; congruence|]. rewrite IH. split; [|tauto]. intros ?. split; [congruence|done].
Qed.

Lemma command_rows q a p w : rows (command c e q a p w).2 = rows w.
Proof. unfold command, mbind, M_bind, of_ran. by destruct (dget a _) as [[|]|]; [..|]; try done; destruct (e_run e a) as [[]| |]. Qed.

(** What [apply_new] does once the write may be entered. *)
Lemma apply_new_steps q w : free_for c q w -> is_local c q = true -> steps c P w (apply_new c e q w).2.
Proof.
  intros Hf Hl. unfold apply_new. pose proof (command_quiet q (lit "validate") (q_payload q) w eq_refl) as Hv.
  pose proof (command_rows q (lit "validate") (q_payload q) w) as Hr.
  unfold mbind at 1, M_bind at 1. destruct (command c e q (lit "validate") _ w) as [[o|x|] w1]; cbn [snd] in Hv, Hr;
    try (apply quiet_steps; exact Hv).
  etrans; [apply quiet_steps; exact Hv|]. clear Hv.
  assert (Hf1 : free_for c q w1) by (unfold free_for; by rewrite Hr). clear Hf Hr.
  unfold mbind at 1, M_bind at 1. cbn [insert_row].
  set (w2 := with_row (new_row q (unknown_answer c q)) w1). change {| rows := _; log := _ |} with w2 at 1.
  unfold mbind at 1, M_bind at 1, catch. unfold mbind at 1, M_bind at 1. unfold command.
  destruct (dget (lit "apply") _) as [[|a0 al]|]; try (apply rtc_once; by apply (St_insert c P w1 q (unknown_answer c q))).
  assert (Hs : step c P w1 (with_start (apply_start q (e_run e (lit "apply"))) w2)) by (by apply (St_started c P w1 q)).
  unfold mbind, M_bind, of_ran. revert Hs. destruct (e_run e (lit "apply")) as [v| |] eqn:Er; intros Hs; try (apply rtc_once; exact Hs).
  destruct v as [| | | | | |o']; try (apply rtc_once; exact Hs).
  etrans; [apply rtc_once; exact Hs|]. apply rtc_once. apply (St_applied c P _ q o' Hl). cbn. apply elem_of_app. right. by left.
Qed.

Lemma unknown_rows_length r l : (length (unknown_rows r l) =? 0)%nat = true -> unknown_rows r l = [].
Proof. intros H%Nat.eqb_eq. by destruct (unknown_rows r l). Qed.

Lemma apply_steps q w : q_action q = lit "apply" -> is_local c q = true -> steps c P w (apply c e q w).2.
Proof.
  intros Ha Hl. unfold apply. unfold mbind at 1, M_bind at 1, stored, ask. destruct (find_row (q_id q) (rows w)) as [r|] eqn:Ef.
  { by destruct (bool_decide _). }
  unfold mbind at 1, M_bind at 1. destruct (length (unknown_rows _ _) =? 0)%nat eqn:En; unfold mbind at 1, M_bind at 1.
  - apply apply_new_steps; [|done]. split; [done|]. split; [done|]. intros _. by apply unknown_rows_length.
  - pose proof (supersede_quiet q w) as Hq. pose proof (supersede_count q w) as Hn.
    destruct (supersede c e q w) as [[n|x|] w1]; cbn [snd] in Hq; try (apply quiet_steps; exact Hq).
    specialize (Hn n w1 eq_refl). destruct (n =? 0)%nat eqn:E0; cbn [negb]; [|apply quiet_steps; exact Hq].
    etrans; [apply quiet_steps; exact Hq|]. apply apply_new_steps; [|done]. split; [done|]. split.
    + apply find_row_ids. rewrite (quiet_ids _ _ Hq). by apply find_row_ids.
    + intros _. apply unknown_rows_length. by rewrite <- Hn.
Qed.

Lemma txt_true s t : txt s t = true <-> s = lit t.
Proof. apply bool_decide_eq_true. Qed.

Lemma local_steps q w : steps c P w (local c e q w).2.
Proof.
  assert (H : steps c P w (local_body c e q w).2); [|unfold local, catch; by destruct (local_body c e q w) as [[]]].
  unfold local_body. destruct (is_local c q) eqn:El; cbn [negb]; [|apply rtc_refl].
  destruct (txt (q_action q) "result" || txt (q_action q) "resolve"); [apply quiet_steps, answer_row_quiet|].
  destruct (txt (q_action q) "apply") eqn:Ea; cbn [negb]; [apply apply_steps; [by apply txt_true|done]|].
  apply quiet_steps. pose proof (command_quiet q (q_action q) (q_payload q) w Ea) as Hc. unfold mbind, M_bind.
  by destruct (command c e q _ _ w) as [[]].
Qed.

Lemma forward_send_steps q w :
  (forall v o, e_peer e = Ret v -> peer_reply c (q_id q) v = Some o -> P q o) ->
  is_local c q = false -> (q_action q = lit "apply" -> exists r, r ∈ rows w /\ j_id r = q_id q /\ j_digest r = digest q) ->
  steps c P w (forward_send c e q w).2.
Proof.
  intros HP Hl Hr. unfold forward_send, catch, mbind, M_bind, of_ran. destruct (e_peer e) as [v| |]; [|apply rtc_refl..].
  destruct (peer_reply c (q_id q) v) as [o|] eqn:Ep; [|apply rtc_refl]. specialize (HP v o eq_refl Ep).
  destruct (txt (q_action q) "apply") eqn:Ea; cbn [negb]; [|apply rtc_refl].
  destruct (has o "state" && bindable (get o "state")); [|apply rtc_refl].
  apply txt_true in Ea. destruct (Hr Ea) as (r & Hin & Hid & Hd). apply rtc_once. by apply (St_relayed c P w q o r).
Qed.

Lemma forward_steps q w :
  (forall v o, e_peer e = Ret v -> peer_reply c (q_id q) v = Some o -> P q o) -> is_local c q = false -> steps c P w (forward c e q w).2.
Proof.
  intros HP Hl. unfold forward. destruct (txt (q_action q) "apply") eqn:Ea; cbn [negb].
  2: { apply forward_send_steps; [done|done|]. intros H. by rewrite (proj2 (txt_true _ _) H) in Ea. }
  unfold mbind at 1, M_bind at 1, stored, ask. destruct (find_row (q_id q) (rows w)) as [r|] eqn:Ef.
  - destruct (bool_decide _) eqn:Ed; cbn [negb]; [|apply rtc_refl]. apply bool_decide_eq_true in Ed.
    destruct (_ || _); [apply rtc_refl|]. apply forward_send_steps; [done|done|]. intros _. exists r.
    apply find_row_Some in Ef as [? ?]. done.
  - unfold mbind at 1, M_bind at 1. cbn [insert_row].
    set (resp := response c _ _ _ _). etrans; [apply rtc_once; apply (St_insert c P w q resp); [|reflexivity]|].
    + split; [by apply txt_true|]. split; [done|]. intros H. congruence.
    + apply forward_send_steps; [done|done|]. intros _. exists (new_row q resp). split; [|done]. apply elem_of_app. right. by left.
Qed.

Lemma inventory_world w : (inventory c e w).2 = w.
Proof.
  unfold inventory, mbind, M_bind, ask, catch, of_ran. destruct (c_peer c); [|done]. by destruct (e_peer e).
Qed.

Lemma dispatch_steps msg w :
  (forall q v o, check msg = Some q -> is_local c q = false -> e_peer e = Ret v -> peer_reply c (q_id q) v = Some o -> P q o) ->
  steps c P w (dispatch c e msg w).2.
Proof.
  intros HP. unfold dispatch. destruct (check msg) as [q|] eqn:Eq; [|apply rtc_refl]. destruct (txt _ "inventory").
  { unfold mbind, M_bind. pose proof (inventory_world w) as H. destruct (inventory c e w) as [[]]; cbn in H |- *; subst; apply rtc_refl. }
  destruct (c_peer c); [destruct (is_local c q) eqn:El; [apply local_steps|apply forward_steps; [|done]; intros v o; by apply HP]|apply local_steps].
Qed.

End Transitions.

(** A sequence of messages, each with what the environment does; a death ends one message and the daemon starts again. *)
Definition serve (c : config) (hs : list (json * env)) : world :=
  fold_left (fun w me => (dispatch c me.2 me.1 w).2) hs {| rows := []; log := [] |}.

Definition any (_ : request) (_ : obj) : Prop := True.
Lemma serve_steps c hs : steps c any {| rows := []; log := [] |} (serve c hs).
Proof.
  unfold serve. generalize {| rows := []; log := [] |} as w. induction hs as [|me hs IH]; intros w; [apply rtc_refl|].
  cbn [fold_left]. etrans; [by apply (dispatch_steps c me.2 any me.1)|apply IH].
Qed.

(** ** Invariants *)

Record journal_ok (c : config) (w : world) : Prop := {
  jo_ids : NoDup (map j_id (rows w));
  jo_row : forall r, r ∈ rows w ->
    j_id r = q_id (j_intent r) /\ j_digest r = digest (j_intent r) /\ j_resource r = q_resource (j_intent r)
    /\ j_state r = get (j_response r) "state";
  jo_log : forall x, x ∈ log w -> is_apply x = true ->
    x_payload x = q_payload (x_request x) /\ is_local c (x_request x) = true /\ exists r, r ∈ rows w /\ j_intent r = x_request x;
  jo_once : NoDup (map (fun x => q_id (x_request x)) (List.filter is_apply (log w))) }.

Lemma set_row_same ident resp r : j_id (set_row ident resp r) = j_id r /\ j_digest (set_row ident resp r) = j_digest r
  /\ j_resource (set_row ident resp r) = j_resource r /\ j_intent (set_row ident resp r) = j_intent r.
Proof. unfold set_row. by case_bool_decide. Qed.

Lemma journal_ok_recorded c ident resp w : journal_ok c w -> journal_ok c (recorded ident resp w).
Proof.
  intros [H1 H2 H3 H4]. split; [by rewrite recorded_ids| | |done].
  - intros r Hr. apply list_elem_of_fmap in Hr as (r0 & -> & Hr0). destruct (H2 r0 Hr0) as (A & B & C & E).
    destruct (set_row_same ident resp r0) as (-> & -> & -> & ->). split_and!; try done. unfold set_row. by case_bool_decide.
  - intros x Hx Ha. destruct (H3 x Hx Ha) as (A & B & r & Hr & Hi). split; [done|]. split; [done|].
    exists (set_row ident resp r). split; [by apply list_elem_of_fmap_2|]. by destruct (set_row_same ident resp r) as (_ & _ & _ & ->).
Qed.

Lemma journal_ok_row c q resp w :
  journal_ok c w -> find_row (q_id q) (rows w) = None -> get resp "state" = J "unknown" -> journal_ok c (with_row (new_row q resp) w).
Proof.
  intros [H1 H2 H3 H4] Hf Hs. split; [| | |done].
  - cbn. rewrite map_app. apply NoDup_app. split; [done|]. split; [|apply NoDup_singleton].
    intros x Hx Hx2. apply list_elem_of_singleton in Hx2. subst. by apply find_row_ids in Hf.
  - intros r Hr. apply elem_of_app in Hr as [Hr|Hr]; [by apply H2|]. apply list_elem_of_singleton in Hr. by subst.
  - intros x Hx Ha. destruct (H3 x Hx Ha) as (A & B & r & Hr & Hi). split; [done|]. split; [done|]. exists r. split; [|done].
    apply elem_of_app. by left.
Qed.

Lemma starts_snoc {A} (f : A -> bool) l x : List.filter f (l ++ [x]) = List.filter f l ++ (if f x then [x] else []).
Proof. rewrite List.filter_app. cbn. by destruct (f x). Qed.

Lemma step_journal_ok c P w w' : step c P w w' -> journal_ok c w -> journal_ok c w'.
Proof.
  intros [w1 Hq|q resp (Ha & Hf & _) Hs|q resp out (Ha & Hf & _) Hs Hl|q o Hl Hin|q o r HP Hl Hr Hi Hd] Hok; try by apply journal_ok_recorded.
  - destruct Hq as [x Hx|]; [|by apply journal_ok_recorded]. destruct Hok as [H1 H2 H3 H4]. split; [done|done| |].
    + intros y Hy Hy2. apply elem_of_app in Hy as [Hy|Hy]; [by apply H3|]. apply list_elem_of_singleton in Hy. congruence.
    + cbn. by rewrite starts_snoc, Hx, app_nil_r.
  - by apply journal_ok_row.
  - pose proof (journal_ok_row c q resp w Hok Hf Hs) as [H1 H2 H3 H4]. split; [done|done| |].
    + intros y Hy Hy2. apply elem_of_app in Hy as [Hy|Hy]; [by apply H3|]. apply list_elem_of_singleton in Hy. subst y.
      split; [done|]. split; [done|]. exists (new_row q resp). split; [|done]. apply elem_of_app. right. by left.
    + cbn. rewrite starts_snoc. cbn. rewrite map_app. apply NoDup_app. split; [exact H4|]. split; [|apply NoDup_singleton].
      intros i Hi1 Hi2. apply list_elem_of_singleton in Hi2. subst i. cbn in Hi1.
      apply list_elem_of_fmap in Hi1 as (x & Hx1 & Hx2). apply list_elem_of_In, filter_In in Hx2 as [Hx2 Hx3]. apply list_elem_of_In in Hx2.
      destruct (jo_log c w Hok x Hx2 Hx3) as (_ & _ & r & Hr & Hri). destruct (jo_row c w Hok r Hr) as [Hid _].
      apply (find_row_None _ _ r Hf Hr). cbn in Hx1. congruence.
Qed.

Lemma steps_journal_ok c P w w' : steps c P w w' -> journal_ok c w -> journal_ok c w'.
Proof. induction 1; [done|]. intros. eauto using step_journal_ok. Qed.

Lemma serve_journal_ok c hs : journal_ok c (serve c hs).
Proof.
  eapply steps_journal_ok; [apply serve_steps|]. split; cbn; try apply NoDup_nil_2; intros ? H; by apply elem_of_nil in H.
Qed.

(** C8. Along every sequence of messages, whatever controllers and peer answer and wherever the daemon dies and starts again,
    no request identifier starts the apply controller twice, and each start has the payload of the request that started it. *)
Theorem apply_at_most_once c hs :
  NoDup (map (fun x => q_id (x_request x)) (List.filter is_apply (log (serve c hs))))
  /\ forall x, x ∈ log (serve c hs) -> is_apply x = true -> x_payload x = q_payload (x_request x) /\ is_local c (x_request x) = true.
Proof.
  pose proof (serve_journal_ok c hs) as H. split; [apply (jo_once _ _ H)|]. intros x Hx Ha.
  destruct (jo_log _ _ H x Hx Ha) as (? & ? & _). done.
Qed.

(** ** Answers and order, for a digest without collisions *)

Section Answers.
Hypothesis digest_inj : forall q q', digest q = digest q' -> q = q'.

Record answers_ok (c : config) (w : world) : Prop := {
  ao_journal : journal_ok c w;
  ao_applied : forall r, r ∈ rows w -> is_local c (j_intent r) = true -> jeq (j_state r) (J "applied") = true ->
    exists o, j_response r = applied_answer c (j_intent r) o /\ apply_start (j_intent r) (Ret (JObj o)) ∈ log w;
  ao_settled : forall i j x y r, log w !! i = Some x -> log w !! j = Some y -> (i < j)%nat -> is_apply x = true -> is_apply y = true ->
    q_resource (x_request x) = q_resource (x_request y) -> r ∈ rows w -> j_intent r = x_request x -> jeq (j_state r) (J "unknown") = false }.

Lemma row_unique c w r r' : journal_ok c w -> r ∈ rows w -> r' ∈ rows w -> j_id r = j_id r' -> r = r'.
Proof.
  intros [H _ _ _]. revert H. generalize (rows w). induction l as [|a l IH]; [by intros _ Hr%elem_of_nil|].
  cbn. rewrite NoDup_cons. intros [Ha Hn] Hr Hr' He. apply elem_of_cons in Hr as [->|Hr]; apply elem_of_cons in Hr' as [->|Hr']; auto.
  - destruct Ha. rewrite He. by apply list_elem_of_fmap_2.
  - destruct Ha. rewrite <- He. by apply list_elem_of_fmap_2.
Qed.

(** Recording a settled answer, or one for a resource of the peer. *)
Lemma answers_ok_recorded c ident resp w :
  answers_ok c w ->
  (forall r, r ∈ rows w -> j_id r = ident -> is_local c (j_intent r) = true ->
     jeq (get resp "state") (J "unknown") = false
     /\ (jeq (get resp "state") (J "applied") = true ->
         exists o, resp = applied_answer c (j_intent r) o /\ apply_start (j_intent r) (Ret (JObj o)) ∈ log w)) ->
  answers_ok c (recorded ident resp w).
Proof.
  intros [Hj Hf Hg] Hnew. split; [by apply journal_ok_recorded| |].
  - intros r Hr. apply list_elem_of_fmap in Hr as (r0 & -> & Hr0). unfold set_row. case_bool_decide as Hi; [|by apply Hf].
    cbn. intros Hl Hs. by apply (Hnew r0 Hr0 Hi Hl).
  - intros i j x y r Hx Hy Hij Hax Hay Hres Hr. apply list_elem_of_fmap in Hr as (r0 & -> & Hr0). unfold set_row. case_bool_decide as Hi.
    + cbn. intros Hint. apply (Hnew r0 Hr0 Hi). rewrite Hint.
      apply (jo_log c w Hj x); [by eapply list_elem_of_lookup_2|done].
    + by apply (Hg i j x y).
Qed.

Lemma answers_ok_row c q resp w :
  answers_ok c w -> find_row (q_id q) (rows w) = None -> get resp "state" = J "unknown" -> answers_ok c (with_row (new_row q resp) w).
Proof.
  intros [Hj Hf Hg] Hnone Hs. split; [by apply journal_ok_row| |].
  - intros r Hr. apply elem_of_app in Hr as [Hr|Hr]; [by apply Hf|]. apply list_elem_of_singleton in Hr. subst r. by intros _ ?.
  - intros i j x y r Hx Hy Hij Hax Hay Hres Hr Hint. apply elem_of_app in Hr as [Hr|Hr]; [by apply (Hg i j x y)|].
    apply list_elem_of_singleton in Hr. subst r. cbn in Hint. subst q. exfalso.
    destruct (jo_log c w Hj x) as (_ & _ & r0 & Hr0 & Hi0); [by eapply list_elem_of_lookup_2|done|].
    apply (find_row_None _ _ r0 Hnone Hr0). destruct (jo_row c w Hj r0 Hr0) as [-> _]. by rewrite Hi0.
Qed.

(** A start after the others: what was started before on its resource is settled. *)
Lemma answers_ok_start c x w :
  answers_ok c w -> journal_ok c (with_start x w) ->
  (is_apply x = true -> forall y r, y ∈ log w -> is_apply y = true -> q_resource (x_request y) = q_resource (x_request x) ->
     r ∈ rows w -> j_intent r = x_request y -> jeq (j_state r) (J "unknown") = false) ->
  answers_ok c (with_start x w).
Proof.
  intros [Hj Hf Hg] Hj' Hx. split; [done| |].
  - intros r Hr Hl Hs. destruct (Hf r Hr Hl Hs) as (o & ? & Hin). exists o. split; [done|]. apply elem_of_app. by left.
  - intros i j a b r Ha Hb Hij Haa Hab Hres Hr Hint. cbn in Ha, Hb.
    apply lookup_app_Some in Hb as [Hb|[Hlen Hb]].
    + apply lookup_app_Some in Ha as [Ha|[Hlen _]]; [by apply (Hg i j a b)|]. apply lookup_lt_Some in Hb. lia.
    + apply list_lookup_singleton_Some in Hb as [Hj0 <-].
      apply lookup_app_Some in Ha as [Ha|[Hlen2 Ha]]; [|apply lookup_lt_Some in Ha; cbn in Ha; lia].
      apply (Hx Hab a r); try done. by eapply list_elem_of_lookup_2.
Qed.

Lemma step_answers_ok c P w w' : step c P w w' -> answers_ok c w -> answers_ok c w'.
Proof.
  intros Hstep Hok. pose proof (ao_journal c w Hok) as Hj. pose proof (step_journal_ok c P w w' Hstep Hj) as Hj'.
  destruct Hstep as [w1 Hq|q resp (Ha & Hnone & _) Hs|q resp out (Ha & Hnone & Hfree) Hs Hl|q o Hl Hin|q o r HP Hl Hr Hi Hd].
  - destruct Hq as [x Hx|ident v]; [apply answers_ok_start; [done|done|]; congruence|].
    apply answers_ok_recorded; [done|]. by intros r Hr Hi Hl.
  - by apply answers_ok_row.
  - apply answers_ok_start; [by apply answers_ok_row|done|]. intros _ y r Hy Hay Hres Hr Hint.
    destruct (jo_log c w Hj y Hy Hay) as (_ & _ & r0 & Hr0 & Hi0). destruct (jo_row c w Hj r0 Hr0) as (Hid & _ & Hrs & _).
    apply elem_of_app in Hr as [Hr|Hr].
    + destruct (jo_row c w Hj r Hr) as (_ & _ & Hrs' & _). destruct (jeq (j_state r) (J "unknown")) eqn:E; [|done]. exfalso.
      assert (Hu : r ∈ unknown_rows (q_resource q) (rows w)); [|rewrite (Hfree Hl) in Hu; by apply elem_of_nil in Hu].
      apply list_elem_of_In, filter_In. split; [by apply list_elem_of_In|]. rewrite E, andb_true_r. apply bool_decide_eq_true.
      rewrite Hrs', Hint. exact Hres.
    + apply list_elem_of_singleton in Hr. subst r. cbn in Hint. exfalso. apply (find_row_None _ _ r0 Hnone Hr0). rewrite Hid, Hi0.
      by rewrite Hint.
  - apply answers_ok_recorded; [done|]. intros r Hr Hi _. split; [done|]. intros _. exists o.
    destruct (jo_log c w Hj _ Hin eq_refl) as (_ & _ & r0 & Hr0 & Hi0). cbn in Hi0.
    destruct (jo_row c w Hj r0 Hr0) as [Hid _].
    assert (r = r0) as -> by (apply (row_unique c w); [done..|]; rewrite Hi, Hid, Hi0; done). by rewrite Hi0.
  - apply answers_ok_recorded; [done|]. intros r0 Hr0 Hi0 Hl0. exfalso.
    assert (r0 = r) as -> by (apply (row_unique c w); [done..|]; congruence).
    destruct (jo_row c w Hj r Hr) as (_ & Hdg & _). rewrite Hd in Hdg. apply digest_inj in Hdg. congruence.
Qed.

Lemma steps_answers_ok c P w w' : steps c P w w' -> answers_ok c w -> answers_ok c w'.
Proof. induction 1; [done|]. intros. eauto using step_answers_ok. Qed.

Lemma serve_answers_ok c hs : answers_ok c (serve c hs).
Proof.
  eapply steps_answers_ok; [apply serve_steps|]. split.
  - apply (serve_journal_ok c []).
  - intros ? H; by apply elem_of_nil in H.
  - intros i j x y r H. cbn in H. by rewrite lookup_nil in H.
Qed.

(** C14. When a write of an own resource is started, the outcome of every earlier write of that resource has been settled: at any
    time, of two starts of the apply controller of one resource the first has a row, and this row no longer says that the
    outcome is unknown. *)
Theorem earlier_outcomes_settled c hs i j x y :
  let w := serve c hs in
  log w !! i = Some x -> log w !! j = Some y -> (i < j)%nat -> is_apply x = true -> is_apply y = true ->
  q_resource (x_request x) = q_resource (x_request y) ->
  exists r, r ∈ rows w /\ j_intent r = x_request x /\ jeq (j_state r) (J "unknown") = false.
Proof.
  intros w Hx Hy Hij Hax Hay Hres. pose proof (serve_answers_ok c hs) as H.
  destruct (jo_log c w (ao_journal c w H) x) as (_ & _ & r & Hr & Hi); [by eapply list_elem_of_lookup_2|done|].
  exists r. split; [done|]. split; [done|]. by apply (ao_settled c w H i j x y).
Qed.

Definition applies (w : world) : list start := List.filter is_apply (log w).

Lemma quiet_applies c w w' : rtc (quiet c) w w' -> applies w' = applies w.
Proof.
  induction 1 as [|w1 w2 w3 Hq _ IH]; [done|]. rewrite IH. destruct Hq as [x Hx|]; [|done]. unfold applies. cbn.
  by rewrite starts_snoc, Hx, app_nil_r.
Qed.

(** How a new write ends: with an exception before anything was started, as unknown, or applied with its row. *)
Lemma apply_new_cases c e q w r w' :
  apply_new c e q w = (r, w') ->
  match r with
  | Val resp => resp = unknown_answer c q
                \/ exists o, resp = applied_answer c q o /\ exists rw, rw ∈ rows w' /\ j_intent rw = q /\ j_response rw = resp
  | Exn _ => applies w' = applies w
  | Dead => True
  end.
Proof.
  unfold apply_new. pose proof (command_quiet c e q (lit "validate") (q_payload q) w eq_refl) as Hv.
  unfold mbind at 1, M_bind at 1. destruct (command c e q (lit "validate") _ w) as [[o|x|] w1]; cbn [snd] in Hv.
  2: intros [= <- <-]; by apply (quiet_applies c).
  2: by intros [= <- <-].
  unfold mbind at 1, M_bind at 1. cbn [insert_row]. set (w2 := {| rows := _; log := _ |}).
  unfold mbind at 1, M_bind at 1, catch. unfold mbind at 1, M_bind at 1.
  pose proof (command_rows c e q (lit "apply") (q_payload q) w2) as Hr.
  destruct (command c e q (lit "apply") (q_payload q) w2) as [[o'|x|] w3]; cbn [snd] in Hr.
  - unfold mbind, M_bind. cbn [record]. intros [= <- <-]. right. exists o'. split; [done|].
    exists (set_row (q_id q) (applied_answer c q o') (new_row q (unknown_answer c q))). unfold set_row. cbn [new_row j_id].
    rewrite bool_decide_true by done. cbn. split; [|done]. rewrite Hr. cbn. rewrite map_app. apply elem_of_app. right. cbn.
    unfold set_row. cbn. rewrite bool_decide_true by done. by left.
  - intros [= <- <-]. by left.
  - by intros [= <- <-].
Qed.

Lemma apply_cases c e q w r w' :
  journal_ok c w -> apply c e q w = (r, w') ->
  match r with
  | Val resp => resp = unknown_answer c q \/ (exists rw, rw ∈ rows w' /\ j_intent rw = q /\ j_response rw = resp)
                                             /\ (applies w' = applies w \/ exists o, resp = applied_answer c q o)
  | Exn _ => applies w' = applies w
  | Dead => True
  end.
Proof.
  intros Hj. unfold apply. unfold mbind at 1, M_bind at 1, stored, ask. destruct (find_row (q_id q) (rows w)) as [rw|] eqn:Ef.
  { apply find_row_Some in Ef as [Hin Hid]. destruct (bool_decide _) eqn:Ed; cbn [negb]; intros [= <- <-]; [|done].
    apply bool_decide_eq_true in Ed. right. split; [|by left]. exists rw. split; [done|]. split; [|done]. apply digest_inj.
    rewrite <- Ed. by destruct (jo_row c w Hj rw Hin) as (_ & -> & _). }
  unfold mbind at 1, M_bind at 1. intros H.
  assert (Hmid : exists left w1, rtc (quiet c) w w1 /\
            ((left = Val 0%nat /\ apply_new c e q w1 = (r, w')) \/ (exists x, left = Exn x /\ r = Exn x /\ w' = w1)
             \/ (exists n, left = Val (S n) /\ (exists x, r = Exn x) /\ w' = w1) \/ r = Dead)).
  { destruct (length _ =? 0)%nat; unfold mbind at 1, M_bind at 1 in H.
    - exists (Val 0%nat), w. split; [apply rtc_refl|]. by left.
    - pose proof (supersede_quiet c e q w) as Hq. destruct (supersede c e q w) as [[n|x|] w1]; cbn [snd] in Hq.
      + destruct n as [|n]; cbn in H; [exists (Val 0%nat), w1; eauto|]. injection H as <- <-. exists (Val (S n)), w1. split; [done|].
        right. right. left. eauto.
      + injection H as <- <-. exists (Exn x), w1. split; [done|]. right. left. eauto.
      + injection H as <- <-. exists Dead, w1. eauto. }
  destruct Hmid as (l & w1 & Hq & [[-> Hn]|[(x & -> & -> & ->)|[(n & -> & (x & ->) & ->)| ->]]]); try done; try by apply (quiet_applies c).
  apply apply_new_cases in Hn. destruct r as [resp| |]; [|by rewrite Hn, (quiet_applies c w w1)|done].
  destruct Hn as [->|(o & -> & rw & Hrw)]; [by left|]. right. split; [by exists rw|]. right. by exists o.
Qed.

Lemma serve_snoc c hs me : serve c (hs ++ [me]) = (dispatch c me.2 me.1 (serve c hs)).2.
Proof. unfold serve. by rewrite fold_left_app. Qed.

Lemma dispatch_local c e msg q w :
  check msg = Some q -> is_local c q = true -> txt (q_action q) "inventory" = false -> dispatch c e msg w = local c e q w.
Proof. intros Hc Hl Hi. unfold dispatch. rewrite Hc, Hi, Hl. by destruct (c_peer c). Qed.

Lemma local_apply c e q w : is_local c q = true -> q_action q = lit "apply" -> local_body c e q w = apply c e q w.
Proof. intros Hl Ha. unfold local_body. by rewrite Hl, Ha. Qed.

Lemma filter_unique {A} (f : A -> bool) (g : A -> pystr) (l : list A) x :
  NoDup (map g (List.filter f l)) -> x ∈ l -> f x = true -> List.filter (fun y => f y && bool_decide (g y = g x)) l = [x].
Proof.
  induction l as [|a l IH]; [by intros _ H%elem_of_nil|]. cbn [List.filter]. intros Hn Hx Hf.
  assert (Hnone : forall l : list A, g x ∉ map g (List.filter f l) -> List.filter (fun y => f y && bool_decide (g y = g x)) l = []).
  { clear. induction l as [|b l IH]; cbn [List.filter]; [done|]. destruct (f b); cbn; [|done]. rewrite not_elem_of_cons. intros [Hb Hl].
    rewrite bool_decide_false by congruence. auto. }
  apply elem_of_cons in Hx as [<-|Hx].
  - rewrite Hf in Hn. cbn in Hn. apply NoDup_cons in Hn as [Hna _]. rewrite Hf, bool_decide_true by done. cbn. by rewrite Hnone.
  - destruct (f a) eqn:Ea; cbn; [|by apply IH]. cbn in Hn. apply NoDup_cons in Hn as [Hna Hn]. rewrite bool_decide_false; [by apply IH|].
    intros He. apply Hna. rewrite He. apply list_elem_of_fmap. exists x. split; [done|]. apply list_elem_of_In, filter_In.
    by rewrite <- list_elem_of_In.
Qed.

(** The starts of the apply controller for a request. *)
Definition starts_of (ident : pystr) (w : world) : list start :=
  List.filter (fun x => is_apply x && bool_decide (q_id (x_request x) = ident)) (log w).

Lemma local_answer c e q w resp w' :
  answers_ok c w -> is_local c q = true -> q_action q = lit "apply" -> local c e q w = (Val resp, w') ->
  (get resp "state" = J "applied" -> exists o, resp = applied_answer c q o /\ starts_of (q_id q) w' = [apply_start q (Ret (JObj o))])
  /\ (get resp "state" = J "rejected" -> applies w' = applies w).
Proof.
  intros Hok Hl Ha Hloc. pose proof (local_steps c e any q w) as Hst. rewrite Hloc in Hst. cbn [snd] in Hst.
  pose proof (steps_answers_ok c any w w' Hst Hok) as Hok'. unfold local, catch in Hloc. rewrite (local_apply c e q w Hl Ha) in Hloc.
  pose proof (apply_cases c e q w) as Hc. destruct (apply c e q w) as [r w1]. specialize (Hc r w1 (ao_journal c w Hok) eq_refl).
  destruct r as [resp0|x|]; [injection Hloc as -> ->|injection Hloc as <- ->|done].
  - destruct Hc as [->|[(rw & Hin & Hint & Hresp) Happ]]; [by split|]. split.
    + intros Hs. destruct (jo_row c w' (ao_journal c w' Hok') rw Hin) as (_ & _ & _ & Hst').
      destruct (ao_applied c w' Hok' rw Hin) as (o & Ho & Hlog); [by rewrite Hint|by rewrite Hst', Hresp, Hs|].
      rewrite Hint in Ho, Hlog. exists o. split; [congruence|].
      apply (filter_unique is_apply (fun x => q_id (x_request x)) (log w') (apply_start q (Ret (JObj o)))); [|done|done].
      apply (jo_once c w' (ao_journal c w' Hok')).
    + intros Hs. destruct Happ as [->|(o & Ho)]; [done|]. rewrite Ho in Hs. cbn in Hs. done.
  - split; [by intros|]. done.
Qed.

(** An answer to a write of an own resource is true: [applied] carries the result of the one run of the apply controller
    that was ever started for the identifier, on exactly this request, and after [rejected] nothing was started. *)
Theorem applied_truthful c hs e msg q resp :
  check msg = Some q -> is_local c q = true -> q_action q = lit "apply" ->
  (dispatch c e msg (serve c hs)).1 = Val resp ->
  let w' := serve c (hs ++ [(msg, e)]) in
  (get resp "state" = J "applied" -> exists o, resp = applied_answer c q o /\ starts_of (q_id q) w' = [apply_start q (Ret (JObj o))])
  /\ (get resp "state" = J "rejected" -> applies w' = applies (serve c hs)).
Proof.
  intros Hck Hl Ha Hd w'. subst w'. rewrite serve_snoc. cbn [fst snd].
  assert (Hi : txt (q_action q) "inventory" = false) by (by rewrite Ha).
  rewrite (dispatch_local c e msg q _ Hck Hl Hi) in Hd |- *.
  destruct (local c e q (serve c hs)) as [r w'] eqn:E. cbn [fst snd] in Hd |- *. subst r.
  exact (local_answer c e q (serve c hs) resp w' (serve_answers_ok c hs) Hl Ha E).
Qed.

(** ** A relay before the node *)

(** A message at the relay, with what happens to the one request it may forward: the link loses it, loses the answer, or
    brings it back; or a message that reaches the node directly. *)
Inductive fate := LostOut | LostBack | Both.
Inductive traffic :=
| At_relay (msg : json) (f : fate) (re le : env)
| At_node (msg : json) (le : env).
Record chain := { at_relay : world; at_node : world }.

Section Chain.
Variables relay node : config.

(** Does the relay hand the message on? *)
Definition forwards (q : request) (w : world) : bool :=
  negb (txt (q_action q) "inventory") && negb (is_local relay q)
  && (negb (txt (q_action q) "apply")
      || match find_row (q_id q) (rows w) with
         | None => true
         | Some r => bool_decide (j_digest r = digest q)
                     && negb (jeq (get (j_response r) "state") (J "applied") || jeq (get (j_response r) "state") (J "reconciled"))
         end).
Definition with_peer (e : env) (r : ran) : env := {| e_run := e_run e; e_peer := r; e_flags := e_flags e; e_probe := e_probe e |}.
Definition reply_of (r : res obj) : ran := match r with Val o => Ret (JObj o) | _ => Raise OtherErr end.
Definition hop (t : traffic) (w : chain) : res obj * chain :=
  match t with
  | At_node msg le =>
      let d := dispatch node le msg (at_node w) in (d.1, {| at_relay := at_relay w; at_node := d.2 |})
  | At_relay msg f re le =>
      let sent := match check msg with Some q => forwards q (at_relay w) | None => false end in
      let d := dispatch node le msg (at_node w) in
      let down := match sent, f with
                  | true, LostBack => (Raise OtherErr, d.2)
                  | true, Both => (reply_of d.1, d.2)
                  | _, _ => (Raise OtherErr, at_node w)
                  end in
      let up := dispatch relay (with_peer re down.1) msg (at_relay w) in
      (up.1, {| at_relay := up.2; at_node := down.2 |})
  end.
Definition travel (ts : list traffic) : chain :=
  fold_left (fun w t => (hop t w).2) ts {| at_relay := {| rows := []; log := [] |}; at_node := {| rows := []; log := [] |} |}.

(** An answer [applied] to a write of the node's is the result of a run there. *)
Definition backed (n : world) (q : request) (resp : obj) : Prop :=
  is_local node q = true -> q_action q = lit "apply" -> jeq (get resp "state") (J "applied") = true ->
  exists o, get resp "result" = JObj o /\ apply_start q (Ret (JObj o)) ∈ log n.
Definition all_backed (n w : world) : Prop :=
  forall r, r ∈ rows w -> is_local relay (j_intent r) = false -> backed n (j_intent r) (j_response r).

Lemma step_backed n w w' : step relay (backed n) w w' -> journal_ok relay w -> all_backed n w -> all_backed n w'.
Proof.
  intros Hst Hj Hall. destruct Hst as [w1 Hq|q resp (Ha & Hf & _) Hs|q resp out _ Hs Hl|q o Hl Hin|q o r HP Hl Hr Hi Hd].
  - destruct Hq as [x Hx|ident v]; [done|]. intros r Hr. apply list_elem_of_fmap in Hr as (r0 & -> & Hr0). unfold set_row.
    case_bool_decide; [|by apply Hall]. intros _ _ _ Hs. by cbn in Hs.
  - intros r Hr. apply elem_of_app in Hr as [Hr|Hr]; [by apply Hall|]. apply list_elem_of_singleton in Hr. subst r.
    intros _ _ _. cbn [new_row j_response]. by rewrite Hs.
  - intros r Hr. apply elem_of_app in Hr as [Hr|Hr]; [by apply Hall|]. apply list_elem_of_singleton in Hr. subst r. cbn. congruence.
  - intros r Hr. apply list_elem_of_fmap in Hr as (r0 & -> & Hr0). unfold set_row. case_bool_decide as Hid; [|by apply Hall].
    cbn [j_intent]. destruct (jo_log relay w Hj _ Hin eq_refl) as (_ & _ & r1 & Hr1 & Hi1). cbn in Hi1.
    destruct (jo_row relay w Hj r1 Hr1) as [Hid1 _].
    assert (r0 = r1) as -> by (apply (row_unique relay w); [done..|]; rewrite Hid, Hid1, Hi1; done). rewrite Hi1. congruence.
  - intros r0 Hr0. apply list_elem_of_fmap in Hr0 as (r1 & -> & Hr1). unfold set_row. case_bool_decide as Hid; [|by apply Hall].
    cbn [j_intent j_response]. assert (r1 = r) as -> by (apply (row_unique relay w); [done..|]; congruence).
    destruct (jo_row relay w Hj r Hr) as (_ & Hdg & _). rewrite Hd in Hdg. apply digest_inj in Hdg. by rewrite <- Hdg.
Qed.

Lemma steps_backed n w w' :
  steps relay (backed n) w w' -> journal_ok relay w -> all_backed n w -> journal_ok relay w' /\ all_backed n w'.
Proof.
  induction 1 as [|w1 w2 w3 H12 _ IH]; [done|]. intros Hj Ha. apply IH; [by eapply step_journal_ok|by eapply step_backed].
Qed.

Lemma steps_log c P w w' x : steps c P w w' -> x ∈ log w -> x ∈ log w'.
Proof.
  induction 1 as [|w1 w2 w3 H12 _ IH]; [done|]. intros Hx. apply IH.
  destruct H12 as [w4 []| | | |]; cbn; try done; apply elem_of_app; by left.
Qed.

Lemma all_backed_grow n n' w : (forall x, x ∈ log n -> x ∈ log n') -> all_backed n w -> all_backed n' w.
Proof. intros Hsub Hall r Hr Hl Hn Ha Hs. destruct (Hall r Hr Hl Hn Ha Hs) as (o & ? & ?). eauto. Qed.

Lemma peer_reply_get c ident v o k :
  peer_reply c ident v = Some o -> k <> "trace"%string -> exists o0, v = JObj o0 /\ get o k = get o0 k.
Proof.
  intros Hp Hk. destruct v as [| | | | | |o0]; try done. exists o0. split; [done|]. unfold peer_reply in Hp. destruct (get o0 "trace"); try done.
  destruct (_ && _); [|done]. injection Hp as <-. unfold get, jget. rewrite dget_dset_ne; [done|]. intros He. by apply lit_inj in He.
Qed.

(** The node's reply to a request of the relay is backed there. *)
Lemma node_reply_backed le msg q w resp n :
  answers_ok node w -> check msg = Some q -> dispatch node le msg w = (Val resp, n) -> backed n q resp.
Proof.
  intros Hok Hck Hd Hl Ha Hs. rewrite (dispatch_local node le msg q w Hck Hl) in Hd by (by rewrite Ha).
  destruct (local_answer node le q w resp n Hok Hl Ha Hd) as [H _]. destruct H as (o & -> & Hst); [by apply jeq_str in Hs|].
  exists o. split; [done|]. assert (Hin : apply_start q (Ret (JObj o)) ∈ starts_of (q_id q) n) by (rewrite Hst; by left).
  apply list_elem_of_In, filter_In in Hin as [Hin _]. by apply list_elem_of_In.
Qed.

Record chain_ok (w : chain) : Prop := {
  ch_relay : journal_ok relay (at_relay w); ch_node : answers_ok node (at_node w); ch_backed : all_backed (at_node w) (at_relay w) }.

Lemma dispatch_node_ok le msg n : answers_ok node n ->
  answers_ok node (dispatch node le msg n).2 /\ forall x, x ∈ log n -> x ∈ log (dispatch node le msg n).2.
Proof.
  intros Hok. assert (H : steps node any n (dispatch node le msg n).2) by (by apply dispatch_steps).
  split; [by eapply steps_answers_ok|]. intros x. by eapply steps_log.
Qed.

Lemma relay_turn re r msg w n n' :
  chain_ok w -> n = at_node w -> answers_ok node n' -> (forall x, x ∈ log n -> x ∈ log n') ->
  (forall v, r = Ret v -> exists le resp, v = JObj resp /\ dispatch node le msg n = (Val resp, n')) ->
  chain_ok {| at_relay := (dispatch relay (with_peer re r) msg (at_relay w)).2; at_node := n' |}.
Proof.
  intros [Hr Hn Hb] -> Hn' Hsub Hreply.
  assert (Hst : steps relay (backed n') (at_relay w) (dispatch relay (with_peer re r) msg (at_relay w)).2).
  { apply dispatch_steps. intros q v o Hck Hl Hv Hp. cbn in Hv. destruct (Hreply v Hv) as (le & resp & -> & Hd).
    pose proof (node_reply_backed le msg q _ resp n' Hn Hck Hd) as Hbk. intros H1 H2 H3.
    destruct (peer_reply_get _ _ _ _ "state" Hp) as (o0 & [= <-] & Es); [done|].
    destruct (peer_reply_get _ _ _ _ "result" Hp) as (o0 & [= <-] & Er); [done|].
    rewrite Es in H3. destruct (Hbk H1 H2 H3) as (o1 & Ho1 & Hin). exists o1. split; [congruence|done]. }
  destruct (steps_backed n' _ _ Hst Hr (all_backed_grow _ _ _ Hsub Hb)) as [? ?]. by split.
Qed.

Lemma hop_ok t w : chain_ok w -> chain_ok (hop t w).2.
Proof.
  intros Hok. pose proof (ch_node w Hok) as Hn. destruct t as [msg f re le|msg le]; cbn [hop snd].
  - destruct (dispatch_node_ok le msg (at_node w) Hn) as [Hn' Hsub].
    assert (Hlost : forall v, Raise OtherErr = Ret v -> exists le resp, v = JObj resp /\ dispatch node le msg (at_node w) = (Val resp, at_node w)) by done.
    destruct (match check msg with Some q => forwards q (at_relay w) | None => false end); [destruct f|];
      apply (relay_turn re _ msg w (at_node w)); cbn [snd]; try done.
    intros v Hv. cbn [fst] in Hv. destruct (dispatch node le msg (at_node w)) as [[o| |] n] eqn:En; try done.
    injection Hv as <-. by exists le, o.
  - destruct (dispatch_node_ok le msg (at_node w) Hn) as [Hn' Hsub]. destruct Hok as [H1 _ H3].
    split; cbn; [done|done|]. by eapply all_backed_grow.
Qed.

Lemma travel_ok ts : chain_ok (travel ts).
Proof.
  unfold travel. assert (H : chain_ok {| at_relay := {| rows := []; log := [] |}; at_node := {| rows := []; log := [] |} |}).
  { split; [exact (serve_journal_ok relay [])|exact (serve_answers_ok node [])|]. intros r Hr. by apply elem_of_nil in Hr. }
  revert H. generalize {| at_relay := {| rows := []; log := [] |}; at_node := {| rows := []; log := [] |} |}.
  induction ts as [|t ts IH]; intros w Hw; [done|]. cbn [fold_left]. by apply IH, hop_ok.
Qed.

(** An [applied] of the relay is in its journal. *)
Lemma forward_applied e q w resp w' :
  journal_ok relay w -> is_local relay q = false -> q_action q = lit "apply" -> forward relay e q w = (Val resp, w') ->
  get resp "state" = J "applied" -> exists r, r ∈ rows w' /\ j_intent r = q /\ j_response r = resp.
Proof.
  intros Hj Hl Ha Hf Hs.
  assert (Hsend : forall w0 r, journal_ok relay w0 -> r ∈ rows w0 -> j_id r = q_id q -> j_digest r = digest q ->
    forward_send relay e q w0 = (Val resp, w') -> exists r, r ∈ rows w' /\ j_intent r = q /\ j_response r = resp).
  { intros w0 r Hj0 Hr Hi Hd. unfold forward_send, catch, mbind, M_bind, of_ran.
    destruct (e_peer e) as [v| |]; [|intros [= <- <-]; by cbn in Hs|done].
    destruct (peer_reply relay (q_id q) v) as [o|]; [|intros [= <- <-]; by cbn in Hs].
    rewrite Ha. change (txt (lit "apply") "apply") with true. cbn [negb].
    destruct (has o "state" && bindable (get o "state")); [|intros [= <- <-]; by cbn in Hs].
    intros [= <- <-]. exists (set_row (q_id q) o r). split; [by apply list_elem_of_fmap_2|].
    destruct (jo_row relay w0 Hj0 r Hr) as (_ & Hdg & _). rewrite Hd in Hdg. apply digest_inj in Hdg.
    unfold set_row. rewrite bool_decide_true by done. done. }
  unfold forward in Hf. rewrite Ha in Hf. change (txt (lit "apply") "apply") with true in Hf. cbn [negb] in Hf.
  unfold mbind at 1, M_bind at 1, stored, ask in Hf. destruct (find_row (q_id q) (rows w)) as [r|] eqn:Ef.
  - apply find_row_Some in Ef as [Hin Hid]. destruct (bool_decide _) eqn:Ed; cbn [negb] in Hf; [|injection Hf as <- <-; by cbn in Hs].
    apply bool_decide_eq_true in Ed. destruct (_ || _); [|by apply (Hsend w r)]. injection Hf as <- <-. exists r. split; [done|].
    split; [|done]. apply digest_inj. rewrite <- Ed. by destruct (jo_row relay w Hj r Hin) as (_ & -> & _).
  - unfold mbind at 1, M_bind at 1 in Hf. cbn [insert_row] in Hf.
    match type of Hf with context [new_row q ?x] => set (rw := new_row q x) in Hf; pose proof (journal_ok_row relay q x w Hj Ef eq_refl) as Hj0 end.
    apply (Hsend _ rw Hj0); [|done|done|exact Hf]. apply elem_of_app. right. by left.
Qed.

(** C9. Through a relay, with a link that loses requests and answers in any pattern and clients that repeat their requests
    anywhere: an answer [applied] to a write of the node's carries the result of a run of the node's apply controller on
    exactly this request, and that run is the only one ever started for the identifier. *)
Theorem relayed_applied_truthful ts msg f re le q resp :
  c_peer relay <> None -> check msg = Some q -> is_local relay q = false -> is_local node q = true -> q_action q = lit "apply" ->
  (hop (At_relay msg f re le) (travel ts)).1 = Val resp -> get resp "state" = J "applied" ->
  exists o, get resp "result" = JObj o
    /\ starts_of (q_id q) (at_node (travel (ts ++ [At_relay msg f re le]))) = [apply_start q (Ret (JObj o))].
Proof.
  intros Hp Hck Hlr Hln Ha Hans Hs.
  assert (Htr : travel (ts ++ [At_relay msg f re le]) = (hop (At_relay msg f re le) (travel ts)).2) by (unfold travel; by rewrite fold_left_app).
  pose proof (travel_ok ts) as Hok. pose proof (hop_ok (At_relay msg f re le) _ Hok) as Hok'. rewrite Htr. clear Htr.
  set (w := travel ts) in *. cbn [hop fst snd at_node] in *. set (down := match _ with true => _ | false => _ end) in *.
  assert (Hd : dispatch relay (with_peer re down.1) msg (at_relay w) = forward relay (with_peer re down.1) q (at_relay w)).
  { unfold dispatch. rewrite Hck, Ha, Hlr. change (txt (lit "apply") "inventory") with false. by destruct (c_peer relay). }
  rewrite Hd in Hans, Hok'. destruct (forward relay (with_peer re down.1) q (at_relay w)) as [r w'] eqn:Ef. cbn [fst snd] in Hans, Hok'. subst r.
  destruct (forward_applied _ q _ resp w' (ch_relay w Hok) Hlr Ha Ef Hs) as (r & Hr & Hi & Hresp).
  destruct Hok' as [_ Hn Hb]. cbn in Hn, Hb. destruct (Hb r Hr) as (o & Ho & Hin); [by rewrite Hi..|by rewrite Hresp, Hs|].
  rewrite Hi in Hin. exists o. split; [congruence|].
  apply (filter_unique is_apply (fun x => q_id (x_request x)) _ (apply_start q (Ret (JObj o)))); [|done|done].
  apply (jo_once node _ (ao_journal node _ Hn)).
Qed.

End Chain.
End Answers.

(** ** Budgets *)

Lemma fold_opt_inv {A B} (I : B -> Prop) (f : B -> A -> option B) l b b' :
  (forall b x b', I b -> f b x = Some b' -> I b') -> I b -> fold_opt f l b = Some b' -> I b'.
Proof.
  intros Hf. revert b. induction l as [|x t IH]; intros b Hb; cbn; [by intros [= <-]|].
  destruct (f b x) as [b1|] eqn:E; cbn; [|done]. apply IH. by eapply Hf.
Qed.

Definition budgets_ok (tbl : list ((pystr * pystr) * Z)) : Prop := Forall (fun kv => 1 <= kv.2 <= MAX_TIMEOUT) tbl.

Lemma budgets_ok_dset k n tbl : 1 <= n <= MAX_TIMEOUT -> budgets_ok tbl -> budgets_ok (dset k n tbl).
Proof.
  unfold budgets_ok. intros Hn H. apply Forall_forall. intros kv Hkv. apply elem_dset in Hkv as [->|Hkv]; [exact Hn|].
  rewrite Forall_forall in H. exact (H kv Hkv).
Qed.

Lemma timeouts_ok v commands tbl : timeouts v commands = Some tbl -> budgets_ok tbl.
Proof.
  unfold timeouts. destruct v as [| | | | | |o]; try done. apply fold_opt_inv; [|by apply Forall_nil].
  intros b [r av] b' Hb. destruct (negb _ && negb _); [done|]. cbn [fst snd]. destruct av as [| | | | | |[|a t]]; try done.
  apply (fold_opt_inv budgets_ok); [|done]. clear. intros b av b' Hb. unfold budget. destruct (negb (bool_decide _)); [done|].
  destruct (negb _ && negb _); [done|]. destruct av.2 as [| |n| | | |]; try done. destruct (_ && _) eqn:E; [|done].
  intros [= <-]. apply andb_prop in E as [H1 H2]. apply budgets_ok_dset; [lia|done].
Qed.

(** In every node that starts, every controller budget, configured or default, is between one second and the limit below
    which a relayed peer, and then the client, still wait. *)
Theorem timeout_in_ladder cfg c resource action :
  new_plane cfg = Some c -> 1 <= timeout c resource action <= MAX_TIMEOUT /\ MAX_TIMEOUT < PEER_WAIT /\ PEER_WAIT < CLIENT_WAIT.
Proof.
  intros H. assert (Hb : budgets_ok (c_timeouts c)).
  { unfold new_plane, mbind, option_bind in H. destruct (get cfg "role") as [| | | |role| |]; try done. destruct (negb _); [done|].
    destruct (commands_of _) as [cmds|]; [|done]. destruct (dmem INVENTORY cmds); [done|].
    destruct (timeouts _ cmds) as [tbl|] eqn:Et; [|done]. apply timeouts_ok in Et. destruct (negb (truthy _)).
    - destruct cmds; [done|]. by injection H as <-.
    - destruct (argv _); [|done]. by injection H as <-. }
  split; [|done]. unfold timeout. assert (Hin : forall k n, dget k (c_timeouts c) = Some n -> 1 <= n <= MAX_TIMEOUT).
  { intros k n Hk. apply dget_In in Hk. unfold budgets_ok in Hb. rewrite Forall_forall in Hb. exact (Hb (k, n) Hk). }
  destruct (dget (resource, action) _) as [n|] eqn:E1; [by eapply Hin|]. destruct (dget (lit "default", action) _) as [n|] eqn:E2; [by eapply Hin|].
  unfold DEFAULT_TIMEOUT. by case_bool_decide.
Qed.

(** ** Two defects *)

(** A resource with a validate but no apply controller: a write starts nothing, yet is answered as unknown and journaled,
    and (when it names no boot identity) every further write of the resource is refused for an unknown outcome. *)
Theorem unconfigured_apply_blocks c e q w o v0 vt :
  is_local c q = true -> q_action q = lit "apply" ->
  dget (lit "validate") (default [] (dget (q_resource q) (c_commands c))) = Some (v0 :: vt) ->
  dget (lit "apply") (default [] (dget (q_resource q) (c_commands c))) = None ->
  e_run e (lit "validate") = Ret (JObj o) ->
  find_row (q_id q) (rows w) = None -> unknown_rows (q_resource q) (rows w) = [] -> bound_identity (q_payload q) = None ->
  let w' := (local c e q w).2 in
  (local c e q w).1 = Val (unknown_answer c q) /\ applies w' = applies w
  /\ forall e' q', q_resource q' = q_resource q -> q_action q' = lit "apply" -> find_row (q_id q') (rows w') = None ->
       (local c e' q' w').1
       = Val (response c (JStr (q_id q')) "rejected" JNull (Some (lit "resource has an unknown outcome; reconcile before another apply"))).
Proof.
  intros Hl Ha Hv Hna Hrun Hf Hu Hb.
  set (w1 := with_start {| x_request := q; x_action := lit "validate"; x_payload := q_payload q; x_out := Ret (JObj o) |} w).
  assert (H : local c e q w = (Val (unknown_answer c q), with_row (new_row q (unknown_answer c q)) w1)).
  { unfold local, catch. rewrite (local_apply c e q w Hl Ha). unfold apply, mbind at 1, M_bind at 1, stored, ask. rewrite Hf.
    unfold mbind at 1, M_bind at 1. rewrite Hu. cbn [length Nat.eqb]. unfold mbind at 1, M_bind at 1. cbn [mret M_ret negb Nat.eqb].
    unfold apply_new, mbind at 1, M_bind at 1, command. rewrite Hv. unfold mbind at 1, M_bind at 1, of_ran. rewrite Hrun. cbn [mret M_ret].
    unfold mbind at 1, M_bind at 1. cbn [insert_row]. unfold mbind at 1, M_bind at 1, catch, mbind at 1, M_bind at 1. by rewrite Hna. }
  rewrite H. cbn [fst snd]. split; [done|]. split; [unfold applies; cbn; by rewrite starts_snoc, app_nil_r|].
  intros e' q' Hr Ha' Hf'. unfold local, catch. rewrite local_apply; [|unfold is_local in *; by rewrite Hr|done].
  unfold apply, mbind at 1, M_bind at 1, stored, ask. rewrite Hf'. unfold mbind at 1, M_bind at 1.
  assert (Hun : unknown_rows (q_resource q') (rows (with_row (new_row q (unknown_answer c q)) w1)) = [new_row q (unknown_answer c q)]).
  { rewrite Hr. unfold unknown_rows in *. cbn. rewrite List.filter_app, Hu. cbn. by rewrite bool_decide_true. }
  rewrite Hun. cbn [length Nat.eqb]. unfold mbind at 1, M_bind at 1, supersede, mbind at 1, M_bind at 1, ask. rewrite Hun.
  cbn [supersede_rows new_row j_intent]. rewrite Hb. unfold mbind, M_bind. cbn [mret M_ret]. rewrite Hun. done.
Qed.

Lemma forward_other_rows c e q w : txt (q_action q) "apply" = false -> (forward c e q w).2 = w.
Proof.
  intros Ha. unfold forward. rewrite Ha. cbn [negb]. unfold forward_send, catch, mbind, M_bind, of_ran.
  destruct (e_peer e) as [v| |]; [|done..]. destruct (peer_reply c (q_id q) v); [|done]. by rewrite Ha.
Qed.

(** A relay whose journal holds an unknown outcome describes the resource with the identifier's recovery action [resolve];
    but no request of that resource other than the write itself, a reconciliation included, ever changes a row of its
    journal: they are answered by the peer. *)
Theorem relay_row_never_resolved c w r :
  c_peer c <> None -> r ∈ rows w -> jeq (j_state r) (J "unknown") = true -> dmem (j_resource r) (c_commands c) = false ->
  (exists l d acts, dget (lit "resources") (describe c (rows w)) = Some (JObj l) /\ (j_resource r, JObj d) ∈ l
     /\ get d "actions" = strs acts /\ lit "resolve" ∈ acts)
  /\ forall e msg q, check msg = Some q -> q_resource q = j_resource r -> q_action q <> lit "apply" ->
       rows (dispatch c e msg w).2 = rows w.
Proof.
  intros Hp Hr Hu Hl. split.
  - assert (Hin : r ∈ List.filter (fun r => jeq (j_state r) (J "unknown")) (rows w)).
    { apply list_elem_of_In, filter_In. by rewrite <- list_elem_of_In. }
    assert (Hw : map j_id (unknown_rows (j_resource r) (rows w)) <> []).
    { intros H. apply map_eq_nil in H. assert (Hr' : r ∈ unknown_rows (j_resource r) (rows w)); [|rewrite H in Hr'; by apply elem_of_nil in Hr'].
      apply list_elem_of_In, filter_In. rewrite <- list_elem_of_In, Hu, bool_decide_true by done. done. }
    eexists _, _, _. split; [reflexivity|]. split; [|split].
    + apply list_elem_of_fmap. exists (j_resource r). split; [reflexivity|]. rewrite py_sorted_perm. apply elem_of_remove_dups, elem_of_app.
      right. by apply list_elem_of_fmap_2.
    + reflexivity.
    + rewrite py_sorted_perm. apply elem_of_remove_dups, elem_of_app. right.
      rewrite (bool_decide_false (map j_id _ = [])) by done. cbn [negb]. rewrite orb_true_r. right. by left.
  - intros e msg q Hck Hq Ha. unfold dispatch. rewrite Hck. destruct (txt _ "inventory").
    { unfold mbind, M_bind. pose proof (inventory_world c e w) as H. destruct (inventory c e w) as [[]]; cbn in H |- *; by subst. }
    destruct (c_peer c); [|done]. unfold is_local. rewrite Hq, Hl. rewrite forward_other_rows; [done|].
    destruct (txt (q_action q) "apply") eqn:E; [|done]. by apply txt_true in E.
Qed.

End Daemon.

(** ** A node and requests to it *)

Arguments Val {A} a.
Arguments Exn {A} e.
Arguments Dead {A}.

Definition json_dec : forall a b : json, {a = b} + {a <> b}.
Proof.
  fix F 1. intros a b.
  refine (match a, b with
  | JNull, JNull => left eq_refl
  | JBool x, JBool y => match decide (x = y) with left _ => left _ | right _ => right _ end
  | JInt x, JInt y => match decide (x = y) with left _ => left _ | right _ => right _ end
  | JFloat x k, JFloat y n => match decide ((x, k) = (y, n)) with left _ => left _ | right _ => right _ end
  | JStr x, JStr y => match decide (x = y) with left _ => left _ | right _ => right _ end
  | JList l, JList m =>
      match (fix go (l m : list json) {struct l} : {l = m} + {l <> m} :=
               match l, m with
               | [], [] => left eq_refl
               | x :: l', y :: m' => match F x y with left _ => match go l' m' with left _ => left _ | right _ => right _ end | right _ => right _ end
               | _, _ => right _
               end) l m with left _ => left _ | right _ => right _ end
  | JObj l, JObj m =>
      match (fix go (l m : list (pystr * json)) {struct l} : {l = m} + {l <> m} :=
               match l, m with
               | [], [] => left eq_refl
               | (k, x) :: l', (n, y) :: m' =>
                   match decide (k = n) with
                   | left _ => match F x y with left _ => match go l' m' with left _ => left _ | right _ => right _ end | right _ => right _ end
                   | right _ => right _
                   end
               | _, _ => right _
               end) l m with left _ => left _ | right _ => right _ end
  | _, _ => right _
  end); clear F; congruence.
Defined.
#[export] Instance json_eq_decision : EqDecision json := json_dec.
#[export] Instance request_eq_decision : EqDecision request.
Proof. solve_decision. Defined.

Definition same (q : request) : request := q.
Definition fld (k : string) (v : json) : pystr * json := (lit k, v).
Definition ident (n : Z) : pystr := lit "00000000-0000-4000-8000-00000000000" ++ [48 + n].
Definition message (n : Z) (action : string) (payload : obj) : json :=
  JObj [fld "v" (JInt 1); fld "id" (JStr (ident n)); fld "resource" (J "phy"); fld "action" (J action); fld "payload" (JObj payload)].
Definition write_of (n : Z) : request :=
  {| q_id := ident n; q_resource := lit "phy"; q_action := lit "apply"; q_payload := [fld "revision" (JInt 3)] |}.
Definition write (n : Z) : json := message n "apply" [fld "revision" (JInt 3)].
Definition program : json := JList [J "/opt/phy"].
Definition leaf_cfg : obj :=
  [fld "role" (J "dp"); fld "commands" (JObj [fld "phy" (JObj [fld "status" program; fld "validate" program; fld "apply" program])]);
   fld "timeouts" (JObj [fld "phy" (JObj [fld "apply" (JInt 100)])])].
Definition leaf : config :=
  {| c_role := lit "dp"; c_commands := [(lit "phy", [(lit "status", [lit "/opt/phy"]); (lit "validate", [lit "/opt/phy"]); (lit "apply", [lit "/opt/phy"])])];
     c_timeouts := [((lit "phy", lit "apply"), 100)]; c_peer := None |}.
Definition relay_node : config := {| c_role := lit "mp"; c_commands := []; c_timeouts := []; c_peer := Some [lit "/usr/bin/ssh"] |}.
Definition done_env : env := {| e_run := fun _ => Ret (JObj [fld "revision" (JInt 4)]); e_peer := Raise OtherErr; e_flags := []; e_probe := [] |}.

Lemma timeout_witness : new_plane leaf_cfg = Some leaf
  /\ (1 <= timeout leaf (lit "phy") (lit "apply") <= MAX_TIMEOUT /\ MAX_TIMEOUT < PEER_WAIT /\ PEER_WAIT < CLIENT_WAIT).
Proof. split; [reflexivity|]. exact (timeout_in_ladder leaf_cfg leaf (lit "phy") (lit "apply") eq_refl). Defined.

Lemma applied_witness :
  let w' := serve same leaf ([] ++ [(write 1, done_env)]) in
  exists o, applied_answer leaf (write_of 1) [fld "revision" (JInt 4)] = applied_answer leaf (write_of 1) o
    /\ starts_of (q_id (write_of 1)) w' = [apply_start (write_of 1) (Ret (JObj o))].
Proof.
  exact (proj1 (applied_truthful same (fun q q' H => H) leaf [] done_env (write 1) (write_of 1)
                  (applied_answer leaf (write_of 1) [fld "revision" (JInt 4)]) eq_refl eq_refl eq_refl eq_refl) eq_refl).
Defined.

Lemma settled_witness :
  exists r, r ∈ rows (serve same leaf [(write 1, done_env); (write 2, done_env)]) /\ j_intent r = write_of 1
    /\ jeq (j_state r) (J "unknown") = false.
Proof.
  exact (earlier_outcomes_settled same (fun q q' H => H) leaf [(write 1, done_env); (write 2, done_env)] 1 3
           (apply_start (write_of 1) (Ret (JObj [fld "revision" (JInt 4)]))) (apply_start (write_of 2) (Ret (JObj [fld "revision" (JInt 4)])))
           eq_refl eq_refl ltac:(lia) eq_refl eq_refl eq_refl).
Defined.

(** The answer of the first attempt is lost on the way back; the repeated one is answered from the node's journal. *)
Definition relayed_answer : obj :=
  dset (lit "trace") (JList [J "mp"; J "dp"]) (applied_answer leaf (write_of 1) [fld "revision" (JInt 4)]).
Lemma relayed_witness :
  exists o, get relayed_answer "result" = JObj o
    /\ starts_of (q_id (write_of 1)) (at_node (travel same relay_node leaf
         ([At_relay (write 1) LostBack done_env done_env] ++ [At_relay (write 1) Both done_env done_env])))
       = [apply_start (write_of 1) (Ret (JObj o))].
Proof.
  exact (relayed_applied_truthful same (fun q q' H => H) relay_node leaf [At_relay (write 1) LostBack done_env done_env] (write 1) Both
           done_env done_env (write_of 1) relayed_answer ltac:(discriminate) eq_refl eq_refl eq_refl eq_refl eq_refl eq_refl).
Defined.

Definition no_apply : config :=
  {| c_role := lit "dp"; c_commands := [(lit "phy", [(lit "validate", [lit "/opt/phy"])])]; c_timeouts := []; c_peer := None |}.
Definition empty_world : world (D := request) := {| rows := []; log := [] |}.
Lemma unconfigured_witness :
  (local same no_apply done_env (write_of 1) empty_world).1 = Val (unknown_answer no_apply (write_of 1)).
Proof.
  exact (proj1 (unconfigured_apply_blocks same no_apply done_env (write_of 1) empty_world [fld "revision" (JInt 4)] (lit "/opt/phy") []
           eq_refl eq_refl eq_refl eq_refl eq_refl eq_refl eq_refl eq_refl)).
Defined.

(** A write the link lost, and a reconciliation of it. *)
Definition waiting_world : world := (dispatch same relay_node done_env (write 1) empty_world).2.
Definition waiting_row : row (D := request) := new_row same (write_of 1)
  (response relay_node (JStr (ident 1)) "unknown" JNull (Some (lit "Awaiting downstream outcome"))).
Definition resolve_payload : obj := [fld "request_id" (JStr (ident 1)); fld "observed_revision" (JInt 4)].
Lemma relay_row_witness :
  rows (dispatch same relay_node done_env (message 2 "resolve" resolve_payload) waiting_world).2 = rows waiting_world.
Proof.
  refine (proj2 (relay_row_never_resolved same relay_node waiting_world waiting_row ltac:(discriminate) _ eq_refl eq_refl)
            done_env (message 2 "resolve" resolve_payload)
            {| q_id := ident 2; q_resource := lit "phy"; q_action := lit "resolve"; q_payload := resolve_payload |} eq_refl eq_refl _).
  - left.
  - discriminate.
Defined.
