(* ===== verification/AgentChannel.v ===== *)
(** * Observation agents of the control plane

    [ffn_agent_protocol.py] and the agent half of [ffn_control_plane.py]: an agent on a CP or DP answers challenges with
    numbered reports ([serve]); the control daemon checks each answer ([validate]), supervises the channel
    ([ControlPlane.supervise]), publishes what it holds ([ControlPlane.status]) and reads its configuration
    ([load_config]).

    A frame is the object it encodes, or nothing when it cannot be read; nonces, clock readings and the ends of the
    subprocess are inputs.  The hardware boot status, times in the event list and the wait between attempts are left out.

    Main results: what the status calls fresh or ready is exactly an answer accepted as the last thing that happened on the
    channel, young enough and ready ([ready_exact]); the agent's answers are accepted in order
    ([agent_accepted]); and with an accepted configuration an agent that keeps its times is never reported stale
    ([healthy_agent_fresh]). *)

From S2P Require Import Prelude PyStr PyDict PyJson PyTime Planed.
From Stdlib Require Import Lqa.
#[local] Open Scope Z_scope.

(** ** The protocol *)

(** [canonical]. *)
Definition canonical (v : json) : option pystr := match v with JStr s => if canonical_uuid s then Some s else None | _ => None end.
Definition is_bool (v : json) : bool := match v with JBool _ => true | _ => false end.
Definition REPLY : list string :=
  ["v"; "nonce"; "role"; "platform"; "instance"; "boot_id"; "sequence"; "observed_at"; "report"]%string.

(** [validate]: an answer that is accepted; every refusal is a [ValueError]. *)
Definition continues (reply previous : obj) : bool :=
  jeq (get reply "instance") (get previous "instance") && jeq (get reply "boot_id") (get previous "boot_id")
  && match get reply "sequence", get previous "sequence" with JInt n, JInt m => n =? m + 1 | _, _ => false end.
Definition validate (reply : obj) (nonce role platform : pystr) (previous : option obj) : bool :=
  fields_are REPLY reply
  && match get reply "v" with JInt n => n =? 1 | _ => false end
  && jeq (get reply "nonce") (JStr nonce) && jeq (get reply "role") (JStr role) && jeq (get reply "platform") (JStr platform)
  && match get reply "sequence" with JInt n => 1 <=? n | _ => false end
  && match get reply "report" with
     | JObj report => is_bool (get report "ready") && jeq (get report "boot_id") (get reply "boot_id")
     | _ => false
     end
  && (if canonical (get reply "instance") then true else false) && (if canonical (get reply "boot_id") then true else false)
  && match previous with Some p => continues reply p | None => true end.

(** [serve]: one request of the loop, with the provider's report, the sampled resources and the clock; [None] when an exception
    ends the agent. *)
Definition serve_one (role platform instance : pystr) (sequence : Z) (request : obj) (report : json) (resources observed_at : json)
  : option obj :=
  if negb (fields_are ["v"; "nonce"; "op"] request && match get request "v" with JInt n => n =? 1 | _ => false end
           && jeq (get request "op") (J "observe")) then None
  else
    nonce ← canonical (get request "nonce");
    match report with
    | JObj r =>
        if negb (is_bool (get r "ready")) then None
        else
          boot ← canonical (get r "boot_id");
          Some [(lit "v", JInt 1); (lit "nonce", JStr nonce); (lit "role", JStr role); (lit "platform", JStr platform);
                (lit "instance", JStr instance); (lit "boot_id", JStr boot); (lit "sequence", JInt (sequence + 1));
                (lit "observed_at", observed_at); (lit "report", JObj (dset (lit "host_resources") resources r))]
    | _ => None
    end.
(** The challenge of [supervise]. *)
Definition challenge (nonce : pystr) : obj := [(lit "v", JInt 1); (lit "op", J "observe"); (lit "nonce", JStr nonce)].

(** ** Configuration *)

Record agent_cfg := { a_argv : list pystr; a_role : pystr; a_platform : pystr; a_interval : Z; a_timeout : Z; a_stale_after : Z }.
Record control_cfg := { worker_socket : option pystr; agents : list (pystr * agent_cfg) }.
Record file_state := { f_uid : Z; f_mode : Z; f_size : Z }.

Definition is_abs (s : pystr) : bool := match s with 47 :: _ => true | _ => false end.
Definition timing (v : json) : option Z := match v with JInt n => if (1 <=? n) && (n <=? 300) then Some n else None | _ => None end.
Definition load_agent (name : pystr) (v : json) : option (pystr * agent_cfg) :=
  match v with
  | JObj o =>
      if bool_decide (64 < length name)%nat || negb (fields_are ["argv"; "role"; "platform"; "interval"; "timeout"; "stale_after"] o) then None
      else match get o "argv", get o "role", get o "platform" with
           | JList l, JStr role, JStr platform =>
               if negb (txt role "cp" || txt role "dp") || bool_decide (40 < length l)%nat then None
               else
                 args ← argv (JList l);
                 interval ← timing (get o "interval"); wait ← timing (get o "timeout"); stale ← timing (get o "stale_after");
                 if stale <=? interval + wait then None
                 else Some (name, {| a_argv := args; a_role := role; a_platform := platform; a_interval := interval; a_timeout := wait;
                                     a_stale_after := stale |})
           | _, _, _ => None
           end
  | _ => None
  end.
(** [load_config]: no file, or its state and content; [None] when it raises. *)
Definition load_config (own_socket : pystr) (file : option (file_state * json)) : option control_cfg :=
  match file with
  | None => Some {| worker_socket := None; agents := [] |}
  | Some (st, JObj cfg) =>
      if negb (f_uid st =? 0) || negb (Z.land (f_mode st) 18 =? 0) || (65536 <? f_size st) then None
      else if negb (fields_are ["worker_socket"; "agents"] cfg) then None
      else match get cfg "worker_socket", get cfg "agents" with
           | JStr s, JObj l =>
               if negb (is_abs s) || bool_decide (s = own_socket) || bool_decide (4 < length l)%nat then None
               else r ← map_opt (fun kv => load_agent kv.1 kv.2) l; Some {| worker_socket := Some s; agents := r |}
           | _, _ => None
           end
  | Some _ => None
  end.

(** ** Supervision *)

Record agent := { connected : bool; received : option Q; sample : option obj; error : option string; reconnects : Z }.
Definition awaiting : agent := {| connected := false; received := None; sample := None; error := Some "awaiting agent"%string; reconnects := 0 |}.

(** What happens on a channel: the process starts or not; an answer to the challenge [nonce] arrives ([None]: a frame that
    cannot be read); the exchange fails or takes too long; the task is cancelled. *)
Inductive channel_event := Spawned | SpawnFailed | Answer (nonce : pystr) (reply : option obj) (now : Q) | Broken | Cancelled.
Inductive notice := AgentConnected (boot : json) | AgentDisconnected.
(** The supervising task: the channel with the last answer on it, or none; the next wait. *)
Record task := { channel : option (option obj); backoff : Z; ag : agent; events : list notice; cancelled : bool }.
Definition first_task : task := {| channel := None; backoff := 1; ag := awaiting; events := []; cancelled := false |}.

Definition EVENTS_KEPT : nat := 256.
Definition append_event (n : notice) (l : list notice) : list notice := drop (length (l ++ [n]) - EVENTS_KEPT) (l ++ [n]).
(** The [except] and [finally] clauses, the count and the wait. *)
Definition disconnected (t : task) : task :=
  {| channel := None; backoff := Z.min 30 (backoff t * 2);
     ag := {| connected := false; received := received (ag t); sample := sample (ag t);
              error := Some "Agent disconnected, timed out, or returned an invalid report"%string; reconnects := reconnects (ag t) + 1 |};
     events := append_event AgentDisconnected (events t); cancelled := false |}.
Definition accepted (reply : obj) (now : Q) (t : task) : task :=
  {| channel := Some (Some reply); backoff := 1;
     ag := {| connected := true; received := Some now; sample := Some reply; error := None; reconnects := reconnects (ag t) |};
     events := if connected (ag t) then events t else append_event (AgentConnected (get reply "boot_id")) (events t);
     cancelled := false |}.
Definition supervise (cfg : agent_cfg) (t : task) (ev : channel_event) : task :=
  if cancelled t then t
  else match ev, channel t with
       | Spawned, None => {| channel := Some None; backoff := backoff t; ag := ag t; events := events t; cancelled := false |}
       | SpawnFailed, None | Broken, Some _ => disconnected t
       | Answer nonce (Some reply) now, Some previous =>
           if validate reply nonce (a_role cfg) (a_platform cfg) previous then accepted reply now t else disconnected t
       | Answer _ None _, Some _ => disconnected t
       | Cancelled, _ =>
           {| channel := None; backoff := backoff t;
              ag := {| connected := false; received := received (ag t); sample := sample (ag t); error := error (ag t); reconnects := reconnects (ag t) |};
              events := events t; cancelled := true |}
       | _, _ => t
       end.
(** Events that the state of the channel does not allow are no history. *)
Definition possible (t : task) (ev : channel_event) : bool :=
  negb (cancelled t)
  && match ev, channel t with
     | Spawned, None | SpawnFailed, None | Broken, Some _ | Answer _ _ _, Some _ | Cancelled, _ => true
     | _, _ => false
     end.
Fixpoint history_ok (cfg : agent_cfg) (t : task) (es : list channel_event) : bool :=
  match es with [] => true | ev :: r => possible t ev && history_ok cfg (supervise cfg t ev) r end.
Definition channel_run (cfg : agent_cfg) (es : list channel_event) : task := fold_left (supervise cfg) es first_task.

(** ** Status *)

Record observed := { o_connected : bool; o_fresh : bool; o_age : option Q; o_ready : bool; o_error : option string; o_last : option obj }.
Definition age_of (now : Q) (a : agent) : option Q := (fun r => if Qle_bool 0 (now - r)%Q then (now - r)%Q else 0%Q) <$> received a.
Definition report_ready (o : obj) : bool := match get o "report" with JObj r => truthy (get r "ready") | _ => false end.
Definition status (cfg : agent_cfg) (now : Q) (a : agent) : observed :=
  let fresh := connected a && match age_of now a with Some age => negb (Qle_bool (inject_Z (a_stale_after cfg)) age) | None => false end in
  {| o_connected := connected a; o_fresh := fresh; o_age := age_of now a;
     o_ready := fresh && match sample a with Some o => report_ready o | None => false end;
     o_error := if fresh then None else Some (default "Observation expired"%string (error a)); o_last := sample a |}.

(** ** What the status tells *)

Definition too_old (cfg : agent_cfg) (now t0 : Q) : bool :=
  Qle_bool (inject_Z (a_stale_after cfg)) (if Qle_bool 0 (now - t0)%Q then (now - t0)%Q else 0%Q).
(** The last event of a history is an answer that was accepted on its channel. *)
Definition just_accepted (cfg : agent_cfg) (es : list channel_event) (reply : obj) (t0 : Q) : Prop :=
  exists es' nonce previous, es = es' ++ [Answer nonce (Some reply) t0] /\ channel (channel_run cfg es') = Some previous
    /\ validate reply nonce (a_role cfg) (a_platform cfg) previous = true.

Lemma channel_run_snoc cfg es ev : channel_run cfg (es ++ [ev]) = supervise cfg (channel_run cfg es) ev.
Proof. unfold channel_run. by rewrite fold_left_app. Qed.

Lemma history_snoc cfg t es ev : history_ok cfg t (es ++ [ev]) = history_ok cfg t es && possible (fold_left (supervise cfg) es t) ev.
Proof. revert t. induction es as [|x es IH]; intros t; cbn; [by rewrite andb_true_r|]. by rewrite IH, andb_assoc. Qed.

(** An agent is connected while its channel holds an answer. *)
Definition linked (t : task) : Prop := connected (ag t) = true -> exists r, channel t = Some (Some r) /\ cancelled t = false.

Lemma supervise_linked cfg t ev : linked t -> linked (supervise cfg t ev).
Proof.
  intros H. unfold supervise. destruct (cancelled t) eqn:Ec; [done|]. destruct ev as [| |nonce [reply|] now| |], (channel t) as [p|] eqn:Ech;
    try done; try (intros Hc; destruct (H Hc) as (r & Hr & _); congruence).
  - destruct (validate _ _ _ _ _); [|done]. intros _. by exists reply.
Qed.

Lemma run_linked cfg es : linked (channel_run cfg es).
Proof.
  induction es as [|ev es IH] using rev_ind; [done|]. rewrite channel_run_snoc. by apply supervise_linked.
Qed.

(** After one more possible event the agent is connected exactly if the event is an accepted answer, which it then holds. *)
Lemma connected_last cfg es :
  history_ok cfg first_task es = true ->
  match connected (ag (channel_run cfg es)) with
  | true => exists reply t0, just_accepted cfg es reply t0 /\ sample (ag (channel_run cfg es)) = Some reply
                             /\ received (ag (channel_run cfg es)) = Some t0
  | false => forall reply t0, ~ just_accepted cfg es reply t0
  end.
Proof.
  destruct es as [|ev es _] using rev_ind.
  { intros _. cbn. intros reply t0 (es' & nonce & p & He & _). by destruct es'. }
  rewrite history_snoc, channel_run_snoc. intros [_ Hp]%andb_prop. fold (channel_run cfg es) in Hp.
  pose proof (run_linked cfg es) as Hl. set (t := channel_run cfg es) in *.
  assert (Hno : connected (ag (supervise cfg t ev)) = false -> forall reply t0, ~ just_accepted cfg (es ++ [ev]) reply t0).
  { intros Hc reply t0 (es' & nonce & p & [-> ->]%app_inj_tail & Hch & Hv). fold t in Hch.
    unfold possible in Hp. apply andb_prop in Hp as [Hca _]. apply negb_true_iff in Hca.
    unfold supervise in Hc. rewrite Hca, Hch, Hv in Hc. done. }
  destruct (connected (ag (supervise cfg t ev))) eqn:Hc; [|by apply Hno].
  unfold possible in Hp. apply andb_prop in Hp as [Hca Hp]. apply negb_true_iff in Hca.
  unfold supervise in Hc |- *. rewrite Hca in Hc |- *.
  destruct ev as [| |nonce [reply|] now| |], (channel t) as [p|] eqn:Ech; try done;
    try (destruct (Hl Hc) as (r & Hr & _); congruence).
  destruct (validate _ _ _ _ _) eqn:Ev; [|done]. exists reply, now. split; [|done]. by exists es, nonce, p.
Qed.

(** C20. Along every history of a channel (starts, answers to challenges, unreadable frames, time-outs, cancellation), the status
    says ready exactly when the last thing that happened is an answer that passed every check against its own challenge
    and the previous answer of the channel, it is younger than the limit, and it says ready. *)
Theorem ready_exact cfg es now :
  history_ok cfg first_task es = true ->
  o_ready (status cfg now (ag (channel_run cfg es))) = true
  <-> exists reply t0, just_accepted cfg es reply t0 /\ too_old cfg now t0 = false /\ report_ready reply = true.
Proof.
  intros H%connected_last. cbn [status o_ready]. unfold age_of. destruct (connected _).
  - destruct H as (reply & t0 & Hja & -> & ->). cbn [fmap option_fmap option_map]. fold (too_old cfg now t0). cbn [andb]. split.
    + intros [Ho Hr]%andb_prop. exists reply, t0. apply negb_true_iff in Ho. done.
    + intros (reply' & t0' & (es1 & n1 & p1 & -> & _) & Ho & Hr). destruct Hja as (es2 & n2 & p2 & [_ He]%app_inj_tail & _).
      injection He as <- <- <-. by rewrite Ho, Hr.
  - cbn. split; [done|]. intros (reply & t0 & Hja & _). by destruct (H reply t0).
Qed.

(** ** A healthy agent *)

Lemma map_opt_In {A B} (f : A -> option B) l r y : map_opt f l = Some r -> y ∈ r -> exists x, f x = Some y.
Proof.
  revert r. induction l as [|x t IH]; intros r; cbn; [intros [= <-]; by intros ?%elem_of_nil|].
  destruct (f x) as [b|] eqn:E; cbn; [|done]. destruct (map_opt f t) as [r'|]; cbn; [|done]. intros [= <-].
  intros [->|Hy]%elem_of_cons; [eauto|]. by apply (IH r').
Qed.

Lemma load_agent_times name v a : load_agent name v = Some a -> a_interval a.2 + a_timeout a.2 < a_stale_after a.2.
Proof.
  unfold load_agent, mbind, option_bind. destruct v as [| | | | | |o]; try done. destruct (_ || _); [done|].
  destruct (get o "argv"), (get o "role"), (get o "platform"); try done. destruct (_ || _); [done|].
  destruct (argv _); [|done]. destruct (timing _) as [i|]; [|done]. destruct (timing _) as [w|]; [|done]. destruct (timing _) as [st|]; [|done].
  destruct (st <=? i + w) eqn:E; [done|]. intros [= <-]. cbn. lia.
Qed.

(** With a configuration that was accepted, an agent is fresh, without an error, from an accepted answer until its next
    one is due: through the pause and the whole time it may take. *)
Theorem healthy_agent_fresh own file cc name cfg es reply t0 now :
  load_config own file = Some cc -> (name, cfg) ∈ agents cc -> history_ok cfg first_task es = true -> just_accepted cfg es reply t0 ->
  (t0 <= now)%Q -> (now <= t0 + inject_Z (a_interval cfg + a_timeout cfg))%Q ->
  let s := status cfg now (ag (channel_run cfg es)) in o_fresh s = true /\ o_error s = None /\ o_last s = Some reply.
Proof.
  intros Hload Hin Hh Hja Hlo Hhi. assert (Ht : a_interval cfg + a_timeout cfg < a_stale_after cfg).
  { unfold load_config in Hload. destruct file as [[st v]|]; [|injection Hload as <-; by apply elem_of_nil in Hin].
    destruct v as [| | | | | |o]; try done. destruct (_ || _); [done|]. destruct (negb _); [done|].
    destruct (get o "worker_socket"), (get o "agents"); try done. destruct (_ || _); [done|]. cbn in Hload.
    destruct (map_opt _ _) as [r|] eqn:Er; [|done]. injection Hload as <-.
    destruct (map_opt_In _ _ _ _ Er Hin) as (kv & Hkv). apply load_agent_times in Hkv. done. }
  apply connected_last in Hh. destruct (connected (ag (channel_run cfg es))) eqn:Hc; [|by destruct (Hh reply t0)].
  destruct Hh as (reply' & t0' & (es1 & n1 & p1 & -> & _) & Hs & Hr). destruct Hja as (es2 & n2 & p2 & [_ He]%app_inj_tail & _).
  injection He as -> -> ->. cbn [status o_fresh o_error o_last]. unfold age_of. rewrite Hr, Hs, Hc.
  cbn [fmap option_fmap option_map andb]. fold (too_old cfg now t0). assert (Ho : too_old cfg now t0 = false); [|by rewrite Ho].
  unfold too_old. apply not_true_iff_false. intros Hq%Qle_bool_iff.
  assert (H0 : Qle_bool 0 (now - t0) = true) by (apply Qle_bool_iff; lra). rewrite H0 in Hq.
  assert (Hz : (inject_Z (a_interval cfg + a_timeout cfg) < inject_Z (a_stale_after cfg))%Q) by (by rewrite <- Zlt_Qlt). lra.
Qed.

(** ** The agent's answers are accepted *)

Record observation := { b_nonce : pystr; b_report : obj; b_resources : json; b_at : json; b_received : Q }.
Section Exchange.
Variables (role platform instance boot : pystr).
(** The agent's answers to a sequence of challenges, from a sequence number on. *)
Fixpoint answers (n : Z) (l : list observation) : list channel_event :=
  match l with
  | [] => []
  | b :: t => Answer (b_nonce b) (serve_one role platform instance n (challenge (b_nonce b)) (JObj (b_report b)) (b_resources b) (b_at b))
                (b_received b) :: answers (n + 1) t
  end.
(** A report of this boot, asked for with a proper nonce. *)
Definition proper (b : observation) : bool :=
  canonical_uuid (b_nonce b) && is_bool (get (b_report b) "ready") && jeq (get (b_report b) "boot_id") (JStr boot).

Hypothesis instance_ok : canonical_uuid instance = true.
Hypothesis boot_ok : canonical_uuid boot = true.

Lemma get_dset_other (o : obj) k k' v : k <> k' -> get (dset (lit k) v o) k' = get o k'.
Proof. intros H. unfold get, jget. rewrite dget_dset_ne; [done|]. intros He. apply lit_inj in He. congruence. Qed.

(** The answer with the number [n + 1]. *)
Definition answer_obj (n : Z) (b : observation) : obj :=
  [(lit "v", JInt 1); (lit "nonce", JStr (b_nonce b)); (lit "role", JStr role); (lit "platform", JStr platform);
   (lit "instance", JStr instance); (lit "boot_id", JStr boot); (lit "sequence", JInt (n + 1));
   (lit "observed_at", b_at b); (lit "report", JObj (dset (lit "host_resources") (b_resources b) (b_report b)))].

Lemma jeq_self s : jeq (JStr s) (JStr s) = true.
Proof. rewrite jeq_strs. by apply bool_decide_eq_true. Qed.

Lemma serve_one_answer n b :
  proper b = true ->
  serve_one role platform instance n (challenge (b_nonce b)) (JObj (b_report b)) (b_resources b) (b_at b) = Some (answer_obj n b).
Proof.
  intros [[Hno Hre]%andb_prop Hbo]%andb_prop. apply jeq_str in Hbo. unfold serve_one.
  change (get (challenge (b_nonce b)) "nonce") with (JStr (b_nonce b)).
  change (fields_are ["v"; "nonce"; "op"] (challenge (b_nonce b))) with true.
  change (get (challenge (b_nonce b)) "v") with (JInt 1). change (jeq (get (challenge (b_nonce b)) "op") (J "observe")) with true.
  cbn [Z.eqb Pos.eqb negb andb]. unfold mbind, option_bind. cbn [canonical]. rewrite Hno, Hre, Hbo. cbn [canonical negb]. by rewrite boot_ok.
Qed.

Lemma answer_accepted n b previous :
  0 <= n -> proper b = true ->
  (forall p, previous = Some p -> exists b', p = answer_obj (n - 1) b') ->
  validate (answer_obj n b) (b_nonce b) role platform previous = true.
Proof.
  intros Hn [[Hno Hre]%andb_prop Hbo]%andb_prop Hp. apply jeq_str in Hbo. unfold validate.
  assert (Hcont : match previous with Some p => continues (answer_obj n b) p | None => true end = true).
  { destruct previous as [p|]; [|done]. destruct (Hp p eq_refl) as (b' & ->). unfold continues.
    change (get (answer_obj n b) "instance") with (JStr instance). change (get (answer_obj (n - 1) b') "instance") with (JStr instance).
    change (get (answer_obj n b) "boot_id") with (JStr boot). change (get (answer_obj (n - 1) b') "boot_id") with (JStr boot).
    change (get (answer_obj n b) "sequence") with (JInt (n + 1)). change (get (answer_obj (n - 1) b') "sequence") with (JInt (n - 1 + 1)).
    rewrite !jeq_self. cbn [andb]. lia. }
  rewrite Hcont. change (fields_are REPLY (answer_obj n b)) with true. change (get (answer_obj n b) "v") with (JInt 1).
  change (get (answer_obj n b) "nonce") with (JStr (b_nonce b)). change (get (answer_obj n b) "role") with (JStr role).
  change (get (answer_obj n b) "platform") with (JStr platform). change (get (answer_obj n b) "sequence") with (JInt (n + 1)).
  change (get (answer_obj n b) "instance") with (JStr instance). change (get (answer_obj n b) "boot_id") with (JStr boot).
  change (get (answer_obj n b) "report") with (JObj (dset (lit "host_resources") (b_resources b) (b_report b))).
  cbv beta iota. rewrite (get_dset_other _ "host_resources" "ready"), (get_dset_other _ "host_resources" "boot_id") by done.
  rewrite Hbo, !jeq_self, Hre. cbn [canonical]. rewrite instance_ok, boot_ok. cbn [Z.eqb Pos.eqb andb]. rewrite !andb_true_r. lia.
Qed.

(** Every answer of one boot keeps the channel up. *)
Lemma answers_run cfg t n l :
  a_role cfg = role -> a_platform cfg = platform -> 0 <= n -> cancelled t = false ->
  (exists previous, channel t = Some previous /\ forall p, previous = Some p -> exists b', p = answer_obj (n - 1) b') ->
  forallb proper l = true ->
  history_ok cfg t (answers n l) = true
  /\ reconnects (ag (fold_left (supervise cfg) (answers n l) t)) = reconnects (ag t)
  /\ (l <> [] -> connected (ag (fold_left (supervise cfg) (answers n l) t)) = true).
Proof.
  intros Hrole Hplat. revert t n. induction l as [|b l IH]; intros t n Hn Hc (prev & Hch & Hprev) Hall; [done|].
  cbn [forallb] in Hall. apply andb_prop in Hall as [Hb Hall]. cbn [answers]. rewrite (serve_one_answer n b Hb). cbn [history_ok fold_left].
  assert (Hs : supervise cfg t (Answer (b_nonce b) (Some (answer_obj n b)) (b_received b)) = accepted (answer_obj n b) (b_received b) t).
  { unfold supervise. rewrite Hc, Hch, Hrole, Hplat. by rewrite (answer_accepted n b prev Hn Hb Hprev). }
  rewrite Hs. unfold possible. rewrite Hc, Hch. cbn [negb andb].
  destruct (IH (accepted (answer_obj n b) (b_received b) t) (n + 1)) as (H1 & H2 & H3); [lia|done| |done|].
  { eexists. split; [reflexivity|]. intros p [= <-]. exists b. by replace (n + 1 - 1) with n by lia. }
  rewrite H1, H2. split; [done|]. split; [done|]. intros _. destruct l as [|b' l]; [done|]. by apply H3.
Qed.

End Exchange.

(** The two ends fit: the numbered answers of an agent with the configured role and platform, to proper challenges and
    from one boot, are all accepted in order; the channel stays up without a reconnection and the agent is connected. *)
Theorem agent_accepted cfg instance boot l :
  canonical_uuid instance = true -> canonical_uuid boot = true -> l <> [] -> forallb (proper boot) l = true ->
  let es := Spawned :: answers (a_role cfg) (a_platform cfg) instance 0 l in
  history_ok cfg first_task es = true /\ connected (ag (channel_run cfg es)) = true /\ reconnects (ag (channel_run cfg es)) = 0.
Proof.
  intros Hi Hb Hne Hall es.
  destruct (answers_run (a_role cfg) (a_platform cfg) instance boot Hi Hb cfg (supervise cfg first_task Spawned) 0 l eq_refl eq_refl
              ltac:(lia) eq_refl) as (H1 & H2 & H3); [by exists None|done|].
  split; [exact H1|]. split; [exact (H3 Hne)|exact H2].
Qed.

(** ** An example *)

Definition uuid_of (n : Z) : pystr := lit "00000000-0000-4000-8000-00000000000" ++ [48 + n].
Definition dp_agent : agent_cfg :=
  {| a_argv := [lit "/opt/agent"]; a_role := lit "dp"; a_platform := lit "fe100"; a_interval := 10; a_timeout := 5; a_stale_after := 30 |}.
Definition dp_report : obj := [(lit "ready", JBool true); (lit "boot_id", JStr (uuid_of 7))].
Definition observe (n : Z) (t : Q) : observation :=
  {| b_nonce := uuid_of n; b_report := dp_report; b_resources := JNull; b_at := JInt 0; b_received := t |}.
Definition dp_history : list channel_event :=
  Spawned :: answers (a_role dp_agent) (a_platform dp_agent) (uuid_of 9) 0 [observe 1 100%Q; observe 2 112%Q].

Lemma agent_accepted_witness :
  history_ok dp_agent first_task dp_history = true /\ connected (ag (channel_run dp_agent dp_history)) = true
  /\ reconnects (ag (channel_run dp_agent dp_history)) = 0.
Proof.
  exact (agent_accepted dp_agent (uuid_of 9) (uuid_of 7) [observe 1 100%Q; observe 2 112%Q] eq_refl eq_refl ltac:(discriminate) eq_refl).
Defined.

Definition second_answer : obj := answer_obj (lit "dp") (lit "fe100") (uuid_of 9) (uuid_of 7) 1 (observe 2 112%Q).
Lemma ready_witness :
  o_ready (status dp_agent 120%Q (ag (channel_run dp_agent dp_history))) = true
  <-> exists reply t0, just_accepted dp_agent dp_history reply t0 /\ too_old dp_agent 120%Q t0 = false /\ report_ready reply = true.
Proof. exact (ready_exact dp_agent dp_history 120%Q eq_refl). Defined.

Definition dp_file : option (file_state * json) :=
  Some ({| f_uid := 0; f_mode := 384; f_size := 300 |},
        JObj [(lit "worker_socket", J "/run/w.sock");
              (lit "agents", JObj [(lit "dp0", JObj [(lit "argv", JList [J "/opt/agent"]); (lit "role", J "dp"); (lit "platform", J "fe100");
                 (lit "interval", JInt 10); (lit "timeout", JInt 5); (lit "stale_after", JInt 30)])])]).
Lemma healthy_witness :
  let s := status dp_agent 127%Q (ag (channel_run dp_agent dp_history)) in o_fresh s = true /\ o_error s = None /\ o_last s = Some second_answer.
Proof.
  refine (healthy_agent_fresh (lit "/run/c.sock") dp_file {| worker_socket := Some (lit "/run/w.sock"); agents := [(lit "dp0", dp_agent)] |}
            (lit "dp0") dp_agent dp_history second_answer 112%Q 127%Q eq_refl _ eq_refl _ _ _).
  - left.
  - eexists _, _, _. split; [exact (app_assoc [Spawned] [_] [_])|]. split; reflexivity.
  - by apply Qle_bool_iff.
  - by apply Qle_bool_iff.
Defined.
